(* ===== verification/_CoqProject ===== *)
-Q . S2P
Prelude.v
Prog.v
GoLib.v
ExecutionPolicy.v
Approval.v
Json.v
GoPath.v
ArtifactLocks.v
PathSafety.v
CommandEffect.v
Permission.v
Plans.v
TeamPlan.v
Team.v
LoopRegistry.v
Digest.v
Edits.v
JsonText.v
ApprovalProof.v
ToolCatalog.v
ToolSchema.v
Guards.v
FileMutation.v
Dispatch.v
Evidence.v
Completion.v
GoFloat.v
RuntimePlane.v
Telemetry.v
Cron.v
Kairos.v
PlanObserver.v
Records.v
SessionData.v
Reconciliation.v
SessionStore.v
SessionSound.v
BoundedText.v
DurableRun.v
