(* ===== verification/Prelude.v ===== *)
(** * Corelay Code: a verification library for the Go implementation

    Corelay Code runs coding agents: an agent kernel sends a model's tool calls through
    permission checks to executors, teams of agents work through plans, and transports
    (HTTP, ACP, a terminal) drive them.  This library models the parts that decide what
    an agent may do, what is recorded about it and when it may stop, as executable
    definitions translated from the Go code, with theorems about them.  Paths below are
    relative to [src/internal/].

    ** Parts, files and how they interact

    A run acts under a policy snapshot ([ExecutionPolicy]).  The permission decision for
    a tool call ([Permission]) consults the settings rules, the static effect of the
    command ([CommandEffect]), the canonical paths of its operands ([PathSafety]) and the
    policy; an [Ask] becomes a request of the approval broker ([Approval]).  The broker
    outlives runs, and so do the registry of running loops ([LoopRegistry]) and the
    stored workstream plans ([Plans]).  A team run ([Team]) executes the tasks of a
    validated team plan ([TeamPlan]).

    The tool calls of a turn go through the dispatcher ([Dispatch]).  It looks each tool
    up in the catalog of the run ([ToolCatalog]), checks the input against the schema
    advertised there ([ToolSchema]), asks the guards of the run ([Guards]), which count
    repetitions and check that the file a call changes has been read, and the permission
    callback.  An approved call of a plugin or of a host-interaction tool carries a signed
    proof ([ApprovalProof]) to its executor.  The Edit tool computes the new text
    ([Edits]); Write and Edit replace the file ([FileMutation]) under a lock on its path
    ([ArtifactLocks]).  In a strict run the outcomes of tools become evidence
    ([Evidence]), and the run completes when every criterion of its completion contract
    ([Completion]) cites some.

    Each request to a model is served by an account that the runtime plane
    ([RuntimePlane]) chooses from configured accounts merged with what was observed of
    them ([Telemetry]).  The background daemon ([Kairos]) runs scheduled tasks ([Cron]),
    some of them bound to a stage of a plan, which they only observe ([PlanObserver]).

    What a run did is kept in a session ([SessionStore], over the data of [SessionData]).
    Before its tools start the journal marks the session as interrupted, and an observer of
    the run's events ([DurableRun], whose texts are cut by [BoundedText]) makes the messages
    to commit with that marker, or a marker of its own when the run is lost.  A session that
    is marked is held until the run commits or the user acknowledges an assessment of what
    the run left in the files ([Reconciliation]).

    - [Prelude]: results and errors, automation, lemmas on lists, stable sorting,
      counting and step relations.  [Prog]: goroutines as programs of atomic actions, pools
      of them, and rely-guarantee weakest preconditions.  [GoLib], [GoPath], [Json],
      [JsonText], [Digest], [GoFloat]: the functions of Go's standard library that the code
      uses (strings, machine integers, times; [path/filepath] on Unix; decoded JSON and the
      text [json.Marshal] writes; SHA-256, hexadecimal and UTF-8; [float64]).
    - [ExecutionPolicy]: executionpolicy/policy.go, agent/execution_policy.go.  Modes as
      the code's strings, snapshots, [Resolve], [ResolveChild], [ValidateSnapshot].
      Snapshots and children never exceed what the user granted, and derivation fails
      closed.
    - [Approval]: approval/approval.go, broker.go.  The broker as a record of maps,
      entries, grants and timers; each method is a step, [Await] is split where it blocks.
      Allowed only by the user's decision, grants are spent once, resolutions are final,
      pending requests settle.
    - [PathSafety]: agent/path_safety.go.  Operand extraction, canonicalization through
      links and confinement, against an operating system given as the record [OS].
      Authorized paths are inside the workspace and free of the blocked texts (of those
      before the first empty one).
    - [CommandEffect]: agent/command_effect.go and the git part of agent/permission.go.
      The shell splitter, the classification of commands, what read-only means.
    - [Permission]: hooks/permissions.go, agent/permission.go.  Rules, denial counters,
      [CheckPermission] and the decision table of [ResolvePermissionWithPolicy].
    - [Plans]: workstream/plans.go.  The plan files of a workstream as a store, every
      mutation as an operation on it: compare-and-swap, the progress of stages, validity
      of every reachable plan, errors.
    - [TeamPlan]: agent/team_plan.go.  Validation, the search for dependency cycles
      against acyclicity, the capacity scheduler.
    - [Team]: agent/team.go, agent/durable_run.go.  Waves, batches, ownership, the
      terminal reducer and a team run as a step relation with interleaved workers: safety
      and termination.
    - [LoopRegistry]: agent/loop_registry.go.  Concurrent calls as interleaved atomic
      actions; a refinement of counting slots, draining on shutdown, progress.
    - [Guards]: agent/run_guard.go, agent/read_ledger.go.  The repeat budget against the
      history of the run, what makes two actions equivalent, read before write.
    - [Edits]: agent/edit_policy.go, agent/fuzzy.go.  The edit policies: string and fuzzy
      replacement and unified patches, against a relational specification of each; a patch
      can be undone.
    - [ArtifactLocks]: the mutation locks of agent/file_mutation.go, counted entries of a
      global map, as interleaved atomic actions: mutual exclusion per path and progress.
    - [FileMutation]: agent/file_mutation.go, file_mutation_batch.go, lint.go and the Write
      and Edit executors of tools_improved.go.  Single-use tokens carry the decision of the
      ledger in [Guards] to the executor; the executors stage a sibling file, check its
      syntax and commit it, as system calls of a file system that other processes change
      between any two of them; snapshots and rollback of a batch.  A mutation changes
      nothing but its target, and that only from the revision it was authorized for, while
      others leave its temporary files alone.  The rollback of a batch restores the files,
      but for directories that were created.
    - [ApprovalProof]: agent/plugin_approval.go and the approval part of
      agent/computer_use.go.  Minting, claiming and verifying signed proofs, with
      HMAC-SHA256 written out.  A proof authorizes the call it was minted for.  Uses of
      proofs as interleaved steps: one signature text is accepted twice only when the proof
      expires between the check and the claim of the second use.
    - [ToolCatalog], [ToolSchema]: agent/tool_schema.go.  Compiling a catalog, its
      registry and its markers; compiling a JSON schema and validating an input against
      it, which together decide the direct reading of the schema.
    - [Dispatch]: agent/tool_dispatch.go, concurrency.go and the batch part of
      file_mutation_batch.go.  A turn as a program: every call is authorized before any is
      executed, reads run concurrently, mutations as one batch that is rolled back, and
      each call gets one result, in its order.
    - [Evidence]: agent/evidence.go.  The ledger of a run and its stop gate; the
      typeclass [EvidenceStore] states what completion claims need of it, and
      [ledger_store] discharges it.
    - [Completion]: agent/completion_contract.go, agent/plan_anchor.go.  Contracts and
      claims in their three phases with calls interleaved: linearizability against the
      atomic specification, and completion only on evidence, proved against
      [EvidenceStore] and instantiated with the ledger.
    - [RuntimePlane]: runtimeplane/ and server/runtime_target.go.  Groups, quota windows,
      the scheduler, leases and the resolution of a request.  The chosen account is the
      least of the available ones in an order written out, whatever order they come in.
    - [Telemetry]: runtimeplane/telemetry.go.  What is recorded of an account and how it
      is merged into the configured ones; an account that refused is not chosen until its
      cooldown ends.
    - [Cron], [Kairos], [PlanObserver]: kairos/cron.go and the tasks, log and tick loop of
      kairos/daemon.go.  What a cron expression matches, which tasks a tick runs while
      users change them, that a cron task runs in the minutes of its expression, and once in
      each while its project is not opened and its id not added again, and which plan stages
      a task may see.
    - [Records]: field updates [s <| field := v |>] for the large records of the sessions.
      [SessionData], [SessionStore], [SessionSound]: agent/sessions.go.  The session and
      its validations; the store as a map of files, with every call that saves, commits,
      interrupts, reconciles, closes, forks, renames or deletes; and what the JSON text
      keeps ([written]).  Every write is a compare-and-swap on the revision, an interrupted
      session is held until someone answers for it, and what the store wrote it can read,
      given texts in UTF-8 and workspaces that resolve alike.
    - [Reconciliation]: agent/checkpoint_reconciliation.go.  The assessment of an
      interrupted session from its checkpoint and the receipt it becomes: no confirmation is
      asked only where every file is in a state the run recorded.
    - [BoundedText], [DurableRun]: agent/durable_run.go and the execution journal of
      agent/sessions.go.  The marker of a run does not depend on how its parallel tools were
      scheduled, is one the session store accepts and keeps readable, and agrees with the
      journal's; the tool messages of the transcript are those of the result events, and what
      has none is unresolved.

    ** Conventions

    A definition has the name of the Go function it models and takes its receiver last;
    a helper names the loop or block it models.  A method under a mutex is a function on
    the state it protects.  Where the code releases the lock, blocks or starts
    goroutines, the component is a transition system whose steps are the atomic actions,
    invariants are proved by rule induction ([rtc_invariant]) and refinements by
    simulation ([rtc_simulation]).  Where one goroutine is followed through many actions
    ([Dispatch], the leases of [RuntimePlane], [Kairos]) it is a [Prog], and everything
    else that runs is the relation [interfere] or [others] between its actions.  The log
    of [Dispatch], which has the answers of callbacks and the clock readings of approvals, the
    accepted proofs of [ApprovalProof] and the [trace] of [Kairos] are ghosts: the code does
    not keep them.
    Callbacks are functions of what is outside the component.  Clocks, random identifiers, map
    iteration orders and the answers of the outside world are arguments of a function or
    choices of a step.
    Go's [int], [int64] and [uint64] are [Z], with the wrap-around written out where the
    code can reach it; strings are byte strings.  An operation returns [result]; one that
    returns a value together with an error returns the pair.

    Recursion that is not structural has fuel: the length of the string in the scanners
    ([strip_many], [fields], [runes_of]), the number of path components in
    [canonicalizeTarget], the number of tasks in the searches and levels of team plans.
    Every iteration consumes a byte, a component or a task, so the fuel is enough, and the
    correctness theorems of the searches and levels would fail if it were not.  The fuel of
    [ToolSchema] is the code's own guard on nesting; that of the steps of a cron field is
    64, more than the 60 values a field has, and [cron_matches_exact] proves it enough.
    A search for the longest valid prefix ([valid_prefix]) counts down from the bound.
    Floats are binary64 with every operation rounded, as Go computes them on machines
    that do not fuse a multiplication with an addition.  The
    termination of a team run and the progress of the registry are
    proved on the step relations, which have no fuel.

    A session file holds the session its text decodes to: what [MarshalIndent] writes is
    modelled by [written], the session with every byte that is not UTF-8 replaced, and what
    else may be in a file is [Garbled].  A call of [SessionStore] holds the store's mutex, so
    it is one step; a history is a list of calls, each with what the outside answers it.

    Each component file ends with concrete runs (the witnesses that the hypotheses of its
    theorems can hold) and with what modelling showed, such as the theorems
    [empty_blocked_path_hides_rest] of [PathSafety] or [extreme_requests_fit] of [Team].

    ** Not modelled

    The loop of the agent kernel is a sequence of input and output: it drives provider
    streams and calls the components above, and its state is mostly theirs.  Of the
    sessions, the listings, the metadata for recovering a corrupt file and the stored
    results and images are not modelled, nor is writing or undoing a checkpoint: what they
    answer is the record [Env] of [SessionStore] and [CheckpointDisk] of [Reconciliation].
    Context compaction, recovery of malformed tool calls
    ([recoverToolCallsForCatalog]), the HTTP and ACP servers, translation between
    providers, the parsing of quota headers and the snapshots of runtime state, retries
    and the cache of the API, the router and capability profiles are not modelled.  Of the
    daemon, the execution of a task (a process), A/B tests, reviews and memory are not;
    its task file is written successfully, and a loop that was stopped during a tick is not
    run beside the next one.  Of the catalog, registration under a digest marker and the legacy markers
    are not.  The process-wide lock [fileMutationBatchMu] is not modelled: whoever it
    keeps out is still among what [interfere] allows in [Dispatch].  The actions of a [Prog] are
    total: that a hook, a callback, an executor or a lock may wait forever is not expressed,
    so nothing is proved about blocking in [Dispatch].

    Windows and macOS branches, process execution, network clients, desktop interaction,
    file formats written by [encoding/json], the terminal interface and packaging are
    input/output around this logic.  The file system of [FileMutation] has
    regular files and directories (special files count as directories); a symbolic link
    planted after authorization is outside it, and the syntax checkers and decoders it
    calls are fields of its [Machine].  [redactSensitiveString], a chain of
    regular expressions, is an argument of [Completion] and [DurableRun]. *)

From Stdlib Require Export Sorted.
From stdpp Require Export base tactics list gmap sets strings relations numbers.
From stdpp Require sorting.
#[export] Set Warnings "-clear-no-such-hyp".

(** ** Results of fallible operations

    Go's [(T, error)] pairs whose value is meaningless on error are values of
    [result E T]; operations whose value is meaningful together with an error
    (for example [Broker.Resolve]) return the pair itself. *)

Inductive result (E A : Type) : Type :=
| Ok (a : A)
| Err (e : E).
Arguments Ok {E A} _.
Arguments Err {E A} _.

#[export] Instance result_ret {E} : MRet (result E) := λ A a, Ok a.
#[export] Instance result_bind {E} : MBind (result E) :=
  λ A B f r, match r with Ok a => f a | Err e => Err e end.
#[export] Instance result_fmap {E} : FMap (result E) :=
  λ A B f r, match r with Ok a => Ok (f a) | Err e => Err e end.

#[export] Instance result_eq_dec {E A} `{EqDecision E, EqDecision A} :
  EqDecision (result E A).
Proof. solve_decision. Defined.

Definition is_ok {E A} (r : result E A) : bool :=
  match r with Ok _ => true | Err _ => false end.

(** [guard_err b e] continues when the guard [b] holds, Go's
    [if !b { return ..., e }]. *)
Definition guard_err {E} (b : bool) (e : E) : result E unit :=
  if b then Ok tt else Err e.

Lemma result_bind_ok {E A B} (r : result E A) (f : A → result E B) b :
  (r ≫= f) = Ok b ↔ ∃ a, r = Ok a ∧ f a = Ok b.
Proof. destruct r; simpl; split; naive_solver. Qed.

Lemma result_bind_err {E A B} (r : result E A) (f : A → result E B) e :
  (r ≫= f) = Err e ↔ r = Err e ∨ ∃ a, r = Ok a ∧ f a = Err e.
Proof. destruct r; simpl; split; naive_solver. Qed.

Lemma guard_err_ok {E} b (e : E) u : guard_err b e = Ok u ↔ b = true.
Proof. destruct b, u; simpl; split; done. Qed.

Lemma guard_err_err {E} b (e e' : E) : guard_err b e = Err e' ↔ b = false ∧ e = e'.
Proof. destruct b; simpl; split; naive_solver. Qed.

(** ** Automation shared by the components *)

Create HintDb corelay.

(** [inv_result] opens hypotheses that say how a chain of fallible steps ended. *)
Ltac inv_result :=
  repeat match goal with
  | H : (_ ≫= _) = Ok _ |- _ => apply result_bind_ok in H as (? & ? & H)
  | H : guard_err _ _ = Ok _ |- _ => apply guard_err_ok in H
  | H : guard_err _ _ = Err _ |- _ => apply guard_err_err in H as [? ?]
  | H : Ok _ = Ok _ |- _ => injection H; clear H; intros; subst
  | H : Err _ = Err _ |- _ => injection H; clear H; intros; subst
  | H : Ok _ = Err _ |- _ => discriminate H
  | H : Err _ = Ok _ |- _ => discriminate H
  end.

(** [split_bools] turns boolean guards of the code into propositions. *)
Ltac split_bools :=
  repeat match goal with
  | H : _ && _ = true |- _ => apply andb_prop in H as [? ?]
  | H : _ || _ = false |- _ => apply orb_false_elim in H as [? ?]
  | H : negb _ = true |- _ => apply negb_true_iff in H
  | H : negb _ = false |- _ => apply negb_false_iff in H
  | H : bool_decide _ = true |- _ => apply bool_decide_eq_true in H
  | H : bool_decide _ = false |- _ => apply bool_decide_eq_false in H
  | H : String.eqb _ _ = true |- _ => apply String.eqb_eq in H
  | H : String.eqb _ _ = false |- _ => apply String.eqb_neq in H
  end.

(** [case_guards] analyses every [if]/[match] the goal still contains. *)
Ltac case_guards := repeat (case_match; simplify_eq/=; try done).

(** ** Booleans and options *)

Lemma orb_lazy_true (a b : bool) : (a || b) = true ↔ a = true ∨ (a = false ∧ b = true).
Proof. destruct a, b; naive_solver. Qed.

Definition default_nil {A} (o : option (list A)) : list A := default [] o.

(** ** Lists *)

Lemma Forall_elem {A} (P : A → Prop) (l : list A) :
  Forall P l ↔ ∀ x, x ∈ l → P x.
Proof. rewrite List.Forall_forall. by setoid_rewrite list_elem_of_In. Qed.

Section lists.
Context {A : Type}.
Implicit Types (l : list A) (p : A → bool).

(** Go's [for range] with an early [return true]. *)
Lemma existsb_elem p l : existsb p l = true ↔ ∃ x, x ∈ l ∧ p x = true.
Proof. rewrite existsb_exists. setoid_rewrite list_elem_of_In. done. Qed.

Lemma forallb_elem p l : forallb p l = true ↔ ∀ x, x ∈ l → p x = true.
Proof. rewrite forallb_forall. setoid_rewrite list_elem_of_In. done. Qed.

Lemma existsb_none p l : existsb p l = false ↔ ∀ x, x ∈ l → p x = false.
Proof.
  rewrite <-not_true_iff_false, existsb_elem. split.
  - intros Hn x Hx. apply not_true_iff_false. naive_solver.
  - intros Hall (x & Hx & Hp). rewrite Hall in Hp; done.
Qed.

(** The first element satisfying a test, Go's search loops. *)
Fixpoint find_index p l : option nat :=
  match l with
  | [] => None
  | x :: l' => if p x then Some 0 else S <$> find_index p l'
  end.

Lemma find_index_Some p l i :
  find_index p l = Some i ↔
  ∃ x, l !! i = Some x ∧ p x = true ∧
       ∀ j y, j < i → l !! j = Some y → p y = false.
Proof.
  revert i. induction l as [|x l IH]; intros i; simpl; [naive_solver|].
  destruct (p x) eqn:Hp.
  - split.
    + intros [= <-]. exists x. split_and!; [done..|]. intros j y Hj; lia.
    + intros (y & Hy & Hpy & Hmin). destruct i as [|i]; [done|].
      specialize (Hmin 0 x ltac:(lia) eq_refl). congruence.
  - rewrite fmap_Some. split.
    + intros (i' & Hi' & ->). apply IH in Hi' as (y & Hy & Hpy & Hmin).
      exists y. split_and!; [done..|]. intros [|j] z Hj; simpl; [naive_solver|].
      apply Hmin; lia.
    + intros (y & Hy & Hpy & Hmin). destruct i as [|i]; simpl in Hy; [congruence|].
      exists i. split; [|done]. apply IH. exists y. split_and!; [done..|].
      intros j z Hj. apply (Hmin (S j)); lia.
Qed.

Lemma find_index_None p l : find_index p l = None ↔ ∀ x, x ∈ l → p x = false.
Proof.
  induction l as [|x l IH]; simpl.
  - split; [intros _ x Hx; by apply not_elem_of_nil in Hx | done].
  - destruct (p x) eqn:Hp.
    + split; [done|]. intros Hall. rewrite Hall in Hp; [done|left].
    + rewrite fmap_None, IH. split.
      * intros Hall y Hy. apply elem_of_cons in Hy as [->|Hy]; auto.
      * intros Hall y Hy. apply Hall. by right.
Qed.
End lists.

Lemma filter_ext_in {A} (P Q : A → Prop) `{∀ x, Decision (P x), ∀ x, Decision (Q x)} (l : list A) :
  (∀ x, x ∈ l → P x ↔ Q x) → filter P l = filter Q l.
Proof.
  induction l as [|x l IH]; [done|]. intros Hpq. rewrite !filter_cons, (IH (λ y Hy, Hpq y (list_elem_of_further _ _ _ Hy))).
  rewrite (decide_ext (P x) (Q x)); [done|]. apply Hpq. left.
Qed.

(** ** Stable sorting

    Go's [sort.SliceStable] (and [sort.Slice] where the comparison is total)
    is determined by its contract: for a strict weak order the stable sorted
    permutation is unique.  It is modelled by stable insertion. *)

Class StrictWeak {A} (less : A → A → bool) : Prop := {
  sw_asym x y : less x y = true → less y x = false;
  sw_neg x y z : less x z = true → less x y = true ∨ less y z = true;
}.

Section stable_sort.
Context {A : Type} (less : A → A → bool).

Fixpoint insert_stable (x : A) (l : list A) : list A :=
  match l with
  | [] => [x]
  | y :: l' => if less y x then y :: insert_stable x l' else x :: y :: l'
  end.

Fixpoint stable_sort (l : list A) : list A :=
  match l with
  | [] => []
  | x :: l' => insert_stable x (stable_sort l')
  end.

Lemma insert_stable_perm x l : insert_stable x l ≡ₚ x :: l.
Proof.
  induction l as [|y l IH]; simpl; [done|].
  destruct (less y x); [|done]. rewrite IH. by apply Permutation_swap.
Qed.

Lemma stable_sort_perm l : stable_sort l ≡ₚ l.
Proof. induction l as [|x l IH]; simpl; [done|]. by rewrite insert_stable_perm, IH. Qed.

Lemma elem_of_stable_sort x l : x ∈ stable_sort l ↔ x ∈ l.
Proof. by rewrite stable_sort_perm. Qed.

(** No element is preceded by a strictly larger one. *)
Definition ordered : list A → Prop := StronglySorted (λ x y, less y x = false).

Context `{!StrictWeak less}.

Lemma sw_neg_trans x y z : less y x = false → less z y = false → less z x = false.
Proof.
  intros H1 H2. destruct (less z x) eqn:H; [|done].
  destruct (sw_neg z y x H); congruence.
Qed.

Lemma insert_stable_ordered x l : ordered l → ordered (insert_stable x l).
Proof.
  induction 1 as [|y l Hl IH Hy]; simpl; [repeat constructor|].
  destruct (less y x) eqn:Hyx.
  - constructor; [done|]. rewrite Forall_elem. intros z Hz.
    rewrite insert_stable_perm in Hz. apply elem_of_cons in Hz as [->|Hz].
    + by apply sw_asym.
    + rewrite Forall_elem in Hy. by apply Hy.
  - constructor; [by constructor|]. constructor; [done|].
    rewrite Forall_elem in Hy |- *. intros z Hz.
    by apply (sw_neg_trans x y); [|apply Hy].
Qed.

Lemma stable_sort_ordered l : ordered (stable_sort l).
Proof. induction l; simpl; [constructor|]. by apply insert_stable_ordered. Qed.

Lemma stable_sort_head l x l' :
  stable_sort l = x :: l' → x ∈ l ∧ ∀ y, y ∈ l → less y x = false.
Proof.
  intros Hs. pose proof (stable_sort_ordered l) as Ho. rewrite Hs in Ho.
  inversion Ho as [|? ? _ Hall]; subst. split.
  - apply (elem_of_stable_sort x l). rewrite Hs. left.
  - intros y Hy. apply (elem_of_stable_sort y l) in Hy. rewrite Hs in Hy.
    apply elem_of_cons in Hy as [->|Hy].
    + destruct (less x x) eqn:H; [|done]. by rewrite (sw_asym x x H) in H.
    + rewrite Forall_elem in Hall. by apply Hall.
Qed.

Lemma stable_sort_nil l : stable_sort l = [] ↔ l = [].
Proof.
  split; [|by intros ->]. intros H. pose proof (stable_sort_perm l) as Hp.
  rewrite H in Hp. by apply Permutation_nil in Hp.
Qed.
(** The sorted list does not depend on the order of the input when no two elements tie. *)
Lemma stable_sort_unique l l' :
  (∀ x y, x ∈ l → y ∈ l → less x y = false → less y x = false → x = y) →
  l ≡ₚ l' → stable_sort l = stable_sort l'.
Proof.
  intros Hu Hp. apply (sorting.StronglySorted_unique_strong (λ x y, less y x = false)).
  - intros x y Hx Hy. rewrite elem_of_stable_sort in Hx, Hy. rewrite <- Hp in Hy. intros. by apply Hu.
  - apply stable_sort_ordered.
  - apply stable_sort_ordered.
  - by rewrite !stable_sort_perm.
Qed.
End stable_sort.

Lemma filter_cons_inv {A} (P : A → Prop) `{∀ x, Decision (P x)} l x r :
  filter P l = x :: r → ∃ p q, l = p ++ x :: q ∧ Forall (λ y, ¬ P y) p ∧ filter P q = r.
Proof.
  induction l as [|y l IH]; [done|]. rewrite filter_cons. destruct (decide (P y)) as [Hy|Hy].
  - intros [= -> <-]. exists [], l. split_and!; [done|by apply Forall_nil|done].
  - intros H'. apply IH in H' as (p & q & -> & Hp & Hq). exists (y :: p), q.
    split_and!; [done|by apply list.Forall_cons|done].
Qed.

Lemma filter_none {A} (P : A → Prop) `{∀ x, Decision (P x)} l : Forall (λ y, ¬ P y) l → filter P l = [].
Proof. induction 1 as [|x l Hx _ IH]; [done|]. by rewrite filter_cons_False. Qed.

Section stable_sort_key.
Context {A K : Type} `{EqDecision K} (less : A → A → bool) `{!StrictWeak less} (key : A → K).
Context (less_key : ∀ x y, key x ≠ key y → less x y = true ∨ less y x = true).

Lemma insert_stable_swap x y l :
  key x ≠ key y → insert_stable less x (insert_stable less y l) = insert_stable less y (insert_stable less x l).
Proof using Type*.
  intros Hk. assert (Hxy : less x y = negb (less y x)).
  { destruct (less_key x y Hk) as [E|E]; rewrite E, (sw_asym _ _ E); done. }
  induction l as [|z l IH]; simpl; [rewrite Hxy; by destruct (less y x)|].
  destruct (less z y) eqn:Ezy, (less z x) eqn:Ezx; simpl; rewrite ?Ezx, ?Ezy; [by rewrite IH| | |].
  - destruct (sw_neg z x y Ezy) as [E|E]; [congruence|]. by rewrite E.
  - destruct (sw_neg z y x Ezx) as [E|E]; [congruence|]. by rewrite E.
  - rewrite Hxy. destruct (less y x); simpl; by rewrite ?Ezx, ?Ezy.
Qed.

Lemma stable_sort_front p x q :
  Forall (λ y, key y ≠ key x) p → stable_sort less (p ++ x :: q) = stable_sort less (x :: p ++ q).
Proof using Type*.
  induction 1 as [|y p Hy _ IH]; [done|]. simpl in *. by rewrite IH, insert_stable_swap.
Qed.

(** A stable sort by an order that refines the key does not depend on how elements with
    different keys are interleaved. *)
Lemma stable_sort_interleaved l l' :
  (∀ k, filter (λ x, key x = k) l = filter (λ x, key x = k) l') → stable_sort less l = stable_sort less l'.
Proof using Type*.
  revert l'. induction l as [|x l IH]; intros l' H.
  - destruct l' as [|x l']; [done|]. specialize (H (key x)). by rewrite filter_nil, filter_cons_True in H.
  - pose proof (H (key x)) as Hx. rewrite filter_cons_True in Hx by done. symmetry in Hx.
    apply filter_cons_inv in Hx as (p & q & -> & Hp & Hq). rewrite stable_sort_front by done.
    simpl. f_equal. apply IH. intros k. specialize (H k). rewrite list.filter_app in H |- *.
    destruct (decide (key x = k)) as [<-|Hk].
    + rewrite !filter_cons_True, (filter_none _ p Hp) in H by done. rewrite (filter_none _ p Hp).
      simpl in *. congruence.
    + by rewrite !filter_cons_False in H.
Qed.
End stable_sort_key.

(** Comparators as the code writes them: compare one key, fall through to the
    next on equality. *)
Definition less_then {A} (l1 l2 : A → A → bool) (x y : A) : bool :=
  l1 x y || (negb (l1 y x) && l2 x y).

#[export] Instance less_then_sw {A} (l1 l2 : A → A → bool) :
  StrictWeak l1 → StrictWeak l2 → StrictWeak (less_then l1 l2).
Proof.
  intros S1 S2. unfold less_then. split.
  - intros x y H. apply orb_prop in H as [H|H].
    + by rewrite (sw_asym x y H), H.
    + split_bools. rewrite H. destruct (l1 x y) eqn:E; simpl; [done|].
      by rewrite (sw_asym x y H0).
  - intros x y z H. apply orb_prop in H as [H|H].
    + destruct (sw_neg x y z H) as [->| ->]; [by left|by right].
    + split_bools. destruct (l1 x y) eqn:Hxy; [by left|].
      destruct (l1 y z) eqn:Hyz; [by right|]. simpl.
      assert (l1 y x = false) as ->.
      { destruct (l1 y x) eqn:E; [|done]. destruct (sw_neg y z x E); congruence. }
      assert (l1 z y = false) as ->.
      { destruct (l1 z y) eqn:E; [|done]. destruct (sw_neg z x y E); congruence. }
      simpl. by apply sw_neg.
Qed.

(** A key in a linear order is a strict weak order. *)
Definition less_by {A} (f : A → Z) (x y : A) : bool := (f x <? f y)%Z.
Definition more_by {A} (f : A → Z) (x y : A) : bool := (f y <? f x)%Z.

#[export] Instance less_by_sw {A} (f : A → Z) : StrictWeak (less_by f).
Proof. unfold less_by. split; intros; lia. Qed.
#[export] Instance more_by_sw {A} (f : A → Z) : StrictWeak (more_by f).
Proof. unfold more_by. split; intros; lia. Qed.

Definition less_str {A} (f : A → string) (x y : A) : bool := String.ltb (f x) (f y).

Lemma ltb_leb (s1 s2 : string) : String.ltb s1 s2 = negb (String.leb s2 s1).
Proof.
  unfold String.ltb, String.leb. rewrite (String.compare_antisym s1 s2).
  by destruct (String.compare s2 s1).
Qed.

Lemma leb_trans (s1 s2 s3 : string) :
  String.leb s1 s2 = true → String.leb s2 s3 = true → String.leb s1 s3 = true.
Proof.
  intros H1%Is_true_eq_left H2%Is_true_eq_left. apply Is_true_eq_true.
  exact (PreOrder_Transitive (R:=String.le) s1 s2 s3 H1 H2).
Qed.

Lemma ltb_irrefl (s : string) : String.ltb s s = false.
Proof.
  unfold String.ltb. pose proof (String.compare_antisym s s).
  by destruct (String.compare s s).
Qed.

Lemma ltb_trichotomy (s1 s2 : string) :
  String.ltb s1 s2 = false → String.ltb s2 s1 = false → s1 = s2.
Proof.
  rewrite !ltb_leb. intros H1 H2. split_bools.
  by apply String.leb_antisym.
Qed.

#[export] Instance less_str_sw {A} (f : A → string) : StrictWeak (less_str f).
Proof.
  unfold less_str. split.
  - intros x y. rewrite !ltb_leb. intros H. split_bools.
    destruct (String.leb_total (f x) (f y)) as [H1|H1]; [|congruence].
    by rewrite H1.
  - intros x y z. rewrite !ltb_leb. intros H. split_bools.
    destruct (String.leb (f y) (f x)) eqn:H1; [|by left].
    destruct (String.leb (f z) (f y)) eqn:H2; [|by right].
    by rewrite (leb_trans _ _ _ H2 H1) in H.
Qed.

(** ** Counting

    [countb p l] is the number of elements of [l] that satisfy [p]; a state with a
    list of objects or of calls in flight is accounted for with it. *)

Fixpoint countb {A} (p : A → bool) (l : list A) : nat :=
  match l with
  | [] => 0
  | x :: l' => (if p x then 1 else 0) + countb p l'
  end.

Section countb.
Context {A : Type} (p : A → bool).
Implicit Types (l : list A).

Lemma countb_app l1 l2 : countb p (l1 ++ l2) = countb p l1 + countb p l2.
Proof. induction l1; simpl; lia. Qed.

Lemma countb_middle l1 x l2 :
  countb p (l1 ++ x :: l2) = (if p x then 1 else 0) + countb p (l1 ++ l2).
Proof. rewrite !countb_app. simpl. lia. Qed.

Lemma countb_alter f l i x :
  l !! i = Some x →
  countb p (alter f i l) + (if p x then 1 else 0) = countb p l + (if p (f x) then 1 else 0).
Proof.
  revert i. induction l as [|z l IH]; intros [|i] Hi; simplify_eq/=; [lia|].
  specialize (IH i Hi). lia.
Qed.

Lemma countb_insert l i x y :
  l !! i = Some x →
  countb p (<[i := y]> l) + (if p x then 1 else 0) = countb p l + (if p y then 1 else 0).
Proof.
  intros Hi. rewrite list_insert_alter. by apply (countb_alter (λ _, y)).
Qed.

Lemma countb_alter_same f l i : (∀ x, p (f x) = p x) → countb p (alter f i l) = countb p l.
Proof.
  intros Hf. revert i. induction l as [|y l IH]; intros [|i]; simpl; [done..|by rewrite Hf|].
  f_equal. apply IH.
Qed.

Lemma countb_zero l : countb p l = 0 ↔ ∀ i x, l !! i = Some x → p x = false.
Proof.
  induction l as [|y l IH]; simpl; [done|]. split.
  - intros Hc [|i] x Hi; simplify_eq/=; [by destruct (p x)|].
    apply (proj1 IH ltac:(destruct (p y); lia) i x Hi).
  - intros Hall. rewrite (Hall 0 y eq_refl). apply IH. intros i x. apply (Hall (S i)).
Qed.

Lemma countb_pos l i x : l !! i = Some x → p x = true → 0 < countb p l.
Proof.
  intros Hi Hp. destruct (countb p l) eqn:E; [|lia].
  rewrite (proj1 (countb_zero l) E i x Hi) in Hp. done.
Qed.
End countb.

Lemma countb_mono {A} (p q : A → bool) l :
  (∀ x, p x = true → q x = true) → countb p l ≤ countb q l.
Proof.
  intros Hpq. induction l as [|x l IH]; simpl; [lia|].
  destruct (p x) eqn:E; [rewrite (Hpq x E); lia|destruct (q x); lia].
Qed.

(** ** Step relations *)

(** Rule induction for invariants. *)
Lemma rtc_invariant {A} (R : A → A → Prop) (I : A → Prop) x y :
  (∀ a b, I a → R a b → I b) → I x → rtc R x y → I y.
Proof. intros Hstep Hx Hr. induction Hr; eauto. Qed.

(** A simulation: every step of [R] is a step of [S] on the abstractions, or none. *)
Lemma rtc_simulation {A B} (R : A → A → Prop) (S : B → B → Prop) (f : A → B) (I : A → Prop) x y :
  (∀ a b, I a → R a b → I b ∧ (f b = f a ∨ S (f a) (f b))) → I x → rtc R x y → rtc S (f x) (f y).
Proof.
  intros Hstep Hx Hr. induction Hr as [|a b c Hab _ IH]; [done|].
  destruct (Hstep a b Hx Hab) as [Hb [<-|Hs]]; [by apply IH|]. eapply rtc_l; [exact Hs|by apply IH].
Qed.

(** A map without repeated values has at most as many keys as there are values. *)
Lemma map_size_injective `{Countable K, Countable V} (m : gmap K V) (X : gset V) :
  (∀ k v, m !! k = Some v → v ∈ X) →
  (∀ k k' v, m !! k = Some v → m !! k' = Some v → k = k') → size m ≤ size X.
Proof.
  revert X. induction m as [|k v m Hk IH] using map_ind; intros X Hin Hinj; [rewrite map_size_empty; lia|].
  assert (Hv : v ∈ X) by (apply (Hin k); apply lookup_insert_eq).
  rewrite map_size_insert_None by done.
  assert (size m ≤ size (X ∖ {[v]})) as Hs.
  { apply IH.
    - intros k' v' Hk'. assert (k ≠ k') as Hne by congruence. apply elem_of_difference. split.
      + apply (Hin k'). by rewrite lookup_insert_ne.
      + rewrite elem_of_singleton. intros ->. apply Hne, (Hinj k k' v); [apply lookup_insert_eq|].
        by rewrite lookup_insert_ne.
    - intros k1 k2 v' H1 H2. apply (Hinj k1 k2 v'); (rewrite lookup_insert_ne; [done|congruence]). }
  rewrite size_difference in Hs by set_solver. rewrite size_singleton in Hs.
  assert (0 < size X); [|lia]. apply Nat.neq_0_lt_0. intros Hz. apply size_empty_inv in Hz. set_solver.
Qed.
