(* ===== verification/Prog.v ===== *)
(** * Programs of atomic actions, run beside others

    A goroutine as a resumption: it either returns, or performs one atomic action on
    the shared state and goes on with its answer.  Others may change the state before
    every action, as the relation [interfere] allows.  A pool of such programs takes
    turns in any order.  [wp] is the weakest precondition of a program in rely-guarantee
    style: it holds under whatever the rely allows in between, and every action keeps
    the guarantee.  An action is one total step, so an action that waits (for a lock, a
    channel, a callback that does not return) is not expressed, and nothing proved here is
    about blocking. *)

From S2P Require Export Prelude.

Inductive Prog (S A : Type) : Type :=
| Ret (a : A)
| Act {R : Type} (f : S → S * R) (k : R → Prog S A).
Arguments Ret {S A} _.
Arguments Act {S A R} _ _.

Fixpoint prog_bind {S A B} (k : A → Prog S B) (p : Prog S A) : Prog S B :=
  match p with
  | Ret a => k a
  | Act f k' => Act f (λ r, prog_bind k (k' r))
  end.
#[export] Instance Prog_ret {S} : MRet (Prog S) := λ A a, Ret a.
#[export] Instance Prog_bind {S} : MBind (Prog S) := λ A B k p, prog_bind k p.
#[export] Instance Prog_fmap {S} : FMap (Prog S) := λ A B f p, prog_bind (λ a, Ret (f a)) p.

Definition act {S R} (f : S → S * R) : Prog S R := Act f Ret.
Definition ask {S R} (f : S → R) : Prog S R := act (λ s, (s, f s)).
Definition put {S} (f : S → S) : Prog S unit := act (λ s, (f s, tt)).

(** [p >>=? k] goes on with [k] unless [p] fails, Go's [if err != nil { return err }]. *)
Definition prog_try {S E A B} (p : Prog S (result E A)) (k : A → Prog S (result E B)) : Prog S (result E B) :=
  p ≫= λ r, match r with Ok a => k a | Err e => mret (Err e) end.
Definition fail {S E A} (e : E) : Prog S (result E A) := mret (Err e).
Definition require {S E} (b : bool) (e : E) : Prog S (result E unit) := mret (guard_err b e).
Definition lift {S E A} (r : result E A) : Prog S (result E A) := mret r.

(** A loop over the elements of a list. *)
Fixpoint prog_each {S A B} (f : A → Prog S B) (l : list A) : Prog S (list B) :=
  match l with
  | [] => mret []
  | x :: l' => f x ≫= λ y, prog_each f l' ≫= λ ys, mret (y :: ys)
  end.

Declare Scope prog_scope.
Delimit Scope prog_scope with prog.
Notation "x ←? p ; k" := (prog_try p (λ x, k))
  (at level 20, p at level 100, k at level 200, right associativity, only parsing) : prog_scope.

Section semantics.
Context {S : Type} (interfere : S → S → Prop).

(** One run of a program on its own. *)
Fixpoint runs {A} (p : Prog S A) (s s' : S) (a : A) : Prop :=
  match p with
  | Ret a' => a' = a ∧ s' = s
  | Act f k => ∃ s0, interfere s s0 ∧ runs (k (f s0).2) (f s0).1 s' a
  end.

(** The run without interference, as a function. *)
Fixpoint run {A} (p : Prog S A) (s : S) : S * A :=
  match p with
  | Ret a => (s, a)
  | Act f k => run (k (f s).2) (f s).1
  end.

Definition prog_step {A} (p : Prog S A) (s s' : S) (p' : Prog S A) : Prop :=
  match p with
  | Ret _ => False
  | Act f k => ∃ s0, interfere s s0 ∧ s' = (f s0).1 ∧ p' = k (f s0).2
  end.

Inductive pool_step {A} : S * list (Prog S A) → S * list (Prog S A) → Prop :=
| pool_step_at i p p' s s' ts :
    ts !! i = Some p → prog_step p s s' p' → pool_step (s, ts) (s', <[i := p']> ts).

(** A pool run to its end: every program has returned. *)
Definition pool_runs {A} (ts : list (Prog S A)) (s s' : S) (rs : list A) : Prop :=
  rtc pool_step (s, ts) (s', Ret <$> rs).

Lemma runs_bind {A B} (p : Prog S A) (k : A → Prog S B) s s' b :
  runs (p ≫= k) s s' b ↔ ∃ s1 a, runs p s s1 a ∧ runs (k a) s1 s' b.
Proof.
  revert s. induction p as [a|R f k' IH]; intros s; simpl.
  - split; [intros H; by exists s, a|]. by intros (s1 & a' & [<- ->] & H).
  - setoid_rewrite IH. naive_solver.
Qed.

Lemma runs_run {A} (p : Prog S A) s : (∀ s, interfere s s) → runs p s (run p s).1 (run p s).2.
Proof. intros Hr. revert s. induction p as [a|R f k IH]; intros s; simpl; [done|]. exists s. by split. Qed.

Lemma run_bind {A B} (p : Prog S A) (k : A → Prog S B) s :
  run (p ≫= k) s = run (k (run p s).2) (run p s).1.
Proof. revert s. induction p as [a|R f k' IH]; intros s; simpl; [done|]. apply IH. Qed.

(** ** Running a pool *)

(** One thread after the other is one of the schedules. *)
Fixpoint run_each {A} (ts : list (Prog S A)) (s : S) : S * list A :=
  match ts with
  | [] => (s, [])
  | p :: ts' => let '(s1, a) := run p s in let '(s2, l) := run_each ts' s1 in (s2, a :: l)
  end.

Lemma pool_run_thread {A} (pre ts : list (Prog S A)) p s :
  (∀ s, interfere s s) →
  rtc pool_step (s, pre ++ p :: ts) ((run p s).1, pre ++ Ret (run p s).2 :: ts).
Proof.
  intros Hrefl. revert s. induction p as [a|R f k IH]; intros s; simpl; [done|].
  eapply rtc_l; [|apply IH].
  assert (E : <[length pre := k (f s).2]> (pre ++ Act f k :: ts) = pre ++ k (f s).2 :: ts).
  { rewrite insert_app_r_alt by lia. by rewrite Nat.sub_diag. }
  rewrite <- E. apply (pool_step_at _ (Act f k)); [|by exists s].
  by rewrite lookup_app_r, Nat.sub_diag by lia.
Qed.

Lemma pool_run_each {A} (ts : list (Prog S A)) s :
  (∀ s, interfere s s) → pool_runs ts s (run_each ts s).1 (run_each ts s).2.
Proof.
  intros Hrefl. unfold pool_runs.
  assert (Hgen : ∀ (pre : list A) s, rtc pool_step (s, (Ret <$> pre) ++ ts)
            ((run_each ts s).1, Ret <$> (pre ++ (run_each ts s).2))); [|exact (Hgen [] s)].
  clear s. induction ts as [|p ts IH]; intros pre s; simpl.
  { by rewrite !app_nil_r. }
  pose proof (pool_run_thread (Ret <$> pre) ts p s Hrefl) as H1.
  destruct (run p s) as [s1 a]. simpl in H1. etrans; [exact H1|].
  specialize (IH (pre ++ [a]) s1). rewrite fmap_app, <- app_assoc in IH. simpl in IH.
  destruct (run_each ts s1) as [s2 l]. simpl in *. by rewrite <- app_assoc in IH.
Qed.
End semantics.

(** ** Weakest preconditions *)

Section wp.
Context {S : Type}.
Implicit Types rely guarantee : S → S → Prop.

Fixpoint wp {A} rely guarantee (p : Prog S A) (Q : A → S → Prop) (s : S) : Prop :=
  match p with
  | Ret a => Q a s
  | Act f k => ∀ s0, rely s s0 → guarantee s0 (f s0).1 ∧ wp rely guarantee (k (f s0).2) Q (f s0).1
  end.

Lemma wp_bind {A B} rely guarantee (p : Prog S A) (k : A → Prog S B) Q s :
  wp rely guarantee p (λ a s1, wp rely guarantee (k a) Q s1) s → wp rely guarantee (p ≫= k) Q s.
Proof.
  revert s. induction p as [a|R f k' IH]; intros s; simpl; [done|].
  intros H s0 Hs. destruct (H s0 Hs) as [HG Hw]. split; [done|]. by apply IH.
Qed.

Lemma wp_mono {A} rely guarantee (p : Prog S A) (Q Q' : A → S → Prop) s :
  (∀ a s', Q a s' → Q' a s') → wp rely guarantee p Q s → wp rely guarantee p Q' s.
Proof.
  intros HQ. revert s. induction p as [a|R f k IH]; intros s; simpl; [apply HQ|].
  intros H s0 Hs. destruct (H s0 Hs) as [HG Hw]. split; [done|]. by apply IH.
Qed.

(** A program that keeps a guarantee under a rely keeps it under less interference, and
    its actions make up a step of the guarantee. *)
Lemma wp_weaken {A} rely guarantee rely' guarantee' (p : Prog S A) Q s :
  (∀ s s', rely' s s' → rely s s') → (∀ s s', guarantee s s' → guarantee' s s') →
  wp rely guarantee p Q s → wp rely' guarantee' p Q s.
Proof.
  intros HR HG. revert s. induction p as [a|R f k IH]; intros s; simpl; [done|].
  intros H s0 Hs. destruct (H s0 (HR _ _ Hs)) as [Hg Hw]. split; [by apply HG|]. by apply IH.
Qed.

Lemma wp_keep {A} rely guarantee (p : Prog S A) Q s :
  Transitive guarantee → (∀ s, guarantee s s) → (∀ s s', rely s s' → guarantee s s') →
  wp rely guarantee p Q s → wp rely guarantee p (λ a s', Q a s' ∧ guarantee s s') s.
Proof.
  intros Ht Hr Hrg. revert s. induction p as [a|R f k IH]; intros s; simpl; [done|].
  intros H s0 Hs. destruct (H s0 Hs) as [Hg Hw]. split; [done|].
  eapply wp_mono; [|by apply IH]. intros a s' [HQ Hs']. split; [done|].
  etrans; [by apply Hrg|]. by etrans.
Qed.

Lemma wp_try {A B E} rely guarantee (p : Prog S (result E A)) (k : A → Prog S (result E B)) Q s :
  wp rely guarantee p (λ r s1, match r with
                       | Ok a => wp rely guarantee (k a) Q s1
                       | Err e => Q (Err e) s1
                       end) s →
  wp rely guarantee (prog_try p k) Q s.
Proof. intros H. apply wp_bind. revert H. apply wp_mono. by intros [a|e] s'. Qed.

Lemma wp_each {A B} rely guarantee (f : A → Prog S B) (I : list A → list B → S → Prop) l s :
  I [] [] s →
  (∀ done x rest ys s, l = done ++ x :: rest → I done ys s →
     wp rely guarantee (f x) (λ y, I (done ++ [x]) (ys ++ [y])) s) →
  wp rely guarantee (prog_each f l) (I l) s.
Proof.
  intros H0 Hstep.
  assert (Hgen : ∀ rest don ys s, l = don ++ rest → I don ys s →
            wp rely guarantee (prog_each f rest) (λ ys' s', I l (ys ++ ys') s') s);
    [|by apply (Hgen l [] [])].
  clear H0 s. induction rest as [|x rest IH]; intros don ys s Hl HI; simpl.
  - rewrite app_nil_r in *. by subst don.
  - apply wp_bind. eapply wp_mono; [|by apply (Hstep don x rest ys)]. intros y s1 H1.
    apply wp_bind. eapply wp_mono; [|apply (IH (don ++ [x]) (ys ++ [y]) s1); [by rewrite <- app_assoc|exact H1]].
    intros ys' s2 H2. cbv beta in H2. by rewrite <- app_assoc in H2.
Qed.

(** A run on its own meets the postcondition, if the rely allows the interference. *)
Lemma wp_runs {A} (interfere : S → S → Prop) rely guarantee (p : Prog S A) Q s s' a :
  (∀ s s', interfere s s' → rely s s') →
  wp rely guarantee p Q s → runs interfere p s s' a → Q a s'.
Proof.
  intros Hi. revert s. induction p as [b|R f k IH]; intros s; simpl.
  - by intros HQ [<- ->].
  - intros H (s0 & Hs & Hrun). destruct (H s0 (Hi _ _ Hs)) as [_ Hw]. by eapply IH.
Qed.

(** The guarantees of its actions make up a run. *)
Lemma wp_guarantee {A} (interfere : S → S → Prop) rely guarantee (p : Prog S A) Q s s' a :
  (∀ s s', interfere s s' → rely s s') → Transitive guarantee → (∀ s, guarantee s s) →
  (∀ s s', interfere s s' → guarantee s s') →
  wp rely guarantee p Q s → runs interfere p s s' a → guarantee s s'.
Proof.
  intros Hi Ht Hr Hig. revert s. induction p as [b|R f k IH]; intros s; simpl.
  - by intros _ [_ ->].
  - intros H (s0 & Hs & Hrun). destruct (H s0 (Hi _ _ Hs)) as [HG Hw].
    etrans; [by apply Hig|]. etrans; [exact HG|]. by eapply IH.
Qed.

Section pool.
Context {A : Type} (interfere : S → S → Prop) (rely guarantee : nat → S → S → Prop) (n : nat).
Context (Hi : ∀ i s s', interfere s s' → rely i s s').
Context (Hg : ∀ i j s s', (i < n)%nat → (j < n)%nat → i ≠ j → guarantee i s s' → rely j s s').
Context (Ht : ∀ i, Transitive (rely i)).

Lemma wp_stable i (p : Prog S A) Q s s' :
  (∀ a s s', Q a s → rely i s s' → Q a s') →
  wp (rely i) (guarantee i) p Q s → rely i s s' → wp (rely i) (guarantee i) p Q s'.
Proof.
  intros HQ. destruct p as [a|R f k]; simpl; [apply HQ|].
  intros H Hs s0 Hs0. apply H. by eapply Ht.
Qed.

(** Threads that keep out of each other's way meet their postconditions together, and what
    all of them keep, and the others too, the pool keeps. *)
Lemma wp_pool (all : S → S → Prop) (Q : nat → A → S → Prop) (ts : list (Prog S A)) s s' rs :
  PreOrder all → (∀ s s', interfere s s' → all s s') → (∀ i s s', (i < n)%nat → guarantee i s s' → all s s') →
  (∀ i a s s', Q i a s → rely i s s' → Q i a s') →
  length ts = n →
  (∀ i p, ts !! i = Some p → wp (rely i) (guarantee i) p (Q i) s) →
  pool_runs interfere ts s s' rs →
  length rs = length ts ∧ all s s' ∧ ∀ i r, rs !! i = Some r → Q i r s'.
Proof.
  intros Hall Hia Hga HQ Hn Hts Hrun. unfold pool_runs in Hrun.
  remember (s, ts) as c eqn:Hc. remember (s', Ret <$> rs) as c' eqn:Hc'.
  revert s ts Hc Hn Hts. induction Hrun as [c|c c1 c2 Hstep _ IH]; intros s ts -> Hn Hts.
  - simplify_eq. rewrite length_fmap. split_and!; [done|done|]. intros i r Hr.
    apply (Hts i (Ret r)). by rewrite list_lookup_fmap, Hr.
  - inversion Hstep as [i p p' ? s1 ? Hp Hps]; subst. specialize (IH eq_refl s1 _ eq_refl).
    destruct p as [|R f k]; [done|]. destruct Hps as (s0 & Hs0 & -> & ->).
    pose proof (Hts i _ Hp) as Hwi. simpl in Hwi. destruct (Hwi s0 (Hi i _ _ Hs0)) as [HG Hw].
    assert (Hlt : (i < length ts)%nat) by (by eapply lookup_lt_Some).
    rewrite length_insert in IH. destruct IH as (H1 & H2 & H3); [done| |].
    { intros j q Hq. destruct (decide (i = j)) as [<-|Hne].
      - rewrite list_lookup_insert_eq in Hq by done. by injection Hq as <-.
      - rewrite list_lookup_insert_ne in Hq by done. eapply wp_stable; [apply HQ|by apply Hts|].
        eapply Ht; [by apply Hi|]. apply (Hg i); [done| |done|done]. by eapply lookup_lt_Some. }
    split_and!; [done| |done]. etrans; [by apply Hia|]. etrans; [by apply (Hga i)|done].
Qed.
End pool.
End wp.
