(* ===== verification/GoLib.v ===== *)
(** * Go's standard library, as far as the modelled code uses it

    Strings are Go's byte strings: [string] is the type of sequences of 8-bit
    [ascii] values, and [length] counts bytes.  [strings.TrimSpace] and
    [strings.Fields] know every Unicode white-space rune through its UTF-8
    encoding; [strings.ToLower] knows the letters whose lower case is ASCII.  Machine integers are [Z] with the wrap-around written out
    where the code can reach it.  A [time.Time] is the number of nanoseconds
    since Go's zero time, so that [IsZero] is a comparison with 0. *)

From Stdlib Require Export Ascii.
From S2P Require Export Prelude.

(** ** Strings *)

#[global] Arguments String.append !_ _ / : simpl nomatch.

Abbreviation strlen := String.length.

Definition slen (s : string) : Z := Z.of_nat (strlen s).

(** [strings.HasPrefix(s, p)], [strings.HasSuffix(s, p)]. *)
Definition has_prefix (s p : string) : bool := String.prefix p s.
Definition has_suffix (s p : string) : bool :=
  String.prefix (String.rev p) (String.rev s).

(** [s[n:]] and [s[:n]] for [n] at most the length. *)
Fixpoint str_drop (n : nat) (s : string) : string :=
  match n, s with
  | 0, _ => s
  | S _, "" => ""
  | S n', String _ s' => str_drop n' s'
  end%string.

Fixpoint str_take (n : nat) (s : string) : string :=
  match n, s with
  | 0, _ => ""
  | S _, "" => ""
  | S n', String c s' => String c (str_take n' s')
  end%string.

Definition trim_prefix (s p : string) : string :=
  if has_prefix s p then str_drop (strlen p) s else s.
Definition trim_suffix (s p : string) : string :=
  if has_suffix s p then str_take (strlen s - strlen p) s else s.

(** [strings.Contains(s, sub)]. *)
Fixpoint contains (s sub : string) : bool :=
  String.prefix sub s ||
  match s with
  | "" => false
  | String _ s' => contains s' sub
  end%string.

(** Bytes of a string, tests on them, and the byte-set functions. *)
Fixpoint str_elem (c : ascii) (s : string) : bool :=
  match s with
  | "" => false
  | String d s' => Ascii.eqb c d || str_elem c s'
  end%string.

Fixpoint str_existsb (p : ascii → bool) (s : string) : bool :=
  match s with
  | "" => false
  | String d s' => p d || str_existsb p s'
  end%string.

(** [strings.ContainsAny(s, chars)] for ASCII [chars]. *)
Definition contains_any (s cs : string) : bool := str_existsb (λ c, str_elem c cs) s.

(** [strings.TrimLeft]/[TrimRight]/[Trim] for an ASCII cutset. *)
Fixpoint trim_left_set (s cs : string) : string :=
  match s with
  | "" => ""
  | String c s' => if str_elem c cs then trim_left_set s' cs else s
  end%string.
Definition trim_right_set (s cs : string) : string :=
  String.rev (trim_left_set (String.rev s) cs).
Definition trim_set (s cs : string) : string := trim_right_set (trim_left_set s cs) cs.

(** [strings.ToLower] on the ASCII letters. *)
Definition ascii_lower (c : ascii) : ascii :=
  let n := nat_of_ascii c in
  if (65 <=? n) && (n <=? 90) then ascii_of_nat (n + 32) else c.
(** [strings.ToLower]: the ASCII letters, and the two other letters whose lower
    case is an ASCII letter (the Kelvin sign and the dotted capital I).  Other
    letters are left alone, which no comparison with an ASCII text can observe. *)
Fixpoint to_lower (s : string) : string :=
  match s with
  | "" => ""
  | String "226" (String "132" (String "170" s')) => String "k" (to_lower s')
  | String "196" (String "176" s') => String "i" (to_lower s')
  | String c s' => String (ascii_lower c) (to_lower s')
  end%string.

(** [strings.EqualFold], on the letters that fold to ASCII ones: here the Kelvin
    sign and the long s. *)
Fixpoint fold_case (s : string) : string :=
  match s with
  | "" => ""
  | String "226" (String "132" (String "170" s')) => String "k" (fold_case s')
  | String "197" (String "191" s') => String "s" (fold_case s')
  | String c s' => String (ascii_lower c) (fold_case s')
  end%string.
Definition equal_fold (s t : string) : bool := String.eqb (fold_case s) (fold_case t).

(** [hex.DecodeString] succeeds on text in either case of even length. *)
Definition is_hex_digit (c : ascii) : bool :=
  let n := nat_of_ascii c in
  (((48 <=? n) && (n <=? 57)) || ((97 <=? n) && (n <=? 102)) ||
   ((65 <=? n) && (n <=? 70)))%nat.

Definition hex_ok (s : string) : bool :=
  Nat.even (strlen s) && negb (str_existsb (λ c, negb (is_hex_digit c)) s).

(** [strings.Split(s, sep)] for a one-byte separator: never empty. *)
Fixpoint split_on (sep : ascii) (s : string) : list string :=
  match s with
  | "" => [""]
  | String c s' =>
      if Ascii.eqb c sep then "" :: split_on sep s'
      else match split_on sep s' with
           | [] => [String c ""]
           | w :: ws => String c w :: ws
           end
  end%string.

(** [strings.Join]. *)
Definition str_join (sep : string) (l : list string) : string := String.concat sep l.

(** White space: the UTF-8 encodings of the runes [unicode.IsSpace] accepts. *)
Definition byte_str (l : list nat) : string :=
  String.string_of_list_ascii (map ascii_of_nat l).

Definition space_runes : list string :=
  map byte_str
    ([[9]; [10]; [11]; [12]; [13]; [32]; [194; 133]; [194; 160]; [225; 154; 128]] ++
     map (λ k, [226; 128; 128 + k]) (seq 0 11) ++
     [[226; 128; 168]; [226; 128; 169]; [226; 128; 175]; [226; 129; 159];
      [227; 128; 128]]).

Definition strip_one (runes : list string) (s : string) : option string :=
  match filter (λ r, String.prefix r s = true) runes with
  | [] => None
  | r :: _ => Some (str_drop (strlen r) s)
  end.

(** Each stripped rune is at least one byte, so [strlen s] rounds suffice. *)
Fixpoint strip_many (fuel : nat) (runes : list string) (s : string) : string :=
  match fuel with
  | 0 => s
  | S fuel' =>
      match strip_one runes s with
      | Some s' => strip_many fuel' runes s'
      | None => s
      end
  end.

Definition trim_left_space (s : string) : string := strip_many (strlen s) space_runes s.
Definition trim_right_space (s : string) : string :=
  String.rev (strip_many (strlen s) (map String.rev space_runes) (String.rev s)).

(** [strings.TrimSpace]. *)
Definition trim_space (s : string) : string := trim_right_space (trim_left_space s).

(** [strings.Fields]. *)
Fixpoint take_word (s : string) : string * string :=
  match s with
  | "" => ("", "")
  | String c s' =>
      match strip_one space_runes s with
      | Some _ => ("", s)
      | None => let '(w, rest) := take_word s' in (String c w, rest)
      end
  end%string.

Fixpoint fields_fuel (fuel : nat) (s : string) : list string :=
  match fuel with
  | 0 => []
  | S fuel' =>
      match trim_left_space s with
      | "" => []
      | s' => let '(w, rest) := take_word s' in w :: fields_fuel fuel' rest
      end
  end%string.
Definition fields (s : string) : list string := fields_fuel (S (strlen s)) s.

(** ** Lemmas on strings *)

Lemma str_app_nil_r (s : string) : (s +:+ "")%string = s.
Proof. induction s as [|c s IH]; simpl; [done|]. by rewrite IH. Qed.

Lemma str_app_assoc (s1 s2 s3 : string) :
  (s1 +:+ (s2 +:+ s3) = (s1 +:+ s2) +:+ s3)%string.
Proof. induction s1 as [|c s IH]; simpl; [done|]. by rewrite IH. Qed.

Lemma strlen_app (s1 s2 : string) : strlen (s1 +:+ s2)%string = strlen s1 + strlen s2.
Proof. induction s1; simpl; auto. Qed.

Lemma rev_app_spec (s1 s2 : string) :
  String.rev_app s1 s2 = (String.rev_app s1 "" +:+ s2)%string.
Proof.
  revert s2. induction s1 as [|c s IH]; intros s2; simpl; [done|].
  rewrite IH, (IH (String c "")). by rewrite <-str_app_assoc.
Qed.

Lemma str_rev_cons c s : String.rev (String c s) = (String.rev s +:+ String c "")%string.
Proof. unfold String.rev. simpl. by rewrite rev_app_spec. Qed.

Lemma str_rev_app (s1 s2 : string) :
  String.rev (s1 +:+ s2)%string = (String.rev s2 +:+ String.rev s1)%string.
Proof.
  induction s1 as [|c s IH]; simpl.
  - by rewrite str_app_nil_r.
  - rewrite !str_rev_cons, IH. by rewrite str_app_assoc.
Qed.

Lemma str_rev_involutive (s : string) : String.rev (String.rev s) = s.
Proof.
  induction s as [|c s IH]; [done|]. rewrite str_rev_cons, str_rev_app, IH. done.
Qed.

Lemma strlen_rev (s : string) : strlen (String.rev s) = strlen s.
Proof.
  induction s as [|c s IH]; [done|]. rewrite str_rev_cons, strlen_app, IH. simpl. lia.
Qed.

Lemma prefix_spec (p s : string) :
  String.prefix p s = true ↔ ∃ t, s = (p +:+ t)%string.
Proof.
  revert s. induction p as [|c p IH]; intros s; simpl.
  - split; [by exists s | by destruct s].
  - destruct s as [|d s]; simpl.
    + split; [done|]. by intros [t ?].
    + destruct (Ascii.ascii_dec c d) as [->|Hne].
      * rewrite IH. naive_solver.
      * split; [done|]. naive_solver.
Qed.

Lemma prefix_refl (s : string) : String.prefix s s = true.
Proof. apply prefix_spec. exists ""%string. by rewrite str_app_nil_r. Qed.

Lemma str_drop_app (p t : string) : str_drop (strlen p) (p +:+ t)%string = t.
Proof. induction p; simpl; done. Qed.

Lemma prefix_len_eq (p q : string) :
  String.prefix p q = true → strlen p = strlen q → p = q.
Proof.
  intros (t & ->)%prefix_spec Hlen. rewrite strlen_app in Hlen.
  destruct t; [by rewrite str_app_nil_r|]. simpl in Hlen. lia.
Qed.

(** [strings.HasPrefix] is transitive, and two prefixes of one string are
    comparable. *)
Lemma prefix_trans (p q s : string) :
  String.prefix p q = true → String.prefix q s = true → String.prefix p s = true.
Proof.
  rewrite !prefix_spec. intros (t1 & ->) (t2 & ->). exists (t1 +:+ t2)%string.
  by rewrite str_app_assoc.
Qed.

Section strip.
Context (runes : list string).
(** No rune is empty. *)
Context (runes_pos : Forall (λ r, 0 < strlen r) runes).

Definition unstrippable (s : string) : Prop := strip_one runes s = None.

Lemma unstrippable_spec s :
  unstrippable s ↔ ∀ r, r ∈ runes → String.prefix r s = false.
Proof.
  unfold unstrippable, strip_one. split.
  - intros H r Hr. destruct (String.prefix r s) eqn:E; [|done].
    assert (r ∈ filter (λ r, String.prefix r s = true) runes) as Hin
      by by apply list_elem_of_filter.
    destruct (filter _ runes); [by apply not_elem_of_nil in Hin | done].
  - intros H. destruct (filter _ runes) as [|r rs] eqn:E; [done|].
    assert (r ∈ filter (λ r, String.prefix r s = true) runes) as Hin
      by (rewrite E; left).
    apply list_elem_of_filter in Hin as [Hp Hr]. rewrite H in Hp; done.
Qed.

Lemma strip_one_Some s s' :
  strip_one runes s = Some s' → ∃ r, r ∈ runes ∧ s = (r +:+ s')%string.
Proof using runes_pos.
  unfold strip_one. destruct (filter _ runes) as [|r rs] eqn:E; [done|].
  intros [= <-].
  assert (r ∈ filter (λ r, String.prefix r s = true) runes) as Hin
    by (rewrite E; left).
  apply list_elem_of_filter in Hin as [(t & ->)%prefix_spec Hr].
  exists r. by rewrite str_drop_app.
Qed.

Lemma strip_many_spec fuel s :
  strlen s ≤ fuel →
  unstrippable (strip_many fuel runes s) ∧
  ∃ p, s = (p +:+ strip_many fuel runes s)%string.
Proof using runes_pos.
  revert s. induction fuel as [|fuel IH]; intros s Hlen; simpl.
  - destruct s; simpl in Hlen; [|lia]. split; [|by exists ""%string].
    apply unstrippable_spec. intros r Hr. rewrite Forall_elem in runes_pos.
    specialize (runes_pos r Hr). destruct r; simpl in *; [lia|done].
  - destruct (strip_one runes s) as [s'|] eqn:E.
    + apply strip_one_Some in E as (r & Hr & ->).
      rewrite Forall_elem in runes_pos. specialize (runes_pos r Hr).
      rewrite strlen_app in Hlen. destruct (IH s' ltac:(lia)) as [Hu [p Hp]].
      split; [done|]. exists (r +:+ p)%string. rewrite <-str_app_assoc. by f_equal.
    + split; [done|]. by exists ""%string.
Qed.

Lemma strip_many_id fuel s : unstrippable s → strip_many fuel runes s = s.
Proof. intros H. destruct fuel; simpl; [done|]. by rewrite H. Qed.

(** A shorter string has no white space at its front that the longer one
    does not have. *)
Lemma unstrippable_prefix s t : unstrippable (s +:+ t)%string → unstrippable s.
Proof.
  rewrite !unstrippable_spec. intros H r Hr.
  destruct (String.prefix r s) eqn:E; [|done].
  rewrite <-(H r Hr). symmetry. eapply prefix_trans; [exact E|].
  apply prefix_spec. by exists t.
Qed.
End strip.

Lemma space_runes_pos : Forall (λ r, 0 < strlen r) space_runes.
Proof. apply (bool_decide_unpack _). vm_compute. exact I. Qed.
Lemma space_runes_rev_pos : Forall (λ r, 0 < strlen r) (map String.rev space_runes).
Proof. apply (bool_decide_unpack _). vm_compute. exact I. Qed.

(** A string [strings.TrimSpace] leaves alone. *)
Definition trimmed (s : string) : Prop :=
  unstrippable space_runes s ∧ unstrippable (map String.rev space_runes) (String.rev s).

Lemma trim_space_trimmed s : trimmed (trim_space s).
Proof.
  unfold trimmed, trim_space, trim_right_space, trim_left_space.
  set (l := strip_many (strlen s) space_runes s).
  destruct (strip_many_spec _ space_runes_pos (strlen s) s) as [Hl _]; [done|].
  fold l in Hl.
  destruct (strip_many_spec _ space_runes_rev_pos (strlen l) (String.rev l))
    as [Hr [p Hp]]; [by rewrite strlen_rev|].
  rewrite str_rev_involutive. split; [|done].
  apply (f_equal String.rev) in Hp. rewrite str_rev_involutive, str_rev_app in Hp.
  rewrite Hp in Hl. by eapply unstrippable_prefix.
Qed.

Lemma trim_space_id s : trimmed s → trim_space s = s.
Proof.
  intros [Hl Hr]. unfold trim_space, trim_right_space, trim_left_space.
  rewrite (strip_many_id _ _ s Hl), (strip_many_id _ _ _ Hr).
  apply str_rev_involutive.
Qed.

(** [strings.TrimSpace] is idempotent. *)
Lemma trim_space_idem s : trim_space (trim_space s) = trim_space s.
Proof. apply trim_space_id, trim_space_trimmed. Qed.

Lemma trim_space_empty : trim_space "" = ""%string.
Proof. reflexivity. Qed.

#[export] Hint Rewrite trim_space_idem trim_space_empty : corelay.


Lemma split_on_not_nil sep s : split_on sep s ≠ [].
Proof.
  destruct s as [|c s]; simpl; [done|]. destruct (Ascii.eqb c sep); [done|].
  by destruct (split_on sep s).
Qed.

Lemma str_join_cons sep x y (l : list string) :
  str_join sep (x :: y :: l) = (x +:+ sep +:+ str_join sep (y :: l))%string.
Proof. done. Qed.

(** Splitting and joining at the same byte is the identity. *)
Lemma join_split sep s : str_join (String sep "") (split_on sep s) = s.
Proof.
  unfold str_join. induction s as [|c s IH]; [done|]. cbn [split_on].
  pose proof (split_on_not_nil sep s).
  destruct (Ascii.eqb c sep) eqn:E.
  - apply Ascii.eqb_eq in E as ->. destruct (split_on sep s) as [|w ws] eqn:Es; [done|].
    change (String sep (String.concat (String sep "") (w :: ws)) = String sep s).
    by rewrite IH.
  - destruct (split_on sep s) as [|w ws] eqn:Es; [done|].
    transitivity (String c (String.concat (String sep "") (w :: ws))).
    + by destruct ws.
    + by rewrite IH.
Qed.

(** ** Machine integers *)

Local Open Scope Z_scope.

Definition max_uint64 : Z := 2 ^ 64 - 1.
Definition max_int64 : Z := 2 ^ 63 - 1.
Definition min_int64 : Z := - 2 ^ 63.

(** Two's complement wrap-around of 64-bit results. *)
Definition wrap64 (z : Z) : Z := (z + 2 ^ 63) mod 2 ^ 64 - 2 ^ 63.
Definition wrap_u64 (z : Z) : Z := z mod 2 ^ 64.

Lemma wrap64_range z : min_int64 ≤ wrap64 z ≤ max_int64.
Proof.
  unfold wrap64, min_int64, max_int64.
  pose proof (Z.mod_pos_bound (z + 2 ^ 63) (2 ^ 64) ltac:(lia)). lia.
Qed.

Lemma wrap64_id z : min_int64 ≤ z ≤ max_int64 → wrap64 z = z.
Proof.
  unfold wrap64, min_int64, max_int64. intros H. rewrite Z.mod_small; lia.
Qed.

Lemma wrap_u64_id z : 0 ≤ z ≤ max_uint64 → wrap_u64 z = z.
Proof. unfold wrap_u64, max_uint64. intros H. apply Z.mod_small. lia. Qed.

(** [strconv.Atoi]: an optional sign and at least one decimal digit, refused
    when the value does not fit an [int]. *)
Definition digit_val (c : ascii) : option Z :=
  let n := Z.of_nat (nat_of_ascii c) in
  if (48 <=? n) && (n <=? 57) then Some (n - 48) else None.

Fixpoint parse_digits (acc : Z) (s : string) : option Z :=
  match s with
  | ""%string => Some acc
  | String c s' =>
      match digit_val c with
      | Some d => parse_digits (10 * acc + d) s'
      | None => None
      end
  end.

Definition parse_nat (s : string) : option Z :=
  match s with ""%string => None | _ => parse_digits 0 s end.

Definition atoi (s : string) : option Z :=
  let signed :=
    match s with
    | String "-"%char s' => Z.opp <$> parse_nat s'
    | String "+"%char s' => parse_nat s'
    | _ => parse_nat s
    end in
  match signed with
  | Some v => if (min_int64 <=? v) && (v <=? max_int64) then Some v else None
  | None => None
  end.

Lemma atoi_range s v : atoi s = Some v → min_int64 ≤ v ≤ max_int64.
Proof. unfold atoi. intros H. repeat case_match; simplify_eq; split_bools; lia. Qed.

Example atoi_ex : atoi "-42" = Some (-42) ∧ atoi "+7" = Some 7 ∧ atoi "" = None ∧
  atoi "12a" = None ∧ atoi "9223372036854775808" = None.
Proof. vm_compute. done. Qed.

(** ** Time

    [time.Time] in nanoseconds since the zero time; [time.Duration] is an
    [int64] of nanoseconds, and [Sub] saturates. *)

Abbreviation time := Z (only parsing).
Abbreviation duration := Z (only parsing).

Definition nanosecond : duration := 1.
Definition millisecond : duration := 1000000.
Definition second : duration := 1000000000.
Definition minute : duration := 60 * second.
Definition hour : duration := 60 * minute.

Definition time_zero : time := 0.
Definition is_zero (t : time) : bool := t =? time_zero.
Definition time_before (a b : time) : bool := a <? b.
Definition time_after (a b : time) : bool := b <? a.
Definition time_add (t : time) (d : duration) : time := t + d.
Definition time_sub (a b : time) : duration :=
  Z.max min_int64 (Z.min max_int64 (a - b)).
