(* ===== verification/ExecutionPolicy.v ===== *)
(** * Run-scoped authority: [internal/executionpolicy/policy.go]

    A run acts under an immutable [Snapshot] of its execution mode.  Snapshots
    are made by [Resolve] (from a user request or a legacy setting) and
    [ResolveChild] (for a child run), and every boundary re-validates them with
    [ValidateSnapshot].  Modes and sources are Go strings: a value outside the
    declared constants is representable and refused by the code. *)

From S2P Require Export GoLib.

Local Open Scope Z_scope.

(** ** Data *)

Definition Mode := string.
Definition ModeReadOnly : Mode := "read-only".
Definition ModeWorkspace : Mode := "workspace".
Definition ModeFull : Mode := "full".

Definition Source := string.
Definition SourceDefault : Source := "default-workspace".
Definition SourceLegacyMigration : Source := "legacy-workspace-migration".
Definition SourceUserSelected : Source := "user-selected".
Definition SourceInherited : Source := "inherited".
Definition SourceChildRestriction : Source := "child-restriction".

(** [sandbox.Capabilities]: descriptive facts about a runner. *)
Record Capabilities := {
  FilesystemIsolation : bool;
  NetworkIsolation : bool;
  ProcessIsolation : bool;
  EnvironmentIsolation : bool;
  ProcessLimits : bool;
  MemoryLimits : bool;
  ProcessTreeKill : bool;
  EnvironmentFiltering : bool;
  Timeouts : bool;
}.

#[export] Instance Capabilities_eq_dec : EqDecision Capabilities.
Proof. solve_decision. Defined.

Record Request := { ReqMode : Mode; ReqRevision : Z }.

Record Snapshot := {
  SMode : Mode;
  SRevision : Z;
  RuntimeCapabilities : Capabilities;
  ParentRevision : Z;
  FullSelectionRevision : Z;
  SSource : Source;
}.

#[export] Instance Mode_eq_dec : EqDecision Mode := String.eq_dec.
#[export] Instance Source_eq_dec : EqDecision Source := String.eq_dec.
#[export] Instance Snapshot_eq_dec : EqDecision Snapshot.
Proof. solve_decision. Defined.

Inductive PolicyError :=
| InvalidExecutionMode (m : Mode)
| InvalidChildExecutionMode (m : Mode)
| ChildExceedsParent (child parent : Mode)
| InvalidParentPolicy (e : PolicyError)
| UnsupportedLegacyAutoApprove (v : string)
| ModeAndRevisionRequired
| RootClaimsParent
| ChildMustBindParent
| InvalidPolicySource (s : Source)
| FullRequiresProvenance
| FullRevisionMismatch
| NonFullCarriesFullAuthority.

#[export] Instance PolicyError_eq_dec : EqDecision PolicyError.
Proof. unfold EqDecision, Decision. decide equality; apply String.eq_dec. Defined.

(** ** Operations *)

Definition validMode (m : Mode) : bool :=
  String.eqb m ModeReadOnly || String.eqb m ModeWorkspace || String.eqb m ModeFull.

Definition modeRank (m : Mode) : Z :=
  if String.eqb m ModeReadOnly then 0
  else if String.eqb m ModeWorkspace then 1
  else if String.eqb m ModeFull then 2
  else -1.

Definition validateLegacyAutoApprove (value : string) : result PolicyError unit :=
  let v := to_lower (trim_space value) in
  if existsb (String.eqb v) [""; "safe"; "moderate"; "all"; "none"]%string
  then Ok tt else Err (UnsupportedLegacyAutoApprove value).

Definition Resolve (request : Request) (legacyAutoApprove : string)
    (capabilities : Capabilities) : result PolicyError Snapshot :=
  '(mode, source) ←
    (if String.eqb (ReqMode request) "" then
       _ ← validateLegacyAutoApprove legacyAutoApprove;
       Ok (ModeWorkspace,
           if negb (String.eqb (trim_space legacyAutoApprove) "")
           then SourceLegacyMigration else SourceDefault)
     else Ok (ReqMode request, SourceUserSelected));
  if negb (validMode mode) then Err (InvalidExecutionMode mode) else
  let revision := if ReqRevision request =? 0 then 1 else ReqRevision request in
  Ok {| SMode := mode; SRevision := revision;
        RuntimeCapabilities := capabilities; ParentRevision := 0;
        FullSelectionRevision :=
          if String.eqb mode ModeFull && String.eqb source SourceUserSelected
          then revision else 0;
        SSource := source |}.

Definition ValidateSnapshot (s : Snapshot) : result PolicyError unit :=
  if negb (validMode (SMode s)) || (SRevision s =? 0) then Err ModeAndRevisionRequired else
  _ ← (if String.eqb (SSource s) SourceDefault || String.eqb (SSource s) SourceLegacyMigration
          || String.eqb (SSource s) SourceUserSelected then
         if negb (ParentRevision s =? 0) then Err RootClaimsParent else Ok tt
       else if String.eqb (SSource s) SourceInherited
               || String.eqb (SSource s) SourceChildRestriction then
         if (ParentRevision s =? 0) || negb (ParentRevision s =? SRevision s)
         then Err ChildMustBindParent else Ok tt
       else Err (InvalidPolicySource (SSource s)));
  _ ← (if String.eqb (SMode s) ModeFull then
         if FullSelectionRevision s =? 0 then Err FullRequiresProvenance
         else if String.eqb (SSource s) SourceUserSelected
                 && negb (FullSelectionRevision s =? SRevision s)
         then Err FullRevisionMismatch else Ok tt
       else Ok tt);
  if String.eqb (SSource s) SourceUserSelected && negb (String.eqb (SMode s) ModeFull)
     && negb (FullSelectionRevision s =? 0)
  then Err NonFullCarriesFullAuthority else Ok tt.

Definition ResolveChild (parent : Snapshot) (requested : Mode)
    (capabilities : Capabilities) : result PolicyError Snapshot :=
  match ValidateSnapshot parent with
  | Err e => Err (InvalidParentPolicy e)
  | Ok _ =>
      let '(mode, source) :=
        if String.eqb requested "" then (SMode parent, SourceInherited)
        else (requested, SourceChildRestriction) in
      if negb (validMode mode) then Err (InvalidChildExecutionMode mode) else
      if modeRank (SMode parent) <? modeRank mode
      then Err (ChildExceedsParent mode (SMode parent)) else
      Ok {| SMode := mode; SRevision := SRevision parent;
            RuntimeCapabilities := capabilities;
            ParentRevision := SRevision parent;
            FullSelectionRevision := FullSelectionRevision parent;
            SSource := source |}
  end.

(** [internal/agent/execution_policy.go]: the snapshot a child run gets; the
    zero snapshot (which no boundary accepts) stands for a refused request.
    [capabilities] are those of the child's runner, the zero value when it has
    none. *)
Definition zeroCapabilities : Capabilities :=
  Build_Capabilities false false false false false false false false false.
Definition zeroSnapshot : Snapshot :=
  Build_Snapshot "" 0 zeroCapabilities 0 0 "".

Definition deriveChildExecutionPolicy (parent : option Snapshot) (requestedMode : Mode)
    (runner : option Capabilities) : option Snapshot :=
  let capabilities := default zeroCapabilities runner in
  match parent with
  | None =>
      if String.eqb requestedMode "" then None
      else match Resolve {| ReqMode := requestedMode; ReqRevision := 0 |} "" capabilities with
           | Err _ => Some zeroSnapshot
           | Ok child => Some child
           end
  | Some p =>
      match ResolveChild p requestedMode capabilities with
      | Err _ => Some zeroSnapshot
      | Ok child => Some child
      end
  end.

(** ** Where snapshots come from

    [issued root s]: [s] is [root] itself, made by [Resolve], or a descendant
    made by a chain of [ResolveChild] calls. *)
Inductive issued : Snapshot → Snapshot → Prop :=
| issued_root req legacy caps s :
    Resolve req legacy caps = Ok s → issued s s
| issued_child root parent requested caps s :
    issued root parent → ResolveChild parent requested caps = Ok s → issued root s.

(** ** Lemmas *)

Lemma validMode_rank m : validMode m = true ↔ 0 ≤ modeRank m.
Proof. unfold validMode, modeRank. case_guards; simpl; split; done || lia. Qed.

Lemma modeRank_full m : modeRank m = 2 ↔ m = ModeFull.
Proof.
  unfold modeRank. split; [|by intros ->].
  repeat case_match; split_bools; simplify_eq; done.
Qed.

Lemma modeRank_le_full m : modeRank m ≤ 2.
Proof. unfold modeRank. repeat case_match; lia. Qed.

(** What [ValidateSnapshot] accepts, as one proposition. *)
Definition snapshot_ok (s : Snapshot) : Prop :=
  validMode (SMode s) = true ∧ SRevision s ≠ 0 ∧
  ((SSource s ∈ [SourceDefault; SourceLegacyMigration; SourceUserSelected] ∧
    ParentRevision s = 0) ∨
   (SSource s ∈ [SourceInherited; SourceChildRestriction] ∧
    ParentRevision s = SRevision s)) ∧
  (SMode s = ModeFull → FullSelectionRevision s ≠ 0) ∧
  (SSource s = SourceUserSelected →
   FullSelectionRevision s = if String.eqb (SMode s) ModeFull then SRevision s else 0).

Lemma root_source_elem x :
  (String.eqb x SourceDefault || String.eqb x SourceLegacyMigration
   || String.eqb x SourceUserSelected) = true ↔
  x ∈ [SourceDefault; SourceLegacyMigration; SourceUserSelected].
Proof. rewrite !orb_true_iff, !String.eqb_eq. set_solver. Qed.

Lemma child_source_elem x :
  (String.eqb x SourceInherited || String.eqb x SourceChildRestriction) = true ↔
  x ∈ [SourceInherited; SourceChildRestriction].
Proof. rewrite !orb_true_iff, !String.eqb_eq. set_solver. Qed.

Lemma source_kinds_disjoint x :
  x ∈ [SourceDefault; SourceLegacyMigration; SourceUserSelected] →
  x ∈ [SourceInherited; SourceChildRestriction] → False.
Proof.
  rewrite !elem_of_cons, !elem_of_nil.
  intros [-> |[-> |[-> |[]]]] [E|[E|[]]]; discriminate E.
Qed.

(** The three checks of [ValidateSnapshot], one by one. *)
Lemma ValidateSnapshot_spec s : ValidateSnapshot s = Ok tt ↔ snapshot_ok s.
Proof.
  pose proof (source_kinds_disjoint (SSource s)) as Hdis.
  unfold ValidateSnapshot, snapshot_ok.
  rewrite <-root_source_elem, <-child_source_elem in *.
  destruct (validMode (SMode s)); simpl; [|naive_solver].
  destruct (Z.eqb_spec (SRevision s) 0) as [|Hr]; [naive_solver|].
  destruct (_ || String.eqb (SSource s) SourceUserSelected) eqn:Er.
  2: assert (String.eqb (SSource s) SourceUserSelected = false) as Eu
       by (apply orb_false_elim in Er; apply Er).
  2: destruct (_ || String.eqb (SSource s) SourceChildRestriction) eqn:Ec; [|naive_solver].
  - destruct (Z.eqb_spec (ParentRevision s) 0); simpl; [|naive_solver].
    destruct (String.eqb_spec (SMode s) ModeFull), (String.eqb_spec (SSource s) SourceUserSelected),
      (Z.eqb_spec (FullSelectionRevision s) 0),
      (Z.eqb_spec (FullSelectionRevision s) (SRevision s)); simpl;
      (split; [intros; try done|intros (? & ? & ? & Hf & Hu); try done]);
      first [split_and!; naive_solver congruence | exfalso; naive_solver congruence].
  - destruct (Z.eqb_spec (ParentRevision s) 0), (Z.eqb_spec (ParentRevision s) (SRevision s));
      simpl; try naive_solver congruence.
    rewrite Eu. apply String.eqb_neq in Eu. simpl.
    destruct (String.eqb_spec (SMode s) ModeFull),
      (Z.eqb_spec (FullSelectionRevision s) 0); simpl; naive_solver congruence.
Qed.

Lemma ResolveChild_ok parent requested caps s :
  ResolveChild parent requested caps = Ok s ↔
  snapshot_ok parent ∧
  let mode := if String.eqb requested "" then SMode parent else requested in
  validMode mode = true ∧ modeRank mode ≤ modeRank (SMode parent) ∧
  s = {| SMode := mode; SRevision := SRevision parent; RuntimeCapabilities := caps;
         ParentRevision := SRevision parent;
         FullSelectionRevision := FullSelectionRevision parent;
         SSource := if String.eqb requested "" then SourceInherited
                    else SourceChildRestriction |}.
Proof.
  unfold ResolveChild. destruct (ValidateSnapshot parent) as [[]|e] eqn:Hp.
  - apply ValidateSnapshot_spec in Hp.
    destruct (String.eqb requested ""); simpl.
    all: destruct (validMode _); simpl; [|naive_solver].
    all: match goal with |- context [?a <? ?b] => destruct (Z.ltb_spec a b) end.
    all: split; [intros [= <-] || done|intros (_ & _ & ? & ->)]; first [lia | done | naive_solver].
  - split; [done|]. intros [H _]. apply ValidateSnapshot_spec in H. congruence.
Qed.

Lemma Resolve_ok req legacy caps s :
  Resolve req legacy caps = Ok s →
  snapshot_ok s ∧ SSource s ∈ [SourceDefault; SourceLegacyMigration; SourceUserSelected] ∧
  SMode s = (if String.eqb (ReqMode req) "" then ModeWorkspace else ReqMode req).
Proof.
  unfold Resolve. intros H. apply result_bind_ok in H as ([mode source] & Hms & H).
  destruct (validMode mode) eqn:Hv; [|done]. injection H as <-.
  unfold snapshot_ok; simpl.
  set (rev := if ReqRevision req =? 0 then 1 else ReqRevision req).
  assert (Hrev : rev ≠ 0) by (subst rev; destruct (Z.eqb_spec (ReqRevision req) 0); lia).
  clearbody rev. destruct (String.eqb (ReqMode req) "") eqn:Hm.
  - inv_result. destruct (negb _); split_and!; try done; rewrite !elem_of_cons; auto 10.
  - injection Hms as <- <-. split_and!; try done; rewrite ?elem_of_cons; auto 10.
    + intros ->. done.
    + intros _. by rewrite andb_true_r.
Qed.

Lemma ResolveChild_valid parent requested caps s :
  ResolveChild parent requested caps = Ok s → snapshot_ok s.
Proof.
  intros (Hp & Hv & Hr & ->)%ResolveChild_ok. destruct Hp as (_ & Hrev & _ & Hf & _).
  unfold snapshot_ok; simpl in *. split_and!; try done.
  - right. split; [|done]. case_match; set_solver.
  - intros Hm. apply Hf, modeRank_full. apply modeRank_full in Hm.
    pose proof (modeRank_le_full (SMode parent)). lia.
  - by case_match.
Qed.

#[export] Hint Resolve ResolveChild_valid : corelay.

Lemma issued_bound root s :
  issued root s →
  snapshot_ok s ∧ (∃ req legacy caps, Resolve req legacy caps = Ok root) ∧
  modeRank (SMode s) ≤ modeRank (SMode root) ∧
  SRevision s = SRevision root ∧
  FullSelectionRevision s = FullSelectionRevision root.
Proof.
  induction 1 as [req legacy caps s H | root parent requested caps s Hi IH H].
  - split_and!; [by eapply Resolve_ok | by eauto | done..].
  - pose proof (ResolveChild_valid _ _ _ _ H). apply ResolveChild_ok in H as (_ & _ & Hr & ->).
    destruct IH as (_ & Hroot & ? & ? & ?). split_and!; simpl in *; done || lia.
Qed.

(** ** Properties *)

(** C8: Every snapshot of a run or of any descendant run passes
    [ValidateSnapshot], keeps the revision of the run it descends from, and
    never outranks it: no chain of [ResolveChild] calls escalates authority. *)
Theorem issued_never_escalates (root s : Snapshot) :
  issued root s →
  ValidateSnapshot s = Ok tt ∧ modeRank (SMode s) ≤ modeRank (SMode root) ∧
  SRevision s = SRevision root.
Proof.
  intros H. apply issued_bound in H as (Hok & _ & Hr & Hrev & _).
  apply ValidateSnapshot_spec in Hok. done.
Qed.

(** Full mode has provenance: a descendant runs in full mode only when the
    run it descends from was resolved from a user's explicit choice of full
    mode, and it carries exactly that choice's revision. *)
Theorem full_mode_provenance (root s : Snapshot) :
  issued root s → SMode s = ModeFull →
  SMode root = ModeFull ∧ SSource root = SourceUserSelected ∧
  FullSelectionRevision s = SRevision root ∧ SRevision root ≠ 0.
Proof.
  intros H Hf. pose proof (issued_bound _ _ H) as (_ & (req & leg & caps & Hroot) & Hr & _ & Hsel).
  assert (SMode root = ModeFull) as Hfull.
  { apply modeRank_full. pose proof (modeRank_le_full (SMode root)).
    apply modeRank_full in Hf. lia. }
  pose proof (Resolve_ok _ _ _ _ Hroot) as ((_ & Hrev & _ & _ & Huser) & _ & Hmode).
  assert (SSource root = SourceUserSelected) as Hsrc.
  { revert Hroot Hfull Hmode. unfold Resolve. destruct (String.eqb (ReqMode req) "").
    - intros _ -> Hy. discriminate.
    - simpl. destruct (validMode _); [|done]. by intros [= <-]. }
  split_and!; try done. rewrite Hsel, (Huser Hsrc), Hfull. done.
Qed.

(** A child request is granted exactly when the parent's snapshot is valid
    and the requested (or, if empty, the parent's) mode is a known mode of at
    most the parent's rank; otherwise the child gets the zero snapshot, which
    no boundary accepts. *)
Theorem deriveChild_fails_closed (p : Snapshot) (requested : Mode)
    (runner : option Capabilities) :
  ∃ c, deriveChildExecutionPolicy (Some p) requested runner = Some c ∧
  let mode := if String.eqb requested "" then SMode p else requested in
  if decide (ValidateSnapshot p = Ok tt ∧ validMode mode = true ∧
             modeRank mode ≤ modeRank (SMode p))
  then ValidateSnapshot c = Ok tt ∧ SMode c = mode ∧ ParentRevision c = SRevision p
  else ValidateSnapshot c = Err ModeAndRevisionRequired.
Proof.
  unfold deriveChildExecutionPolicy.
  destruct (ResolveChild p requested (default zeroCapabilities runner)) as [c|e] eqn:H;
    eexists; (split; [done|]); simpl.
  - pose proof (ResolveChild_valid _ _ _ _ H) as Hv.
    apply ResolveChild_ok in H as (Hp & Hm & Hr & ->).
    apply ValidateSnapshot_spec in Hp, Hv. rewrite decide_True by done. done.
  - rewrite decide_False; [done|]. intros (Hp & Hm & Hr).
    apply ValidateSnapshot_spec in Hp.
    assert (∃ s, ResolveChild p requested (default zeroCapabilities runner) = Ok s) as [s Hs].
    { eexists. apply ResolveChild_ok. done. }
    congruence.
Qed.

Definition user_full : Snapshot :=
  Build_Snapshot ModeFull 7 zeroCapabilities 0 7 SourceUserSelected.
Definition inherited_full : Snapshot :=
  Build_Snapshot ModeFull 7 zeroCapabilities 7 7 SourceInherited.

Lemma issued_never_escalates_witness :
  ValidateSnapshot inherited_full = Ok tt ∧
  modeRank (SMode inherited_full) ≤ modeRank (SMode user_full) ∧
  SRevision inherited_full = SRevision user_full.
Proof.
  apply (issued_never_escalates user_full inherited_full).
  apply (issued_child user_full user_full "" zeroCapabilities); [|reflexivity].
  apply (issued_root {| ReqMode := ModeFull; ReqRevision := 7 |} "" zeroCapabilities).
  reflexivity.
Defined.

Lemma full_mode_provenance_witness :
  SMode user_full = ModeFull ∧ SSource user_full = SourceUserSelected ∧
  FullSelectionRevision inherited_full = SRevision user_full ∧ SRevision user_full ≠ 0.
Proof.
  apply (full_mode_provenance user_full inherited_full); [|reflexivity].
  apply (issued_child user_full user_full "" zeroCapabilities); [|reflexivity].
  apply (issued_root {| ReqMode := ModeFull; ReqRevision := 7 |} "" zeroCapabilities).
  reflexivity.
Defined.
