(* ===== verification/Approval.v ===== *)
(** * The approval broker: [internal/approval/approval.go], [broker.go]

    The broker is shared by the run kernel (which opens requests and awaits
    them), the transports (which resolve them) and the timers it arms.  Its
    entries are heap objects: a waiter and a timer callback keep the pointer
    after the entry has left the broker's map, so the model keeps a store of
    entries addressed by pointer, beside the maps from approval id to pointer.

    Every method runs under [b.mu], so one call is one step, except [Await],
    which blocks outside the lock: it is [Await_begin], then either
    [readResolution] (the [done] channel was closed) or [Await_canceled] (the
    context ended).  A timer is first armed, then fired by the runtime, then its
    callback runs as a step of its own; [Stop] has no effect on a timer that has
    already fired.  The readings of [time.Now] are arguments. *)

From S2P Require Export ExecutionPolicy.

Local Open Scope Z_scope.

(** ** Data *)

Definition ApprovalSourceUser : string := "user-prompt".
Definition ApprovalSourceUserSelectedFull : string := "user-selected-full".

Definition OutcomeAllowOnce : string := "allow_once".
Definition OutcomeDeny : string := "deny".

Definition ReasonUser : string := "user".
Definition ReasonExpired : string := "expired".
Definition ReasonContextCanceled : string := "context_canceled".
Definition ReasonSessionCanceled : string := "session_canceled".
Definition ReasonBrokerShutdown : string := "broker_shutdown".

Record Draft := {
  dSessionID : string;
  dSessionRevision : Z;
  dRunID : string;
  dToolCallID : string;
  dToolName : string;
  dExecutorID : string;
  dRedactedInput : string;
  dInputDigest : string;
  dExecutionPolicyRevision : Z;
  dFullSelectionRevision : Z;
  dDangerLevel : string;
  dScope : string;
  dRememberAllowed : bool;
}.

Record Pending := {
  pID : string;
  pSessionID : string;
  pSessionRevision : Z;
  pRunID : string;
  pToolCallID : string;
  pToolName : string;
  pExecutorID : string;
  pRedactedInput : string;
  pInputDigest : string;
  pExecutionPolicyRevision : Z;
  pFullSelectionRevision : Z;
  pApprovalSource : string;
  pDangerLevel : string;
  pScope : string;
  pRememberAllowed : bool;
  pCreatedAt : time;
  pExpiresAt : time;
}.

#[export] Instance Pending_eq_dec : EqDecision Pending.
Proof. solve_decision. Defined.

Record Decision_ := { decApprovalID : string; decSessionID : string; decOutcome : string }.

Record Resolution := {
  resApprovalID : string;
  resOutcome : string;
  resReason : string;
  resResolvedAt : time;
}.
Definition emptyResolution : Resolution := Build_Resolution "" "" "" time_zero.

(** [Resolution.Allowed]. *)
Definition Allowed (r : Resolution) : bool :=
  String.eqb (resOutcome r) OutcomeAllowOnce && String.eqb (resReason r) ReasonUser.

Inductive DraftProblem :=
| SessionIDRequired | RunIDRequired | ToolNameRequired | ToolCallIDTooLarge
| RedactedInputTooLarge.

Inductive ApprovalError :=
| ErrInvalidDraft (p : DraftProblem)
| ErrInvalidDecision
| ErrApprovalNotFound
| ErrAlreadyResolved
| ErrApprovalExpired
| ErrSessionCanceled
| ErrBrokerClosed
| ErrIDCollision
| ErrInvalidFullModeGrant
| ErrContextCanceled      (** [context.Canceled] *)
| ErrContextEnded         (** [ctx.Err()] of the waiter's own context *)
| ErrGenerateID.

(** The [done] channel of an entry.  Closing a closed channel panics. *)
Inductive DoneChan := ChanOpen | ChanClosed | ChanPanic.
Definition close_chan (c : DoneChan) : DoneChan :=
  match c with ChanOpen => ChanClosed | _ => ChanPanic end.

Abbreviation ptr := nat (only parsing).
Abbreviation timer_id := nat (only parsing).

(** [request] and [fullModeGrant]; the [timer] field is the armed timer's id. *)
Record request := {
  rPending : Pending;
  rDone : DoneChan;
  rResolved : bool;
  rResolution : Resolution;
  rTimer : timer_id;
}.

Record fullModeGrant := {
  gPending : Pending;
  gPolicy : Snapshot;
  gTimer : timer_id;
}.

(** What a timer runs: [b.expire(id, entry)], the removal closure [expire]
    arms, or [b.expireFullModeGrant(id, entry)]. *)
Inductive callback :=
| CbExpire (id : string) (p : ptr)
| CbRemove (id : string) (p : ptr)
| CbExpireGrant (id : string) (p : ptr).

Inductive TimerState := TimerArmed (due : time) | TimerFired.
Record timer := { tState : TimerState; tCallback : callback }.

Record Broker := {
  ttl : duration;
  requests : gmap string ptr;
  fullModeGrants : gmap string ptr;
  canceledSessions : gset string;
  closed : bool;
  (** the store the maps and the callbacks point into *)
  entries : gmap ptr request;
  grants : gmap ptr fullModeGrant;
  timers : gmap timer_id timer;
  fresh_ref : nat;
}.

Definition DefaultTTL : duration := 5 * minute.
Definition maxIDAttempts : nat := 16.
Definition maxRedactedInputBytes : Z := 4096.

Definition NewBroker (t : duration) : Broker :=
  {| ttl := if t <=? 0 then DefaultTTL else t;
     requests := ∅; fullModeGrants := ∅; canceledSessions := ∅; closed := false;
     entries := ∅; grants := ∅; timers := ∅; fresh_ref := 0 |}.

(** ** Validation *)

Definition blank (s : string) : bool := String.eqb (trim_space s) "".

Definition validateDraft (d : Draft) : result ApprovalError unit :=
  if blank (dSessionID d) then Err (ErrInvalidDraft SessionIDRequired)
  else if blank (dRunID d) then Err (ErrInvalidDraft RunIDRequired)
  else if blank (dToolName d) then Err (ErrInvalidDraft ToolNameRequired)
  else if 512 <? slen (dToolCallID d) then Err (ErrInvalidDraft ToolCallIDTooLarge)
  else if maxRedactedInputBytes <? slen (dRedactedInput d)
  then Err (ErrInvalidDraft RedactedInputTooLarge)
  else Ok tt.

Definition validFullModeInputDigest (value : string) : bool :=
  if negb (has_prefix value "sha256:") then false else
  let encoded := trim_prefix value "sha256:" in
  if negb (slen encoded =? 64) || negb (String.eqb (to_lower encoded) encoded) then false
  else hex_ok encoded.

Definition validateFullModePolicy (p : Snapshot) : result ApprovalError unit :=
  if negb (is_ok (ValidateSnapshot p)) || negb (String.eqb (SMode p) ModeFull)
     || (FullSelectionRevision p =? 0) then Err ErrInvalidFullModeGrant
  else if String.eqb (SSource p) SourceUserSelected then
    if negb (FullSelectionRevision p =? SRevision p) then Err ErrInvalidFullModeGrant else Ok tt
  else if String.eqb (SSource p) SourceInherited || String.eqb (SSource p) SourceChildRestriction
  then if negb (ParentRevision p =? SRevision p) then Err ErrInvalidFullModeGrant else Ok tt
  else Err ErrInvalidFullModeGrant.

Definition validateFullModeDraft (d : Draft) (p : Snapshot) : result ApprovalError unit :=
  if negb (is_ok (validateDraft d)) || blank (dToolCallID d) || blank (dExecutorID d)
     || negb (validFullModeInputDigest (dInputDigest d))
     || negb (dExecutionPolicyRevision d =? SRevision p)
     || negb (dFullSelectionRevision d =? FullSelectionRevision p)
     || dRememberAllowed d
  then Err ErrInvalidFullModeGrant else Ok tt.

Definition fullModeDraftMatchesPending (d : Draft) (p : Pending) : bool :=
  String.eqb (dSessionID d) (pSessionID p) &&
  (dSessionRevision d =? pSessionRevision p) &&
  String.eqb (dRunID d) (pRunID p) &&
  String.eqb (dToolCallID d) (pToolCallID p) &&
  String.eqb (dToolName d) (pToolName p) &&
  String.eqb (dExecutorID d) (pExecutorID p) &&
  String.eqb (dRedactedInput d) (pRedactedInput p) &&
  String.eqb (dInputDigest d) (pInputDigest p) &&
  (dExecutionPolicyRevision d =? pExecutionPolicyRevision p) &&
  (dFullSelectionRevision d =? pFullSelectionRevision p) &&
  String.eqb (dDangerLevel d) (pDangerLevel p) &&
  String.eqb (dScope d) (pScope p) &&
  negb (dRememberAllowed d) && negb (pRememberAllowed p).

(** Times are compared as instants with [Equal]; on this representation that is
    equality, so clearing the times first and comparing them apart is field
    equality. *)
Definition clear_times (p : Pending) : Pending :=
  {| pID := pID p; pSessionID := pSessionID p; pSessionRevision := pSessionRevision p;
     pRunID := pRunID p; pToolCallID := pToolCallID p; pToolName := pToolName p;
     pExecutorID := pExecutorID p; pRedactedInput := pRedactedInput p;
     pInputDigest := pInputDigest p;
     pExecutionPolicyRevision := pExecutionPolicyRevision p;
     pFullSelectionRevision := pFullSelectionRevision p;
     pApprovalSource := pApprovalSource p; pDangerLevel := pDangerLevel p;
     pScope := pScope p; pRememberAllowed := pRememberAllowed p;
     pCreatedAt := time_zero; pExpiresAt := time_zero |}.

Definition sameFullModePending (left right : Pending) : bool :=
  if negb (bool_decide (clear_times left = clear_times right)) then false
  else (pCreatedAt left =? pCreatedAt right) && (pExpiresAt left =? pExpiresAt right).

(** ** Field updates *)

Definition with_requests (f : gmap string ptr → gmap string ptr) (b : Broker) : Broker :=
  Build_Broker (ttl b) (f (requests b)) (fullModeGrants b) (canceledSessions b) (closed b)
    (entries b) (grants b) (timers b) (fresh_ref b).
Definition with_grant_ids (f : gmap string ptr → gmap string ptr) (b : Broker) : Broker :=
  Build_Broker (ttl b) (requests b) (f (fullModeGrants b)) (canceledSessions b) (closed b)
    (entries b) (grants b) (timers b) (fresh_ref b).
Definition with_canceled (f : gset string → gset string) (b : Broker) : Broker :=
  Build_Broker (ttl b) (requests b) (fullModeGrants b) (f (canceledSessions b)) (closed b)
    (entries b) (grants b) (timers b) (fresh_ref b).
Definition with_closed (c : bool) (b : Broker) : Broker :=
  Build_Broker (ttl b) (requests b) (fullModeGrants b) (canceledSessions b) c
    (entries b) (grants b) (timers b) (fresh_ref b).
Definition with_entries (f : gmap ptr request → gmap ptr request) (b : Broker) : Broker :=
  Build_Broker (ttl b) (requests b) (fullModeGrants b) (canceledSessions b) (closed b)
    (f (entries b)) (grants b) (timers b) (fresh_ref b).
Definition with_grants (f : gmap ptr fullModeGrant → gmap ptr fullModeGrant) (b : Broker) : Broker :=
  Build_Broker (ttl b) (requests b) (fullModeGrants b) (canceledSessions b) (closed b)
    (entries b) (f (grants b)) (timers b) (fresh_ref b).
Definition with_timers (f : gmap timer_id timer → gmap timer_id timer) (b : Broker) : Broker :=
  Build_Broker (ttl b) (requests b) (fullModeGrants b) (canceledSessions b) (closed b)
    (entries b) (grants b) (f (timers b)) (fresh_ref b).
Definition bump_ref (b : Broker) : Broker :=
  Build_Broker (ttl b) (requests b) (fullModeGrants b) (canceledSessions b) (closed b)
    (entries b) (grants b) (timers b) (S (fresh_ref b)).

(** [timer.Stop]: an armed timer never fires; a fired one is unaffected. *)
Definition stop_timer (t : timer_id) (b : Broker) : Broker :=
  with_timers (λ ts, match ts !! t with
                     | Some {| tState := TimerArmed _ |} => delete t ts
                     | _ => ts
                     end) b.

(** [time.AfterFunc(d, cb)] at time [now], under the id [t]. *)
Definition after_func (t : timer_id) (now : time) (d : duration) (cb : callback)
    (b : Broker) : Broker :=
  with_timers <[t := {| tState := TimerArmed (time_add now d); tCallback := cb |}]> b.

(** ** Operations *)

(** The id generator is the broker's [idGenerator] field: the i-th call of one
    allocation gives [gen i], [None] for an error. *)
Fixpoint allocateID_from (attempts i : nat) (gen : nat → option string) (b : Broker)
  : result ApprovalError string :=
  match attempts with
  | O => Err ErrIDCollision
  | S attempts' =>
      match gen i with
      | None => Err ErrGenerateID
      | Some id =>
          if String.eqb id "" then Err ErrGenerateID
          else match requests b !! id, fullModeGrants b !! id with
               | None, None => Ok id
               | _, _ => allocateID_from attempts' (S i) gen b
               end
      end
  end.
Definition allocateIDLocked (gen : nat → option string) (b : Broker)
  : result ApprovalError string := allocateID_from maxIDAttempts 0 gen b.

Definition pending_of_draft (d : Draft) (id source : string) (polrev selrev : Z)
    (remember : bool) (now : time) (t : duration) : Pending :=
  {| pID := id; pSessionID := dSessionID d; pSessionRevision := dSessionRevision d;
     pRunID := dRunID d; pToolCallID := dToolCallID d; pToolName := dToolName d;
     pExecutorID := dExecutorID d; pRedactedInput := dRedactedInput d;
     pInputDigest := dInputDigest d; pExecutionPolicyRevision := polrev;
     pFullSelectionRevision := selrev; pApprovalSource := source;
     pDangerLevel := dDangerLevel d; pScope := dScope d; pRememberAllowed := remember;
     pCreatedAt := now; pExpiresAt := time_add now t |}.

Definition Open (gen : nat → option string) (now : time) (d : Draft) (b : Broker)
  : Broker * result ApprovalError Pending :=
  match validateDraft d with
  | Err e => (b, Err e)
  | Ok _ =>
      if closed b then (b, Err ErrBrokerClosed)
      else if bool_decide (dSessionID d ∈ canceledSessions b) then (b, Err ErrSessionCanceled)
      else match allocateIDLocked gen b with
           | Err e => (b, Err e)
           | Ok id =>
               let pending := pending_of_draft d id ApprovalSourceUser
                 (dExecutionPolicyRevision d) (dFullSelectionRevision d)
                 (dRememberAllowed d) now (ttl b) in
               let p := fresh_ref b in
               let entry := {| rPending := pending; rDone := ChanOpen; rResolved := false;
                               rResolution := emptyResolution; rTimer := p |} in
               (after_func p now (ttl b) (CbExpire id p)
                  (with_requests <[id := p]> (with_entries <[p := entry]> (bump_ref b))),
                Ok pending)
           end
  end.

Definition IssueFullModeGrant (gen : nat → option string) (now : time) (d : Draft)
    (policy : Snapshot) (b : Broker) : Broker * result ApprovalError Pending :=
  match _ ← validateFullModePolicy policy; validateFullModeDraft d policy with
  | Err e => (b, Err e)
  | Ok _ =>
      if closed b then (b, Err ErrBrokerClosed)
      else if bool_decide (dSessionID d ∈ canceledSessions b) then (b, Err ErrSessionCanceled)
      else match allocateIDLocked gen b with
           | Err e => (b, Err e)
           | Ok id =>
               let pending := pending_of_draft d id ApprovalSourceUserSelectedFull
                 (SRevision policy) (FullSelectionRevision policy) false now (ttl b) in
               let p := fresh_ref b in
               let entry := {| gPending := pending; gPolicy := policy; gTimer := p |} in
               (after_func p now (ttl b) (CbExpireGrant id p)
                  (with_grant_ids <[id := p]> (with_grants <[p := entry]> (bump_ref b))),
                Ok pending)
           end
  end.

Definition drop_grant (id : string) (t : timer_id) (b : Broker) : Broker :=
  stop_timer t (with_grant_ids (delete id) b).

Definition ConsumeFullModeGrant (now : time) (grant : Pending) (expected : Draft)
    (policy : Snapshot) (b : Broker) : Broker * result ApprovalError unit :=
  match _ ← validateFullModePolicy policy; validateFullModeDraft expected policy with
  | Err e => (b, Err e)
  | Ok _ =>
      if closed b then (b, Err ErrBrokerClosed)
      else match fullModeGrants b !! pID grant ≫= λ p, grants b !! p with
           | None => (b, Err ErrApprovalNotFound)
           | Some entry =>
               if String.eqb (pID grant) "" then (b, Err ErrApprovalNotFound)
               else if bool_decide (dSessionID expected ∈ canceledSessions b)
               then (drop_grant (pID grant) (gTimer entry) b, Err ErrSessionCanceled)
               else if negb (time_before now (pExpiresAt (gPending entry)))
               then (drop_grant (pID grant) (gTimer entry) b, Err ErrApprovalExpired)
               else if negb (sameFullModePending grant (gPending entry))
                       || negb (fullModeDraftMatchesPending expected (gPending entry))
                       || negb (bool_decide (policy = gPolicy entry))
               then (b, Err ErrInvalidFullModeGrant)
               else (drop_grant (pID grant) (gTimer entry) b, Ok tt)
           end
  end.

Definition resolved_entry (now : time) (outcome reason : string) (e : request) : request :=
  {| rPending := rPending e; rDone := close_chan (rDone e); rResolved := true;
     rResolution := Build_Resolution (pID (rPending e)) outcome reason now;
     rTimer := rTimer e |}.

(** [resolveLocked] on the entry at [p]. *)
Definition resolveLocked (now : time) (p : ptr) (outcome reason : string) (b : Broker)
  : Broker :=
  with_entries (alter (resolved_entry now outcome reason) p) b.

Definition deniedResolution (id reason : string) (now : time) : Resolution :=
  Build_Resolution id OutcomeDeny reason now.

Definition resolutionError (r : Resolution) : option ApprovalError :=
  if String.eqb (resReason r) ReasonExpired then Some ErrApprovalExpired
  else if String.eqb (resReason r) ReasonContextCanceled then Some ErrContextCanceled
  else if String.eqb (resReason r) ReasonSessionCanceled then Some ErrSessionCanceled
  else if String.eqb (resReason r) ReasonBrokerShutdown then Some ErrBrokerClosed
  else None.

(** The entry an id names, with its pointer. *)
Definition lookup_request (id : string) (b : Broker) : option (ptr * request) :=
  p ← requests b !! id; e ← entries b !! p; Some (p, e).

Definition resolution_at (p : ptr) (b : Broker) : Resolution :=
  match entries b !! p with Some e => rResolution e | None => emptyResolution end.

(** [Resolve]; [now] is the expiry reading, [stamp] the one of [resolveLocked]. *)
Definition Resolve (now stamp : time) (decision : Decision_) (b : Broker)
  : Broker * (Resolution * option ApprovalError) :=
  if negb (String.eqb (decOutcome decision) OutcomeAllowOnce)
     && negb (String.eqb (decOutcome decision) OutcomeDeny)
  then (b, (emptyResolution, Some ErrInvalidDecision))
  else if closed b then
    (b, (deniedResolution (decApprovalID decision) ReasonBrokerShutdown stamp,
         Some ErrBrokerClosed))
  else match lookup_request (decApprovalID decision) b with
       | None => (b, (emptyResolution, Some ErrApprovalNotFound))
       | Some (p, e) =>
           if negb (String.eqb (pSessionID (rPending e)) (decSessionID decision))
           then (b, (emptyResolution, Some ErrApprovalNotFound))
           else if negb (rResolved e) && negb (time_before now (pExpiresAt (rPending e)))
           then let b' := resolveLocked stamp p OutcomeDeny ReasonExpired b in
                (b', (resolution_at p b', Some ErrApprovalExpired))
           else if rResolved e then (b, (rResolution e, Some ErrAlreadyResolved))
           else let b' := resolveLocked stamp p (decOutcome decision) ReasonUser b in
                (b', (resolution_at p b', None))
       end.

(** [Await] up to its [select]: an answer, or the pointer it blocks on. *)
Inductive AwaitState :=
| AwaitAnswer (r : Resolution) (e : option ApprovalError)
| AwaitBlocked (p : ptr).

Definition Await_begin (now stamp : time) (sessionID approvalID : string) (b : Broker)
  : Broker * AwaitState :=
  if closed b then
    (b, AwaitAnswer (deniedResolution approvalID ReasonBrokerShutdown stamp)
          (Some ErrBrokerClosed))
  else match lookup_request approvalID b with
       | None => (b, AwaitAnswer emptyResolution (Some ErrApprovalNotFound))
       | Some (p, e) =>
           if negb (String.eqb (pSessionID (rPending e)) sessionID)
           then (b, AwaitAnswer emptyResolution (Some ErrApprovalNotFound))
           else
             let b' :=
               if negb (rResolved e) && negb (time_before now (pExpiresAt (rPending e)))
               then resolveLocked stamp p OutcomeDeny ReasonExpired b else b in
             match entries b' !! p with
             | Some e' =>
                 if rResolved e'
                 then (b', AwaitAnswer (rResolution e') (resolutionError (rResolution e')))
                 else (b', AwaitBlocked p)
             | None => (b', AwaitBlocked p)
             end
       end.

(** [<-done]. *)
Definition readResolution (p : ptr) (b : Broker) : Resolution * option ApprovalError :=
  (resolution_at p b, resolutionError (resolution_at p b)).

Definition resolveSystem (stamp : time) (sessionID approvalID reason : string) (b : Broker)
  : Broker * (Resolution * option ApprovalError) :=
  if closed b then
    (b, (deniedResolution approvalID ReasonBrokerShutdown stamp, Some ErrBrokerClosed))
  else match lookup_request approvalID b with
       | None => (b, (emptyResolution, Some ErrApprovalNotFound))
       | Some (p, e) =>
           if negb (String.eqb (pSessionID (rPending e)) sessionID)
           then (b, (emptyResolution, Some ErrApprovalNotFound))
           else if rResolved e then (b, (rResolution e, Some ErrAlreadyResolved))
           else let b' := resolveLocked stamp p OutcomeDeny reason b in
                (b', (resolution_at p b', None))
       end.

(** [<-ctx.Done()]. *)
Definition Await_canceled (stamp : time) (sessionID approvalID : string) (b : Broker)
  : Broker * (Resolution * option ApprovalError) :=
  let '(b', (r, err)) := resolveSystem stamp sessionID approvalID ReasonContextCanceled b in
  match err with
  | Some ErrAlreadyResolved => (b', (r, resolutionError r))
  | Some e => (b', (r, Some e))
  | None => (b', (r, Some ErrContextEnded))
  end.

(** The loops over the broker's maps.  Go's iteration order is unspecified; each
    iteration touches only its own entry and timer. *)
Definition cancel_entry (stamp : time) (sessionID : string) (p : ptr) (b : Broker) : Broker :=
  match entries b !! p with
  | Some e =>
      if negb (rResolved e) && String.eqb (pSessionID (rPending e)) sessionID
      then resolveLocked stamp p OutcomeDeny ReasonSessionCanceled b else b
  | None => b
  end.

Definition cancel_grant (sessionID : string) (ip : string * ptr) (b : Broker) : Broker :=
  match grants b !! ip.2 with
  | Some g =>
      if String.eqb (pSessionID (gPending g)) sessionID
      then drop_grant ip.1 (gTimer g) b else b
  | None => b
  end.

Definition shutdown_entry (stamp : time) (p : ptr) (b : Broker) : Broker :=
  match entries b !! p with
  | Some e =>
      let b1 := stop_timer (rTimer e) b in
      if rResolved e then b1 else resolveLocked stamp p OutcomeDeny ReasonBrokerShutdown b1
  | None => b
  end.

Definition shutdown_grant (p : ptr) (b : Broker) : Broker :=
  match grants b !! p with Some g => stop_timer (gTimer g) b | None => b end.

Definition CancelSession (stamp : time) (sessionID : string) (b : Broker) : Broker :=
  if closed b || blank sessionID then b else
  let b := with_canceled (union {[sessionID]}) b in
  let b := foldr (cancel_entry stamp sessionID) b (map_to_list (requests b)).*2 in
  foldr (cancel_grant sessionID) b (map_to_list (fullModeGrants b)).

Definition Shutdown (stamp : time) (b : Broker) : Broker :=
  if closed b then b else
  let b := with_closed true b in
  let b := foldr (shutdown_entry stamp) b (map_to_list (requests b)).*2 in
  let b := with_requests (λ _, ∅) b in
  let b := foldr shutdown_grant b (map_to_list (fullModeGrants b)).*2 in
  with_grant_ids (λ _, ∅) b.

(** ** Timer callbacks *)

Definition set_timer_of (p : ptr) (t : timer_id) (b : Broker) : Broker :=
  with_entries (alter (λ e, {| rPending := rPending e; rDone := rDone e;
    rResolved := rResolved e; rResolution := rResolution e; rTimer := t |}) p) b.

Definition expire (now : time) (id : string) (expected : ptr) (b : Broker) : Broker :=
  match lookup_request id b with
  | None => b
  | Some (p, e) =>
      if negb (p =? expected)%nat then b
      else if rResolved e then with_requests (delete id) b
      else
        let t := fresh_ref b in
        set_timer_of p t
          (after_func t now (ttl b) (CbRemove id p)
             (bump_ref (resolveLocked now p OutcomeDeny ReasonExpired b)))
  end.

Definition remove_entry (id : string) (entry : ptr) (b : Broker) : Broker :=
  if bool_decide (requests b !! id = Some entry) then with_requests (delete id) b else b.

Definition expireFullModeGrant (id : string) (expected : ptr) (b : Broker) : Broker :=
  if closed b then b
  else if bool_decide (fullModeGrants b !! id = Some expected)
  then with_grant_ids (delete id) b else b.

Definition run_callback (now : time) (cb : callback) (b : Broker) : Broker :=
  match cb with
  | CbExpire id p => expire now id p b
  | CbRemove id p => remove_entry id p b
  | CbExpireGrant id p => expireFullModeGrant id p b
  end.

(** ** Steps

    The labelled transition system of the broker: any interleaving of calls,
    context cancellations and timers. *)

Inductive event :=
| EvOpen (d : Draft)
| EvIssue (d : Draft) (policy : Snapshot)
| EvConsume (grant : Pending) (d : Draft) (policy : Snapshot)
| EvResolve (now : time) (d : Decision_)
| EvAwait (sessionID approvalID : string)
| EvAwaitCanceled (sessionID approvalID : string)
| EvCancelSession (sessionID : string)
| EvShutdown
| EvTimerFires (t : timer_id)
| EvTimerRuns (t : timer_id).

Definition fire_timer (now : time) (t : timer_id) (b : Broker) : option Broker :=
  match timers b !! t with
  | Some {| tState := TimerArmed due; tCallback := cb |} =>
      if due <=? now
      then Some (with_timers <[t := {| tState := TimerFired; tCallback := cb |}]> b)
      else None
  | _ => None
  end.

Definition run_timer (now : time) (t : timer_id) (b : Broker) : option Broker :=
  match timers b !! t with
  | Some {| tState := TimerFired; tCallback := cb |} =>
      Some (run_callback now cb (with_timers (delete t) b))
  | _ => None
  end.

Inductive step : Broker → event → Broker → Prop :=
| step_open gen now d b : step b (EvOpen d) (Open gen now d b).1
| step_issue gen now d policy b :
    step b (EvIssue d policy) (IssueFullModeGrant gen now d policy b).1
| step_consume now grant d policy b :
    step b (EvConsume grant d policy) (ConsumeFullModeGrant now grant d policy b).1
| step_resolve now stamp d b :
    step b (EvResolve now d) (Resolve now stamp d b).1
| step_await now stamp sid id b :
    step b (EvAwait sid id) (Await_begin now stamp sid id b).1
| step_await_canceled stamp sid id b :
    step b (EvAwaitCanceled sid id) (Await_canceled stamp sid id b).1
| step_cancel stamp sid b : step b (EvCancelSession sid) (CancelSession stamp sid b)
| step_shutdown stamp b : step b EvShutdown (Shutdown stamp b)
| step_fires now t b b' : fire_timer now t b = Some b' → step b (EvTimerFires t) b'
| step_runs now t b b' : run_timer now t b = Some b' → step b (EvTimerRuns t) b'.

Definition steps (b b' : Broker) : Prop := ∃ ev, step b ev b'.

Definition reachable (b : Broker) : Prop := ∃ t, rtc steps (NewBroker t) b.

(** ** The broker's invariant *)

Record wf (b : Broker) : Prop := {
  (** an entry is resolved exactly when its channel has been closed, once *)
  wf_done p e : entries b !! p = Some e →
    rDone e = if rResolved e then ChanClosed else ChanOpen;
  wf_resolution p e : entries b !! p = Some e → rResolved e = true →
    resApprovalID (rResolution e) = pID (rPending e);
  (** the maps name entries by their own id, and never share an id *)
  wf_requests id p : requests b !! id = Some p →
    ∃ e, entries b !! p = Some e ∧ pID (rPending e) = id;
  wf_grants id p : fullModeGrants b !! id = Some p →
    ∃ g, grants b !! p = Some g ∧ pID (gPending g) = id;
  wf_disjoint id p : requests b !! id = Some p → fullModeGrants b !! id = None;
  (** references are allocated below [fresh_ref], and a grant's timer is its own *)
  wf_entry_ref p e : entries b !! p = Some e → (p < fresh_ref b)%nat ∧ (rTimer e < fresh_ref b)%nat;
  wf_grant_ref p g : grants b !! p = Some g → (p < fresh_ref b)%nat ∧ gTimer g = p;
  wf_timer_ref t tm : timers b !! t = Some tm → (t < fresh_ref b)%nat;
  wf_grant_timer p g tm : grants b !! p = Some g → timers b !! p = Some tm →
    tCallback tm = CbExpireGrant (pID (gPending g)) p;
  (** an unresolved entry is still in the map *)
  wf_unresolved p e : entries b !! p = Some e → rResolved e = false →
    requests b !! pID (rPending e) = Some p;
  wf_remove_resolved t tm id p : timers b !! t = Some tm → tCallback tm = CbRemove id p →
    ∃ e, entries b !! p = Some e ∧ rResolved e = true;
  (** tombstones *)
  wf_canceled id p e : requests b !! id = Some p → entries b !! p = Some e →
    pSessionID (rPending e) ∈ canceledSessions b → rResolved e = true;
  wf_canceled_grant id p g : fullModeGrants b !! id = Some p → grants b !! p = Some g →
    pSessionID (gPending g) ∉ canceledSessions b;
  wf_closed : closed b = true → requests b = ∅ ∧ fullModeGrants b = ∅;
  (** every entry of the maps has a live timer that will remove it *)
  wf_request_timer id p e : requests b !! id = Some p → entries b !! p = Some e →
    ∃ tm, timers b !! rTimer e = Some tm ∧
      (tCallback tm = CbExpire id p ∨ (rResolved e = true ∧ tCallback tm = CbRemove id p));
  wf_grant_live id p : fullModeGrants b !! id = Some p →
    ∃ tm, timers b !! p = Some tm ∧ tCallback tm = CbExpireGrant id p;
}.

Lemma wf_init t : wf (NewBroker t).
Proof. split; simpl; try (intros; simplify_map_eq; done); done. Qed.

(** ** The transitions calls are made of *)

Definition add_request (now : time) (p : Pending) (b : Broker) : Broker :=
  let r := fresh_ref b in
  after_func r now (ttl b) (CbExpire (pID p) r)
    (with_requests <[pID p := r]>
       (with_entries <[r := Build_request p ChanOpen false emptyResolution r]> (bump_ref b))).

Definition add_grant (now : time) (p : Pending) (policy : Snapshot) (b : Broker) : Broker :=
  let r := fresh_ref b in
  after_func r now (ttl b) (CbExpireGrant (pID p) r)
    (with_grant_ids <[pID p := r]>
       (with_grants <[r := Build_fullModeGrant p policy r]> (bump_ref b))).

Definition id_free (id : string) (b : Broker) : Prop :=
  requests b !! id = None ∧ fullModeGrants b !! id = None.

(** [Shutdown] once every entry has been denied; [ts] are the timers that had
    already fired. *)
Definition close_broker (ts : gmap timer_id timer) (b : Broker) : Broker :=
  Build_Broker (ttl b) ∅ ∅ (canceledSessions b) true (entries b) (grants b) ts (fresh_ref b).

(** [micro u]: with [u], the transition is a user's decision. *)
Inductive micro : bool → Broker → Broker → Prop :=
| m_deny stamp p e reason b :
    entries b !! p = Some e → rResolved e = false →
    micro false b (resolveLocked stamp p OutcomeDeny reason b)
| m_user stamp p e outcome b :
    entries b !! p = Some e → rResolved e = false →
    micro true b (resolveLocked stamp p outcome ReasonUser b)
| m_add_request now p b :
    id_free (pID p) b → closed b = false → pSessionID p ∉ canceledSessions b →
    micro false b (add_request now p b)
| m_add_grant now p policy b :
    id_free (pID p) b → closed b = false → pSessionID p ∉ canceledSessions b →
    micro false b (add_grant now p policy b)
| m_drop_grant id p g b :
    fullModeGrants b !! id = Some p → grants b !! p = Some g →
    micro false b (drop_grant id (gTimer g) b)
| m_tombstone sid b :
    (∀ id p e, requests b !! id = Some p → entries b !! p = Some e →
       pSessionID (rPending e) = sid → rResolved e = true) →
    (∀ id p g, fullModeGrants b !! id = Some p → grants b !! p = Some g →
       pSessionID (gPending g) ≠ sid) →
    micro false b (with_canceled (union {[sid]}) b)
| m_close ts b :
    (∀ id p e, requests b !! id = Some p → entries b !! p = Some e → rResolved e = true) →
    ts ⊆ timers b →
    micro false b (close_broker ts b)
| m_fires now t b b' : fire_timer now t b = Some b' → micro false b b'
| m_runs now t b b' : run_timer now t b = Some b' → micro false b b'.

#[local] Hint Constructors micro : core.
#[local] Hint Resolve rtc_refl rtc_once : core.

Ltac lookup_hyps :=
  repeat match goal with
  | H : <[?i := _]> _ !! ?j = Some _ |- _ =>
      rewrite (lookup_insert _ i j) in H; case_decide; simplify_eq/=
  | H : delete ?i _ !! ?j = Some _ |- _ =>
      rewrite (lookup_delete _ i j) in H; case_decide; simplify_eq/=
  | H : alter _ ?i _ !! ?j = Some _ |- _ =>
      apply lookup_alter_Some in H; destruct H as [(? & ? & ? & ?)|[? ?]]; simplify_eq/=
  end.
Ltac lookup_cases :=
  lookup_hyps;
  repeat match goal with
  | |- context [<[?i := _]> _ !! ?j] =>
      rewrite (lookup_insert _ i j); case_decide; simplify_eq/=
  | |- context [delete ?i _ !! ?j] =>
      rewrite (lookup_delete _ i j); case_decide; simplify_eq/=
  | |- context [alter _ ?i _ !! ?j] =>
      rewrite (lookup_alter _ i j); case_decide; simplify_eq/=
  end.
(** A lookup in the updated map, from one in the old map. *)
Ltac old_lookup x :=
  exists x; lookup_cases; eauto; exfalso; congruence.

Lemma wf_resolve stamp p e outcome reason b :
  entries b !! p = Some e → rResolved e = false → wf b →
  wf (resolveLocked stamp p outcome reason b).
Proof.
  intros He Hr Hwf. unfold resolveLocked. split; simpl.
  - intros q e' ?. lookup_cases; [by rewrite (wf_done _ Hwf _ _ He), Hr|by eapply wf_done].
  - intros q e' ? ?. lookup_cases; [done|by eapply wf_resolution].
  - intros id q (e' & He' & Hid)%(wf_requests _ Hwf). destruct (decide (p = q)) as [<-|];
      simplify_map_eq; eauto.
  - apply (wf_grants _ Hwf).
  - apply (wf_disjoint _ Hwf).
  - intros q e' ?. lookup_cases; eapply (wf_entry_ref _ Hwf); eauto.
  - apply (wf_grant_ref _ Hwf).
  - apply (wf_timer_ref _ Hwf).
  - apply (wf_grant_timer _ Hwf).
  - intros q e' ? ?. lookup_cases. by eapply wf_unresolved.
  - intros t tm id q ? Hcb. destruct (wf_remove_resolved _ Hwf _ _ _ _ ltac:(eassumption) Hcb)
      as (e' & ? & ?). destruct (decide (p = q)); simplify_map_eq; eauto.
  - intros id q e' ? ? ?. lookup_cases; [done|by eapply wf_canceled].
  - apply (wf_canceled_grant _ Hwf).
  - apply (wf_closed _ Hwf).
  - intros id q e' ? ?. lookup_cases.
    + destruct (wf_request_timer _ Hwf id _ _ ltac:(eassumption) ltac:(eassumption)) as (tm & ? & [?|[? ?]]); eauto; congruence.
    + by eapply wf_request_timer.
  - apply (wf_grant_live _ Hwf).
Qed.

(** References at or above [fresh_ref] are unused. *)
Lemma wf_fresh b : wf b →
  entries b !! fresh_ref b = None ∧ grants b !! fresh_ref b = None ∧
  timers b !! fresh_ref b = None.
Proof.
  intros Hwf. repeat split; apply eq_None_not_Some.
  - intros [e He]. apply (wf_entry_ref _ Hwf) in He. lia.
  - intros [g Hg]. apply (wf_grant_ref _ Hwf) in Hg. lia.
  - intros [t Ht]. apply (wf_timer_ref _ Hwf) in Ht. lia.
Qed.

Lemma wf_add_request now p b :
  id_free (pID p) b → closed b = false → pSessionID p ∉ canceledSessions b →
  wf b → wf (add_request now p b).
Proof.
  intros [Hr Hg] Hc Hs Hwf. destruct (wf_fresh _ Hwf) as (Fe & Fg & Ft).
  unfold add_request, after_func. destruct Hwf. split; simpl.
  - intros q e ?. lookup_cases; eauto.
  - intros q e ? ?. lookup_cases; eauto.
  - intros id q ?. lookup_hyps; [eexists; by rewrite lookup_insert_eq|].
    edestruct wf_requests0 as (e & ? & ?); eauto. old_lookup e.
  - eauto.
  - intros id q ?. lookup_cases; eauto.
  - intros q e ?. lookup_cases; [lia|]. edestruct wf_entry_ref0; eauto with lia.
  - intros q g ?. edestruct wf_grant_ref0; eauto with lia.
  - intros t tm ?. lookup_cases; [lia|]. assert (t < fresh_ref b)%nat by eauto. lia.
  - intros q g tm ? ?. lookup_cases; eauto.
  - intros q e ? ?. lookup_cases; eauto.
    exfalso. assert (requests b !! pID (rPending e) = Some q) by eauto. congruence.
  - intros t tm id q ? ?. lookup_hyps.
    edestruct wf_remove_resolved0 as (e & ? & ?); eauto. old_lookup e.
  - intros id q e ? ? ?. lookup_cases; eauto.
  - eauto.
  - congruence.
  - intros id q e ? ?. lookup_hyps.
    + eexists; rewrite lookup_insert_eq; eauto.
    + edestruct wf_requests0 as (e' & ? & ?); eauto; congruence.
    + edestruct wf_request_timer0 as (tm & ? & ?); eauto. old_lookup tm.
  - intros id q ?. edestruct wf_grant_live0 as (tm & ? & ?); eauto. old_lookup tm.
Qed.

Lemma wf_add_grant now p policy b :
  id_free (pID p) b → closed b = false → pSessionID p ∉ canceledSessions b →
  wf b → wf (add_grant now p policy b).
Proof.
  intros [Hr Hg] Hc Hs Hwf. destruct (wf_fresh _ Hwf) as (Fe & Fg & Ft).
  unfold add_grant, after_func. destruct Hwf. split; simpl.
  - eauto.
  - eauto.
  - eauto.
  - intros id q ?. lookup_hyps; [eexists; by rewrite lookup_insert_eq|].
    edestruct wf_grants0 as (g & ? & ?); eauto. old_lookup g.
  - intros id q ?. lookup_cases; eauto.
  - intros q e ?. edestruct wf_entry_ref0; eauto with lia.
  - intros q g ?. lookup_cases; [lia|]. edestruct wf_grant_ref0; eauto with lia.
  - intros t tm ?. lookup_cases; [lia|]. assert (t < fresh_ref b)%nat by eauto. lia.
  - intros q g tm ? ?. lookup_cases; eauto.
  - eauto.
  - intros t tm id q ? ?. lookup_cases; eauto.
  - eauto.
  - intros id q g ? ?. lookup_cases; eauto.
  - congruence.
  - intros id q e ? ?. edestruct wf_request_timer0 as (tm & ? & ?); eauto. old_lookup tm.
  - intros id q ?. lookup_hyps; [eexists; by rewrite lookup_insert_eq|].
    edestruct wf_grant_live0 as (tm & ? & ?); eauto. old_lookup tm.
Qed.

(** Timers named by a surviving entry or grant. *)
Lemma wf_grant_timer_of b id p g : wf b →
  fullModeGrants b !! id = Some p → grants b !! p = Some g →
  ∃ tm, timers b !! gTimer g = Some tm ∧ tCallback tm = CbExpireGrant id p.
Proof.
  intros Hwf Hi Hg. destruct (wf_grant_live _ Hwf _ _ Hi) as (tm & ? & ?).
  rewrite (proj2 (wf_grant_ref _ Hwf _ _ Hg)). eauto.
Qed.

Lemma stop_timer_Some t t' tm ts :
  (match ts !! t with
   | Some {| tState := TimerArmed _ |} => delete t ts
   | _ => ts
   end : gmap timer_id timer) !! t' = Some tm → ts !! t' = Some tm.
Proof. repeat case_match; rewrite ?lookup_delete_Some; naive_solver. Qed.

Lemma stop_timer_keeps t t' tm ts : t ≠ t' → ts !! t' = Some tm →
  (match ts !! t with
   | Some {| tState := TimerArmed _ |} => delete t ts
   | _ => ts
   end : gmap timer_id timer) !! t' = Some tm.
Proof. intros. repeat case_match; rewrite ?lookup_delete_Some; naive_solver. Qed.
#[local] Hint Resolve stop_timer_Some stop_timer_keeps : core.

Lemma wf_drop_grant id p g b :
  fullModeGrants b !! id = Some p → grants b !! p = Some g → wf b →
  wf (drop_grant id (gTimer g) b).
Proof.
  intros Hi Hg Hwf. destruct (wf_grant_timer_of _ _ _ _ Hwf Hi Hg) as (tm0 & Ht0 & Hc0).
  pose proof (proj2 (wf_grant_ref _ Hwf _ _ Hg)) as Hp.
  destruct Hwf. unfold drop_grant. split; simpl; eauto.
  - intros. lookup_hyps; eauto.
  - intros. lookup_cases; eauto.
  - intros. lookup_hyps; eauto.
  - intros Hc. destruct (wf_closed0 Hc) as [-> ->]. by rewrite delete_empty.
  - intros id' q e ? ?. edestruct wf_request_timer0 as (tm & Ht & Hcb); eauto.
    exists tm. split; [|done]. apply stop_timer_keeps; [|done]. intros Heq.
    rewrite Heq, Ht in Ht0. simplify_eq. destruct Hcb as [Hcb|[? Hcb]]; congruence.
  - intros id' q ?. lookup_hyps. edestruct wf_grant_live0 as (tm & Ht & Hcb); eauto.
    exists tm. split; [|done]. apply stop_timer_keeps; [|done]. intros Heq.
    congruence.
Qed.

Lemma wf_tombstone sid b :
  (∀ id p e, requests b !! id = Some p → entries b !! p = Some e →
     pSessionID (rPending e) = sid → rResolved e = true) →
  (∀ id p g, fullModeGrants b !! id = Some p → grants b !! p = Some g →
     pSessionID (gPending g) ≠ sid) →
  wf b → wf (with_canceled (union {[sid]}) b).
Proof.
  intros Hr Hg Hwf. destruct Hwf. split; simpl; eauto.
  - intros id p e ? ? [?%elem_of_singleton|?]%elem_of_union; eauto.
  - intros id p g ? ? [?%elem_of_singleton|?]%elem_of_union; [by eapply Hg|by eapply wf_canceled_grant0].
Qed.

Lemma wf_fires now t b b' : fire_timer now t b = Some b' → wf b → wf b'.
Proof.
  unfold fire_timer. intros H Hwf.
  destruct (timers b !! t) as [[[due|] cb]|] eqn:Ht; try done.
  case_match; simplify_eq. destruct Hwf. split; simpl; eauto.
  - intros. lookup_hyps; eauto.
  - intros. lookup_hyps; [|eauto]. by eapply (wf_grant_timer0 _ _ _ ltac:(eassumption) Ht).
  - intros. lookup_hyps; [|eauto]. by eapply (wf_remove_resolved0 _ _ _ _ Ht).
  - intros id q e ? ?. edestruct wf_request_timer0 as (tm & Htm & Hcb); eauto.
    destruct (decide (t = rTimer e)) as [->|].
    + eexists; rewrite lookup_insert_eq; split; [done|]. by simplify_map_eq.
    + exists tm. by rewrite lookup_insert_ne.
  - intros id q ?. edestruct wf_grant_live0 as (tm & Htm & Hcb); eauto.
    destruct (decide (t = q)) as [->|].
    + eexists; rewrite lookup_insert_eq; split; [done|]. by simplify_map_eq.
    + exists tm. by rewrite lookup_insert_ne.
Qed.

(** A timer that has run is gone; what it was keeping alive must be, too. *)
Lemma wf_drop_timer t b : wf b →
  (∀ id p e, requests b !! id = Some p → entries b !! p = Some e → rTimer e ≠ t) →
  (∀ id p, fullModeGrants b !! id = Some p → p ≠ t) →
  wf (with_timers (delete t) b).
Proof.
  intros Hwf Hr Hg. destruct Hwf. split; simpl; eauto.
  - intros. lookup_hyps; eauto.
  - intros. lookup_hyps; eauto.
  - intros. lookup_hyps; eauto.
  - intros id q e ? ?. edestruct wf_request_timer0 as (tm & Htm & Hcb); eauto.
    exists tm. rewrite lookup_delete_ne by (intros ->; by eapply Hr). eauto.
  - intros id q ?. edestruct wf_grant_live0 as (tm & Htm & Hcb); eauto.
    exists tm. rewrite lookup_delete_ne by (intros ->; by eapply Hg). eauto.
Qed.

Lemma wf_forget_request id b : wf b →
  (∀ p e, requests b !! id = Some p → entries b !! p = Some e → rResolved e = true) →
  wf (with_requests (delete id) b).
Proof.
  intros Hwf Hr. destruct Hwf. split; simpl; eauto.
  - intros. lookup_hyps; eauto.
  - intros. lookup_hyps; eauto.
  - intros p e He Hu. rewrite lookup_delete_ne; [eauto|].
    intros Hid. assert (rResolved e = true); [|congruence]. eapply Hr; [|done].
    rewrite Hid. eauto.
  - intros. lookup_hyps; eauto.
  - intros Hc. destruct (wf_closed0 Hc) as [-> ->]. by rewrite delete_empty.
  - intros. lookup_hyps; eauto.
Qed.

Lemma wf_forget_grant id b : wf b → wf (with_grant_ids (delete id) b).
Proof.
  intros Hwf. destruct Hwf. split; simpl; eauto.
  - intros. lookup_hyps; eauto.
  - intros. lookup_cases; eauto.
  - intros. lookup_hyps; eauto.
  - intros Hc. destruct (wf_closed0 Hc) as [-> ->]. by rewrite delete_empty.
  - intros. lookup_hyps; eauto.
Qed.

(** [expire] re-arms the entry's timer with the removal closure. *)
Lemma wf_rearm now d id p e b :
  wf b → requests b !! id = Some p → entries b !! p = Some e → rResolved e = true →
  wf (set_timer_of p (fresh_ref b) (after_func (fresh_ref b) now d (CbRemove id p) (bump_ref b))).
Proof.
  intros Hwf Hi He Hr. destruct (wf_fresh _ Hwf) as (Fe & Fg & Ft).
  destruct Hwf. unfold set_timer_of, after_func. split; simpl.
  - intros. lookup_hyps; eauto.
  - intros. lookup_hyps; eauto.
  - intros id' q ?. edestruct wf_requests0 as (e' & ? & ?); eauto.
    destruct (decide (p = q)); simplify_map_eq; eauto.
  - eauto.
  - eauto.
  - intros. lookup_hyps; edestruct wf_entry_ref0; eauto with lia.
  - intros q g ?. edestruct wf_grant_ref0; eauto with lia.
  - intros t tm ?. lookup_hyps; [lia|]. assert (t < fresh_ref b)%nat by eauto. lia.
  - intros. lookup_hyps; eauto.
  - intros. lookup_hyps; eauto.
  - intros t tm id' q ? ?. lookup_hyps.
    + eexists; rewrite lookup_alter_eq, He; split; [done|done].
    + edestruct wf_remove_resolved0 as (e' & ? & ?); eauto.
      destruct (decide (p = q)); simplify_map_eq; eauto.
  - intros. lookup_hyps; eauto.
  - eauto.
  - eauto.
  - intros id' q e' ? ?. lookup_hyps.
    + eexists; rewrite lookup_insert_eq; split; [done|right].
      edestruct (wf_requests0 id) as (? & ? & ?); eauto.
      edestruct (wf_requests0 id') as (? & ? & ?); eauto. naive_solver congruence.
    + edestruct wf_request_timer0 as (tm & ? & ?); eauto. old_lookup tm.
  - intros id' q ?. edestruct wf_grant_live0 as (tm & ? & ?); eauto. old_lookup tm.
Qed.

Lemma lookup_request_Some id p e b :
  lookup_request id b = Some (p, e) ↔ requests b !! id = Some p ∧ entries b !! p = Some e.
Proof.
  unfold lookup_request. destruct (requests b !! id) as [q|]; simpl; [|naive_solver].
  destruct (entries b !! q) eqn:?; simpl; naive_solver.
Qed.

(** What a timer keeps alive, read from its callback. *)
Lemma timer_owner t tm b : wf b → timers b !! t = Some tm →
  (∀ id p e, requests b !! id = Some p → entries b !! p = Some e → rTimer e = t →
     tCallback tm = CbExpire id p ∨ (rResolved e = true ∧ tCallback tm = CbRemove id p)) ∧
  (∀ id p, fullModeGrants b !! id = Some p → p = t → tCallback tm = CbExpireGrant id p).
Proof.
  intros Hwf Ht. split.
  - intros id p e Hi He <-. destruct (wf_request_timer _ Hwf _ _ _ Hi He) as (? & ? & ?).
    simplify_map_eq. done.
  - intros id p Hi ->. destruct (wf_grant_live _ Hwf _ _ Hi) as (? & ? & ?). by simplify_map_eq.
Qed.

Lemma wf_run_expire now t id p b tm : wf b →
  timers b !! t = Some tm → tCallback tm = CbExpire id p →
  wf (expire now id p (with_timers (delete t) b)).
Proof.
  intros Hwf Ht Hcb. destruct (timer_owner _ _ _ Hwf Ht) as [Hr Hg].
  rewrite Hcb in Hr, Hg. unfold expire.
  destruct (lookup_request _ _) as [[q e]|] eqn:Hl.
  2:{ apply wf_drop_timer; [done| |by intros ?? Hi2 Heq2; discriminate (Hg _ _ Hi2 Heq2)].
      intros id' q e Hi He [?|[? ?]]%(Hr _ _ _ Hi He); simplify_eq.
      change (lookup_request id' b = None) in Hl.
      by rewrite (proj2 (lookup_request_Some _ _ _ _) (conj Hi He)) in Hl. }
  apply lookup_request_Some in Hl as [Hi He]; simpl in *.
  destruct (Nat.eqb_spec q p) as [->|Hne]; simpl.
  2:{ apply wf_drop_timer; [done| |by intros ?? Hi2 Heq2; discriminate (Hg _ _ Hi2 Heq2)].
      intros id' q' e' Hi' He' [?|[? ?]]%(Hr _ _ _ Hi' He'); simplify_eq. }
  destruct (rResolved e) eqn:Hre.
  - change (wf (with_timers (delete t) (with_requests (delete id) b))).
    apply wf_drop_timer; simpl; [|intros|by intros ?? Hi2 Heq2; discriminate (Hg _ _ Hi2 Heq2)].
    + apply wf_forget_request; [done|]. intros; simplify_map_eq. done.
    + lookup_hyps. intros ?. edestruct Hr as [?|[? ?]]; eauto; congruence.
  - set (b1 := resolveLocked now p OutcomeDeny ReasonExpired b).
    assert (Hwf1 : wf b1) by (by eapply wf_resolve).
    assert (Hlt : (t < fresh_ref b)%nat) by (by eapply wf_timer_ref).
    assert (He1 : entries b1 !! p = Some (resolved_entry now OutcomeDeny ReasonExpired e))
      by (unfold b1, resolveLocked; simpl; by rewrite lookup_alter_eq, He).
    pose proof (wf_rearm now (ttl b) id p (resolved_entry now OutcomeDeny ReasonExpired e)
      b1 Hwf1 Hi He1 eq_refl) as Hwf2.
    match type of Hwf2 with wf ?b2 => assert (Hwf3 : wf (with_timers (delete t) b2)) end.
    { apply wf_drop_timer; simpl; [done| |by intros ?? Hi2 Heq2; discriminate (Hg _ _ Hi2 Heq2)].
      intros id' q e' Hi' He'. unfold b1, resolveLocked in He'; simpl in He'.
      lookup_hyps; [lia|]. intros ?. edestruct Hr as [?|[? ?]]; eauto; congruence. }
    revert Hwf3. unfold with_timers, after_func, set_timer_of, with_entries; simpl.
    by rewrite delete_insert_ne by lia.
Qed.

Lemma wf_runs now t b b' : run_timer now t b = Some b' → wf b → wf b'.
Proof.
  unfold run_timer. intros H Hwf.
  destruct (timers b !! t) as [[[due|] cb]|] eqn:Ht; simplify_eq.
  destruct (timer_owner _ _ _ Hwf Ht) as [Hr Hg]; simpl in Hr, Hg.
  destruct cb as [id p|id p|id p]; simpl.
  - by eapply wf_run_expire.
  - unfold remove_entry. case_bool_decide as Hi; simpl in Hi.
    + change (wf (with_timers (delete t) (with_requests (delete id) b))).
      destruct (wf_remove_resolved _ Hwf _ _ _ _ Ht eq_refl) as (e & He & Hre).
      apply wf_drop_timer; simpl; [|intros|by intros ?? Hi2 Heq2; discriminate (Hg _ _ Hi2 Heq2)].
      * apply wf_forget_request; [done|]. intros; simplify_map_eq. done.
      * lookup_hyps. intros ?. edestruct Hr as [?|[? ?]]; eauto; congruence.
    + apply wf_drop_timer; [done| |by intros ?? Hi2 Heq2; discriminate (Hg _ _ Hi2 Heq2)].
      intros id' q' e' Hi' He' [?|[? ?]]%(Hr _ _ _ Hi' He'); simplify_eq.
  - unfold expireFullModeGrant; simpl. destruct (closed b) eqn:Hc.
    { destruct (wf_closed _ Hwf Hc) as [Ha Hb].
      apply wf_drop_timer; [done| |]; rewrite ?Ha, ?Hb; intros; simplify_map_eq. }
    case_bool_decide as Hi.
    + change (wf (with_timers (delete t) (with_grant_ids (delete id) b))).
      apply wf_drop_timer; simpl; [by apply wf_forget_grant| |].
      * intros id' q' e' Hi' He' [?|[? ?]]%(Hr _ _ _ Hi' He'); simplify_eq.
      * intros id' q ??. lookup_hyps. assert (CbExpireGrant id p = CbExpireGrant id' t); eauto.
        congruence.
    + apply wf_drop_timer; [done| |].
      * intros id' q' e' Hi' He' [?|[? ?]]%(Hr _ _ _ Hi' He'); simplify_eq.
      * intros id' q Hi' Hq. pose proof (Hg _ _ Hi' Hq). simplify_eq.
Qed.

Lemma wf_close ts b :
  (∀ id p e, requests b !! id = Some p → entries b !! p = Some e → rResolved e = true) →
  ts ⊆ timers b → wf b → wf (close_broker ts b).
Proof.
  intros Hr Hts Hwf. assert (Hsub : ∀ t tm, ts !! t = Some tm → timers b !! t = Some tm)
    by (intros; by eapply lookup_weaken).
  destruct Hwf. split; simpl; eauto; try (intros; simplify_map_eq; done).
  intros p e He Hu. pose proof (wf_unresolved0 _ _ He Hu) as Hi.
  rewrite (Hr _ _ _ Hi He) in Hu. done.
Qed.

Lemma wf_micro u b b' : micro u b b' → wf b → wf b'.
Proof.
  destruct 1; eauto using wf_resolve, wf_add_request, wf_add_grant, wf_drop_grant,
    wf_tombstone, wf_close, wf_fires, wf_runs.
Qed.

Lemma wf_micros u b b' : rtc (micro u) b b' → wf b → wf b'.
Proof. induction 1; eauto using wf_micro. Qed.

(** ** Calls as transitions *)

Lemma allocateID_free attempts i gen b id :
  allocateID_from attempts i gen b = Ok id → id_free id b ∧ id ≠ ""%string.
Proof.
  revert i. induction attempts as [|n IH]; intros i; simpl; [done|].
  destruct (gen i) as [s|]; [|done]. destruct (String.eqb_spec s ""); [done|].
  destruct (requests b !! s) eqn:?; [by apply IH|].
  destruct (fullModeGrants b !! s) eqn:?; [by apply IH|].
  intros ?; simplify_eq. done.
Qed.

Lemma micro_Open gen now d b : rtc (micro false) b (Open gen now d b).1.
Proof.
  unfold Open. destruct (validateDraft d); [|done]. destruct (closed b) eqn:?; [done|].
  case_bool_decide; [done|].
  destruct (allocateIDLocked gen b) as [id|] eqn:Hid; [|done].
  apply allocateID_free in Hid as [Hid _]. simpl. apply rtc_once.
  by apply (m_add_request now (pending_of_draft d id ApprovalSourceUser
    (dExecutionPolicyRevision d) (dFullSelectionRevision d) (dRememberAllowed d) now (ttl b))).
Qed.

Lemma micro_Issue gen now d policy b :
  rtc (micro false) b (IssueFullModeGrant gen now d policy b).1.
Proof.
  unfold IssueFullModeGrant. case_match; [|done]. destruct (closed b) eqn:?; [done|].
  case_bool_decide; [done|].
  destruct (allocateIDLocked gen b) as [id|] eqn:Hid; [|done].
  apply allocateID_free in Hid as [Hid _]. simpl. apply rtc_once.
  by apply (m_add_grant now (pending_of_draft d id ApprovalSourceUserSelectedFull
    (SRevision policy) (FullSelectionRevision policy) false now (ttl b))).
Qed.

Lemma micro_Consume now grant d policy b :
  rtc (micro false) b (ConsumeFullModeGrant now grant d policy b).1.
Proof.
  unfold ConsumeFullModeGrant. case_match; [|done]. destruct (closed b) eqn:?; [done|].
  destruct (fullModeGrants b !! pID grant) as [p|] eqn:Hp; simpl; [|done].
  destruct (grants b !! p) as [g|] eqn:Hg; simpl; [|done].
  repeat case_match; simpl; eauto using rtc_once, m_drop_grant.
Qed.

(** The guards of [Resolve], in one statement. *)
Definition user_resolves (now : time) (d : Decision_) (p : ptr) (e : request) (b : Broker)
  : Prop :=
  (decOutcome d = OutcomeAllowOnce ∨ decOutcome d = OutcomeDeny) ∧ closed b = false ∧
  lookup_request (decApprovalID d) b = Some (p, e) ∧
  pSessionID (rPending e) = decSessionID d ∧ rResolved e = false ∧
  time_before now (pExpiresAt (rPending e)) = true.

Lemma Resolve_cases now stamp d b :
  rtc (micro false) b (Resolve now stamp d b).1 ∨
  ∃ p e, user_resolves now d p e b ∧
    (Resolve now stamp d b).1 = resolveLocked stamp p (decOutcome d) ReasonUser b.
Proof.
  unfold Resolve.
  destruct (String.eqb_spec (decOutcome d) OutcomeAllowOnce) as [Ho|];
    destruct (String.eqb_spec (decOutcome d) OutcomeDeny) as [Ho'|]; simpl; [| | |by left];
    (destruct (closed b) eqn:Hc; [by left|];
     destruct (lookup_request _ b) as [[p e]|] eqn:Hl; [|by left];
     destruct (String.eqb_spec (pSessionID (rPending e)) (decSessionID d)); simpl; [|by left];
     destruct (rResolved e) eqn:Hr; simpl; [by left|];
     pose proof Hl as [_ He]%lookup_request_Some;
     destruct (time_before now _) eqn:Ht; simpl;
     [right; exists p, e; unfold user_resolves; eauto 10
     |left; apply rtc_once; by eapply m_deny]).
Qed.

Lemma micro_Await now stamp sid id b :
  rtc (micro false) b (Await_begin now stamp sid id b).1.
Proof.
  unfold Await_begin. destruct (closed b); [done|].
  destruct (lookup_request id b) as [[p e]|] eqn:Hl; [|done].
  apply lookup_request_Some in Hl as [_ He].
  case_match; [done|].
  destruct (negb (rResolved e) && _) eqn:Hc; [|by repeat case_match].
  apply andb_true_iff in Hc as [Hr%negb_true_iff _].
  repeat case_match; simpl; eauto using rtc_once, m_deny.
Qed.

Lemma micro_resolveSystem stamp sid id reason b :
  rtc (micro false) b (resolveSystem stamp sid id reason b).1.
Proof.
  unfold resolveSystem. destruct (closed b); [done|].
  destruct (lookup_request id b) as [[p e]|] eqn:Hl; [|done].
  apply lookup_request_Some in Hl as [_ He].
  repeat case_match; simpl; eauto using rtc_once, m_deny.
Qed.

Lemma micro_Await_canceled stamp sid id b :
  rtc (micro false) b (Await_canceled stamp sid id b).1.
Proof.
  pose proof (micro_resolveSystem stamp sid id ReasonContextCanceled b) as H.
  unfold Await_canceled. destruct (resolveSystem _ _ _ _ b) as [b' [r err]].
  by repeat case_match.
Qed.

(** *** The loops of [CancelSession] and [Shutdown] *)

Definition deny_if (P : request → bool) (stamp : time) (reason : string) (p : ptr) (b : Broker)
  : Broker :=
  match entries b !! p with
  | Some e => if negb (rResolved e) && P e then resolveLocked stamp p OutcomeDeny reason b else b
  | None => b
  end.

(** Everything but the entries is the same. *)
Definition same_maps (b b' : Broker) : Prop := b' = with_entries (λ _, entries b') b.

Lemma deny_if_spec P stamp reason p b :
  (∀ e, P (resolved_entry stamp OutcomeDeny reason e) = P e) →
  same_maps b (deny_if P stamp reason p b) ∧
  rtc (micro false) b (deny_if P stamp reason p b) ∧
  ∀ q e', entries (deny_if P stamp reason p b) !! q = Some e' →
    ∃ e, entries b !! q = Some e ∧ rPending e' = rPending e ∧ P e' = P e ∧
      (rResolved e = true → rResolved e' = true) ∧ (q = p → P e = true → rResolved e' = true).
Proof.
  intros HP. unfold deny_if. destruct (entries b !! p) as [e|] eqn:He.
  2:{ split_and!; [by destruct b|done|]. intros q e' ?. exists e'. naive_solver. }
  destruct (negb (rResolved e) && P e) eqn:Hc.
  - apply andb_true_iff in Hc as [Hr%negb_true_iff Hp].
    split_and!; [done|by eapply rtc_once, m_deny|].
    intros q e'. simpl. intros. lookup_hyps; eexists; split_and!; eauto; naive_solver.
  - split_and!; [by destruct b|done|]. intros q e' ?. exists e'. split_and!; eauto.
    intros -> Hp. simplify_eq. rewrite Hp, andb_true_r in Hc. by apply negb_false_iff.
Qed.

Lemma deny_all_spec P stamp reason l b :
  (∀ e, P (resolved_entry stamp OutcomeDeny reason e) = P e) →
  let b' := foldr (deny_if P stamp reason) b l in
  same_maps b b' ∧ rtc (micro false) b b' ∧
  ∀ q e', entries b' !! q = Some e' →
    ∃ e, entries b !! q = Some e ∧ rPending e' = rPending e ∧ P e' = P e ∧
      (rResolved e = true → rResolved e' = true) ∧ (q ∈ l → P e = true → rResolved e' = true).
Proof.
  intros HP. induction l as [|p l (IH1 & IH2 & IH3)]; cbn [foldr].
  { split_and!; [by destruct b|done|]. intros q e ?. exists e. split_and!; auto.
    intros []%not_elem_of_nil. }
  destruct (deny_if_spec P stamp reason p (foldr (deny_if P stamp reason) b l) HP)
    as (H1 & H2 & H3).
  split_and!; [unfold same_maps in *; rewrite H1, IH1; done|by etrans|].
  intros q e2 (e1 & He1 & ? & Hp1 & ? & Hq)%H3.
  destruct (IH3 _ _ He1) as (e & ? & ? & Hp & ? & ?). exists e. split_and!; eauto; try congruence.
  intros [->|?]%elem_of_cons ?; [apply Hq; congruence|eauto].
Qed.

Lemma cancel_grants_spec sid l b :
  NoDup l.*1 → (∀ ip, ip ∈ l → fullModeGrants b !! ip.1 = Some ip.2) →
  let b' := foldr (cancel_grant sid) b l in
  rtc (micro false) b b' ∧ entries b' = entries b ∧ requests b' = requests b ∧
  grants b' = grants b ∧
  (∀ id p, fullModeGrants b' !! id = Some p → fullModeGrants b !! id = Some p) ∧
  (∀ id p, id ∉ l.*1 → fullModeGrants b !! id = Some p → fullModeGrants b' !! id = Some p) ∧
  (∀ id p g, (id, p) ∈ l → grants b !! p = Some g → pSessionID (gPending g) = sid →
     fullModeGrants b' !! id = None).
Proof.
  induction l as [|[id p] l IH]; cbn [foldr].
  { intros _ _. split_and!; auto. intros ??? []%not_elem_of_nil. }
  intros [Hid Hnd]%list.NoDup_cons Hl.
  destruct IH as (I1 & I2 & I3 & I4 & I5 & I6 & I7); [done|intros; by apply Hl, elem_of_cons; right|].
  set (b1 := foldr (cancel_grant sid) b l) in *. unfold cancel_grant; cbn [fst snd].
  assert (Hp : fullModeGrants b1 !! id = Some p).
  { apply I6; [done|]. by apply (Hl (id, p)), elem_of_cons; left. }
  destruct (grants b1 !! p) as [g|] eqn:Hg.
  2:{ split_and!; auto; [intros id' q [_ ?]%not_elem_of_cons; auto|].
      intros id' q g [?|?]%elem_of_cons ??; [simplify_eq; congruence|eauto]. }
  destruct (String.eqb_spec (pSessionID (gPending g)) sid).
  - split_and!; auto; cbn.
    + etrans; [exact I1|]. by eapply rtc_once, m_drop_grant.
    + intros. lookup_hyps. auto.
    + intros id' q [? ?]%not_elem_of_cons ?. rewrite lookup_delete_ne by done. auto.
    + intros id' q g' [?|?]%elem_of_cons ??; simplify_eq; [apply lookup_delete_eq|].
      destruct (decide (id = id')) as [->|]; [apply lookup_delete_eq|].
      rewrite lookup_delete_ne by done. eauto.
  - split_and!; auto; [intros id' q [_ ?]%not_elem_of_cons; auto|].
    intros id' q g' [?|?]%elem_of_cons ??; [simplify_eq; congruence|eauto].
Qed.

Lemma tombstone_commutes f sid l b :
  (∀ (x : ptr) b, with_canceled (union {[sid]}) (f x b) = f x (with_canceled (union {[sid]}) b)) →
  foldr f (with_canceled (union {[sid]}) b) l = with_canceled (union {[sid]}) (foldr f b l).
Proof. intros Hf. induction l as [|x l IH]; [done|]. cbn [foldr]. by rewrite IH, Hf. Qed.

Lemma cancel_grants_tombstone sid l b :
  foldr (cancel_grant sid) (with_canceled (union {[sid]}) b) l =
  with_canceled (union {[sid]}) (foldr (cancel_grant sid) b l).
Proof.
  induction l as [|x l IH]; [done|]. cbn [foldr]. rewrite IH.
  set (b1 := foldr _ b l). unfold cancel_grant; cbn. by repeat case_match.
Qed.

Lemma elem_map_to_list_snd (m : gmap string ptr) id p : m !! id = Some p → p ∈ (map_to_list m).*2.
Proof. intros ?. apply list_elem_of_fmap. exists (id, p). by rewrite elem_of_map_to_list. Qed.

Lemma micro_CancelSession stamp sid b : rtc (micro false) b (CancelSession stamp sid b).
Proof.
  unfold CancelSession. destruct (closed b || blank sid); [done|].
  cbn zeta.
  rewrite (tombstone_commutes (cancel_entry stamp sid)).
  2:{ intros p b'. unfold cancel_entry; cbn. by repeat case_match. }
  rewrite cancel_grants_tombstone. cbn [requests with_canceled].
  set (P := λ e, String.eqb (pSessionID (rPending e)) sid).
  destruct (deny_all_spec P stamp ReasonSessionCanceled (map_to_list (requests b)).*2 b ltac:(done))
    as (H1 & H2 & H3).
  change (deny_if P stamp ReasonSessionCanceled) with (cancel_entry stamp sid) in *.
  set (b1 := foldr (cancel_entry stamp sid) b _) in *.
  assert (Hr1 : requests b1 = requests b) by (by rewrite H1).
  assert (Hg1 : fullModeGrants b1 = fullModeGrants b) by (by rewrite H1).
  change (fullModeGrants (with_canceled (union {[sid]}) b1)) with (fullModeGrants b1).
  destruct (cancel_grants_spec sid (map_to_list (fullModeGrants b1)) b1)
    as (G1 & G2 & G3 & G4 & G5 & _ & G7).
  { apply NoDup_fst_map_to_list. }
  { intros [id p] Hip. by apply elem_of_map_to_list in Hip. }
  etrans; [exact H2|]. etrans; [exact G1|]. apply rtc_once, m_tombstone.
  - rewrite G2, G3, Hr1. intros id p e Hi (e0 & ? & Hpe & ? & _ & Hres)%H3 Hs.
    apply Hres; [by eapply elem_map_to_list_snd|]. unfold P. rewrite <- Hpe, Hs.
    apply String.eqb_refl.
  - rewrite G4. intros id p g Hi Hg Hs.
    rewrite (G7 id p g) in Hi; [done| |done|done].
    apply elem_of_map_to_list. by apply G5.
Qed.

Lemma shutdown_entries_split stamp l b :
  ∃ ts, ts ⊆ timers b ∧
    foldr (shutdown_entry stamp) (with_closed true b) l =
    with_closed true (with_timers (λ _, ts)
      (foldr (deny_if (λ _, true) stamp ReasonBrokerShutdown) b l)).
Proof.
  induction l as [|p l (ts & Hts & IH)]; cbn [foldr]; [by exists (timers b); destruct b|].
  rewrite IH. set (b1 := foldr _ b l). unfold shutdown_entry, deny_if; cbn.
  destruct (entries b1 !! p) as [e|]; [|by exists ts].
  rewrite andb_true_r.
  set (ts' := timers (stop_timer (rTimer e) (with_timers (λ _, ts) b1))).
  exists ts'. split; [|by destruct (rResolved e)].
  apply map_subseteq_spec. intros t tm Ht. eapply lookup_weaken; [|exact Hts].
  revert Ht. unfold ts'. cbn. apply stop_timer_Some.
Qed.

Lemma shutdown_grants_split l b :
  ∃ ts, ts ⊆ timers b ∧ foldr shutdown_grant b l = with_timers (λ _, ts) b.
Proof.
  induction l as [|p l (ts & Hts & IH)]; cbn [foldr]; [by exists (timers b); destruct b|].
  rewrite IH. unfold shutdown_grant; cbn. destruct (grants b !! p) as [g|]; [|by exists ts].
  exists (timers (stop_timer (gTimer g) (with_timers (λ _, ts) b))). split; [|done].
  apply map_subseteq_spec. intros t tm Ht. eapply lookup_weaken; [|exact Hts].
  revert Ht. cbn. apply stop_timer_Some.
Qed.

Lemma micro_Shutdown stamp b : rtc (micro false) b (Shutdown stamp b).
Proof.
  unfold Shutdown. destruct (closed b) eqn:Hc; [done|]. cbn zeta.
  change (requests (with_closed true b)) with (requests b).
  destruct (shutdown_entries_split stamp (map_to_list (requests b)).*2 b) as (ts & Hts & ->).
  destruct (deny_all_spec (λ _, true) stamp ReasonBrokerShutdown (map_to_list (requests b)).*2 b
    ltac:(done)) as (H1 & H2 & H3).
  set (b1 := foldr (deny_if _ _ _) b _) in *.
  assert (Hr1 : requests b1 = requests b) by (by rewrite H1).
  assert (Ht1 : timers b1 = timers b) by (by rewrite H1).
  match goal with |- context [foldr shutdown_grant ?b2 ?l] =>
    destruct (shutdown_grants_split l b2) as (ts' & Hts' & ->) end.
  etrans; [exact H2|]. apply rtc_once.
  apply (m_close ts' b1).
  - rewrite Hr1. intros id p e Hi (e0 & _ & _ & _ & _ & Hres)%H3. apply Hres; [|done].
    by eapply elem_map_to_list_snd.
  - rewrite Ht1. etrans; [exact Hts'|done].
Qed.

(** Every step but a user's accepted [Resolve] is made of system transitions. *)
Lemma step_micro b ev b' : step b ev b' →
  rtc (micro false) b b' ∨
  ∃ now stamp d p e, ev = EvResolve now d ∧ user_resolves now d p e b ∧
    b' = resolveLocked stamp p (decOutcome d) ReasonUser b.
Proof.
  destruct 1 as [| | |now stamp d b| | | | | |].
  4:{ destruct (Resolve_cases now stamp d b) as [?|(p & e & ? & ?)]; [by left|].
      right. naive_solver. }
  all: left; eauto using micro_Open, micro_Issue, micro_Consume, micro_Await,
    micro_Await_canceled, micro_CancelSession, micro_Shutdown, rtc_once, m_fires, m_runs.
Qed.

Lemma step_micros b ev b' : step b ev b' → ∃ u, rtc (micro u) b b'.
Proof.
  intros [?|(now & stamp & d & p & e & -> & (_ & _ & [_ Hl]%lookup_request_Some & _ & Hr & _) & ->)]
    %step_micro; [eauto|].
  exists true. by eapply rtc_once, m_user.
Qed.

(** ** What no interleaving undoes *)

(** An entry keeps its request, and once resolved its resolution. *)
Definition entry_le (e e' : request) : Prop :=
  rPending e' = rPending e ∧
  (rResolved e = true → rResolved e' = true ∧ rResolution e' = rResolution e).

#[export] Instance entry_le_preorder : PreOrder entry_le.
Proof.
  split; [by intros e|]. intros e1 e2 e3 [H1 H2] [H3 H4]. split; [congruence|].
  intros [? ?]%H2. destruct H4; [done|]. split; congruence.
Qed.

Record evolves (b b' : Broker) : Prop := {
  ev_entries p e : entries b !! p = Some e → ∃ e', entries b' !! p = Some e' ∧ entry_le e e';
  ev_grants p g : grants b !! p = Some g → grants b' !! p = Some g;
  (** a grant that left the map never comes back *)
  ev_grant_ids id p : (p < fresh_ref b)%nat →
    fullModeGrants b' !! id = Some p → fullModeGrants b !! id = Some p;
  ev_fresh : (fresh_ref b ≤ fresh_ref b')%nat;
  ev_canceled : canceledSessions b ⊆ canceledSessions b';
  ev_closed : closed b = true → closed b' = true;
}.

#[export] Instance evolves_preorder : PreOrder evolves.
Proof.
  split.
  - intros b. split; eauto. intros p e ?. by exists e.
  - intros b1 b2 b3 [A1 A2 A3 A4 A5 A6] [B1 B2 B3 B4 B5 B6]. split; eauto.
    + intros p e (e' & (e'' & ? & ?)%B1 & ?)%A1. exists e''. split; [done|by etrans].
    + intros id p ? ?. apply A3; [done|]. apply B3; [lia|done].
    + lia.
    + by etrans.
Qed.

Lemma evolves_resolve stamp p e outcome reason b :
  entries b !! p = Some e → rResolved e = false →
  evolves b (resolveLocked stamp p outcome reason b).
Proof.
  intros He Hr. split; simpl; eauto. intros q e' ?.
  destruct (decide (p = q)) as [->|Hne]; [|exists e'; by rewrite lookup_alter_ne].
  rewrite lookup_alter_eq, He. eexists; split; [done|].
  split; simpl; intros; [congruence|exfalso; congruence].
Qed.

Lemma evolves_rearm p t b : evolves b (set_timer_of p t b).
Proof.
  split; simpl; eauto. intros q e ?. destruct (decide (p = q)) as [->|Hne].
  - eexists; rewrite lookup_alter_eq; split; [by apply fmap_Some_2|done].
  - exists e. by rewrite lookup_alter_ne.
Qed.

(** Updates that leave the evolving state alone. *)
Lemma evolves_frame b b' :
  entries b' = entries b → grants b' = grants b → canceledSessions b' = canceledSessions b →
  (∀ id p, fullModeGrants b' !! id = Some p → fullModeGrants b !! id = Some p) →
  (fresh_ref b ≤ fresh_ref b')%nat → (closed b = true → closed b' = true) → evolves b b'.
Proof.
  intros He Hg Hc Hi ? ?. split; rewrite ?Hg, ?Hc; eauto.
  intros p e ?. exists e. rewrite He. done.
Qed.

Lemma evolves_expire now id p b : evolves b (expire now id p b).
Proof.
  unfold expire. destruct (lookup_request id b) as [[q e]|] eqn:Hl; [|done].
  apply lookup_request_Some in Hl as [_ He].
  destruct (negb _); [done|]. destruct (rResolved e) eqn:Hr; [by apply evolves_frame|].
  etrans; [by eapply (evolves_resolve now)|]. etrans; [|apply evolves_rearm].
  apply evolves_frame; simpl; auto.
Qed.

Lemma evolves_run now t b b' : run_timer now t b = Some b' → evolves b b'.
Proof.
  unfold run_timer. intros H. repeat case_match; simplify_eq.
  etrans; [by apply (evolves_frame b (with_timers (delete t) b))|].
  destruct tCallback0; simpl; [apply evolves_expire| |].
  - unfold remove_entry. case_bool_decide; by apply evolves_frame.
  - unfold expireFullModeGrant. case_match; [done|].
    case_bool_decide; [|done]. apply evolves_frame; simpl; auto. intros. by lookup_hyps.
Qed.

Lemma evolves_micro u b b' : wf b → micro u b b' → evolves b b'.
Proof.
  intros Hwf. destruct 1; eauto using evolves_resolve, evolves_run.
  - destruct (wf_fresh _ Hwf) as (Fe & _). unfold add_request, after_func. split; simpl; auto.
    intros q e ?. exists e. rewrite lookup_insert_ne by congruence. done.
  - destruct (wf_fresh _ Hwf) as (_ & Fg & _). unfold add_grant, after_func. split; simpl; auto.
    + intros q e ?. by exists e.
    + intros q g ?. rewrite lookup_insert_ne by congruence. done.
    + intros id q ? ?. lookup_hyps; [lia|done].
  - apply evolves_frame; simpl; auto. intros. by lookup_hyps.
  - split; simpl; eauto; [|set_solver]. intros q e ?. by exists e.
  - apply evolves_frame; simpl; auto. intros. simplify_map_eq.
  - unfold fire_timer in *. repeat case_match; simplify_eq. by apply evolves_frame.
Qed.

Lemma micros_evolves u b b' : rtc (micro u) b b' → wf b → evolves b b'.
Proof.
  induction 1 as [|b1 b2 b3 H12 _ IH]; intros Hwf; [done|].
  etrans; [by eapply evolves_micro|]. apply IH. by eapply wf_micro.
Qed.

Lemma wf_steps b b' : rtc steps b b' → wf b → wf b' ∧ evolves b b'.
Proof.
  induction 1 as [|b1 b2 b3 [ev [u H]%step_micros] _ IH]; intros Hwf; [done|].
  destruct IH as [? ?]; [by eapply wf_micros|]. split; [done|].
  etrans; [by eapply micros_evolves|done].
Qed.

Lemma wf_reachable b : reachable b → wf b.
Proof. intros [t Hs]. eapply wf_steps; [exact Hs|apply wf_init]. Qed.

(** No system transition makes an entry allowed. *)
Lemma micro_denies b b' p e' : wf b → micro false b b' →
  entries b' !! p = Some e' → Allowed (rResolution e') = true →
  ∃ e, entries b !! p = Some e ∧ Allowed (rResolution e) = true.
Proof.
  intros Hwf Hm He' Ha.
  assert (Hdeny : ∀ stamp reason e, Allowed (rResolution (resolved_entry stamp OutcomeDeny reason e))
                              = false) by done.
  inversion Hm; subst; unfold resolveLocked, fire_timer, run_timer in *; simpl in *; eauto.
  - lookup_hyps; eauto.
  - lookup_hyps; eauto.
  - repeat case_match; simplify_eq; simpl in *; eauto.
  - repeat case_match; simplify_eq. destruct tCallback0; simpl in *.
    + revert He'. unfold expire. destruct (lookup_request _ _) as [[q e]|]; [|simpl; eauto].
      repeat case_match; simpl; intros; [eauto|eauto|].
      repeat (lookup_hyps; eauto).
    + revert He'. unfold remove_entry. case_bool_decide; simpl; eauto.
    + revert He'. unfold expireFullModeGrant. case_match; [simpl; eauto|].
      case_bool_decide; simpl; eauto.
Qed.

Lemma micros_deny b b' p e' : rtc (micro false) b b' → wf b →
  entries b' !! p = Some e' → Allowed (rResolution e') = true →
  ∃ e, entries b !! p = Some e ∧ Allowed (rResolution e) = true.
Proof.
  induction 1 as [|b1 b2 b3 H12 _ IH]; intros Hwf He Ha; [eauto|].
  destruct IH as (e2 & ? & ?); eauto using wf_micro, micro_denies.
Qed.

Lemma sameFullModePending_eq l r : sameFullModePending l r = true → l = r.
Proof.
  unfold sameFullModePending. case_bool_decide as H; [|done]. simpl.
  intros [?%Z.eqb_eq ?%Z.eqb_eq]%andb_true_iff. destruct l, r. unfold clear_times in H.
  simpl in *. injection H as ??????????????? . by subst.
Qed.

Lemma validateFullModePolicy_full p u : validateFullModePolicy p = Ok u → SMode p = ModeFull.
Proof.
  unfold validateFullModePolicy. destruct (String.eqb_spec (SMode p) ModeFull); [done|].
  by rewrite orb_true_r.
Qed.

(** The exact condition of a successful consumption, and its effect. *)
Lemma Consume_Ok now grant d policy b b1 :
  ConsumeFullModeGrant now grant d policy b = (b1, Ok tt) →
  ∃ p g, fullModeGrants b !! pID grant = Some p ∧ grants b !! p = Some g ∧
    grant = gPending g ∧ policy = gPolicy g ∧ fullModeDraftMatchesPending d (gPending g) = true ∧
    time_before now (pExpiresAt (gPending g)) = true ∧ closed b = false ∧
    dSessionID d ∉ canceledSessions b ∧ SMode policy = ModeFull ∧
    b1 = drop_grant (pID grant) (gTimer g) b.
Proof.
  unfold ConsumeFullModeGrant.
  destruct (validateFullModePolicy policy) as [[]|?] eqn:Hvp; [|by intros [= <-]].
  apply validateFullModePolicy_full in Hvp.
  cbn [mbind result_bind].
  destruct (validateFullModeDraft d policy) as [[]|?] eqn:Hvd; [|by intros [= <-]].
  destruct (closed b) eqn:Hcl; [done|].
  destruct (fullModeGrants b !! pID grant) as [p|] eqn:Hp; simpl; [|done].
  destruct (grants b !! p) as [g|] eqn:Hg; [|done].
  destruct (String.eqb_spec (pID grant) ""); [done|].
  case_bool_decide; [done|]. destruct (time_before now _) eqn:Ht; [|done]. simpl.
  destruct (sameFullModePending grant (gPending g)) eqn:Hsame; [|done].
  destruct (fullModeDraftMatchesPending d (gPending g)) eqn:Hm; [|done].
  case_bool_decide; [simpl|done]. intros [= <-].
  exists p, g. split_and!; auto. by apply sameFullModePending_eq.
Qed.

(** ** Properties *)

(** C2: in every reachable state of the broker, whatever the interleaving of
    calls, cancellations and timers, no [done] channel has been closed twice
    (the panic the code must avoid); a channel is closed exactly when its entry
    has a resolution, which carries the entry's own approval id; an unresolved
    entry is still findable by its id, belongs to a session that has not been
    cancelled and to a broker that is not shut down; and every entry or grant in
    the maps has a live timer that will take it out, so the maps do not leak. *)
Theorem broker_reachable_sound b :
  reachable b →
  (∀ p e, entries b !! p = Some e →
     rDone e ≠ ChanPanic ∧ (rDone e = ChanClosed ↔ rResolved e = true) ∧
     (rResolved e = true → resApprovalID (rResolution e) = pID (rPending e)) ∧
     (rResolved e = false → lookup_request (pID (rPending e)) b = Some (p, e) ∧
        closed b = false ∧ pSessionID (rPending e) ∉ canceledSessions b)) ∧
  (∀ id p e, lookup_request id b = Some (p, e) →
     pID (rPending e) = id ∧ fullModeGrants b !! id = None ∧
     ∃ tm, timers b !! rTimer e = Some tm ∧
       (tCallback tm = CbExpire id p ∨ (rResolved e = true ∧ tCallback tm = CbRemove id p))) ∧
  (∀ id p, fullModeGrants b !! id = Some p →
     ∃ g tm, grants b !! p = Some g ∧ pID (gPending g) = id ∧
       pSessionID (gPending g) ∉ canceledSessions b ∧
       timers b !! gTimer g = Some tm ∧ tCallback tm = CbExpireGrant id p).
Proof.
  intros Hwf%wf_reachable. split_and!.
  - intros p e He. pose proof (wf_done _ Hwf _ _ He) as Hd.
    split_and!; [by destruct (rResolved e); rewrite Hd|by destruct (rResolved e); rewrite Hd
      |by eapply wf_resolution|].
    intros Hu. pose proof (wf_unresolved _ Hwf _ _ He Hu) as Hi.
    split_and!; [by apply lookup_request_Some| |].
    + destruct (closed b) eqn:Hc; [|done]. apply (wf_closed _ Hwf) in Hc as [Hr _].
      rewrite Hr in Hi. simplify_map_eq.
    + intros Hs. pose proof (wf_canceled _ Hwf _ _ _ Hi He Hs). congruence.
  - intros id p e [Hi He]%lookup_request_Some. split_and!.
    + destruct (wf_requests _ Hwf _ _ Hi) as (? & ? & ?). congruence.
    + by eapply wf_disjoint.
    + by eapply wf_request_timer.
  - intros id p Hi. destruct (wf_grants _ Hwf _ _ Hi) as (g & Hg & Hid).
    destruct (wf_grant_timer_of _ _ _ _ Hwf Hi Hg) as (tm & ? & ?).
    exists g, tm. split_and!; auto. by eapply wf_canceled_grant.
Qed.

(** The resolution of an approval is final.  Once an entry is resolved, no
    later call, cancellation, shutdown or timer changes its resolution, nor the
    request it answers. *)
Theorem resolution_final b b' p e :
  reachable b → rtc steps b b' → entries b !! p = Some e → rResolved e = true →
  ∃ e', entries b' !! p = Some e' ∧ rPending e' = rPending e ∧ rResolved e' = true ∧
        rResolution e' = rResolution e ∧ rDone e' = ChanClosed.
Proof.
  intros Hwf%wf_reachable Hs He Hr. destruct (wf_steps _ _ Hs Hwf) as [Hwf' Hev].
  destruct (ev_entries _ _ Hev _ _ He) as (e' & He' & Hp & Hle). destruct (Hle Hr) as [Hr' Hres].
  exists e'. split_and!; auto. by rewrite (wf_done _ Hwf' _ _ He'), Hr'.
Qed.

(** C1: the only way to an allowed tool call.  If a step of a reachable broker
    turns an entry's resolution into an allowed one, that step is a [Resolve]
    with [allow_once], naming the entry's own approval and session, on an open
    broker, for a session that has not been cancelled, strictly before the
    entry's expiry, and the entry was unresolved until then. *)
Theorem allowed_only_by_user b ev b' p e' :
  reachable b → step b ev b' → entries b' !! p = Some e' → Allowed (rResolution e') = true →
  (∃ e, entries b !! p = Some e ∧ Allowed (rResolution e) = true) ∨
  (∃ now d e, ev = EvResolve now d ∧ decOutcome d = OutcomeAllowOnce ∧
     lookup_request (decApprovalID d) b = Some (p, e) ∧
     pID (rPending e') = decApprovalID d ∧ pSessionID (rPending e') = decSessionID d ∧
     rResolved e = false ∧ closed b = false ∧ decSessionID d ∉ canceledSessions b ∧
     time_before now (pExpiresAt (rPending e')) = true).
Proof.
  intros Hwf%wf_reachable Hs He' Ha.
  destruct (step_micro _ _ _ Hs) as
    [Hm|(now & stamp & d & q & e & -> & (Ho & Hc & Hl & Hsid & Hr & Hnow) & ->)].
  { left. by eapply micros_deny. }
  pose proof Hl as [Hi He]%lookup_request_Some.
  unfold resolveLocked in He'. simpl in He'. lookup_hyps; [right|left; eauto].
  destruct (wf_requests _ Hwf _ _ Hi) as (e2 & ? & ?).
  match type of Hl with _ = Some (_, ?x) => exists now, d, x end. split_and!; auto.
  - destruct Ho as [?|Ho]; [done|]. unfold Allowed in Ha; simpl in Ha. by rewrite Ho in Ha.
  - congruence.
  - intros Hcs. rewrite <- Hsid in Hcs. assert (rResolved x = true) by (by eapply wf_canceled).
    congruence.
Qed.

(** C3: a full-mode grant is spent at most once.  A successful
    [ConsumeFullModeGrant] on a reachable broker found, under the presented id, a
    grant of the broker whose every field, policy included, equals what was
    presented, unexpired and for a live session; it deletes it, and from then on,
    whatever happens, no other call succeeds on that grant: an immediate replay
    fails, and no later state names the grant again under any id. *)
Theorem grant_spent_once b now grant d policy b1 :
  reachable b → ConsumeFullModeGrant now grant d policy b = (b1, Ok tt) →
  ∃ p g, fullModeGrants b !! pID grant = Some p ∧ grants b !! p = Some g ∧
    grant = gPending g ∧ policy = gPolicy g ∧ fullModeDraftMatchesPending d (gPending g) = true ∧
    time_before now (pExpiresAt (gPending g)) = true ∧ closed b = false ∧
    dSessionID d ∉ canceledSessions b ∧ SMode policy = ModeFull ∧
    (∀ now' d' policy', (ConsumeFullModeGrant now' grant d' policy' b1).2 ≠ Ok tt) ∧
    (∀ b2 id, rtc steps b1 b2 → fullModeGrants b2 !! id ≠ Some p).
Proof.
  intros Hwf%wf_reachable Hc.
  assert (Hwf1 : wf b1).
  { pose proof (micro_Consume now grant d policy b) as Hm. rewrite Hc in Hm.
    by eapply wf_micros. }
  destruct (Consume_Ok _ _ _ _ _ _ Hc) as (p & g & Hp & Hg & ? & ? & ? & ? & ? & ? & ? & ->).
  exists p, g. split_and!; auto.
  - intros now' d' policy' Hr.
    destruct (ConsumeFullModeGrant now' _ _ _ _) as [b2 r] eqn:Hc2. simpl in Hr. subst r.
    apply Consume_Ok in Hc2 as (q & ? & Hq & _). simpl in Hq. lookup_hyps.
  - intros b2 id Hs Hid. destruct (wf_steps _ _ Hs Hwf1) as [_ Hev].
    destruct (wf_grant_ref _ Hwf _ _ Hg) as [Hlt _].
    apply (ev_grant_ids _ _ Hev id p) in Hid; [|done]. simpl in Hid. lookup_hyps.
    destruct (wf_grants _ Hwf _ _ Hid) as (? & ? & ?). congruence.
Qed.

(** Cancelling a session is permanent.  After [CancelSession] on an open
    broker, in every later state: opening an approval or issuing a full-mode
    grant for that session fails and changes nothing, every one of its requests
    is resolved, and it owns no grant. *)
Theorem canceled_session_stays_denied b stamp sid b' :
  reachable b → closed b = false → blank sid = false →
  rtc steps (CancelSession stamp sid b) b' →
  sid ∈ canceledSessions b' ∧
  (∀ gen now d, dSessionID d = sid →
     ∃ err, Open gen now d b' = (b', Err err)) ∧
  (∀ gen now d policy, dSessionID d = sid →
     ∃ err, IssueFullModeGrant gen now d policy b' = (b', Err err)) ∧
  (∀ p e, entries b' !! p = Some e → pSessionID (rPending e) = sid → rResolved e = true) ∧
  (∀ id p g, fullModeGrants b' !! id = Some p → grants b' !! p = Some g →
     pSessionID (gPending g) ≠ sid).
Proof.
  intros Hwf%wf_reachable Hc Hb Hs.
  assert (Hin : sid ∈ canceledSessions (CancelSession stamp sid b)).
  { unfold CancelSession. rewrite Hc, Hb. cbn.
    rewrite (tombstone_commutes (cancel_entry stamp sid)), cancel_grants_tombstone.
    - set_solver.
    - intros q b0. unfold cancel_entry; cbn. by repeat case_match. }
  assert (Hwf1 : wf (CancelSession stamp sid b)).
  { eapply wf_micros; [apply micro_CancelSession|done]. }
  destruct (wf_steps _ _ Hs Hwf1) as [Hwf' Hev].
  apply (ev_canceled _ _ Hev) in Hin. split_and!; auto.
  - intros gen now d Hd. unfold Open. repeat case_match; eauto.
    case_bool_decide; [discriminate|]. congruence.
  - intros gen now d policy Hd. unfold IssueFullModeGrant. repeat case_match; eauto.
    case_bool_decide; [discriminate|]. congruence.
  - intros p e He Hsid. destruct (rResolved e) eqn:Hr; [done|].
    pose proof (wf_unresolved _ Hwf' _ _ He Hr) as Hi.
    rewrite <- Hsid in Hin. pose proof (wf_canceled _ Hwf' _ _ _ Hi He Hin). congruence.
  - intros id p g Hi Hg Hsid. eapply (wf_canceled_grant _ Hwf'); eauto. by rewrite Hsid.
Qed.

(** The expiry timer of an unresolved entry, run to completion. *)
Lemma run_expiry b id p e tm : wf b →
  lookup_request id b = Some (p, e) → rResolved e = false →
  timers b !! rTimer e = Some tm → tCallback tm = CbExpire id p → tState tm = TimerFired →
  ∃ b' e', steps b b' ∧ entries b' !! p = Some e' ∧ rPending e' = rPending e ∧
    rDone e' = ChanClosed ∧ ∃ now, rResolution e' = deniedResolution (pID (rPending e)) ReasonExpired now.
Proof.
  intros Hwf Hl Hr Ht Hcb Hst. destruct tm as [st cb]; simpl in *; subst.
  assert (Hrun : run_timer 0 (rTimer e) b =
    Some (expire 0 id p (with_timers (delete (rTimer e)) b))).
  { unfold run_timer. by rewrite Ht. }
  pose proof Hl as [_ He]%lookup_request_Some.
  unfold expire in Hrun.
  change (lookup_request id (with_timers (delete (rTimer e)) b)) with (lookup_request id b) in Hrun.
  rewrite Hl, Nat.eqb_refl, Hr in Hrun. simpl in Hrun.
  eexists _, _. split; [eexists; by eapply step_runs|]. simpl.
  rewrite !lookup_alter_eq, He. split; [done|]. simpl. rewrite (wf_done _ Hwf _ _ He), Hr.
  split_and!; [done|done|by exists 0].
Qed.

(** No waiter is left blocked.  Whatever state the broker has reached, an
    unresolved entry can always be settled by its own timer alone (it fires once
    due, then its callback runs), which closes the channel the waiter blocks on
    with an expiry denial; and after its deadline a new [Await] answers at once
    instead of blocking. *)
Theorem pending_settles b p e :
  reachable b → entries b !! p = Some e → rResolved e = false →
  (∃ b' e', rtc steps b b' ∧ entries b' !! p = Some e' ∧ rPending e' = rPending e ∧
     rDone e' = ChanClosed ∧ resReason (rResolution e') = ReasonExpired ∧
     Allowed (rResolution e') = false) ∧
  (∀ now stamp, time_before now (pExpiresAt (rPending e)) = false →
     (Await_begin now stamp (pSessionID (rPending e)) (pID (rPending e)) b).2 =
       AwaitAnswer (deniedResolution (pID (rPending e)) ReasonExpired stamp)
                   (Some ErrApprovalExpired)).
Proof.
  intros Hwf%wf_reachable He Hr.
  pose proof (wf_unresolved _ Hwf _ _ He Hr) as Hi.
  pose proof (proj2 (lookup_request_Some _ _ _ _) (conj Hi He)) as Hl.
  destruct (wf_request_timer _ Hwf _ _ _ Hi He) as (tm & Ht & [Hcb|[? _]]); [|congruence].
  split.
  - destruct tm as [[due|] cb]; simpl in Hcb; subst cb.
    + set (b1 := with_timers <[rTimer e := {| tState := TimerFired;
        tCallback := CbExpire (pID (rPending e)) p |}]> b).
      assert (Hf : fire_timer due (rTimer e) b = Some b1).
      { unfold fire_timer. by rewrite Ht, Z.leb_refl. }
      destruct (run_expiry b1 _ p e _ (wf_fires _ _ _ _ Hf Hwf) Hl Hr
        ltac:(apply lookup_insert_eq) eq_refl eq_refl) as (b' & e' & ? & ? & ? & ? & now & Hres).
      exists b', e'. rewrite Hres. split_and!; auto.
      eapply rtc_l; [eexists; by eapply step_fires|by apply rtc_once].
    + destruct (run_expiry b _ p e _ Hwf Hl Hr Ht eq_refl eq_refl)
        as (b' & e' & ? & ? & ? & ? & now & Hres).
      exists b', e'. rewrite Hres. split_and!; auto.
  - intros now stamp Hnow. unfold Await_begin.
    assert (Hc : closed b = false).
    { destruct (closed b) eqn:Hc; [|done]. apply (wf_closed _ Hwf) in Hc as [Hq _].
      rewrite Hq in Hi. simplify_map_eq. }
    rewrite Hc, Hl, String.eqb_refl, Hr, Hnow. simpl.
    by rewrite lookup_alter_eq, He.
Qed.

(** ** Concrete runs *)

Lemma reachable_step b ev b' : reachable b → step b ev b' → reachable b'.
Proof. intros [t Hs] Hst. exists t. eapply rtc_r; [exact Hs|by exists ev]. Qed.

Lemma reachable_new t : reachable (NewBroker t).
Proof. by exists t. Qed.

Definition ex_draft : Draft :=
  Build_Draft "s1" 1 "r1" "t1" "bash" "x1" "ls"
    "sha256:0000000000000000000000000000000000000000000000000000000000000000"
    7 7 "low" "once" false.
Definition ex_policy : Snapshot :=
  Build_Snapshot ModeFull 7 (Build_Capabilities true true true true true true true true true)
    0 7 SourceUserSelected.
Definition ex_gen (_ : nat) : option string := Some "apr_1".
Definition ex_open : Broker := (Open ex_gen 0 ex_draft (NewBroker 0)).1.
Definition ex_decision : Decision_ := Build_Decision_ "apr_1" "s1" OutcomeAllowOnce.
Definition ex_allowed : Broker := (Resolve 5 5 ex_decision ex_open).1.
Definition ex_issued : Broker := (IssueFullModeGrant ex_gen 0 ex_draft ex_policy (NewBroker 0)).1.
Definition ex_grant : Pending :=
  pending_of_draft ex_draft "apr_1" ApprovalSourceUserSelectedFull 7 7 false 0 DefaultTTL.

Lemma ex_open_reachable : reachable ex_open.
Proof. eapply reachable_step; [apply (reachable_new 0)|apply step_open]. Defined.
Lemma ex_allowed_reachable : reachable ex_allowed.
Proof. eapply reachable_step; [apply ex_open_reachable|apply step_resolve]. Defined.
Lemma ex_issued_reachable : reachable ex_issued.
Proof. eapply reachable_step; [apply (reachable_new 0)|apply step_issue]. Defined.

Definition ex_pending : Pending :=
  pending_of_draft ex_draft "apr_1" ApprovalSourceUser 7 7 false 0 DefaultTTL.
Definition ex_open_entry : request :=
  Build_request ex_pending ChanOpen false emptyResolution 0%nat.
Definition ex_allowed_entry : request :=
  Build_request ex_pending ChanClosed true
    (Build_Resolution "apr_1" OutcomeAllowOnce ReasonUser 5) 0%nat.

Lemma ex_open_lookup : entries ex_open !! 0%nat = Some ex_open_entry.
Proof. vm_compute. reflexivity. Qed.
Lemma ex_allowed_lookup : entries ex_allowed !! 0%nat = Some ex_allowed_entry.
Proof. vm_compute. reflexivity. Qed.

Lemma broker_reachable_sound_witness :
  entries ex_allowed !! 0%nat = Some ex_allowed_entry ∧ rDone ex_allowed_entry ≠ ChanPanic.
Proof.
  split; [exact ex_allowed_lookup|].
  exact (proj1 (proj1 (broker_reachable_sound ex_allowed ex_allowed_reachable) 0%nat _
    ex_allowed_lookup)).
Defined.

Lemma resolution_final_witness :
  ∃ e', entries (Shutdown 9 ex_allowed) !! 0%nat = Some e' ∧ Allowed (rResolution e') = true.
Proof.
  destruct (resolution_final ex_allowed (Shutdown 9 ex_allowed) 0%nat ex_allowed_entry)
    as (e' & He & _ & _ & Hr & _).
  - exact ex_allowed_reachable.
  - apply rtc_once. exists EvShutdown. apply step_shutdown.
  - exact ex_allowed_lookup.
  - reflexivity.
  - exists e'. split; [exact He|]. rewrite Hr. reflexivity.
Defined.

Lemma allowed_only_by_user_witness :
  (∃ e, entries ex_open !! 0%nat = Some e ∧ Allowed (rResolution e) = true) ∨
  ∃ now d, EvResolve 5 ex_decision = EvResolve now d ∧ decOutcome d = OutcomeAllowOnce.
Proof.
  destruct (allowed_only_by_user ex_open (EvResolve 5 ex_decision) ex_allowed 0%nat
    ex_allowed_entry ex_open_reachable (step_resolve 5 5 ex_decision ex_open)
    ex_allowed_lookup eq_refl) as [?|(now & d & e & ? & ? & _)].
  - by left.
  - right. by exists now, d.
Defined.

Definition ex_spent : Broker := drop_grant "apr_1" 0%nat ex_issued.

Lemma grant_spent_once_witness :
  ConsumeFullModeGrant 5 ex_grant ex_draft ex_policy ex_issued = (ex_spent, Ok tt) ∧
  ∃ p, ∀ b2 id, rtc steps ex_spent b2 → fullModeGrants b2 !! id ≠ Some p.
Proof.
  assert (H : ConsumeFullModeGrant 5 ex_grant ex_draft ex_policy ex_issued = (ex_spent, Ok tt))
    by (vm_compute; reflexivity).
  split; [exact H|].
  destruct (grant_spent_once ex_issued 5 ex_grant ex_draft ex_policy _ ex_issued_reachable H)
    as (p & g & Hp). exists p. apply Hp.
Defined.

Lemma canceled_session_stays_denied_witness :
  ∃ err, Open ex_gen 9 ex_draft (CancelSession 5 "s1" ex_open) =
         (CancelSession 5 "s1" ex_open, Err err).
Proof.
  destruct (canceled_session_stays_denied ex_open 5 "s1" (CancelSession 5 "s1" ex_open)
    ex_open_reachable ltac:(vm_compute; reflexivity) eq_refl (rtc_refl _ _)) as (_ & Ho & _).
  exact (Ho ex_gen 9 ex_draft eq_refl).
Defined.

Lemma pending_settles_witness :
  ∃ b' e', rtc steps ex_open b' ∧ entries b' !! 0%nat = Some e' ∧ rDone e' = ChanClosed.
Proof.
  destruct (pending_settles ex_open 0%nat ex_open_entry ex_open_reachable ex_open_lookup eq_refl)
    as [(b' & e' & ? & ? & _ & ? & _) _].
  by exists b', e'.
Defined.
