(* ===== verification/Json.v ===== *)
(** * JSON values as [encoding/json] decodes them

    A [json.RawMessage] is modelled by what the decoder's scanner makes of it:
    [None] when the bytes are not exactly one well-formed JSON text, and
    otherwise its value, in which an object keeps its members in the order of
    the text, duplicates included.  Strings are the decoded byte strings, and a
    number keeps its literal. *)

From S2P Require Export GoLib.

Local Open Scope string_scope.

Inductive json :=
| JNull
| JBool (b : bool)
| JNumber (lit : string)
| JString (s : string)
| JArray (l : list json)
| JObject (members : list (string * json)).

Abbreviation RawMessage := (option json).

Definition members := list (string * json).

(** Decoding an object into a Go map: the last member of a name wins. *)
Fixpoint last_member (k : string) (o : members) : option json :=
  match o with
  | [] => None
  | (k', v) :: o' =>
      match last_member k o' with
      | Some w => Some w
      | None => if String.eqb k k' then Some v else None
      end
  end.

(** [json.Unmarshal(input, &object)] for a [map[string]interface{}], followed by
    the test [err != nil || object == nil]. *)
Definition unmarshal_map (input : RawMessage) : option members :=
  match input with
  | Some (JObject o) => Some o
  | _ => None
  end.

(** Decoding a string field [k] of a struct: members match the field name up to
    case, a [null] or a value of another type leaves the field as it is. *)
Definition struct_string_field (k : string) (input : RawMessage) : string :=
  match input with
  | Some (JObject o) =>
      fold_left (λ acc kv, if equal_fold kv.1 k
                           then match kv.2 with JString s => s | _ => acc end
                           else acc) o ""
  | _ => ""
  end.

(** [json.Unmarshal(raw, &s)] for a string: [null] leaves it empty. *)
Definition unmarshal_string (v : json) : option string :=
  match v with
  | JString s => Some s
  | JNull => Some ""
  | _ => None
  end.

Lemma last_member_In k v o : last_member k o = Some v → In (k, v) o.
Proof.
  induction o as [|[k' v'] o IH]; simpl; [done|].
  destruct (last_member k o); [auto|].
  destruct (String.eqb_spec k k'); [|done]. intros; simplify_eq. auto.
Qed.

Lemma last_member_unique k v o : NoDup o.*1 → In (k, v) o → last_member k o = Some v.
Proof.
  induction o as [|[k' v'] o IH]; simpl; [done|]. rewrite list.NoDup_cons.
  intros [Hk Hnd] [?|Hin]; simplify_eq.
  - destruct (last_member k o) eqn:Hl; [|by rewrite String.eqb_refl].
    apply last_member_In in Hl. destruct Hk. apply list_elem_of_fmap.
    exists (k, j). by rewrite list_elem_of_In.
  - by rewrite (IH Hnd Hin).
Qed.
