(* ===== verification/GoPath.v ===== *)
(** * [path/filepath] on a Unix system

    The lexical functions of the standard library that the path checks use.
    [Clean] is stated on the path's components: it drops empty and [.] components
    and cancels [..] against the component before it, keeping a leading [..] only
    in a relative path, which is the specification its documentation gives. *)

From S2P Require Export Json.

Local Open Scope string_scope.
Local Open Scope list_scope.

Definition sep : ascii := "/".
Definition sep_str : string := "/".

(** [filepath.IsAbs]. *)
Definition is_abs (p : string) : bool := has_prefix p sep_str.

(** One pass over the components; [out] is the result so far, last first. *)
Fixpoint clean_comps (rooted : bool) (out : list string) (comps : list string) : list string :=
  match comps with
  | [] => rev out
  | c :: comps' =>
      if String.eqb c "" || String.eqb c "." then clean_comps rooted out comps'
      else if String.eqb c ".." then
        match out with
        | o :: out' => if String.eqb o ".." then clean_comps rooted (c :: out) comps'
                       else clean_comps rooted out' comps'
        | [] => clean_comps rooted (if rooted then [] else [c]) comps'
        end
      else clean_comps rooted (c :: out) comps'
  end.

(** The cleaned components of a path. *)
Definition path_comps (p : string) : list string := clean_comps (is_abs p) [] (split_on sep p).

Definition render (rooted : bool) (comps : list string) : string :=
  if rooted then String sep (str_join sep_str comps)
  else match comps with [] => "." | _ => str_join sep_str comps end.

(** [filepath.Clean]. *)
Definition clean (p : string) : string := render (is_abs p) (path_comps p).

(** [filepath.Join] of two elements. *)
Definition join2 (a b : string) : string :=
  if String.eqb a "" then (if String.eqb b "" then "" else clean b)
  else if String.eqb b "" then clean a
  else clean (a +:+ sep_str +:+ b).

(** [filepath.Dir]: the cleaned text up to the last separator. *)
Fixpoint last_sep (p : string) : option nat :=
  match p with
  | "" => None
  | String c p' =>
      match last_sep p' with
      | Some n => Some (S n)
      | None => if Ascii.eqb c sep then Some 0%nat else None
      end
  end.
Definition filepath_dir (p : string) : string :=
  match last_sep p with
  | Some n => clean (str_take (S n) p)
  | None => clean ""
  end.

(** [filepath.Base]: the text after the last separator, trailing separators
    removed. *)
Definition filepath_base (p : string) : string :=
  if String.eqb p "" then "." else
  let q := trim_right_set p sep_str in
  match last_sep q with
  | Some n => str_drop (S n) q
  | None => if String.eqb q "" then sep_str else q
  end.

(** [filepath.Ext]: the last element from its last dot on. *)
Fixpoint last_dot (p : string) : option nat :=
  match p with
  | "" => None
  | String c p' =>
      match last_dot p' with
      | Some n => Some (S n)
      | None => if Ascii.eqb c "." then Some 0%nat else None
      end
  end.
Definition filepath_ext (p : string) : string :=
  let elem := match last_sep p with Some n => str_drop (S n) p | None => p end in
  match last_dot elem with Some n => str_drop n elem | None => "" end.

(** [filepath.Rel(base, targ)]; [None] is its error. *)
Fixpoint strip_common (base targ : list string) : list string * list string :=
  match base, targ with
  | b :: base', t :: targ' =>
      if String.eqb b t then strip_common base' targ' else (base, targ)
  | _, _ => (base, targ)
  end.

Definition filepath_rel (base targ : string) : option string :=
  if String.eqb (clean targ) (clean base) then Some "."
  else if negb (Bool.eqb (is_abs base) (is_abs targ)) then None
  else
    match strip_common (path_comps base)
            (if String.eqb (clean targ) "." then ["."] else path_comps targ) with
    | ([], t) => Some (str_join sep_str t)
    | (b :: bs, t) =>
        if String.eqb b ".." && negb (match t with [] => true | _ => false end) then None
        else Some (str_join sep_str (map (λ _, "..") (b :: bs) ++ t))
    end.

(** *** [filepath.Match(pattern, "")], which the code calls for its error alone

    The name is empty, so only the syntax of each chunk between stars decides
    the error. *)

(** [scanChunk]: stars dropped, then the text up to the next star outside a
    bracket.  A lone trailing star ends the match before any syntax check. *)
Fixpoint scan_chunk (inrange : bool) (p : string) : string * string :=
  match p with
  | "" => ("", "")
  | String "\" (String c p') =>
      let '(a, b) := scan_chunk inrange p' in (String "\" (String c a), b)
  | String "*" _ => if inrange then
      match p with
      | String c p' => let '(a, b) := scan_chunk inrange p' in (String c a, b)
      | "" => ("", "")
      end else ("", p)
  | String c p' =>
      let inrange' := if Ascii.eqb c "[" then true else if Ascii.eqb c "]" then false
                      else inrange in
      let '(a, b) := scan_chunk inrange' p' in (String c a, b)
  end.

(** The byte length of the UTF-8 sequence that starts with [c]. *)
Definition rune_len (c : ascii) : nat :=
  let n := nat_of_ascii c in
  if (n <? 192)%nat then 1 else if (n <? 224)%nat then 2 else if (n <? 240)%nat then 3 else 4.

(** [getEsc]: one character of a class; [None] is [ErrBadPattern]. *)
Definition get_esc (p : string) : option string :=
  let rune q := match q with
                | "" => None
                | String c _ => match str_drop (rune_len c) q with "" => None | r => Some r end
                end in
  match p with
  | "" => None
  | String "-" _ | String "]" _ => None
  | String "\" p' => rune p'
  | _ => rune p
  end.

(** The ranges of a class, after its bracket; the rest follows the closing one. *)
Fixpoint class_ranges (fuel nrange : nat) (p : string) : option string :=
  match fuel with
  | O => None
  | S fuel' =>
      match p, nrange with
      | String "]" p', S _ => Some p'
      | _, _ =>
          match get_esc p with
          | None => None
          | Some (String "-" p') =>
              match get_esc p' with
              | None => None
              | Some p'' => class_ranges fuel' (S nrange) p''
              end
          | Some p' => class_ranges fuel' (S nrange) p'
          end
      end
  end.

(** [matchChunk(chunk, "")] reports no error. *)
Fixpoint chunk_ok (fuel : nat) (p : string) : bool :=
  match fuel with
  | O => true
  | S fuel' =>
      match p with
      | "" => true
      | String "[" p' =>
          match class_ranges (S (strlen p')) 0 (trim_prefix p' "^") with
          | None => false
          | Some p'' => chunk_ok fuel' p''
          end
      | String "\" "" => false
      | String "\" (String _ p') => chunk_ok fuel' p'
      | String _ p' => chunk_ok fuel' p'
      end
  end.

Fixpoint pattern_ok_fuel (fuel : nat) (p : string) : bool :=
  match fuel with
  | O => true
  | S fuel' =>
      match p with
      | "" => true
      | _ =>
          let '(chunk, rest) := scan_chunk false (trim_left_set p "*") in
          chunk_ok (S (strlen chunk)) chunk && pattern_ok_fuel fuel' rest
      end
  end.
Definition pattern_ok (p : string) : bool := pattern_ok_fuel (S (strlen p)) p.

Example pattern_ok_ex :
  map pattern_ok ["**/*.go"; "a[b-d]*"; "a["; "[]a]"; "[^a]?"; "x\"; "[-]"; "*"] =
  [true; true; false; false; true; false; false; true].
Proof. reflexivity. Qed.
Example filepath_rel_ex :
  filepath_rel "/a/b" "/a/b/c/d" = Some "c/d" ∧ filepath_rel "/a/b" "/a/bc" = Some "../bc" ∧
  filepath_rel "/" "/a" = Some "a" ∧ filepath_rel "/a" "/" = Some ".." ∧
  filepath_rel "a" "." = Some "../.".
Proof. repeat split. Qed.
Example clean_ex :
  map clean ["a//b/./c/.."; "/../a"; "../a/../.."; ""; "/"; "a/.."] =
  ["a/b"; "/a"; "../.."; "."; "/"; "."].
Proof. reflexivity. Qed.

(** ** Components of cleaned paths *)

(** A component that [Clean] keeps as a name. *)
Definition plain (c : string) : Prop :=
  c ≠ "" ∧ c ≠ "." ∧ c ≠ ".." ∧ str_elem sep c = false.

(** The shape of cleaned components: [..] only in front, and never in a rooted
    path. *)
Definition normal (rooted : bool) (l : list string) : Prop :=
  ∃ n names, l = replicate n ".." ++ names ∧ Forall plain names ∧ (rooted = true → n = 0%nat).

Lemma split_on_no_sep c s : Forall (λ w, str_elem c w = false) (split_on c s).
Proof.
  induction s as [|d s IH]; simpl; [by repeat constructor|].
  destruct (Ascii.eqb_spec d c) as [->|Hne]; [by constructor|].
  destruct (split_on c s) as [|w ws]; constructor; simpl.
  - apply orb_false_iff. split; [|done]. by apply Ascii.eqb_neq.
  - done.
  - inversion IH; subst. rewrite (proj2 (Ascii.eqb_neq c d)); done.
  - by inversion IH.
Qed.

Lemma normal_nil rooted : normal rooted [].
Proof. exists 0%nat, []. split_and!; [done|constructor|done]. Qed.

Lemma normal_snoc rooted l c : normal rooted l → plain c → normal rooted (l ++ [c]).
Proof.
  intros (n & names & -> & Hf & Hn) Hc. exists n, (names ++ [c]).
  rewrite (assoc_L app). split_and!; [done| |done]. apply Forall_app. auto.
Qed.

Lemma snoc_names (n : nat) (names l : list string) (c : string) :
  replicate n ".." ++ names = l ++ [c] →
  (∃ names', names = names' ++ [c] ∧ l = replicate n ".." ++ names') ∨
  (names = [] ∧ c = ".." ∧ ∃ m, n = S m ∧ l = replicate m "..").
Proof.
  destruct names as [|x names' _] using rev_ind.
  - rewrite app_nil_r. right. destruct n as [|m]; [by destruct l|].
    rewrite replicate_S_end in H. apply app_inj_tail in H as [<- <-]. eauto.
  - rewrite (assoc_L app). intros [<- <-]%app_inj_tail. left. eauto.
Qed.

Lemma normal_pop rooted l c : normal rooted (l ++ [c]) → c ≠ ".." → normal rooted l.
Proof.
  intros (n & names & Heq & Hf & Hn) Hc. symmetry in Heq.
  apply snoc_names in Heq as [(names' & -> & ->)|(_ & ? & _)]; [|done].
  apply Forall_app in Hf as [? _]. by exists n, names'.
Qed.

Lemma normal_up rooted l : normal rooted (l ++ [".."]) →
  rooted = false ∧ normal rooted ((l ++ [".."]) ++ [".."]).
Proof.
  intros (n & names & Heq & Hf & Hn). symmetry in Heq.
  apply snoc_names in Heq as [(names' & -> & ->)|(-> & _ & m & -> & ->)].
  - apply Forall_app in Hf as [_ Hf]. inversion Hf as [|? ? (_ & _ & ? & _)]; done.
  - split; [by destruct rooted; [specialize (Hn eq_refl)|]|].
    exists (S (S m)), []. rewrite app_nil_r, !replicate_S_end. split_and!; [done|constructor|].
    intros ?%Hn. done.
Qed.

Lemma clean_comps_normal rooted comps out :
  Forall (λ w, str_elem sep w = false) comps → normal rooted (rev out) →
  normal rooted (clean_comps rooted out comps).
Proof.
  revert out. induction comps as [|c comps IH]; intros out Hc Ho; simpl; [done|].
  inversion Hc as [|? ? Hsep Hc']; subst.
  destruct (String.eqb_spec c ""); simpl; [by apply IH|].
  destruct (String.eqb_spec c "."); simpl; [by apply IH|].
  destruct (String.eqb_spec c "..") as [->|].
  - destruct out as [|o out].
    + apply IH; [done|]. destruct rooted; [apply normal_nil|].
      exists 1%nat, []. split_and!; [done|constructor|done].
    + simpl in Ho. destruct (String.eqb_spec o "..") as [->|].
      * apply IH; [done|]. simpl. by apply normal_up in Ho as [_ ?].
      * apply IH; [done|]. by eapply normal_pop.
  - apply IH; [done|]. simpl. apply normal_snoc; [done|]. by repeat split.
Qed.

Lemma path_comps_normal p : normal (is_abs p) (path_comps p).
Proof. apply clean_comps_normal; [apply split_on_no_sep|apply normal_nil]. Qed.

(** Cleaning normal components changes nothing. *)
Lemma clean_comps_names rooted names out :
  Forall plain names → clean_comps rooted out names = rev out ++ names.
Proof.
  revert out. induction names as [|c names IH]; intros out Hf; simpl; [by rewrite app_nil_r|].
  inversion Hf as [|? ? (H1 & H2 & H3 & _) Hf']; subst.
  apply String.eqb_neq in H1, H2, H3. rewrite H1, H2, H3. simpl. rewrite IH by done. simpl.
  by rewrite <- (assoc_L app).
Qed.

Lemma clean_comps_ups n names m :
  clean_comps false (replicate m "..") (replicate n ".." ++ names) =
  clean_comps false (replicate (n + m) "..") names.
Proof.
  revert m. induction n as [|n IH]; intros m; [done|]. simpl.
  destruct m as [|m]; simpl.
  - change [".."] with (replicate 1 ".."). rewrite (IH 1%nat).
    by replace (n + 1)%nat with (S (n + 0)) by lia.
  - change (".." :: ".." :: replicate m "..") with (replicate (S (S m)) "..").
    rewrite (IH (S (S m))). f_equal. replace (n + S (S m))%nat with (S (n + S m)) by lia. done.
Qed.

Lemma clean_comps_id rooted l : normal rooted l → clean_comps rooted [] l = l.
Proof.
  intros (n & names & -> & Hf & Hn). destruct rooted.
  - rewrite (Hn eq_refl). simpl. by rewrite clean_comps_names.
  - change (clean_comps false (replicate 0 "..") (replicate n ".." ++ names) =
            replicate n ".." ++ names).
    rewrite clean_comps_ups, clean_comps_names, Nat.add_0_r by done.
    f_equal. clear. induction n as [|n IH]; [done|]. simpl. rewrite IH. by rewrite <- replicate_S_end.
Qed.

(** *** Rendering and reading back *)

Lemma split_on_app_sep c w s :
  str_elem c w = false → split_on c (w +:+ String c s) = w :: split_on c s.
Proof.
  induction w as [|d w IH]; simpl; [by rewrite Ascii.eqb_refl|].
  intros [Hd Hw]%orb_false_iff. apply Ascii.eqb_neq in Hd.
  rewrite (proj2 (Ascii.eqb_neq d c)) by done. by rewrite IH.
Qed.

Lemma split_on_word c w : str_elem c w = false → split_on c w = [w].
Proof.
  induction w as [|d w IH]; simpl; [done|].
  intros [Hd Hw]%orb_false_iff. apply Ascii.eqb_neq in Hd.
  rewrite (proj2 (Ascii.eqb_neq d c)) by done. by rewrite IH.
Qed.

Lemma split_join l : Forall (λ w, str_elem sep w = false) l → l ≠ [] →
  split_on sep (str_join sep_str l) = l.
Proof.
  induction l as [|w l IH]; [done|]. intros Hf _. inversion Hf; subst.
  destruct l as [|w' l]; [by apply split_on_word|].
  change (str_join sep_str (w :: w' :: l)) with (w +:+ String sep (str_join sep_str (w' :: l))).
  rewrite split_on_app_sep by done. by rewrite IH.
Qed.

Lemma normal_no_sep rooted l : normal rooted l → Forall (λ w, str_elem sep w = false) l.
Proof.
  intros (n & names & -> & Hf & _). apply Forall_app. split.
  - by apply Forall_replicate.
  - eapply Forall_impl; [|exact Hf]. by intros c (_ & _ & _ & ?).
Qed.

Lemma normal_head c l rooted : normal rooted (c :: l) → ∃ a c', c = String a c' ∧ a ≠ sep.
Proof.
  intros Hn. pose proof (normal_no_sep _ _ Hn) as Hf. inversion Hf as [|? ? Hs]; subst.
  assert (c ≠ "") as Hc.
  { destruct Hn as ([|n] & names & Heq & Hp & _); simpl in Heq.
    - subst. inversion Hp as [|? ? (? & _)]; done.
    - by simplify_eq. }
  destruct c as [|a c']; [done|]. exists a, c'. split; [done|].
  intros ->. done.
Qed.

Lemma prefix_nil s : String.prefix "" s = true.
Proof. by destruct s. Qed.

Lemma is_abs_render rooted l : normal rooted l → is_abs (render rooted l) = rooted.
Proof.
  intros Hn. destruct rooted; [apply prefix_nil|]. simpl.
  destruct l as [|c l]; [done|]. destruct (normal_head _ _ _ Hn) as (a & c' & -> & Ha).
  unfold is_abs, has_prefix, sep_str.
  destruct l; cbn -[ascii_dec]; by destruct (ascii_dec "/" a) as [<-|].
Qed.

Lemma path_comps_render rooted l : normal rooted l → path_comps (render rooted l) = l.
Proof.
  intros Hn. unfold path_comps. rewrite is_abs_render by done.
  pose proof (normal_no_sep _ _ Hn) as Hf. destruct rooted; simpl.
  - destruct l as [|c l]; [done|].
    rewrite split_join by done. by apply (clean_comps_id true).
  - destruct l as [|c l]; [done|]. rewrite split_join by done. by apply (clean_comps_id false).
Qed.

(** [Clean] is idempotent, and keeps whether the path is absolute. *)
Lemma is_abs_clean p : is_abs (clean p) = is_abs p.
Proof. apply is_abs_render, path_comps_normal. Qed.
Lemma path_comps_clean p : path_comps (clean p) = path_comps p.
Proof. apply path_comps_render, path_comps_normal. Qed.
Lemma clean_idem p : clean (clean p) = clean p.
Proof. unfold clean at 1. by rewrite is_abs_clean, path_comps_clean. Qed.

(** *** Joining and splitting paths *)

Lemma split_on_app c a b : split_on c (a +:+ String c b) = split_on c a ++ split_on c b.
Proof.
  induction a as [|d a IH]; simpl; [by rewrite Ascii.eqb_refl|].
  rewrite IH. destruct (Ascii.eqb d c); [done|].
  destruct (split_on c a) eqn:Ha; [by destruct (split_on_not_nil c a)|done].
Qed.

Lemma clean_comps_app rooted out l1 l2 :
  clean_comps rooted out (l1 ++ l2) = clean_comps rooted (rev (clean_comps rooted out l1)) l2.
Proof.
  revert out. induction l1 as [|c l1 IH]; intros out; simpl; [by rewrite rev_involutive|].
  repeat case_match; apply IH.
Qed.

Lemma is_abs_snoc a c : a ≠ "" → is_abs (a +:+ String sep c) = is_abs a.
Proof.
  intros Ha. destruct a as [|x a]; [done|]. unfold is_abs, has_prefix, sep_str.
  change (String x a +:+ String sep c) with (String x (a +:+ String sep c)).
  cbn -[ascii_dec]. destruct (ascii_dec "/" x); [|done]. by rewrite !prefix_nil.
Qed.

(** Appending one name to a path appends it to the components. *)
Lemma path_comps_snoc a c :
  a ≠ "" → plain c → path_comps (a +:+ String sep c) = path_comps a ++ [c].
Proof.
  intros Ha Hc. pose proof Hc as (_ & _ & _ & Hs). unfold path_comps.
  rewrite is_abs_snoc by done.
  rewrite split_on_app, (split_on_word sep c), clean_comps_app by done.
  rewrite clean_comps_names by (by constructor). by rewrite rev_involutive.
Qed.

Lemma abs_not_empty a : is_abs a = true → a ≠ "".
Proof. by intros ? ->. Qed.

Lemma join2_comps a c : is_abs a = true → plain c →
  path_comps (join2 a c) = path_comps a ++ [c] ∧ is_abs (join2 a c) = true.
Proof.
  intros Ha Hc. pose proof (abs_not_empty _ Ha) as Hne. unfold join2.
  rewrite (proj2 (String.eqb_neq a "") Hne).
  destruct (String.eqb_spec c "") as [->|]; [by destruct Hc|].
  change (sep_str +:+ c) with (String sep c).
  rewrite path_comps_clean, is_abs_clean, path_comps_snoc, is_abs_snoc by done. done.
Qed.

Lemma last_sep_none w : str_elem sep w = false → last_sep w = None.
Proof.
  induction w as [|d w IH]; cbn -[Ascii.eqb]; [done|]. intros [Hd Hw]%orb_false_iff.
  rewrite (IH Hw). by rewrite Ascii.eqb_sym, Hd.
Qed.
Lemma last_sep_app a w : str_elem sep w = false →
  last_sep (a +:+ String sep w) = Some (strlen a).
Proof.
  intros Hw. induction a as [|d a IH]; simpl.
  - by rewrite last_sep_none.
  - by rewrite IH.
Qed.
Lemma str_take_app a c w : str_take (S (strlen a)) (a +:+ String c w) = a +:+ String c "".
Proof. induction a as [|d a IH]; [done|]. simpl in *. by rewrite IH. Qed.

Lemma str_join_snoc l c : l ≠ [] →
  str_join sep_str (l ++ [c]) = str_join sep_str l +:+ String sep c.
Proof.
  induction l as [|w l IH]; [done|]. intros _. destruct l as [|w' l]; [done|].
  change (str_join sep_str ((w :: w' :: l) ++ [c])) with
    (w +:+ String sep (str_join sep_str ((w' :: l) ++ [c]))).
  rewrite IH by done.
  change (str_join sep_str (w :: w' :: l)) with (w +:+ String sep (str_join sep_str (w' :: l))).
  by rewrite <- str_app_assoc.
Qed.

Lemma render_snoc l c : render true (l ++ [c]) =
  (match l with [] => "" | _ => render true l end) +:+ String sep c.
Proof.
  destruct l as [|w l]; [done|]. unfold render. rewrite str_join_snoc by done. done.
Qed.

(** [filepath.Dir] of a clean absolute path drops its last component. *)
Lemma dir_comps p l c : p = render true (l ++ [c]) → normal true (l ++ [c]) →
  filepath_dir p = render true l.
Proof.
  intros -> Hn.
  assert (Hs : str_elem sep c = false).
  { apply normal_no_sep, Forall_app in Hn as [_ Hn]. by inversion Hn. }
  assert (Hl : normal true l).
  { eapply normal_pop; [exact Hn|]. intros ->. by apply normal_up in Hn as [? _]. }
  unfold filepath_dir. rewrite render_snoc, last_sep_app, str_take_app by done.
  destruct l as [|w l]; [done|]. unfold clean, path_comps.
  rewrite is_abs_snoc by done.
  rewrite split_on_app, clean_comps_app.
  change (split_on sep "") with [""].
  fold (path_comps (render true (w :: l))).
  change (clean_comps (is_abs (render true (w :: l))) [] (split_on sep (render true (w :: l))))
    with (path_comps (render true (w :: l))).
  rewrite path_comps_render, is_abs_render by done. cbn [clean_comps String.eqb orb].
  by rewrite rev_involutive.
Qed.

Lemma clean_abs p : is_abs p = true → clean p = render true (path_comps p).
Proof. unfold clean. by intros ->. Qed.

Lemma filepath_dir_abs p : is_abs p = true → clean p = p → path_comps p ≠ [] →
  is_abs (filepath_dir p) = true ∧ clean (filepath_dir p) = filepath_dir p ∧
  path_comps (filepath_dir p) = removelast (path_comps p).
Proof.
  intros Ha Hc Hne. pose proof (path_comps_normal p) as Hn. rewrite Ha in Hn.
  destruct (exists_last Hne) as (l & c & Heq).
  assert (Hp : p = render true (l ++ [c])) by (rewrite <- Heq, <- clean_abs; done).
  rewrite Heq in Hn. rewrite (dir_comps p l c Hp Hn), Heq, removelast_last.
  assert (Hl : normal true l).
  { eapply normal_pop; [exact Hn|]. intros ->. by apply normal_up in Hn as [? _]. }
  rewrite is_abs_render, path_comps_render by done. split_and!; [done| |done].
  by rewrite clean_abs, path_comps_render by (by rewrite ?is_abs_render).
Qed.
