(* ===== verification/ArtifactLocks.v ===== *)
(** * The mutation locks: [lockArtifactMutation] of internal/agent/file_mutation.go

    Executors that change the same file are kept apart by a mutex per path, created on
    demand and deleted with its last user.  A call has four atomic actions: it registers
    under the registry's mutex, locks the entry's mutex, unlocks it and unregisters; a
    system of calls interleaves them.  The invariant says that a path never has two
    entries in use. *)

From S2P Require Export GoPath.

Local Open Scope Z_scope.

(** ** The registry *)

(** [artifactMutationLockEntry]: is its mutex locked, and by how many calls is it used. *)
Record artifactMutationLockEntry := { le_locked : bool; le_refs : Z }.

Record Registry := {
  locks : gmap string nat;
  entries : list artifactMutationLockEntry;
}.

Definition lock_key (path : string) : string := clean path.

Definition set_refs (f : Z → Z) (en : artifactMutationLockEntry) : artifactMutationLockEntry :=
  {| le_locked := le_locked en; le_refs := f (le_refs en) |}.
Definition set_locked (b : bool) (en : artifactMutationLockEntry) : artifactMutationLockEntry :=
  {| le_locked := b; le_refs := le_refs en |}.

(** The entry of the key, created if need be, has one more user. *)
Definition register (key : string) (r : Registry) : Registry * nat :=
  match locks r !! key with
  | Some e => ({| locks := locks r; entries := alter (set_refs (Z.add 1)) e (entries r) |}, e)
  | None =>
      let e := length (entries r) in
      ({| locks := <[key := e]> (locks r); entries := entries r ++ [{| le_locked := false; le_refs := 1 |}] |}, e)
  end.

(** [entry.mu.Lock()], which returns only when the mutex is free. *)
Definition acquire (e : nat) (r : Registry) : option Registry :=
  match entries r !! e with
  | Some {| le_locked := false |} =>
      Some {| locks := locks r; entries := alter (set_locked true) e (entries r) |}
  | _ => None
  end.

Definition unlock (e : nat) (r : Registry) : Registry :=
  {| locks := locks r; entries := alter (set_locked false) e (entries r) |}.

Definition unregister (key : string) (e : nat) (r : Registry) : Registry :=
  let entries' := alter (set_refs (λ n, n - 1)) e (entries r) in
  {| locks := match entries' !! e with
              | Some en => if le_refs en =? 0 then delete key (locks r) else locks r
              | None => locks r
              end;
     entries := entries' |}.

(** ** Calls *)

Inductive LockPC := Calling | Waiting (e : nat) | Holding (e : nat) | Unlocked (e : nat) | Returned.

Record LockCall := { lc_path : string; lc_pc : LockPC }.
Record LockSystem := { registry : Registry; calls : list LockCall }.

Definition lock_action (c : LockCall) (r : Registry) : option (Registry * LockPC) :=
  match lc_pc c with
  | Calling => Some (prod_map id Waiting (register (lock_key (lc_path c)) r))
  | Waiting e => (λ r', (r', Holding e)) <$> acquire e r
  | Holding e => Some (unlock e r, Unlocked e)
  | Unlocked e => Some (unregister (lock_key (lc_path c)) e r, Returned)
  | Returned => None
  end.

Definition lock_step (i : nat) (s : LockSystem) : option LockSystem :=
  match calls s !! i with
  | None => None
  | Some c =>
      match lock_action c (registry s) with
      | None => None
      | Some (r, pc) => Some {| registry := r; calls := <[i := {| lc_path := lc_path c; lc_pc := pc |}]> (calls s) |}
      end
  end.

Inductive lock_steps : LockSystem → LockSystem → Prop :=
| lock_steps_intro i s s' : lock_step i s = Some s' → lock_steps s s'.

Definition start (paths : list string) : LockSystem :=
  {| registry := {| locks := ∅; entries := [] |};
     calls := map (λ p, {| lc_path := p; lc_pc := Calling |}) paths |}.

(** ** The invariant *)

Definition uses (e : nat) (c : LockCall) : bool :=
  match lc_pc c with Waiting e' | Holding e' | Unlocked e' => (e =? e')%nat | _ => false end.
Definition holds_lock (e : nat) (c : LockCall) : bool :=
  match lc_pc c with Holding e' => (e =? e')%nat | _ => false end.

Record lock_inv (s : LockSystem) : Prop := {
  inv_user : ∀ i c e, calls s !! i = Some c → uses e c = true → locks (registry s) !! lock_key (lc_path c) = Some e;
  inv_entry : ∀ e en, entries (registry s) !! e = Some en →
    le_refs en = Z.of_nat (countb (uses e) (calls s)) ∧
    countb (holds_lock e) (calls s) = (if le_locked en then 1 else 0)%nat;
  inv_used : ∀ key e, locks (registry s) !! key = Some e →
    (e < length (entries (registry s)))%nat ∧ (0 < countb (uses e) (calls s))%nat;
  inv_inj : ∀ key key' e, locks (registry s) !! key = Some e → locks (registry s) !! key' = Some e → key = key';
}.

Lemma holds_uses e c : holds_lock e c = true → uses e c = true.
Proof. unfold holds_lock, uses. by destruct (lc_pc c). Qed.

Lemma countb_two {A} (p : A → bool) (l : list A) i j x y :
  l !! i = Some x → l !! j = Some y → p x = true → p y = true → countb p l = 1%nat → i = j.
Proof.
  revert i j. induction l as [|z l IH]; intros [|i] [|j] Hi Hj Hx Hy Hc; simplify_eq/=; try done.
  - rewrite Hx in Hc. assert (H : (0 < countb p l)%nat) by by eapply countb_pos. lia.
  - rewrite Hy in Hc. assert (H : (0 < countb p l)%nat) by by eapply countb_pos. lia.
  - f_equal. apply IH; try done. destruct (p z); [|done].
    assert (H : (0 < countb p l)%nat) by by eapply countb_pos. lia.
Qed.

Lemma lookup_alter_entry f e e' (l : list artifactMutationLockEntry) en :
  alter f e l !! e' = Some en → ∃ en0, l !! e' = Some en0 ∧ en = (if decide (e = e') then f en0 else en0).
Proof.
  destruct (decide (e = e')) as [->|Hne].
  - rewrite list_lookup_alter_eq. destruct (l !! e') as [en0|]; cbn; [|done]. intros [= <-]. by exists en0.
  - rewrite list_lookup_alter_ne by done. intros H. by exists en.
Qed.

Section step.
Context (s : LockSystem) (i : nat) (c : LockCall) (Hinv : lock_inv s) (Hi : calls s !! i = Some c).

Let set_pc (pc : LockPC) : LockCall := {| lc_path := lc_path c; lc_pc := pc |}.
Let calls' (pc : LockPC) : list LockCall := <[i := set_pc pc]> (calls s).

Lemma count_after p pc :
  (countb p (calls' pc) + (if p c then 1 else 0) = countb p (calls s) + (if p (set_pc pc) then 1 else 0))%nat.
Proof. by apply countb_insert. Qed.

(** The calls after the step: this one, or another one as before. *)
Lemma lookup_after pc j d : calls' pc !! j = Some d → d = set_pc pc ∨ calls s !! j = Some d.
Proof. intros H. apply list_lookup_insert_Some in H as [(_ & <- & _)|(_ & H)]; auto. Qed.

Lemma inv_register (r : Registry) e :
  lc_pc c = Calling → register (lock_key (lc_path c)) (registry s) = (r, e) →
  lock_inv {| registry := r; calls := calls' (Waiting e) |}.
Proof.
  destruct Hinv as [Hu He Hd Hj]. intros Hpc. unfold register.
  assert (Hcount : ∀ e', countb (uses e') (calls' (Waiting e)) = (countb (uses e') (calls s) + (if (e' =? e)%nat then 1 else 0))%nat).
  { intros e'. pose proof (count_after (uses e') (Waiting e)) as H. unfold uses in H at 2 4. rewrite Hpc in H. cbn in H. lia. }
  assert (Hholds : ∀ e', countb (holds_lock e') (calls' (Waiting e)) = countb (holds_lock e') (calls s)).
  { intros e'. pose proof (count_after (holds_lock e') (Waiting e)) as H. unfold holds_lock in H at 2 4. rewrite Hpc in H. cbn in H. lia. }
  destruct (locks (registry s) !! lock_key (lc_path c)) as [e0|] eqn:Hl; intros [= <- <-]; split; cbn [registry calls locks entries].
  - intros j d e [->|Hd']%lookup_after Hus; [|by eapply Hu]. unfold uses in Hus. cbn in *. apply Nat.eqb_eq in Hus. congruence.
  - intros e en (en0 & H0 & ->)%lookup_alter_entry. destruct (He e en0 H0) as [H1 H2]. rewrite Hcount, Hholds.
    destruct (decide (e0 = e)) as [->|Hne]; cbn [set_refs le_refs le_locked].
    + rewrite Nat.eqb_refl. split; [lia|done].
    + rewrite (proj2 (Nat.eqb_neq _ _)) by congruence. split; [lia|done].
  - intros key e Hk. rewrite length_alter, Hcount. destruct (Hd key e Hk). lia.
  - exact Hj.
  - intros j d e [->|Hd']%lookup_after Hus.
    + unfold uses in Hus. cbn in *. apply Nat.eqb_eq in Hus as ->. by rewrite lookup_insert_eq.
    + specialize (Hu j d e Hd' Hus). rewrite lookup_insert_ne; [done|]. intros E. rewrite E in Hl. congruence.
  - intros e en Hen. rewrite Hcount, Hholds. apply lookup_app_Some in Hen as [Hen|[Hge Hen]].
    + destruct (He e en Hen) as [H1 H2]. apply lookup_lt_Some in Hen.
      rewrite (proj2 (Nat.eqb_neq _ _)) by lia. split; [lia|done].
    + apply list_lookup_singleton_Some in Hen as [Hen <-]. assert (e = length (entries (registry s))) as -> by lia.
      rewrite Nat.eqb_refl. cbn. split.
      * assert (countb (uses (length (entries (registry s)))) (calls s) = 0)%nat as ->; [|done].
        apply countb_zero. intros j d Hj'. destruct (uses _ d) eqn:Hus; [|done].
        apply (Hu j d _ Hj') in Hus. apply Hd in Hus. lia.
      * apply countb_zero. intros j d Hj'. destruct (holds_lock _ d) eqn:Hus; [|done].
        apply holds_uses, (Hu j d _ Hj') in Hus. apply Hd in Hus. lia.
  - intros key e Hk. rewrite length_app, Hcount. cbn. apply lookup_insert_Some in Hk as [[_ <-]|[_ Hk]].
    + rewrite Nat.eqb_refl. lia.
    + destruct (Hd key e Hk). lia.
  - intros key key' e H1 H2.
    apply lookup_insert_Some in H1 as [[<- <-]|[? H1]]; apply lookup_insert_Some in H2 as [[<- ?]|[? H2]]; try done.
    + apply Hd in H2. lia.
    + subst. apply Hd in H1. lia.
    + by eapply Hj.
Qed.

(** Locking and unlocking the mutex of an entry the call uses. *)
Lemma inv_mutex (pc : LockPC) e b :
  uses e c = true → holds_lock e c = negb b → holds_lock e (set_pc pc) = b →
  (∀ e', uses e' (set_pc pc) = uses e' c) → (∀ e', e' ≠ e → holds_lock e' (set_pc pc) = holds_lock e' c) →
  (∀ en, entries (registry s) !! e = Some en → le_locked en = negb b) →
  lock_inv {| registry := {| locks := locks (registry s); entries := alter (set_locked b) e (entries (registry s)) |};
              calls := calls' pc |}.
Proof.
  destruct Hinv as [Hu He Hd Hj]. intros Huse Hh Hh' Hsame Hother Hlocked.
  assert (Hcount : ∀ e', countb (uses e') (calls' pc) = countb (uses e') (calls s)).
  { intros e'. pose proof (count_after (uses e') pc) as H. rewrite Hsame in H. lia. }
  split; cbn [registry calls locks entries].
  - intros j d e' [->|Hd']%lookup_after Hus; [|by eapply Hu]. rewrite Hsame in Hus. by apply (Hu i c).
  - intros e' en (en0 & H0 & ->)%lookup_alter_entry. destruct (He e' en0 H0) as [H1 H2]. rewrite Hcount.
    pose proof (count_after (holds_lock e') pc) as Hc. destruct (decide (e = e')) as [<-|Hne]; cbn [set_locked le_refs le_locked].
    + split; [done|]. rewrite Hh, Hh' in Hc. rewrite H2, (Hlocked en0 H0) in Hc. destruct b; cbn in *; lia.
    + split; [done|]. rewrite Hother in Hc by done. lia.
  - intros key e' Hk. rewrite length_alter, Hcount. by apply Hd with key.
  - exact Hj.
Qed.

Lemma inv_unregister e :
  lc_pc c = Unlocked e →
  lock_inv {| registry := unregister (lock_key (lc_path c)) e (registry s); calls := calls' Returned |}.
Proof.
  destruct Hinv as [Hu He Hd Hj]. intros Hpc.
  assert (Huse : uses e c = true) by (unfold uses; by rewrite Hpc, Nat.eqb_refl).
  pose proof (Hu i c e Hi Huse) as Hkey. destruct (Hd _ _ Hkey) as [Hlen _].
  destruct (lookup_lt_is_Some_2 _ _ Hlen) as [en Hen]. destruct (He e en Hen) as [Hrefs _].
  assert (Hcount : ∀ e', (countb (uses e') (calls' Returned) + (if (e' =? e)%nat then 1 else 0) = countb (uses e') (calls s))%nat).
  { intros e'. pose proof (count_after (uses e') Returned) as H. unfold uses in H at 2 4. rewrite Hpc in H. cbn in H. lia. }
  assert (Hholds : ∀ e', countb (holds_lock e') (calls' Returned) = countb (holds_lock e') (calls s)).
  { intros e'. pose proof (count_after (holds_lock e') Returned) as H. unfold holds_lock in H at 2 4. rewrite Hpc in H. cbn in H. lia. }
  pose proof (Hcount e) as Hce. rewrite Nat.eqb_refl in Hce.
  assert (Hlocks : locks (unregister (lock_key (lc_path c)) e (registry s)) =
    if le_refs en - 1 =? 0 then delete (lock_key (lc_path c)) (locks (registry s)) else locks (registry s)).
  { unfold unregister. cbn [locks]. by rewrite list_lookup_alter_eq, Hen. }
  assert (Hkeep : ∀ key e', locks (unregister (lock_key (lc_path c)) e (registry s)) !! key = Some e' →
    locks (registry s) !! key = Some e' ∧ (e' = e → le_refs en ≠ 1)).
  { intros key e'. rewrite Hlocks. destruct (Z.eqb_spec (le_refs en - 1) 0) as [H0|H0]; [|split; [done|lia]].
    intros [Hne Hk]%lookup_delete_Some. split; [done|]. intros ->. destruct Hne. by eapply Hj. }
  split; cbn [registry calls].
  - intros j d e' Hd0 Hus. pose proof Hd0 as [->|Hd']%lookup_after; [done|].
    pose proof (Hu j d e' Hd' Hus) as Hk. rewrite Hlocks.
    destruct (Z.eqb_spec (le_refs en - 1) 0) as [H0|H0]; [|done].
    rewrite lookup_delete_ne; [done|]. intros E. rewrite E in Hkey. assert (e' = e) as -> by congruence.
    pose proof (countb_pos _ _ _ _ Hd0 Hus). lia.
  - intros e' en' (en0 & H0 & ->)%lookup_alter_entry. destruct (He e' en0 H0) as [H1 H2].
    specialize (Hcount e'). rewrite Hholds. destruct (decide (e = e')) as [<-|Hne]; cbn [set_refs le_refs le_locked].
    + split; [lia|done].
    + rewrite (proj2 (Nat.eqb_neq _ _)) in Hcount by congruence. split; [lia|done].
  - intros key e' Hk. unfold unregister. cbn [entries]. rewrite length_alter.
    apply Hkeep in Hk as [Hk Hne]. destruct (Hd key e' Hk) as [H1 H2]. split; [done|]. specialize (Hcount e').
    destruct (Nat.eqb_spec e' e) as [Heq|]; [|lia]. specialize (Hne Heq). rewrite Heq in *. lia.
  - intros key key' e' [H1 _]%Hkeep [H2 _]%Hkeep. by eapply Hj.
Qed.
End step.

Lemma lock_inv_step s s' : lock_inv s → lock_steps s s' → lock_inv s'.
Proof.
  intros Hinv Hs. revert Hinv. destruct Hs as [i s0 s1 Hstep]. intros Hinv.
  unfold lock_step in Hstep. destruct (calls s0 !! i) as [c|] eqn:Hi; [|done].
  unfold lock_action in Hstep. destruct (lc_pc c) as [|e|e|e|] eqn:Hpc; [| | | |done].
  - destruct (register _ _) as [r e] eqn:Hr. injection Hstep as <-. by eapply inv_register.
  - unfold acquire in Hstep. destruct (entries (registry s0) !! e) as [[[] refs]|] eqn:He; try done.
    injection Hstep as <-. apply (inv_mutex s0 i c Hinv Hi _ e true); unfold uses, holds_lock; rewrite ?Hpc; cbn;
      rewrite ?Nat.eqb_refl; try done.
    + intros e' Hne. by apply Nat.eqb_neq.
    + intros en. rewrite He. by intros [= <-].
  - injection Hstep as <-. apply (inv_mutex s0 i c Hinv Hi _ e false); unfold uses, holds_lock; rewrite ?Hpc; cbn;
      rewrite ?Nat.eqb_refl; try done.
    + intros e' Hne. symmetry. by apply Nat.eqb_neq.
    + intros en He. destruct (inv_entry _ Hinv e en He) as [_ H2].
      assert (Hh : holds_lock e c = true) by (unfold holds_lock; by rewrite Hpc, Nat.eqb_refl).
      pose proof (countb_pos _ _ _ _ Hi Hh) as Hpos. destruct (le_locked en); [done|lia].
  - injection Hstep as <-. by eapply inv_unregister.
Qed.

Lemma lock_inv_start paths : lock_inv (start paths).
Proof.
  split; cbn [start registry calls locks entries].
  - intros i c e Hc. apply list_lookup_fmap_Some in Hc as (p & -> & _). done.
  - intros e en He. by rewrite lookup_nil in He.
  - intros key e Hk. by rewrite lookup_empty in Hk.
  - intros key key' e Hk. by rewrite lookup_empty in Hk.
Qed.

Lemma lock_inv_reachable paths s : rtc lock_steps (start paths) s → lock_inv s.
Proof. apply rtc_invariant; [apply lock_inv_step|apply lock_inv_start]. Qed.

(** ** Properties *)

Definition holding (c : LockCall) : Prop := ∃ e, lc_pc c = Holding e.

(** C30: The mutation lock excludes: however the calls interleave, and although entries are
    deleted and created again, two calls that hold the lock of the same path are the same
    call.  The registry holds an entry exactly for the paths in use. *)
Theorem artifact_lock_exclusive paths s :
  rtc lock_steps (start paths) s →
  (∀ i j c d, calls s !! i = Some c → calls s !! j = Some d → holding c → holding d →
     clean (lc_path c) = clean (lc_path d) → i = j) ∧
  (∀ key, is_Some (locks (registry s) !! key) ↔ ∃ i c e, calls s !! i = Some c ∧ lock_key (lc_path c) = key ∧ uses e c = true).
Proof.
  intros [Hu He Hd Hj]%lock_inv_reachable. split.
  - intros i j c d Hc Hd' (e & Hpc) (e' & Hpd) Hpath.
    assert (H1 : holds_lock e c = true) by (unfold holds_lock; by rewrite Hpc, Nat.eqb_refl).
    assert (H2 : holds_lock e' d = true) by (unfold holds_lock; by rewrite Hpd, Nat.eqb_refl).
    pose proof (Hu i c e Hc (holds_uses _ _ H1)) as K1. pose proof (Hu j d e' Hd' (holds_uses _ _ H2)) as K2.
    unfold lock_key in *. assert (e' = e) as -> by congruence. destruct (Hd _ _ K1) as [Hlen _].
    destruct (lookup_lt_is_Some_2 _ _ Hlen) as [en Hen]. destruct (He e en Hen) as [_ Hcount].
    apply (countb_two (holds_lock e) (calls s) i j c d); try done.
    pose proof (countb_pos _ _ _ _ Hc H1). destruct (le_locked en); [done|lia].
  - intros key. split.
    + intros [e Hk]. destruct (Hd key e Hk) as [_ Hpos].
      destruct (decide (Exists (λ c, uses e c = true) (calls s))) as [Hex|Hno].
      * apply list.Exists_exists in Hex as (c & Hin & Hus). apply list_elem_of_lookup in Hin as [i Hi].
        exists i, c, e. split; [done|]. split; [|done]. eapply Hj; [|exact Hk]. by eapply Hu.
      * assert (countb (uses e) (calls s) = 0%nat) as H0; [|lia]. apply countb_zero. intros i c Hi.
        destruct (uses e c) eqn:Hus; [|done]. destruct Hno. apply list.Exists_exists.
        exists c. split; [by eapply list_elem_of_lookup_2|done].
    + intros (i & c & e & Hi & <- & Hus). exists e. by eapply Hu.
Qed.

Definition returned (c : LockCall) : bool := match lc_pc c with Returned => true | _ => false end.

(** The locks do not deadlock: as long as a call has not returned, one of them has a
    next action. *)
Theorem artifact_lock_progress paths s :
  rtc lock_steps (start paths) s → Exists (λ c, returned c = false) (calls s) → ∃ s', lock_steps s s'.
Proof.
  intros Hinv%lock_inv_reachable (c & Hin & Hr)%list.Exists_exists. apply list_elem_of_lookup in Hin as [i Hi].
  assert (Hgo : ∀ j d, calls s !! j = Some d → is_Some (lock_action d (registry s)) → ∃ s', lock_steps s s').
  { intros j d Hj [[r pc] Ha]. eexists. apply (lock_steps_intro j). unfold lock_step. by rewrite Hj, Ha. }
  unfold returned in Hr. destruct (lc_pc c) as [|e|e|e|] eqn:Hpc; [|..|done].
  1, 3, 4: apply (Hgo i c Hi); unfold lock_action; rewrite Hpc; by eexists.
  assert (Hus : uses e c = true) by (unfold uses; by rewrite Hpc, Nat.eqb_refl).
  destruct (inv_used _ Hinv _ _ (inv_user _ Hinv i c e Hi Hus)) as [Hlen _].
  destruct (lookup_lt_is_Some_2 _ _ Hlen) as [[locked refs] Hen]. destruct locked eqn:Hl.
  - (* the mutex is locked: its holder can go on *)
    destruct (inv_entry _ Hinv e _ Hen) as [_ Hcount]. cbn in Hcount.
    destruct (decide (Exists (λ c, holds_lock e c = true) (calls s))) as [Hex|Hno].
    + apply list.Exists_exists in Hex as (d & Hin & Hh). apply list_elem_of_lookup in Hin as [j Hj].
      apply (Hgo j d Hj). unfold holds_lock in Hh. unfold lock_action. destruct (lc_pc d); done.
    + assert (countb (holds_lock e) (calls s) = 0%nat) as H0; [|lia]. apply countb_zero. intros j d Hj.
      destruct (holds_lock e d) eqn:Hh; [|done]. destruct Hno. apply list.Exists_exists.
      exists d. split; [by eapply list_elem_of_lookup_2|done].
  - apply (Hgo i c Hi). unfold lock_action, acquire. rewrite Hpc, Hen. by eexists.
Qed.

(** ** A concrete run: two calls for one path. *)

Definition run_locks (acts : list nat) (s : LockSystem) : LockSystem :=
  fold_left (λ s i, default s (lock_step i s)) acts s.
Definition ex_paths : list string := ["/w/a"; "/w/./a"]%string.
Definition ex_contended : LockSystem := run_locks [0; 0; 1]%nat (start ex_paths).

Lemma run_locks_reachable acts s : rtc lock_steps s (run_locks acts s).
Proof.
  revert s. induction acts as [|i acts IH]; intros s; [constructor|]. cbn [run_locks fold_left].
  destruct (lock_step i s) as [s'|] eqn:Hs; cbn [default]; [|apply IH].
  eapply rtc_l; [by apply (lock_steps_intro i)|apply IH].
Qed.

(** The first call holds the lock, the second waits for it. *)
Example ex_contended_pcs : map lc_pc (calls ex_contended) = [Holding 0; Waiting 0].
Proof. vm_compute. reflexivity. Qed.

Lemma artifact_lock_exclusive_witness :
  is_Some (locks (registry ex_contended) !! "/w/a"%string) ∧ lock_step 1 ex_contended = None.
Proof.
  destruct (artifact_lock_exclusive ex_paths ex_contended (run_locks_reachable _ _)) as [_ H].
  split; [|vm_compute; reflexivity]. apply H. exists 0%nat, {| lc_path := "/w/a"; lc_pc := Holding 0 |}, 0%nat.
  split_and!; vm_compute; reflexivity.
Defined.

Lemma artifact_lock_progress_witness : ∃ s', lock_steps ex_contended s'.
Proof.
  apply (artifact_lock_progress ex_paths); [apply run_locks_reachable|].
  apply list.Exists_exists. exists {| lc_path := "/w/a"; lc_pc := Holding 0 |}. split; [|reflexivity].
  apply (list_elem_of_lookup_2 _ 0). vm_compute. reflexivity.
Defined.
