(* ===== verification/PathSafety.v ===== *)
(** * Workspace path authorization: [internal/agent/path_safety.go]

    Every filesystem-bearing tool call is authorized, and its operands replaced by
    canonical paths, before it runs.  The model is of a Linux build
    ([runtime.GOOS = "linux"]): [canonicalFilesystemCase] is the identity,
    [matchingBlockedPath] does not fold case and [validatePathSyntax] only refuses
    a NUL byte.  The operating system is a parameter, the [OS] record. *)

From S2P Require Export GoPath.

Local Open Scope string_scope.
Local Open Scope list_scope.

(** ** The operating system *)

Inductive LstatResult := LstatOk | LstatNotExist | LstatError.

Record OS := {
  os_getwd : option string;
  os_lstat : string → LstatResult;
  (** [filepath.EvalSymlinks]; [None] is an error *)
  os_eval_symlinks : string → option string;
  (** [os.Stat] followed by [IsDir] *)
  os_stat_dir : string → option bool;
}.


Record PermissionConfig := {
  AutoApprove : string;
  BlockedPaths : list string;
  BlockedCommands : list string;
  AllowExternalPaths : bool;
}.

Definition DefaultPermissionConfig : PermissionConfig :=
  {| AutoApprove := "safe";
     BlockedPaths := ["/etc/passwd"; "/etc/shadow"; ".ssh/"; ".aws/credentials";
                      ".env"; ".env.local"; ".env.production"];
     BlockedCommands := ["rm -rf /"; "mkfs"; "dd if="; ":(){ :|:& };:"; "> /dev/sda";
                         "shutdown"; "reboot"];
     AllowExternalPaths := false |}.

Inductive PathError :=
| EWorkDirEmpty | ENulByte | EGetwd | EEvalSymlinks (p : string) | EInspect (p : string)
| ENotDirectory (p : string) | EPathEmpty | EBlocked (b : string) | EOutside (p : string)
| ENoParent (p : string) | EMalformedInput | EDuplicateField | EFieldNotString (k : string)
| EFieldEmpty (k : string) | EConflictingFields | EMissingField (k : string)
| EGlobEmpty | EParentTraversal | EBadPattern | ENotebookEditDisabled
| EPathspec (p : string) | EGitRevision | EGitScope | EGitFilesRequired | EGitScopeWithFiles
| EGitCommand | EGitOption (a : string) | EFuel.

(** ** Tool names *)

Definition canonicalPermissionToolName (name : string) : string :=
  if String.eqb name "read_file" then "Read"
  else if String.eqb name "write_file" then "Write"
  else if String.eqb name "edit_file" then "Edit"
  else if String.eqb name "list_files" then "LS"
  else if String.eqb name "search_files" then "Grep"
  else if String.eqb name "glob_files" then "Glob"
  else name.

(** ** Lexical checks *)

Definition nul : ascii := Ascii.zero.

Definition validatePathSyntax (p : string) : result PathError unit :=
  if str_elem nul p then Err ENulByte else Ok tt.

(** [matchingBlockedPath]; the empty string is "no match". *)
Fixpoint matchingBlockedPath (p : string) (blocked : list string) : string :=
  match blocked with
  | [] => ""
  | b :: blocked' => if contains p b then b else matchingBlockedPath p blocked'
  end.

Definition is_slash (c : ascii) : bool := Ascii.eqb c "/" || Ascii.eqb c "\".

(** [strings.FieldsFunc(path, ...)] for either slash, up to empty fields. *)
Fixpoint split_slashes (s : string) : list string :=
  match s with
  | "" => [""]
  | String c s' =>
      if is_slash c then "" :: split_slashes s'
      else match split_slashes s' with
           | [] => [String c ""]
           | w :: ws => String c w :: ws
           end
  end.
Definition hasParentTraversalComponent (p : string) : bool :=
  existsb (String.eqb "..") (split_slashes p).

Definition pathWithin (target base : string) : bool :=
  match filepath_rel base target with
  | None => false
  | Some rel =>
      if String.eqb rel "." then true
      else negb (String.eqb rel "..") && negb (has_prefix rel "../")
  end.

(** [strings.IndexAny(pattern, "*?[")] and [globLiteralRoot]. *)
Fixpoint index_any (s cs : string) : option nat :=
  match s with
  | "" => None
  | String c s' => if str_elem c cs then Some 0%nat else S <$> index_any s' cs
  end.
Definition globLiteralRoot (pattern : string) : string :=
  match index_any pattern "*?[" with
  | None => pattern
  | Some n => filepath_dir (str_take n pattern)
  end.

Definition hasGitPathspecSyntax (p : string) : bool :=
  has_prefix p ":" || contains_any p "*?[".

Definition revision_bad_rune (c : ascii) : bool :=
  Ascii.eqb c "\" || Ascii.eqb c nul || Ascii.eqb c " " || Ascii.eqb c "009"
  || Ascii.eqb c "013" || Ascii.eqb c "010".
Definition validateGitRevision (revision : string) : result PathError unit :=
  if String.eqb revision "" then Ok tt
  else if has_prefix revision "-" || is_abs revision || hasParentTraversalComponent revision
          || str_existsb revision_bad_rune revision
  then Err EGitRevision else Ok tt.

Definition unsafe_git_options : list string :=
  ["-c"; "--config-env"; "--exec-path"; "--git-dir"; "--work-tree"; "--namespace";
   "--super-prefix"; "--pathspec-from-file"; "--output"; "--global"; "--system"; "--file";
   "--object-directory"; "--directory"; "--prefix"; "--unsafe-paths"].
Definition unsafeGitFilesystemOption (argument : string) : bool :=
  existsb (λ o, String.eqb argument o || has_prefix argument (o +:+ "=")) unsafe_git_options.

Definition gitCommandUsesPositionalPaths (command : string) : bool :=
  existsb (String.eqb (to_lower command)) ["add"; "rm"; "mv"].

(** ** JSON input *)

Definition decodeUniqueJSONObject (input : RawMessage) : result PathError members :=
  match input with
  | Some (JObject o) => if bool_decide (NoDup o.*1) then Ok o else Err EDuplicateField
  | _ => Err EMalformedInput
  end.

Fixpoint oneStringField_loop (object : members) (value : string) (found : bool)
    (keys : list string) : result PathError (string * bool) :=
  match keys with
  | [] => Ok (value, found)
  | key :: keys' =>
      match last_member key object with
      | None => oneStringField_loop object value found keys'
      | Some raw =>
          match unmarshal_string raw with
          | None => Err (EFieldNotString key)
          | Some candidate =>
              if String.eqb (trim_space candidate) "" then Err (EFieldEmpty key)
              else if found && negb (String.eqb candidate value) then Err EConflictingFields
              else oneStringField_loop object candidate true keys'
          end
      end
  end.

Definition oneStringField (object : members) (required : bool) (keys : list string)
  : result PathError string :=
  '(value, found) ← oneStringField_loop object "" false keys;
  if required && negb found then Err (EMissingField (List.hd "" keys)) else Ok value.

(** ** Canonical paths *)

Abbreviation values := (gmap string (list string)).

Section Resolution.
Context (os : OS).

(** [filepath.Abs]. *)
Definition filepath_abs (p : string) : result PathError string :=
  if is_abs p then Ok (clean p)
  else match os_getwd os with
       | None => Err EGetwd
       | Some wd => Ok (join2 wd p)
       end.

(** The loop of [canonicalizeTarget]; [missing] is the Go slice reversed. *)
Fixpoint canonicalize_loop (fuel : nat) (target current : string) (missing : list string)
  : result PathError string :=
  match fuel with
  | O => Err EFuel
  | S fuel' =>
      match os_lstat os current with
      | LstatOk =>
          match os_eval_symlinks os current with
          | None => Err (EEvalSymlinks current)
          | Some canonical =>
              _ ← (match missing with
                   | [] => Ok tt
                   | _ => match os_stat_dir os canonical with
                          | None => Err (EInspect canonical)
                          | Some false => Err (ENotDirectory canonical)
                          | Some true => Ok tt
                          end
                   end);
              Ok (clean (fold_left join2 missing canonical))
          end
      | LstatError => Err (EInspect current)
      | LstatNotExist =>
          let parent := filepath_dir current in
          if String.eqb parent current then Err (ENoParent target)
          else canonicalize_loop fuel' target parent (filepath_base current :: missing)
      end
  end.

Definition canonicalizeTarget (target : string) : result PathError string :=
  canonicalize_loop (S (length (path_comps target))) target (clean target) [].

Definition canonicalWorkspace (workDir : string) : result PathError string :=
  if String.eqb (trim_space workDir) "" then Err EWorkDirEmpty else
  _ ← validatePathSyntax workDir;
  absWork ← filepath_abs workDir;
  match os_eval_symlinks os absWork with
  | None => Err (EEvalSymlinks absWork)
  | Some canonical =>
      match os_stat_dir os canonical with
      | None => Err (EInspect canonical)
      | Some false => Err (ENotDirectory canonical)
      | Some true => Ok (clean canonical)
      end
  end.

(** The part [canonicalPathWithinWorkspace] and [canonicalPathForPolicy] share. *)
Definition canonicalCheckedPath (rawPath baseDir : string) (cfg : PermissionConfig)
  : result PathError string :=
  if String.eqb (trim_space rawPath) "" then Err EPathEmpty else
  let blocked := matchingBlockedPath rawPath (BlockedPaths cfg) in
  if negb (String.eqb blocked "") then Err (EBlocked blocked) else
  _ ← validatePathSyntax rawPath;
  let resolved := if is_abs rawPath then rawPath else join2 baseDir rawPath in
  absPath ← filepath_abs resolved;
  canonical ← canonicalizeTarget absPath;
  let blocked := matchingBlockedPath canonical (BlockedPaths cfg) in
  if negb (String.eqb blocked "") then Err (EBlocked blocked) else Ok canonical.

Definition canonicalPathWithinWorkspace (rawPath baseDir workspace : string)
    (cfg : PermissionConfig) : result PathError string :=
  canonical ← canonicalCheckedPath rawPath baseDir cfg;
  if negb (pathWithin canonical workspace) then Err (EOutside rawPath) else Ok canonical.

Definition canonicalPathForPolicy (rawPath baseDir workspace : string)
    (cfg : PermissionConfig) : result PathError string :=
  if negb (AllowExternalPaths cfg)
  then canonicalPathWithinWorkspace rawPath baseDir workspace cfg
  else canonicalCheckedPath rawPath baseDir cfg.

Definition checkGlobPattern (pattern baseDir workspace : string) (cfg : PermissionConfig)
  : result PathError unit :=
  if String.eqb (trim_space pattern) "" then Err EGlobEmpty else
  _ ← validatePathSyntax pattern;
  let blocked := matchingBlockedPath pattern (BlockedPaths cfg) in
  if negb (String.eqb blocked "") then Err (EBlocked blocked) else
  if hasParentTraversalComponent pattern then Err EParentTraversal
  else if negb (pattern_ok pattern) then Err EBadPattern
  else _ ← canonicalPathForPolicy (globLiteralRoot pattern) baseDir workspace cfg; Ok tt.

(** ** Git arguments *)

Definition git_command_rune (c : ascii) : bool :=
  let n := nat_of_ascii c in
  (((97 <=? n) && (n <=? 122)) || ((65 <=? n) && (n <=? 90)) || ((48 <=? n) && (n <=? 57)) ||
   (n =? 45))%nat.

Fixpoint resolveGitArguments_loop (command workDir workspace : string) (cfg : PermissionConfig)
    (afterSeparator : bool) (resolved arguments : list string)
  : result PathError (list string) :=
  match arguments with
  | [] => Ok resolved
  | argument :: rest =>
      let continue after a := resolveGitArguments_loop command workDir workspace cfg after
                                (resolved ++ [a]) rest in
      if String.eqb argument "--" then continue true argument
      else if unsafeGitFilesystemOption (to_lower argument) then Err (EGitOption argument)
      else
        let externalForm := is_abs argument || hasParentTraversalComponent argument in
        let pathOperand := afterSeparator || gitCommandUsesPositionalPaths command
                           || externalForm in
        if externalForm && has_prefix argument "-" then Err (EGitOption argument)
        else if pathOperand && (has_prefix argument ":(" || has_prefix argument ":!"
                                || has_prefix argument ":^")
        then Err (EPathspec argument)
        else if pathOperand && (negb (has_prefix argument "-") || afterSeparator) then
          canonical ← canonicalPathForPolicy argument workDir workspace cfg;
          continue afterSeparator canonical
        else continue afterSeparator argument
  end.

Definition resolveGitToolArguments (object : members) (workDir workspace : string)
    (cfg : PermissionConfig) : result PathError (list string) :=
  command ← oneStringField object true ["command"];
  if has_prefix command "-" || str_existsb (λ c, negb (git_command_rune c)) command
  then Err EGitCommand else
  args ← oneStringField object false ["args"];
  resolveGitArguments_loop command workDir workspace cfg false [command] (fields args).

(** ** The authorization of one call *)

Definition append_value (name v : string) (r : values) : values :=
  <[name := default [] (r !! name) ++ [v]]> r.

Definition canonicalize (workDir workspace : string) (cfg : PermissionConfig)
    (name raw : string) (r : values) : result PathError values :=
  canonical ← canonicalPathForPolicy raw workDir workspace cfg;
  Ok (append_value name canonical r).

Definition resolve_git_commit_files (workDir workspace : string) (cfg : PermissionConfig)
    (paths : list string) (r : values) : result PathError values :=
  fold_left (λ acc path,
    r ← acc;
    if has_prefix path "-" || hasGitPathspecSyntax path then Err (EPathspec path)
    else canonicalize workDir workspace cfg "files" path r) paths (Ok r).

Definition or_dot (p : string) : string := if String.eqb p "" then "." else p.

Definition file_path_keys : list string := ["file_path"; "filePath"; "path"].

Definition path_tools : list string :=
  ["Read"; "Write"; "Edit"; "Glob"; "Grep"; "LS"; "RepoMap"; "LSP"; "NotebookRead";
   "NotebookEdit"; "ImageRead"; "PDFRead"; "Lint"; "Test"; "Git"; "GitDiff"; "GitCommit"; "Diff"].

Definition tool_in (tool : string) (l : list string) : bool := existsb (String.eqb tool) l.

Definition resolve_operands (tool : string) (object : members) (workDir workspace : string)
    (cfg : PermissionConfig) : result PathError values :=
  let canon := canonicalize workDir workspace cfg in
  if tool_in tool ["Read"; "Write"; "Edit"; "NotebookRead"; "ImageRead"; "PDFRead"; "LSP"] then
    path ← oneStringField object true file_path_keys; canon "file_path" path ∅
  else if String.eqb tool "NotebookEdit" then
    path ← oneStringField object true file_path_keys;
    _ ← canon "file_path" path ∅; Err ENotebookEditDisabled
  else if tool_in tool ["LS"; "RepoMap"; "Lint"; "Test"] then
    path ← oneStringField object false ["path"]; canon "path" (or_dot path) ∅
  else if String.eqb tool "Glob" then
    basePath ← oneStringField object false ["path"];
    base ← canonicalPathForPolicy (or_dot basePath) workDir workspace cfg;
    pattern ← oneStringField object true ["pattern"];
    _ ← checkGlobPattern pattern base workspace cfg;
    Ok {["path" := [base]]}
  else if String.eqb tool "Grep" then
    basePath ← oneStringField object false ["path"];
    base ← canonicalPathForPolicy (or_dot basePath) workDir workspace cfg;
    pattern ← oneStringField object false ["glob"];
    _ ← (if String.eqb pattern "" then Ok tt else checkGlobPattern pattern base workspace cfg);
    Ok {["path" := [base]]}
  else if String.eqb tool "Diff" then
    path_a ← oneStringField object true ["file_a"; "fileA"];
    r ← canon "file_a" path_a ∅;
    path_b ← oneStringField object true ["file_b"; "fileB"];
    canon "file_b" path_b r
  else if String.eqb tool "GitDiff" then
    path ← oneStringField object false ["file"];
    r ← (if String.eqb path "" then Ok ∅
         else if hasGitPathspecSyntax path then Err (EPathspec path)
         else canon "file" path ∅);
    commit ← oneStringField object false ["commit"];
    _ ← validateGitRevision commit; Ok r
  else if String.eqb tool "GitCommit" then
    files ← oneStringField object false ["files"];
    scope ← oneStringField object false ["scope"];
    let files := trim_space files in
    let scope := trim_space scope in
    if negb (String.eqb scope "") && negb (String.eqb scope "staged") then Err EGitScope
    else if String.eqb files "" && negb (String.eqb scope "staged") then Err EGitFilesRequired
    else if negb (String.eqb files "") && negb (String.eqb scope "") then Err EGitScopeWithFiles
    else resolve_git_commit_files workDir workspace cfg (fields files) ∅
  else
    arguments ← resolveGitToolArguments object workDir workspace cfg;
    Ok {["arguments" := arguments]}.

(** [resolveToolWorkspacePaths]; [None] is [handled = false]. *)
Definition resolveToolWorkspacePaths (toolName : string) (input : RawMessage)
    (workDir : string) (cfg : PermissionConfig) : option (result PathError values) :=
  let tool := canonicalPermissionToolName toolName in
  if negb (tool_in tool path_tools) then None else
  Some (object ← decodeUniqueJSONObject input;
        workspace ← canonicalWorkspace workDir;
        resolve_operands tool object workDir workspace cfg).

Definition checkToolWorkspacePaths (toolName : string) (input : RawMessage)
    (workDir : string) (cfg : PermissionConfig) : result PathError unit :=
  match resolveToolWorkspacePaths toolName input workDir cfg with
  | None => Ok tt
  | Some r => _ ← r; Ok tt
  end.

(** [executionToolWorkspacePathsWithPolicy]; [None] is the "no filesystem path
    contract" error. *)
Definition executionToolWorkspacePathsWithPolicy (toolName : string) (input : RawMessage)
    (workDir : string) (full_mode : bool) : option (result PathError values) :=
  let cfg := {| AutoApprove := AutoApprove DefaultPermissionConfig;
                BlockedPaths := BlockedPaths DefaultPermissionConfig;
                BlockedCommands := BlockedCommands DefaultPermissionConfig;
                AllowExternalPaths := full_mode |} in
  resolveToolWorkspacePaths toolName input workDir cfg.

(** [CheckPath]. *)
Definition CheckPath (path workDir : string) (cfg : PermissionConfig) : result PathError unit :=
  workspace ← canonicalWorkspace workDir;
  _ ← canonicalPathWithinWorkspace path workDir workspace cfg;
  Ok tt.

End Resolution.

Definition one (r : values) (name : string) : string := List.hd "" (default [] (r !! name)).

(** ** Containment, on components *)







(** ** What a canonical path is *)

(** The blocked texts that count: an empty entry switches off itself and the entries after
    it ([empty_blocked_path_hides_rest]). *)
Fixpoint effective_blocked (blocked : list string) : list string :=
  match blocked with
  | [] => []
  | b :: blocked' => if String.eqb b "" then [] else b :: effective_blocked blocked'
  end.
Lemma effective_blocked_all l : "" ∉ l → effective_blocked l = l.
Proof.
  induction l as [|x l IH]; simpl; [done|]. intros [Hx Hl]%not_elem_of_cons.
  destruct (String.eqb_spec x "") as [->|]; [done|]. by rewrite IH.
Qed.

Section Canonical.
Context (os : OS) `{!OSLaws os}.

Definition canonical (p : string) : Prop := is_abs p = true ∧ clean p = p.



















(** *** Git command lines *)








(** *** The operands of every tool *)


End Canonical.

(** ** Order of the members *)

Lemma last_member_perm o1 o2 k : NoDup o1.*1 → Permutation o1 o2 →
  last_member k o1 = last_member k o2.
Proof.
  intros Hnd Hp. assert (Hnd2 : NoDup o2.*1) by (by rewrite <- Hp).
  destruct (last_member k o1) as [v|] eqn:H1; symmetry.
  - apply last_member_unique; [done|]. rewrite <- list_elem_of_In, <- Hp, list_elem_of_In.
    by apply last_member_In.
  - destruct (last_member k o2) as [v|] eqn:H2; [|done].
    apply last_member_In in H2. rewrite <- list_elem_of_In, <- Hp, list_elem_of_In in H2.
    by rewrite (last_member_unique _ _ _ Hnd H2) in H1.
Qed.

Section Extensional.
Context (os : OS) (o1 o2 : members).
Hypothesis Hlookup : ∀ k, last_member k o1 = last_member k o2.

Lemma oneStringField_ext required keys :
  oneStringField o1 required keys = oneStringField o2 required keys.
Proof.
  unfold oneStringField. f_equal.
  generalize "", false. induction keys as [|k keys IH]; intros v f; simpl; [done|].
  rewrite Hlookup. repeat case_match; auto.
Qed.

Lemma resolve_operands_ext tool workDir ws cfg :
  resolve_operands os tool o1 workDir ws cfg = resolve_operands os tool o2 workDir ws cfg.
Proof.
  unfold resolve_operands, resolveGitToolArguments. by rewrite !oneStringField_ext.
Qed.
End Extensional.

(** ** Properties *)


(** The authorization does not depend on which duplicate a decoder would
    keep.  Input with a repeated member is refused, and otherwise the verdict and
    the resolved paths do not depend on the order of the members. *)
Theorem path_input_unambiguous os toolName workDir cfg o1 o2 :
  Permutation o1 o2 →
  (¬ NoDup o1.*1 → tool_in (canonicalPermissionToolName toolName) path_tools = true →
     resolveToolWorkspacePaths os toolName (Some (JObject o1)) workDir cfg =
       Some (Err EDuplicateField)) ∧
  resolveToolWorkspacePaths os toolName (Some (JObject o1)) workDir cfg =
    resolveToolWorkspacePaths os toolName (Some (JObject o2)) workDir cfg.
Proof.
  intros Hp. unfold resolveToolWorkspacePaths, decodeUniqueJSONObject. split.
  - intros Hnd Ht. rewrite Ht, bool_decide_eq_false_2 by done. done.
  - destruct (tool_in _ _); [simpl|done].
    rewrite (bool_decide_ext (NoDup o1.*1) (NoDup o2.*1)) by (by rewrite Hp).
    destruct (decide (NoDup o2.*1)) as [Hnd|Hnd];
      [rewrite bool_decide_eq_true_2 by done|by rewrite bool_decide_eq_false_2].
    simpl. destruct (canonicalWorkspace os workDir) as [ws|]; simpl; [|done].
    f_equal. apply resolve_operands_ext. intros k. apply last_member_perm; [|done].
    by rewrite Hp.
Qed.

(** An empty entry of [BlockedPaths] matches every path but reads as "no match",
    and hides the entries after it. *)
Theorem empty_blocked_path_hides_rest p rest :
  matchingBlockedPath p ("" :: rest) = "".
Proof. simpl. by destruct p. Qed.

(** ** Concrete runs *)

Definition ex_os : OS :=
  {| os_getwd := Some "/home"; os_lstat := λ p, if has_prefix p "/work/new" then LstatNotExist
                                                else LstatOk;
     os_eval_symlinks := λ p, Some (if String.eqb p "/work/link" then "/etc" else p);
     os_stat_dir := λ _, Some true |}.


Definition ex_path_input (path : string) : RawMessage :=
  Some (JObject [("file_path", JString path)]).

Example ex_link_escape :
  resolveToolWorkspacePaths ex_os "Read" (ex_path_input "link") "/work" DefaultPermissionConfig
  = Some (Err (EOutside "link")).
Proof. vm_compute. reflexivity. Qed.


Lemma path_input_unambiguous_witness :
  resolveToolWorkspacePaths ex_os "Read"
    (Some (JObject [("path", JString "a"); ("path", JString "/etc")])) "/work"
    DefaultPermissionConfig = Some (Err EDuplicateField).
Proof.
  apply (proj1 (path_input_unambiguous ex_os "Read" "/work" DefaultPermissionConfig
    [("path", JString "a"); ("path", JString "/etc")]
    [("path", JString "a"); ("path", JString "/etc")] (Permutation_refl _))).
  - intros [Hn _]%list.NoDup_cons. apply Hn. apply elem_of_cons; by left.
  - reflexivity.
Defined.
