(* ===== verification/CommandEffect.v ===== *)
(** * Static effects of shell and git commands:
    [internal/agent/command_effect.go] and the git classification of
    [internal/agent/permission.go]

    The classifier decides which Bash and Git calls may run without an approval
    and concurrently.  Command texts come out of the JSON decoder, so they are
    valid UTF-8 and scanning them by byte or by rune is the same for the ASCII
    characters the code looks at. *)

From S2P Require Export PathSafety.

Local Open Scope string_scope.
Local Open Scope list_scope.

Inductive CommandEffectKind :=
| CommandEffectReadOnly | CommandEffectMutating | CommandEffectDestructive
| CommandEffectUnknown.

#[export] Instance CommandEffectKind_eq_dec : EqDecision CommandEffectKind.
Proof. solve_decision. Defined.

Record CommandEffect := { Kind : CommandEffectKind; Reason : string }.

Definition unknownCommandEffect (reason : string) : CommandEffect :=
  {| Kind := CommandEffectUnknown; Reason := reason |}.
Definition readOnly (reason : string) : CommandEffect :=
  {| Kind := CommandEffectReadOnly; Reason := reason |}.
Definition mutating (reason : string) : CommandEffect :=
  {| Kind := CommandEffectMutating; Reason := reason |}.
Definition destructive (reason : string) : CommandEffect :=
  {| Kind := CommandEffectDestructive; Reason := reason |}.

(** [switch x { case l...: }]. *)
Abbreviation one_of := tool_in (only parsing).

(** ** Splitting a simple command *)

Definition shell_meta : string :=
  byte_str [39; 34; 36; 96; 92; 59; 124; 38; 62; 60; 40; 41; 10; 13; 35].
Definition is_blank (c : ascii) : bool := Ascii.eqb c " " || Ascii.eqb c "009".

(** The scan of [splitSimpleShellCommand]: [current] is the word being read. *)
Fixpoint split_simple (s current : string) (words : list string) : option (list string) :=
  let flush := if String.eqb current "" then words else words ++ [current] in
  match s with
  | "" => Some flush
  | String c s' =>
      if str_elem c shell_meta then None
      else if is_blank c then split_simple s' "" flush
      else split_simple s' (current +:+ String c "") words
  end.
Definition splitSimpleShellCommand (command : string) : option (list string) :=
  split_simple command "" [].

(** ** Git *)

Definition containsGitArgument (argv : list string) (expected : string) : bool :=
  existsb (λ a, equal_fold a expected) argv.

Definition dangerousGitInvocation (command : string) (argv : list string) : bool :=
  existsb (λ a, let flag := to_lower a in
             has_prefix flag "--force" || (String.eqb command "push" && String.eqb flag "-f")) argv
  || (String.eqb command "reset" && containsGitArgument argv "--hard").

Definition git_branch_mutating_flags : list string :=
  ["-d"; "-D"; "--delete"; "-m"; "-M"; "--move"; "-c"; "-C"; "--copy"; "--edit-description";
   "--set-upstream-to"; "--unset-upstream"].

Definition git_branch_listing_flag (flag : string) : bool :=
  one_of flag ["--list"; "--show-current"; "-a"; "--all"; "-r"; "--remotes"; "--contains"]
  || has_prefix flag "--contains=" || String.eqb flag "--no-contains"
  || has_prefix flag "--no-contains=" || String.eqb flag "--merged"
  || has_prefix flag "--merged=" || String.eqb flag "--no-merged"
  || has_prefix flag "--no-merged=" || String.eqb flag "--points-at"
  || has_prefix flag "--points-at=".

Definition mutatingGitBranch (argv : list string) : bool :=
  match argv with
  | [] => false
  | _ =>
      if existsb (λ a, one_of (to_lower a) git_branch_mutating_flags) argv then true
      else if existsb (λ a, git_branch_listing_flag (to_lower a)) argv then false
      else true
  end.

Definition git_tag_mutating_flags : list string :=
  ["-d"; "--delete"; "-a"; "--annotate"; "-s"; "--sign"; "-u"; "--local-user"; "-m"; "--message";
   "-F"; "--file"; "-f"; "--force"].

Definition git_tag_listing_flag (first : string) : bool :=
  one_of first ["-l"; "--list"; "-n"; "-v"; "--verify"; "--contains"]
  || has_prefix first "--contains=" || String.eqb first "--no-contains"
  || has_prefix first "--no-contains=" || String.eqb first "--points-at"
  || has_prefix first "--points-at=" || String.eqb first "--merged"
  || has_prefix first "--merged=" || String.eqb first "--no-merged"
  || has_prefix first "--no-merged=".

Definition mutatingGitTag (argv : list string) : bool :=
  match argv with
  | [] => false
  | a0 :: _ =>
      if existsb (λ a, one_of (to_lower a) git_tag_mutating_flags) argv then true
      else negb (git_tag_listing_flag (to_lower a0))
  end.

Definition git_read_only_commands : list string :=
  ["status"; "diff"; "log"; "show"; "blame"; "grep"; "shortlog"; "describe"; "rev-parse";
   "ls-files"; "ls-tree"; "cat-file"; "name-rev"; "for-each-ref"].

Definition mutatingGitInvocation (command : string) (argv : list string) : bool :=
  if one_of command git_read_only_commands then false
  else if String.eqb command "branch" then mutatingGitBranch argv
  else if String.eqb command "stash" then
    match argv with
    | [] => true
    | a0 :: _ => negb (String.eqb (to_lower a0) "list") && negb (String.eqb (to_lower a0) "show")
    end
  else if String.eqb command "remote" then
    match argv with
    | [] => false
    | a0 :: rest =>
        if match rest with [] => String.eqb a0 "-v" || String.eqb a0 "--verbose" | _ => false end
        then false
        else negb (String.eqb (to_lower a0) "show") && negb (String.eqb (to_lower a0) "get-url")
    end
  else if String.eqb command "tag" then mutatingGitTag argv
  else true.

Definition git_mutating_commands : list string :=
  ["add"; "am"; "apply"; "bisect"; "branch"; "checkout"; "cherry-pick"; "clean"; "clone";
   "commit"; "config"; "fetch"; "filter-branch"; "gc"; "init"; "merge"; "mv"; "notes"; "pull";
   "push"; "rebase"; "remote"; "replace"; "reset"; "restore"; "revert"; "rm"; "stash";
   "submodule"; "switch"; "tag"; "update-index"; "worktree"].
Definition knownMutatingGitCommand (command : string) : bool :=
  one_of command git_mutating_commands.

Definition classifyGitInvocation (command : string) (args : list string) : CommandEffect :=
  let command := to_lower (trim_space command) in
  if existsb (λ a, String.eqb a "--output" || has_prefix a "--output=") args
  then mutating "Git writes command output to a file"
  else if dangerousGitInvocation command args then destructive "destructive Git operation"
  else if negb (mutatingGitInvocation command args)
  then readOnly "known read-only Git invocation"
  else if knownMutatingGitCommand command then mutating "Git changes repository state"
  else unknownCommandEffect "Git subcommand is not classified".

Definition git_command_meta : string :=
  byte_str [32; 9; 13; 10; 59; 38; 124; 60; 62; 96; 36; 92; 39; 34].

Definition classifyGitCommandEffect (command rawArgs : string) : CommandEffect :=
  let command := to_lower (trim_space command) in
  if String.eqb command "" || contains_any command git_command_meta
  then unknownCommandEffect "Git command is malformed"
  else match splitSimpleShellCommand rawArgs with
       | None => unknownCommandEffect "Git arguments are quoted or ambiguous"
       | Some args => classifyGitInvocation command args
       end.

(** ** Bash *)

Definition hasRecursiveForceFlags (args : list string) : bool :=
  existsb (λ a, let flag := trim_left_set a "-" in contains flag "r" && contains flag "f") args.

Definition containsCommandEffectArg (vs : list string) (expected : string) : bool :=
  existsb (λ v, String.eqb v expected) vs.

Definition find_effects : list string :=
  ["-delete"; "-exec"; "-execdir"; "-ok"; "-okdir"; "-fprint"; "-fprint0"; "-fprintf"; "-fls"].
Definition system_commands : list string :=
  ["mkfs"; "dd"; "shutdown"; "reboot"; "halt"; "poweroff"].
Definition file_commands : list string :=
  ["mv"; "cp"; "mkdir"; "rmdir"; "touch"; "chown"; "ln"; "install"; "tee"; "sponge"].
Definition read_only_commands : list string :=
  ["ls"; "cat"; "head"; "tail"; "wc"; "grep"; "egrep"; "fgrep"; "rg"; "ag"; "stat"; "file"; "du";
   "df"; "pwd"; "basename"; "dirname"; "realpath"; "readlink"; "uname"; "whoami"; "date"; "which";
   "where"; "type"; "echo"; "printf"; "true"; "false"].

(** The [switch executable] of [classifyBashCommandEffect], on lower-cased words. *)
Definition classify_words (executable : string) (args : list string) : CommandEffect :=
  if String.eqb executable "git" then
    match args with
    | [] => unknownCommandEffect "Git subcommand is missing"
    | a0 :: rest => classifyGitInvocation a0 rest
    end
  else if String.eqb executable "find" then
    if existsb (λ a, one_of a find_effects) args
    then mutating "find can delete, execute, or write a file"
    else readOnly "find query only"
  else if String.eqb executable "rm" then
    if hasRecursiveForceFlags args then destructive "recursive forced deletion"
    else mutating "file deletion"
  else if one_of executable system_commands then destructive "system-level command"
  else if String.eqb executable "chmod" then
    if existsb (λ a, String.eqb a "777" || contains a "777") args
    then destructive "world-writable permission change"
    else mutating "file permission change"
  else if one_of executable ["kill"; "pkill"] then
    if existsb (λ a, (String.eqb a "-9" || String.eqb a "-KILL") &&
                     (String.eqb executable "pkill" || containsCommandEffectArg args "1")) args
    then destructive "forced process termination"
    else mutating "process termination"
  else if one_of executable file_commands then mutating "file or system state change"
  else if one_of executable ["sed"; "perl"] then
    if existsb (λ a, String.eqb a "-i" || has_prefix a "-i") args
    then mutating "in-place file edit"
    else unknownCommandEffect "script command effect is not statically known"
  else if one_of executable read_only_commands then readOnly "known read-only command"
  else unknownCommandEffect "command is not in the read-only effect catalog".

(** [`/\\:`], a raw string. *)
Definition path_qualifiers : string := byte_str [47; 92; 92; 58].

Definition classifyBashCommandEffect (command : string) : CommandEffect :=
  match splitSimpleShellCommand command with
  | None | Some [] =>
      unknownCommandEffect "shell syntax is compound, quoted, expanded, or ambiguous"
  | Some (w0 :: ws) =>
      if contains w0 "=" then unknownCommandEffect "environment assignment is not classified"
      else
        let executable := to_lower w0 in
        let args := map to_lower ws in
        if contains_any executable path_qualifiers
        then unknownCommandEffect "path-qualified executable is not classified"
        else classify_words executable args
  end.

(** ** Tool inputs *)

Definition string_member (k : string) (input : members) : option string :=
  match last_member k input with Some (JString s) => Some s | _ => None end.

Definition classifyCommandEffect (toolName : string) (input : members) : CommandEffect :=
  let tool := canonicalPermissionToolName toolName in
  if String.eqb tool "Bash" then
    match string_member "command" input with
    | None => unknownCommandEffect "missing Bash command"
    | Some command => classifyBashCommandEffect command
    end
  else if String.eqb tool "Git" then
    match string_member "command" input with
    | None => unknownCommandEffect "missing Git command"
    | Some command =>
        match last_member "args" input with
        | Some (JString args) => classifyGitCommandEffect command args
        | None | Some JNull => classifyGitCommandEffect command ""
        | Some _ => unknownCommandEffect "invalid Git arguments"
        end
    end
  else unknownCommandEffect "tool has no command-effect contract".

Definition read_only_tools : list string :=
  ["Read"; "Glob"; "Grep"; "LS"; "RepoMap"; "LSP"; "NotebookRead"; "ImageRead"; "PDFRead";
   "LoadToolResult"; "LoadSkill"; "ReportCompletion"; "WebSearch"; "WebFetch"; "WebResearch";
   "TaskList"].

Definition readOnlyPolicyAllowsBuiltIn (toolName : string) (input : RawMessage) : bool :=
  let tool := canonicalPermissionToolName toolName in
  if one_of tool ["Bash"; "Git"] then
    match unmarshal_map input with
    | None => false
    | Some object => bool_decide (Kind (classifyCommandEffect tool object) = CommandEffectReadOnly)
    end
  else one_of tool read_only_tools.

(** ** Danger levels *)

Inductive DangerLevel := DangerSafe | DangerModerate | DangerDangerous | DangerUnknown.

#[export] Instance DangerLevel_eq_dec : EqDecision DangerLevel.
Proof. solve_decision. Defined.

Definition dangerForCommandEffect (effect : CommandEffect) : DangerLevel * string :=
  match Kind effect with
  | CommandEffectReadOnly => (DangerSafe, "")
  | CommandEffectMutating => (DangerModerate, Reason effect)
  | CommandEffectDestructive => (DangerDangerous, Reason effect)
  | CommandEffectUnknown => (DangerUnknown, Reason effect)
  end.

Definition safe_tools : list string :=
  ["Read"; "Glob"; "Grep"; "LS"; "RepoMap"; "LSP"; "LoadToolResult"; "LoadSkill";
   "ReportCompletion"; "WebSearch"; "WebFetch"; "WebResearch"; "TaskCreate"; "TaskUpdate";
   "TaskList"; "NotebookRead"].

Definition ClassifyDanger (toolName : string) (input : RawMessage) : DangerLevel * string :=
  let tool := canonicalPermissionToolName toolName in
  if one_of tool ["Bash"; "Git"] then
    match unmarshal_map input with
    | None => dangerForCommandEffect (unknownCommandEffect "invalid command input")
    | Some object => dangerForCommandEffect (classifyCommandEffect tool object)
    end
  else if String.eqb tool "Write" then (DangerModerate, "Creating/overwriting file")
  else if String.eqb tool "Edit" then (DangerSafe, "")
  else if one_of tool safe_tools then (DangerSafe, "")
  else if String.eqb tool "NotebookEdit" then (DangerModerate, "Modifying notebook")
  else (DangerModerate, "Unknown tool").

(** ** The splitter *)

(** Characters of a simple word. *)
Definition word_char (c : ascii) : bool := negb (str_elem c shell_meta) && negb (is_blank c).
Definition word_chars (w : string) : bool := negb (str_existsb (λ c, negb (word_char c)) w).
Definition simple_word (w : string) : Prop := w ≠ "" ∧ word_chars w = true.

Fixpoint unblank (s : string) : string :=
  match s with
  | "" => ""
  | String c s' => if is_blank c then unblank s' else String c (unblank s')
  end.

Lemma word_chars_app a b : word_chars (a +:+ b) = word_chars a && word_chars b.
Proof.
  unfold word_chars. induction a as [|c a IH]; [done|].
  cbn -[word_char]. destruct (word_char c); [exact IH|done].
Qed.

Lemma str_snoc_ne s c : s +:+ String c "" ≠ "".
Proof. by destruct s. Qed.

Lemma join_snoc_words l c : str_join "" (l ++ [c]) = str_join "" l +:+ c.
Proof.
  induction l as [|w l IH]; [done|]. destruct l as [|w' l]; [done|].
  change (str_join "" ((w :: w' :: l) ++ [c])) with (w +:+ ("" +:+ str_join "" ((w' :: l) ++ [c]))).
  rewrite IH. change ("" +:+ ?x) with x. by rewrite str_app_assoc.
Qed.

Lemma split_simple_spec s current words out :
  word_chars current = true → Forall simple_word words →
  split_simple s current words = Some out →
  str_existsb (λ c, str_elem c shell_meta) s = false ∧ Forall simple_word out ∧
  str_join "" out = str_join "" words +:+ current +:+ unblank s.
Proof.
  assert (Hflush : ∀ current words, word_chars current = true → Forall simple_word words →
    let out := if String.eqb current "" then words else words ++ [current] in
    Forall simple_word out ∧ str_join "" out = str_join "" words +:+ current).
  { intros cur ws Hc Hw. simpl. destruct (String.eqb_spec cur "") as [->|Hne].
    - by rewrite str_app_nil_r.
    - split; [|apply join_snoc_words]. apply Forall_app. split; [done|].
      constructor; [done|constructor]. }
  revert current words. induction s as [|c s IH]; intros current words Hc Hw;
    cbn -[str_elem shell_meta is_blank].
  - intros [= <-]. rewrite str_app_nil_r. split; [done|]. by apply Hflush.
  - destruct (str_elem c shell_meta) eqn:Hm; [done|]. destruct (is_blank c) eqn:Hb.
    + destruct (Hflush _ _ Hc Hw) as [Hf Hj].
      intros Hs. apply IH in Hs as (H1 & H2 & H3); [|done|exact Hf].
      split_and!; [done|done|]. rewrite H3, Hj. by rewrite <- str_app_assoc.
    + intros Hs. apply IH in Hs as (H1 & H2 & H3); [| |done].
      * split_and!; [done|done|]. rewrite H3, <- str_app_assoc. done.
      * rewrite word_chars_app, Hc. unfold word_chars, word_char.
        cbn -[str_elem shell_meta is_blank]. by rewrite Hm, Hb.
Qed.

Lemma split_simple_word w s current words :
  word_chars w = true →
  split_simple (w +:+ s) current words = split_simple s (current +:+ w) words.
Proof.
  revert current. induction w as [|c w IH]; intros current Hw; [by rewrite str_app_nil_r|].
  unfold word_chars, word_char in Hw. cbn -[str_elem shell_meta is_blank] in *.
  destruct (str_elem c shell_meta); [done|]. destruct (is_blank c); [done|].
  rewrite IH by exact Hw. by rewrite <- str_app_assoc.
Qed.

Lemma split_simple_join ws words :
  Forall simple_word ws → split_simple (str_join " " ws) "" words = Some (words ++ ws).
Proof.
  revert words. induction ws as [|w ws IH]; intros words Hf.
  { simpl. by rewrite app_nil_r. }
  inversion Hf as [|? ? [Hne Hw] Hf']; subst. destruct ws as [|w' ws].
  - change (str_join " " [w]) with w. rewrite <- (str_app_nil_r w) at 1.
    rewrite split_simple_word by done. cbn [split_simple String.append].
    by rewrite (proj2 (String.eqb_neq w "")).
  - change (str_join " " (w :: w' :: ws)) with (w +:+ String " " (str_join " " (w' :: ws))).
    rewrite split_simple_word by done. cbn -[str_join].
    rewrite (proj2 (String.eqb_neq w "")) by done. rewrite IH by done.
    by rewrite <- (assoc_L app).
Qed.

(** ** Properties *)

(** Splitting and joining simple commands are inverse.  A list of words
    free of blanks and shell metacharacters is read back from its text, and when
    a command splits at all, its words are of that kind, contain every non-blank
    byte of it in order, and joining them with spaces splits to the same words. *)
Theorem splitSimpleShellCommand_roundtrip :
  (∀ ws, Forall simple_word ws → splitSimpleShellCommand (str_join " " ws) = Some ws) ∧
  (∀ command, splitSimpleShellCommand command = None ↔
     str_existsb (λ c, str_elem c shell_meta) command = true) ∧
  (∀ command ws, splitSimpleShellCommand command = Some ws →
     Forall simple_word ws ∧ str_join "" ws = unblank command ∧
     splitSimpleShellCommand (str_join " " ws) = Some ws).
Proof.
  assert (Hj : ∀ ws, Forall simple_word ws → splitSimpleShellCommand (str_join " " ws) = Some ws)
    by (intros; by apply (split_simple_join ws [])).
  split_and!; [done| |].
  - intros command. unfold splitSimpleShellCommand. split.
    + generalize (@nil string), "". induction command as [|c s IH]; intros words cur;
        cbn -[str_elem shell_meta is_blank]; [done|].
      destruct (str_elem c shell_meta); [done|]. case_match; apply IH.
    + destruct (split_simple command "" []) eqn:Hs; [|done].
      apply split_simple_spec in Hs as [-> _]; done.
  - intros command ws Hs. apply split_simple_spec in Hs as (_ & Hf & Hc); [|done|constructor].
    auto.
Qed.

Lemma git_read_only_iff command args :
  Kind (classifyGitInvocation command args) = CommandEffectReadOnly ↔
  existsb (λ a, String.eqb a "--output" || has_prefix a "--output=") args = false ∧
  dangerousGitInvocation (to_lower (trim_space command)) args = false ∧
  mutatingGitInvocation (to_lower (trim_space command)) args = false.
Proof.
  unfold classifyGitInvocation. destruct (existsb _ args); [simpl; naive_solver|].
  destruct (dangerousGitInvocation _ args); [simpl; naive_solver|].
  destruct (mutatingGitInvocation _ args); simpl; [|naive_solver].
  destruct (knownMutatingGitCommand _); simpl; naive_solver.
Qed.

(** The catalog of read-only git invocations. *)
Inductive git_reads : string → list string → Prop :=
| git_reads_command c argv : c ∈ git_read_only_commands → git_reads c argv
| git_reads_branch argv :
    argv = [] ∨ ((∃ a, a ∈ argv ∧ git_branch_listing_flag (to_lower a) = true) ∧
                 ∀ a, a ∈ argv → to_lower a ∉ git_branch_mutating_flags) →
    git_reads "branch" argv
| git_reads_stash a argv : to_lower a = "list" ∨ to_lower a = "show" → git_reads "stash" (a :: argv)
| git_reads_remote argv :
    argv = [] ∨ argv = ["-v"] ∨ argv = ["--verbose"] ∨
    (∃ a l, argv = a :: l ∧ (to_lower a = "show" ∨ to_lower a = "get-url")) →
    git_reads "remote" argv
| git_reads_tag argv :
    argv = [] ∨ ((∃ a l, argv = a :: l ∧ git_tag_listing_flag (to_lower a) = true) ∧
                 ∀ a, a ∈ argv → to_lower a ∉ git_tag_mutating_flags) →
    git_reads "tag" argv.

Lemma one_of_spec x l : one_of x l = true ↔ x ∈ l.
Proof.
  unfold tool_in. rewrite existsb_exists, list_elem_of_In. split.
  - intros (y & Hy & ->%String.eqb_eq). done.
  - intros Hx. exists x. by rewrite String.eqb_refl.
Qed.
Lemma one_of_false x l : one_of x l = false ↔ x ∉ l.
Proof. rewrite <- one_of_spec. by destruct (one_of x l). Qed.

Lemma existsb_false_elem {A} (f : A → bool) l :
  existsb f l = false → ∀ a, a ∈ l → f a = false.
Proof.
  intros He a Ha. destruct (f a) eqn:Hf; [|done]. exfalso.
  assert (existsb f l = true); [|congruence]. apply existsb_exists. exists a.
  by rewrite <- list_elem_of_In.
Qed.

Lemma existsb_true_elem {A} (f : A → bool) l :
  existsb f l = true → ∃ a, a ∈ l ∧ f a = true.
Proof. intros (a & Ha & Hf)%existsb_exists. exists a. by rewrite list_elem_of_In. Qed.

Lemma mutating_false_reads command argv :
  mutatingGitInvocation command argv = false → git_reads command argv.
Proof.
  unfold mutatingGitInvocation.
  destruct (one_of command _) eqn:H1; [intros _; by apply git_reads_command, one_of_spec|].
  destruct (String.eqb_spec command "branch") as [->|].
  { intros Hb. apply git_reads_branch. unfold mutatingGitBranch in Hb.
    destruct argv as [|a l]; [by left|]. right.
    destruct (existsb _ (a :: l)) eqn:Hm; [done|].
    destruct (existsb (λ a, git_branch_listing_flag _) _) eqn:Hl; [|done].
    split; [by apply existsb_true_elem in Hl|].
    intros x Hx. apply one_of_false. by apply (existsb_false_elem _ _ Hm). }
  destruct (String.eqb_spec command "stash") as [->|].
  { destruct argv as [|a l]; [done|]. intros [Ha|Ha]%andb_false_iff; apply git_reads_stash;
      apply negb_false_iff, String.eqb_eq in Ha; auto. }
  destruct (String.eqb_spec command "remote") as [->|].
  { intros Hr. apply git_reads_remote. destruct argv as [|a l]; [by left|]. right.
    destruct (match l with [] => _ | _ => _ end) eqn:Hv.
    - destruct l; [|done]. apply orb_true_iff in Hv as [Hv|Hv]; apply String.eqb_eq in Hv; subst a; auto.
    - right; right. exists a, l. split; [done|].
      apply andb_false_iff in Hr as [Ha|Ha]; apply negb_false_iff, String.eqb_eq in Ha; auto. }
  destruct (String.eqb_spec command "tag") as [->|]; [|done].
  intros Ht. apply git_reads_tag. unfold mutatingGitTag in Ht.
  destruct argv as [|a l]; [by left|]. right.
  destruct (existsb _ (a :: l)) eqn:Hm; [done|]. apply negb_false_iff in Ht.
  split; [eauto|]. intros x Hx. apply one_of_false. by apply (existsb_false_elem _ _ Hm).
Qed.

(** C11: the commands the classifier lets through as read-only.  A Bash command is
    classified read-only only when it has no quoting, expansion, separator,
    redirection, grouping, comment or newline, its first word is a bare name (no
    assignment, no path), and that name is in the read-only catalog, or is [find]
    without an action that deletes, runs or writes, or is [git] with an invocation
    of the read-only git catalog, without [--output] and without a force flag. *)
Theorem read_only_bash_sound command :
  Kind (classifyBashCommandEffect command) = CommandEffectReadOnly →
  str_existsb (λ c, str_elem c shell_meta) command = false ∧
  ∃ w0 ws, splitSimpleShellCommand command = Some (w0 :: ws) ∧
    contains w0 "=" = false ∧ contains_any (to_lower w0) path_qualifiers = false ∧
    let args := map to_lower ws in
    (to_lower w0 ∈ read_only_commands ∨
     (to_lower w0 = "find" ∧ ∀ a, a ∈ args → a ∉ find_effects) ∨
     (to_lower w0 = "git" ∧ ∃ sub rest, args = sub :: rest ∧
        git_reads (to_lower (trim_space sub)) rest ∧
        (∀ a, a ∈ rest → a ≠ "--output" ∧ has_prefix a "--output=" = false ∧
                         has_prefix (to_lower a) "--force" = false))).
Proof.
  unfold classifyBashCommandEffect.
  destruct (splitSimpleShellCommand command) as [[|w0 ws]|] eqn:Hs; [done| |done].
  destruct (contains w0 "=") eqn:Heq; [done|].
  destruct (contains_any (to_lower w0) path_qualifiers) eqn:Hq; [done|].
  intros Hk. split; [by eapply split_simple_spec; [| |exact Hs]|].
  exists w0, ws. split_and!; auto. cbn zeta. revert Hk. unfold classify_words.
  destruct (String.eqb_spec (to_lower w0) "git") as [Hg|].
  { right; right. split; [done|]. destruct (map to_lower ws) as [|sub rest]; [done|].
    apply git_read_only_iff in Hk as (Ho & Hd & Hm). exists sub, rest.
    split_and!; [done|by apply mutating_false_reads|]. intros a Ha.
    apply (existsb_false_elem _ _ Ho) in Ha as Hao. apply orb_false_iff in Hao as [Ho1 Ho2].
    apply orb_false_iff in Hd as [Hd _]. apply (existsb_false_elem _ _ Hd) in Ha as Had.
    apply orb_false_iff in Had as [Hf _]. apply String.eqb_neq in Ho1. done. }
  destruct (String.eqb_spec (to_lower w0) "find") as [Hf|].
  { destruct (existsb _ _) eqn:He; [done|]. intros _. right; left. split; [done|].
    intros a Ha. apply one_of_false. by apply (existsb_false_elem _ _ He). }
  destruct (one_of (to_lower w0) read_only_commands) eqn:Hr;
    [intros _; left; by apply one_of_spec|].
  repeat case_match; done.
Qed.

Lemma read_only_bash_sound_witness :
  ∃ w0 ws, splitSimpleShellCommand "grep -rn TODO src" = Some (w0 :: ws) ∧
    contains_any (to_lower w0) path_qualifiers = false.
Proof.
  destruct (read_only_bash_sound "grep -rn TODO src" eq_refl) as (_ & w0 & ws & Hs & _ & Hq & _).
  exists w0, ws. split; [exact Hs|exact Hq].
Defined.

(** The option is compared after lower-casing, so the upper-case spelling in the
    code never matches, and a forced kill of process 1 by name is not destructive. *)
Theorem kill_KILL_not_destructive :
  Kind (classifyBashCommandEffect "kill -9 1") = CommandEffectDestructive ∧
  Kind (classifyBashCommandEffect "kill -KILL 1") = CommandEffectMutating.
Proof. split; reflexivity. Qed.

(** The two flags are looked for in one argument only. *)
Theorem rm_split_flags_not_destructive :
  Kind (classifyBashCommandEffect "rm -rf build") = CommandEffectDestructive ∧
  Kind (classifyBashCommandEffect "rm -r -f build") = CommandEffectMutating.
Proof. split; reflexivity. Qed.
