(* ===== verification/Permission.v ===== *)
(** * Permission decisions: [internal/hooks/permissions.go] and
    [internal/agent/permission.go]

    [hooks] captures allow and deny rules from a cascade of settings files and
    answers [allow], [deny] or [ask] for a call; [ResolvePermissionWithPolicy]
    combines that answer with the hard command and path checks, the run's
    execution policy and the automatic-approval threshold. *)

From S2P Require Export ExecutionPolicy CommandEffect.

Local Open Scope string_scope.
Local Open Scope list_scope.

(** ** Rules of [hooks] *)

Record PermissionRule := { Tool : string; Pattern : string; RuleSource : string }.

Record PermissionSnapshot := {
  AllowRules : list PermissionRule;
  DenyRules : list PermissionRule;
  PMode : string;
  DenialCounts : gmap string Z;
}.

Definition matchRule (rule : PermissionRule) (toolName input : string) : bool :=
  if negb (String.eqb (Tool rule) "*") && negb (String.eqb (Tool rule) toolName) then false
  else if negb (String.eqb (Pattern rule) "") && negb (contains input (Pattern rule)) then false
  else true.

Definition Decide (ps : PermissionSnapshot) (toolName input : string) : string :=
  if String.eqb (PMode ps) "bypassPermissions" then "allow"
  else if String.eqb (PMode ps) "dontAsk" then "deny"
  else if String.eqb (PMode ps) "acceptEdits"
          && (String.eqb toolName "Write" || String.eqb toolName "Edit") then "allow"
  else if existsb (λ r, matchRule r toolName input) (DenyRules ps) then "deny"
  else if existsb (λ r, matchRule r toolName input) (AllowRules ps) then "allow"
  else "ask".

(** The [permissions] object of a settings file; the rules carry no source. *)
Record SettingsPermissions := {
  spAllow : list (string * string);
  spDeny : list (string * string);
  spMode : string;
}.

(** [loadPermissionRules]; [None] is a file that cannot be read or parsed. *)
Definition loadPermissionRules (source : string) (settings : option SettingsPermissions)
    (snap : PermissionSnapshot) : PermissionSnapshot :=
  match settings with
  | None => snap
  | Some s =>
      let rule tp := {| Tool := tp.1; Pattern := tp.2; RuleSource := source |} in
      {| AllowRules := AllowRules snap ++ map rule (spAllow s);
         DenyRules := DenyRules snap ++ map rule (spDeny s);
         PMode := if String.eqb (spMode s) "" then PMode snap else spMode s;
         DenialCounts := DenialCounts snap |}
  end.

(** [CapturePermissions]; the four files are read in this order. *)
Definition CapturePermissions (project user loc policy : option SettingsPermissions)
  : PermissionSnapshot :=
  let default_rule t := {| Tool := t; Pattern := ""; RuleSource := "default" |} in
  loadPermissionRules "policy" policy
    (loadPermissionRules "local" loc
      (loadPermissionRules "user" user
        (loadPermissionRules "project" project
          {| AllowRules := map default_rule ["Read"; "Glob"; "Grep"]; DenyRules := [];
             PMode := "default"; DenialCounts := ∅ |}))).

(** [TrackDenial]: the new count, and whether a deny rule is persisted. *)
Definition TrackDenial (toolName : string) (ps : PermissionSnapshot)
  : PermissionSnapshot * (Z * bool) :=
  let count := wrap64 (default 0%Z (DenialCounts ps !! toolName) + 1) in
  ({| AllowRules := AllowRules ps; DenyRules := DenyRules ps; PMode := PMode ps;
      DenialCounts := <[toolName := count]> (DenialCounts ps) |}, (count, (3 <=? count)%Z)).

Definition ResetDenial (toolName : string) (ps : PermissionSnapshot) : PermissionSnapshot :=
  {| AllowRules := AllowRules ps; DenyRules := DenyRules ps; PMode := PMode ps;
     DenialCounts := delete toolName (DenialCounts ps) |}.

(** ** Decisions of the dispatcher *)

Inductive PermissionDecision := PermissionAllow | PermissionDeny | PermissionApproval.

#[export] Instance PermissionDecision_eq_dec : EqDecision PermissionDecision.
Proof. solve_decision. Defined.

Record PermissionResult := {
  PDecision : PermissionDecision;
  PReason : string;
  PDanger : DangerLevel;
}.

Section Permission.
Context (os : OS).
(** The text of a path error. *)
Context (path_message : PathError → string).

(** The loop over [cfg.BlockedCommands]. *)
Fixpoint blocked_command (command : string) (blocked : list string) : option string :=
  match blocked with
  | [] => None
  | b :: rest => if contains (to_lower command) (to_lower b) then Some b
                 else blocked_command command rest
  end.

(** [CheckPermission]: allowed, reason, level. *)
Definition CheckPermission (toolName : string) (input : RawMessage) (workDir : string)
    (cfg : PermissionConfig) : bool * string * DangerLevel :=
  let tool := canonicalPermissionToolName toolName in
  let '(level, reason) := ClassifyDanger tool input in
  match (if String.eqb tool "Bash"
         then blocked_command (struct_string_field "command" input) (BlockedCommands cfg)
         else None) with
  | Some b => (false, "Blocked command: " +:+ b, DangerDangerous)
  | None =>
      match checkToolWorkspacePaths os tool input workDir cfg with
      | Err e => (false, path_message e, DangerDangerous)
      | Ok _ =>
          if String.eqb (AutoApprove cfg) "all" then (true, "", level)
          else if String.eqb (AutoApprove cfg) "none"
          then (false, "Manual approval required", level)
          else if String.eqb (AutoApprove cfg) "moderate" then
            if bool_decide (level = DangerDangerous) || bool_decide (level = DangerUnknown)
            then (false, reason, level) else (true, "", level)
          else if negb (bool_decide (level = DangerSafe)) then (false, reason, level)
          else (true, "", level)
      end
  end.

Definition full_mode (policy : option Snapshot) : bool :=
  match policy with Some p => String.eqb (SMode p) ModeFull | None => false end.

Definition requiresWorkspaceProcessApproval (toolName : string) (policy : option Snapshot)
  : bool :=
  match policy with
  | None => false
  | Some p =>
      if negb (String.eqb (SMode p) ModeWorkspace)
         || FilesystemIsolation (RuntimeCapabilities p) then false
      else tool_in (canonicalPermissionToolName toolName) ["Bash"; "Git"]
  end.

Definition hard_config (cfg : PermissionConfig) (policy : option Snapshot) : PermissionConfig :=
  {| AutoApprove := "all"; BlockedPaths := BlockedPaths cfg;
     BlockedCommands := BlockedCommands cfg; AllowExternalPaths := full_mode policy |}.

Definition ResolvePermissionWithPolicy (toolName : string) (input : RawMessage)
    (workDir : string) (cfg : PermissionConfig) (snapshotDecision : string)
    (policy : option Snapshot) : PermissionResult :=
  let '(hardAllowed, hardReason, danger) :=
    CheckPermission toolName input workDir (hard_config cfg policy) in
  if negb hardAllowed then Build_PermissionResult PermissionDeny hardReason danger
  else if String.eqb snapshotDecision "deny"
  then Build_PermissionResult PermissionDeny "Denied by permission rule" danger
  else if String.eqb snapshotDecision "allow"
  then Build_PermissionResult PermissionAllow "" danger
  else if full_mode policy then Build_PermissionResult PermissionAllow "" danger
  else if requiresWorkspaceProcessApproval toolName policy
  then Build_PermissionResult PermissionApproval
    "Workspace process isolation is unavailable; approve this host command explicitly" danger
  else
    let '(autoAllowed, autoReason, _) := CheckPermission toolName input workDir cfg in
    if autoAllowed then Build_PermissionResult PermissionAllow "" danger
    else Build_PermissionResult PermissionApproval
           (if String.eqb (trim_space autoReason) "" then "Explicit approval required"
            else autoReason) danger.

Definition ResolvePermission (toolName : string) (input : RawMessage) (workDir : string)
    (cfg : PermissionConfig) (snapshotDecision : string) : PermissionResult :=
  ResolvePermissionWithPolicy toolName input workDir cfg snapshotDecision None.

(** ** Specification of the decision *)

(** The checks no rule and no mode overrides. *)
Definition hard_refused (toolName : string) (input : RawMessage) (workDir : string)
    (cfg : PermissionConfig) : Prop :=
  let tool := canonicalPermissionToolName toolName in
  (tool = "Bash" ∧ ∃ b, b ∈ BlockedCommands cfg ∧
     contains (to_lower (struct_string_field "command" input)) (to_lower b) = true) ∨
  (∃ e, checkToolWorkspacePaths os tool input workDir cfg = Err e).

(** The threshold of [AutoApprove]. *)
Definition auto_approves (setting : string) (level : DangerLevel) : bool :=
  if String.eqb setting "all" then true
  else if String.eqb setting "none" then false
  else if String.eqb setting "moderate"
  then match level with DangerSafe | DangerModerate => true | _ => false end
  else match level with DangerSafe => true | _ => false end.

Lemma blocked_command_spec command blocked :
  (∃ b, blocked_command command blocked = Some b) ↔
  ∃ b, b ∈ blocked ∧ contains (to_lower command) (to_lower b) = true.
Proof.
  induction blocked as [|x l IH]; simpl.
  - split; [by intros [b ?]|intros (b & []%not_elem_of_nil & _)].
  - destruct (contains (to_lower command) (to_lower x)) eqn:Hc.
    + split; [intros _; exists x; split; [by apply elem_of_cons; left|done]|by eexists].
    + rewrite IH. split; intros (b & Hb & Hbc); exists b; split; auto.
      * apply elem_of_cons; by right.
      * apply elem_of_cons in Hb as [->|?]; [congruence|done].
Qed.

Lemma CheckPermission_spec toolName input workDir cfg :
  (CheckPermission toolName input workDir cfg).1.1 = true ↔
  ¬ hard_refused toolName input workDir cfg ∧
  auto_approves (AutoApprove cfg) (ClassifyDanger (canonicalPermissionToolName toolName) input).1 = true.
Proof.
  unfold CheckPermission, hard_refused.
  set (tool := canonicalPermissionToolName toolName).
  pose proof (blocked_command_spec (struct_string_field "command" input) (BlockedCommands cfg)) as Hb.
  destruct (ClassifyDanger tool input) as [level reason]. simpl.
  destruct (String.eqb_spec tool "Bash") as [Ht|Ht].
  - destruct (blocked_command _ _) as [b|] eqn:Hbc.
    + split; [done|]. intros [[] _]. left. split; [done|]. apply Hb. by exists b.
    + destruct (checkToolWorkspacePaths os tool input workDir cfg) as [u|e] eqn:Hp; simpl.
      * assert (Hn : ¬ (tool = "Bash" ∧ ∃ b, b ∈ BlockedCommands cfg ∧
          contains (to_lower (struct_string_field "command" input)) (to_lower b) = true ∨
          ∃ e, Ok u = Err e)) by naive_solver.
        unfold auto_approves. repeat case_match; naive_solver.
      * split; [done|]. intros [[] _]. right. by exists e.
  - destruct (checkToolWorkspacePaths os tool input workDir cfg) as [u|e] eqn:Hp; simpl.
    + unfold auto_approves. repeat case_match; naive_solver.
    + split; [done|]. intros [[] _]. right. by exists e.
Qed.
End Permission.

Lemma CheckPermission_hard os msg toolName input workDir cfg policy :
  (CheckPermission os msg toolName input workDir (hard_config cfg policy)).1.1 = true ↔
  ¬ hard_refused os toolName input workDir (hard_config cfg policy).
Proof. rewrite CheckPermission_spec. simpl. naive_solver. Qed.

Lemma unmarshal_struct_string k o s :
  last_member k o = Some (JString s) → NoDup (map (λ kv, fold_case kv.1) o) →
  struct_string_field k (Some (JObject o)) = s.
Proof.
  intros Hl Hnd. unfold struct_string_field. generalize "". revert Hl Hnd.
  induction o as [|[k' v] o IH]; simpl; [done|]. intros Hl [Hn Hnd]%list.NoDup_cons acc.
  destruct (last_member k o) as [w|] eqn:Hlo.
  - simplify_eq. by apply IH.
  - destruct (String.eqb_spec k k') as [<-|]; [|done]. simplify_eq.
    unfold equal_fold at 2. rewrite String.eqb_refl.
    assert (Hf : ∀ l a, fold_case k ∉ map (λ kv, fold_case kv.1) l →
      fold_left (λ acc (kv : string * json), if equal_fold kv.1 k
        then match kv.2 with JString s => s | _ => acc end else acc) l a = a).
    { induction l as [|[k1 v1] l IHl]; intros a; simpl; [done|].
      intros [H1 H2]%not_elem_of_cons. unfold equal_fold at 2.
      rewrite (proj2 (String.eqb_neq (fold_case k1) (fold_case k))) by congruence. by apply IHl. }
    by apply Hf.
Qed.

(** ** Properties *)

(** C9: the complete decision table of the dispatcher.  A call is denied exactly
    when a hard check fails (a blocked Bash command, or a path the workspace policy
    refuses; full mode only lifts the containment of paths) or the captured rules
    deny it, so no mode, rule or threshold overrides either.  Otherwise it is
    allowed exactly when a rule allows it, or the run is in full mode, or it needs
    no process isolation it does not have and the automatic threshold covers its
    danger level under the run's own checks.  Everything else asks for approval. *)
Theorem permission_decision_table os msg toolName input workDir cfg sd policy :
  let d := PDecision (ResolvePermissionWithPolicy os msg toolName input workDir cfg sd policy) in
  let refused := hard_refused os toolName input workDir (hard_config cfg policy) in
  (d = PermissionDeny ↔ refused ∨ sd = "deny") ∧
  (d = PermissionAllow ↔
     ¬ refused ∧ sd ≠ "deny" ∧
     (sd = "allow" ∨ full_mode policy = true ∨
      (requiresWorkspaceProcessApproval toolName policy = false ∧
       ¬ hard_refused os toolName input workDir cfg ∧
       auto_approves (AutoApprove cfg)
         (ClassifyDanger (canonicalPermissionToolName toolName) input).1 = true))).
Proof.
  cbn zeta. unfold ResolvePermissionWithPolicy.
  pose proof (CheckPermission_hard os msg toolName input workDir cfg policy) as Hh.
  pose proof (CheckPermission_spec os msg toolName input workDir cfg) as Ha.
  destruct (CheckPermission _ _ _ _ _ (hard_config cfg policy)) as [[hok hr] danger].
  destruct (CheckPermission _ _ _ _ _ cfg) as [[aok ar] lv]. simpl in Hh, Ha.
  destruct hok; simpl.
  2:{ assert (Hr : ¬ ¬ hard_refused os toolName input workDir (hard_config cfg policy))
        by naive_solver.
      assert (Hd : hard_refused os toolName input workDir (hard_config cfg policy)
                   ∨ ¬ hard_refused os toolName input workDir (hard_config cfg policy)).
      { unfold hard_refused. set (tool := canonicalPermissionToolName toolName).
        destruct (decide (tool = "Bash")) as [Ht|Ht];
          [destruct (blocked_command (struct_string_field "command" input)
            (BlockedCommands (hard_config cfg policy))) as [b|] eqn:Hb|];
          destruct (checkToolWorkspacePaths os tool input workDir (hard_config cfg policy)) eqn:Hp;
          try (left; right; by eexists).
        - left; left. split; [done|]. apply blocked_command_spec. by exists b.
        - right. intros [[_ Hx]|[? ?]]; [|done]. apply blocked_command_spec in Hx as [? ?]. congruence.
        - right. intros [[? _]|[? ?]]; done. }
      naive_solver. }
  assert (Hn : ¬ hard_refused os toolName input workDir (hard_config cfg policy)) by naive_solver.
  destruct (String.eqb_spec sd "deny"); simpl; [naive_solver|].
  destruct (String.eqb_spec sd "allow"); simpl; [naive_solver|].
  destruct (full_mode policy) eqn:Hf; simpl; [naive_solver|].
  destruct (requiresWorkspaceProcessApproval toolName policy) eqn:Hq; simpl; [naive_solver|].
  destruct aok; simpl; naive_solver.
Qed.

(** Nothing unread-only runs unattended.  Outside full mode, with the default
    threshold (anything but [all] and [moderate]) and no allow rule, a Bash call
    that is allowed has a string command that the classifier proves read-only,
    matches no blocked command, and, in a workspace run, executes under filesystem
    isolation.  When no two member names of the input are equal up to case, that
    command is also the one the executor's decoder reads. *)
Theorem unattended_bash_is_read_only os msg input workDir cfg sd policy :
  PDecision (ResolvePermissionWithPolicy os msg "Bash" input workDir cfg sd policy)
    = PermissionAllow →
  sd ≠ "allow" → full_mode policy = false →
  AutoApprove cfg ≠ "all" → AutoApprove cfg ≠ "moderate" →
  ∃ object command,
    input = Some (JObject object) ∧ last_member "command" object = Some (JString command) ∧
    Kind (classifyBashCommandEffect command) = CommandEffectReadOnly ∧
    (∀ b, b ∈ BlockedCommands cfg →
       contains (to_lower (struct_string_field "command" input)) (to_lower b) = false) ∧
    (∀ p, policy = Some p → SMode p = ModeWorkspace →
       FilesystemIsolation (RuntimeCapabilities p) = true) ∧
    (NoDup (map (λ kv, fold_case kv.1) object) → struct_string_field "command" input = command).
Proof.
  intros Hd Hsd Hfull Hall Hmod. revert Hd. unfold ResolvePermissionWithPolicy.
  pose proof (CheckPermission_spec os msg "Bash" input workDir cfg) as Ha.
  destruct (CheckPermission _ _ _ _ _ (hard_config cfg policy)) as [[hok hr] danger].
  destruct (CheckPermission _ _ _ _ _ cfg) as [[aok ar] lv]. simpl in Ha.
  destruct hok; simpl; [|done].
  destruct (String.eqb_spec sd "deny"); simpl; [done|].
  destruct (String.eqb_spec sd "allow"); simpl; [done|]. rewrite Hfull.
  destruct (requiresWorkspaceProcessApproval "Bash" policy) eqn:Hq; simpl; [done|].
  destruct aok; [|done]. intros _. destruct (proj1 Ha eq_refl) as [Hh Hl].
  unfold auto_approves in Hl. apply String.eqb_neq in Hall, Hmod.
  rewrite Hall, Hmod in Hl. destruct (String.eqb (AutoApprove cfg) "none"); [done|].
  unfold ClassifyDanger in Hl. simpl in Hl.
  destruct input as [[| | | | |o]|]; try done. simpl in Hl.
  unfold classifyCommandEffect, string_member in Hl. simpl in Hl.
  destruct (last_member "command" o) as [[| | |c| |]|] eqn:Hc; try done.
  exists o, c. split_and!; auto.
  - unfold dangerForCommandEffect in Hl. by destruct (Kind _).
  - intros b Hb. destruct (contains _ _) eqn:Hcb; [|done]. destruct Hh. left.
    split; [done|]. by exists b.
  - intros p -> Hm. unfold requiresWorkspaceProcessApproval in Hq. rewrite Hm in Hq.
    simpl in Hq. by destruct (FilesystemIsolation _).
  - intros Hnd. by apply unmarshal_struct_string.
Qed.

(** The executor decodes into a struct, whose field matches member names up to
    case, while the classifier looks the exact name up in a map: one input can be
    approved as read-only and run another command. *)
Theorem executed_command_not_the_classified_one os msg workDir :
  let input := Some (JObject [("command", JString "ls"); ("Command", JString "touch owned")]) in
  PDecision (ResolvePermissionWithPolicy os msg "Bash" input workDir DefaultPermissionConfig "ask" None)
    = PermissionAllow ∧
  struct_string_field "command" input = "touch owned" ∧
  Kind (classifyBashCommandEffect "touch owned") = CommandEffectMutating.
Proof. split_and!; reflexivity. Qed.

(** *** The rules *)

Lemma Decide_deny ps toolName input r :
  r ∈ DenyRules ps → matchRule r toolName input = true →
  Decide ps toolName input =
    if String.eqb (PMode ps) "bypassPermissions" then "allow"
    else if String.eqb (PMode ps) "dontAsk" then "deny"
    else if String.eqb (PMode ps) "acceptEdits"
            && (String.eqb toolName "Write" || String.eqb toolName "Edit") then "allow"
    else "deny".
Proof.
  intros Hr Hm. unfold Decide.
  assert (existsb (λ r, matchRule r toolName input) (DenyRules ps) = true) as ->; [|done].
  apply existsb_exists. exists r. by rewrite <- list_elem_of_In.
Qed.

Lemma load_deny source settings snap r :
  r ∈ DenyRules snap → r ∈ DenyRules (loadPermissionRules source settings snap).
Proof. destruct settings; simpl; [|done]. intros. apply elem_of_app; by left. Qed.

Lemma load_deny_new source settings s snap t p :
  settings = Some s → (t, p) ∈ spDeny s →
  ∃ r, r ∈ DenyRules (loadPermissionRules source settings snap) ∧ Tool r = t ∧ Pattern r = p.
Proof.
  intros -> Hin. simpl. exists {| Tool := t; Pattern := p; RuleSource := source |}.
  split; [|by split]. apply elem_of_app; right.
  apply list_elem_of_In, in_map_iff. exists (t, p). split; [done|]. by apply list_elem_of_In.
Qed.

(** The mode that wins: the last file of the cascade that sets one. *)
Definition cascade_mode (files : list (option SettingsPermissions)) : string :=
  fold_left (λ m f, match f with
                    | Some s => if String.eqb (spMode s) "" then m else spMode s
                    | None => m end) files "default".

Lemma capture_mode a b c d : PMode (CapturePermissions a b c d) = cascade_mode [a; b; c; d].
Proof. destruct a, b, c, d; reflexivity. Qed.

(** A deny rule of any settings file is effective whatever the other files
    allow.  If one of the four files of the cascade denies a matching call, the
    captured snapshot answers deny, unless the last file that sets a mode sets
    [bypassPermissions], or sets [acceptEdits] and the call is an edit.  And with no
    such rule and the default mode, the answer is allow exactly when some rule,
    built-in ones included, allows the call. *)
Theorem deny_rules_win project user loc policy toolName input :
  let files := [project; user; loc; policy] in
  let answer := Decide (CapturePermissions project user loc policy) toolName input in
  let denied := ∃ f t p, Some f ∈ files ∧ (t, p) ∈ spDeny f ∧
                  matchRule (Build_PermissionRule t p "") toolName input = true in
  (denied → answer = "deny" ∨
     (answer = "allow" ∧
      (cascade_mode files = "bypassPermissions" ∨
       (cascade_mode files = "acceptEdits" ∧ (toolName = "Write" ∨ toolName = "Edit"))))) ∧
  (¬ denied → cascade_mode files = "default" →
     answer = "allow" ∨ answer = "ask") ∧
  (cascade_mode files = "dontAsk" → answer = "deny").
Proof.
  cbn zeta. rewrite <- capture_mode.
  set (snap := CapturePermissions project user loc policy).
  assert (Hmatch : ∀ r, matchRule (Build_PermissionRule (Tool r) (Pattern r) "") toolName input
                        = matchRule r toolName input) by done.
  split_and!.
  - intros (f & t & p & Hf & Hin & Hm).
    assert (∃ r, r ∈ DenyRules snap ∧ Tool r = t ∧ Pattern r = p) as (r & Hr & <- & <-).
    { unfold snap, CapturePermissions.
      repeat (apply elem_of_cons in Hf as [Hf|Hf]); [| | | |by apply not_elem_of_nil in Hf].
      all: eapply load_deny_new in Hin as (r & Hr & Ht & Hp); [|symmetry; exact Hf].
      all: exists r; split; [|by split]; repeat first [exact Hr|apply load_deny]. }
    rewrite (Decide_deny _ _ _ _ Hr) by done.
    destruct (String.eqb_spec (PMode snap) "bypassPermissions"); [by auto|].
    destruct (String.eqb_spec (PMode snap) "dontAsk"); [by auto|].
    destruct (String.eqb_spec (PMode snap) "acceptEdits"); simpl; [|by auto].
    destruct (String.eqb_spec toolName "Write"); [by auto 10|].
    destruct (String.eqb_spec toolName "Edit"); by auto 10.
  - intros Hn Hmode. unfold Decide. rewrite Hmode. simpl.
    destruct (existsb _ (DenyRules snap)) eqn:He; [|case_match; auto].
    exfalso. apply Hn. apply existsb_true_elem in He as (r & Hr & Hm).
    assert (Hfile : ∃ f, Some f ∈ [project; user; loc; policy] ∧ (Tool r, Pattern r) ∈ spDeny f).
    { revert Hr. unfold snap, CapturePermissions.
      assert (Hload : ∀ source settings base, r ∈ DenyRules (loadPermissionRules source settings base) →
        r ∈ DenyRules base ∨ ∃ f, settings = Some f ∧ (Tool r, Pattern r) ∈ spDeny f).
      { intros source [f|] base; simpl; [|by left]. intros [?|Hx]%elem_of_app; [by left|].
        right. exists f. split; [done|]. apply list_elem_of_In, in_map_iff in Hx as ([t p] & <- & Hx).
        by apply list_elem_of_In. }
      intros Hr. repeat (apply Hload in Hr as [Hr|(f & -> & Hf)]; [|exists f; split; [rewrite !elem_of_cons; tauto|done]]).
      by apply not_elem_of_nil in Hr. }
    destruct Hfile as (f & ? & ?). by exists f, (Tool r), (Pattern r).
  - intros Hmode. unfold Decide. by rewrite Hmode.
Qed.

(** *** Denial counting *)

Inductive denial_event := Denied (tool : string) | Allowed_ (tool : string).

Definition denial_step (e : denial_event) (ps : PermissionSnapshot) : PermissionSnapshot :=
  match e with Denied t => (TrackDenial t ps).1 | Allowed_ t => ResetDenial t ps end.

(** The denials of [t] since it was last allowed, latest event first. *)
Fixpoint consecutive (t : string) (history : list denial_event) : nat :=
  match history with
  | [] => 0
  | Denied t' :: h => if String.eqb t t' then S (consecutive t h) else consecutive t h
  | Allowed_ t' :: h => if String.eqb t t' then 0 else consecutive t h
  end.

Lemma denial_counts_spec ps history t :
  DenialCounts ps = ∅ → (Z.of_nat (length history) < max_int64)%Z →
  default 0%Z (DenialCounts (foldr denial_step ps history) !! t) = Z.of_nat (consecutive t history)
  ∧ (consecutive t history ≤ length history)%nat.
Proof.
  intros H0. induction history as [|[t'|t'] h IH]; cbn [foldr consecutive length].
  - intros _. rewrite H0. done.
  - intros Hl. destruct IH as [IH Hle]; [lia|].
    cbn [denial_step TrackDenial fst DenialCounts].
    destruct (String.eqb_spec t t') as [<-|Hne].
    + rewrite lookup_insert_eq. cbn [default from_option id]. rewrite IH.
      rewrite wrap64_id; [lia|]. unfold max_int64, min_int64 in *. lia.
    + rewrite lookup_insert_ne by done. lia.
  - intros Hl. destruct IH as [IH Hle]; [lia|].
    cbn [denial_step ResetDenial DenialCounts].
    destruct (String.eqb_spec t t') as [<-|Hne].
    + rewrite lookup_delete_eq. split; [done|lia].
    + rewrite lookup_delete_ne by done. lia.
Qed.

(** The denial counter counts consecutive denials.  After any history of
    denials and approvals, a further denial of a tool returns one more than the
    denials it had since its last approval, whatever other tools did, and a deny
    rule is persisted exactly from the third one on. *)
Theorem denial_count_consecutive ps history t :
  DenialCounts ps = ∅ → (Z.of_nat (length history) + 1 < max_int64)%Z →
  (TrackDenial t (foldr denial_step ps history)).2 =
    (Z.of_nat (S (consecutive t history)), bool_decide (3 ≤ S (consecutive t history))%nat).
Proof.
  intros H0 Hl. destruct (denial_counts_spec ps history t H0) as [Hc Hle]; [lia|].
  unfold TrackDenial. cbn [snd]. rewrite Hc, wrap64_id by (unfold max_int64, min_int64 in *; lia).
  f_equal; [lia|]. destruct (Z.leb_spec 3 (Z.of_nat (consecutive t history) + 1)); symmetry;
    [apply bool_decide_eq_true|apply bool_decide_eq_false]; lia.
Qed.

(** ** Witnesses *)

Definition ex_bash (c : string) : RawMessage := Some (JObject [("command", JString c)]).

Lemma unattended_bash_is_read_only_witness :
  ∃ command, last_member "command" [("command", JString "git status")] = Some (JString command) ∧
    Kind (classifyBashCommandEffect command) = CommandEffectReadOnly.
Proof.
  destruct (unattended_bash_is_read_only ex_os (λ _, "") (ex_bash "git status") "/work"
    DefaultPermissionConfig "ask" None) as (o & c & Ho & Hc & Hk & _);
    [reflexivity|done|reflexivity|done|done|].
  injection Ho as <-. exists c. split; [exact Hc|exact Hk].
Defined.

Definition ex_ps : PermissionSnapshot := CapturePermissions None None None None.

Lemma denial_count_consecutive_witness :
  (TrackDenial "Bash" (foldr denial_step ex_ps [Denied "Bash"; Denied "Read"; Denied "Bash"; Allowed_ "Bash"])).2
    = (3%Z, true).
Proof.
  rewrite (denial_count_consecutive ex_ps
    [Denied "Bash"; Denied "Read"; Denied "Bash"; Allowed_ "Bash"] "Bash" eq_refl ltac:(done)).
  reflexivity.
Defined.
