(* ===== verification/Plans.v ===== *)
(** * Revisioned workstream plans: [internal/workstream/plans.go]

    A plan is a file of a workstream.  Every mutation reads and validates it under
    the workstream's lock, checks the caller's expected revisions, applies one
    transition, validates the result and replaces the file atomically.  The model
    is one store of plan files; each operation is a step on it.  The readings of
    [time.Now] and the outcomes of the file writes are arguments.

    A definition is kept as its JSON value with two byte counts: its length as the
    caller sent it, and its length once [json.MarshalIndent] has re-indented it
    into the plan file, which is what a later read finds. *)

From S2P Require Export Json.

Local Open Scope string_scope.
Local Open Scope list_scope.

(** ** Data *)

Definition CurrentPlanVersion : Z := 1.
Definition maxPlanDefinitionBytes : Z := 8 * 2 ^ 20.

Definition PlanStatusDraft : string := "draft".
Definition PlanStatusApproved : string := "approved".
Definition PlanStatusExecuting : string := "executing".
Definition PlanStatusCompleted : string := "completed".
Definition PlanStatusFailed : string := "failed".
Definition PlanStageStatusPending : string := "pending".
Definition PlanStageStatusRunning : string := "running".
Definition PlanStageStatusCompleted : string := "completed".
Definition PlanStageStatusFailed : string := "failed".
Definition PlanStageAttemptRunning : string := "running".
Definition PlanStageAttemptComplete : string := "completed".
Definition PlanStageAttemptFailed : string := "failed".

Record Definition_ := { def_len : Z; def_indented_len : Z; def_value : RawMessage }.

Record PlanAcceptanceEvidence := {
  EvSource : string;
  EvReceiptDigest : string;
  EvCriteriaDigest : string;
  EvVerificationStatus : string;
  EvCompletionStatus : string;
  EvRecordedAt : time;
}.

Record PlanStageAttempt := {
  AtRunID : string;
  AtPlanRevision : Z;
  AtStatus : string;
  AtStartedAt : time;
  AtFinishedAt : time;
  AtVerificationStatus : string;
  AtReceiptDigest : string;
  AtEvidence : option PlanAcceptanceEvidence;
}.

Record PlanStage := { StID : string; StStatus : string; StAttempts : list PlanStageAttempt }.

Record Plan := {
  Version : Z;
  PlID : string;
  WorkstreamID : string;
  PlRevision : Z;
  StateRevision : Z;
  PlStatus : string;
  ApprovedRevision : Z;
  Definition0 : Definition_;
  Stages : list PlanStage;
  CreatedAt : time;
  UpdatedAt : time;
}.

Inductive PlanError :=
| ErrWorkstream | ErrPlanNotFound | ErrPlanInvalid (what : string) | ErrPlanCorrupt
| ErrPlanConflict | ErrPlanRevisionConflict (what : string) | ErrPlanTransition (what : string)
| ErrPlanEvidence (what : string) | ErrPlanWrite | ErrPlanEvent.

(** ** Identifiers: [internal/workstream/paths.go] *)

Definition id_char (c : ascii) : bool :=
  let n := nat_of_ascii c in
  (((97 <=? n) && (n <=? 122)) || ((65 <=? n) && (n <=? 90)) || ((48 <=? n) && (n <=? 57)) ||
   (n =? 95) || (n =? 46) || (n =? 45))%nat.

(** The loop of [sanitizeID].  A rune outside ASCII is a run of bytes that all
    collapse to the one dash. *)
Fixpoint sanitize_loop (s : string) (prevDash : bool) : string :=
  match s with
  | "" => ""
  | String c s' =>
      if id_char c then String c (sanitize_loop s' false)
      else if prevDash then sanitize_loop s' true
      else String "-" (sanitize_loop s' true)
  end.
Definition sanitizeID (s : string) : string :=
  let out := trim_set (sanitize_loop (trim_space s) false) ".-" in
  if String.eqb out "" then "workstream" else out.

Definition id_forbidden : string := byte_str [47; 92; 0; 9; 13; 10].
Definition validPlanID (id : string) : bool :=
  negb (String.eqb id "") && (slen id <=? 256)%Z && String.eqb (trim_space id) id
  && negb (String.eqb id ".") && negb (String.eqb id "..") && String.eqb (sanitizeID id) id
  && negb (contains_any id id_forbidden).
Definition validPlanRunID (id : string) : bool :=
  negb (String.eqb id "") && (slen id <=? 256)%Z && String.eqb (trim_space id) id
  && negb (contains_any id id_forbidden).

(** [hex.DecodeString] succeeds with 32 bytes, and the text is lower case. *)
Definition validDigest (value : string) : bool :=
  hex_ok value && (slen value =? 64)%Z && String.eqb value (to_lower value).

(** ** The definition's stage ids *)

(** Decoding one stage object into the slot [prev] of the slice. *)
Definition decode_stage (prev : string) (v : json) : option string :=
  match v with
  | JNull => Some prev
  | JObject o =>
      fold_left (λ acc kv, id ← acc;
        if equal_fold kv.1 "id" then
          match kv.2 with JString s => Some s | JNull => Some id | _ => None end
        else Some id) o (Some prev)
  | _ => None
  end.

(** Decoding an array into the slice: slots that exist keep their contents until
    a member overwrites them. *)
Fixpoint decode_stage_list (prev : list string) (l : list json) : option (list string) :=
  match l with
  | [] => Some []
  | v :: l' =>
      id ← decode_stage (List.hd "" prev) v;
      ids ← decode_stage_list (List.tl prev) l';
      Some (id :: ids)
  end.

Definition decode_stages (v : json) : option (list string) :=
  match v with
  | JNull => Some []
  | JObject o =>
      fold_left (λ acc kv, ids ← acc;
        if equal_fold kv.1 "stages" then
          match kv.2 with
          | JArray l => decode_stage_list ids l
          | JNull => Some []
          | _ => None
          end
        else Some ids) o (Some [])
  | _ => None
  end.

(** The loop over the decoded stages. *)
Fixpoint check_stage_ids (seen : list string) (ids : list string) : result PlanError unit :=
  match ids with
  | [] => Ok tt
  | id :: ids' =>
      if negb (validPlanID (trim_space id)) || negb (String.eqb (trim_space id) id)
      then Err (ErrPlanInvalid "stage id")
      else if bool_decide (id ∈ seen) then Err (ErrPlanInvalid "duplicate stage id")
      else check_stage_ids (id :: seen) ids'
  end.

Definition planDefinitionStageIDs (d : Definition_) : result PlanError (list string) :=
  if (def_len d =? 0)%Z || (maxPlanDefinitionBytes <? def_len d)%Z
  then Err (ErrPlanInvalid "definition is missing, malformed, or too large") else
  match def_value d with
  | None => Err (ErrPlanInvalid "definition is missing, malformed, or too large")
  | Some v =>
      match decode_stages v with
      | None => Err (ErrPlanInvalid "decode stages")
      | Some ids => _ ← check_stage_ids [] ids; Ok ids
      end
  end.

(** ** Validation of a record *)

Definition hasPlanStageAttempts (stages : list PlanStage) : bool :=
  existsb (λ s, match StAttempts s with [] => false | _ => true end) stages.
Definition planHasRunningStage (stages : list PlanStage) : bool :=
  existsb (λ s, String.eqb (StStatus s) PlanStageStatusRunning) stages.
Definition planHasAnyStageState (stages : list PlanStage) (statuses : list string) : bool :=
  existsb (λ s, existsb (String.eqb (StStatus s)) statuses) stages.

Fixpoint planStageIndex (stages : list PlanStage) (stageID : string) : option nat :=
  match stages with
  | [] => None
  | s :: stages' => if String.eqb (StID s) stageID then Some 0%nat
                    else S <$> planStageIndex stages' stageID
  end.

Definition validAcceptanceEvidence (e : PlanAcceptanceEvidence) : bool :=
  (String.eqb (EvSource e) "agent-receipt" || String.eqb (EvSource e) "team-receipt")
  && validDigest (EvReceiptDigest e) && validDigest (EvCriteriaDigest e)
  && String.eqb (EvVerificationStatus e) "passed" && String.eqb (EvCompletionStatus e) "complete"
  && negb (is_zero (EvRecordedAt e)).

Definition verification_known (v : string) : bool :=
  String.eqb v "" || String.eqb v "passed" || String.eqb v "failed" || String.eqb v "not-run".

(** The [switch attempt.Status] of the attempt loop; [last] is
    [attemptIndex = len(stage.Attempts)-1]. *)
Definition validate_attempt_state (last : bool) (a : PlanStageAttempt) : result PlanError unit :=
  if String.eqb (AtStatus a) PlanStageAttemptRunning then
    if negb last || negb (is_zero (AtFinishedAt a))
       || match AtEvidence a with Some _ => true | None => false end
    then Err (ErrPlanInvalid "running attempt state") else Ok tt
  else if String.eqb (AtStatus a) PlanStageAttemptComplete then
    if negb last || is_zero (AtFinishedAt a)
       || match AtEvidence a with
          | None => true
          | Some e => negb (String.eqb (AtVerificationStatus a) "passed")
                      || negb (String.eqb (AtReceiptDigest a) (EvReceiptDigest e))
                      || negb (validAcceptanceEvidence e)
          end
    then Err (ErrPlanInvalid "completed attempt evidence") else Ok tt
  else if String.eqb (AtStatus a) PlanStageAttemptFailed then
    if is_zero (AtFinishedAt a)
       || match AtEvidence a with Some _ => true | None => false end
       || negb (verification_known (AtVerificationStatus a))
       || (negb (String.eqb (AtReceiptDigest a) "") && negb (validDigest (AtReceiptDigest a)))
    then Err (ErrPlanInvalid "failed attempt state") else Ok tt
  else Err (ErrPlanInvalid "stage attempt status").

(** The attempt loop, with [seenRunIDs] and [runningAttempts] threaded. *)
Fixpoint validate_attempts (revision : Z) (attempts : list PlanStageAttempt)
    (seen : list string) (running : nat) : result PlanError (list string * nat) :=
  match attempts with
  | [] => Ok (seen, running)
  | a :: rest =>
      let last := match rest with [] => true | _ => false end in
      if negb (validPlanRunID (AtRunID a)) || negb (AtPlanRevision a =? revision)%Z
         || is_zero (AtStartedAt a)
      then Err (ErrPlanInvalid "stage attempt identity")
      else if bool_decide (AtRunID a ∈ seen)
      then Err (ErrPlanInvalid "duplicate stage attempt run id")
      else if negb last && negb (String.eqb (AtStatus a) PlanStageAttemptFailed)
      then Err (ErrPlanInvalid "non-final attempt must be failed")
      else
        _ ← validate_attempt_state last a;
        validate_attempts revision rest (AtRunID a :: seen)
          (if String.eqb (AtStatus a) PlanStageAttemptRunning then S running else running)
  end.

Definition last_attempt_is (s : PlanStage) (status : string) : bool :=
  match list.last (StAttempts s) with
  | None => false
  | Some a => String.eqb (AtStatus a) status
  end.

Definition stage_matches_attempts (s : PlanStage) : bool :=
  negb ((String.eqb (StStatus s) PlanStageStatusPending &&
           match StAttempts s with [] => false | _ => true end)
        || (String.eqb (StStatus s) PlanStageStatusRunning
            && negb (last_attempt_is s PlanStageAttemptRunning))
        || (String.eqb (StStatus s) PlanStageStatusCompleted
            && negb (last_attempt_is s PlanStageAttemptComplete))
        || (String.eqb (StStatus s) PlanStageStatusFailed
            && negb (last_attempt_is s PlanStageAttemptFailed))).

Definition stage_statuses : list string :=
  [PlanStageStatusPending; PlanStageStatusRunning; PlanStageStatusCompleted;
   PlanStageStatusFailed].

Fixpoint validate_stages (revision : Z) (stages : list PlanStage) (ids : list string)
    (seen : list string) (running : nat) : result PlanError nat :=
  match stages, ids with
  | s :: stages', id :: ids' =>
      if negb (String.eqb (StID s) id) || negb (validPlanID (StID s))
      then Err (ErrPlanInvalid "stage identity")
      else if negb (existsb (String.eqb (StStatus s)) stage_statuses)
      then Err (ErrPlanInvalid "stage status")
      else if (32 <? length (StAttempts s))%nat
      then Err (ErrPlanInvalid "too many stage attempts")
      else
        '(seen', running') ← validate_attempts revision (StAttempts s) seen running;
        if negb (stage_matches_attempts s)
        then Err (ErrPlanInvalid "stage attempt does not match stage state")
        else validate_stages revision stages' ids' seen' running'
  | _, _ => Ok running
  end.

Definition plan_statuses : list string :=
  [PlanStatusDraft; PlanStatusApproved; PlanStatusExecuting; PlanStatusCompleted;
   PlanStatusFailed].

Definition validatePlanRecord (p : Plan) (workstreamID planID : string)
  : result PlanError unit :=
  if negb (Version p =? CurrentPlanVersion)%Z || negb (String.eqb (PlID p) planID)
     || negb (String.eqb (WorkstreamID p) workstreamID) || negb (validPlanID (PlID p))
     || (PlRevision p =? 0)%Z || (StateRevision p =? 0)%Z
     || is_zero (CreatedAt p) || is_zero (UpdatedAt p)
  then Err (ErrPlanInvalid "identity or revision")
  else if negb (existsb (String.eqb (PlStatus p)) plan_statuses)
  then Err (ErrPlanInvalid "status")
  else if (PlRevision p <? ApprovedRevision p)%Z
          || (String.eqb (PlStatus p) PlanStatusDraft && negb (ApprovedRevision p =? 0)%Z)
          || (negb (String.eqb (PlStatus p) PlanStatusDraft)
              && negb (ApprovedRevision p =? PlRevision p)%Z)
  then Err (ErrPlanInvalid "approval revision")
  else
    ids ← planDefinitionStageIDs (Definition0 p);
    if negb (length ids =? length (Stages p))%nat
    then Err (ErrPlanInvalid "stage state does not match definition")
    else
      running ← validate_stages (PlRevision p) (Stages p) ids [] 0;
      if (1 <? running)%nat then Err (ErrPlanInvalid "multiple stage attempts are running")
      else if (String.eqb (PlStatus p) PlanStatusDraft || String.eqb (PlStatus p) PlanStatusApproved)
              && (hasPlanStageAttempts (Stages p)
                  || planHasAnyStageState (Stages p)
                       [PlanStageStatusRunning; PlanStageStatusCompleted; PlanStageStatusFailed])
      then Err (ErrPlanInvalid "unexecuted plan has progress")
      else if String.eqb (PlStatus p) PlanStatusExecuting
              && planHasAnyStageState (Stages p) [PlanStageStatusFailed]
      then Err (ErrPlanInvalid "executing plan has failed stage")
      else if String.eqb (PlStatus p) PlanStatusFailed
              && (planHasRunningStage (Stages p)
                  || negb (planHasAnyStageState (Stages p) [PlanStageStatusFailed]))
      then Err (ErrPlanInvalid "failed plan stage state")
      else if String.eqb (PlStatus p) PlanStatusCompleted
              && existsb (λ s, negb (String.eqb (StStatus s) PlanStageStatusCompleted)) (Stages p)
      then Err (ErrPlanInvalid "completed plan has incomplete stage")
      else Ok tt.

(** ** The store *)

(** A plan file: a readable record, or bytes [readJSON] refuses. *)
Inductive StoredPlan := StoredOk (p : Plan) | StoredBad.

Record PlanStore := {
  (** ids whose [workstream.json] is readable and of this workspace *)
  workstreams : gset string;
  files : gmap (string * string) StoredPlan;
  timeline : list (string * string);  (** workstream id, event type; latest first *)
}.

(** [s.Get]: the id must be its own sanitized form. *)
Definition Get (id : string) (s : PlanStore) : result PlanError unit :=
  if negb (String.eqb (sanitizeID id) id) || negb (bool_decide (id ∈ workstreams s))
  then Err ErrWorkstream else Ok tt.

(** What a later read finds of a written plan: the definition re-indented. *)
Definition reindented (d : Definition_) : Definition_ :=
  {| def_len := def_indented_len d; def_indented_len := def_indented_len d;
     def_value := def_value d |}.

Definition with_definition (d : Definition_) (p : Plan) : Plan :=
  {| Version := Version p; PlID := PlID p; WorkstreamID := WorkstreamID p;
     PlRevision := PlRevision p; StateRevision := StateRevision p; PlStatus := PlStatus p;
     ApprovedRevision := ApprovedRevision p; Definition0 := d; Stages := Stages p;
     CreatedAt := CreatedAt p; UpdatedAt := UpdatedAt p |}.

Definition stored (p : Plan) : StoredPlan := StoredOk (with_definition (reindented (Definition0 p)) p).

Definition write_plan (ws id : string) (p : Plan) (s : PlanStore) : PlanStore :=
  {| workstreams := workstreams s; files := <[(ws, id) := stored p]> (files s);
     timeline := timeline s |}.
Definition log_event (ws type : string) (s : PlanStore) : PlanStore :=
  {| workstreams := workstreams s; files := files s; timeline := (ws, type) :: timeline s |}.

Definition readPlanLocked (ws planID : string) (s : PlanStore) : result PlanError Plan :=
  if negb (validPlanID planID) then Err (ErrPlanInvalid "plan id") else
  match files s !! (ws, planID) with
  | None => Err ErrPlanNotFound
  | Some StoredBad => Err ErrPlanCorrupt
  | Some (StoredOk p) =>
      match validatePlanRecord p ws planID with Err _ => Err ErrPlanCorrupt | Ok _ => Ok p end
  end.

Definition GetPlan (ws planID : string) (s : PlanStore) : result PlanError Plan :=
  let ws := trim_space ws in
  _ ← Get ws s;
  if negb (validPlanID planID) then Err (ErrPlanInvalid "plan id") else readPlanLocked ws planID s.

Definition pending_stage (id : string) : PlanStage :=
  {| StID := id; StStatus := PlanStageStatusPending; StAttempts := [] |}.

(** [CreatePlan]; [generated] is [newPlanID], used when the request names no id.
    The event append can fail after the file is written, and the call then
    reports an error. *)
Definition CreatePlan (generated : string) (now : time) (write_ok event_ok : bool)
    (ws reqID : string) (d : Definition_) (s : PlanStore) : PlanStore * result PlanError Plan :=
  let ws := trim_space ws in
  match _ ← Get ws s; planDefinitionStageIDs d with
  | Err e => (s, Err e)
  | Ok stageIDs =>
      if (maxPlanDefinitionBytes <? def_len d)%Z
      then (s, Err (ErrPlanInvalid "definition is too large")) else
      let id := if String.eqb (trim_space reqID) "" then generated else trim_space reqID in
      if negb (validPlanID id) then (s, Err (ErrPlanInvalid "plan id")) else
      match files s !! (ws, id) with
      | Some _ => (s, Err ErrPlanConflict)
      | None =>
          let plan := {| Version := CurrentPlanVersion; PlID := id; WorkstreamID := ws;
                         PlRevision := 1; StateRevision := 1; PlStatus := PlanStatusDraft;
                         ApprovedRevision := 0; Definition0 := d;
                         Stages := map pending_stage stageIDs;
                         CreatedAt := now; UpdatedAt := now |} in
          match validatePlanRecord plan ws id with
          | Err e => (s, Err e)
          | Ok _ =>
              if negb write_ok then (s, Err ErrPlanWrite)
              else if negb event_ok then (write_plan ws id plan s, Err ErrPlanEvent)
              else (log_event ws "plan_created" (write_plan ws id plan s), Ok plan)
          end
      end
  end.

(** Committing a validated plan; a failed event append is only logged. *)
Definition commit (write_ok event_ok : bool) (ws id event : string) (p : Plan) (s : PlanStore)
  : PlanStore * result PlanError Plan :=
  if negb write_ok then (s, Err ErrPlanWrite)
  else ((if event_ok then log_event ws event else λ s, s) (write_plan ws id p s), Ok p).

Definition UpdatePlan (now : time) (write_ok event_ok : bool) (ws planID : string)
    (expectedRevision expectedStateRevision : Z) (d : Definition_) (s : PlanStore)
  : PlanStore * result PlanError Plan :=
  let ws := trim_space ws in
  match (_ ← Get ws s;
         if negb (validPlanID planID) then Err (ErrPlanInvalid "plan id") else
         stageIDs ← planDefinitionStageIDs d;
         if (maxPlanDefinitionBytes <? def_len d)%Z
         then Err (ErrPlanInvalid "definition is too large")
         else if (expectedRevision =? 0)%Z || (expectedStateRevision =? 0)%Z
         then Err (ErrPlanRevisionConflict "expected revisions are required") else
         plan ← readPlanLocked ws planID s;
         if negb (PlRevision plan =? expectedRevision)%Z
            || negb (StateRevision plan =? expectedStateRevision)%Z
         then Err (ErrPlanRevisionConflict "stale plan state")
         else if negb (String.eqb (PlStatus plan) PlanStatusDraft)
                 && negb (String.eqb (PlStatus plan) PlanStatusApproved)
         then Err (ErrPlanTransition "definition is immutable after execution starts")
         else if hasPlanStageAttempts (Stages plan)
         then Err (ErrPlanTransition "definition is immutable after execution starts")
         else if (PlRevision plan =? max_uint64)%Z || (StateRevision plan =? max_uint64)%Z
         then Err (ErrPlanRevisionConflict "revision exhausted")
         else
           let plan' := {| Version := Version plan; PlID := PlID plan;
             WorkstreamID := WorkstreamID plan;
             PlRevision := wrap_u64 (PlRevision plan + 1);
             StateRevision := wrap_u64 (StateRevision plan + 1); PlStatus := PlanStatusDraft;
             ApprovedRevision := 0; Definition0 := d; Stages := map pending_stage stageIDs;
             CreatedAt := CreatedAt plan; UpdatedAt := now |} in
           _ ← validatePlanRecord plan' ws planID; Ok plan') with
  | Err e => (s, Err e)
  | Ok plan' => commit write_ok event_ok ws planID "plan_revised" plan' s
  end.

(** *** Transitions: the [change] functions of [mutatePlan] *)

Definition with_status (status : string) (approved : Z) (stages : list PlanStage) (p : Plan)
  : Plan :=
  {| Version := Version p; PlID := PlID p; WorkstreamID := WorkstreamID p;
     PlRevision := PlRevision p; StateRevision := StateRevision p; PlStatus := status;
     ApprovedRevision := approved; Definition0 := Definition0 p; Stages := stages;
     CreatedAt := CreatedAt p; UpdatedAt := UpdatedAt p |}.

Definition approve_change (p : Plan) : result PlanError Plan :=
  if negb (String.eqb (PlStatus p) PlanStatusDraft) || negb (ApprovedRevision p =? 0)%Z
  then Err (ErrPlanTransition "only a draft plan can be approved")
  else match Stages p with
       | [] => Err (ErrPlanTransition "plan requires at least one stage")
       | _ =>
           if hasPlanStageAttempts (Stages p)
           then Err (ErrPlanTransition "plan already has execution history")
           else Ok (with_status PlanStatusApproved (PlRevision p) (Stages p) p)
       end.

Definition run_id_used (stages : list PlanStage) (runID : string) : bool :=
  existsb (λ s, existsb (λ a, String.eqb (AtRunID a) runID) (StAttempts s)) stages.

Definition begin_change (now : time) (stageID runID : string) (p : Plan) : result PlanError Plan :=
  if negb (ApprovedRevision p =? PlRevision p)%Z
     || (negb (String.eqb (PlStatus p) PlanStatusApproved)
         && negb (String.eqb (PlStatus p) PlanStatusExecuting)
         && negb (String.eqb (PlStatus p) PlanStatusFailed))
  then Err (ErrPlanTransition "current plan revision is not approved for execution")
  else if String.eqb (trim_space (PlStatus p)) PlanStatusCompleted
  then Err (ErrPlanTransition "completed plan is immutable")
  else if planHasRunningStage (Stages p)
  then Err (ErrPlanTransition "another stage is already running")
  else match planStageIndex (Stages p) stageID with
       | None => Err (ErrPlanTransition "stage does not belong to plan")
       | Some index =>
           match Stages p !! index with
           | None => Err (ErrPlanTransition "stage does not belong to plan")
           | Some stage =>
               if negb (String.eqb (StStatus stage) PlanStageStatusPending)
                  && negb (String.eqb (StStatus stage) PlanStageStatusFailed)
               then Err (ErrPlanTransition "stage is not eligible to run")
               else if existsb (λ s, negb (String.eqb (StStatus s) PlanStageStatusCompleted))
                               (take index (Stages p))
               then Err (ErrPlanTransition "preceding stages are incomplete")
               else if run_id_used (Stages p) runID
               then Err (ErrPlanTransition "run id already used by plan")
               else if (32 <=? length (StAttempts stage))%nat
               then Err (ErrPlanTransition "stage attempt limit reached")
               else
                 let attempt := {| AtRunID := runID; AtPlanRevision := PlRevision p;
                   AtStatus := PlanStageAttemptRunning; AtStartedAt := now;
                   AtFinishedAt := time_zero; AtVerificationStatus := "";
                   AtReceiptDigest := ""; AtEvidence := None |} in
                 let stage' := {| StID := StID stage; StStatus := PlanStageStatusRunning;
                   StAttempts := StAttempts stage ++ [attempt] |} in
                 Ok (with_status PlanStatusExecuting (ApprovedRevision p)
                       (<[index := stage']> (Stages p)) p)
           end
       end.

Record FinishRequest := {
  FStageID : string;
  FRunID : string;
  FStatus : string;
  FVerificationStatus : string;
  FReceiptDigest : string;
  FCriteriaDigest : string;
  FEvidenceSource : string;
  FCompletionStatus : string;
}.

(** The active attempt that a result or a reconciliation names; the first message
    is of a stage without one, the second of a mismatch. *)
Definition active_attempt (stageID runID none mismatch : string) (p : Plan)
  : result PlanError (nat * PlanStage * PlanStageAttempt) :=
  match planStageIndex (Stages p) stageID with
  | None => Err (ErrPlanTransition "stage does not belong to plan")
  | Some index =>
      match Stages p !! index with
      | None => Err (ErrPlanTransition "stage does not belong to plan")
      | Some stage =>
          match list.last (StAttempts stage) with
          | None => Err (ErrPlanTransition none)
          | Some attempt =>
              if negb (String.eqb (PlStatus p) PlanStatusExecuting)
                 || negb (String.eqb (StStatus stage) PlanStageStatusRunning)
              then Err (ErrPlanTransition none)
              else if negb (String.eqb (AtRunID attempt) runID)
                      || negb (AtPlanRevision attempt =? PlRevision p)%Z
                      || negb (String.eqb (AtStatus attempt) PlanStageAttemptRunning)
              then Err (ErrPlanTransition mismatch)
              else Ok (index, stage, attempt)
          end
      end
  end.

(** The last attempt of the stage replaced, and the stage's status. *)
Definition close_stage (status : string) (a : PlanStageAttempt) (stage : PlanStage) : PlanStage :=
  {| StID := StID stage; StStatus := status;
     StAttempts := removelast (StAttempts stage) ++ [a] |}.

Definition finish_change (now : time) (req : FinishRequest) (p : Plan) : result PlanError Plan :=
  '(index, stage, attempt) ← active_attempt (FStageID req) (FRunID req)
     "stage has no active attempt" "result does not match active attempt" p;
  if String.eqb (FStatus req) PlanStageStatusCompleted then
    if negb (String.eqb (FVerificationStatus req) "passed")
       || negb (String.eqb (FCompletionStatus req) "complete")
       || negb (validDigest (FReceiptDigest req)) || negb (validDigest (FCriteriaDigest req))
       || (negb (String.eqb (FEvidenceSource req) "agent-receipt")
           && negb (String.eqb (FEvidenceSource req) "team-receipt"))
    then Err (ErrPlanEvidence "completed stage requires verified receipt evidence")
    else
      let evidence := {| EvSource := FEvidenceSource req; EvReceiptDigest := FReceiptDigest req;
        EvCriteriaDigest := FCriteriaDigest req; EvVerificationStatus := FVerificationStatus req;
        EvCompletionStatus := FCompletionStatus req; EvRecordedAt := now |} in
      let attempt' := {| AtRunID := AtRunID attempt; AtPlanRevision := AtPlanRevision attempt;
        AtStatus := PlanStageAttemptComplete; AtStartedAt := AtStartedAt attempt;
        AtFinishedAt := now; AtVerificationStatus := FVerificationStatus req;
        AtReceiptDigest := FReceiptDigest req; AtEvidence := Some evidence |} in
      let stages' := <[index := close_stage PlanStageStatusCompleted attempt' stage]> (Stages p) in
      let allComplete := forallb (λ s, String.eqb (StStatus s) PlanStageStatusCompleted) stages' in
      Ok (with_status (if allComplete then PlanStatusCompleted else PlStatus p)
            (ApprovedRevision p) stages' p)
  else
    let verification := if String.eqb (FVerificationStatus req) "" then "not-run"
                        else FVerificationStatus req in
    if negb (String.eqb verification "passed") && negb (String.eqb verification "failed")
       && negb (String.eqb verification "not-run")
    then Err (ErrPlanInvalid "verification status")
    else if negb (String.eqb (FReceiptDigest req) "") && negb (validDigest (FReceiptDigest req))
    then Err (ErrPlanEvidence "receipt digest")
    else
      let attempt' := {| AtRunID := AtRunID attempt; AtPlanRevision := AtPlanRevision attempt;
        AtStatus := PlanStageAttemptFailed; AtStartedAt := AtStartedAt attempt;
        AtFinishedAt := now; AtVerificationStatus := verification;
        AtReceiptDigest := FReceiptDigest req; AtEvidence := None |} in
      Ok (with_status PlanStatusFailed (ApprovedRevision p)
            (<[index := close_stage PlanStageStatusFailed attempt' stage]> (Stages p)) p).

Definition reconcile_change (now : time) (stageID runID : string) (p : Plan)
  : result PlanError Plan :=
  '(index, stage, attempt) ← active_attempt stageID runID
     "stage has no interrupted attempt" "reconciliation does not match active attempt" p;
  let attempt' := {| AtRunID := AtRunID attempt; AtPlanRevision := AtPlanRevision attempt;
    AtStatus := PlanStageAttemptFailed; AtStartedAt := AtStartedAt attempt;
    AtFinishedAt := now; AtVerificationStatus := "not-run";
    AtReceiptDigest := AtReceiptDigest attempt; AtEvidence := None |} in
  Ok (with_status PlanStatusFailed (ApprovedRevision p)
        (<[index := close_stage PlanStageStatusFailed attempt' stage]> (Stages p)) p).

(** [mutatePlan]. *)
Definition bump (now : time) (p : Plan) : Plan :=
  {| Version := Version p; PlID := PlID p; WorkstreamID := WorkstreamID p;
     PlRevision := PlRevision p; StateRevision := wrap_u64 (StateRevision p + 1);
     PlStatus := PlStatus p; ApprovedRevision := ApprovedRevision p;
     Definition0 := Definition0 p; Stages := Stages p; CreatedAt := CreatedAt p;
     UpdatedAt := now |}.

Definition mutatePlan (now : time) (write_ok event_ok : bool) (event ws planID : string)
    (expectedRevision expectedStateRevision : Z) (change : Plan → result PlanError Plan)
    (s : PlanStore) : PlanStore * result PlanError Plan :=
  let ws := trim_space ws in
  match (_ ← Get ws s;
         if negb (validPlanID planID) then Err (ErrPlanInvalid "plan id")
         else if (expectedRevision =? 0)%Z || (expectedStateRevision =? 0)%Z
         then Err (ErrPlanRevisionConflict "expected revisions are required") else
         plan ← readPlanLocked ws planID s;
         if negb (PlRevision plan =? expectedRevision)%Z
            || negb (StateRevision plan =? expectedStateRevision)%Z
         then Err (ErrPlanRevisionConflict "stale plan state")
         else if (StateRevision plan =? max_uint64)%Z
         then Err (ErrPlanRevisionConflict "state revision exhausted") else
         changed ← change plan;
         _ ← validatePlanRecord (bump now changed) ws planID;
         Ok (bump now changed)) with
  | Err e => (s, Err e)
  | Ok plan' => commit write_ok event_ok ws planID event plan' s
  end.

(** The public operations; [at] is the clock inside [change], [now] the later one. *)
Inductive PlanOp :=
| OpCreate (ws reqID generated : string) (d : Definition_)
| OpUpdate (ws planID : string) (rev srev : Z) (d : Definition_)
| OpApprove (ws planID : string) (rev srev : Z)
| OpBegin (ws planID : string) (rev srev : Z) (stageID runID : string)
| OpFinish (ws planID : string) (rev srev : Z) (req : FinishRequest)
| OpReconcile (ws planID : string) (rev srev : Z) (stageID runID : string) (ack : bool).

Definition ApprovePlan now write_ok event_ok ws planID rev srev s :=
  mutatePlan now write_ok event_ok "plan_approved" ws planID rev srev approve_change s.

Definition BeginPlanStage at_ now write_ok event_ok ws planID rev srev stageID runID s
  : PlanStore * result PlanError Plan :=
  if negb (validPlanRunID runID) || negb (validPlanID stageID)
  then (s, Err (ErrPlanInvalid "stage or run id"))
  else mutatePlan now write_ok event_ok "plan_stage_started" ws planID rev srev
         (begin_change at_ stageID runID) s.

Definition FinishPlanStage at_ now write_ok event_ok ws planID rev srev req s
  : PlanStore * result PlanError Plan :=
  if negb (String.eqb (FStatus req) PlanStageStatusCompleted)
     && negb (String.eqb (FStatus req) PlanStageStatusFailed)
  then (s, Err (ErrPlanInvalid "result status"))
  else mutatePlan now write_ok event_ok
         (if String.eqb (FStatus req) PlanStageStatusCompleted then "plan_stage_completed"
          else "plan_stage_failed") ws planID rev srev (finish_change at_ req) s.

Definition ReconcilePlanStage at_ now write_ok event_ok ws planID rev srev stageID runID ack s
  : PlanStore * result PlanError Plan :=
  if negb ack then (s, Err (ErrPlanTransition "manual stopped-run acknowledgement is required"))
  else if negb (validPlanRunID runID) || negb (validPlanID stageID)
  then (s, Err (ErrPlanInvalid "stage or run id"))
  else mutatePlan now write_ok event_ok "plan_stage_reconciled" ws planID rev srev
         (reconcile_change at_ stageID runID) s.

Definition perform (at_ now : time) (write_ok event_ok : bool) (op : PlanOp) (s : PlanStore)
  : PlanStore * result PlanError Plan :=
  match op with
  | OpCreate ws reqID generated d => CreatePlan generated now write_ok event_ok ws reqID d s
  | OpUpdate ws id rev srev d => UpdatePlan now write_ok event_ok ws id rev srev d s
  | OpApprove ws id rev srev => ApprovePlan now write_ok event_ok ws id rev srev s
  | OpBegin ws id rev srev st run =>
      BeginPlanStage at_ now write_ok event_ok ws id rev srev st run s
  | OpFinish ws id rev srev req => FinishPlanStage at_ now write_ok event_ok ws id rev srev req s
  | OpReconcile ws id rev srev st run ack =>
      ReconcilePlanStage at_ now write_ok event_ok ws id rev srev st run ack s
  end.

(** ** What validation means *)

Definition attempt_identity (revision : Z) (a : PlanStageAttempt) : Prop :=
  validPlanRunID (AtRunID a) = true ∧ AtPlanRevision a = revision ∧ AtStartedAt a ≠ time_zero.

Definition is_nil {A} (l : list A) : bool := match l with [] => true | _ => false end.

Fixpoint attempts_ok (revision : Z) (l : list PlanStageAttempt) : Prop :=
  match l with
  | [] => True
  | a :: rest =>
      attempt_identity revision a ∧
      (rest ≠ [] → AtStatus a = PlanStageAttemptFailed) ∧
      validate_attempt_state (is_nil rest) a = Ok tt ∧ attempts_ok revision rest
  end.

Definition running_count (l : list PlanStageAttempt) : nat :=
  length (filter (λ a, AtStatus a = PlanStageAttemptRunning) l).

Definition run_ids (l : list PlanStageAttempt) : list string := map AtRunID l.

Lemma ok_tt {E} (r : result E unit) : is_ok r = true → r = Ok tt.
Proof. by destruct r as [[]|]. Qed.

Lemma validate_attempts_spec revision l seen running r :
  validate_attempts revision l seen running = Ok r ↔
  attempts_ok revision l ∧ NoDup (run_ids l) ∧ (∀ x, x ∈ run_ids l → x ∉ seen) ∧
  r = (rev (run_ids l) ++ seen, (running_count l + running)%nat).
Proof.
  revert seen running. induction l as [|a l IH]; intros seen running; simpl.
  { split; [intros [= <-]; split_and!; [done|constructor|by intros ? ?%not_elem_of_nil|done]|].
    by intros (_ & _ & _ & ->). }
  destruct (validPlanRunID (AtRunID a)) eqn:H1; simpl; [|split; [done|intros [[[? _] _] _]; congruence]].
  destruct (Z.eqb_spec (AtPlanRevision a) revision) as [H2|H2]; simpl;
    [|split; [done|intros [[[_ [? _]] _] _]; congruence]].
  destruct (is_zero (AtStartedAt a)) eqn:H3.
  { apply Z.eqb_eq in H3. split; [done|intros [[[_ [_ ?]] _] _]; congruence]. }
  apply Z.eqb_neq in H3.
  case_bool_decide as H4.
  { split; [done|]. intros (_ & _ & Hd & _). destruct (Hd (AtRunID a)); [by left|done]. }
  destruct (negb (is_nil l) && negb (String.eqb (AtStatus a) PlanStageAttemptFailed)) eqn:H5;
    unfold is_nil in H5; rewrite H5.
  { split; [done|]. intros ((_ & Hf & _) & _). apply andb_true_iff in H5 as [Hl Hs].
    destruct l; [done|]. by rewrite Hf in Hs. }
  fold (is_nil l). destruct (validate_attempt_state (is_nil l) a) as [[]|e] eqn:H6; simpl;
    [|split; [done|intros ((_ & _ & ? & _) & _); congruence]].
  rewrite IH. 
  assert (Hrc : running_count (a :: l) = ((if String.eqb (AtStatus a) PlanStageAttemptRunning
    then 1 else 0) + running_count l)%nat).
  { unfold running_count. rewrite filter_cons.
    destruct (String.eqb_spec (AtStatus a) PlanStageAttemptRunning);
      [rewrite decide_True by done|rewrite decide_False by done]; done. }
  rewrite Hrc, list.NoDup_cons. 
  assert (Hrev : (rev (run_ids l) ++ [AtRunID a]) ++ seen = rev (run_ids l) ++ AtRunID a :: seen)
    by (by rewrite <- (assoc_L app)).
  rewrite Hrev.
  assert (Hnf : l ≠ [] → AtStatus a = PlanStageAttemptFailed).
  { intros Hl. destruct l; [done|]. simpl in H5. by apply negb_false_iff, String.eqb_eq in H5. }
  assert (Hn : ∀ n m : nat, ((if String.eqb (AtStatus a) PlanStageAttemptRunning then 1 else 0) + n + m)%nat
    = (n + (if String.eqb (AtStatus a) PlanStageAttemptRunning then S m else m))%nat).
  { intros. destruct (String.eqb (AtStatus a) PlanStageAttemptRunning); lia. }
  rewrite Hn. unfold attempt_identity. setoid_rewrite elem_of_cons.
  split.
  - intros (? & ? & Hd & ->). split_and!; auto.
    + intros Ha. destruct (Hd _ Ha). by left.
    + intros x [->|Hx]; [done|]. intros ?. destruct (Hd _ Hx). by right.
  - intros ((_ & _ & _ & ?) & [? ?] & Hd & ->). split_and!; auto.
    intros x Hx [->|?]; [done|]. by eapply Hd; [right|].
Qed.

Definition stage_ok (revision : Z) (s : PlanStage) (id : string) : Prop :=
  StID s = id ∧ validPlanID (StID s) = true ∧ existsb (String.eqb (StStatus s)) stage_statuses = true ∧
  (length (StAttempts s) ≤ 32)%nat ∧ attempts_ok revision (StAttempts s) ∧
  stage_matches_attempts s = true.

Definition all_attempts (stages : list PlanStage) : list PlanStageAttempt :=
  concat (map StAttempts stages).

Lemma run_ids_app a b : run_ids (a ++ b) = run_ids a ++ run_ids b.
Proof. apply map_app. Qed.
Lemma running_count_app a b : running_count (a ++ b) = (running_count a + running_count b)%nat.
Proof. unfold running_count. by rewrite list.filter_app, length_app. Qed.

Lemma validate_stages_spec revision stages ids seen running n :
  length ids = length stages →
  validate_stages revision stages ids seen running = Ok n ↔
  Forall2 (stage_ok revision) stages ids ∧ NoDup (run_ids (all_attempts stages)) ∧
  (∀ x, x ∈ run_ids (all_attempts stages) → x ∉ seen) ∧
  n = (running_count (all_attempts stages) + running)%nat.
Proof.
  revert ids seen running. induction stages as [|s stages IH]; intros [|id ids] seen running;
    try done; intros Hlen; simpl.
  { split; [intros [= <-]; split_and!; [constructor|constructor|by intros ? ?%not_elem_of_nil|done]|].
    by intros (_ & _ & _ & ->). }
  injection Hlen as Hlen.
  assert (Hno : ∀ P Q, ¬ stage_ok revision s id →
    Err (ErrPlanInvalid P) = Ok n ↔ Forall2 (stage_ok revision) (s :: stages) (id :: ids) ∧ Q).
  { intros P Q Hs. split; [done|]. intros [HF _]. inversion HF; subst. done. }
  destruct (String.eqb_spec (StID s) id) as [H1|H1]; simpl; [|apply Hno; by intros (? & _)].
  destruct (validPlanID (StID s)) eqn:H2; simpl; [|apply Hno; intros (_ & ? & _); congruence].
  destruct (existsb (String.eqb (StStatus s)) stage_statuses) eqn:H3;
    [|simpl in H3; rewrite H3; apply Hno; intros (_ & _ & ? & _); simpl in *; congruence].
  simpl in H3. rewrite H3. cbn [negb].
  destruct (Nat.ltb_spec 32 (length (StAttempts s))); [apply Hno; intros (_ & _ & _ & ? & _); lia|].
  cbn [all_attempts map concat].
  destruct (validate_attempts revision (StAttempts s) seen running) as [[seen' running']|e] eqn:Hv.
  2:{ assert (Hnv : ∀ r, validate_attempts revision (StAttempts s) seen running ≠ Ok r)
        by (by rewrite Hv).
      cbn [mbind result_bind]. split; [done|]. intros (HF & Hnd & Hd & _). exfalso.
      inversion HF as [|? ? ? ? (_ & _ & _ & _ & Hok & _) _]; subst.
      rewrite run_ids_app, list.NoDup_app in Hnd. destruct Hnd as (Hnd & _).
      eapply Hnv, validate_attempts_spec. split_and!; [done|done| |reflexivity].
      intros x Hx. apply Hd. rewrite run_ids_app, elem_of_app. by left. }
  apply validate_attempts_spec in Hv as (Hok & Hnd & Hdis & Heq). simplify_eq.
  cbn [mbind result_bind].
  destruct (stage_matches_attempts s) eqn:H6; cbn [negb];
    [|apply Hno; intros (_ & _ & _ & _ & _ & ?); congruence].
  rewrite (IH ids _ _ Hlen). rewrite run_ids_app, running_count_app, list.NoDup_app.
  split.
  - intros (HF & Hnd' & Hd' & ->). split_and!.
    + constructor; [|done]. by repeat split.
    + done.
    + intros x Hx Hx'. destruct (Hd' _ Hx'). rewrite elem_of_app. left.
      apply list_elem_of_In, in_rev. rewrite rev_involutive. by apply list_elem_of_In.
    + done.
    + intros x [Hx|Hx]%elem_of_app; [by apply Hdis|]. intros ?. destruct (Hd' _ Hx).
      rewrite elem_of_app. by right.
    + fold (all_attempts stages). lia.
  - intros (HF & (_ & Hd1 & Hnd') & Hd2 & ->). inversion HF; subst. split_and!; [done|done| |].
    + intros x Hx [Hr|Hs]%elem_of_app.
      * apply list_elem_of_In, in_rev, list_elem_of_In in Hr. by eapply Hd1.
      * eapply Hd2; [|exact Hs]. apply elem_of_app. by right.
    + fold (all_attempts stages). lia.
Qed.

Definition plan_identity (p : Plan) (ws id : string) : Prop :=
  Version p = CurrentPlanVersion ∧ PlID p = id ∧ WorkstreamID p = ws ∧ validPlanID (PlID p) = true ∧
  PlRevision p ≠ 0%Z ∧ StateRevision p ≠ 0%Z ∧ CreatedAt p ≠ time_zero ∧ UpdatedAt p ≠ time_zero.

Definition plan_approval (p : Plan) : Prop :=
  (ApprovedRevision p ≤ PlRevision p)%Z ∧
  (PlStatus p = PlanStatusDraft → ApprovedRevision p = 0%Z) ∧
  (PlStatus p ≠ PlanStatusDraft → ApprovedRevision p = PlRevision p).

Definition stage_is (status : string) (s : PlanStage) : Prop := StStatus s = status.
#[export] Instance stage_is_dec status s : Decision (stage_is status s).
Proof. unfold stage_is. apply _. Defined.

(** What a plan's status says of its stages. *)
Definition plan_progress (status : string) (stages : list PlanStage) : Prop :=
  (status = PlanStatusDraft ∨ status = PlanStatusApproved →
     ∀ s, s ∈ stages → StAttempts s = [] ∧ stage_is PlanStageStatusPending s) ∧
  (status = PlanStatusExecuting → ∀ s, s ∈ stages → ¬ stage_is PlanStageStatusFailed s) ∧
  (status = PlanStatusFailed →
     (∀ s, s ∈ stages → ¬ stage_is PlanStageStatusRunning s) ∧
     ∃ s, s ∈ stages ∧ stage_is PlanStageStatusFailed s) ∧
  (status = PlanStatusCompleted → ∀ s, s ∈ stages → stage_is PlanStageStatusCompleted s).

Definition plan_ok (p : Plan) (ws id : string) : Prop :=
  plan_identity p ws id ∧ PlStatus p ∈ plan_statuses ∧ plan_approval p ∧
  ∃ ids, planDefinitionStageIDs (Definition0 p) = Ok ids ∧
    Forall2 (stage_ok (PlRevision p)) (Stages p) ids ∧
    NoDup (run_ids (all_attempts (Stages p))) ∧
    (running_count (all_attempts (Stages p)) ≤ 1)%nat ∧
    plan_progress (PlStatus p) (Stages p).

Lemma existsb_iff {A} (f : A → bool) l : existsb f l = true ↔ ∃ a, a ∈ l ∧ f a = true.
Proof. rewrite existsb_exists. by setoid_rewrite list_elem_of_In. Qed.

Lemma existsb_not {A} (f : A → bool) l : existsb f l = false ↔ ∀ a, a ∈ l → f a = false.
Proof.
  rewrite <- not_true_iff_false, existsb_iff. split.
  - intros H a Ha. destruct (f a) eqn:E; [|done]. destruct H. eauto.
  - intros H (a & Ha & Hf). rewrite H in Hf; done.
Qed.

Lemma any_state_false stages l :
  planHasAnyStageState stages l = false ↔ ∀ s, s ∈ stages → StStatus s ∉ l.
Proof.
  unfold planHasAnyStageState. rewrite existsb_not. setoid_rewrite existsb_not.
  split; intros H s Hs.
  - intros Hin. specialize (H s Hs _ Hin). by rewrite String.eqb_refl in H.
  - intros x Hx. apply String.eqb_neq. intros Heq. apply (H s Hs). by rewrite Heq.
Qed.

Lemma any_state_true stages l :
  planHasAnyStageState stages l = true ↔ ∃ s, s ∈ stages ∧ StStatus s ∈ l.
Proof.
  unfold planHasAnyStageState. rewrite existsb_iff. setoid_rewrite existsb_iff.
  split.
  - intros (s & Hs & x & Hx & Heq%String.eqb_eq). exists s. by rewrite Heq.
  - intros (s & Hs & Hin). exists s. split; [done|]. exists (StStatus s).
    by rewrite String.eqb_refl.
Qed.

Lemma status_in_spec status l : existsb (String.eqb status) l = true ↔ status ∈ l.
Proof.
  rewrite existsb_iff. split; [intros (x & ? & Heq%String.eqb_eq); by rewrite Heq|].
  intros ?. exists status. by rewrite String.eqb_refl.
Qed.

Lemma stage_status_cases s rev id : stage_ok rev s id →
  StStatus s = PlanStageStatusPending ∨ StStatus s = PlanStageStatusRunning ∨
  StStatus s = PlanStageStatusCompleted ∨ StStatus s = PlanStageStatusFailed.
Proof.
  intros (_ & _ & Hs & _). apply status_in_spec in Hs. unfold stage_statuses in Hs.
  rewrite !elem_of_cons in Hs.
  destruct Hs as [?|[?|[?|[?|Hs%not_elem_of_nil]]]]; auto; done.
Qed.

(** The boolean tail of [validatePlanRecord], as [plan_progress]. *)
Lemma progress_spec status stages rev ids :
  Forall2 (stage_ok rev) stages ids → status ∈ plan_statuses →
  plan_progress status stages ↔
  ((String.eqb status PlanStatusDraft || String.eqb status PlanStatusApproved)
     && (hasPlanStageAttempts stages || planHasAnyStageState stages
          [PlanStageStatusRunning; PlanStageStatusCompleted; PlanStageStatusFailed]) = false ∧
   String.eqb status PlanStatusExecuting && planHasAnyStageState stages [PlanStageStatusFailed]
     = false ∧
   String.eqb status PlanStatusFailed && (planHasRunningStage stages
     || negb (planHasAnyStageState stages [PlanStageStatusFailed])) = false ∧
   String.eqb status PlanStatusCompleted
     && existsb (λ s, negb (String.eqb (StStatus s) PlanStageStatusCompleted)) stages = false).
Proof.
  intros HF Hs.
  assert (Hcases : ∀ s, s ∈ stages → StStatus s = PlanStageStatusPending ∨
    StStatus s = PlanStageStatusRunning ∨ StStatus s = PlanStageStatusCompleted ∨
    StStatus s = PlanStageStatusFailed).
  { intros s (i & Hi)%list_elem_of_lookup. destruct (Forall2_lookup_l _ _ _ _ _ HF Hi) as (id & _ & Hok).
    by eapply stage_status_cases. }
  assert (Hunexec : hasPlanStageAttempts stages || planHasAnyStageState stages
          [PlanStageStatusRunning; PlanStageStatusCompleted; PlanStageStatusFailed] = false ↔
          ∀ s, s ∈ stages → StAttempts s = [] ∧ stage_is PlanStageStatusPending s).
  { rewrite orb_false_iff, any_state_false. unfold hasPlanStageAttempts. rewrite existsb_not.
    split.
    - intros [H1 H2] s Hin. split; [specialize (H1 s Hin); by destruct (StAttempts s)|].
      specialize (H2 s Hin). rewrite !not_elem_of_cons in H2. unfold stage_is.
      destruct (Hcases s Hin) as [?|[?|[?|?]]]; [done|naive_solver..].
    - intros H. split; intros s Hin; destruct (H s Hin) as [Ha Hp]; [by rewrite Ha|].
      unfold stage_is in Hp. rewrite Hp. rewrite !not_elem_of_cons. repeat split; try done. apply not_elem_of_nil. }
  assert (Hfailed : planHasAnyStageState stages [PlanStageStatusFailed] = true ↔
    ∃ s, s ∈ stages ∧ stage_is PlanStageStatusFailed s).
  { rewrite any_state_true. by setoid_rewrite list_elem_of_singleton. }
  assert (Hnf : planHasAnyStageState stages [PlanStageStatusFailed] = false ↔
    ∀ s, s ∈ stages → ¬ stage_is PlanStageStatusFailed s).
  { rewrite any_state_false. by setoid_rewrite list_elem_of_singleton. }
  assert (Hrun : planHasRunningStage stages = false ↔
    ∀ s, s ∈ stages → ¬ stage_is PlanStageStatusRunning s).
  { unfold planHasRunningStage. rewrite existsb_not. by setoid_rewrite String.eqb_neq. }
  assert (Hcomp : existsb (λ s, negb (String.eqb (StStatus s) PlanStageStatusCompleted)) stages = false
    ↔ ∀ s, s ∈ stages → stage_is PlanStageStatusCompleted s).
  { rewrite existsb_not. setoid_rewrite negb_false_iff. by setoid_rewrite String.eqb_eq. }
  unfold plan_progress. rewrite <- Hunexec, <- Hnf, <- Hrun, <- Hcomp, <- Hfailed.
  unfold plan_statuses in Hs. rewrite !elem_of_cons in Hs.
  destruct Hs as [->|[->|[->|[->|[->|Hs%not_elem_of_nil]]]]]; [..|done];
    cbn; rewrite ?orb_false_iff, ?negb_false_iff; intuition discriminate.
Qed.

Lemma validatePlanRecord_spec p ws id :
  validatePlanRecord p ws id = Ok tt ↔ plan_ok p ws id.
Proof.
  unfold validatePlanRecord, plan_ok.
  assert (Hid : (negb (Version p =? CurrentPlanVersion)%Z || negb (String.eqb (PlID p) id)
     || negb (String.eqb (WorkstreamID p) ws) || negb (validPlanID (PlID p))
     || (PlRevision p =? 0)%Z || (StateRevision p =? 0)%Z
     || is_zero (CreatedAt p) || is_zero (UpdatedAt p)) = false ↔ plan_identity p ws id).
  { unfold is_zero, plan_identity.
    rewrite !orb_false_iff, !negb_false_iff, !Z.eqb_eq, !String.eqb_eq, !Z.eqb_neq. tauto. }
  destruct (_ || is_zero (UpdatedAt p)); [naive_solver|].
  destruct (existsb (String.eqb (PlStatus p)) plan_statuses) eqn:Hs; simpl negb; cbn match.
  2:{ split; [done|]. intros (_ & Hin & _). apply status_in_spec in Hin. congruence. }
  apply status_in_spec in Hs.
  assert (Happ : ((PlRevision p <? ApprovedRevision p)%Z
          || (String.eqb (PlStatus p) PlanStatusDraft && negb (ApprovedRevision p =? 0)%Z)
          || (negb (String.eqb (PlStatus p) PlanStatusDraft)
              && negb (ApprovedRevision p =? PlRevision p)%Z)) = false ↔ plan_approval p).
  { unfold plan_approval. rewrite !orb_false_iff, Z.ltb_ge.
    destruct (String.eqb_spec (PlStatus p) PlanStatusDraft); cbn;
      rewrite ?negb_false_iff, ?Z.eqb_eq; naive_solver. }
  destruct ((PlRevision p <? ApprovedRevision p)%Z || _ || _); [naive_solver|].
  destruct (planDefinitionStageIDs (Definition0 p)) as [ids|e]; cbn [mbind result_bind];
    [|naive_solver].
  destruct (Nat.eqb_spec (length ids) (length (Stages p))) as [Hlen|Hlen]; cbn [negb].
  2:{ split; [done|]. intros (_ & _ & _ & ids' & [= <-] & HF & _).
      apply Forall2_length in HF. lia. }
  pose proof (λ n, validate_stages_spec (PlRevision p) (Stages p) ids [] 0 n Hlen) as Hst.
  destruct (validate_stages (PlRevision p) (Stages p) ids [] 0) as [n|e]; cbn [mbind result_bind].
  2:{ split; [done|]. intros (_ & _ & _ & ids' & [= <-] & HF & Hnd & _). exfalso.
      assert (Err e = Ok (running_count (all_attempts (Stages p)) + 0)%nat); [|done].
      apply Hst. split_and!; auto. intros x _. apply not_elem_of_nil. }
  destruct (proj1 (Hst n) eq_refl) as (HF & Hnd & _ & ->). rewrite Nat.add_0_r.
  pose proof (progress_spec (PlStatus p) (Stages p) _ _ HF Hs) as Hp.
  destruct (Nat.ltb_spec 1 (running_count (all_attempts (Stages p)))).
  { split; [done|]. intros (_ & _ & _ & ids' & _ & _ & _ & ? & _). lia. }
  assert (Hrest : plan_progress (PlStatus p) (Stages p) ↔ (plan_identity p ws id ∧
    PlStatus p ∈ plan_statuses ∧ plan_approval p ∧
    ∃ ids0, Ok (E:=PlanError) ids = Ok ids0 ∧ Forall2 (stage_ok (PlRevision p)) (Stages p) ids0 ∧
      NoDup (run_ids (all_attempts (Stages p))) ∧
      (running_count (all_attempts (Stages p)) ≤ 1)%nat ∧ plan_progress (PlStatus p) (Stages p))).
  { split; [|by intros (_ & _ & _ & ? & _ & _ & _ & _ & ?)]. intros ?.
    split_and!; [naive_solver|done|naive_solver|]. exists ids. split_and!; auto. }
  rewrite <- Hrest, Hp.
  repeat match goal with |- context [if ?c then Err _ else _] =>
    destruct c; [split; [done|naive_solver]|] end.
  naive_solver.
Qed.

(** ** Replacing one stage *)

Definition failed_attempt (revision : Z) (a : PlanStageAttempt) : Prop :=
  attempt_identity revision a ∧ AtStatus a = PlanStageAttemptFailed ∧
  validate_attempt_state true a = Ok tt.

Lemma failed_state_any_position b a : AtStatus a = PlanStageAttemptFailed →
  validate_attempt_state b a = validate_attempt_state true a.
Proof. intros Ha. unfold validate_attempt_state. by rewrite Ha. Qed.

Lemma attempts_ok_snoc revision l a :
  attempts_ok revision (l ++ [a]) ↔
  Forall (failed_attempt revision) l ∧ attempt_identity revision a ∧
  validate_attempt_state true a = Ok tt.
Proof.
  induction l as [|x l IH]; simpl.
  { split; [intros (? & _ & ? & _); split_and!; auto; constructor|by intros (_ & ? & ?)]. }
  assert (is_nil (l ++ [a]) = false) as -> by (by destruct l).
  rewrite IH. split.
  - intros (Hx & Hf & Hs & Hl & Ha). assert (AtStatus x = PlanStageAttemptFailed)
      by (apply Hf; by destruct l).
    rewrite failed_state_any_position in Hs by done. split_and!; [|naive_solver..].
    constructor; [|done]. by split_and!.
  - intros (HF & Ha & Hs). inversion HF as [|? ? (Hx & Hxf & Hxs) Hl]; subst.
    rewrite failed_state_any_position by done. by split_and!.
Qed.

Lemma last_snoc_split {A} (l : list A) x : list.last l = Some x → l = removelast l ++ [x].
Proof.
  destruct l as [|y l' _] using rev_ind; [done|].
  rewrite last_snoc, removelast_last. by intros [= ->].
Qed.

Lemma failed_all revision l :
  attempts_ok revision l → (∀ a, list.last l = Some a → AtStatus a = PlanStageAttemptFailed) →
  Forall (failed_attempt revision) l.
Proof.
  destruct l as [|x l _] using rev_ind; [constructor|]. rewrite attempts_ok_snoc, last_snoc.
  intros (HF & Hi & Hs) Hl. apply Forall_app. split; [done|]. constructor; [|constructor].
  split_and!; auto.
Qed.

Lemma running_count_failed revision l :
  Forall (failed_attempt revision) l → running_count l = 0%nat.
Proof.
  induction 1 as [|a l (_ & Ha & _) _ IH]; [done|]. unfold running_count in *.
  rewrite filter_cons, decide_False by (by rewrite Ha). done.
Qed.

(** A stage's running attempts, from its status. *)
Lemma stage_running_count revision s id : stage_ok revision s id →
  running_count (StAttempts s) =
    if String.eqb (StStatus s) PlanStageStatusRunning then 1%nat else 0%nat.
Proof.
  intros Hok. pose proof (stage_status_cases _ _ _ Hok) as Hcases.
  destruct Hok as (_ & _ & _ & _ & Ha & Hm).
  destruct (StAttempts s) as [|a l _] eqn:Hl using rev_ind.
  { destruct (String.eqb_spec (StStatus s) PlanStageStatusRunning) as [Hs|]; [|done].
    unfold stage_matches_attempts, last_attempt_is in Hm. by rewrite Hl, Hs in Hm. }
  apply attempts_ok_snoc in Ha as (HF & _ & _).
  rewrite running_count_app, (running_count_failed _ _ HF). simpl.
  unfold stage_matches_attempts, last_attempt_is in Hm. rewrite Hl, last_snoc in Hm.
  unfold running_count. rewrite filter_cons.
  destruct Hcases as [Hs|[Hs|[Hs|Hs]]]; rewrite Hs in Hm |- *; cbn in Hm;
    apply negb_true_iff in Hm; rewrite ?orb_false_r in Hm.
  - by destruct l.
  - apply negb_false_iff, String.eqb_eq in Hm. by rewrite decide_True.
  - apply negb_false_iff, String.eqb_eq in Hm. by rewrite decide_False by (by rewrite Hm).
  - apply negb_false_iff, String.eqb_eq in Hm. by rewrite decide_False by (by rewrite Hm).
Qed.

Lemma all_attempts_insert (stages : list PlanStage) (i : nat) (s : PlanStage) :
  stages !! i = Some s →
  ∃ A B, all_attempts stages = A ++ StAttempts s ++ B ∧
    ∀ s', all_attempts (<[i := s']> stages) = A ++ StAttempts s' ++ B.
Proof.
  unfold all_attempts. revert i. induction stages as [|x stages IH]; intros [|i]; simpl; try done.
  - intros [= ->]. exists [], (concat (map StAttempts stages)). done.
  - intros (A & B & HA & HB)%IH. exists (StAttempts x ++ A), B. split.
    + by rewrite HA, <- (assoc_L app).
    + intros s'. by rewrite HB, <- (assoc_L app).
Qed.

Lemma no_running_count revision stages ids :
  Forall2 (stage_ok revision) stages ids → (∀ s, s ∈ stages → ¬ stage_is PlanStageStatusRunning s) →
  running_count (all_attempts stages) = 0%nat.
Proof.
  induction 1 as [|s id stages ids Hs _ IH]; intros Hn; [done|].
  unfold all_attempts in *. simpl. rewrite running_count_app, (stage_running_count _ _ _ Hs), IH.
  - rewrite (proj2 (String.eqb_neq _ _)); [done|]. apply Hn. by left.
  - intros x Hx. apply Hn. by right.
Qed.

(** Stages make progress front to back. *)
Definition in_order (stages : list PlanStage) : Prop :=
  ∀ i j si sj, (i < j)%nat → stages !! i = Some si → stages !! j = Some sj →
    ¬ stage_is PlanStageStatusPending sj → stage_is PlanStageStatusCompleted si.

Lemma in_order_insert stages i s s' :
  stages !! i = Some s → in_order stages →
  (∀ j sj, (j < i)%nat → stages !! j = Some sj → stage_is PlanStageStatusCompleted sj) →
  (stage_is PlanStageStatusCompleted s → stage_is PlanStageStatusCompleted s') →
  in_order (<[i := s']> stages).
Proof.
  intros Hi Ho Hbefore Hc j k sj sk Hjk Hj Hk Hsk.
  assert (Hil : (i < length stages)%nat) by (by eapply lookup_lt_Some).
  destruct (decide (k = i)) as [->|Hki].
  - rewrite list_lookup_insert_ne in Hj by lia. by eapply Hbefore.
  - rewrite list_lookup_insert_ne in Hk by done.
    destruct (decide (j = i)) as [->|Hji].
    + rewrite list_lookup_insert_eq in Hj by done. simplify_eq. apply Hc. exact (Ho i k _ sk Hjk Hi Hk Hsk).
    + rewrite list_lookup_insert_ne in Hj by done. exact (Ho j k _ sk Hjk Hj Hk Hsk).
Qed.

(** The parts of [plan_ok] about stages, after one stage is replaced. *)
Lemma stages_replaced revision stages ids i s s' :
  Forall2 (stage_ok revision) stages ids → stages !! i = Some s → StID s' = StID s →
  (∀ id, stage_ok revision s id → stage_ok revision s' id) →
  Forall2 (stage_ok revision) (<[i := s']> stages) ids.
Proof.
  intros HF Hi _ Hs. destruct (Forall2_lookup_l _ _ _ _ _ HF Hi) as (id & Hid & Hok).
  rewrite <- (list_insert_id ids i id Hid). apply Forall2_insert; auto.
Qed.

(** ** The transitions preserve the invariant *)

(** A running attempt has no receipt yet. *)
Definition no_early_receipt (stages : list PlanStage) : Prop :=
  ∀ a, a ∈ all_attempts stages → AtStatus a = PlanStageAttemptRunning → AtReceiptDigest a = "".

(** A valid plan whose stages made progress in order; revisions are uint64. *)
Definition plan_inv (ws id : string) (p : Plan) : Prop :=
  plan_ok p ws id ∧ (in_order (Stages p) ∧ no_early_receipt (Stages p)) ∧
  (0 ≤ PlRevision p ≤ max_uint64)%Z ∧ (0 ≤ StateRevision p ≤ max_uint64)%Z.

(** [bump] after a change of the status, the approval and the stages. *)
Lemma bump_inv ws id now status approved stages p :
  plan_inv ws id p → (StateRevision p < max_uint64)%Z → now ≠ time_zero →
  status ∈ plan_statuses → status ≠ PlanStatusDraft → approved = PlRevision p →
  (∀ ids, Forall2 (stage_ok (PlRevision p)) (Stages p) ids →
     Forall2 (stage_ok (PlRevision p)) stages ids) →
  NoDup (run_ids (all_attempts stages)) → (running_count (all_attempts stages) ≤ 1)%nat →
  plan_progress status stages → in_order stages → no_early_receipt stages →
  plan_inv ws id (bump now (with_status status approved stages p)).
Proof.
  intros ((Hid & _ & Happ & ids & Hids & HF & _) & _ & Hrev & Hsr) Hmax Hnow Hst Hnd -> Hst2 Hnd2 Hrc
    Hpr Hord Hner.
  destruct Hid as (? & ? & ? & ? & ? & ? & ? & ?).
  assert (Hw : wrap_u64 (StateRevision p + 1) = (StateRevision p + 1)%Z)
    by (apply wrap_u64_id; unfold max_uint64 in *; lia).
  unfold plan_inv, plan_ok, plan_identity, plan_approval; simpl. rewrite Hw.
  split_and!; auto; try lia; try congruence. exists ids. split_and!; auto.
Qed.

Lemma approve_inv ws id now p q :
  plan_inv ws id p → (StateRevision p < max_uint64)%Z → now ≠ time_zero →
  approve_change p = Ok q → plan_inv ws id (bump now q).
Proof.
  intros Hinv Hmax Hnow. unfold approve_change.
  destruct (String.eqb_spec (PlStatus p) PlanStatusDraft) as [Hd|]; simpl; [|done].
  destruct (negb (ApprovedRevision p =? 0)%Z); [done|].
  destruct (Stages p) as [|s0 st] eqn:Hst; [done|]. rewrite <- Hst.
  destruct (hasPlanStageAttempts (Stages p)); [done|]. intros [= <-].
  pose proof Hinv as ((_ & _ & _ & ids & _ & HF & Hnd & Hrc & Hp) & [Ho Hner] & _).
  apply bump_inv; auto; [set_solver|].
  destruct Hp as (Hun & _). unfold plan_progress. split_and!; try done. auto.
Qed.

Lemma lookup_stage_index stages id i : planStageIndex stages id = Some i →
  ∃ s, stages !! i = Some s ∧ StID s = id.
Proof.
  revert i. induction stages as [|s stages IH]; intros i; simpl; [done|].
  destruct (String.eqb_spec (StID s) id); [intros [= <-]; eauto|].
  destruct (planStageIndex stages id) as [j|]; [|done]. intros [= <-].
  destruct (IH j eq_refl) as (s' & ? & ?). eauto.
Qed.

Lemma elem_of_insert_list {A} (l : list A) i x y : y ∈ <[i := x]> l → y = x ∨ (y ∈ l ∧ ∃ j, j ≠ i ∧ l !! j = Some y).
Proof.
  intros (j & Hj)%list_elem_of_lookup. destruct (decide (j = i)) as [->|Hne].
  - assert (Hlt : (i < length l)%nat).
    { apply lookup_lt_Some in Hj. by rewrite length_insert in Hj. }
    rewrite list_lookup_insert_eq in Hj by done. left. by simplify_eq.
  - rewrite list_lookup_insert_ne in Hj by done. right. split; [|eauto].
    apply list_elem_of_lookup. eauto.
Qed.

Lemma run_id_used_false stages runID : run_id_used stages runID = false →
  runID ∉ run_ids (all_attempts stages).
Proof.
  unfold run_id_used. rewrite existsb_not. setoid_rewrite existsb_not. intros H Hin.
  apply list_elem_of_In, in_map_iff in Hin as (a & Ha & Hin).
  apply in_concat in Hin as (l & Hl & Hal). apply in_map_iff in Hl as (s & <- & Hs).
  rewrite <- list_elem_of_In in Hal. rewrite <- list_elem_of_In in Hs. specialize (H s Hs a Hal).
  rewrite Ha, String.eqb_refl in H. done.
Qed.

Lemma begin_inv ws id at_ now stageID runID p q :
  plan_inv ws id p → (StateRevision p < max_uint64)%Z → at_ ≠ time_zero → now ≠ time_zero →
  validPlanRunID runID = true → begin_change at_ stageID runID p = Ok q →
  plan_inv ws id (bump now q).
Proof.
  intros Hinv Hmax Hat Hnow Hrun. unfold begin_change.
  destruct (Z.eqb_spec (ApprovedRevision p) (PlRevision p)) as [Happ|]; cbn [negb orb]; [|done].
  destruct (_ && negb (String.eqb (PlStatus p) PlanStatusFailed)) eqn:Hstat; [done|].
  destruct (String.eqb (trim_space (PlStatus p)) PlanStatusCompleted); [done|].
  destruct (planHasRunningStage (Stages p)) eqn:Hnr; [done|].
  destruct (planStageIndex (Stages p) stageID) as [i|] eqn:Hix; [|done].
  destruct (lookup_stage_index _ _ _ Hix) as (s & Hs & HsID). rewrite Hs.
  destruct (negb (String.eqb (StStatus s) PlanStageStatusPending)
            && negb (String.eqb (StStatus s) PlanStageStatusFailed)) eqn:Hel; [done|].
  destruct (existsb _ (take i (Stages p))) eqn:Hpre; [done|].
  destruct (run_id_used (Stages p) runID) eqn:Hused; [done|].
  destruct (Nat.leb_spec 32 (length (StAttempts s))); [done|]. intros [= <-].
  pose proof Hinv as ((_ & _ & _ & ids & _ & HF & Hnd & Hrc & Hp) & [Ho Hner] & _).
  destruct (Forall2_lookup_l _ _ _ _ _ HF Hs) as (sid & Hsid & Hok).
  set (a := {| AtRunID := runID |}) in *.
  set (s' := {| StID := StID s; StStatus := PlanStageStatusRunning;
               StAttempts := StAttempts s ++ [a] |}).
  assert (Hbefore : ∀ j sj, (j < i)%nat → Stages p !! j = Some sj →
    stage_is PlanStageStatusCompleted sj).
  { intros j sj Hj Hlk. rewrite existsb_not in Hpre.
    assert (Hin : sj ∈ take i (Stages p)).
    { apply list_elem_of_lookup. exists j. by rewrite lookup_take_lt. }
    specialize (Hpre _ Hin). by apply negb_false_iff, String.eqb_eq in Hpre. }
  assert (Hnotrun : ∀ x, x ∈ Stages p → ¬ stage_is PlanStageStatusRunning x).
  { unfold planHasRunningStage in Hnr. rewrite existsb_not in Hnr. intros x Hx.
    by apply String.eqb_neq, Hnr. }
  assert (Hsnc : ¬ stage_is PlanStageStatusCompleted s).
  { intros Hc. unfold stage_is in Hc. by rewrite Hc in Hel. }
  assert (Hfailed : Forall (failed_attempt (PlRevision p)) (StAttempts s)).
  { destruct Hok as (_ & _ & _ & _ & Hao & Hm). apply failed_all; [done|]. intros x Hx.
    unfold stage_matches_attempts, last_attempt_is in Hm. rewrite Hx in Hm.
    apply andb_false_iff in Hel as [He|He]; apply negb_false_iff, String.eqb_eq in He;
      rewrite He in Hm; cbn in Hm.
    - by destruct (StAttempts s).
    - apply negb_true_iff, negb_false_iff, String.eqb_eq in Hm. done. }
  destruct (all_attempts_insert _ _ _ Hs) as (A & B & HA & HB). specialize (HB s').
  assert (Hperm : run_ids (all_attempts (<[i:=s']> (Stages p))) ≡ₚ
    runID :: run_ids (all_attempts (Stages p))).
  { rewrite HB, HA. simpl. rewrite !run_ids_app. simpl. solve_Permutation. }
  apply bump_inv; auto.
  - set_solver.
  - intros ids' HF'. eapply stages_replaced; [done|done|done|].
    intros id' (H1 & H2 & H3 & H4 & H5 & H6). split_and!; [done|done|done| | |].
    + simpl. rewrite length_app. simpl. lia.
    + simpl. apply attempts_ok_snoc. split_and!; [done|by repeat split|done].
    + unfold stage_matches_attempts, last_attempt_is. simpl. by rewrite last_snoc.
  - rewrite Hperm. constructor; [|done]. by apply run_id_used_false.
  - assert (Hz : running_count (all_attempts (Stages p)) = 0%nat) by (by eapply no_running_count).
    rewrite HB, !running_count_app. rewrite HA, !running_count_app in Hz. simpl.
    rewrite running_count_app. change (running_count [a]) with 1%nat. lia.
  - unfold plan_progress. split_and!; try done; [intros [?|?]; done|].
    intros _ x [->|(_ & j & Hj & Hx)]%elem_of_insert_list Hf; [done|].
    destruct (decide (j < i)%nat) as [Hlt|].
    + specialize (Hbefore _ _ Hlt Hx). unfold stage_is in *. by rewrite Hf in Hbefore.
    + apply Hsnc. apply (Ho i j s x); [lia|done|done|]. unfold stage_is in *. by rewrite Hf.
  - by eapply in_order_insert.
  - intros x. rewrite HB. cbn [StAttempts s']. rewrite !elem_of_app, list_elem_of_singleton.
    intros [Hx|[[Hx| ->]|Hx]] Hrx; [|by apply Hner; [rewrite HA, !elem_of_app; auto|]|done|];
      apply Hner; rewrite ?HA, ?elem_of_app; auto.
Qed.

(** Closing the active attempt. *)
Lemma active_attempt_spec stageID runID none mismatch p i s a :
  active_attempt stageID runID none mismatch p = Ok (i, s, a) →
  Stages p !! i = Some s ∧ StID s = stageID ∧ list.last (StAttempts s) = Some a ∧
  PlStatus p = PlanStatusExecuting ∧ StStatus s = PlanStageStatusRunning ∧
  AtRunID a = runID ∧ AtPlanRevision a = PlRevision p ∧ AtStatus a = PlanStageAttemptRunning.
Proof.
  unfold active_attempt. destruct (planStageIndex (Stages p) stageID) as [j|] eqn:Hix; [|done].
  destruct (lookup_stage_index _ _ _ Hix) as (s' & Hs & HsID). rewrite Hs.
  destruct (list.last (StAttempts s')) as [a'|] eqn:Hl; [|done].
  destruct (String.eqb_spec (PlStatus p) PlanStatusExecuting); cbn [negb orb]; [|done].
  destruct (String.eqb_spec (StStatus s') PlanStageStatusRunning); cbn [negb orb]; [|done].
  destruct (String.eqb_spec (AtRunID a') runID); cbn [negb orb]; [|done].
  destruct (Z.eqb_spec (AtPlanRevision a') (PlRevision p)); cbn [negb orb]; [|done].
  destruct (String.eqb_spec (AtStatus a') PlanStageAttemptRunning); cbn [negb orb]; [|done].
  intros [= <- <- <-]. by split_and!.
Qed.

Lemma close_inv ws id now p i s a a' stageStatus status :
  plan_inv ws id p → (StateRevision p < max_uint64)%Z → now ≠ time_zero →
  Stages p !! i = Some s → list.last (StAttempts s) = Some a →
  StStatus s = PlanStageStatusRunning → PlStatus p = PlanStatusExecuting →
  AtRunID a' = AtRunID a → AtPlanRevision a' = AtPlanRevision a → AtStartedAt a' = AtStartedAt a →
  validate_attempt_state true a' = Ok tt →
  AtStatus a' = stageStatus → stageStatus ∈ [PlanStageStatusCompleted; PlanStageStatusFailed] →
  (stageStatus = PlanStageStatusCompleted →
     status = if forallb (λ s, String.eqb (StStatus s) PlanStageStatusCompleted)
                   (<[i := close_stage stageStatus a' s]> (Stages p))
              then PlanStatusCompleted else PlStatus p) →
  (stageStatus = PlanStageStatusFailed → status = PlanStatusFailed) →
  plan_inv ws id (bump now (with_status status (ApprovedRevision p)
    (<[i := close_stage stageStatus a' s]> (Stages p)) p)).
Proof.
  intros Hinv Hmax Hnow Hs Hl Hsr Hps Hrid Hrev Hstart Hstate Hst' Hin Hcompl Hfail.
  pose proof Hinv as ((_ & _ & (_ & _ & Happ) & ids & _ & HF & Hnd & Hrc & Hp) & [Ho Hner] & _).
  destruct (Forall2_lookup_l _ _ _ _ _ HF Hs) as (sid & Hsid & Hok).
  pose proof (last_snoc_split _ _ Hl) as Hsplit.
  set (s' := close_stage stageStatus a' s) in *.
  destruct (all_attempts_insert _ _ _ Hs) as (A & B & HA & HB). specialize (HB s').
  assert (Hids : run_ids (all_attempts (<[i:=s']> (Stages p))) = run_ids (all_attempts (Stages p))).
  { rewrite HB, HA. simpl. rewrite !run_ids_app. rewrite Hsplit at 2. rewrite run_ids_app.
    do 2 f_equal. f_equal. simpl. by rewrite Hrid. }
  assert (Hstatus : status ∈ [PlanStatusExecuting; PlanStatusCompleted; PlanStatusFailed]).
  { rewrite !elem_of_cons in Hin. destruct Hin as [H|[H|[]%not_elem_of_nil]].
    - rewrite (Hcompl H), Hps. case_match; set_solver.
    - rewrite (Hfail H). set_solver. }
  assert (Hbefore : ∀ j sj, (j < i)%nat → Stages p !! j = Some sj →
    stage_is PlanStageStatusCompleted sj).
  { intros j sj Hj Hlk. apply (Ho j i sj s Hj Hlk Hs). unfold stage_is. by rewrite Hsr. }
  assert (Hafter : ∀ j sj, (i < j)%nat → Stages p !! j = Some sj →
    stage_is PlanStageStatusPending sj).
  { intros j sj Hj Hlk. destruct (decide (stage_is PlanStageStatusPending sj)) as [|Hn]; [done|].
    pose proof (Ho i j s sj Hj Hs Hlk Hn) as Hc. unfold stage_is in Hc. by rewrite Hc in Hsr. }
  assert (Happ' : ApprovedRevision p = PlRevision p) by (apply Happ; by rewrite Hps).
  assert (Hrunning : running_count (StAttempts s') = 0%nat).
  { simpl. rewrite running_count_app.
    destruct Hok as (_ & _ & _ & _ & Hao & _). rewrite Hsplit, attempts_ok_snoc in Hao.
    rewrite (running_count_failed _ _ (proj1 Hao)). unfold running_count. rewrite filter_cons.
    rewrite !elem_of_cons in Hin. rewrite Hst'.
    destruct Hin as [->|[->|[]%not_elem_of_nil]]; by rewrite decide_False. }
  apply bump_inv; auto.
  - rewrite !elem_of_cons in Hstatus. unfold plan_statuses. rewrite !elem_of_cons. tauto.
  - rewrite !elem_of_cons in Hstatus. by destruct Hstatus as [->|[->|[->|[]%not_elem_of_nil]]].
  - intros ids' HF'. eapply stages_replaced; [done|done|done|].
    intros id' (H1 & H2 & H3 & H4 & H5 & H6). rewrite Hsplit, attempts_ok_snoc in H5.
    destruct H5 as (H5 & (H7 & H8 & H9) & _). split_and!; [done|done| | | |].
    + apply status_in_spec. change (StStatus s') with stageStatus. unfold stage_statuses.
      rewrite !elem_of_cons in Hin. rewrite !elem_of_cons. tauto.
    + rewrite Hsplit in H4. rewrite length_app in H4. simpl in *. rewrite length_app. simpl. lia.
    + simpl. apply attempts_ok_snoc. split_and!; [done| |done]. split_and!; congruence.
    + unfold stage_matches_attempts, last_attempt_is. simpl. rewrite last_snoc, Hst'.
      rewrite !elem_of_cons in Hin. by destruct Hin as [->|[->|[]%not_elem_of_nil]].
  - by rewrite Hids.
  - rewrite HB, !running_count_app, Hrunning. rewrite HA, !running_count_app in Hrc. lia.
  - rewrite !elem_of_cons in Hin. destruct Hin as [H|[H|[]%not_elem_of_nil]].
    + rewrite (Hcompl H), Hps. destruct (forallb _ _) eqn:Hall.
      * unfold plan_progress. split_and!; try done; [intros [?|?]; done|].
        intros _ x Hx. rewrite forallb_forall in Hall. apply list_elem_of_In in Hx.
        by apply String.eqb_eq, Hall.
      * unfold plan_progress. split_and!; try done; [intros [?|?]; done|].
        intros _ x [->|(Hx & _)]%elem_of_insert_list Hf.
        -- unfold stage_is in Hf. simpl in Hf. by rewrite H in Hf.
        -- destruct Hp as (_ & Hex & _). by apply (Hex Hps x).
    + rewrite (Hfail H). unfold plan_progress. split_and!; try done; [intros [?|?]; done|].
      intros _. split.
      * intros x [->|(_ & j & Hj & Hx)]%elem_of_insert_list Hf.
        -- unfold stage_is in Hf. simpl in Hf. by rewrite H in Hf.
        -- destruct (decide (j < i)%nat) as [Hlt|].
           ++ specialize (Hbefore _ _ Hlt Hx). unfold stage_is in *. by rewrite Hf in Hbefore.
           ++ assert (Hgt : (i < j)%nat) by lia. specialize (Hafter _ _ Hgt Hx).
              unfold stage_is in *. by rewrite Hf in Hafter.
      * exists s'. split; [|done]. apply list_elem_of_lookup. exists i.
        apply list_lookup_insert_eq. by eapply lookup_lt_Some.
  - eapply in_order_insert; [done|done|done|]. intros Hc. unfold stage_is in Hc.
    by rewrite Hc in Hsr.
  - intros x. rewrite HB. cbn [StAttempts s' close_stage].
    rewrite !elem_of_app, list_elem_of_singleton.
    intros [Hx|[[Hx| ->]|Hx]] Hrx.
    + apply Hner; [|done]. rewrite HA, !elem_of_app. auto.
    + apply Hner; [|done]. rewrite HA, !elem_of_app, Hsplit, !elem_of_app. auto.
    + rewrite Hst' in Hrx. rewrite !elem_of_cons in Hin. rewrite Hrx in Hin.
      by destruct Hin as [?|[?|?%not_elem_of_nil]].
    + apply Hner; [|done]. rewrite HA, !elem_of_app. auto.
Qed.

Lemma finish_inv ws id at_ now req p q :
  plan_inv ws id p → (StateRevision p < max_uint64)%Z → at_ ≠ time_zero → now ≠ time_zero →
  finish_change at_ req p = Ok q → plan_inv ws id (bump now q).
Proof.
  intros Hinv Hmax Hat Hnow. unfold finish_change.
  destruct (active_attempt _ _ _ _ p) as [[[i s] a]|e] eqn:Ha; [|done]. cbn [mbind result_bind].
  apply active_attempt_spec in Ha as (Hs & _ & Hl & Hps & Hsr & _ & _ & Has).
  assert (Hz : is_zero at_ = false) by (by apply Z.eqb_neq).
  destruct (String.eqb_spec (FStatus req) PlanStageStatusCompleted) as [Hc|Hc].
  - destruct (negb (String.eqb (FVerificationStatus req) "passed") || _ || _ || _ || _) eqn:Hev;
      [done|].
    rewrite !orb_false_iff, !negb_false_iff in Hev. destruct Hev as ((((Hv1 & Hv2) & Hv3) & Hv4) & Hv5).
    intros [= <-]. eapply close_inv; eauto; [|set_solver|done].
    unfold validate_attempt_state; cbn. rewrite Hz, Hv1, String.eqb_refl. unfold validAcceptanceEvidence.
    cbn. rewrite Hv1, Hv2, Hv3, Hv4, Hz.
    apply andb_false_iff in Hv5 as [H5|H5]; apply negb_false_iff in H5; rewrite H5, ?orb_true_r; done.
  - destruct (_ && negb (String.eqb _ "not-run")) eqn:Hv; [done|].
    destruct (negb (String.eqb (FReceiptDigest req) "") && _) eqn:Hr; [done|].
    intros [= <-]. eapply close_inv; eauto; [|set_solver|done].
    unfold validate_attempt_state; cbn. rewrite Hz, Hr. cbn.
    unfold verification_known.
    apply andb_false_iff in Hv as [Hv|Hv]; [apply andb_false_iff in Hv as [Hv|Hv]|];
      apply negb_false_iff in Hv; rewrite Hv, ?orb_true_r; done.
Qed.

Lemma reconcile_inv ws id at_ now stageID runID p q :
  plan_inv ws id p → (StateRevision p < max_uint64)%Z → at_ ≠ time_zero → now ≠ time_zero →
  reconcile_change at_ stageID runID p = Ok q → plan_inv ws id (bump now q).
Proof.
  intros Hinv Hmax Hat Hnow. unfold reconcile_change.
  destruct (active_attempt _ _ _ _ p) as [[[i s] a]|e] eqn:Ha; [|done]. cbn [mbind result_bind].
  apply active_attempt_spec in Ha as (Hs & _ & Hl & Hps & Hsr & _ & _ & Has).
  assert (Hz : is_zero at_ = false) by (by apply Z.eqb_neq).
  assert (Hrd : AtReceiptDigest a = "").
  { pose proof Hinv as (_ & [_ Hner] & _). apply Hner; [|done].
    destruct (all_attempts_insert _ _ _ Hs) as (A & B & HA & _).
    rewrite HA, (last_snoc_split _ _ Hl), !elem_of_app, list_elem_of_singleton. auto. }
  intros [= <-]. eapply close_inv; eauto; [|set_solver|done].
  unfold validate_attempt_state; cbn. by rewrite Hz, Hrd.
Qed.

(** ** Runs of the store *)

Definition is_change (at_ : time) (change : Plan → result PlanError Plan) : Prop :=
  change = approve_change ∨
  (∃ stageID runID, validPlanRunID runID = true ∧ change = begin_change at_ stageID runID) ∨
  (∃ req, change = finish_change at_ req) ∨
  (∃ stageID runID, change = reconcile_change at_ stageID runID).

Lemma change_inv ws id at_ now change p q :
  is_change at_ change → plan_inv ws id p → (StateRevision p < max_uint64)%Z →
  at_ ≠ time_zero → now ≠ time_zero → change p = Ok q → plan_inv ws id (bump now q).
Proof.
  intros [->|[(st & run & Hrun & ->)|[(req & ->)|(st & run & ->)]]] Hinv Hmax Hat Hnow Hq.
  - by apply (approve_inv ws id now p).
  - by apply (begin_inv ws id at_ now st run p).
  - by apply (finish_inv ws id at_ now req p).
  - by apply (reconcile_inv ws id at_ now st run p).
Qed.

(** What a change keeps of the plan. *)
Lemma change_frame at_ change p q : is_change at_ change → change p = Ok q →
  PlRevision q = PlRevision p ∧ StateRevision q = StateRevision p ∧ Definition0 q = Definition0 p ∧
  PlID q = PlID p ∧ CreatedAt q = CreatedAt p.
Proof.
  assert (Hw : ∀ st ap l, let q := with_status st ap l p in
    PlRevision q = PlRevision p ∧ StateRevision q = StateRevision p ∧ Definition0 q = Definition0 p ∧
    PlID q = PlID p ∧ CreatedAt q = CreatedAt p) by done.
  intros [->|[(st & run & _ & ->)|[(req & ->)|(st & run & ->)]]].
  - unfold approve_change. repeat case_match; try done. intros [= <-]. apply Hw.
  - unfold begin_change. repeat case_match; try done. intros [= <-]. apply Hw.
  - unfold finish_change. destruct (active_attempt _ _ _ _ p) as [[[i s] a]|]; [|done].
    cbn [mbind result_bind]. repeat case_match; try done; intros [= <-]; apply Hw.
  - unfold reconcile_change. destruct (active_attempt _ _ _ _ p) as [[[i s] a]|]; [|done].
    cbn [mbind result_bind]. intros [= <-]. apply Hw.
Qed.

Lemma mutatePlan_Ok now w e ev ws id rev srev change s s1 p :
  mutatePlan now w e ev ws id rev srev change s = (s1, Ok p) →
  ∃ q q', readPlanLocked (trim_space ws) id s = Ok q ∧ PlRevision q = rev ∧ StateRevision q = srev ∧
    srev ≠ max_uint64 ∧ change q = Ok q' ∧ p = bump now q' ∧
    validatePlanRecord p (trim_space ws) id = Ok tt ∧
    files s1 = <[(trim_space ws, id) := stored p]> (files s).
Proof.
  unfold mutatePlan. destruct (Get (trim_space ws) s); [|by intros [= ]]. cbn [mbind result_bind].
  destruct (negb (validPlanID id)); [done|].
  destruct ((rev =? 0)%Z || (srev =? 0)%Z); [done|].
  destruct (readPlanLocked _ id s) as [q|]; [|done]. cbn [mbind result_bind].
  destruct (Z.eqb_spec (PlRevision q) rev); cbn [negb orb]; [|done].
  destruct (Z.eqb_spec (StateRevision q) srev); cbn [negb orb]; [|done].
  destruct (Z.eqb_spec (StateRevision q) max_uint64); [done|].
  destruct (change q) as [q'|] eqn:Hq; [|done]. cbn [mbind result_bind].
  destruct (validatePlanRecord (bump now q') _ id) as [[]|] eqn:Hv; [|done].
  cbn [mbind result_bind]. unfold commit. destruct w; cbn [negb]; [|done].
  intros [= <- <-]. exists q, q'. split_and!; try done; [congruence|by destruct e].
Qed.

Lemma mutatePlan_Err now w e ev ws id rev srev change s s1 err :
  mutatePlan now w e ev ws id rev srev change s = (s1, Err err) → s1 = s.
Proof.
  unfold mutatePlan. case_match; [|by intros [= <-]]. unfold commit.
  destruct w; cbn; [done|by intros [= <-]].
Qed.

Definition fresh_plan (now : time) (ws id : string) (d : Definition_) (ids : list string) : Plan :=
  {| Version := CurrentPlanVersion; PlID := id; WorkstreamID := ws; PlRevision := 1;
     StateRevision := 1; PlStatus := PlanStatusDraft; ApprovedRevision := 0; Definition0 := d;
     Stages := map pending_stage ids; CreatedAt := now; UpdatedAt := now |}.

Lemma CreatePlan_cases gen now w e ws reqID d s s1 r :
  CreatePlan gen now w e ws reqID d s = (s1, r) →
  (s1 = s ∧ ∃ err, r = Err err) ∨
  (∃ id ids, files s !! (trim_space ws, id) = None ∧
     let p := fresh_plan now (trim_space ws) id d ids in
     validatePlanRecord p (trim_space ws) id = Ok tt ∧
     files s1 = <[(trim_space ws, id) := stored p]> (files s) ∧
     ((r = Ok p ∧ e = true) ∨ (r = Err ErrPlanEvent ∧ e = false))).
Proof.
  unfold CreatePlan. destruct (_ ← Get (trim_space ws) s; _) as [ids|]; [|intros [= <- <-]; eauto].
  case_match; [intros [= <- <-]; eauto|]. case_match; [intros [= <- <-]; eauto|].
  destruct (files s !! _) eqn:Hf; [intros [= <- <-]; eauto|].
  destruct (validatePlanRecord _ _ _) as [[]|] eqn:Hv; [|intros [= <- <-]; eauto].
  destruct w; cbn [negb]; [|intros [= <- <-]; eauto].
  destruct e; cbn [negb]; intros [= <- <-]; right; eexists _, ids; (split; [exact Hf|]); eauto 10.
Qed.

Lemma UpdatePlan_Ok now w e ws id rev srev d s s1 p :
  UpdatePlan now w e ws id rev srev d s = (s1, Ok p) →
  ∃ q ids, readPlanLocked (trim_space ws) id s = Ok q ∧ PlRevision q = rev ∧ StateRevision q = srev ∧
    hasPlanStageAttempts (Stages q) = false ∧
    rev ≠ max_uint64 ∧ srev ≠ max_uint64 ∧ (PlStatus q = PlanStatusDraft ∨ PlStatus q = PlanStatusApproved) ∧
    planDefinitionStageIDs d = Ok ids ∧ Definition0 p = d ∧ PlStatus p = PlanStatusDraft ∧
    Stages p = map pending_stage ids ∧ PlRevision p = wrap_u64 (rev + 1) ∧
    StateRevision p = wrap_u64 (srev + 1) ∧ validatePlanRecord p (trim_space ws) id = Ok tt ∧
    files s1 = <[(trim_space ws, id) := stored p]> (files s).
Proof.
  unfold UpdatePlan. destruct (Get (trim_space ws) s); [|by intros [= ]]. cbn [mbind result_bind].
  destruct (negb (validPlanID id)); [done|].
  destruct (planDefinitionStageIDs d) as [ids|]; [|done]. cbn [mbind result_bind].
  destruct (maxPlanDefinitionBytes <? def_len d)%Z; [done|].
  destruct ((rev =? 0)%Z || (srev =? 0)%Z); [done|].
  destruct (readPlanLocked _ id s) as [q|]; [|done]. cbn [mbind result_bind].
  destruct (Z.eqb_spec (PlRevision q) rev); cbn [negb orb]; [|done].
  destruct (Z.eqb_spec (StateRevision q) srev); cbn [negb orb]; [|done].
  destruct (negb (String.eqb (PlStatus q) PlanStatusDraft) && _) eqn:Hst; [done|].
  destruct (hasPlanStageAttempts (Stages q)) eqn:Ha; [done|].
  destruct (Z.eqb_spec (PlRevision q) max_uint64); cbn [orb]; [done|].
  destruct (Z.eqb_spec (StateRevision q) max_uint64); [done|].
  destruct (validatePlanRecord _ _ id) as [[]|] eqn:Hv; [|done]. cbn [mbind result_bind].
  unfold commit. destruct w; cbn [negb]; [|done].
  intros [= <- <-]. exists q, ids. split_and!; try done; try (simpl; congruence); try (by destruct e).
  apply andb_false_iff in Hst as [H|H]; apply negb_false_iff, String.eqb_eq in H; auto.
Qed.

Lemma UpdatePlan_Err now w e ws id rev srev d s s1 err :
  UpdatePlan now w e ws id rev srev d s = (s1, Err err) → s1 = s.
Proof.
  unfold UpdatePlan. case_match; [|by intros [= <-]]. unfold commit.
  destruct w; cbn; [done|by intros [= <-]].
Qed.

(** The part of the invariant that does not depend on the stored definition. *)
Definition side_inv (p : Plan) : Prop :=
  (in_order (Stages p) ∧ no_early_receipt (Stages p)) ∧
  (0 ≤ PlRevision p ≤ max_uint64)%Z ∧ (0 ≤ StateRevision p ≤ max_uint64)%Z.

Definition store_inv (s : PlanStore) : Prop :=
  ∀ k st, files s !! k = Some st → ∃ p, st = StoredOk p ∧ side_inv p.

Lemma read_inv ws id s p : store_inv s → readPlanLocked ws id s = Ok p →
  plan_inv ws id p ∧ files s !! (ws, id) = Some (StoredOk p).
Proof.
  intros Hs. unfold readPlanLocked. destruct (negb (validPlanID id)); [done|].
  destruct (files s !! (ws, id)) as [st|] eqn:Hf; [|done].
  destruct (Hs _ _ Hf) as (p' & -> & Hside).
  destruct (validatePlanRecord p' ws id) as [[]|] eqn:Hv; [|done]. intros [= <-].
  apply validatePlanRecord_spec in Hv. split; [by split|done].
Qed.

Lemma side_inv_pending p ids : Stages p = map pending_stage ids →
  (0 ≤ PlRevision p ≤ max_uint64)%Z → (0 ≤ StateRevision p ≤ max_uint64)%Z → side_inv p.
Proof.
  intros Hst ? ?. split; [|done]. rewrite Hst. split.
  - intros i j si sj _ _ Hj Hn. destruct Hn.
    apply list_elem_of_lookup_2, list_elem_of_In, in_map_iff in Hj as (x & <- & _). done.
  - intros a Ha _. exfalso. apply list_elem_of_In, in_concat in Ha as (l & Hl & Ha).
    apply in_map_iff in Hl as (x & <- & Hx). by apply in_map_iff in Hx as (y & <- & _).
Qed.

Lemma side_stored p : side_inv p → ∃ p', stored p = StoredOk p' ∧ side_inv p'.
Proof. intros H. eexists. split; [done|]. exact H. Qed.

Lemma store_inv_insert s s1 k p : store_inv s → side_inv p →
  files s1 = <[k := stored p]> (files s) → store_inv s1.
Proof.
  intros Hs Hp Hf k' st. rewrite Hf, lookup_insert. case_decide; [|by apply Hs].
  intros [= <-]. by apply side_stored.
Qed.

(** The plan and the revisions an operation names. *)
Definition op_target (op : PlanOp) : option (string * string * Z * Z) :=
  match op with
  | OpCreate _ _ _ _ => None
  | OpUpdate ws id rev srev _ | OpApprove ws id rev srev | OpBegin ws id rev srev _ _
  | OpFinish ws id rev srev _ | OpReconcile ws id rev srev _ _ _ =>
      Some (trim_space ws, id, rev, srev)
  end.

(** The transition an operation asks for. *)
Definition op_change (at_ : time) (op : PlanOp) : option (Plan → result PlanError Plan) :=
  match op with
  | OpCreate _ _ _ _ | OpUpdate _ _ _ _ _ => None
  | OpApprove _ _ _ _ => Some approve_change
  | OpBegin _ _ _ _ st run => Some (begin_change at_ st run)
  | OpFinish _ _ _ _ req => Some (finish_change at_ req)
  | OpReconcile _ _ _ _ st run _ => Some (reconcile_change at_ st run)
  end.

(** [perform], split into the operations that change a plan by a transition. *)
Lemma perform_cases at_ now w e op s s1 r :
  perform at_ now w e op s = (s1, r) →
  (s1 = s ∧ ∃ err, r = Err err) ∨
  (∃ ws reqID gen d, op = OpCreate ws reqID gen d ∧ CreatePlan gen now w e ws reqID d s = (s1, r)) ∨
  (∃ ws id rev srev d p, op = OpUpdate ws id rev srev d ∧ r = Ok p ∧
     UpdatePlan now w e ws id rev srev d s = (s1, Ok p)) ∨
  (∃ ws id rev srev ev change p, is_change at_ change ∧ r = Ok p ∧
     op_change at_ op = Some change ∧ op_target op = Some (trim_space ws, id, rev, srev) ∧
     mutatePlan now w e ev ws id rev srev change s = (s1, Ok p)).
Proof.
  unfold perform. intros H. destruct op as [ws reqID gen d|ws id rev srev d|ws id rev srev
    |ws id rev srev st run|ws id rev srev req|ws id rev srev st run ack].
  - right; left. eauto 10.
  - destruct r as [p|err]; [right; right; left; eauto 10|]. left.
    apply UpdatePlan_Err in H. eauto.
  - unfold ApprovePlan in H. destruct r as [p|err]; [|apply mutatePlan_Err in H; left; eauto].
    right; right; right. exists ws, id, rev, srev, "plan_approved", approve_change, p.
    split_and!; auto. by left.
  - unfold BeginPlanStage in H. destruct (negb (validPlanRunID run)) eqn:Hr; cbn [orb] in H.
    { injection H as <- <-. left. eauto. }
    destruct (negb (validPlanID st)); [injection H as <- <-; left; eauto|].
    destruct r as [p|err]; [|apply mutatePlan_Err in H; left; eauto].
    right; right; right. eexists ws, id, rev, srev, _, (begin_change at_ st run), p.
    apply negb_false_iff in Hr. split_and!; eauto. right; left. eauto.
  - unfold FinishPlanStage in H. destruct (_ && _); [injection H as <- <-; left; eauto|].
    destruct r as [p|err]; [|apply mutatePlan_Err in H; left; eauto].
    right; right; right. eexists ws, id, rev, srev, _, (finish_change at_ req), p.
    split_and!; eauto. right; right; left. eauto.
  - unfold ReconcilePlanStage in H. destruct ack; cbn [negb] in H;
      [|injection H as <- <-; left; eauto].
    destruct (_ || _); [injection H as <- <-; left; eauto|].
    destruct r as [p|err]; [|apply mutatePlan_Err in H; left; eauto].
    right; right; right. eexists ws, id, rev, srev, _, (reconcile_change at_ st run), p.
    split_and!; eauto. right; right; right. eauto.
Qed.

(** One operation, with clock readings that are not the zero time. *)
Inductive store_step : PlanStore → PlanStore → Prop :=
| store_step_intro at_ now w e op s s1 r :
    at_ ≠ time_zero → now ≠ time_zero → perform at_ now w e op s = (s1, r) → store_step s s1.

Definition reachable_store (s : PlanStore) : Prop :=
  ∃ wss tl, rtc store_step {| workstreams := wss; files := ∅; timeline := tl |} s.

Lemma update_side q p ids : side_inv q →
  PlRevision q ≠ max_uint64 → StateRevision q ≠ max_uint64 →
  Stages p = map pending_stage ids → PlRevision p = wrap_u64 (PlRevision q + 1) →
  StateRevision p = wrap_u64 (StateRevision q + 1) → side_inv p.
Proof.
  intros (_ & H1 & H2) N1 N2 Hst Hr Hs. eapply side_inv_pending; [done| |];
    rewrite ?Hr, ?Hs, wrap_u64_id; lia.
Qed.

Lemma perform_inv at_ now w e op s s1 r :
  at_ ≠ time_zero → now ≠ time_zero → store_inv s → perform at_ now w e op s = (s1, r) →
  store_inv s1.
Proof.
  intros Hat Hnow Hs H. apply perform_cases in H as
    [(-> & _)|[(ws & rq & gen & d & _ & H)|[(ws & id & rev & srev & d & p & _ & _ & H)
    |(ws & id & rev & srev & ev & ch & p & Hch & _ & _ & _ & H)]]]; [done|..].
  - apply CreatePlan_cases in H as [(-> & _)|(id & ids & _ & _ & Hf & _)]; [done|].
    eapply store_inv_insert; [done| |exact Hf].
    eapply side_inv_pending; simpl; [done|unfold max_uint64; lia..].
  - apply UpdatePlan_Ok in H as (q & ids & Hq & <- & <- & _ & N1 & N2 & _ & _ & _ & _ & Hst & Hr & Hsr & _ & Hf).
    apply read_inv in Hq as [[_ Hside] _]; [|done].
    eapply store_inv_insert; [done| |exact Hf]. by eapply (update_side q).
  - apply mutatePlan_Ok in H as (q & q' & Hq & <- & <- & N & Hc & -> & _ & Hf).
    apply read_inv in Hq as [Hinv _]; [|done].
    eapply store_inv_insert; [done| |exact Hf]. pose proof Hinv as (_ & _ & _ & ? & ?).
    eapply (change_inv _ _ at_ now ch); eauto. lia.
Qed.

Lemma reachable_inv s : reachable_store s → store_inv s.
Proof.
  intros (wss & tl & Hr). assert (Hi : store_inv {| workstreams := wss; files := ∅; timeline := tl |}).
  { intros k st. simpl. by rewrite lookup_empty. }
  revert Hi. induction Hr as [|s1 s2 s3 Hst _ IH]; [done|]. intros Hi. apply IH.
  destruct Hst as [at_ now w e op s1 s2 r Hat Hnow Hp]. exact (perform_inv _ _ _ _ _ _ _ _ Hat Hnow Hi Hp).
Qed.

(** Plan files stay, and their state revision never decreases. *)
Definition rev_le (s s1 : PlanStore) : Prop :=
  ∀ k p, files s !! k = Some (StoredOk p) →
    ∃ p1, files s1 !! k = Some (StoredOk p1) ∧ (StateRevision p ≤ StateRevision p1)%Z.

Lemma perform_rev at_ now w e op s s1 r :
  at_ ≠ time_zero → now ≠ time_zero → store_inv s → perform at_ now w e op s = (s1, r) →
  rev_le s s1.
Proof.
  intros Hat Hnow Hs H.
  assert (Hins : ∀ k q p, files s !! k = Some (StoredOk q) →
    (StateRevision q ≤ StateRevision p)%Z → files s1 = <[k := stored p]> (files s) → rev_le s s1).
  { intros k q p Hq Hle Hf k' p' Hp'. rewrite Hf, lookup_insert. case_decide; [|by exists p'].
    subst k'. simplify_eq. eexists. by split. }
  apply perform_cases in H as
    [(-> & _)|[(ws & rq & gen & d & _ & H)|[(ws & id & rev & srev & d & p & _ & _ & H)
    |(ws & id & rev & srev & ev & ch & p & Hch & _ & _ & _ & H)]]].
  - intros k p Hp. by exists p.
  - apply CreatePlan_cases in H as [(-> & _)|(id & ids & Hn & _ & Hf & _)];
      [intros k p Hp; by exists p|].
    intros k p Hp. rewrite Hf, lookup_insert_ne; [by exists p|]. intros <-. congruence.
  - apply UpdatePlan_Ok in H as (q & ids & Hq & <- & <- & _ & N1 & N2 & _ & _ & _ & _ & Hst & Hr & Hsr & _ & Hf).
    apply read_inv in Hq as [(_ & _ & _ & ? & ?) Hfile]; [|done].
    eapply Hins; [exact Hfile| |exact Hf]. rewrite Hsr, wrap_u64_id; lia.
  - apply mutatePlan_Ok in H as (q & q' & Hq & <- & <- & N & Hc & -> & _ & Hf).
    apply read_inv in Hq as [(_ & _ & _ & ? & ?) Hfile]; [|done].
    eapply Hins; [exact Hfile| |exact Hf]. simpl.
    destruct (change_frame _ _ _ _ Hch Hc) as (_ & -> & _). rewrite wrap_u64_id; lia.
Qed.

Lemma steps_rev s s1 : rtc store_step s s1 → store_inv s → store_inv s1 ∧ rev_le s s1.
Proof.
  induction 1 as [s|s1 s2 s3 Hst _ IH]; intros Hi; [by split; [|intros k p ?; exists p]|].
  destruct Hst as [at_ now w e op s1 s2 r Hat Hnow Hp1].
  pose proof (perform_inv _ _ _ _ _ _ _ _ Hat Hnow Hi Hp1) as Hi2. destruct (IH Hi2) as [? Hle].
  split; [done|]. intros k p Hp.
  destruct (perform_rev _ _ _ _ _ _ _ _ Hat Hnow Hi Hp1 k p Hp) as (p2 & Hp2 & ?).
  destruct (Hle k p2 Hp2) as (p3 & ? & ?). exists p3. split; [done|lia].
Qed.

Lemma perform_target at_ now w e op s s1 p ws id rev srev :
  op_target op = Some (ws, id, rev, srev) → perform at_ now w e op s = (s1, Ok p) →
  store_inv s →
  ∃ q, readPlanLocked ws id s = Ok q ∧ PlRevision q = rev ∧ StateRevision q = srev ∧
    StateRevision p = (srev + 1)%Z ∧ (PlRevision p = rev ∨ PlRevision p = (rev + 1)%Z) ∧
    files s1 = <[(ws, id) := stored p]> (files s).
Proof.
  intros Ht H Hs. apply perform_cases in H as
    [(_ & ? & ?)|[(ws' & rq & gen & d & -> & H)|[(ws' & id' & rev' & srev' & d & p' & -> & [= <-] & H)
    |(ws' & id' & rev' & srev' & ev & ch & p' & Hch & [= <-] & _ & Hop & H)]]]; [done|done|..].
  - simpl in Ht. simplify_eq.
    apply UpdatePlan_Ok in H as (q & ids & Hq & <- & <- & _ & N1 & N2 & _ & _ & _ & _ & Hst & Hr & Hsr & _ & Hf).
    exists q. pose proof (read_inv _ _ _ _ Hs Hq) as [(_ & _ & ? & ? & ?) _].
    rewrite Hr, Hsr, !wrap_u64_id by lia. split_and!; auto.
  - rewrite Hop in Ht. simplify_eq.
    apply mutatePlan_Ok in H as (q & q' & Hq & <- & <- & N & Hc & -> & _ & Hf).
    exists q. pose proof (read_inv _ _ _ _ Hs Hq) as [(_ & _ & ? & ? & ?) _].
    destruct (change_frame _ _ _ _ Hch Hc) as (Hr & Hsr & _). simpl.
    rewrite Hr, Hsr, wrap_u64_id by lia. split_and!; auto.
Qed.

(** ** Properties *)

(** C12: no lost updates.  On a reachable store, a mutation that succeeds found the
    plan at exactly the revisions the caller expected, moves its state revision up
    by one without wrapping, changes no other plan file, and from then on, whatever
    other operations do, no mutation carrying the same expected revisions for that
    plan can succeed again. *)
Theorem plan_compare_and_swap at_ now w e op s s1 p ws id rev srev :
  reachable_store s → op_target op = Some (ws, id, rev, srev) →
  perform at_ now w e op s = (s1, Ok p) → at_ ≠ time_zero → now ≠ time_zero →
  (∃ q, readPlanLocked ws id s = Ok q ∧ PlRevision q = rev ∧ StateRevision q = srev) ∧
  StateRevision p = (srev + 1)%Z ∧ (PlRevision p = rev ∨ PlRevision p = (rev + 1)%Z) ∧
  (∀ k, k ≠ (ws, id) → files s1 !! k = files s !! k) ∧
  (∀ s2 at2 now2 w2 e2 op2, rtc store_step s1 s2 → op_target op2 = Some (ws, id, rev, srev) →
     ∃ err, (perform at2 now2 w2 e2 op2 s2).2 = Err err).
Proof.
  intros Hreach%reachable_inv Ht Hp Hat Hnow.
  destruct (perform_target _ _ _ _ _ _ _ _ _ _ _ _ Ht Hp Hreach) as (q & Hq & Hr & Hsr & Hp1 & Hp2 & Hf).
  split_and!; [by exists q|done|done| |].
  - intros k Hk. rewrite Hf. by rewrite lookup_insert_ne.
  - intros s2 at2 now2 w2 e2 op2 Hsteps Ht2.
    pose proof (perform_inv _ _ _ _ _ _ _ _ Hat Hnow Hreach Hp) as Hi1.
    destruct (steps_rev _ _ Hsteps Hi1) as [Hi2 Hle].
    assert (Hs1 : files s1 !! (ws, id) = Some (stored p)) by (rewrite Hf; apply lookup_insert_eq).
    destruct (Hle _ _ Hs1) as (p2 & Hp2f & Hge).
    destruct (perform at2 now2 w2 e2 op2 s2) as [s3 [p3|err]] eqn:Hpf; [|by exists err].
    destruct (perform_target _ _ _ _ _ _ _ _ _ _ _ _ Ht2 Hpf Hi2) as (q2 & Hq2 & _ & Hsr2 & _).
    apply read_inv in Hq2 as [_ Hfile]; [|done]. simplify_eq. simpl in Hge. lia.
Qed.

(** A mutation that reports an error has changed no plan file, with one
    exception: [CreatePlan] can report a failed timeline append after it has already
    written the new plan. *)
Theorem plan_errors_leave_files at_ now w e op s s1 err :
  perform at_ now w e op s = (s1, Err err) →
  files s1 = files s ∨
  (err = ErrPlanEvent ∧ ∃ ws reqID gen d id p, op = OpCreate ws reqID gen d ∧
     files s !! (trim_space ws, id) = None ∧
     validatePlanRecord p (trim_space ws) id = Ok tt ∧
     files s1 = <[(trim_space ws, id) := stored p]> (files s)).
Proof.
  intros H. apply perform_cases in H as
    [(-> & _)|[(ws & rq & gen & d & -> & H)|[(? & ? & ? & ? & ? & ? & _ & [=] & _)
    |(? & ? & ? & ? & ? & ? & ? & _ & [=] & _)]]]; [by left|].
  apply CreatePlan_cases in H as [(-> & _)|(id & ids & Hn & Hv & Hf & [[[=] _]|[[= ->] _]])];
    [by left|].
  right. split; [done|]. eauto 15.
Qed.

(** The transitions are closed.  On a plan read from a reachable store whose
    state revision is not exhausted, every change that approval, begin, finish or
    reconcile makes is accepted by the validation that follows it, so a legal
    transition is never refused as an invalid record. *)
Theorem plan_transitions_closed s ws id at_ now change p q :
  reachable_store s → readPlanLocked ws id s = Ok p → StateRevision p ≠ max_uint64 →
  at_ ≠ time_zero → now ≠ time_zero → is_change at_ change → change p = Ok q →
  validatePlanRecord (bump now q) ws id = Ok tt ∧ in_order (Stages q).
Proof.
  intros Hr%reachable_inv Hp Hmax Hat Hnow Hch Hq.
  apply read_inv in Hp as [Hinv _]; [|done]. pose proof Hinv as (_ & _ & _ & ? & ?).
  destruct (change_inv ws id at_ now change p q) as (Hok & [Ho _] & _); auto; [lia|].
  split; [by apply validatePlanRecord_spec|exact Ho].
Qed.

(** *** Completed stages *)

(** One stage replaced by a change, and the evidence a completion leaves. *)
Lemma change_stages at_ op ws id rev srev change p q :
  op_change at_ op = Some change → op_target op = Some (ws, id, rev, srev) → change p = Ok q →
  Stages q = Stages p ∨
  ∃ i s s', Stages p !! i = Some s ∧ ¬ stage_is PlanStageStatusCompleted s ∧
    Stages q = <[i := s']> (Stages p) ∧
    (stage_is PlanStageStatusCompleted s' →
       ∃ ws' req a, op = OpFinish ws' id rev srev req ∧ FStatus req = PlanStageStatusCompleted ∧
         StID s' = FStageID req ∧ FVerificationStatus req = "passed" ∧
         FCompletionStatus req = "complete" ∧ validDigest (FReceiptDigest req) = true ∧
         validDigest (FCriteriaDigest req) = true ∧
         list.last (StAttempts s') = Some a ∧ AtRunID a = FRunID req ∧
         AtReceiptDigest a = FReceiptDigest req ∧
         (EvReceiptDigest <$> AtEvidence a) = Some (FReceiptDigest req)).
Proof.
  intros Hop Ht. destruct op as [|?????|????|???? st run|wf idf rf sf req|???? st run ?]; try done;
    simplify_eq/=.
  - unfold approve_change. repeat case_match; try done. intros [= <-]. by left.
  - unfold begin_change. case_match; [done|]. case_match; [done|]. case_match; [done|].
    destruct (planStageIndex _ _) as [i|]; [|done]. destruct (Stages p !! i) as [s|] eqn:Hs; [|done].
    destruct (negb (String.eqb (StStatus s) PlanStageStatusPending)
      && negb (String.eqb (StStatus s) PlanStageStatusFailed)) eqn:Hel; [done|].
    repeat (case_match; [done|]). intros [= <-]. right. eexists i, s, _.
    split_and!; [done| |done|done]. intros Hc. unfold stage_is in Hc. by rewrite Hc in Hel.
  - unfold finish_change. destruct (active_attempt _ _ _ _ p) as [[[i s] a]|] eqn:Ha; [|done].
    apply active_attempt_spec in Ha as (Hs & Hid & Hl & Hps & Hsr & Hrun & _ & _).
    assert (Hnc : ¬ stage_is PlanStageStatusCompleted s)
      by (unfold stage_is; by rewrite Hsr).
    cbn [mbind result_bind].
    destruct (String.eqb_spec (FStatus req) PlanStageStatusCompleted) as [Hc|Hc].
    + destruct (negb (String.eqb (FVerificationStatus req) "passed") || _ || _ || _ || _) eqn:Hev;
        [done|].
      rewrite !orb_false_iff, !negb_false_iff, !String.eqb_eq in Hev.
      destruct Hev as ((((Hv1 & Hv2) & Hv3) & Hv4) & _).
      intros [= <-]. right. eexists i, s, _. split_and!; [done|done|done|]. intros _.
      eexists wf, req, _. cbn [close_stage StAttempts StID]. rewrite last_snoc.
      split_and!; try done.
    + destruct (_ && negb (String.eqb _ "not-run")); [done|].
      destruct (negb (String.eqb (FReceiptDigest req) "") && _); [done|].
      intros [= <-]. right. by eexists i, s, _.
  - unfold reconcile_change. destruct (active_attempt _ _ _ _ p) as [[[i s] a]|] eqn:Ha; [|done].
    apply active_attempt_spec in Ha as (Hs & _ & _ & _ & Hsr & _). cbn [mbind result_bind].
    intros [= <-]. right. eexists i, s, _. split_and!; [done| |done|done].
    unfold stage_is. by rewrite Hsr.
Qed.

Lemma completed_has_attempts revision s id : stage_ok revision s id →
  stage_is PlanStageStatusCompleted s →
  ∃ a, list.last (StAttempts s) = Some a ∧ AtStatus a = PlanStageAttemptComplete.
Proof.
  intros (_ & _ & _ & _ & _ & Hm) Hc. unfold stage_is in Hc.
  unfold stage_matches_attempts, last_attempt_is in Hm. rewrite Hc in Hm. cbn in Hm.
  destruct (list.last (StAttempts s)) as [a|]; cbn in Hm.
  - exists a. split; [done|]. rewrite orb_false_r, negb_involutive in Hm.
    by apply String.eqb_eq in Hm.
  - by destruct (StAttempts s).
Qed.

(** C20: a stage is completed by a verified receipt and nothing else.  If, after a
    successful operation on a reachable store, a stage is completed that the plan
    did not have in that very state before, the operation finished that stage as
    completed, with a passed verification, a complete acceptance and two well-formed
    digests, and the stage's last attempt is the named run and records that receipt.
    Conversely, a completed stage never changes again, whatever operation succeeds
    on its plan. *)
Theorem stage_completed_only_by_receipt at_ now w e op s s1 p ws id rev srev :
  reachable_store s → op_target op = Some (ws, id, rev, srev) →
  perform at_ now w e op s = (s1, Ok p) →
  ∃ q, readPlanLocked ws id s = Ok q ∧
    (∀ i st, Stages p !! i = Some st → stage_is PlanStageStatusCompleted st →
       Stages q !! i = Some st ∨
       ∃ ws' req a, op = OpFinish ws' id rev srev req ∧
         FStatus req = PlanStageStatusCompleted ∧ StID st = FStageID req ∧
         FVerificationStatus req = "passed" ∧ FCompletionStatus req = "complete" ∧
         validDigest (FReceiptDigest req) = true ∧ validDigest (FCriteriaDigest req) = true ∧
         list.last (StAttempts st) = Some a ∧ AtRunID a = FRunID req ∧
         AtReceiptDigest a = FReceiptDigest req ∧
         (EvReceiptDigest <$> AtEvidence a) = Some (FReceiptDigest req)) ∧
    (∀ i st, Stages q !! i = Some st → stage_is PlanStageStatusCompleted st →
       Stages p !! i = Some st).
Proof.
  intros Hreach%reachable_inv Ht Hp. apply perform_cases in Hp as
    [(_ & ? & ?)|[(ws' & rq & gen & d & -> & H)|[(ws' & id' & rev' & srev' & d & p' & -> & [= <-] & H)
    |(ws' & id' & rev' & srev' & ev & ch & p' & Hch & [= <-] & Happ & Hop & H)]]]; [done|done|..].
  - simpl in Ht. simplify_eq.
    apply UpdatePlan_Ok in H as (q & ids & Hq & <- & <- & Hatt & _ & _ & _ & _ & _ & _ & Hst & _ & _ & _ & _).
    exists q. split_and!; [done| |].
    + intros i st Hi Hc. rewrite Hst in Hi.
      apply list_elem_of_lookup_2, list_elem_of_In, in_map_iff in Hi as (x & <- & _). done.
    + intros i st Hi Hc. apply read_inv in Hq as [((_ & _ & _ & ids' & _ & HF & _) & _) _]; [|done].
      destruct (Forall2_lookup_l _ _ _ _ _ HF Hi) as (sid & _ & Hok).
      destruct (completed_has_attempts _ _ _ Hok Hc) as (a & Hl & _).
      unfold hasPlanStageAttempts in Hatt. rewrite existsb_not in Hatt.
      specialize (Hatt st ltac:(by eapply list_elem_of_lookup_2)). by destruct (StAttempts st).
  - rewrite Hop in Ht. simplify_eq.
    apply mutatePlan_Ok in H as (q & q' & Hq & <- & <- & _ & Hc & -> & _ & _).
    exists q. split; [done|]. cbn [bump Stages].
    destruct (change_stages _ _ _ _ _ _ _ _ _ Happ Hop Hc)
      as [->|(i & s0 & s' & Hs & Hnc & Hst & Hrec)]; [split; intros; auto|]. rewrite Hst.
    assert (Hlt : (i < length (Stages q))%nat) by (by eapply lookup_lt_Some).
    split.
    + intros j st Hj Hcj. destruct (decide (j = i)) as [->|Hne].
      * right. rewrite list_lookup_insert_eq in Hj by done. simplify_eq. by apply Hrec.
      * left. by rewrite list_lookup_insert_ne in Hj.
    + intros j st Hj Hcj. rewrite list_lookup_insert_ne; [done|]. intros ->. congruence.
Qed.

(** What every readable plan of a reachable store looks like.  Its stages are
    those of its definition, at most one attempt is running, run ids are not
    reused, stages have advanced front to back (every stage before a stage that
    left pending is completed), and a plan marked completed has every stage
    completed with a last attempt whose evidence is a verified receipt. *)
Theorem reachable_plan_sound s ws id p :
  reachable_store s → readPlanLocked ws id s = Ok p →
  planDefinitionStageIDs (Definition0 p) = Ok (map StID (Stages p)) ∧
  (running_count (all_attempts (Stages p)) ≤ 1)%nat ∧ NoDup (run_ids (all_attempts (Stages p))) ∧
  (∀ i j si sj, (i < j)%nat → Stages p !! i = Some si → Stages p !! j = Some sj →
     StStatus sj ≠ PlanStageStatusPending → StStatus si = PlanStageStatusCompleted) ∧
  (PlStatus p = PlanStatusCompleted → ∀ st, st ∈ Stages p →
     StStatus st = PlanStageStatusCompleted ∧
     ∃ a e, list.last (StAttempts st) = Some a ∧ AtEvidence a = Some e ∧
       AtVerificationStatus a = "passed" ∧ AtReceiptDigest a = EvReceiptDigest e ∧
       validAcceptanceEvidence e = true).
Proof.
  intros Hr%reachable_inv Hp. apply read_inv in Hp as [Hinv _]; [|done].
  destruct Hinv as ((_ & _ & _ & ids & Hids & HF & Hnd & Hrc & Hprog) & [Ho _] & _).
  split_and!; [|done|done|exact Ho|].
  - rewrite Hids. f_equal. clear -HF. induction HF as [|s i l k (<- & _) _ IH]; [done|]. simpl.
    by rewrite IH.
  - intros Hc st Hst. destruct Hprog as (_ & _ & _ & Hcomp). specialize (Hcomp Hc st Hst).
    split; [done|]. apply list_elem_of_lookup in Hst as (i & Hi).
    destruct (Forall2_lookup_l _ _ _ _ _ HF Hi) as (sid & _ & Hok).
    destruct (completed_has_attempts _ _ _ Hok Hcomp) as (a & Hl & Ha).
    destruct Hok as (_ & _ & _ & _ & Hao & _).
    rewrite (last_snoc_split _ _ Hl), attempts_ok_snoc in Hao. destruct Hao as (_ & _ & Hs).
    unfold validate_attempt_state in Hs. rewrite Ha in Hs. cbn in Hs.
    destruct (is_zero (AtFinishedAt a)); [done|]. cbn in Hs.
    destruct (AtEvidence a) as [e|] eqn:He; [|done].
    destruct (String.eqb_spec (AtVerificationStatus a) "passed"); [|done].
    destruct (String.eqb_spec (AtReceiptDigest a) (EvReceiptDigest e)); [|done].
    destruct (validAcceptanceEvidence e) eqn:Hev; [|done]. by exists a, e.
Qed.

(** ** Concrete runs *)

Definition ex_def : Definition_ :=
  {| def_len := 60; def_indented_len := 90;
     def_value := Some (JObject [("name", JString "p");
       ("stages", JArray [JObject [("id", JString "build")]; JObject [("id", JString "ship")]])]) |}.
Definition ex_store0 : PlanStore := {| workstreams := {["ws"]}; files := ∅; timeline := [] |}.
Definition ex_run (op : PlanOp) (s : PlanStore) : PlanStore := (perform 10 11 true true op s).1.
Definition ex_digest : string :=
  "0000000000000000000000000000000000000000000000000000000000000000".
Definition ex_finish (stage run : string) : FinishRequest :=
  {| FStageID := stage; FRunID := run; FStatus := "completed"; FVerificationStatus := "passed";
     FReceiptDigest := ex_digest; FCriteriaDigest := ex_digest; FEvidenceSource := "agent-receipt";
     FCompletionStatus := "complete" |}.
Definition ex_created : PlanStore := ex_run (OpCreate "ws" "p1" "" ex_def) ex_store0.
Definition ex_approved : PlanStore := ex_run (OpApprove "ws" "p1" 1 1) ex_created.
Definition ex_begun : PlanStore := ex_run (OpBegin "ws" "p1" 1 2 "build" "r1") ex_approved.
Definition ex_finished : PlanStore := ex_run (OpFinish "ws" "p1" 1 3 (ex_finish "build" "r1")) ex_begun.
Definition read_or {A} (d : A) (r : result PlanError A) : A := match r with Ok a => a | Err _ => d end.
Definition ex_plan (s : PlanStore) : Plan :=
  read_or (fresh_plan 0 "" "" ex_def []) (readPlanLocked "ws" "p1" s).

Lemma ex_step op s : reachable_store s → reachable_store (ex_run op s).
Proof.
  intros (wss & tl & Hr). exists wss, tl. eapply rtc_r; [exact Hr|].
  eapply (store_step_intro 10 11 true true op); [done|done|]. apply surjective_pairing.
Qed.
Lemma ex_reach0 : reachable_store ex_store0.
Proof. by exists {["ws"]}, []. Qed.
Lemma ex_reach_begun : reachable_store ex_begun.
Proof. unfold ex_begun, ex_approved, ex_created. do 3 apply ex_step. apply ex_reach0. Qed.

Lemma plan_compare_and_swap_witness :
  ∃ err, (perform 20 21 true true (OpReconcile "ws" "p1" 1 3 "build" "r1" true) ex_finished).2 = Err err.
Proof.
  assert (Hp : perform 10 11 true true (OpFinish "ws" "p1" 1 3 (ex_finish "build" "r1")) ex_begun
    = (ex_finished, Ok (bump 11 (read_or (ex_plan ex_begun)
        (finish_change 10 (ex_finish "build" "r1") (ex_plan ex_begun))))))
    by (vm_compute; reflexivity).
  destruct (plan_compare_and_swap 10 11 true true
    (OpFinish "ws" "p1" 1 3 (ex_finish "build" "r1")) ex_begun ex_finished _ "ws" "p1" 1 3
    ex_reach_begun eq_refl Hp
    ltac:(done) ltac:(done)) as (_ & _ & _ & _ & H).
  exact (H ex_finished 20 21 true true (OpReconcile "ws" "p1" 1 3 "build" "r1" true)
    (rtc_refl _ _) eq_refl)%Z.
Defined.

Lemma plan_errors_leave_files_witness :
  files (perform 10 11 true true (OpBegin "ws" "p1" 1 1 "ship" "r1") ex_approved).1 = files ex_approved.
Proof.
  assert (Hp : perform 10 11 true true (OpBegin "ws" "p1" 1 1 "ship" "r1") ex_approved =
    (ex_approved, Err (ErrPlanRevisionConflict "stale plan state"))) by (vm_compute; reflexivity).
  destruct (plan_errors_leave_files 10 11 true true
    (OpBegin "ws" "p1" 1 1 "ship" "r1") ex_approved ex_approved _ Hp) as [H|[H _]].
  - rewrite Hp. exact H.
  - discriminate H.
Defined.

Lemma plan_transitions_closed_witness :
  validatePlanRecord (bump 11 (read_or (ex_plan ex_begun)
    (finish_change 10 (ex_finish "build" "r1") (ex_plan ex_begun)))) "ws" "p1" = Ok tt.
Proof.
  apply (plan_transitions_closed ex_begun "ws" "p1" 10 11
    (finish_change 10 (ex_finish "build" "r1")) (ex_plan ex_begun) _ ex_reach_begun).
  - vm_compute. reflexivity.
  - vm_compute. discriminate.
  - discriminate.
  - discriminate.
  - right; right; left. by eexists.
  - vm_compute. reflexivity.
Defined.

Lemma stage_completed_only_by_receipt_witness :
  ∃ q, readPlanLocked "ws" "p1" ex_begun = Ok q.
Proof.
  assert (Hp : perform 10 11 true true (OpFinish "ws" "p1" 1 3 (ex_finish "build" "r1")) ex_begun
    = (ex_finished, Ok (bump 11 (read_or (ex_plan ex_begun)
        (finish_change 10 (ex_finish "build" "r1") (ex_plan ex_begun))))))
    by (vm_compute; reflexivity).
  destruct (stage_completed_only_by_receipt 10 11 true true
    (OpFinish "ws" "p1" 1 3 (ex_finish "build" "r1")) ex_begun ex_finished _ "ws" "p1" 1 3
    ex_reach_begun eq_refl Hp) as (q & Hq & _). exists q. exact Hq.
Defined.

Lemma reachable_plan_sound_witness :
  (running_count (all_attempts (Stages (ex_plan ex_begun))) ≤ 1)%nat.
Proof.
  apply (reachable_plan_sound ex_begun "ws" "p1" (ex_plan ex_begun) ex_reach_begun).
  vm_compute. reflexivity.
Defined.

(** A definition near the size limit is accepted and reported as created, but the
    plan file holds it re-indented, and every later read refuses that as corrupt. *)
Definition ex_big_def : Definition_ :=
  {| def_len := maxPlanDefinitionBytes; def_indented_len := maxPlanDefinitionBytes + 1;
     def_value := def_value ex_def |}.
Theorem created_plan_can_be_unreadable :
  is_ok (perform 10 11 true true (OpCreate "ws" "p1" "" ex_big_def) ex_store0).2 = true ∧
  readPlanLocked "ws" "p1" (perform 10 11 true true (OpCreate "ws" "p1" "" ex_big_def) ex_store0).1
    = Err ErrPlanCorrupt.
Proof. split; vm_compute; reflexivity. Qed.
