(* ===== verification/TeamPlan.v ===== *)
(** * Team plans: internal/agent/team_plan.go

    The plan contract a team run starts from: normalisation, validation, the
    dependency-cycle search, the capacity scheduler and the overlap test of file
    scopes.  Reading and writing plan files and their JSON form are not modelled
    ([LoadTeamPlan], [SaveTeamPlan], [LoadAgentTask], the JSON methods of
    [CapacityConfig]).  Paths are Unix paths, on which [filepath.ToSlash] is the
    identity, and the values [ValidateTeamPlan] formats into messages are
    constructors of [PlanProblem].

    Go ranges over a map in an unspecified order, so the cycle search takes the
    order of the keys as an argument. *)

From S2P Require Export GoLib.

Local Open Scope string_scope.
Local Open Scope list_scope.
Local Open Scope Z_scope.

(** ** Data *)

Abbreviation TaskKind := string (only parsing).
Definition TaskKindResearch : TaskKind := "research".
Definition TaskKindPropose : TaskKind := "propose".
Definition TaskKindBlueprint : TaskKind := "blueprint".
Definition TaskKindImplement : TaskKind := "implement".
Definition TaskKindReview : TaskKind := "review".
Definition TaskKindVerify : TaskKind := "verify".

Definition AgentTaskPending : string := "pending".
Definition AgentTaskRunning : string := "running".
Definition AgentTaskCompleted : string := "completed".
Definition AgentTaskFailed : string := "failed".

Record CapacityConfig := {
  ModelSlots : Z;
  ToolSlots : Z;
  WebFetchSlots : Z;
  TestSlots : Z;
  MaxParallelTasks : Z;
  FileScopeLock : bool;
  FileScopeLockConfigured : bool;
}.

Record AgentTaskResources := {
  RsModelSlots : Z;
  RsToolSlots : Z;
  RsWebFetchSlots : Z;
  RsTestSlots : Z;
}.

Record AgentSpec := {
  AgID : string;
  AgRole : string;
  AgDescription : string;
  AgSystemPrompt : string;
  AgTools : list string;
  AgReadOnly : bool;
  AgProvider : string;
  AgModel : string;
}.

Record AgentTask := {
  TkID : string;
  TkName : string;
  TkKind : TaskKind;
  TkStage : string;
  TkRole : string;
  TkGoal : string;
  TkDescription : string;
  TkFiles : list string;
  TkDependsOn : list string;
  TkTools : list string;
  TkAcceptanceCriteria : list string;
  TkOutOfScope : list string;
  TkBlueprintNodes : list string;
  TkOutputContract : string;
  TkReadOnly : bool;
  TkProvider : string;
  TkModel : string;
  TkPriority : Z;
  TkResources : AgentTaskResources;
  TkCreatedAt : time;
}.

Record TeamPlanStage := {
  SgID : string;
  SgName : string;
  SgKind : string;
  SgTaskIDs : list string;
}.

Record TeamPlan := {
  PnVersion : Z;
  PnName : string;
  PnObjective : string;
  PnVerifyCommand : string;
  PnAgents : list AgentSpec;
  PnStages : list TeamPlanStage;
  PnTasks : list AgentTask;
  PnCapacity : CapacityConfig;
}.

(** The problems [ValidateTeamPlan] collects, with the arguments of their texts. *)
Inductive PlanProblem :=
| ObjectiveRequired
| TaskRequired
| TaskIDRequired
| DuplicateTaskID (id : string)
| NeedsGoal (id : string)
| NeedsFileScope (id : string)
| UnknownDependency (id dep : string)
| SelfDependency (id : string)
| StageIDRequired
| DuplicateStageID (id : string)
| StageUnknownTask (stage id : string)
| TaskUnknownStage (id stage : string)
| DependencyCycle.

(** ** Capacity *)

Definition DefaultLocalCapacity : CapacityConfig :=
  {| ModelSlots := 1; ToolSlots := 3; WebFetchSlots := 4; TestSlots := 1;
     MaxParallelTasks := 2; FileScopeLock := true; FileScopeLockConfigured := false |}.

Definition DefaultCloudCapacity : CapacityConfig :=
  {| ModelSlots := 4; ToolSlots := 8; WebFetchSlots := 8; TestSlots := 2;
     MaxParallelTasks := 4; FileScopeLock := true; FileScopeLockConfigured := false |}.

Definition positive_or (x d : Z) : Z := if x <=? 0 then d else x.

Definition CapacityConfig_Normalized (local : bool) (c : CapacityConfig) : CapacityConfig :=
  let defaults := if local then DefaultLocalCapacity else DefaultCloudCapacity in
  {| ModelSlots := positive_or (ModelSlots c) (ModelSlots defaults);
     ToolSlots := positive_or (ToolSlots c) (ToolSlots defaults);
     WebFetchSlots := positive_or (WebFetchSlots c) (WebFetchSlots defaults);
     TestSlots := positive_or (TestSlots c) (TestSlots defaults);
     MaxParallelTasks := positive_or (MaxParallelTasks c) (MaxParallelTasks defaults);
     FileScopeLock := if negb (FileScopeLock c) && negb (FileScopeLockConfigured c)
                      then FileScopeLock defaults else FileScopeLock c;
     FileScopeLockConfigured := FileScopeLockConfigured c |}.

Definition ModelTaskLimit (c : CapacityConfig) (fallback : Z) : Z :=
  let fallback := if fallback <=? 0 then 1 else fallback in
  let limit := fallback in
  let limit := if (0 <? MaxParallelTasks c) && (MaxParallelTasks c <? limit)
               then MaxParallelTasks c else limit in
  let limit := if (0 <? ModelSlots c) && (ModelSlots c <? limit) then ModelSlots c else limit in
  if limit <=? 0 then 1 else limit.

(** ** Tasks *)

Definition defaultRoleForTaskKind (kind : TaskKind) : string :=
  if String.eqb kind TaskKindResearch || String.eqb kind TaskKindPropose ||
     String.eqb kind TaskKindBlueprint then "planner"
  else if String.eqb kind TaskKindReview then "reviewer"
  else if String.eqb kind TaskKindVerify then "tester"
  else "coder".

Definition IsReadOnly (t : AgentTask) : bool :=
  if TkReadOnly t then true
  else String.eqb (TkKind t) TaskKindResearch || String.eqb (TkKind t) TaskKindPropose ||
       String.eqb (TkKind t) TaskKindBlueprint || String.eqb (TkKind t) TaskKindReview.

Definition or_else (s d : string) : string := if String.eqb s "" then d else s.

(** [now] is what [time.Now] returns. *)
Definition AgentTask_Normalized (now : time) (t : AgentTask) : AgentTask :=
  let id := or_else (trim_space (TkID t)) "task" in
  let kind := or_else (TkKind t) TaskKindImplement in
  {| TkID := id;
     TkName := or_else (trim_space (TkName t)) id;
     TkKind := kind;
     TkStage := TkStage t;
     TkRole := or_else (TkRole t) (defaultRoleForTaskKind kind);
     TkGoal := TkGoal t;
     TkDescription := TkDescription t;
     TkFiles := TkFiles t;
     TkDependsOn := TkDependsOn t;
     TkTools := TkTools t;
     TkAcceptanceCriteria := TkAcceptanceCriteria t;
     TkOutOfScope := TkOutOfScope t;
     TkBlueprintNodes := TkBlueprintNodes t;
     TkOutputContract := TkOutputContract t;
     TkReadOnly := TkReadOnly t;
     TkProvider := TkProvider t;
     TkModel := TkModel t;
     TkPriority := TkPriority t;
     TkResources := TkResources t;
     TkCreatedAt := if is_zero (TkCreatedAt t) then now else TkCreatedAt t |}.

Definition nl : string := String "010" "".

Definition write_list (title : string) (l : list string) : string :=
  match l with
  | [] => ""
  | _ => nl +:+ title +:+ ":" +:+ nl +:+
      str_join "" (map (λ v, let v := trim_space v in
                          if String.eqb v "" then "" else "- " +:+ v +:+ nl) l)
  end.

Definition section_ (title body : string) : string :=
  if String.eqb body "" then ""
  else nl +:+ title +:+ ":" +:+ nl +:+ trim_space body +:+ nl.

Definition WorkerPrompt (now : time) (t : AgentTask) : string :=
  let t := AgentTask_Normalized now t in
  trim_space
    ("Role: " +:+ TkRole t +:+ nl +:+
     "Kind: " +:+ TkKind t +:+ nl +:+
     (if String.eqb (TkStage t) "" then "" else "Stage: " +:+ TkStage t +:+ nl) +:+
     section_ "Goal" (TkGoal t) +:+
     section_ "Details" (TkDescription t) +:+
     write_list "Acceptance criteria" (TkAcceptanceCriteria t) +:+
     write_list "Out of scope" (TkOutOfScope t) +:+
     write_list "Blueprint nodes" (TkBlueprintNodes t) +:+
     write_list "Allowed tools" (TkTools t) +:+
     section_ "Output contract" (TkOutputContract t) +:+
     (if IsReadOnly t then nl +:+ "This task is read-only. Do not modify files." +:+ nl else "")).

(** ** Plans *)

Definition AgentSpec_trim (a : AgentSpec) : AgentSpec :=
  {| AgID := trim_space (AgID a); AgRole := trim_space (AgRole a);
     AgDescription := AgDescription a; AgSystemPrompt := AgSystemPrompt a;
     AgTools := AgTools a; AgReadOnly := AgReadOnly a; AgProvider := AgProvider a;
     AgModel := AgModel a |}.
Definition TeamPlanStage_trim (s : TeamPlanStage) : TeamPlanStage :=
  {| SgID := trim_space (SgID s); SgName := trim_space (SgName s); SgKind := SgKind s;
     SgTaskIDs := SgTaskIDs s |}.

Definition TeamPlan_Normalized (now : time) (p : TeamPlan) : TeamPlan :=
  {| PnVersion := if PnVersion p =? 0 then 1 else PnVersion p;
     PnName := or_else (trim_space (PnName p)) "team-plan";
     PnObjective := trim_space (PnObjective p);
     PnVerifyCommand := PnVerifyCommand p;
     PnAgents := map AgentSpec_trim (PnAgents p);
     PnStages := map TeamPlanStage_trim (PnStages p);
     PnTasks := map (AgentTask_Normalized now) (PnTasks p);
     PnCapacity := CapacityConfig_Normalized true (PnCapacity p) |}.

(** *** The dependency-cycle search *)

Abbreviation graph := (gmap string (list string)) (only parsing).

(** Later tasks overwrite earlier ones of the same id. *)
Definition task_graph (tasks : list AgentTask) : graph :=
  fold_left (λ g t, <[TkID t := TkDependsOn t]> g) tasks ∅.

(** The maps [visiting] and [visited], as the sets of their true keys. *)
Record DFS := { visiting : gset string; visited : gset string }.

(** [for _, dep := range graph[id]]: unknown dependencies are skipped, a cycle
    found below ends the search.  [None] is out of fuel. *)
Fixpoint visit_deps (visit : string → DFS → option (bool * DFS)) (g : graph)
    (deps : list string) (st : DFS) : option (bool * DFS) :=
  match deps with
  | [] => Some (false, st)
  | dep :: deps' =>
      match g !! dep with
      | None => visit_deps visit g deps' st
      | Some _ =>
          match visit dep st with
          | Some (false, st') => visit_deps visit g deps' st'
          | r => r
          end
      end
  end.

Fixpoint visit (fuel : nat) (g : graph) (id : string) (st : DFS) : option (bool * DFS) :=
  match fuel with
  | O => None
  | S fuel' =>
      if bool_decide (id ∈ visiting st) then Some (true, st)
      else if bool_decide (id ∈ visited st) then Some (false, st)
      else
        let st1 := {| visiting := visiting st ∪ {[id]}; visited := visited st |} in
        match visit_deps (visit fuel' g) g (default [] (g !! id)) st1 with
        | Some (false, st2) =>
            Some (false, {| visiting := visiting st2 ∖ {[id]}; visited := visited st2 ∪ {[id]} |})
        | r => r
        end
  end.

Fixpoint visit_roots (fuel : nat) (g : graph) (order : list string) (st : DFS)
    : option (bool * DFS) :=
  match order with
  | [] => Some (false, st)
  | id :: order' =>
      match visit fuel g id st with
      | Some (false, st') => visit_roots fuel g order' st'
      | r => r
      end
  end.

(** A chain of calls holds each key at most once in [visiting], and the call that
    repeats one returns at once. *)
Definition hasTaskDependencyCycle (order : list string) (tasks : list AgentTask) : option bool :=
  let g := task_graph tasks in
  fst <$> visit_roots (S (size g)) g order {| visiting := ∅; visited := ∅ |}.

(** [order] is an order in which [range graph] can give the keys. *)
Definition key_order (order : list string) (tasks : list AgentTask) : Prop :=
  order ≡ₚ elements (dom (task_graph tasks)).

(** *** Validation *)

Definition report (b : bool) (p : PlanProblem) : list PlanProblem := if b then [p] else [].
Definition blank (s : string) : bool := String.eqb (trim_space s) "".
Definition nil_ {A} (l : list A) : bool := match l with [] => true | _ => false end.

Fixpoint check_tasks (tasks : list AgentTask) (ids : gset string)
    : list PlanProblem * gset string :=
  match tasks with
  | [] => ([], ids)
  | task :: tasks' =>
      if String.eqb (TkID task) "" then
        let '(ps, ids') := check_tasks tasks' ids in (TaskIDRequired :: ps, ids')
      else if bool_decide (TkID task ∈ ids) then
        let '(ps, ids') := check_tasks tasks' ids in (DuplicateTaskID (TkID task) :: ps, ids')
      else
        let '(ps, ids') := check_tasks tasks' (ids ∪ {[TkID task]}) in
        (report (blank (TkGoal task) && blank (TkDescription task)) (NeedsGoal (TkID task)) ++
         report (negb (IsReadOnly task) && nil_ (TkFiles task)) (NeedsFileScope (TkID task)) ++ ps,
         ids')
  end.

Definition check_dependencies (ids : gset string) (task : AgentTask) : list PlanProblem :=
  flat_map (λ dep,
    report (negb (bool_decide (dep ∈ ids))) (UnknownDependency (TkID task) dep) ++
    report (String.eqb dep (TkID task)) (SelfDependency (TkID task))) (TkDependsOn task).

Fixpoint check_stages (ids : gset string) (stages : list TeamPlanStage) (seen : gset string)
    : list PlanProblem * gset string :=
  match stages with
  | [] => ([], seen)
  | stage :: stages' =>
      if String.eqb (SgID stage) "" then
        let '(ps, seen') := check_stages ids stages' seen in (StageIDRequired :: ps, seen')
      else
        let '(ps, seen') := check_stages ids stages' (seen ∪ {[SgID stage]}) in
        (report (bool_decide (SgID stage ∈ seen)) (DuplicateStageID (SgID stage)) ++
         flat_map (λ id, report (negb (bool_decide (id ∈ ids))) (StageUnknownTask (SgID stage) id))
           (SgTaskIDs stage) ++ ps,
         seen')
  end.

Definition check_task_stage (stageIDs : gset string) (task : AgentTask) : list PlanProblem :=
  report (negb (String.eqb (TkStage task) "") && bool_decide (0 < size stageIDs)%nat &&
          negb (bool_decide (TkStage task ∈ stageIDs))) (TaskUnknownStage (TkID task) (TkStage task)).

(** [None] is out of fuel, which never happens. *)
Definition ValidateTeamPlan (now : time) (order : list string) (plan : TeamPlan)
    : option (result (list PlanProblem) unit) :=
  let plan := TeamPlan_Normalized now plan in
  let '(task_problems, taskIDs) := check_tasks (PnTasks plan) ∅ in
  let '(stage_problems, stageIDs) := check_stages taskIDs (PnStages plan) ∅ in
  cyclic ← hasTaskDependencyCycle order (PnTasks plan);
  let problems :=
    report (blank (PnObjective plan)) ObjectiveRequired ++
    report (nil_ (PnTasks plan)) TaskRequired ++
    task_problems ++
    flat_map (check_dependencies taskIDs) (PnTasks plan) ++
    stage_problems ++
    flat_map (check_task_stage stageIDs) (PnTasks plan) ++
    report cyclic DependencyCycle in
  Some (match problems with [] => Ok tt | _ => Err problems end).

(** *** File scopes *)

Definition ownershipPrefix (pattern : string) : string :=
  let pattern := trim_suffix pattern "/**" in
  let pattern := trim_suffix pattern "/*" in
  let pattern := trim_suffix pattern "*" in
  trim_right_set pattern "/".

Definition ownershipPatternsOverlap (a b : string) : bool :=
  let a := trim_space a in
  let b := trim_space b in
  if String.eqb a "" || String.eqb b "" then true
  else if String.eqb a b then true
  else
    let ap := ownershipPrefix a in
    let bp := ownershipPrefix b in
    has_prefix ap bp || has_prefix bp ap.

Definition scopes_overlap (a b : list string) : bool :=
  existsb (λ left_, existsb (ownershipPatternsOverlap left_) b) a.

Definition fileScopesConflict (a b : AgentTask) : bool :=
  if IsReadOnly a || IsReadOnly b then false
  else if nil_ (TkFiles a) || nil_ (TkFiles b) then true
  else scopes_overlap (TkFiles a) (TkFiles b).

Definition conflictsWithAny (task : AgentTask) (others : list AgentTask) : bool :=
  existsb (fileScopesConflict task) others.

(** *** The capacity scheduler *)

Definition taskModelSlots (task : AgentTask) : Z :=
  if 0 <? RsModelSlots (TkResources task) then RsModelSlots (TkResources task) else 1.

Abbreviation statuses := (gmap string string) (only parsing).
(** A missing key of [map[string]string] reads as the empty string. *)
Definition status_of (m : statuses) (id : string) : string := default "" (m !! id).

Definition dependenciesComplete (task : AgentTask) (m : statuses) : bool :=
  forallb (λ dep, String.eqb (status_of m dep) AgentTaskCompleted) (TkDependsOn task).

Definition candidate (m : statuses) (task : AgentTask) : bool :=
  let status := status_of m (TkID task) in
  (String.eqb status "" || String.eqb status AgentTaskPending) && dependenciesComplete task m.

Definition runs_before : AgentTask → AgentTask → bool :=
  less_then (more_by TkPriority) (less_str TkID).

Fixpoint select_loop (capacity : CapacityConfig) (running : list AgentTask) (availableTasks : Z)
    (candidates selected : list AgentTask) (availableModelSlots : Z) : list AgentTask :=
  match candidates with
  | [] => selected
  | task :: candidates' =>
      if availableTasks <=? Z.of_nat (length selected) then selected
      else
        let needed := taskModelSlots task in
        if availableModelSlots <? needed then
          select_loop capacity running availableTasks candidates' selected availableModelSlots
        else if FileScopeLock capacity && conflictsWithAny task (running ++ selected) then
          select_loop capacity running availableTasks candidates' selected availableModelSlots
        else
          select_loop capacity running availableTasks candidates' (selected ++ [task])
            (availableModelSlots - needed)
  end.

Definition candidates_of (now : time) (tasks : list AgentTask) (m : statuses) : list AgentTask :=
  stable_sort runs_before (List.filter (candidate m) (map (AgentTask_Normalized now) tasks)).

Definition SelectRunnable (now : time) (cap : CapacityConfig) (tasks : list AgentTask)
    (m : statuses) (running : list AgentTask) : list AgentTask :=
  let capacity := CapacityConfig_Normalized true cap in
  let modelSlotsUsed := fold_left (λ used task, wrap64 (used + taskModelSlots task)) running 0 in
  let availableModelSlots := wrap64 (ModelSlots capacity - modelSlotsUsed) in
  if availableModelSlots <=? 0 then []
  else
    let limit := ModelTaskLimit capacity (MaxParallelTasks capacity) in
    if limit <=? Z.of_nat (length running) then []
    else select_loop capacity running (limit - Z.of_nat (length running))
           (candidates_of now tasks m) [] availableModelSlots.

(** ** Correctness of the cycle search *)

Section dfs.
Context (g : gmap string (list string)).

(** The edges the search follows. *)
Definition depends (id dep : string) : Prop :=
  ∃ deps, g !! id = Some deps ∧ dep ∈ deps ∧ is_Some (g !! dep).

Definition cyclic : Prop := ∃ id, tc depends id id.

(** Visited tasks are closed under dependencies and on no cycle. *)
Record dfs_inv (st : DFS) : Prop := {
  dfs_closed x y : x ∈ visited st → depends x y → y ∈ visited st;
  dfs_acyclic x : x ∈ visited st → ¬ tc depends x x;
  dfs_disjoint x : x ∈ visited st → x ∉ visiting st;
  dfs_keys : visiting st ⊆ dom g;
}.

(** What a search below the tasks [ids] has done when it ends. *)
Definition searched (ids : string → Prop) (st : DFS) (r : option (bool * DFS)) : Prop :=
  ∃ b st', r = Some (b, st') ∧ (b = true → cyclic) ∧
    (b = false → visiting st' = visiting st ∧ visited st ⊆ visited st' ∧ dfs_inv st' ∧
                 ∀ id, ids id → is_Some (g !! id) → id ∈ visited st').

Lemma visit_deps_searched f deps st :
  (∀ dep st', dep ∈ deps → is_Some (g !! dep) → visiting st' = visiting st → dfs_inv st' →
     searched (eq dep) st' (f dep st')) →
  dfs_inv st → searched (λ dep, dep ∈ deps) st (visit_deps f g deps st).
Proof.
  revert st. induction deps as [|dep deps IH]; intros st Hf Hi; simpl.
  { exists false, st. split_and!; [done|done|]. intros _. split_and!; [done..|].
    intros id Hid. by apply not_elem_of_nil in Hid. }
  destruct (g !! dep) eqn:Hd.
  2: { destruct (IH st) as (b & st' & -> & Hb & Hn); [|done|].
    { intros. apply Hf; [by right|done..]. }
    exists b, st'. split_and!; [done..|]. intros Hb0. destruct (Hn Hb0) as (? & ? & ? & H4).
    split_and!; [done..|]. intros id [->|Hid]%elem_of_cons Hs; [rewrite Hd in Hs; by destruct Hs|].
    by apply H4. }
  destruct (Hf dep st) as (b & st1 & -> & Hb & Hn); [left|by eexists|done|done|].
  destruct b; [exists true, st1; split_and!; done|].
  destruct (Hn eq_refl) as (Hv & Hsub & Hi1 & Hin).
  destruct (IH st1) as (b2 & st2 & -> & Hb2 & Hn2); [|done|].
  { intros. apply Hf; [by right|done| |done]. congruence. }
  exists b2, st2. split_and!; [done..|]. intros Hb0. destruct (Hn2 Hb0) as (Hv2 & Hsub2 & Hi2 & Hin2).
  split_and!; [congruence|set_solver|done|]. intros id [->|Hid]%elem_of_cons Hs; [|by apply Hin2].
  apply Hsub2, Hin; [done|by eexists].
Qed.

Lemma tc_closed (D : gset string) x y : (∀ a b, a ∈ D → depends a b → b ∈ D) → tc depends x y → x ∈ D → y ∈ D.
Proof. intros Hc Ht. induction Ht; eauto. Qed.

Lemma visit_finish_inv id st st2 :
  id ∉ visiting st → dfs_inv st → dfs_inv st2 →
  visiting st2 = visiting st ∪ {[id]} →
  (∀ deps dep, g !! id = Some deps → dep ∈ deps → is_Some (g !! dep) → dep ∈ visited st2) →
  dfs_inv {| visiting := visiting st2 ∖ {[id]}; visited := visited st2 ∪ ({[id]} : gset string) |}.
Proof.
  intros Hid Hi [Hc Ha Hd Hk] Hv Hdeps.
  assert (Hid2 : id ∉ visited st2). { intros H. apply (Hd _ H). rewrite Hv. set_solver. }
  assert (Hsucc : ∀ y, depends id y → y ∈ visited st2) by (intros y (deps & ? & ? & ?); eauto).
  split; simpl.
  - intros x y [Hx| ->%elem_of_singleton]%elem_of_union Hxy; apply elem_of_union_l; eauto.
  - intros x [Hx| ->%elem_of_singleton]%elem_of_union; [by apply Ha|].
    intros Ht. apply Hid2. inversion Ht as [? ? H1|? y ? H1 H2]; subst; [by apply Hsucc|].
    apply (tc_closed (visited st2) y id); [done|done|by apply Hsucc].
  - intros x [Hx| ->%elem_of_singleton]%elem_of_union; [|set_solver]. specialize (Hd x Hx). set_solver.
  - set_solver.
Qed.

Lemma visit_searched fuel id st :
  is_Some (g !! id) → dfs_inv st → (size (dom g ∖ visiting st) < fuel)%nat →
  (∀ v, v ∈ visiting st → tc depends v id) →
  searched (eq id) st (visit fuel g id st).
Proof.
  revert id st. induction fuel as [|fuel IH]; intros id st [deps Hg] Hi Hfuel Hpath; [lia|].
  assert (Hdom : id ∈ dom g) by (apply elem_of_dom; by eexists).
  simpl. case_bool_decide as Hv.
  { exists true, st. split_and!; [done| |done]. intros _. exists id. by apply Hpath. }
  case_bool_decide as Hd.
  { exists false, st. split_and!; [done..|]. intros _. split_and!; [done..|]. by intros ? <-. }
  rewrite Hg. simpl. set (st1 := {| visiting := _ |}).
  assert (Hi1 : dfs_inv st1).
  { destruct Hi as [Hc Ha Hdj Hk]. split; simpl; [done|done| |set_solver].
    intros x Hx. specialize (Hdj x Hx). intros [?| ->%elem_of_singleton]%elem_of_union; done. }
  destruct (visit_deps_searched (visit fuel g) deps st1) as (b & st2 & -> & Hb & Hn); [|done|].
  - intros dep st' Hdep Hsome Hvis Hi'. apply IH; [done|done| |].
    + rewrite Hvis. simpl.
      assert (size (dom g ∖ (visiting st ∪ {[id]})) < size (dom g ∖ visiting st))%nat; [|lia].
      apply subset_size. set_solver.
    + assert (He : depends id dep) by (by exists deps).
      rewrite Hvis. simpl. intros v [Hv'| ->%elem_of_singleton]%elem_of_union; [|by apply tc_once].
      eapply tc_r; [by apply Hpath|done].
  - destruct b; [exists true, st2; split_and!; done|].
    destruct (Hn eq_refl) as (Hv2 & Hsub & Hi2 & Hin).
    eexists false, _. split_and!; [done|done|]. intros _. simpl. rewrite Hv2. simpl.
    split_and!; [set_solver|set_solver| |].
    + change (visiting st ∪ {[id]}) with (visiting st1). rewrite <-Hv2.
      apply (visit_finish_inv id st st2); try done. intros ? ? ? ? ?. simplify_eq. by apply Hin.
    + intros ? <- _. set_solver.
Qed.

Lemma visit_roots_deps fuel order st :
  (∀ id, id ∈ order → is_Some (g !! id)) →
  visit_roots fuel g order st = visit_deps (visit fuel g) g order st.
Proof.
  revert st. induction order as [|id order IH]; intros st Hall; [done|]. simpl.
  destruct (Hall id) as [d ->]; [left|]. case_match; [|done]. case_match. case_match; [done|].
  apply IH. intros. apply Hall. by right.
Qed.

Lemma visit_roots_correct order :
  order ≡ₚ elements (dom g) →
  ∃ b st, visit_roots (S (size g)) g order {| visiting := ∅; visited := ∅ |} = Some (b, st) ∧
          (b = true ↔ cyclic).
Proof.
  intros Ho.
  assert (Hall : ∀ id, id ∈ order ↔ is_Some (g !! id)).
  { intros id. by rewrite Ho, elem_of_elements, elem_of_dom. }
  assert (Hi0 : dfs_inv {| visiting := ∅; visited := ∅ |}) by (split; set_solver).
  rewrite visit_roots_deps by (intros; by apply Hall).
  destruct (visit_deps_searched (visit (S (size g)) g) order {| visiting := ∅; visited := ∅ |})
    as (b & st & -> & Hb & Hn); [|done|].
  - intros dep st' _ Hs Hv Hi. apply visit_searched; [done|done| |]; rewrite Hv; simpl.
    + rewrite difference_empty_L, size_dom. lia.
    + set_solver.
  - exists b, st. split; [done|]. split; [done|]. intros (x & Hx). destruct b; [done|].
    destruct (Hn eq_refl) as (_ & _ & Hi & Hin). exfalso.
    refine (dfs_acyclic _ Hi x _ Hx).
    assert (Hxs : is_Some (g !! x)).
    { inversion Hx as [? ? (d & ? & _)|? ? ? (d & ? & _)]; subst; by eexists. }
    apply Hin; [by apply Hall|done].
Qed.
End dfs.

Lemma hasTaskDependencyCycle_spec order tasks :
  key_order order tasks →
  ∃ b, hasTaskDependencyCycle order tasks = Some b ∧ (b = true ↔ cyclic (task_graph tasks)).
Proof.
  intros Ho. unfold hasTaskDependencyCycle.
  destruct (visit_roots_correct _ _ Ho) as (b & st & -> & Hb). by exists b.
Qed.

(** ** What validation accepts *)

Definition task_edge (tasks : list AgentTask) (id dep : string) : Prop :=
  ∃ t, t ∈ tasks ∧ TkID t = id ∧ dep ∈ TkDependsOn t.

(** A plan that can be run. *)
Record plan_ok (p : TeamPlan) : Prop := {
  ok_objective : trim_space (PnObjective p) ≠ "";
  ok_nonempty : PnTasks p ≠ [];
  ok_ids : NoDup (map TkID (PnTasks p));
  ok_goal t : t ∈ PnTasks p → trim_space (TkGoal t) ≠ "" ∨ trim_space (TkDescription t) ≠ "";
  ok_scope t : t ∈ PnTasks p → IsReadOnly t = true ∨ TkFiles t ≠ [];
  ok_deps t dep : t ∈ PnTasks p → dep ∈ TkDependsOn t → dep ∈ map TkID (PnTasks p);
  ok_acyclic id : ¬ tc (task_edge (PnTasks p)) id id;
  ok_stage_ids : NoDup (map SgID (PnStages p)) ∧ "" ∉ map SgID (PnStages p);
  ok_stage_tasks s id : s ∈ PnStages p → id ∈ SgTaskIDs s → id ∈ map TkID (PnTasks p);
  ok_task_stage t : t ∈ PnTasks p → PnStages p ≠ [] → TkStage t = "" ∨ TkStage t ∈ map SgID (PnStages p);
}.

Lemma report_nil b p : report b p = [] ↔ b = false.
Proof. by destruct b. Qed.
Lemma nil_false {A} (l : list A) : nil_ l = false ↔ l ≠ [].
Proof. by destruct l. Qed.
Lemma blank_false s : blank s = false ↔ trim_space s ≠ "".
Proof. unfold blank. by destruct (String.eqb_spec (trim_space s) ""). Qed.
Lemma flat_map_nil {A B} (f : A → list B) l : flat_map f l = [] ↔ ∀ x, x ∈ l → f x = [].
Proof.
  induction l as [|a l IH]; simpl.
  - split; [intros _ x Hx; by apply not_elem_of_nil in Hx|done].
  - rewrite app_nil, IH. setoid_rewrite elem_of_cons. naive_solver.
Qed.

Lemma check_tasks_spec tasks ids ps ids' :
  (∀ t, t ∈ tasks → TkID t ≠ "") → check_tasks tasks ids = (ps, ids') →
  ids' = ids ∪ list_to_set (map TkID tasks) ∧
  (ps = [] ↔ (NoDup (map TkID tasks) ∧ (∀ id, id ∈ map TkID tasks → id ∉ ids)) ∧
     (∀ t, t ∈ tasks → blank (TkGoal t) && blank (TkDescription t) = false ∧
                       negb (IsReadOnly t) && nil_ (TkFiles t) = false)).
Proof.
  revert ids ps ids'. induction tasks as [|t tasks IH]; intros ids ps ids' Hne; simpl.
  { intros. simplify_eq. split; [set_solver|]. split; [|done]. intros _.
    split_and!; [constructor|set_solver|intros ? H; by apply not_elem_of_nil in H]. }
  assert (Hne' : ∀ t', t' ∈ tasks → TkID t' ≠ "") by (intros; apply Hne; by right).
  destruct (String.eqb_spec (TkID t) ""); [by destruct (Hne t); [left|]|].
  case_bool_decide as Hin.
  - destruct (check_tasks tasks ids) as [ps1 ids1] eqn:E. intros. simplify_eq.
    destruct (IH _ _ _ Hne' E) as [-> _]. split; [set_solver|]. split; [done|].
    intros ((_ & H) & _). by destruct (H (TkID t)); [left|].
  - destruct (check_tasks tasks (ids ∪ _)) as [ps1 ids1] eqn:E. intros. simplify_eq.
    destruct (IH _ _ _ Hne' E) as [-> Hps]. split; [set_solver|].
    rewrite !app_nil, !report_nil, Hps, list.NoDup_cons. setoid_rewrite elem_of_cons.
    setoid_rewrite not_elem_of_union. setoid_rewrite not_elem_of_singleton.
    split.
    2: { intros (((Hnt & Hnd) & Hni) & Hall). destruct (Hall t (or_introl eq_refl)).
      split_and!; [done|done|done| |]; intros id Hid; [|by apply Hall; right].
      split; [by apply Hni; right|]. intros ->. done. }
    intros (? & ? & (Hnd & Hni) & Hall).
    split_and!; [intros Hx; by destruct (Hni _ Hx)|done|naive_solver|naive_solver].
Qed.

Lemma check_stages_spec ids stages seen ps seen' :
  check_stages ids stages seen = (ps, seen') →
  ((∀ s, s ∈ stages → SgID s ≠ "") → seen' = seen ∪ list_to_set (map SgID stages)) ∧
  (ps = [] ↔ ("" ∉ map SgID stages ∧ NoDup (map SgID stages) ∧
     (∀ id, id ∈ map SgID stages → id ∉ seen)) ∧
     (∀ s id, s ∈ stages → id ∈ SgTaskIDs s → id ∈ ids)).
Proof.
  revert seen ps seen'. induction stages as [|s stages IH]; intros seen ps seen'; simpl.
  { intros. simplify_eq. split; [set_solver|]. split; [|done]. intros _.
    split_and!; [apply not_elem_of_nil|constructor|set_solver|intros ? ? H; by apply not_elem_of_nil in H]. }
  destruct (String.eqb_spec (SgID s) "") as [He|He].
  - destruct (check_stages ids stages seen) as [ps1 s1] eqn:E. intros. simplify_eq.
    split; [intros H; by destruct (H s); [left|]|]. split; [done|].
    intros ((H & _) & _). destruct H. rewrite He. left.
  - destruct (check_stages ids stages (seen ∪ _)) as [ps1 s1] eqn:E. intros. simplify_eq.
    destruct (IH _ _ _ E) as [Hs Hps]. split.
    { intros H. rewrite Hs; [set_solver|]. intros; apply H; by right. }
    rewrite !app_nil, report_nil, Hps, flat_map_nil, list.NoDup_cons.
    setoid_rewrite report_nil. setoid_rewrite negb_false_iff. setoid_rewrite bool_decide_eq_true.
    rewrite bool_decide_eq_false. setoid_rewrite elem_of_cons.
    setoid_rewrite not_elem_of_union. setoid_rewrite not_elem_of_singleton.
    split.
    + intros (H1 & H2 & (H3 & H4 & H5) & H6). split_and!.
      * intros [?|?]; congruence.
      * intros Hx. by destruct (H5 _ Hx).
      * done.
      * intros id [->|Hx]; [done|by apply H5].
      * intros s' id [->|Hx]; [apply H2|by apply H6].
    + intros ((H1 & (H2 & H3) & H4) & H5). split_and!; [naive_solver|naive_solver|naive_solver|done| |naive_solver].
      intros id Hid. split; [naive_solver|]. intros ->. done.
Qed.

Lemma task_graph_lookup_aux tasks (g : gmap string (list string)) id :
  NoDup (map TkID tasks) →
  fold_left (λ g t, <[TkID t := TkDependsOn t]> g) tasks g !! id =
  match list_find (λ t, TkID t = id) tasks with
  | Some (_, t) => Some (TkDependsOn t)
  | None => g !! id
  end.
Proof.
  revert g. induction tasks as [|t tasks IH]; intros g; simpl; [done|].
  rewrite list.NoDup_cons. intros [Hni Hnd]. rewrite IH by done.
  destruct (decide (TkID t = id)) as [<-|Hne].
  - destruct (list_find (λ t0, TkID t0 = TkID t) tasks) as [[i t']|] eqn:E; simpl.
    + apply list_find_Some in E as (Hl & He & _). destruct Hni. rewrite <-He.
      apply list_elem_of_fmap. exists t'. split; [done|]. by eapply list_elem_of_lookup_2.
    + by rewrite lookup_insert_eq.
  - destruct (list_find _ tasks) as [[i t']|]; simpl; [done|]. by rewrite lookup_insert_ne.
Qed.

Lemma task_graph_lookup tasks id deps :
  NoDup (map TkID tasks) →
  task_graph tasks !! id = Some deps ↔ ∃ t, t ∈ tasks ∧ TkID t = id ∧ TkDependsOn t = deps.
Proof.
  intros Hnd. unfold task_graph. rewrite task_graph_lookup_aux, lookup_empty by done.
  destruct (list_find (λ t, TkID t = id) tasks) as [[i t]|] eqn:E.
  - apply list_find_Some in E as (Hl & He & _). apply list_elem_of_lookup_2 in Hl as Hin. split.
    + intros [= <-]. by exists t.
    + intros (t' & Hin' & He' & <-). f_equal. f_equal.
      apply list_elem_of_lookup in Hin' as (j & Hj). apply list_elem_of_lookup in Hin as (k & Hk).
      assert (j = k) as ->; [|congruence].
      eapply (NoDup_lookup _ j k id); [exact Hnd| |]; by rewrite list_lookup_fmap, ?Hj, ?Hk; simpl; f_equal.
  - apply list_find_None in E. split; [done|]. intros (t & Hin & He & _).
    rewrite Forall_elem in E. by destruct (E t Hin).
Qed.

Lemma cyclic_task_edge tasks :
  NoDup (map TkID tasks) →
  (∀ t dep, t ∈ tasks → dep ∈ TkDependsOn t → dep ∈ map TkID tasks) →
  cyclic (task_graph tasks) ↔ ∃ id, tc (task_edge tasks) id id.
Proof.
  intros Hnd Hdeps.
  assert (He : ∀ x y, depends (task_graph tasks) x y ↔ task_edge tasks x y).
  { intros x y. unfold depends. split.
    - intros (deps & Hg & Hy & _). apply task_graph_lookup in Hg as (t & ? & ? & <-); [|done]. by exists t.
    - intros (t & Ht & Hx & Hy). exists (TkDependsOn t). split_and!; [|done|].
      + apply task_graph_lookup; [done|by exists t].
      + pose proof (Hdeps _ _ Ht Hy) as Hin. apply list_elem_of_fmap in Hin as (t' & -> & Ht').
        exists (TkDependsOn t'). apply task_graph_lookup; [done|by exists t']. }
  assert (Htc : ∀ x y, tc (depends (task_graph tasks)) x y ↔ tc (task_edge tasks) x y).
  { intros x y. split; induction 1 as [a b H|a b c H _ IH];
      [apply tc_once|eapply tc_l; [|exact IH]|apply tc_once|eapply tc_l; [|exact IH]];
      apply (He a b), H. }
  unfold cyclic. by setoid_rewrite Htc.
Qed.

Lemma normalized_id now t : TkID (AgentTask_Normalized now t) ≠ "".
Proof. simpl. unfold or_else. by destruct (String.eqb_spec (trim_space (TkID t)) ""). Qed.

Lemma check_dependencies_nil ids task :
  check_dependencies ids task = [] ↔
  ∀ dep, dep ∈ TkDependsOn task → dep ∈ ids ∧ dep ≠ TkID task.
Proof.
  unfold check_dependencies. rewrite flat_map_nil. setoid_rewrite app_nil.
  setoid_rewrite report_nil. setoid_rewrite negb_false_iff. setoid_rewrite bool_decide_eq_true.
  setoid_rewrite String.eqb_neq. done.
Qed.

Lemma size_list_to_set_pos (l : list string) :
  bool_decide (0 < size (list_to_set l : gset string))%nat = negb (nil_ l).
Proof.
  destruct l as [|x l]; simpl; [done|]. apply bool_decide_eq_true.
  assert (size (∅ : gset string) < size ({[x]} ∪ list_to_set l : gset string))%nat; [|by rewrite size_empty in *].
  apply subset_size. set_solver.
Qed.

Lemma check_task_stage_nil stages task :
  check_task_stage (list_to_set (map SgID stages)) task = [] ↔
  (stages ≠ [] → TkStage task = "" ∨ TkStage task ∈ map SgID stages).
Proof.
  unfold check_task_stage. rewrite report_nil, size_list_to_set_pos.
  destruct (String.eqb_spec (TkStage task) "") as [->|Hne]; simpl; [naive_solver|].
  destruct stages as [|s stages]; [naive_solver|]. simpl.
  rewrite negb_false_iff, bool_decide_eq_true, elem_of_union, elem_of_singleton, elem_of_list_to_set, elem_of_cons.
  naive_solver.
Qed.

(** The problem lists are all empty exactly for a plan that can be run. *)
Lemma problems_nil p c :
  (∀ t, t ∈ PnTasks p → TkID t ≠ "") → (c = true ↔ cyclic (task_graph (PnTasks p))) →
  let '(tps, ids) := check_tasks (PnTasks p) ∅ in
  let '(sps, sids) := check_stages ids (PnStages p) ∅ in
  report (blank (PnObjective p)) ObjectiveRequired ++ report (nil_ (PnTasks p)) TaskRequired ++
  tps ++ flat_map (check_dependencies ids) (PnTasks p) ++ sps ++
  flat_map (check_task_stage sids) (PnTasks p) ++ report c DependencyCycle = [] ↔ plan_ok p.
Proof.
  intros Hne Hc. destruct (check_tasks _ _) as [tps ids] eqn:Et.
  apply check_tasks_spec in Et as [-> Ht]; [|done].
  destruct (check_stages _ _ _) as [sps sids] eqn:Es. apply check_stages_spec in Es as [Hsids Hs].
  rewrite !app_nil, !report_nil, !flat_map_nil, Ht, Hs, blank_false, nil_false.
  setoid_rewrite check_dependencies_nil. setoid_rewrite andb_false_iff.
  setoid_rewrite blank_false. setoid_rewrite nil_false. setoid_rewrite negb_false_iff.
  assert (Hin : ∀ id, id ∈ (∅ ∪ list_to_set (map TkID (PnTasks p)) : gset string) ↔ id ∈ map TkID (PnTasks p)).
  { intros id. set_solver. }
  setoid_rewrite Hin. split.
  - intros (H1 & H2 & ((H3 & _) & H4) & H5 & ((H6 & H7 & _) & H8) & H9 & H10).
    assert (Hsn : ∀ s, s ∈ PnStages p → SgID s ≠ "").
    { intros s Hin' He. apply H6. rewrite <-He. by apply list_elem_of_fmap_2. }
    rewrite (Hsids Hsn), union_empty_l_L in H9.
    split; try done.
    + intros t Hin'. by apply H4.
    + intros t Hin'. by apply H4.
    + intros t dep Hin' Hd. by apply (H5 t).
    + intros id Hcy. apply not_true_iff_false in H10. apply H10, Hc, cyclic_task_edge; [done| |by exists id].
      intros t dep Hin' Hd. by apply (H5 t).
    + intros t Hin'. by apply check_task_stage_nil, H9.
  - intros [H1 H2 H3 H4 H5 H6 H7 [H8 H8'] H9 H10].
    assert (Hsn : ∀ s, s ∈ PnStages p → SgID s ≠ "").
    { intros s Hin' He. apply H8'. rewrite <-He. by apply list_elem_of_fmap_2. }
    rewrite (Hsids Hsn), union_empty_l_L.
    split_and!; try done.
    + intros t Hin'. split; auto.
    + intros t Hin' dep Hd. split; [by apply (H6 t)|]. intros ->. apply (H7 (TkID t)), tc_once. by exists t.
    + intros t Hin'. apply check_task_stage_nil. auto.
    + apply not_true_iff_false. rewrite Hc, cyclic_task_edge; [|done|done]. intros (id & Hcy). by apply (H7 id).
Qed.

(** The cycle search terminates and finds a cycle exactly when the
    dependency graph has one, whatever order the map's keys are visited in. *)
Theorem hasTaskDependencyCycle_correct order tasks :
  key_order order tasks →
  (hasTaskDependencyCycle order tasks = Some true ↔ cyclic (task_graph tasks)) ∧
  (hasTaskDependencyCycle order tasks = Some false ↔ ¬ cyclic (task_graph tasks)).
Proof.
  intros (b & -> & Hb)%hasTaskDependencyCycle_spec. rewrite <-Hb. destruct b; split; split; intros; congruence.
Qed.

Lemma ValidateTeamPlan_spec now order plan :
  key_order order (PnTasks (TeamPlan_Normalized now plan)) →
  ∃ r, ValidateTeamPlan now order plan = Some r ∧
    (r = Ok tt ↔ plan_ok (TeamPlan_Normalized now plan)) ∧
    (∀ ps, r = Err ps → ps ≠ []).
Proof.
  intros Ho. unfold ValidateTeamPlan. set (p := TeamPlan_Normalized now plan) in *.
  destruct (hasTaskDependencyCycle_spec _ _ Ho) as (c & Hc & Hcy).
  assert (Hne : ∀ t, t ∈ PnTasks p → TkID t ≠ "").
  { intros t Ht. subst p. simpl in Ht. apply list_elem_of_fmap in Ht as (t' & -> & _).
    apply normalized_id. }
  pose proof (problems_nil p c Hne Hcy) as Hn.
  destruct (check_tasks (PnTasks p) ∅) as [tps ids].
  destruct (check_stages ids (PnStages p) ∅) as [sps sids].
  rewrite Hc. cbn [mbind option_bind].
  match type of Hn with ?l = [] ↔ _ => destruct l as [|pr prs] end; eexists; split_and!.
  - done.
  - by rewrite <-Hn.
  - done.
  - done.
  - by rewrite <-Hn.
  - by intros ps [= <-].
Qed.

(** Validation terminates; it accepts a plan exactly when its normal form can
    be run (distinct tasks with a goal, a file scope for each writing task, known
    and acyclic dependencies, consistent stages), in whatever order maps are
    ranged over, and a refused plan has at least one problem to report. *)
Theorem ValidateTeamPlan_accepts_exactly now order plan :
  key_order order (PnTasks (TeamPlan_Normalized now plan)) →
  ∃ r, ValidateTeamPlan now order plan = Some r ∧
    (r = Ok tt ↔ plan_ok (TeamPlan_Normalized now plan)) ∧
    (∀ ps, r = Err ps → ps ≠ []).
Proof. apply ValidateTeamPlan_spec. Qed.

(** ** What the capacity scheduler selects *)

Definition slots_of (l : list AgentTask) : Z := foldr (λ t n, taskModelSlots t + n) 0 l.

Lemma taskModelSlots_pos t : 1 ≤ taskModelSlots t.
Proof. unfold taskModelSlots. destruct (Z.ltb_spec 0 (RsModelSlots (TkResources t))); lia. Qed.

Lemma slots_of_nonneg l : 0 ≤ slots_of l.
Proof. induction l as [|t l IH]; simpl; [lia|]. pose proof (taskModelSlots_pos t). lia. Qed.

Lemma slots_of_app l1 l2 : slots_of (l1 ++ l2) = slots_of l1 + slots_of l2.
Proof. induction l1; simpl; lia. Qed.

Lemma slots_of_fold l n :
  0 ≤ n → n + slots_of l ≤ max_int64 →
  fold_left (λ used task, wrap64 (used + taskModelSlots task)) l n = n + slots_of l.
Proof.
  revert n. induction l as [|t l IH]; intros n Hn Hb; simpl in *; [lia|].
  pose proof (taskModelSlots_pos t). pose proof (slots_of_nonneg l).
  rewrite wrap64_id by (unfold min_int64; lia). rewrite IH; lia.
Qed.

Lemma conflictsWithAny_app t l1 l2 :
  conflictsWithAny t (l1 ++ l2) = conflictsWithAny t l1 || conflictsWithAny t l2.
Proof. apply existsb_app. Qed.

Lemma select_loop_spec capacity running n cands sel avail :
  0 ≤ avail → Z.of_nat (length sel) ≤ n →
  let res := select_loop capacity running n cands sel avail in
  ∃ picked, res = sel ++ picked ∧ picked `sublist_of` cands ∧ Z.of_nat (length res) ≤ n ∧
    slots_of picked ≤ avail ∧
    (FileScopeLock capacity = true → ∀ l1 t l2, picked = l1 ++ t :: l2 →
       conflictsWithAny t (running ++ sel ++ l1) = false) ∧
    (∀ c, c ∈ cands → c ∈ picked ∨ n ≤ Z.of_nat (length res) ∨ avail - slots_of picked < taskModelSlots c ∨
       FileScopeLock capacity && conflictsWithAny c (running ++ res) = true).
Proof.
  revert sel avail. induction cands as [|t cands IH]; intros sel avail Ha Hl; simpl.
  { exists []. rewrite app_nil_r. split_and!; [done|done|done|simpl; lia| |].
    - intros _ l1 t l2 H. by destruct l1.
    - intros c H. by apply not_elem_of_nil in H. }
  destruct (Z.leb_spec n (Z.of_nat (length sel))).
  { exists []. rewrite app_nil_r. split_and!; [done|apply sublist_nil_l|done|simpl; lia| |].
    - intros _ l1 t' l2 H'. by destruct l1.
    - intros c _. right; by left. }
  destruct (Z.ltb_spec avail (taskModelSlots t)) as [Hs|Hs].
  { destruct (IH sel avail) as (pk & Hr & Hsub & Hlen & Hsl & Hc & Hm); [done..|].
    exists pk. split_and!; [done|by constructor|done|done|done|].
    intros c [->|Hin]%elem_of_cons; [|by apply Hm]. right; right; left.
    pose proof (slots_of_nonneg pk). lia. }
  destruct (FileScopeLock capacity && conflictsWithAny t (running ++ sel)) eqn:Hlk.
  { destruct (IH sel avail) as (pk & Hr & Hsub & Hlen & Hsl & Hc & Hm); [done..|].
    exists pk. split_and!; [done|by constructor|done|done|done|].
    intros c [->|Hin]%elem_of_cons; [|by apply Hm]. right; right; right.
    apply andb_prop in Hlk as [-> Hx]. rewrite Hr, app_assoc, conflictsWithAny_app, Hx. done. }
  destruct (IH (sel ++ [t]) (avail - taskModelSlots t)) as (pk & Hr & Hsub & Hlen & Hsl & Hc & Hm);
    [lia|rewrite length_app; simpl; lia|].
  exists (t :: pk). rewrite <-app_assoc in Hr. simpl in Hr. split_and!.
  - done.
  - by constructor.
  - done.
  - simpl. lia.
  - intros Hlock l1 t' l2 Heq. rewrite Hlock in Hlk. destruct l1 as [|x l1]; simplify_eq/=.
    + by rewrite app_nil_r.
    + rewrite <-(Hc Hlock l1 t' l2 eq_refl). by rewrite <-app_assoc.
  - intros c [->|Hin]%elem_of_cons; [left; left|].
    destruct (Hm c Hin) as [?|[?|[?|?]]]; [left; by right|auto|right; right; left; simpl; lia|auto].
Qed.

Lemma normalized_capacity c :
  0 < ModelSlots (CapacityConfig_Normalized true c) ∧
  0 < MaxParallelTasks (CapacityConfig_Normalized true c).
Proof.
  simpl. unfold positive_or. split; case_match; simpl; lia.
Qed.

Lemma ModelTaskLimit_bound c :
  0 < ModelSlots c → 0 < MaxParallelTasks c →
  ModelTaskLimit c (MaxParallelTasks c) = Z.min (MaxParallelTasks c) (ModelSlots c).
Proof.
  intros H1 H2. unfold ModelTaskLimit.
  rewrite (proj2 (Z.leb_gt _ _) H2). cbv zeta.
  rewrite Z.ltb_irrefl, andb_false_r, (proj2 (Z.ltb_lt _ _) H1). simpl.
  destruct (Z.ltb_spec (ModelSlots c) (MaxParallelTasks c)); rewrite (proj2 (Z.leb_gt _ _)); lia.
Qed.

(** What the scheduler selects is pending, has its dependencies completed,
    keeps the number of tasks and the reserved model slots (those of the running
    tasks included) within the capacity, and under the file-scope lock conflicts
    neither with a running task nor with another selected one; and it is maximal:
    a candidate that is left out has no task slot, no model slots or a conflict. *)
Theorem SelectRunnable_safe_and_maximal now cap tasks m running :
  ModelSlots cap ≤ max_int64 → slots_of running ≤ max_int64 →
  let capacity := CapacityConfig_Normalized true cap in
  let selected := SelectRunnable now cap tasks m running in
  let others := running ++ selected in
  (∀ t, t ∈ selected → (∃ t0, t0 ∈ tasks ∧ t = AgentTask_Normalized now t0) ∧
     (status_of m (TkID t) = "" ∨ status_of m (TkID t) = AgentTaskPending) ∧
     (∀ dep, dep ∈ TkDependsOn t → status_of m dep = AgentTaskCompleted)) ∧
  (selected ≠ [] → Z.of_nat (length others) ≤ MaxParallelTasks capacity ∧
     slots_of others ≤ ModelSlots capacity) ∧
  (FileScopeLock capacity = true → ∀ l1 t l2, selected = l1 ++ t :: l2 →
     conflictsWithAny t (running ++ l1) = false) ∧
  (∀ c, c ∈ candidates_of now tasks m → c ∈ selected ∨
     Z.min (MaxParallelTasks capacity) (ModelSlots capacity) ≤ Z.of_nat (length others) ∨
     ModelSlots capacity - slots_of others < taskModelSlots c ∨
     FileScopeLock capacity && conflictsWithAny c others = true).
Proof.
  intros Hcap Hrun capacity selected others. subst selected others. unfold SelectRunnable.
  fold capacity. destruct (normalized_capacity cap) as [Hms Hmp]. fold capacity in Hms, Hmp.
  pose proof (slots_of_nonneg running) as Hnn.
  assert (Hmax : ModelSlots capacity ≤ max_int64).
  { subst capacity. simpl. unfold positive_or. case_match; simpl; [unfold max_int64; lia|done]. }
  clearbody capacity.
  rewrite slots_of_fold, Z.add_0_l, wrap64_id by (unfold min_int64, max_int64 in *; lia).
  rewrite ModelTaskLimit_bound by done.
  assert (Hnone : ∀ t, t ∈ (@nil AgentTask) → False) by (intros ?; apply not_elem_of_nil).
  destruct (Z.leb_spec (ModelSlots capacity - slots_of running) 0).
  { rewrite app_nil_r. split_and!; [intros ? []%Hnone|done|intros _ [|??]; done|].
    intros c _. right; right; left. pose proof (taskModelSlots_pos c). lia. }
  destruct (Z.leb_spec (Z.min (MaxParallelTasks capacity) (ModelSlots capacity)) (Z.of_nat (length running))).
  { rewrite app_nil_r. split_and!; [intros ? []%Hnone|done|intros _ [|??]; done|]. intros c _. right; by left. }
  destruct (select_loop_spec capacity running
    (Z.min (MaxParallelTasks capacity) (ModelSlots capacity) - Z.of_nat (length running))
    (candidates_of now tasks m) [] (ModelSlots capacity - slots_of running))
    as (pk & -> & Hsub & Hlen & Hsl & Hc & Hm); [lia|simpl; lia|]. simpl in *.
  rewrite length_app, slots_of_app. split_and!.
  - intros t Ht. apply (elem_of_sublist _ _ _ Ht) in Hsub. unfold candidates_of in Hsub.
    apply elem_of_stable_sort, list_elem_of_In, filter_In in Hsub as [Hin Hcd].
    apply list_elem_of_In, list_elem_of_fmap in Hin as (t0 & -> & Ht0).
    unfold candidate, dependenciesComplete in Hcd. apply andb_prop in Hcd as [Hst Hdep].
    split_and!; [by exists t0| |].
    + apply orb_prop in Hst as [Hst|Hst]; apply String.eqb_eq in Hst; auto.
    + intros dep Hd. rewrite forallb_elem in Hdep. by apply String.eqb_eq, Hdep.
  - intros _. lia.
  - done.
  - intros c Hin. destruct (Hm c Hin) as [?|[?|[?|?]]]; [by left|right; left; lia|right; right; left; lia|auto].
Qed.

(** ** Concrete plans *)

Definition no_resources : AgentTaskResources :=
  {| RsModelSlots := 0; RsToolSlots := 0; RsWebFetchSlots := 0; RsTestSlots := 0 |}.
Definition ex_task (id : string) (kind : TaskKind) (deps files : list string) : AgentTask :=
  {| TkID := id; TkName := ""; TkKind := kind; TkStage := ""; TkRole := ""; TkGoal := "do it";
     TkDescription := ""; TkFiles := files; TkDependsOn := deps; TkTools := [];
     TkAcceptanceCriteria := []; TkOutOfScope := []; TkBlueprintNodes := [];
     TkOutputContract := ""; TkReadOnly := false; TkProvider := ""; TkModel := "";
     TkPriority := 0; TkResources := no_resources; TkCreatedAt := 7 |}.
Definition ex_tasks : list AgentTask :=
  [ex_task "plan" "research" [] []; ex_task "api" "implement" ["plan"] ["src/api/**"];
   ex_task "ui" "implement" ["plan"] ["src/ui/**"]; ex_task "api2" "implement" ["plan"] ["src/api/v2/*"]].
Definition ex_teamplan (tasks : list AgentTask) : TeamPlan :=
  {| PnVersion := 1; PnName := "p"; PnObjective := "ship"; PnVerifyCommand := "";
     PnAgents := []; PnStages := []; PnTasks := tasks; PnCapacity := DefaultLocalCapacity |}.
Definition ex_capacity : CapacityConfig :=
  {| ModelSlots := 4; ToolSlots := 3; WebFetchSlots := 4; TestSlots := 1; MaxParallelTasks := 3;
     FileScopeLock := true; FileScopeLockConfigured := false |}.

Lemma key_order_intro order tasks :
  NoDup order → list_to_set order = dom (task_graph tasks) → key_order order tasks.
Proof.
  intros Hnd He. unfold key_order. rewrite <-He. symmetry. by apply elements_list_to_set.
Qed.

Lemma hasTaskDependencyCycle_correct_witness :
  cyclic (task_graph [ex_task "a" "" ["b"] []; ex_task "b" "" ["a"] []]).
Proof.
  apply (hasTaskDependencyCycle_correct ["b"; "a"]).
  - apply key_order_intro; [apply (bool_decide_unpack _); vm_compute; exact I|vm_compute; reflexivity].
  - vm_compute. reflexivity.
Defined.

Lemma ValidateTeamPlan_accepts_exactly_witness :
  plan_ok (TeamPlan_Normalized 5 (ex_teamplan ex_tasks)).
Proof.
  assert (Ho : key_order ["ui"; "api"; "plan"; "api2"] (PnTasks (TeamPlan_Normalized 5 (ex_teamplan ex_tasks)))).
  { apply key_order_intro; [apply (bool_decide_unpack _); vm_compute; exact I|vm_compute; reflexivity]. }
  destruct (ValidateTeamPlan_accepts_exactly 5 ["ui"; "api"; "plan"; "api2"] (ex_teamplan ex_tasks) Ho)
    as (r & Hr & Hok & _).
  apply Hok. assert (E : ValidateTeamPlan 5 ["ui"; "api"; "plan"; "api2"] (ex_teamplan ex_tasks) = Some (Ok tt))
    by (vm_compute; reflexivity).
  rewrite E in Hr. injection Hr as <-. reflexivity.
Defined.

Lemma SelectRunnable_safe_and_maximal_witness :
  map TkID (SelectRunnable 5 ex_capacity ex_tasks {["plan" := "completed"]} []) = ["api"; "ui"] ∧
  slots_of (SelectRunnable 5 ex_capacity ex_tasks {["plan" := "completed"]} []) ≤ 4.
Proof.
  split; [vm_compute; reflexivity|].
  destruct (SelectRunnable_safe_and_maximal 5 ex_capacity ex_tasks {["plan" := "completed"]} [])
    as (_ & H & _); [vm_compute; discriminate|vm_compute; discriminate|].
  apply H. vm_compute. discriminate.
Defined.

(** The scope "**" of the plan skeleton, meant as the whole workspace, overlaps no
    other scope, so that the file-scope lock does not serialise it. *)
Theorem whole_workspace_scope_conflicts_with_nothing :
  ownershipPatternsOverlap "**" "src/api/**" = false ∧
  ownershipPatternsOverlap "**" "main.go" = false ∧
  conflictsWithAny (ex_task "all" "implement" [] ["**"]) ex_tasks = false.
Proof. split_and!; vm_compute; reflexivity. Qed.

(** A task without an id is not refused as such: normalisation calls it "task", so
    that two of them are reported as duplicates and one of them is accepted. *)
Theorem missing_task_id_accepted :
  ValidateTeamPlan 5 ["task"] (ex_teamplan [ex_task " " "research" [] []]) = Some (Ok tt).
Proof. vm_compute. reflexivity. Qed.
