(* ===== verification/Team.v ===== *)
(** * Team runs: internal/agent/team.go

    A team runs its tasks in waves computed from the dependency graph, a wave in
    batches that fit the configured capacity, and the tasks of a batch in parallel
    workers.  [Team] models the wave computation, the batch selection, the worker's
    terminal reducer, the file-ownership check and, as a step relation, the
    execution of the waves with every interleaving of the workers of a batch.

    Tasks are heap objects: a task is named by its index in [Team.tasks].  What a
    worker's run emits and when the wave's time budget expires are inputs of the
    steps.  Not modelled: the worker's prompt, output files and mailbox, worktrees,
    and the verification command. *)

From S2P Require Export TeamPlan.

Local Open Scope string_scope.
Local Open Scope list_scope.
Local Open Scope Z_scope.

(** ** Data *)

Record TeamTask := {
  TtID : string;
  TtName : string;
  TtDescription : string;
  TtKind : TaskKind;
  TtRole : string;
  TtProvider : string;
  TtModel : string;
  TtReadOnly : bool;
  TtResources : AgentTaskResources;
  TtFiles : list string;
  TtDependsOn : list string;
  TtCreatedAt : time;
}.

(** [AgentTask.ToTeamTask], [TeamPlan.ToTeamTasks]. *)
Definition ToTeamTask (now : time) (t : AgentTask) : TeamTask :=
  let t := AgentTask_Normalized now t in
  {| TtID := TkID t; TtName := TkName t; TtDescription := WorkerPrompt now t;
     TtKind := TkKind t; TtRole := TkRole t; TtProvider := TkProvider t; TtModel := TkModel t;
     TtReadOnly := IsReadOnly t; TtResources := TkResources t; TtFiles := TkFiles t;
     TtDependsOn := TkDependsOn t; TtCreatedAt := TkCreatedAt t |}.
Definition ToTeamTasks (now : time) (p : TeamPlan) : list TeamTask :=
  map (ToTeamTask now) (PnTasks p).

(** [NewTeam]: the wave size and the capacity of the configuration. *)
Definition wave_size (configured : Z) : Z := if configured <=? 0 then 5 else configured.

(** ** Waves *)

Abbreviation degrees := (gmap string Z) (only parsing).
Abbreviation adjacency := (gmap string (list string)) (only parsing).

(** The inner loop over [task.DependsOn]. *)
Definition count_deps (id : string) (deps : list string) (st : degrees * adjacency)
    : degrees * adjacency :=
  fold_left (λ st dep,
    (<[id := default 0 (st.1 !! id) + 1]> st.1,
     <[dep := default [] (st.2 !! dep) ++ [id]]> st.2)) deps st.

Definition count_task (st : degrees * adjacency) (task : TeamTask) : degrees * adjacency :=
  let inDegree := match st.1 !! TtID task with
                  | Some _ => st.1
                  | None => <[TtID task := 0]> st.1
                  end in
  count_deps (TtID task) (TtDependsOn task) (inDegree, st.2).

Definition build_graph (tasks : list TeamTask) : degrees * adjacency :=
  fold_left count_task tasks (∅, ∅).

(** The ids of degree 0, sorted. *)
Definition current_level (inDegree : degrees) : list string :=
  stable_sort (less_str id)
    (map fst (List.filter (λ kv : string * Z, kv.2 =? 0) (map_to_list inDegree))).

(** The sub-slices of at most [size] ids; each round takes at least one. *)
Fixpoint split_level (fuel size : nat) (current : list string) : list (list string) :=
  match fuel, current with
  | O, _ | _, [] => []
  | S fuel', _ => take size current :: split_level fuel' size (drop size current)
  end.

(** [delete(inDegree, id)], then one decrement per dependent. *)
Definition remove_id (dependents : adjacency) (inDegree : degrees) (id : string) : degrees :=
  fold_left (λ m dep, <[dep := default 0 (m !! dep) - 1]> m)
    (default [] (dependents !! id)) (delete id inDegree).

(** [None] is out of fuel. *)
Fixpoint levels (fuel : nat) (size : nat) (dependents : adjacency) (inDegree : degrees)
    : option (result unit (list (list string))) :=
  if bool_decide (inDegree = ∅) then Some (Ok [])
  else match fuel with
       | O => None
       | S fuel' =>
           match current_level inDegree with
           | [] => Some (Err tt)
           | current =>
               rest ← levels fuel' size dependents (fold_left (remove_id dependents) current inDegree);
               Some (waves ← rest; Ok (split_level (length current) size current ++ waves))
           end
       end.

(** [Err tt] is "circular dependency detected".  A round removes at least one id. *)
Definition ComputeWaves (size : Z) (tasks : list TeamTask)
    : option (result unit (list (list string))) :=
  let '(inDegree, dependents) := build_graph tasks in
  levels (base.size inDegree) (Z.to_nat (wave_size size)) dependents inDegree.

(** ** Correctness of the wave computation *)

Definition edges (tasks : list TeamTask) : list (string * string) :=
  flat_map (λ t, map (λ dep, (dep, TtID t)) (TtDependsOn t)) tasks.
Definition ids (tasks : list TeamTask) : gset string := list_to_set (map TtID tasks).

(** The edges into [x] that do not come from the processed ids [P]. *)
Definition open_edges (P : gset string) (x : string) (es : list (string * string)) : nat :=
  length (filter (λ e, e.2 = x ∧ e.1 ∉ P) es).

Definition dependents_of (d : string) (es : list (string * string)) : list string :=
  map snd (filter (λ e, e.1 = d) es).

Lemma open_edges_app P x l1 l2 : open_edges P x (l1 ++ l2) = (open_edges P x l1 + open_edges P x l2)%nat.
Proof. unfold open_edges. by rewrite list.filter_app, length_app. Qed.

Lemma open_edges_cons P x e l :
  open_edges P x (e :: l) = ((if decide (e.2 = x ∧ e.1 ∉ P) then 1 else 0) + open_edges P x l)%nat.
Proof. unfold open_edges. rewrite filter_cons. by case_decide. Qed.

Lemma open_edges_pos P x es :
  (0 < open_edges P x es)%nat ↔ ∃ d, (d, x) ∈ es ∧ d ∉ P.
Proof.
  induction es as [|[d y] es IH]; simpl.
  - split; [unfold open_edges; simpl; lia|]. intros (d & H & _). by apply not_elem_of_nil in H.
  - rewrite open_edges_cons. simpl. setoid_rewrite elem_of_cons. case_decide as Hd.
    + destruct Hd as [-> Hd]. split; [intros _; exists d; auto|lia].
    + simpl. rewrite IH. split; [intros (d' & ? & ?); eauto|].
      intros (d' & [[= -> ->]|?] & ?); [|eauto]. by destruct Hd.
Qed.

Lemma edges_app l1 l2 : edges (l1 ++ l2) = edges l1 ++ edges l2.
Proof. apply flat_map_app. Qed.

Lemma edges_one t : edges [t] = map (λ dep, (dep, TtID t)) (TtDependsOn t).
Proof. apply app_nil_r. Qed.

Lemma elem_of_edges tasks d x :
  (d, x) ∈ edges tasks ↔ ∃ t, t ∈ tasks ∧ TtID t = x ∧ d ∈ TtDependsOn t.
Proof.
  unfold edges. rewrite list_elem_of_In, in_flat_map.
  setoid_rewrite in_map_iff. setoid_rewrite <-list_elem_of_In. naive_solver.
Qed.

Lemma dependents_of_app d l1 l2 :
  dependents_of d (l1 ++ l2) = dependents_of d l1 ++ dependents_of d l2.
Proof. unfold dependents_of. by rewrite list.filter_app, map_app. Qed.

Lemma elem_of_dependents d x es : x ∈ dependents_of d es ↔ (d, x) ∈ es.
Proof.
  unfold dependents_of. rewrite list_elem_of_fmap. setoid_rewrite list_elem_of_filter. split.
  - intros ([d' y] & -> & <- & H). done.
  - intros H. by exists (d, x).
Qed.

(** The degrees and the adjacency lists once the ids of [P] have been processed. *)
Definition degrees_ok (tasks : list TeamTask) (P : gset string) (m : gmap string Z) : Prop :=
  ∀ x, m !! x = if decide (x ∈ ids tasks ∧ x ∉ P)
                then Some (Z.of_nat (open_edges P x (edges tasks))) else None.

Definition adjacency_ok (tasks : list TeamTask) (a : gmap string (list string)) : Prop :=
  ∀ d, default [] (a !! d) = dependents_of d (edges tasks).

Lemma count_deps_degree id deps st x :
  default 0 ((count_deps id deps st).1 !! x) =
  default 0 (st.1 !! x) + Z.of_nat (open_edges ∅ x (map (λ d, (d, id)) deps)) ∧
  (is_Some (st.1 !! id) → is_Some ((count_deps id deps st).1 !! x) ↔ is_Some (st.1 !! x)).
Proof.
  revert st. induction deps as [|d deps IH]; intros st; [simpl; unfold open_edges; simpl; split; [lia|done]|].
  unfold count_deps in *. cbn [fold_left map].
  destruct (IH (<[id := default 0 (st.1 !! id) + 1]> st.1, <[d := default [] (st.2 !! d) ++ [id]]> st.2)) as [-> Hs].
  cbn [fst] in *. rewrite open_edges_cons. cbn [fst snd]. split.
  - destruct (decide (id = x)) as [<-|Hne].
    + rewrite lookup_insert_eq, decide_True by set_solver. simpl. lia.
    + rewrite lookup_insert_ne, decide_False by tauto. lia.
  - intros Hid. rewrite Hs by (rewrite lookup_insert_eq; by eexists).
    destruct (decide (id = x)) as [<-|Hne]; [|by rewrite lookup_insert_ne].
    rewrite lookup_insert_eq. split; [done|by eexists].
Qed.

Lemma count_deps_adjacency id deps st d :
  default [] ((count_deps id deps st).2 !! d) =
  default [] (st.2 !! d) ++ dependents_of d (map (λ d, (d, id)) deps).
Proof.
  revert st. induction deps as [|e deps IH]; intros st; [simpl; by rewrite app_nil_r|].
  unfold count_deps in *. cbn [fold_left map]. rewrite IH. cbn [snd].
  unfold dependents_of. rewrite filter_cons. cbn [fst].
  destruct (decide (e = d)) as [<-|Hne].
  - rewrite lookup_insert_eq. simpl. by rewrite <-app_assoc.
  - by rewrite lookup_insert_ne.
Qed.

Lemma build_graph_ok tasks :
  degrees_ok tasks ∅ (build_graph tasks).1 ∧ adjacency_ok tasks (build_graph tasks).2.
Proof.
  unfold build_graph. induction tasks as [|t tasks IH] using rev_ind.
  { split; intros x; simpl; [|done]. rewrite decide_False by set_solver. done. }
  rewrite fold_left_app. cbn [fold_left]. set (st := fold_left count_task tasks (∅, ∅)) in *.
  destruct IH as [Hd Ha]. unfold count_task. set (m := match st.1 !! TtID t with Some _ => _ | None => _ end).
  assert (Hm : ∀ x, default 0 (m !! x) = default 0 (st.1 !! x) ∧
            (is_Some (m !! x) ↔ is_Some (st.1 !! x) ∨ x = TtID t)).
  { intros x. subst m. destruct (st.1 !! TtID t) eqn:E.
    - split; [done|]. split; [auto|]. intros [?| ->]; [done|by rewrite E].
    - destruct (decide (x = TtID t)) as [->|Hne].
      + rewrite lookup_insert_eq, E. split; [done|]. split; [auto|by eexists].
      + rewrite lookup_insert_ne by done. split; [done|]. tauto. }
  split.
  - intros x. destruct (count_deps_degree (TtID t) (TtDependsOn t) (m, st.2) x) as [Hv Hs].
    cbn [fst] in Hv, Hs. destruct (Hm x) as [Hmx Hmx']. rewrite Hmx in Hv.
    rewrite Hmx' in Hs. specialize (Hd x).
    assert (Hids : x ∈ ids (tasks ++ [t]) ↔ x ∈ ids tasks ∨ x = TtID t).
    { unfold ids. rewrite map_app, list_to_set_app_L. simpl. set_solver. }
    assert (His : is_Some (st.1 !! x) ↔ x ∈ ids tasks).
    { rewrite Hd. case_decide as Hc; [split; [tauto|by eexists]|]. split; [by intros [? ?]|set_solver]. }
    rewrite His in Hs. rewrite edges_app, edges_one, open_edges_app.
    destruct ((count_deps _ _ _).1 !! x) as [v|] eqn:E; cbn [default] in Hv.
    + rewrite decide_True.
      2: { rewrite Hids. split; [|set_solver]. apply Hs; [|by eexists]. apply (proj2 (Hm (TtID t))). by right. }
      f_equal. rewrite Hd in Hv. unfold id in Hv. subst v. case_decide as Hc; simpl; [lia|].
      assert (Hz : open_edges ∅ x (edges tasks) = 0%nat); [|lia].
      destruct (open_edges ∅ x (edges tasks)) eqn:Eo; [done|].
      assert (0 < open_edges ∅ x (edges tasks))%nat as (d & (t' & Ht' & <- & _)%elem_of_edges & _)%open_edges_pos by lia.
      destruct Hc. split; [|set_solver]. apply elem_of_list_to_set. by apply list_elem_of_fmap_2.
    + rewrite decide_False; [done|]. rewrite Hids. intros [Hc _].
      apply Hs in Hc; [by destruct Hc|]. apply (proj2 (Hm (TtID t))). by right.
  - intros d. by rewrite count_deps_adjacency, edges_app, edges_one, dependents_of_app; cbn [snd]; rewrite (Ha d).
Qed.

(** One dependent is decremented once per edge. *)
Lemma decrement_spec deps (m : gmap string Z) x :
  fold_left (λ m dep, <[dep := default 0 (m !! dep) - 1]> m) deps m !! x =
  if decide (x ∈ deps) then Some (default 0 (m !! x) - Z.of_nat (count_occ String.string_dec deps x)) else m !! x.
Proof.
  revert m. induction deps as [|d deps IH]; intros m; [done|]. cbn [fold_left]. rewrite IH.
  destruct (decide (d = x)) as [<-|Hne].
  - rewrite lookup_insert_eq, (decide_True (P := d ∈ d :: deps)) by left.
    rewrite count_occ_cons_eq by done. case_decide as Hd; simpl; f_equal; [lia|].
    rewrite (proj1 (count_occ_not_In _ _ _)) by (by rewrite <-list_elem_of_In). lia.
  - rewrite lookup_insert_ne by done. rewrite count_occ_cons_neq by done.
    case_decide as Hd; case_decide as Hd'; try done.
    + destruct Hd'. by right.
    + apply elem_of_cons in Hd' as [->|?]; done.
Qed.

Lemma open_edges_union P d x es :
  d ∉ P → (open_edges P x es = open_edges (P ∪ {[d]}) x es + count_occ String.string_dec (dependents_of d es) x)%nat.
Proof.
  intros Hd. induction es as [|[e y] es IH]; [done|].
  rewrite !open_edges_cons. unfold dependents_of. rewrite filter_cons. cbn [fst snd].
  assert (HP : e ∉ P ∪ {[d]} ↔ e ∉ P ∧ e ≠ d) by set_solver.
  destruct (decide (e = d)) as [->|He]; cbn [map snd].
  - rewrite (decide_False (P := y = x ∧ d ∉ P ∪ {[d]})) by (rewrite HP; tauto).
    destruct (decide (y = x)) as [->|Hy].
    + rewrite decide_True, count_occ_cons_eq by done. unfold dependents_of in IH. lia.
    + rewrite decide_False, count_occ_cons_neq by tauto. unfold dependents_of in IH. lia.
  - rewrite IH. unfold dependents_of. do 2 case_decide; try lia; rewrite HP in *; tauto.
Qed.

Lemma remove_id_ok tasks P a m d :
  degrees_ok tasks P m → adjacency_ok tasks a → d ∉ P →
  (∀ x, (d, x) ∈ edges tasks → x ∉ P ∧ x ≠ d) →
  degrees_ok tasks (P ∪ {[d]}) (remove_id a m d).
Proof.
  intros Hm Ha Hd Hdep x. unfold remove_id. rewrite (Ha d), decrement_spec.
  pose proof (open_edges_union P d x (edges tasks) Hd) as Ho.
  case_decide as Hin.
  - apply elem_of_dependents in Hin. destruct (Hdep x Hin) as [HxP Hxd].
    rewrite lookup_delete_ne, Hm by done.
    assert (x ∈ ids tasks).
    { apply elem_of_edges in Hin as (t & Ht & <- & _). apply elem_of_list_to_set. by apply list_elem_of_fmap_2. }
    rewrite !decide_True by set_solver. simpl. f_equal. lia.
  - rewrite elem_of_dependents in Hin.
    assert (Hc : count_occ String.string_dec (dependents_of d (edges tasks)) x = 0%nat).
    { apply count_occ_not_In. by rewrite <-list_elem_of_In, elem_of_dependents. }
    destruct (decide (x = d)) as [->|Hne].
    + rewrite lookup_delete_eq, decide_False by set_solver. done.
    + rewrite lookup_delete_ne, Hm by done.
      assert (Hiff : x ∈ ids tasks ∧ x ∉ P ↔ x ∈ ids tasks ∧ x ∉ P ∪ {[d]}) by set_solver.
      rewrite (decide_ext _ _ _ _ Hiff). case_decide; [|done]. rewrite Ho, Hc, Nat.add_0_r. done.
Qed.

Lemma current_level_elem tasks P m x :
  degrees_ok tasks P m →
  x ∈ current_level m ↔ x ∈ ids tasks ∧ x ∉ P ∧ ∀ d, (d, x) ∈ edges tasks → d ∈ P.
Proof.
  intros Hm. unfold current_level. rewrite elem_of_stable_sort, list_elem_of_fmap.
  setoid_rewrite list_elem_of_In. setoid_rewrite filter_In. setoid_rewrite <-list_elem_of_In.
  assert (Hz : ∀ z, m !! x = Some z ↔ x ∈ ids tasks ∧ x ∉ P ∧ z = Z.of_nat (open_edges P x (edges tasks))).
  { intros z. rewrite Hm. case_decide; [naive_solver|]. split; [done|]. tauto. }
  split.
  - intros ([y z] & -> & Hin & Hz0). apply elem_of_map_to_list, Hz in Hin as (? & ? & Hz1).
    apply Z.eqb_eq in Hz0. cbn [snd fst] in *. split_and!; [done..|]. intros d Hd.
    destruct (decide (d ∈ P)) as [|HdP]; [done|].
    assert (0 < open_edges P y (edges tasks))%nat by (apply open_edges_pos; eauto). lia.
  - intros (H1 & H2 & H3). exists (x, 0). simpl. split_and!; [done| |done].
    apply elem_of_map_to_list, Hz. split_and!; [done..|].
    destruct (open_edges P x (edges tasks)) eqn:E; [done|].
    assert (0 < open_edges P x (edges tasks))%nat as (d & Hd & Hn)%open_edges_pos by lia.
    by destruct Hn; apply H3.
Qed.

Lemma current_level_nodup m : NoDup (current_level m).
Proof.
  unfold current_level. rewrite stable_sort_perm.
  assert (H : NoDup (map_to_list m).*1) by apply NoDup_fst_map_to_list.
  revert H. induction (map_to_list m) as [|[k z] l IH]; simpl; [constructor|].
  rewrite list.NoDup_cons. intros [Hk Hl]. destruct (z =? 0); simpl; [|by apply IH].
  constructor; [|by apply IH]. rewrite list_elem_of_fmap. intros ([k' z'] & -> & Hin).
  apply Hk. apply list_elem_of_fmap. exists (k', z'). split; [done|].
  apply list_elem_of_In. apply list_elem_of_In, filter_In in Hin. tauto.
Qed.

(** A level is removed id by id; none of its ids depends on another. *)
Lemma remove_level_ok tasks a l P m :
  degrees_ok tasks P m → adjacency_ok tasks a → NoDup l → (∀ x, x ∈ l → x ∉ P) →
  (∀ d x, d ∈ l → (d, x) ∈ edges tasks → x ∉ P ∧ x ∉ l) →
  degrees_ok tasks (P ∪ list_to_set l) (fold_left (remove_id a) l m).
Proof.
  revert P m. induction l as [|d l IH]; intros P m Hm Ha Hnd HP Hdep; simpl.
  { by rewrite union_empty_r_L. }
  apply list.NoDup_cons in Hnd as [Hdl Hnd].
  rewrite union_assoc_L. apply IH; [|done|done| |].
  - apply remove_id_ok; [done|done|apply HP; left|]. intros x Hx.
    destruct (Hdep d x) as [H1 H2]; [left|done|]. split; [done|]. intros ->. apply H2. left.
  - intros x Hx. specialize (HP x). rewrite elem_of_cons in HP. set_solver.
  - intros e x He Hx. destruct (Hdep e x) as [H1 H2]; [by right|done|].
    rewrite elem_of_cons in H2. split; [|tauto]. set_solver.
Qed.

Lemma split_level_concat fuel size l :
  (0 < size)%nat → (length l ≤ fuel)%nat → concat (split_level fuel size l) = l.
Proof.
  intros Hs. revert l. induction fuel as [|fuel IH]; intros l Hl; (destruct l as [|x l]; [done|]).
  { simpl in Hl. lia. }
  cbn [split_level concat]. rewrite IH; [apply take_drop|].
  rewrite length_drop. simpl in *. lia.
Qed.

Lemma ordered_app {A} (less : A → A → bool) l1 l2 :
  ordered less (l1 ++ l2) → ordered less l1 ∧ ordered less l2.
Proof.
  unfold ordered. induction l1 as [|x l1 IH]; simpl; [intros H; split; [constructor|done]|].
  intros H. inversion H as [|? ? H1 H2]; subst. destruct (IH H1) as [H3 H4]. split; [|done].
  constructor; [done|]. rewrite Forall_app in H2. tauto.
Qed.

(** A wave: not empty, within the configured size, in the order of the ids. *)
Definition wave_ok (size : nat) (w : list string) : Prop :=
  w ≠ [] ∧ (length w ≤ size)%nat ∧ ordered (less_str id) w.

Lemma split_level_ok fuel size l :
  (0 < size)%nat → ordered (less_str id) l → Forall (wave_ok size) (split_level fuel size l).
Proof.
  intros Hs. revert l. induction fuel as [|fuel IH]; intros l Hl; [constructor|].
  destruct l as [|x l]; [constructor|]. cbn [split_level].
  rewrite <-(take_drop size (x :: l)) in Hl. apply ordered_app in Hl as [H1 H2].
  constructor; [|by apply IH]. split_and!; [|rewrite length_take; lia|done].
  destruct size; [lia|done].
Qed.

(** What the rounds produce from the state in which [P] has been processed. *)
Record waves_ok (tasks : list TeamTask) (size : nat) (P : gset string) (waves : list (list string)) : Prop := {
  waves_nodup : NoDup (concat waves);
  waves_complete x : x ∈ concat waves ↔ x ∈ ids tasks ∧ x ∉ P;
  waves_shape : Forall (wave_ok size) waves;
  waves_order j w x d : waves !! j = Some w → x ∈ w → (d, x) ∈ edges tasks →
    d ∈ P ∨ ∃ i w', (i < j)%nat ∧ waves !! i = Some w' ∧ d ∈ w';
}.

(** Every task of a stuck set waits for a task of the set or for an unknown one. *)
Definition stuck (tasks : list TeamTask) (S : gset string) : Prop :=
  S ≠ ∅ ∧ S ⊆ ids tasks ∧ ∀ x, x ∈ S → ∃ d, (d, x) ∈ edges tasks ∧ (d ∈ S ∨ d ∉ ids tasks).

Lemma waves_ok_level tasks size P l waves :
  (0 < size)%nat → NoDup l → ordered (less_str id) l →
  (∀ x, x ∈ l ↔ x ∈ ids tasks ∧ x ∉ P ∧ ∀ d, (d, x) ∈ edges tasks → d ∈ P) →
  waves_ok tasks size (P ∪ list_to_set l) waves →
  waves_ok tasks size P (split_level (length l) size l ++ waves).
Proof.
  intros Hs Hnd Ho Hl [H1 H2 H3 H4].
  assert (Hc : concat (split_level (length l) size l) = l) by (by apply split_level_concat).
  split.
  - rewrite concat_app, Hc. apply list.NoDup_app. split_and!; [done| |done].
    intros x Hx. rewrite H2. set_solver.
  - intros x. rewrite concat_app, Hc, elem_of_app, H2, not_elem_of_union, elem_of_list_to_set.
    specialize (Hl x). destruct (decide (x ∈ l)); tauto.
  - apply Forall_app. split; [by apply split_level_ok|done].
  - intros j w x d Hj Hx He. apply lookup_app_Some in Hj as [Hj|[Hlen Hj]].
    + left. assert (x ∈ l) as (_ & _ & Hp)%Hl; [|by apply Hp].
      rewrite <-Hc. apply list_elem_of_In, in_concat. exists w.
      rewrite <-!list_elem_of_In. split; [by eapply list_elem_of_lookup_2|done].
    + destruct (H4 _ _ _ _ Hj Hx He) as [[Hd|Hd]%elem_of_union|(i & w' & Hi & Hw & Hd)]; [by left| |].
      * right. apply elem_of_list_to_set in Hd. rewrite <-Hc in Hd.
        apply list_elem_of_In, in_concat in Hd as (w' & Hw' & Hd).
        apply list_elem_of_In, list_elem_of_lookup in Hw' as (i & Hi).
        exists i, w'. pose proof (lookup_lt_Some _ _ _ Hi). split_and!; [lia| |by apply list_elem_of_In].
        by rewrite lookup_app_l.
      * right. exists (length (split_level (length l) size l) + i)%nat, w'. split_and!; [lia| |done].
        rewrite lookup_app_r by lia. by replace (_ + i - _)%nat with i by lia.
Qed.

Lemma levels_spec tasks sz a fuel P m :
  (0 < sz)%nat → adjacency_ok tasks a → degrees_ok tasks P m → (size m ≤ fuel)%nat →
  (∀ d x, x ∈ P → (d, x) ∈ edges tasks → d ∈ P) →
  ∃ r, levels fuel sz a m = Some r ∧
    match r with
    | Ok waves => waves_ok tasks sz P waves
    | Err _ => ∃ S, stuck tasks S
    end.
Proof.
  intros Hsz Ha. revert P m. induction fuel as [|fuel IH]; intros P m Hm Hf Hcl.
  all: cbn [levels]; case_bool_decide as He.
  1,3: eexists; split; [done|]; subst m; split;
    [constructor| |constructor|intros ? ? ? ? H; by rewrite lookup_nil in H];
    intros x; split; [intros H; by apply not_elem_of_nil in H|]; intros Hx; specialize (Hm x);
    rewrite decide_True in Hm by done; by rewrite lookup_empty in Hm.
  { destruct He. apply map_size_empty_iff. lia. }
  pose proof (λ x, current_level_elem tasks P m x Hm) as Hcur.
  destruct (current_level m) as [|c cs] eqn:Ec.
  - eexists. split; [done|]. exists (ids tasks ∖ P).
    assert (Hnone : ∀ x, x ∈ ids tasks → x ∉ P → ∃ d, (d, x) ∈ edges tasks ∧ d ∉ P).
    { intros x Hx HxP. pose proof (Hm x) as Hmx. rewrite decide_True in Hmx by done.
      apply open_edges_pos. destruct (open_edges P x (edges tasks)) eqn:Eo; [|lia].
      assert (x ∈ @nil string) as []%not_elem_of_nil. apply Hcur. split_and!; [done..|].
      intros d Hd. destruct (decide (d ∈ P)) as [|Hn]; [done|].
      assert (0 < open_edges P x (edges tasks))%nat by (apply open_edges_pos; eauto). lia. }
    split_and!; [|set_solver|].
    + intros Hemp. apply He, map_eq. intros x. rewrite Hm, decide_False, lookup_empty; [done|set_solver].
    + intros x [Hx HxP]%elem_of_difference. destruct (Hnone x Hx HxP) as (d & Hd & HdP).
      exists d. split; [done|]. destruct (decide (d ∈ ids tasks)); [left; set_solver|by right].
  - rewrite <-Ec in *. set (l := current_level m) in *.
    assert (Hnd : NoDup l) by apply current_level_nodup.
    assert (Hm' : degrees_ok tasks (P ∪ list_to_set l) (fold_left (remove_id a) l m)).
    { apply remove_level_ok; [done..| |].
      - intros x Hx. by apply Hcur in Hx as (_ & ? & _).
      - intros d x Hd Hx. apply Hcur in Hd as (_ & HdP & _). split.
        + intros HxP. apply HdP. by apply (Hcl d x).
        + intros (_ & _ & Hall)%Hcur. by apply HdP, Hall. }
    destruct (IH (P ∪ list_to_set l) _ Hm') as (r & -> & Hr).
    + rewrite <-!size_dom in *.
      assert (size (dom (fold_left (remove_id a) l m)) < size (dom m))%nat; [|lia].
      assert (Hdom : ∀ Q q, degrees_ok tasks Q q → ∀ x, x ∈ dom q ↔ x ∈ ids tasks ∧ x ∉ Q).
      { intros Q q Hq x. rewrite elem_of_dom, Hq. case_decide; [split; [done|by eexists]|].
        split; [by intros [? ?]|done]. }
      assert (Hc : c ∈ l) by (rewrite Ec; left).
      apply subset_size. pose proof (Hdom _ _ Hm) as D1. pose proof (Hdom _ _ Hm') as D2.
      apply Hcur in Hc as Hc'. set_solver.
    + intros d x [Hx|Hx]%elem_of_union Hd; apply elem_of_union_l; [by apply (Hcl d x)|].
      apply elem_of_list_to_set, Hcur in Hx as (_ & _ & Hall). by apply Hall.
    + destruct l as [|c' cs'] eqn:El; [done|]. rewrite <-El in *.
      eexists. split; [done|]. destruct r as [waves|]; [|done]. simpl.
      apply waves_ok_level; [done|done|apply stable_sort_ordered; apply _|done|done].
Qed.

(** [x] depends on [d]. *)
Definition waits_for (tasks : list TeamTask) (x d : string) : Prop :=
  ∃ t, t ∈ tasks ∧ TtID t = x ∧ d ∈ TtDependsOn t.

Definition dependencies_known (tasks : list TeamTask) : Prop :=
  ∀ t d, t ∈ tasks → d ∈ TtDependsOn t → d ∈ map TtID tasks.

Lemma elem_of_ids tasks x : x ∈ ids tasks ↔ x ∈ map TtID tasks.
Proof. apply elem_of_list_to_set. Qed.

(** A finite set in which everything has a successor contains a cycle: following
    successors, a path without repetition would outgrow the set. *)
Lemma path_cycle (R : string → string → Prop) (S : gset string) :
  (∀ x, x ∈ S → ∃ y, y ∈ S ∧ R x y) →
  ∀ n x l, NoDup (x :: l) → (∀ y, y ∈ x :: l → y ∈ S) → (∀ y, y ∈ l → tc R y x) →
    (size S < n + length (x :: l))%nat → ∃ z, tc R z z.
Proof.
  intros Hsucc n. induction n as [|n IH]; intros x l Hnd Hin Htc Hlen.
  { assert (size (list_to_set (x :: l) : gset string) ≤ size S)%nat.
    { apply subseteq_size. intros y Hy%elem_of_list_to_set. by apply Hin. }
    rewrite size_list_to_set in * by done. lia. }
  destruct (Hsucc x) as (y & Hy & Hxy); [apply Hin; left|].
  destruct (decide (y ∈ x :: l)) as [Hyl|Hyl].
  - apply elem_of_cons in Hyl as [->|Hyl]; [exists x; by apply tc_once|].
    exists y. eapply tc_r; [by apply Htc|done].
  - apply (IH y (x :: l)).
    + by constructor.
    + intros z [->|Hz]%elem_of_cons; [done|by apply Hin].
    + intros z [->|Hz]%elem_of_cons; [by apply tc_once|]. eapply tc_r; [by apply Htc|done].
    + simpl in *. lia.
Qed.

Lemma finite_cycle (R : string → string → Prop) (S : gset string) :
  S ≠ ∅ → (∀ x, x ∈ S → ∃ y, y ∈ S ∧ R x y) → ∃ z, tc R z z.
Proof.
  intros [x Hx]%set_choose_L Hsucc.
  apply (path_cycle R S Hsucc (size S) x []).
  - apply NoDup_singleton.
  - by intros y ->%list_elem_of_singleton.
  - intros y Hy. by apply not_elem_of_nil in Hy.
  - simpl. lia.
Qed.

Lemma wave_size_pos size : (0 < Z.to_nat (wave_size size))%nat.
Proof. unfold wave_size. destruct (Z.leb_spec size 0); lia. Qed.

(** In a list of lists without repetition an element has one position. *)
Lemma concat_unique {A} (ls : list (list A)) i j l l' x :
  NoDup (concat ls) → ls !! i = Some l → ls !! j = Some l' → x ∈ l → x ∈ l' → i = j.
Proof.
  revert i j. induction ls as [|k ls IH]; intros i j Hnd Hi Hj Hx Hx'; [done|].
  simpl in Hnd. apply list.NoDup_app in Hnd as (_ & Hd & Hnd).
  assert (Hin : ∀ n m, ls !! n = Some m → x ∈ m → x ∈ concat ls).
  { intros n m Hn Hm. apply list_elem_of_In, in_concat. exists m.
    rewrite <-!list_elem_of_In. split; [by eapply list_elem_of_lookup_2|done]. }
  destruct i as [|i], j as [|j]; simpl in *; simplify_eq; [done| | |f_equal; by eapply IH].
  - by destruct (Hd x Hx); eapply Hin.
  - by destruct (Hd x Hx'); eapply Hin.
Qed.

Lemma wave_of_task tasks n waves t :
  waves_ok tasks n ∅ waves → t ∈ tasks → ∃ j w, waves !! j = Some w ∧ TtID t ∈ w.
Proof.
  intros Hw Ht.
  assert (Hx : TtID t ∈ concat waves).
  { apply (waves_complete _ _ _ _ Hw). split; [|set_solver]. apply elem_of_ids.
    by apply list_elem_of_fmap_2. }
  apply list_elem_of_In, in_concat in Hx as (w & Hj & Hx).
  apply list_elem_of_In in Hx. apply list_elem_of_In, list_elem_of_lookup in Hj as (j & Hj).
  by exists j, w.
Qed.

(** A dependency is in a strictly earlier wave. *)
Lemma dependency_earlier tasks n waves x d :
  waves_ok tasks n ∅ waves → waits_for tasks x d →
  ∃ i j wi wj, (i < j)%nat ∧ waves !! i = Some wi ∧ d ∈ wi ∧ waves !! j = Some wj ∧ x ∈ wj.
Proof.
  intros Hw (t & Ht & <- & Hd). destruct (wave_of_task _ _ _ _ Hw Ht) as (j & wj & Hj & Hx).
  assert (He : (d, TtID t) ∈ edges tasks) by (apply elem_of_edges; eauto).
  destruct (waves_order _ _ _ _ Hw j wj (TtID t) d Hj Hx He)
    as [[]%not_elem_of_empty|(i & wi & ? & ? & ?)].
  by exists i, j, wi, wj.
Qed.

Lemma chain_earlier tasks n waves x d :
  waves_ok tasks n ∅ waves → tc (waits_for tasks) x d →
  ∃ i j wi wj, (i < j)%nat ∧ waves !! i = Some wi ∧ d ∈ wi ∧ waves !! j = Some wj ∧ x ∈ wj.
Proof.
  intros Hw. induction 1 as [x d He|x y d He _ IH]; [by apply (dependency_earlier tasks n)|].
  destruct IH as (i & j & wi & wj & Hij & Hi & Hd & Hj & Hy).
  destruct (dependency_earlier _ _ _ _ _ Hw He) as (j' & k & wj' & wk & ? & Hj' & Hy' & Hk & Hx).
  assert (j' = j) as -> by (by apply (concat_unique waves j' j wj' wj y (waves_nodup _ _ _ _ Hw))).
  exists i, k, wi, wk. split_and!; [lia|done..].
Qed.

Lemma ComputeWaves_result size tasks :
  ∃ r, ComputeWaves size tasks = Some r ∧
    match r with
    | Ok waves => waves_ok tasks (Z.to_nat (wave_size size)) ∅ waves
    | Err _ => ∃ S, stuck tasks S
    end.
Proof.
  unfold ComputeWaves. destruct (build_graph_ok tasks) as [Hd Ha].
  destruct (build_graph tasks) as [m a]. simpl in *.
  apply (levels_spec tasks _ a _ ∅ m); [apply wave_size_pos|done|done|done|set_solver].
Qed.

Lemma ComputeWaves_spec size tasks :
  ∃ r, ComputeWaves size tasks = Some r ∧
    ((∃ waves, r = Ok waves) ↔
       dependencies_known tasks ∧ ¬ ∃ x, tc (waits_for tasks) x x) ∧
    (∀ waves, r = Ok waves →
       NoDup (concat waves) ∧ (∀ x, x ∈ concat waves ↔ x ∈ map TtID tasks) ∧
       Forall (wave_ok (Z.to_nat (wave_size size))) waves ∧
       (∀ t d, t ∈ tasks → d ∈ TtDependsOn t →
          ∃ i j wi wj, (i < j)%nat ∧ waves !! i = Some wi ∧ d ∈ wi ∧
                       waves !! j = Some wj ∧ TtID t ∈ wj)).
Proof.
  destruct (ComputeWaves_result size tasks) as (r & Hr & Hs). exists r. split; [done|].
  destruct r as [waves|u].
  - assert (He : ∀ x, x ∈ concat waves ↔ x ∈ map TtID tasks).
    { intros x. rewrite (waves_complete _ _ _ _ Hs), elem_of_ids. set_solver. }
    assert (Hdep : ∀ t d, t ∈ tasks → d ∈ TtDependsOn t →
       ∃ i j wi wj, (i < j)%nat ∧ waves !! i = Some wi ∧ d ∈ wi ∧ waves !! j = Some wj ∧ TtID t ∈ wj).
    { intros t d Ht Hd. apply (dependency_earlier _ _ _ _ _ Hs). by exists t. }
    split.
    + split; [intros _|by exists waves]. split.
      * intros t d Ht Hd. destruct (Hdep t d Ht Hd) as (i & _ & wi & _ & _ & Hi & Hdi & _).
        apply He, list_elem_of_In, in_concat. exists wi. rewrite <-!list_elem_of_In.
        split; [by eapply list_elem_of_lookup_2|done].
      * intros (x & Hx). destruct (chain_earlier _ _ _ _ _ Hs Hx) as (i & j & wi & wj & Hij & Hi & H1 & Hj & H2).
        assert (i = j) by (by apply (concat_unique waves i j wi wj x (waves_nodup _ _ _ _ Hs))). lia.
    + intros waves' [= <-]. split_and!; [apply Hs|done|apply Hs|done].
  - split; [|done]. split; [by intros [? [=]]|]. intros [Hk Hc]. destruct Hs as (S & Hne & Hsub & Hst).
    destruct Hc. apply (finite_cycle _ S Hne). intros x Hx. destruct (Hst x Hx) as (d & He & Hd).
    apply elem_of_edges in He as (t & Ht & <- & Hdt). exists d. split; [|by exists t].
    destruct Hd as [Hd|Hd]; [done|]. destruct Hd. apply elem_of_ids. by apply (Hk t).
Qed.

(** The waves of a team. The computation terminates; it succeeds exactly when
    every dependency is a known task and none depends on itself through others.
    The waves then hold every task id exactly once, each wave is non-empty, sorted
    and of at most the configured size, and every task comes in a strictly later
    wave than each of its dependencies. *)
Theorem ComputeWaves_correct size tasks :
  ∃ r, ComputeWaves size tasks = Some r ∧
    ((∃ waves, r = Ok waves) ↔
       dependencies_known tasks ∧ ¬ ∃ x, tc (waits_for tasks) x x) ∧
    (∀ waves, r = Ok waves →
       NoDup (concat waves) ∧ (∀ x, x ∈ concat waves ↔ x ∈ map TtID tasks) ∧
       Forall (wave_ok (Z.to_nat (wave_size size))) waves ∧
       (∀ t d, t ∈ tasks → d ∈ TtDependsOn t →
          ∃ i j wi wj, (i < j)%nat ∧ waves !! i = Some wi ∧ d ∈ wi ∧
                       waves !! j = Some wj ∧ TtID t ∈ wj)).
Proof. apply ComputeWaves_spec. Qed.

(** ** Batches *)

Definition teamTaskResources (task : TeamTask) : AgentTaskResources :=
  let r := TtResources task in
  {| RsModelSlots := if RsModelSlots r <=? 0 then 1 else RsModelSlots r;
     RsToolSlots := RsToolSlots r;
     RsWebFetchSlots := RsWebFetchSlots r;
     RsTestSlots := if (RsTestSlots r <=? 0) && String.eqb (TtKind task) TaskKindVerify
                    then 1 else RsTestSlots r |}.

Definition resourceSlotFits (limit used need : Z) : bool :=
  if limit <=? 0 then true else wrap64 (used + need) <=? limit.

Definition resourcesFit (capacity : CapacityConfig) (used need : AgentTaskResources) : bool :=
  resourceSlotFits (ModelSlots capacity) (RsModelSlots used) (RsModelSlots need) &&
  resourceSlotFits (ToolSlots capacity) (RsToolSlots used) (RsToolSlots need) &&
  resourceSlotFits (WebFetchSlots capacity) (RsWebFetchSlots used) (RsWebFetchSlots need) &&
  resourceSlotFits (TestSlots capacity) (RsTestSlots used) (RsTestSlots need).

Definition teamTasksConflict (a b : TeamTask) : bool :=
  if TtReadOnly a || TtReadOnly b then false
  else if nil_ (TtFiles a) || nil_ (TtFiles b) then true
  else scopes_overlap (TtFiles a) (TtFiles b).

Definition conflictsWithSelectedTeamTask (task : TeamTask) (selected : list TeamTask) : bool :=
  existsb (teamTasksConflict task) selected.

Definition add_resources (used need : AgentTaskResources) : AgentTaskResources :=
  {| RsModelSlots := wrap64 (RsModelSlots used + RsModelSlots need);
     RsToolSlots := wrap64 (RsToolSlots used + RsToolSlots need);
     RsWebFetchSlots := wrap64 (RsWebFetchSlots used + RsWebFetchSlots need);
     RsTestSlots := wrap64 (RsTestSlots used + RsTestSlots need) |}.

(** A pointer to a task is its index. *)
Abbreviation ptr := nat (only parsing).
Definition zero_task : TeamTask :=
  {| TtID := ""; TtName := ""; TtDescription := ""; TtKind := ""; TtRole := ""; TtProvider := "";
     TtModel := ""; TtReadOnly := false;
     TtResources := {| RsModelSlots := 0; RsToolSlots := 0; RsWebFetchSlots := 0; RsTestSlots := 0 |};
     TtFiles := []; TtDependsOn := []; TtCreatedAt := 0 |}.
Definition deref (tasks : list TeamTask) (p : ptr) : TeamTask := default zero_task (tasks !! p).

Fixpoint select_batch (capacity : CapacityConfig) (tasks : list TeamTask)
    (candidates selected : list ptr) (used : AgentTaskResources) : list ptr :=
  match candidates with
  | [] => selected
  | p :: candidates' =>
      if (0 <? MaxParallelTasks capacity) &&
         (MaxParallelTasks capacity <=? Z.of_nat (length selected)) then selected
      else
        let task := deref tasks p in
        let need := teamTaskResources task in
        if negb (resourcesFit capacity used need) then
          select_batch capacity tasks candidates' selected used
        else if FileScopeLock capacity &&
                conflictsWithSelectedTeamTask task (map (deref tasks) selected) then
          select_batch capacity tasks candidates' selected used
        else select_batch capacity tasks candidates' (selected ++ [p]) (add_resources used need)
  end.

Definition zero_resources : AgentTaskResources :=
  {| RsModelSlots := 0; RsToolSlots := 0; RsWebFetchSlots := 0; RsTestSlots := 0 |}.

Definition selectWaveBatch (capacity : CapacityConfig) (tasks : list TeamTask) (pending : list ptr)
    : list ptr :=
  let candidates := stable_sort (less_str (λ p, TtID (deref tasks p))) pending in
  let capacity := if MaxParallelTasks capacity <=? 0
                  then CapacityConfig_Normalized false capacity else capacity in
  select_batch capacity tasks candidates [] zero_resources.

(** ** File ownership *)

Definition matchesOwnership (filePath pattern : string) : bool :=
  if has_suffix pattern "/**" || has_suffix pattern "/*"
  then has_prefix filePath (trim_right_set pattern "/*")
  else String.eqb filePath pattern.

Record Assignment := { AssignedTo : string; Status : string }.

(** The first other running task that owns the path, if any. *)
Fixpoint CheckFileOwnership (workerID filePath : string) (tasks : list (TeamTask * Assignment))
    : option TeamTask :=
  match tasks with
  | [] => None
  | (task, a) :: tasks' =>
      if String.eqb (AssignedTo a) workerID || negb (String.eqb (Status a) AgentTaskRunning)
      then CheckFileOwnership workerID filePath tasks'
      else if existsb (matchesOwnership filePath) (TtFiles task) then Some task
      else CheckFileOwnership workerID filePath tasks'
  end.

(** ** A worker's outcome *)

Record DurableRunTerminalMetadata := {
  TerminalState : string;
  CompletionStatus : string;
  CompletionBlocked : Z;
}.

Definition BlocksSuccess (m : DurableRunTerminalMetadata) : bool :=
  String.eqb (TerminalState m) "blocked" || String.eqb (CompletionStatus m) "incomplete" ||
  String.eqb (CompletionStatus m) "blocked" || (0 <? CompletionBlocked m).

(** An event of the worker's run; [EvTerminal] is what
    [DecodeDurableRunTerminalMetadata] makes of its data. *)
Record WorkerEvent := { EvType : string; EvTerminal : option DurableRunTerminalMetadata }.

(** Why a run failed; the texts are not modelled. *)
Inductive WorkerFailure :=
| FailTerminal (m : DurableRunTerminalMetadata)
| FailEvent (type : string)
| FailContext
| FailNoTerminal.

Record teamRunTerminalReducer := { terminalSeen : bool; failure : option WorkerFailure }.

(** The first failure is kept. *)
Definition fail_ (f : WorkerFailure) (r : teamRunTerminalReducer) : teamRunTerminalReducer :=
  match failure r with
  | Some _ => r
  | None => {| terminalSeen := terminalSeen r; failure := Some f |}
  end.

Definition failing_events : list string :=
  ["error"; "context_blocked"; "blocked"; "incomplete"; "canceled"; "cancelled";
   "context_canceled"; "context_cancelled"; "deadline"; "deadline_exceeded"].

(** [contextErr] tells that the context has ended. *)
Definition Observe (ev : WorkerEvent) (contextErr : bool) (r : teamRunTerminalReducer)
    : teamRunTerminalReducer :=
  if terminalSeen r then r
  else if String.eqb (EvType ev) "done" then
    let r := {| terminalSeen := true; failure := failure r |} in
    match EvTerminal ev with
    | Some m => if BlocksSuccess m then fail_ (FailTerminal m) r else r
    | None => r
    end
  else
    let r := if existsb (String.eqb (EvType ev)) failing_events
             then fail_ (FailEvent (EvType ev)) r else r in
    if contextErr then fail_ FailContext r else r.

Definition Result (contextErr : bool) (r : teamRunTerminalReducer)
    : bool * option WorkerFailure :=
  if terminalSeen r then (match failure r with None => true | Some _ => false end, failure r)
  else
    let r := if contextErr then fail_ FailContext r else r in
    (false, Some (default FailNoTerminal (failure r))).

(** The worker's loop over its event channel: success, as [executeTask] uses it. *)
Definition worker_succeeds (events : list (WorkerEvent * bool)) (contextErr : bool) : bool :=
  (Result contextErr (fold_left (λ r e, Observe e.1 e.2 r) events
                        {| terminalSeen := false; failure := None |})).1.

(** ** Verification *)

Inductive Verification :=
| NoCommand
| VerificationPassed (attempt : nat)
| VerificationCancelled
| VerificationFailed (final_run_failed : bool).

(** [cancelled k] and [wait_cancelled k] tell that the context has ended before
    attempt [k] and in the wait after it; [run k] is [IsError] of the [k]-th run of
    the command, the fourth being the run that only reports. *)
Fixpoint verify_attempts (left_ attempt : nat) (cancelled wait_cancelled run : nat → bool)
    : Verification :=
  match left_ with
  | O => VerificationFailed (run attempt)
  | S left' =>
      if cancelled attempt then VerificationCancelled
      else if negb (run attempt) then VerificationPassed attempt
      else if (0 <? left')%nat && wait_cancelled attempt then VerificationCancelled
      else verify_attempts left' (S attempt) cancelled wait_cancelled run
  end.

Definition Verify (command : string) (cancelled wait_cancelled run : nat → bool)
    : bool * Verification :=
  let r := if String.eqb command "" then NoCommand
           else verify_attempts 3 1 cancelled wait_cancelled run in
  (match r with NoCommand | VerificationPassed _ => true | _ => false end, r).

(** ** What a batch is *)

Definition small (z : Z) : Prop := 0 ≤ z ≤ 2 ^ 61.

Definition limits : list ((CapacityConfig → Z) * (AgentTaskResources → Z)) :=
  [(ModelSlots, RsModelSlots); (ToolSlots, RsToolSlots);
   (WebFetchSlots, RsWebFetchSlots); (TestSlots, RsTestSlots)].

Definition capacity_small (c : CapacityConfig) : Prop :=
  ∀ lr, lr ∈ limits → 0 < lr.1 c ∧ small (lr.1 c).
Definition needs_small (r : AgentTaskResources) : Prop := ∀ lr, lr ∈ limits → small (lr.2 r).

(** The sum of a resource over the tasks of a batch. *)
Definition total (f : AgentTaskResources → Z) (tasks : list TeamTask) (sel : list ptr) : Z :=
  foldr (λ p n, f (teamTaskResources (deref tasks p)) + n) 0 sel.

Lemma total_app f tasks l1 l2 : total f tasks (l1 ++ l2) = total f tasks l1 + total f tasks l2.
Proof. induction l1; simpl; lia. Qed.

Lemma resourceSlotFits_spec limit used need :
  0 < limit → small limit → 0 ≤ used ≤ limit → small need →
  (resourceSlotFits limit used need = true ↔ used + need ≤ limit) ∧
  wrap64 (used + need) = used + need.
Proof.
  unfold small, resourceSlotFits. intros H1 H2 H3 H4.
  assert (Hw : wrap64 (used + need) = used + need)
    by (apply wrap64_id; unfold min_int64, max_int64; lia).
  split; [|done]. destruct (Z.leb_spec limit 0); [lia|]. rewrite Hw. apply Z.leb_le.
Qed.

Lemma resourcesFit_spec c used need :
  capacity_small c → needs_small need → (∀ lr, lr ∈ limits → 0 ≤ lr.2 used ≤ lr.1 c) →
  (resourcesFit c used need = true ↔ ∀ lr, lr ∈ limits → lr.2 used + lr.2 need ≤ lr.1 c) ∧
  (∀ lr, lr ∈ limits → lr.2 (add_resources used need) = lr.2 used + lr.2 need).
Proof.
  intros Hc Hn Hu.
  assert (H : ∀ lr, lr ∈ limits → _) by (intros lr Hlr; destruct (Hc lr Hlr);
    exact (resourceSlotFits_spec _ _ _ ltac:(eassumption) ltac:(eassumption) (Hu lr Hlr) (Hn lr Hlr))).
  unfold resourcesFit, limits in *. rewrite !andb_true_iff.
  destruct (H (ModelSlots, RsModelSlots)) as [F1 W1]; [set_solver|].
  destruct (H (ToolSlots, RsToolSlots)) as [F2 W2]; [set_solver|].
  destruct (H (WebFetchSlots, RsWebFetchSlots)) as [F3 W3]; [set_solver|].
  destruct (H (TestSlots, RsTestSlots)) as [F4 W4]; [set_solver|].
  cbn [fst snd] in *. rewrite F1, F2, F3, F4. repeat setoid_rewrite elem_of_cons.
  split.
  - split; [|intros Ha; split_and!; (apply Ha || idtac)].
    + intros (((? & ?) & ?) & ?) lr [->|[->|[->|[->|[]%not_elem_of_nil]]]]; done.
    + apply (Ha (ModelSlots, RsModelSlots)); auto.
    + apply (Ha (ToolSlots, RsToolSlots)); auto.
    + apply (Ha (WebFetchSlots, RsWebFetchSlots)); auto.
    + apply (Ha (TestSlots, RsTestSlots)); auto.
  - intros lr [->|[->|[->|[->|[]%not_elem_of_nil]]]]; done.
Qed.

Definition fits_alone (c : CapacityConfig) (task : TeamTask) : Prop :=
  ∀ lr, lr ∈ limits → lr.2 (teamTaskResources task) ≤ lr.1 c.

Lemma select_batch_spec c tasks cands sel used :
  capacity_small c → 0 < MaxParallelTasks c →
  (∀ p, p ∈ cands → needs_small (teamTaskResources (deref tasks p))) →
  Z.of_nat (length sel) ≤ MaxParallelTasks c →
  (∀ lr, lr ∈ limits → lr.2 used = total lr.2 tasks sel ∧ 0 ≤ lr.2 used ≤ lr.1 c) →
  ∃ picked, select_batch c tasks cands sel used = sel ++ picked ∧ picked `sublist_of` cands ∧
    Z.of_nat (length (sel ++ picked)) ≤ MaxParallelTasks c ∧
    (∀ lr, lr ∈ limits → total lr.2 tasks (sel ++ picked) ≤ lr.1 c) ∧
    (FileScopeLock c = true → ∀ l1 p l2, picked = l1 ++ p :: l2 →
       ∀ q, q ∈ sel ++ l1 → teamTasksConflict (deref tasks p) (deref tasks q) = false) ∧
    (sel = [] → picked = [] → ∀ p, p ∈ cands → ¬ fits_alone c (deref tasks p)).
Proof.
  intros Hc Hm. revert sel used. induction cands as [|p cands IH]; intros sel used Hn Hl Hu; cbn [select_batch].
  { exists []. rewrite app_nil_r. split_and!; [done|done|done| | |].
    - intros lr Hlr. destruct (Hu lr Hlr) as [<- ?]. lia.
    - intros _ [|? l1]; done.
    - intros _ _ p Hp. by apply not_elem_of_nil in Hp. }
  rewrite (proj2 (Z.ltb_lt _ _) Hm). cbn [andb].
  destruct (Z.leb_spec (MaxParallelTasks c) (Z.of_nat (length sel))) as [Hfull|Hfull].
  { exists []. rewrite app_nil_r. split_and!; [done|apply sublist_nil_l|done| | |].
    - intros lr Hlr. destruct (Hu lr Hlr) as [<- ?]. lia.
    - intros _ [|? l1]; done.
    - intros ->. simpl in Hfull. lia. }
  assert (Hn' : ∀ q, q ∈ cands → needs_small (teamTaskResources (deref tasks q))) by (intros; apply Hn; by right).
  destruct (resourcesFit_spec c used (teamTaskResources (deref tasks p)) Hc) as [Hfit Hadd];
    [apply Hn; left|intros lr Hlr; apply (Hu lr Hlr)|].
  destruct (resourcesFit c used _) eqn:Hf; cbn [negb].
  2: { destruct (IH sel used Hn' Hl Hu) as (pk & -> & ? & ? & ? & ? & He).
    exists pk. split_and!; [done|by constructor|done|done|done|].
    intros -> -> q [->|Hq]%elem_of_cons; [|by apply He]. intros Hal.
    enough (false = true) by done. apply Hfit. intros lr Hlr.
    destruct (Hu lr Hlr) as [-> _]. apply (Hal lr Hlr). }
  destruct (FileScopeLock c && _) eqn:Hlk.
  { destruct (IH sel used Hn' Hl Hu) as (pk & -> & ? & ? & ? & ? & He).
    exists pk. split_and!; [done|by constructor|done|done|done|].
    intros ->. apply andb_prop in Hlk as [_ Hlk]. done. }
  destruct (IH (sel ++ [p]) (add_resources used (teamTaskResources (deref tasks p))))
    as (pk & -> & Hsub & Hlen & Htot & Hcf & _).
  - done.
  - rewrite length_app. simpl. lia.
  - intros lr Hlr. rewrite (Hadd lr Hlr), total_app. destruct (Hu lr Hlr) as [Hue Hub].
    pose proof (proj1 Hfit eq_refl lr Hlr). pose proof (Hn p ltac:(left) lr Hlr) as [? _].
    simpl. split; [rewrite Hue; lia|lia].
  - rewrite <-app_assoc in *. exists (p :: pk). split_and!; [done|by constructor|done|done| |done].
    intros Hlock l1 q l2 Heq r Hr. destruct l1 as [|x l1]; simplify_eq/=.
    + rewrite app_nil_r in Hr. rewrite Hlock in Hlk. cbn in Hlk.
      unfold conflictsWithSelectedTeamTask in Hlk. rewrite existsb_none in Hlk.
      apply Hlk. by apply list_elem_of_fmap_2.
    + apply (Hcf Hlock l1 q l2 eq_refl). by rewrite <-app_assoc.
Qed.

Lemma batch_sorted_pending tasks pending p :
  p ∈ stable_sort (less_str (λ p, TtID (deref tasks p))) pending ↔ p ∈ pending.
Proof. by rewrite stable_sort_perm. Qed.

Lemma selectWaveBatch_spec c tasks pending :
  capacity_small c → 0 < MaxParallelTasks c →
  (∀ p, p ∈ pending → needs_small (teamTaskResources (deref tasks p))) → NoDup pending →
  let batch := selectWaveBatch c tasks pending in
  NoDup batch ∧ (∀ p, p ∈ batch → p ∈ pending) ∧
  Z.of_nat (length batch) ≤ MaxParallelTasks c ∧
  (∀ lr, lr ∈ limits → total lr.2 tasks batch ≤ lr.1 c) ∧
  (FileScopeLock c = true → ∀ l1 p l2 q, batch = l1 ++ p :: l2 → q ∈ l1 →
     teamTasksConflict (deref tasks p) (deref tasks q) = false) ∧
  (batch = [] ↔ ∀ p, p ∈ pending → ¬ fits_alone c (deref tasks p)).
Proof.
  intros Hc Hm Hn Hnd batch. subst batch. unfold selectWaveBatch.
  rewrite (proj2 (Z.leb_gt _ _) Hm).
  destruct (select_batch_spec c tasks (stable_sort (less_str (λ p, TtID (deref tasks p))) pending)
    [] zero_resources) as (pk & -> & Hsub & Hlen & Htot & Hcf & He); try done.
  { intros p Hp%batch_sorted_pending. by apply Hn. }
  { simpl. lia. }
  { intros lr Hlr. split; [|destruct (Hc lr Hlr)].
    - unfold limits in Hlr. repeat setoid_rewrite elem_of_cons in Hlr.
      destruct Hlr as [->|[->|[->|[->|[]%not_elem_of_nil]]]]; done.
    - unfold limits in Hlr. repeat setoid_rewrite elem_of_cons in Hlr.
      destruct Hlr as [->|[->|[->|[->|[]%not_elem_of_nil]]]]; simpl in *; lia. }
  cbn [app] in *.
  assert (Hin : ∀ p, p ∈ pk → p ∈ pending).
  { intros p Hp. apply (batch_sorted_pending tasks). by apply (elem_of_sublist _ _ _ Hp Hsub). }
  split_and!; [|done|done|done| |].
  - eapply sublist_NoDup; [|exact Hsub]. by rewrite stable_sort_perm.
  - intros Hl l1 p l2 q Heq Hq. by apply (Hcf Hl l1 p l2 Heq).
  - split.
    + intros -> p Hp. apply He; [done|done|]. by apply (batch_sorted_pending tasks).
    + intros Hall. destruct pk as [|p pk]; [done|]. destruct (Hall p); [apply Hin; left|].
      intros lr Hlr. specialize (Htot lr Hlr). simpl in Htot.
      assert (0 ≤ total lr.2 tasks pk); [|lia]. clear -Hn Hin Hlr.
      assert (Hin' : ∀ q, q ∈ pk → q ∈ pending) by (intros; apply Hin; by right).
      clear Hin. induction pk as [|q pk IH]; simpl; [lia|].
      pose proof (Hn q (Hin' q ltac:(left)) lr Hlr) as [? _].
      enough (0 ≤ total lr.2 tasks pk) by lia. apply IH. intros; apply Hin'; by right.
Qed.

(** A batch of a wave. Under a normalised capacity, the batch consists of
    distinct pending tasks, at most as many as may run in parallel, whose
    resources add up to no more than any slot limit, and under the file-scope lock
    no two of them conflict; it is empty exactly when no pending task fits the
    capacity even alone, which is the only case the wave gives up for capacity. *)
Theorem selectWaveBatch_fits c tasks pending :
  capacity_small c → 0 < MaxParallelTasks c →
  (∀ p, p ∈ pending → needs_small (teamTaskResources (deref tasks p))) → NoDup pending →
  let batch := selectWaveBatch c tasks pending in
  NoDup batch ∧ (∀ p, p ∈ batch → p ∈ pending) ∧
  Z.of_nat (length batch) ≤ MaxParallelTasks c ∧
  (∀ lr, lr ∈ limits → total lr.2 tasks batch ≤ lr.1 c) ∧
  (FileScopeLock c = true → ∀ l1 p l2 q, batch = l1 ++ p :: l2 → q ∈ l1 →
     teamTasksConflict (deref tasks p) (deref tasks q) = false) ∧
  (batch = [] ↔ ∀ p, p ∈ pending → ¬ fits_alone c (deref tasks p)).
Proof. apply selectWaveBatch_spec. Qed.

(** ** Ownership inside a batch *)

Lemma str_take_prefix n s : String.prefix (str_take n s) s = true.
Proof.
  revert n. induction s as [|c s IH]; intros [|n]; simpl; try done.
  destruct (ascii_dec c c); [apply IH|done].
Qed.

Lemma trim_suffix_prefix s p : String.prefix (trim_suffix s p) s = true.
Proof. unfold trim_suffix. case_match; [apply str_take_prefix|apply prefix_refl]. Qed.

Lemma trim_left_set_suffix s cs : ∃ p, s = p +:+ trim_left_set s cs.
Proof.
  induction s as [|c s [p IH]]; simpl; [by exists ""|].
  destruct (str_elem c cs); [|by exists ""].
  exists (String c p). rewrite IH at 1. done.
Qed.

Lemma trim_right_set_prefix s cs : String.prefix (trim_right_set s cs) s = true.
Proof.
  unfold trim_right_set. destruct (trim_left_set_suffix (String.rev s) cs) as [p Hp].
  apply prefix_spec. exists (String.rev p). rewrite <-(str_rev_involutive s) at 1.
  by rewrite Hp, str_rev_app at 1.
Qed.

Lemma ownershipPrefix_prefix p : String.prefix (ownershipPrefix p) p = true.
Proof.
  unfold ownershipPrefix.
  repeat (eapply prefix_trans; [first [apply trim_right_set_prefix|apply trim_suffix_prefix]|]).
  apply prefix_refl.
Qed.

Lemma prefix_comparable p q s :
  String.prefix p s = true → String.prefix q s = true →
  String.prefix p q = true ∨ String.prefix q p = true.
Proof.
  revert q s. induction p as [|c p IH]; intros q s Hp Hq; [left; by destruct q|].
  destruct q as [|d q]; [by right|]. destruct s as [|e s]; [done|]. simpl in *.
  destruct (ascii_dec c e) as [->|]; [|done]. destruct (ascii_dec d e) as [->|]; [|done].
  destruct (ascii_dec e e); [|done]. by apply (IH q s).
Qed.

(** A scope both tests read alike: no surrounding space and, for a "/*" or "/**"
    pattern, nothing but the wildcard to strip. *)
Definition plain_scope (p : string) : Prop :=
  trim_space p = p ∧
  (has_suffix p "/**" || has_suffix p "/*" = true → trim_right_set p "/*" = ownershipPrefix p).

Lemma owned_prefix path p :
  plain_scope p → matchesOwnership path p = true → String.prefix (ownershipPrefix p) path = true.
Proof.
  intros [_ Hp]. unfold matchesOwnership. destruct (_ || _).
  - by rewrite (Hp eq_refl).
  - intros ->%String.eqb_eq. apply ownershipPrefix_prefix.
Qed.

Lemma owned_twice_overlap path p q :
  plain_scope p → plain_scope q → matchesOwnership path p = true → matchesOwnership path q = true →
  ownershipPatternsOverlap p q = true.
Proof.
  intros Hp Hq Hpp Hpq. pose proof (owned_prefix _ _ Hp Hpp) as H1. pose proof (owned_prefix _ _ Hq Hpq) as H2.
  unfold ownershipPatternsOverlap. rewrite (proj1 Hp), (proj1 Hq).
  destruct (_ || _); [done|]. destruct (String.eqb p q); [done|].
  unfold has_prefix. apply orb_true_iff.
  destruct (prefix_comparable _ _ _ H1 H2); auto.
Qed.

Definition owns (task : TeamTask) (path : string) : bool :=
  existsb (matchesOwnership path) (TtFiles task).

Lemma CheckFileOwnership_spec w path ws :
  match CheckFileOwnership w path ws with
  | None => ∀ t a, (t, a) ∈ ws → AssignedTo a ≠ w → Status a = AgentTaskRunning → owns t path = false
  | Some t => ∃ a, (t, a) ∈ ws ∧ AssignedTo a ≠ w ∧ Status a = AgentTaskRunning ∧ owns t path = true
  end.
Proof.
  induction ws as [|[t a] ws IH]; simpl; [intros t a H; by apply not_elem_of_nil in H|].
  destruct (String.eqb_spec (AssignedTo a) w) as [Ha|Ha]; cbn [orb];
    [|destruct (String.eqb_spec (Status a) AgentTaskRunning) as [Hs|Hs]; cbn [negb];
      [destruct (existsb _ _) eqn:Ho|]].
  2: { exists a. split_and!; [left|done|done|done]. }
  all: destruct (CheckFileOwnership w path ws) as [t'|].
  1,3,5: destruct IH as (a' & ? & ? & ? & ?); exists a'; split_and!; [by right|done..].
  all: intros t' a' [[= -> ->]|Hin]%elem_of_cons ? ?; [done|by apply (IH t' a')].
Qed.

(** File ownership. A worker is refused a path exactly when another running
    task owns it; and while the tasks running beside it neither are read-only nor
    conflict with its own task, as in a batch under the file-scope lock, a worker is
    never refused a path of its own scope (scopes without stray spaces or repeated
    wildcards). *)
Theorem ownership_never_blocks_own_scope w path ws t :
  TtReadOnly t = false → Forall plain_scope (TtFiles t) → owns t path = true →
  (∀ t' a, (t', a) ∈ ws → AssignedTo a ≠ w → Status a = AgentTaskRunning →
     TtReadOnly t' = false ∧ Forall plain_scope (TtFiles t') ∧ teamTasksConflict t t' = false) →
  CheckFileOwnership w path ws = None ∧
  (∀ w' path', CheckFileOwnership w' path' ws = None ↔
     ∀ t' a, (t', a) ∈ ws → AssignedTo a ≠ w' → Status a = AgentTaskRunning → owns t' path' = false).
Proof.
  intros Hro Hpl Hown Hothers.
  assert (Hiff : ∀ w' path', CheckFileOwnership w' path' ws = None ↔
     ∀ t' a, (t', a) ∈ ws → AssignedTo a ≠ w' → Status a = AgentTaskRunning → owns t' path' = false).
  { intros w' path'. pose proof (CheckFileOwnership_spec w' path' ws) as Hs.
    destruct (CheckFileOwnership w' path' ws) as [t'|]; [|done]. split; [done|].
    destruct Hs as (a & Hin & Ha & Hst & Ho). intros Hall. by rewrite (Hall t' a) in Ho. }
  split; [|done]. apply Hiff. intros t' a Hin Ha Hst. apply not_true_iff_false. intros Ho.
  destruct (Hothers t' a Hin Ha Hst) as (Hro' & Hpl' & Hcf).
  unfold owns in Hown, Ho. apply existsb_elem in Hown as (p & Hp & Hpp).
  apply existsb_elem in Ho as (q & Hq & Hpq).
  unfold teamTasksConflict in Hcf. rewrite Hro, Hro' in Hcf. cbn [orb] in Hcf.
  destruct (nil_ (TtFiles t) || nil_ (TtFiles t')); [done|].
  unfold scopes_overlap in Hcf. rewrite existsb_none in Hcf. specialize (Hcf p Hp).
  rewrite existsb_none in Hcf. rewrite Forall_elem in Hpl, Hpl'.
  specialize (Hcf q Hq). by rewrite (owned_twice_overlap path p q) in Hcf; auto.
Qed.

(** ** Execution of the waves *)

Inductive RuntimeError := ErrProviderFactory | ErrNoProviderFactory | ErrNoProvider | ErrNoModel.

(** Providers are known by their names; [factory] is [config.ProviderFactory]. *)
Definition resolveTaskRuntime (provider : option string) (model : string)
    (factory : option (string → option string)) (task : TeamTask)
    : result RuntimeError (string * string) :=
  let providerName := trim_space (TtProvider task) in
  provider ← (if String.eqb providerName "" then Ok provider
              else if bool_decide (provider = Some providerName) then Ok provider
              else match factory with
                   | Some create =>
                       match create providerName with
                       | Some next => Ok (Some next)
                       | None => Err ErrProviderFactory
                       end
                   | None => Err ErrNoProviderFactory
                   end);
  match provider with
  | None => Err ErrNoProvider
  | Some provider =>
      let model := if String.eqb (trim_space (TtModel task)) "" then model
                   else trim_space (TtModel task) in
      if String.eqb (trim_space model) "" then Err ErrNoModel else Ok (provider, model)
  end.

Inductive ExecError :=
| BudgetExpired
| NoRunnableTasks
| TaskNotCompleted (p : ptr).

(** Where [ExecuteWaves] is: between waves; in the loop of [executeWave]; inside
    [runWaveBatch], with the workers not begun ([todo]) and running ([live]); or
    returned. *)
Inductive Phase :=
| NextWave (waves : list (list string))
| Batching (pending : list ptr) (waves : list (list string))
| Working (batch todo live pending : list ptr) (waves : list (list string))
| Finished (r : result ExecError unit).

Record TeamRun := { phase : Phase; statuses_of : list string }.

Definition getTask (tasks : list TeamTask) (id : string) : option ptr :=
  find_index (λ t, String.eqb (TtID t) id) tasks.

Definition wave_pending (tasks : list TeamTask) (ids : list string) : list ptr :=
  omap (getTask tasks) ids.

(** [nextPending]: the tasks whose ids are not those of the batch. *)
Definition remaining (tasks : list TeamTask) (batch pending : list ptr) : list ptr :=
  filter (λ p, TtID (deref tasks p) ∉ map (λ q, TtID (deref tasks q)) batch) pending.

Definition completed_all (s : list string) (batch : list ptr) : bool :=
  forallb (λ p, bool_decide (s !! p = Some AgentTaskCompleted)) batch.

(** The status [executeTask] leaves. *)
Definition outcome (runtime : result RuntimeError (string * string))
    (events : list (WorkerEvent * bool)) (contextErr : bool) : string :=
  match runtime with
  | Err _ => AgentTaskFailed
  | Ok _ => if worker_succeeds events contextErr then AgentTaskCompleted else AgentTaskFailed
  end.

Lemma select_batch_sublist c tasks cands sel used :
  ∃ picked, select_batch c tasks cands sel used = sel ++ picked ∧ picked `sublist_of` cands.
Proof.
  revert sel used. induction cands as [|p cands IH]; intros sel used; cbn [select_batch].
  { exists []. by rewrite app_nil_r. }
  case_match; [exists []; rewrite app_nil_r; split; [done|apply sublist_nil_l]|].
  case_match; [destruct (IH sel used) as (pk & -> & ?); exists pk; by split; [|constructor]|].
  case_match; [destruct (IH sel used) as (pk & -> & ?); exists pk; by split; [|constructor]|].
  edestruct IH as (pk & -> & ?). exists (p :: pk). rewrite <-app_assoc. split; [done|by constructor].
Qed.
Lemma selectWaveBatch_pending c tasks pending :
  (∀ p, p ∈ selectWaveBatch c tasks pending → p ∈ pending) ∧
  (NoDup pending → NoDup (selectWaveBatch c tasks pending)).
Proof.
  unfold selectWaveBatch.
  destruct (select_batch_sublist (if MaxParallelTasks c <=? 0 then CapacityConfig_Normalized false c else c)
    tasks (stable_sort (less_str (λ p, TtID (deref tasks p))) pending) [] zero_resources) as (pk & -> & Hsub).
  cbn [app]. split.
  - intros p Hp. pose proof (elem_of_sublist _ _ _ Hp Hsub) as H. by rewrite stable_sort_perm in H.
  - intros Hnd. eapply sublist_NoDup; [|exact Hsub]. by rewrite stable_sort_perm.
Qed.

Section execution.
Context (c : CapacityConfig) (tasks : list TeamTask).
Context (provider : option string) (model : string) (factory : option (string → option string)).

Inductive team_step : TeamRun → TeamRun → Prop :=
| step_wave ids waves s :
    team_step {| phase := NextWave (ids :: waves); statuses_of := s |}
              {| phase := Batching (wave_pending tasks ids) waves; statuses_of := s |}
| step_all_done s :
    team_step {| phase := NextWave []; statuses_of := s |}
              {| phase := Finished (Ok tt); statuses_of := s |}
| step_wave_done waves s :
    team_step {| phase := Batching [] waves; statuses_of := s |}
              {| phase := NextWave waves; statuses_of := s |}
| step_budget pending waves s :
    pending ≠ [] →
    team_step {| phase := Batching pending waves; statuses_of := s |}
              {| phase := Finished (Err BudgetExpired); statuses_of := s |}
| step_no_batch pending waves s :
    pending ≠ [] → selectWaveBatch c tasks pending = [] →
    team_step {| phase := Batching pending waves; statuses_of := s |}
              {| phase := Finished (Err NoRunnableTasks); statuses_of := s |}
| step_batch pending waves s batch :
    pending ≠ [] → selectWaveBatch c tasks pending = batch → batch ≠ [] →
    team_step {| phase := Batching pending waves; statuses_of := s |}
              {| phase := Working batch batch [] pending waves; statuses_of := s |}
| step_start batch l1 p l2 live pending waves s :
    team_step {| phase := Working batch (l1 ++ p :: l2) live pending waves; statuses_of := s |}
              {| phase := Working batch (l1 ++ l2) (p :: live) pending waves;
                 statuses_of := <[p := AgentTaskRunning]> s |}
| step_end batch todo l1 p l2 pending waves s events contextErr :
    team_step {| phase := Working batch todo (l1 ++ p :: l2) pending waves; statuses_of := s |}
              {| phase := Working batch todo (l1 ++ l2) pending waves;
                 statuses_of :=
                   <[p := outcome (resolveTaskRuntime provider model factory (deref tasks p))
                            events contextErr]> s |}
| step_join batch pending waves s :
    completed_all s batch = true →
    team_step {| phase := Working batch [] [] pending waves; statuses_of := s |}
              {| phase := Batching (remaining tasks batch pending) waves; statuses_of := s |}
| step_join_failed batch l1 p l2 pending waves s :
    batch = l1 ++ p :: l2 → completed_all s l1 = true → s !! p ≠ Some AgentTaskCompleted →
    team_step {| phase := Working batch [] [] pending waves; statuses_of := s |}
              {| phase := Finished (Err (TaskNotCompleted p)); statuses_of := s |}
| step_join_expired batch pending waves s :
    completed_all s batch = false →
    team_step {| phase := Working batch [] [] pending waves; statuses_of := s |}
              {| phase := Finished (Err BudgetExpired); statuses_of := s |}.

(** [AddTask] leaves every task pending. *)
Definition initial (waves : list (list string)) : TeamRun :=
  {| phase := NextWave waves; statuses_of := map (λ _, AgentTaskPending) tasks |}.

(** *** The invariant of a run *)

Context (n : nat) (waves0 : list (list string)) (Hwaves : waves_ok tasks n ∅ waves0).

(** The tasks of the waves already run. *)
Definition wave_tasks (ws : list (list string)) : list ptr := wave_pending tasks (concat ws).

(** Every task has the status its class prescribes. *)
Definition statuses_ok (s : list string) (done live ended : list ptr) : Prop :=
  length s = length tasks ∧
  (∀ p, p ∈ done → s !! p = Some AgentTaskCompleted) ∧
  (∀ p, p ∈ live → s !! p = Some AgentTaskRunning) ∧
  (∀ p, p ∈ ended → s !! p = Some AgentTaskCompleted ∨ s !! p = Some AgentTaskFailed) ∧
  (∀ p, (p < length tasks)%nat → p ∉ done → p ∉ live → p ∉ ended → s !! p = Some AgentTaskPending).

Inductive run_inv : TeamRun → Prop :=
| inv_next past ws s :
    waves0 = past ++ ws → statuses_ok s (wave_tasks past) [] [] →
    run_inv {| phase := NextWave ws; statuses_of := s |}
| inv_batching past w ws s pending earlier :
    waves0 = past ++ w :: ws → wave_pending tasks w ≡ₚ earlier ++ pending →
    statuses_ok s (wave_tasks past ++ earlier) [] [] →
    run_inv {| phase := Batching pending ws; statuses_of := s |}
| inv_working past w ws s pending earlier batch todo live ended :
    waves0 = past ++ w :: ws → wave_pending tasks w ≡ₚ earlier ++ pending →
    selectWaveBatch c tasks pending = batch → batch ≠ [] → batch ≡ₚ todo ++ live ++ ended →
    statuses_ok s (wave_tasks past ++ earlier) live ended →
    run_inv {| phase := Working batch todo live pending ws; statuses_of := s |}
| inv_finished_ok s :
    statuses_ok s (wave_tasks waves0) [] [] →
    run_inv {| phase := Finished (Ok tt); statuses_of := s |}
| inv_finished_err past w ws s earlier e ended pending :
    waves0 = past ++ w :: ws → wave_pending tasks w ≡ₚ earlier ++ pending →
    (∀ p, p ∈ ended → p ∈ pending) →
    statuses_ok s (wave_tasks past ++ earlier) [] ended →
    (∃ p, p ∈ pending ∧ s !! p ≠ Some AgentTaskCompleted) →
    match e with
    | BudgetExpired => True
    | NoRunnableTasks => pending ≠ [] ∧ selectWaveBatch c tasks pending = []
    | TaskNotCompleted p => s !! p = Some AgentTaskFailed
    end →
    run_inv {| phase := Finished (Err e); statuses_of := s |}.

Lemma getTask_Some id p :
  getTask tasks id = Some p →
  ∃ t, tasks !! p = Some t ∧ deref tasks p = t ∧ TtID t = id ∧ (p < length tasks)%nat.
Proof.
  unfold getTask. intros (t & Ht & He & _)%find_index_Some. exists t.
  apply String.eqb_eq in He. unfold deref. rewrite Ht.
  split_and!; [done|done|done|by eapply lookup_lt_Some].
Qed.

Lemma getTask_known id : id ∈ map TtID tasks ↔ is_Some (getTask tasks id).
Proof.
  destruct (getTask tasks id) as [p|] eqn:E; unfold getTask in E.
  - split; [by eexists|intros _]. apply find_index_Some in E as (t & Ht & He & _).
    apply String.eqb_eq in He as <-. apply list_elem_of_fmap_2. by eapply list_elem_of_lookup_2.
  - split; [|by intros [? ?]]. intros (t & -> & Ht)%list_elem_of_fmap.
    rewrite find_index_None in E. specialize (E t Ht). by rewrite String.eqb_refl in E.
Qed.

Lemma elem_of_wave_pending w p :
  p ∈ wave_pending tasks w ↔ ∃ id, id ∈ w ∧ getTask tasks id = Some p.
Proof. apply list_elem_of_omap. Qed.

Lemma wave_pending_app w1 w2 :
  wave_pending tasks (w1 ++ w2) = wave_pending tasks w1 ++ wave_pending tasks w2.
Proof. apply omap_app. Qed.

Lemma wave_pending_nodup w : NoDup w → NoDup (wave_pending tasks w).
Proof.
  induction w as [|id w IH]; [constructor|]. rewrite list.NoDup_cons. intros [Hid Hnd].
  unfold wave_pending in *. cbn [omap list_omap]. destruct (getTask tasks id) as [p|] eqn:E; [|by apply IH].
  apply list.NoDup_cons. split; [|by apply IH]. intros (id' & Hin & E')%elem_of_wave_pending.
  apply getTask_Some in E as (t & Ht & _ & <- & _). apply getTask_Some in E' as (t' & Ht' & _ & <- & _).
  simplify_eq. done.
Qed.

Lemma wave_tasks_split past w ws :
  waves0 = past ++ w :: ws →
  NoDup (wave_tasks past ++ wave_pending tasks w) ∧
  wave_tasks (past ++ [w]) = wave_tasks past ++ wave_pending tasks w.
Proof.
  intros Hw. unfold wave_tasks. split.
  - rewrite <-wave_pending_app. apply wave_pending_nodup.
    pose proof (waves_nodup _ _ _ _ Hwaves) as Hnd. rewrite Hw, concat_app in Hnd. simpl in Hnd.
    rewrite app_assoc in Hnd. by apply list.NoDup_app in Hnd as [Hnd _].
  - by rewrite concat_app, wave_pending_app; simpl; rewrite app_nil_r.
Qed.


Lemma statuses_ok_equiv s d1 d2 l1 l2 e1 e2 :
  (∀ p, p ∈ d1 ↔ p ∈ d2) → (∀ p, p ∈ l1 ↔ p ∈ l2) → (∀ p, p ∈ e1 ↔ p ∈ e2) →
  statuses_ok s d1 l1 e1 → statuses_ok s d2 l2 e2.
Proof.
  unfold statuses_ok. intros Hd Hl He. setoid_rewrite Hd. setoid_rewrite Hl. by setoid_rewrite He.
Qed.

Lemma statuses_start s d l e p :
  (p < length tasks)%nat → p ∉ d → p ∉ l → p ∉ e → statuses_ok s d l e →
  statuses_ok (<[p := AgentTaskRunning]> s) d (p :: l) e.
Proof.
  intros Hlt Hd Hl He (H0 & H1 & H2 & H3 & H4). split_and!.
  - by rewrite length_insert.
  - intros q Hq. rewrite list_lookup_insert_ne; [by apply H1|]. intros ->. done.
  - intros q [->|Hq]%elem_of_cons; [apply list_lookup_insert_eq; lia|].
    rewrite list_lookup_insert_ne; [by apply H2|]. intros ->. done.
  - intros q Hq. rewrite list_lookup_insert_ne; [by apply H3|]. intros ->. done.
  - intros q Hq Hqd Hql Hqe. rewrite elem_of_cons in Hql.
    rewrite list_lookup_insert_ne; [apply H4; tauto|]. intros ->. tauto.
Qed.

Lemma statuses_end s d l1 l2 e p o :
  (p < length tasks)%nat → p ∉ d → p ∉ l1 ++ l2 → p ∉ e →
  o = AgentTaskCompleted ∨ o = AgentTaskFailed →
  statuses_ok s d (l1 ++ p :: l2) e → statuses_ok (<[p := o]> s) d (l1 ++ l2) (p :: e).
Proof.
  intros Hlt Hd Hl He Ho (H0 & H1 & H2 & H3 & H4). split_and!.
  - by rewrite length_insert.
  - intros q Hq. rewrite list_lookup_insert_ne; [by apply H1|]. intros ->. done.
  - intros q Hq. rewrite list_lookup_insert_ne; [apply H2|intros ->; done].
    rewrite elem_of_app in *. rewrite elem_of_cons. tauto.
  - intros q [->|Hq]%elem_of_cons.
    + rewrite list_lookup_insert_eq by lia. destruct Ho as [->| ->]; auto.
    + rewrite list_lookup_insert_ne; [by apply H3|]. intros ->. done.
  - intros q Hq Hqd Hql Hqe. rewrite elem_of_cons in Hqe.
    rewrite list_lookup_insert_ne; [apply H4; try tauto|intros ->; tauto].
    rewrite elem_of_app, elem_of_cons in *. tauto.
Qed.

Lemma outcome_cases rt events ctx :
  outcome rt events ctx = AgentTaskCompleted ∨ outcome rt events ctx = AgentTaskFailed.
Proof. unfold outcome. repeat case_match; auto. Qed.

Lemma completed_all_spec s batch :
  completed_all s batch = true ↔ ∀ p, p ∈ batch → s !! p = Some AgentTaskCompleted.
Proof.
  unfold completed_all. rewrite forallb_elem. by setoid_rewrite bool_decide_eq_true.
Qed.

(** In a wave, distinct pending tasks have distinct ids. *)
Lemma wave_ids_distinct w p q :
  p ∈ wave_pending tasks w → q ∈ wave_pending tasks w →
  TtID (deref tasks p) = TtID (deref tasks q) → p = q.
Proof.
  intros (i & _ & Hi)%elem_of_wave_pending (j & _ & Hj)%elem_of_wave_pending He.
  pose proof (getTask_Some _ _ Hi) as (t & _ & <- & <- & _).
  pose proof (getTask_Some _ _ Hj) as (t' & _ & <- & <- & _). congruence.
Qed.

Lemma elem_of_remaining w batch pending p :
  (∀ q, q ∈ pending → q ∈ wave_pending tasks w) → (∀ q, q ∈ batch → q ∈ pending) →
  p ∈ remaining tasks batch pending ↔ p ∈ pending ∧ p ∉ batch.
Proof.
  intros Hw Hb. unfold remaining. rewrite list_elem_of_filter, list_elem_of_fmap. split.
  - intros [Hn Hp]. split; [done|]. intros Hin. apply Hn. by exists p.
  - intros [Hp Hn]. split; [|done]. intros (q & He & Hq). apply Hn.
    assert (p = q) as ->; [|done]. apply (wave_ids_distinct w); auto.
Qed.

Lemma remaining_split w batch pending :
  (∀ q, q ∈ pending → q ∈ wave_pending tasks w) → (∀ q, q ∈ batch → q ∈ pending) →
  NoDup pending → NoDup batch → pending ≡ₚ batch ++ remaining tasks batch pending.
Proof.
  intros Hw Hb Hp Hnd. apply NoDup_Permutation; [done| |].
  - apply list.NoDup_app. split_and!; [done| |by apply list.NoDup_filter].
    intros p Hpb Hpr. by apply (elem_of_remaining w) in Hpr as [_ ?].
  - intros p. rewrite elem_of_app, (elem_of_remaining w) by done.
    destruct (decide (p ∈ batch)); naive_solver.
Qed.

(** The facts about a wave in progress that its steps share. *)
Lemma wave_facts past w ws earlier pending :
  waves0 = past ++ w :: ws → wave_pending tasks w ≡ₚ earlier ++ pending →
  NoDup pending ∧ (∀ p, p ∈ pending → p ∈ wave_pending tasks w) ∧
  (∀ p, p ∈ pending → p ∉ wave_tasks past ++ earlier ∧ (p < length tasks)%nat).
Proof.
  intros Hw He. destruct (wave_tasks_split _ _ _ Hw) as [Hnd _].
  rewrite He, app_assoc in Hnd. apply list.NoDup_app in Hnd as (_ & Hd & Hnd).
  split_and!; [done| |].
  - intros p Hp. rewrite He. apply elem_of_app. by right.
  - intros p Hp. split; [intros Hin; by apply (Hd p)|].
    assert (Hpw : p ∈ wave_pending tasks w) by (rewrite He; apply elem_of_app; by right).
    apply elem_of_wave_pending in Hpw as (id & _ & Hid).
    by apply getTask_Some in Hid as (_ & _ & _ & _ & ?).
Qed.

Lemma run_inv_join past w ws s pending earlier batch ended :
  waves0 = past ++ w :: ws → wave_pending tasks w ≡ₚ earlier ++ pending →
  (∀ p, p ∈ batch → p ∈ pending) → NoDup batch → batch ≡ₚ ended →
  statuses_ok s (wave_tasks past ++ earlier) [] ended → completed_all s batch = true →
  run_inv {| phase := Batching (remaining tasks batch pending) ws; statuses_of := s |}.
Proof.
  intros Hw He Hb Hnd Hen Hs Hall. rewrite completed_all_spec in Hall.
  destruct (wave_facts _ _ _ _ _ Hw He) as (Hndp & Hpw & _).
  eapply (inv_batching past w ws s (remaining tasks batch pending) (earlier ++ batch)); [done| |].
  - rewrite He, <-app_assoc. f_equiv. by apply (remaining_split w).
  - destruct Hs as (H0 & H1 & _ & _ & H4). split_and!; [done| | | |].
    + intros p. rewrite app_assoc, elem_of_app. intros [Hp|Hp]; auto.
    + intros p Hp. by apply not_elem_of_nil in Hp.
    + intros p Hp. by apply not_elem_of_nil in Hp.
    + intros p Hlt. rewrite app_assoc, not_elem_of_app. intros [Hp1 Hp2] _ _.
      apply H4; [done|done|apply not_elem_of_nil|]. by rewrite <-Hen.
Qed.

Ltac name_run :=
  try match goal with H : waves0 = _ ++ _ |- _ => rename H into Hw end;
  try match goal with H : wave_pending _ _ ≡ₚ _ |- _ => rename H into He end;
  try match goal with H : statuses_ok _ _ _ _ |- _ => rename H into Hs end;
  try match goal with H : _ ≡ₚ _ ++ _ ++ _ |- _ => rename H into Hpart end.

(** What a step of a worker needs to know about its task. *)
Lemma worker_facts past w ws earlier pending todo live ended p :
  waves0 = past ++ w :: ws → wave_pending tasks w ≡ₚ earlier ++ pending →
  selectWaveBatch c tasks pending ≡ₚ todo ++ live ++ ended → p ∈ todo ++ live ++ ended →
  p ∉ wave_tasks past ++ earlier ∧ (p < length tasks)%nat ∧ NoDup (todo ++ live ++ ended).
Proof.
  intros Hw He Hpart Hp. destruct (wave_facts _ _ _ _ _ Hw He) as (Hndp & _ & Hout).
  destruct (selectWaveBatch_pending c tasks pending) as [Hsub Hnb].
  destruct (Hout p) as [Hd Hlt]; [apply Hsub; by rewrite Hpart|].
  split_and!; [done|done|]. rewrite <-Hpart. by apply Hnb.
Qed.

(** A task still pending has not completed. *)
Lemma pending_uncompleted past w ws s earlier pending :
  waves0 = past ++ w :: ws → wave_pending tasks w ≡ₚ earlier ++ pending →
  statuses_ok s (wave_tasks past ++ earlier) [] [] → pending ≠ [] →
  ∃ p, p ∈ pending ∧ s !! p ≠ Some AgentTaskCompleted.
Proof.
  intros Hw He (_ & _ & _ & _ & Hs) Hne. destruct pending as [|p pending]; [done|].
  exists p. split; [left|]. destruct (wave_facts _ _ _ _ _ Hw He) as (_ & _ & Hout).
  destruct (Hout p) as [Hd Hlt]; [left|]. rewrite Hs; [done|done|done|apply not_elem_of_nil..].
Qed.

Lemma not_forall_completed (s : list string) (batch : list ptr) :
  ¬ (∀ p, p ∈ batch → s !! p = Some AgentTaskCompleted) →
  ∃ p, p ∈ batch ∧ s !! p ≠ Some AgentTaskCompleted.
Proof.
  intros Hn. destruct (decide (Forall (λ p, s !! p = Some AgentTaskCompleted) batch)) as [H|H].
  - destruct Hn. by apply Forall_elem.
  - apply not_Forall_Exists in H; [|apply _]. by apply list.Exists_exists in H.
Qed.

Lemma run_inv_step st st' :
  run_inv st → team_step st st' → run_inv st'.
Proof.
  intros Hi Hst. destruct Hst as [w ws s|s|ws s|pending ws s Hne|pending ws s Hne Hb
    |pending ws s batch Hne Hb Hbe|batch l1 p l2 live pending ws s
    |batch todo l1 p l2 pending ws s evs ctx|batch pending ws s Hall
    |batch l1 p l2 pending ws s Hbt Hall Hp|batch pending ws s Hall]; inversion Hi; subst; name_run.
  - eapply (inv_batching past w ws s _ []); [done|done|]. by rewrite app_nil_r.
  - apply inv_finished_ok. by rewrite Hw, app_nil_r.
  - destruct (wave_tasks_split _ _ _ Hw) as [_ Hsp].
    eapply (inv_next (past ++ [w]) ws); [by rewrite <-app_assoc|]. rewrite Hsp.
    eapply statuses_ok_equiv; [| | |exact Hs]; [|done|done].
    intros p. by rewrite !elem_of_app, He, app_nil_r.
  - eapply (inv_finished_err past w ws s earlier BudgetExpired [] pending);
      [done|done|intros ? []%not_elem_of_nil|done|by eapply pending_uncompleted|done].
  - eapply (inv_finished_err past w ws s earlier NoRunnableTasks [] pending);
      [done|done|intros ? []%not_elem_of_nil|done|by eapply pending_uncompleted|done].
  - eapply (inv_working past w ws s pending earlier _ _ [] []); [done|done|done|done| |exact Hs].
    by rewrite !app_nil_r.
  - destruct (worker_facts past w ws earlier pending (l1 ++ p :: l2) live ended p) as (Hd & Hlt & Hnb);
      [done|done|done|set_solver|].
    eapply (inv_working past w ws _ pending earlier _ (l1 ++ l2) (p :: live) ended); [done|done|done|done| |].
    { rewrite Hpart, <-!app_assoc. simpl. f_equiv. by rewrite <-!Permutation_middle. }
    rewrite <-app_assoc in Hnb. simpl in Hnb.
    apply list.NoDup_app in Hnb as (_ & _ & Hnb). apply list.NoDup_cons in Hnb as [Hnb _].
    rewrite !elem_of_app in Hnb. apply statuses_start; [done|done|tauto|tauto|done].
  - destruct (worker_facts past w ws earlier pending todo (l1 ++ p :: l2) ended p) as (Hd & Hlt & Hnb);
      [done|done|done|set_solver|].
    eapply (inv_working past w ws _ pending earlier _ todo (l1 ++ l2) (p :: ended)); [done|done|done|done| |].
    { rewrite Hpart. f_equiv. rewrite <-!app_assoc. simpl. f_equiv. by rewrite <-Permutation_middle. }
    apply list.NoDup_app in Hnb as (_ & _ & Hnb). apply list.NoDup_app in Hnb as (Hnl & Hle & _).
    apply statuses_end; [done|done| |apply Hle; set_solver|apply outcome_cases|done].
    rewrite <-Permutation_middle in Hnl. by apply list.NoDup_cons in Hnl as [? _].
  - destruct (wave_facts _ _ _ _ _ Hw He) as (Hndp & _ & _).
    destruct (selectWaveBatch_pending c tasks pending) as [Hsub Hnb].
    eapply run_inv_join; [done|done|exact Hsub|by apply Hnb|exact Hpart|done|done].
  - destruct (selectWaveBatch_pending c tasks pending) as [Hsub _].
    match goal with H : selectWaveBatch _ _ _ = _ |- _ => rewrite H in Hsub end.
    eapply (inv_finished_err past w ws s earlier (TaskNotCompleted p) ended pending); [done|done| |done| |].
    { intros q Hq. apply Hsub. rewrite Hpart. done. }
    { exists p. split; [apply Hsub; set_solver|done]. }
    destruct Hs as (_ & _ & _ & Hs & _). destruct (Hs p); [|done|done].
    assert (p ∈ [] ++ [] ++ ended); [|done]. rewrite <-Hpart. set_solver.
  - destruct (selectWaveBatch_pending c tasks pending) as [Hsub _].
    eapply (inv_finished_err past w ws s earlier BudgetExpired ended pending); [done|done| |done| |done].
    { intros q Hq. apply Hsub. by rewrite Hpart. }
    match goal with H : completed_all _ _ = false |- _ => apply not_true_iff_false in H; rename H into Hc end.
    rewrite completed_all_spec in Hc. apply not_forall_completed in Hc as (p & Hp & Hn). exists p. auto.
Qed.

Lemma run_inv_initial : run_inv (initial waves0).
Proof.
  apply (inv_next [] waves0); [done|]. split_and!; simpl.
  - apply length_map.
  - intros p Hp. by apply not_elem_of_nil in Hp.
  - intros p Hp. by apply not_elem_of_nil in Hp.
  - intros p Hp. by apply not_elem_of_nil in Hp.
  - intros p Hp _ _ _. destruct (lookup_lt_is_Some_2 tasks p Hp) as [t Ht].
    by rewrite list_lookup_fmap, Ht.
Qed.

Lemma run_inv_reachable st : rtc team_step (initial waves0) st → run_inv st.
Proof.
  intros Hr. cut (∀ st0, run_inv st0 → rtc team_step st0 st → run_inv st).
  { intros H. by apply (H (initial waves0)); [apply run_inv_initial|]. }
  clear Hr. intros st0 Hi Hr. induction Hr as [|a b d Hst _ IH]; [done|].
  apply IH. by apply (run_inv_step a).
Qed.

Definition status_at (st : TeamRun) (p : ptr) (v : string) : Prop := statuses_of st !! p = Some v.

Lemma statuses_class s d l e p v :
  statuses_ok s d l e → s !! p = Some v → v ≠ AgentTaskPending → p ∈ d ∨ p ∈ l ∨ p ∈ e.
Proof.
  intros (H0 & _ & _ & _ & H4) Hp Hv. pose proof (lookup_lt_Some _ _ _ Hp) as Hlt. rewrite H0 in Hlt.
  destruct (decide (p ∈ d)); [auto|]. destruct (decide (p ∈ l)); [auto|].
  destruct (decide (p ∈ e)); [auto|]. rewrite (H4 p) in Hp by done. congruence.
Qed.

(** [p] is in a wave whose predecessors are done. *)
Definition started_in (s : list string) (p : ptr) : Prop :=
  ∃ past w ws, waves0 = past ++ w :: ws ∧ p ∈ wave_pending tasks w ∧
    ∀ q, q ∈ wave_tasks past → s !! q = Some AgentTaskCompleted.

Lemma started_past s past ws p :
  waves0 = past ++ ws → p ∈ wave_tasks past →
  (∀ q, q ∈ wave_tasks past → s !! q = Some AgentTaskCompleted) → started_in s p.
Proof.
  intros Hw (id & Hid & Hp)%elem_of_wave_pending Hall.
  apply list_elem_of_In, in_concat in Hid as (w & Hin & Hid).
  apply list_elem_of_In, list_elem_of_split in Hin as (p1 & p2 & ->).
  exists p1, w, (p2 ++ ws). split_and!.
  - by rewrite Hw, <-app_assoc.
  - apply elem_of_wave_pending. exists id. by rewrite list_elem_of_In.
  - intros q (id' & Hid' & Hq)%elem_of_wave_pending. apply Hall, elem_of_wave_pending.
    exists id'. rewrite concat_app, elem_of_app. auto.
Qed.

Lemma started_current s past w ws earlier pending l e p v :
  waves0 = past ++ w :: ws → wave_pending tasks w ≡ₚ earlier ++ pending →
  statuses_ok s (wave_tasks past ++ earlier) l e → (∀ q, q ∈ l ++ e → q ∈ pending) →
  s !! p = Some v → v ≠ AgentTaskPending → started_in s p.
Proof.
  intros Hw He Hs Hle Hp Hv. pose proof Hs as (_ & Hdone & _).
  assert (Hcur : p ∈ earlier ++ pending → started_in s p).
  { intros Hin. exists past, w, ws. split_and!; [done|by rewrite He|].
    intros q Hq. apply Hdone, elem_of_app. by left. }
  destruct (statuses_class _ _ _ _ _ _ Hs Hp Hv) as [[Hd|Hd]%elem_of_app|Hd].
  - eapply started_past; [exact Hw|done|]. intros q Hq. apply Hdone, elem_of_app. by left.
  - apply Hcur, elem_of_app. by left.
  - apply Hcur, elem_of_app. right. apply Hle, elem_of_app. tauto.
Qed.

(** Whoever has left the pending state is in a wave whose predecessors are done. *)
Lemma started_wave st p v :
  run_inv st → status_at st p v → v ≠ AgentTaskPending → started_in (statuses_of st) p.
Proof.
  unfold status_at. intros Hi Hp Hv. inversion Hi; subst; name_run; simpl in *.
  - destruct (statuses_class _ _ _ _ _ _ Hs Hp Hv) as [Hd|[Hd|Hd]]; try by apply not_elem_of_nil in Hd.
    eapply started_past; [exact Hw|done|apply Hs].
  - eapply started_current; [exact Hw|exact He|exact Hs|set_solver|done|done].
  - eapply started_current; [exact Hw|exact He|exact Hs| |done|done].
    intros q Hq. apply (proj1 (selectWaveBatch_pending c tasks pending)). rewrite Hpart, elem_of_app. by right.
  - destruct (statuses_class _ _ _ _ _ _ Hs Hp Hv) as [Hd|[Hd|Hd]]; try by apply not_elem_of_nil in Hd.
    eapply (started_past _ waves0 []); [by rewrite app_nil_r|done|apply Hs].
  - eapply started_current; [exact Hw|exact He|exact Hs|set_solver|done|done].
Qed.

(** The running tasks are in the current batch. *)
Definition running (s : list string) : list ptr :=
  filter (λ p, s !! p = Some AgentTaskRunning) (seq 0 (length tasks)).

Lemma running_nodup s : NoDup (running s).
Proof. apply list.NoDup_filter, NoDup_seq. Qed.

Lemma elem_of_running s p : length s = length tasks → p ∈ running s ↔ s !! p = Some AgentTaskRunning.
Proof.
  intros Hl. unfold running. rewrite list_elem_of_filter, elem_of_seq. split; [tauto|].
  intros Hp. split; [done|]. pose proof (lookup_lt_Some _ _ _ Hp). lia.
Qed.

Lemma running_live s d l e p : statuses_ok s d l e → p ∈ running s → p ∈ l.
Proof.
  intros Hs Hp. pose proof Hs as (H0 & H1 & H2 & H3 & _). apply (elem_of_running s p H0) in Hp.
  destruct (statuses_class _ _ _ _ _ _ Hs Hp) as [Hd|[Hd|Hd]]; [done|exfalso|done|exfalso].
  - rewrite (H1 p Hd) in Hp. done.
  - destruct (H3 p Hd) as [E|E]; rewrite E in Hp; done.
Qed.

Lemma running_in_batch st :
  run_inv st →
  match phase st with
  | Working batch todo live pending ws =>
      batch = selectWaveBatch c tasks pending ∧ NoDup pending ∧ running (statuses_of st) ⊆ batch ∧
      (∀ p, p ∈ pending → (p < length tasks)%nat)
  | _ => running (statuses_of st) = []
  end.
Proof.
  assert (Hnil : ∀ s d e, statuses_ok s d [] e → running s = []).
  { intros s d e Hs. destruct (running s) as [|p l] eqn:E; [done|].
    assert (p ∈ @nil ptr) as []%not_elem_of_nil. eapply running_live; [exact Hs|]. rewrite E. left. }
  intros Hi. inversion Hi; subst; name_run; simpl; try (by eapply Hnil).
  destruct (wave_facts _ _ _ _ _ Hw He) as (Hnd & _ & Hout).
  split_and!; [done|done| |intros p Hp; by apply Hout].
  intros p Hp. rewrite Hpart, !elem_of_app. right; left. by eapply running_live.
Qed.

(** The first task of an id; later tasks with the same id never run. *)
Definition run_completely (s : list string) : Prop :=
  ∀ t, t ∈ tasks → ∃ p, getTask tasks (TtID t) = Some p ∧ s !! p = Some AgentTaskCompleted.

Lemma finished_complete s : statuses_ok s (wave_tasks waves0) [] [] → run_completely s.
Proof.
  intros (_ & Hd & _) t Ht.
  destruct (proj1 (getTask_known (TtID t))) as [p Hp]; [by apply list_elem_of_fmap_2|].
  exists p. split; [done|]. apply Hd, elem_of_wave_pending. exists (TtID t). split; [|done].
  apply (waves_complete _ _ _ _ Hwaves). split; [|set_solver].
  by apply elem_of_ids, list_elem_of_fmap_2.
Qed.

Lemma started_dependencies s p t d :
  started_in s p → tasks !! p = Some t → d ∈ TtDependsOn t →
  ∃ q, getTask tasks d = Some q ∧ s !! q = Some AgentTaskCompleted.
Proof.
  intros (past & w & ws & Hw & (id & Hid & Hg)%elem_of_wave_pending & Hall) Ht Hd.
  apply getTask_Some in Hg as (t' & Ht' & _ & <- & _). rewrite Ht in Ht'. injection Ht' as <-.
  assert (Hx : waits_for tasks (TtID t) d).
  { exists t. split_and!; [by eapply list_elem_of_lookup_2|done|done]. }
  destruct (dependency_earlier _ _ _ _ _ Hwaves Hx) as (i & j & wi & wj & Hij & Hi & Hdi & Hj & Hxj).
  assert (j = length past) as ->.
  { apply (concat_unique waves0 j (length past) wj w (TtID t) (waves_nodup _ _ _ _ Hwaves)); [done| |done|done].
    rewrite Hw, lookup_app_r, Nat.sub_diag by lia. done. }
  rewrite Hw, lookup_app_l in Hi by done.
  assert (Hdp : d ∈ concat past).
  { apply list_elem_of_In, in_concat. exists wi. rewrite <-!list_elem_of_In.
    split; [by eapply list_elem_of_lookup_2|done]. }
  assert (Hdk : d ∈ map TtID tasks).
  { apply elem_of_ids. apply (waves_complete _ _ _ _ Hwaves). rewrite Hw, concat_app, elem_of_app. auto. }
  destruct (proj1 (getTask_known d) Hdk) as [q Hq]. exists q. split; [done|].
  apply Hall, elem_of_wave_pending. by exists d.
Qed.

(** *** Runs end *)

Definition wave_cost (w : list string) : nat := 2 + 5 * length (wave_pending tasks w).
Definition waves_cost (ws : list (list string)) : nat := foldr (λ w k, wave_cost w + k)%nat O ws.

(** How many steps are left at most. *)
Definition steps_left (st : TeamRun) : nat :=
  match phase st with
  | NextWave ws => 1 + waves_cost ws
  | Batching pending ws => 2 + 5 * length pending + waves_cost ws
  | Working batch todo live pending ws =>
      3 + 5 * (length pending - length batch) + 2 * length todo + length live + waves_cost ws
  | Finished _ => 0
  end%nat.

Lemma team_step_decreases st st' :
  run_inv st → team_step st st' → (steps_left st' < steps_left st)%nat.
Proof.
  intros Hi Hst. pose proof (running_in_batch st Hi) as Hb.
  destruct Hst; unfold steps_left; simpl in *; rewrite ?length_app; simpl; try lia.
  - inversion Hi; subst; name_run. destruct (wave_facts _ _ _ _ _ Hw He) as (Hndp & _ & _).
    destruct (selectWaveBatch_pending c tasks pending) as [Hsub Hnb].
    assert (length (selectWaveBatch c tasks pending) ≤ length pending)%nat.
    { apply submseteq_length, NoDup_submseteq; auto. }
    destruct (selectWaveBatch c tasks pending); simpl in *; [done|lia].
  - inversion Hi; subst; name_run. destruct (wave_facts _ _ _ _ _ Hw He) as (Hndp & Hpw & _).
    destruct (selectWaveBatch_pending c tasks pending) as [Hsub Hnb].
    pose proof (remaining_split w _ _ Hpw Hsub Hndp (Hnb Hndp)) as Hp.
    apply Permutation_length in Hp. rewrite length_app in Hp. lia.
Qed.

Lemma team_steps_bounded k st st' :
  run_inv st → nsteps team_step k st st' → (k + steps_left st' ≤ steps_left st)%nat ∧ run_inv st'.
Proof.
  intros Hi Hk. induction Hk as [st|k st st1 st' Hst _ IH]; [split; [lia|done]|].
  pose proof (team_step_decreases _ _ Hi Hst). destruct (IH (run_inv_step _ _ Hi Hst)). split; [lia|done].
Qed.

Lemma steps_left_initial : (steps_left (initial waves0) ≤ 7 * length tasks + 1)%nat.
Proof.
  unfold steps_left, initial. cbn [phase].
  assert (Hlen : (length (concat waves0) ≤ length tasks)%nat).
  { rewrite <-(length_map TtID). apply submseteq_length, NoDup_submseteq; [apply Hwaves|].
    intros x Hx. apply elem_of_ids. by apply (waves_complete _ _ _ _ Hwaves). }
  assert (Hc : (waves_cost waves0 ≤ 7 * length (concat waves0))%nat); [|lia].
  clear Hlen. pose proof (waves_shape _ _ _ _ Hwaves) as Hs. clear Hwaves.
  induction waves0 as [|w ws IH]; simpl; [lia|]. apply list.Forall_cons in Hs as [(Hne & _) Hs].
  rewrite length_app. specialize (IH Hs). unfold wave_cost.
  assert (length (wave_pending tasks w) ≤ length w)%nat.
  { clear. unfold wave_pending. induction w as [|id w IH]; [done|].
    cbn [omap list_omap] in *. destruct (getTask tasks id); simpl in *; lia. }
  destruct w; [done|]. simpl in *. lia.
Qed.

(** A run that has not returned can go on without the budget expiring, unless a
    worker of the batch has failed, which ends it. *)
Lemma team_progress st :
  match phase st with Finished _ => True | _ => ∃ st', team_step st st' end.
Proof.
  destruct st as [[[|w ws]|pending ws|batch [|p todo] [|q live] pending ws|r] s]; simpl; [..|done].
  - eexists. apply step_all_done.
  - eexists. apply step_wave.
  - destruct pending as [|p pending]; [eexists; apply step_wave_done|].
    destruct (selectWaveBatch c tasks (p :: pending)) eqn:E;
      eexists; [by apply step_no_batch|by eapply step_batch].
  - destruct (completed_all s batch) eqn:E; eexists; [by apply step_join|by apply step_join_expired].
  - eexists. apply (step_end batch [] [] q live pending ws s [] false).
  - eexists. apply (step_start batch [] p todo).
  - eexists. apply (step_start batch [] p todo).
Qed.
End execution.

(** *** What a run promises *)

Lemma ComputeWaves_ok size tasks waves :
  ComputeWaves size tasks = Some (Ok waves) → waves_ok tasks (Z.to_nat (wave_size size)) ∅ waves.
Proof. intros H. destruct (ComputeWaves_result size tasks) as (r & Hr & Hs). by simplify_eq. Qed.

Lemma ownershipPatternsOverlap_sym a b : ownershipPatternsOverlap a b = ownershipPatternsOverlap b a.
Proof.
  unfold ownershipPatternsOverlap. rewrite (orb_comm (String.eqb (trim_space a) "")),
    (String.eqb_sym (trim_space a) (trim_space b)), (orb_comm (has_prefix _ (ownershipPrefix (trim_space b)))).
  done.
Qed.

Lemma scopes_overlap_sym a b : scopes_overlap a b = scopes_overlap b a.
Proof.
  apply eq_true_iff_eq. unfold scopes_overlap. rewrite !existsb_elem. setoid_rewrite existsb_elem.
  split; intros (x & Hx & y & Hy & He); exists y; (split; [done|]); exists x;
    by rewrite ownershipPatternsOverlap_sym.
Qed.

Lemma teamTasksConflict_sym a b : teamTasksConflict a b = teamTasksConflict b a.
Proof.
  unfold teamTasksConflict. rewrite (orb_comm (TtReadOnly a)), (orb_comm (nil_ (TtFiles a))).
  by rewrite scopes_overlap_sym.
Qed.

Lemma total_submseteq f tasks l1 l2 :
  (∀ p, p ∈ l2 → 0 ≤ f (teamTaskResources (deref tasks p))) →
  l1 ⊆+ l2 → total f tasks l1 ≤ total f tasks l2.
Proof.
  intros Hf [k Hk]%submseteq_Permutation.
  assert (Hp : total f tasks l2 = total f tasks (l1 ++ k)).
  { clear -Hk. induction Hk; simpl in *; lia. }
  rewrite Hp, total_app. assert (0 ≤ total f tasks k); [|lia].
  assert (Hf' : ∀ p, p ∈ k → 0 ≤ f (teamTaskResources (deref tasks p))).
  { intros p Hin. apply Hf. rewrite Hk, elem_of_app. by right. }
  clear -Hf'. induction k as [|p k IH]; simpl; [lia|].
  pose proof (Hf' p ltac:(left)). enough (0 ≤ total f tasks k) by lia.
  apply IH. intros q Hq. apply Hf'. by right.
Qed.

(** Whatever runs inside one batch respects the capacity. *)
Lemma running_limits c tasks pending run :
  capacity_small c → 0 < MaxParallelTasks c →
  (∀ p, p ∈ pending → needs_small (teamTaskResources (deref tasks p))) → NoDup pending →
  NoDup run → run ⊆ selectWaveBatch c tasks pending →
  Z.of_nat (length run) ≤ MaxParallelTasks c ∧
  (∀ lr, lr ∈ limits → total lr.2 tasks run ≤ lr.1 c) ∧
  (FileScopeLock c = true → ∀ p q, p ∈ run → q ∈ run → p ≠ q →
     teamTasksConflict (deref tasks p) (deref tasks q) = false).
Proof.
  intros Hc Hm Hn Hnd Hrun Hsub.
  destruct (selectWaveBatch_spec c tasks pending Hc Hm Hn Hnd) as (Hb & Hin & Hlen & Htot & Hcf & _).
  pose proof (NoDup_submseteq _ _ Hrun Hsub) as Hsm. split_and!.
  - apply submseteq_length in Hsm. lia.
  - intros lr Hlr. etrans; [|by apply Htot]. apply total_submseteq; [|done].
    intros p Hp. by apply (Hn p (Hin p Hp) lr Hlr).
  - intros Hl p q Hp%Hsub Hq%Hsub Hne.
    apply list_elem_of_split in Hp as Hp'. destruct Hp' as (l1 & l2 & Hs).
    rewrite Hs in Hq. apply elem_of_app in Hq as [Hq|Hq]; [by apply (Hcf Hl l1 p l2 q)|].
    apply elem_of_cons in Hq as [->|Hq]; [done|]. rewrite teamTasksConflict_sym.
    apply list_elem_of_split in Hq as (k1 & k2 & ->).
    apply (Hcf Hl (l1 ++ p :: k1) q k2 p); [by rewrite Hs, <-app_assoc|]. set_solver.
Qed.

(** C21: a team run, at every moment and under every interleaving of its workers, for a
    capacity whose parallelism is positive and whose slot limits are positive and at most
    2^61, and tasks whose needs are not negative and at most 2^61 (beyond that the sums wrap around, see
    [extreme_requests_fit]), and whose dependencies compile into waves.  A task that has
    left the pending state has all its dependencies completed; the running tasks are at most as many as may run in parallel, use no more than any
    slot limit together and, under the file-scope lock, no two of them conflict;
    once the run has returned nothing is running, and a run that returns without
    error has completed every task id. *)
Theorem team_run_safe c size tasks provider model factory waves st :
  ComputeWaves size tasks = Some (Ok waves) →
  capacity_small c → 0 < MaxParallelTasks c →
  (∀ p, (p < length tasks)%nat → needs_small (teamTaskResources (deref tasks p))) →
  rtc (team_step c tasks provider model factory) (initial tasks waves) st →
  let s := statuses_of st in
  (∀ p v t d, s !! p = Some v → v ≠ AgentTaskPending → tasks !! p = Some t → d ∈ TtDependsOn t →
     ∃ q, getTask tasks d = Some q ∧ s !! q = Some AgentTaskCompleted) ∧
  Z.of_nat (length (running tasks s)) ≤ MaxParallelTasks c ∧
  (∀ lr, lr ∈ limits → total lr.2 tasks (running tasks s) ≤ lr.1 c) ∧
  (FileScopeLock c = true → ∀ p q, p ∈ running tasks s → q ∈ running tasks s → p ≠ q →
     teamTasksConflict (deref tasks p) (deref tasks q) = false) ∧
  (∀ r, phase st = Finished r →
     running tasks s = [] ∧ (r = Ok tt → run_completely tasks s)).
Proof.
  intros Hwaves%ComputeWaves_ok Hc Hm Hn Hr s. subst s.
  pose proof (run_inv_reachable _ _ _ _ _ _ _ Hwaves st Hr) as Hi.
  pose proof (running_in_batch _ _ _ _ Hwaves st Hi) as Hb.
  assert (Hpd : ∃ pending, NoDup pending ∧ (∀ p, p ∈ pending → (p < length tasks)%nat) ∧
    running tasks (statuses_of st) ⊆ selectWaveBatch c tasks pending).
  { destruct (phase st) as [ws|pd ws|b td lv pd ws|r];
      [exists []; rewrite Hb..|exists pd|exists []; rewrite Hb];
      try (split_and!; [constructor|intros ? []%not_elem_of_nil|set_solver]).
    destruct Hb as (-> & ? & ? & ?). done. }
  destruct Hpd as (pd & Hnd & Hlt & Hsub).
  destruct (running_limits c tasks pd (running tasks (statuses_of st))) as (H1 & H2 & H3);
    [done|done|auto|done|apply running_nodup|done|].
  split_and!; [|done|done|done|].
  - intros p v t d Hp Hv Ht Hd. eapply started_dependencies; [exact Hwaves| |exact Ht|exact Hd].
    by eapply started_wave.
  - intros r Hph. rewrite Hph in Hb. split; [done|]. intros ->.
    inversion Hi; subst; simpl in *; simplify_eq. by eapply finished_complete.
Qed.

Lemma ToTeamTasks_ids now plan :
  map TtID (ToTeamTasks now plan) = map TkID (PnTasks (TeamPlan_Normalized now plan)).
Proof. unfold ToTeamTasks. simpl. by rewrite !map_map. Qed.

Lemma waits_for_edge now plan x d :
  waits_for (ToTeamTasks now plan) x d ↔ task_edge (PnTasks (TeamPlan_Normalized now plan)) x d.
Proof.
  unfold waits_for, task_edge, ToTeamTasks. simpl. split.
  - intros (t & (t' & -> & Ht)%list_elem_of_fmap & <- & Hd). exists (AgentTask_Normalized now t').
    split_and!; [by apply list_elem_of_fmap_2|done|done].
  - intros (t & (t' & -> & Ht)%list_elem_of_fmap & <- & Hd). exists (ToTeamTask now t').
    split_and!; [by apply list_elem_of_fmap_2|done|done].
Qed.

(** An accepted plan has waves. *)
Lemma plan_ok_waves now plan size :
  plan_ok (TeamPlan_Normalized now plan) →
  ∃ waves, ComputeWaves size (ToTeamTasks now plan) = Some (Ok waves).
Proof.
  intros Hok. destruct (ComputeWaves_spec size (ToTeamTasks now plan)) as (r & Hr & Hiff & _).
  rewrite Hr. destruct (proj2 Hiff) as [waves ->]; [|by exists waves]. split.
  - intros t d Ht Hd.
    assert (Hw : waits_for (ToTeamTasks now plan) (TtID t) d) by (by exists t).
    apply waits_for_edge in Hw as (t' & Ht' & _ & Hd'). rewrite ToTeamTasks_ids. by apply (ok_deps _ Hok t').
  - intros (x & Hx). apply (ok_acyclic _ Hok x). revert Hx.
    cut (∀ y z, tc (waits_for (ToTeamTasks now plan)) y z →
           tc (task_edge (PnTasks (TeamPlan_Normalized now plan))) y z); [auto|].
    intros y z Hx. induction Hx as [a b H%waits_for_edge|a b d H%waits_for_edge _ IH].
    + by apply tc_once.
    + by eapply tc_l.
Qed.

(** With distinct ids, every task is the first of its id. *)
Lemma getTask_distinct tasks p t :
  NoDup (map TtID tasks) → tasks !! p = Some t → getTask tasks (TtID t) = Some p.
Proof.
  intros Hnd Hp. destruct (proj1 (getTask_known tasks (TtID t))) as [q Hq].
  { apply list_elem_of_fmap_2. by eapply list_elem_of_lookup_2. }
  rewrite Hq. apply getTask_Some in Hq as (t' & Ht' & _ & He & _). f_equal.
  eapply (NoDup_lookup _ q p (TtID t)); [exact Hnd| |]; rewrite list_lookup_fmap; [by rewrite Ht', <-He|by rewrite Hp].
Qed.

(** What a run of tasks with distinct ids comes to. *)
Lemma team_run_ends c tasks provider model factory size waves k st :
  ComputeWaves size tasks = Some (Ok waves) → NoDup (map TtID tasks) →
  nsteps (team_step c tasks provider model factory) k (initial tasks waves) st →
  (k ≤ 7 * length tasks + 1)%nat ∧
  match phase st with
  | Finished (Ok _) => ∀ p, (p < length tasks)%nat → statuses_of st !! p = Some AgentTaskCompleted
  | Finished (Err e) =>
      (∃ p, (p < length tasks)%nat ∧ statuses_of st !! p ≠ Some AgentTaskCompleted) ∧
      match e with
      | BudgetExpired => True
      | NoRunnableTasks => ∃ pending, pending ≠ [] ∧ selectWaveBatch c tasks pending = []
      | TaskNotCompleted p => statuses_of st !! p = Some AgentTaskFailed
      end
  | _ => ∃ st', team_step c tasks provider model factory st st'
  end.
Proof.
  intros Hwaves%ComputeWaves_ok Hnd Hk.
  destruct (team_steps_bounded _ _ _ _ _ _ _ Hwaves k _ st (run_inv_initial _ _ _ ) Hk) as [Hle Hi].
  pose proof (steps_left_initial _ _ _ Hwaves) as H0. split; [lia|].
  pose proof (team_progress c tasks provider model factory st) as Hp.
  destruct (phase st) as [ws|pd ws|b td lv pd ws|[u|e]] eqn:Hph; try done.
  - intros p Hlt. inversion Hi; subst; simpl in *; simplify_eq.
    destruct (lookup_lt_is_Some_2 tasks p Hlt) as [t Ht].
    edestruct finished_complete as (q & Hq & Hs); [exact Hwaves|eassumption|by eapply list_elem_of_lookup_2|].
    rewrite (getTask_distinct tasks p t) in Hq by done. by injection Hq as <-.
  - inversion Hi; subst; simpl in *; simplify_eq.
    match goal with H : wave_pending _ _ ≡ₚ _ |- _ => rename H into He end.
    match goal with H : ∃ _, _ ∧ _ |- _ => destruct H as (p & Hp1 & Hn) end.
    destruct (wave_facts _ _ _ Hwaves _ _ _ _ _ eq_refl He) as (_ & _ & Hout). split.
    + exists p. split; [by apply Hout|done].
    + case_match; [done|by eexists|done].
Qed.

(** C22: an accepted plan runs to its end. Its tasks have waves; every run takes a
    bounded number of steps and is never stuck before it returns; it returns without
    error exactly when every task has completed, and an error is the expired budget,
    a task that has failed, or a capacity that no pending task fits. *)
Theorem team_run_terminates now order plan size c provider model factory :
  key_order order (PnTasks (TeamPlan_Normalized now plan)) →
  ValidateTeamPlan now order plan = Some (Ok tt) →
  let tasks := ToTeamTasks now plan in
  ∃ waves, ComputeWaves size tasks = Some (Ok waves) ∧
    ∀ k st, nsteps (team_step c tasks provider model factory) k (initial tasks waves) st →
      (k ≤ 7 * length tasks + 1)%nat ∧
      match phase st with
      | Finished (Ok _) => ∀ p, (p < length tasks)%nat → statuses_of st !! p = Some AgentTaskCompleted
      | Finished (Err e) =>
          (∃ p, (p < length tasks)%nat ∧ statuses_of st !! p ≠ Some AgentTaskCompleted) ∧
          match e with
          | BudgetExpired => True
          | NoRunnableTasks => ∃ pending, pending ≠ [] ∧ selectWaveBatch c tasks pending = []
          | TaskNotCompleted p => statuses_of st !! p = Some AgentTaskFailed
          end
      | _ => ∃ st', team_step c tasks provider model factory st st'
      end.
Proof.
  intros Ho Hv tasks. destruct (ValidateTeamPlan_spec now order plan Ho) as (r & Hr & Hok & _).
  rewrite Hr in Hv. injection Hv as ->. apply proj1 in Hok. specialize (Hok eq_refl).
  destruct (plan_ok_waves now plan size Hok) as [waves Hw]. exists waves. split; [done|].
  intros k st. apply (team_run_ends c tasks provider model factory size); [done|].
  unfold tasks. rewrite ToTeamTasks_ids. apply Hok.
Qed.

(** ** Concrete teams *)

Definition ex_team : list TeamTask := ToTeamTasks 5 (ex_teamplan ex_tasks).

(** A worker's run: its events, then the channel closes. *)
Definition ok_run : list (WorkerEvent * bool) := [({| EvType := "done"; EvTerminal := None |}, false)].

Ltac by_limits :=
  let lr := fresh "lr" in let H := fresh "H" in
  intros lr H; unfold limits in H;
  repeat (apply elem_of_cons in H as [->|H]; [vm_compute; repeat split; discriminate|]);
  by apply not_elem_of_nil in H.

Lemma ex_capacity_small : capacity_small ex_capacity.
Proof. by_limits. Qed.
Lemma ex_needs_small p : (p < 4)%nat → needs_small (teamTaskResources (deref ex_team p)).
Proof. intros Hp. do 4 (destruct p as [|p]; [by_limits|]). lia. Qed.

Lemma selectWaveBatch_fits_witness :
  selectWaveBatch ex_capacity ex_team [1%nat; 2%nat; 3%nat] = [1%nat; 2%nat] ∧
  teamTasksConflict (deref ex_team 2) (deref ex_team 1) = false.
Proof.
  split; [vm_compute; reflexivity|].
  destruct (selectWaveBatch_fits ex_capacity ex_team [1; 2; 3]%nat) as (_ & _ & _ & _ & H & _).
  - apply ex_capacity_small.
  - reflexivity.
  - intros p Hp. apply ex_needs_small. apply (bool_decide_unpack (p < 4)%nat).
    repeat (apply elem_of_cons in Hp as [->|Hp]; [vm_compute; exact I|]). by apply not_elem_of_nil in Hp.
  - apply (bool_decide_unpack _). vm_compute. exact I.
  - apply (H eq_refl [1%nat] 2%nat [] 1%nat); [vm_compute; reflexivity|left].
Defined.

Lemma ownership_never_blocks_own_scope_witness :
  CheckFileOwnership "w1" "src/api/handler.go"
    [(deref ex_team 1, {| AssignedTo := "w1"; Status := "running" |});
     (deref ex_team 2, {| AssignedTo := "w2"; Status := "running" |})] = None.
Proof.
  refine (proj1 (ownership_never_blocks_own_scope "w1" "src/api/handler.go" _ (deref ex_team 1) _ _ _ _)).
  - reflexivity.
  - repeat constructor; vm_compute; congruence.
  - vm_compute. reflexivity.
  - intros t' a Hin Ha _. repeat (apply elem_of_cons in Hin as [[= -> ->]|Hin];
      [first [by destruct Ha|split_and!; [reflexivity|repeat constructor; vm_compute; congruence|vm_compute; reflexivity]]|]).
    by apply not_elem_of_nil in Hin.
Defined.

Definition ex_waves : list (list string) := [["plan"]; ["api"; "api2"; "ui"]].

Lemma ex_team_waves : ComputeWaves 0 ex_team = Some (Ok ex_waves).
Proof. vm_compute. reflexivity. Qed.

Abbreviation ex_step := (team_step ex_capacity ex_team (Some "ollama") "qwen3" None) (only parsing).

(** The first task has completed, two of the second wave are running. *)
Definition ex_running : TeamRun :=
  {| phase := Working [1; 2]%nat [] [1; 2]%nat [1; 3; 2]%nat [];
     statuses_of := ["completed"; "running"; "running"; "pending"] |}.

Lemma ex_team_running : nsteps ex_step 10 (initial ex_team ex_waves) ex_running.
Proof.
  eapply nsteps_l; [apply step_wave|].
  eapply nsteps_l; [apply (step_batch _ _ _ _ _ _ _ _ [0%nat]); [vm_compute; discriminate|vm_compute; reflexivity|discriminate]|].
  eapply nsteps_l; [apply (step_start _ _ _ _ _ [0%nat] [] 0 [] [])|].
  eapply nsteps_l; [apply (step_end _ _ _ _ _ [0%nat] [] [] 0 [] _ _ _ ok_run false)|].
  eapply nsteps_l; [apply step_join; vm_compute; reflexivity|].
  eapply nsteps_l; [apply step_wave_done|].
  eapply nsteps_l; [apply step_wave|].
  eapply nsteps_l; [apply (step_batch _ _ _ _ _ _ _ _ [1; 2]%nat); [vm_compute; discriminate|vm_compute; reflexivity|discriminate]|].
  eapply nsteps_l; [apply (step_start _ _ _ _ _ [1; 2]%nat [1%nat] 2 [])|].
  eapply nsteps_l; [apply (step_start _ _ _ _ _ [1; 2]%nat [] 1 [])|].
  apply nsteps_O.
Qed.

Lemma team_run_safe_witness :
  let s := statuses_of ex_running in
  (∃ q, getTask ex_team "plan" = Some q ∧ s !! q = Some AgentTaskCompleted) ∧
  total RsModelSlots ex_team (running ex_team s) ≤ 4.
Proof.
  destruct (team_run_safe ex_capacity 0 ex_team (Some "ollama") "qwen3" None ex_waves ex_running)
    as (H1 & _ & H2 & _).
  - apply ex_team_waves.
  - apply ex_capacity_small.
  - reflexivity.
  - intros p Hp. by apply ex_needs_small.
  - apply rtc_nsteps. eexists. apply ex_team_running.
  - split.
    + apply (H1 1%nat "running" (deref ex_team 1) "plan"); [reflexivity|discriminate|vm_compute; reflexivity|vm_compute; left].
    + apply (H2 (ModelSlots, RsModelSlots)). left.
Defined.

Lemma team_run_terminates_witness :
  ∃ st', ex_step ex_running st'.
Proof.
  assert (Ho : key_order ["ui"; "api"; "plan"; "api2"] (PnTasks (TeamPlan_Normalized 5 (ex_teamplan ex_tasks)))).
  { apply key_order_intro; [apply (bool_decide_unpack _); vm_compute; exact I|vm_compute; reflexivity]. }
  assert (E : ValidateTeamPlan 5 ["ui"; "api"; "plan"; "api2"] (ex_teamplan ex_tasks) = Some (Ok tt))
    by (vm_compute; reflexivity).
  destruct (team_run_terminates 5 _ (ex_teamplan ex_tasks) 0 ex_capacity (Some "ollama") "qwen3" None Ho E)
    as (waves & Hw & Hrun).
  pose proof ex_team_waves as Hw'. unfold ex_team in Hw'. rewrite Hw' in Hw. injection Hw as <-.
  apply (Hrun _ ex_running ex_team_running).
Defined.

(** *** What modelling showed *)

(** A read-only task never conflicts with another task, so it may run beside a
    writer of the same paths; the ownership check then refuses the writer its own
    path on behalf of the reader. *)
Theorem read_only_task_blocks_writer :
  let reader := ToTeamTask 5 (ex_task "r" "research" [] ["src/api/**"]) in
  let writer := deref ex_team 1 in
  TtReadOnly reader = true ∧ teamTasksConflict writer reader = false ∧
  CheckFileOwnership "w1" "src/api/handler.go"
    [(reader, {| AssignedTo := "w2"; Status := "running" |});
     (writer, {| AssignedTo := "w1"; Status := "running" |})] = Some reader.
Proof. split_and!; vm_compute; reflexivity. Qed.

(** A request near the largest integer wraps around and fits; a negative request
    frees capacity for others. *)
Theorem extreme_requests_fit :
  resourceSlotFits 4 1 max_int64 = true ∧ resourceSlotFits 4 4 1 = false ∧
  resourceSlotFits 4 (wrap64 (4 + -8)) 8 = true.
Proof. split_and!; vm_compute; reflexivity. Qed.

(** The run after the last attempt cannot change the verdict. *)
Theorem final_verification_run_ignored :
  Verify "go test" (λ _, false) (λ _, false) (λ k, (k <? 4)%nat) = (false, VerificationFailed false).
Proof. reflexivity. Qed.
