(* ===== verification/LoopRegistry.v ===== *)
(** * The registry of running agent loops: internal/agent/loop_registry.go

    A registry hands out slots for agent loops: a counting semaphore, a map from
    session ids to loops, a shutdown flag and a wait group, under a mutex that the
    operations take and release several times.  A call is therefore modelled by the
    point it has reached between two atomic actions ([Call]), a [release] by the
    point its [sync.Once] body has reached ([ReleasePC]), and the registry with all
    calls in flight is a transition system ([step]) in which they interleave freely.

    Session ids, clocks, the expiry of the context given to [Shutdown] and the order
    in which a map is ranged over are inputs of a step ([Env]).  A loop's context is
    represented by whether the registry has cancelled it; the parent's cancellation
    is not.  [List] and [ByWorkDir] (sorted copies for display) are not modelled. *)

From S2P Require Export GoLib.

Local Open Scope string_scope.
Local Open Scope list_scope.
Local Open Scope Z_scope.

(** ** State *)

Inductive RegistryError := ErrTooManyLoops | ErrShuttingDown | ErrInvalidRegistryOperation.

(** Where the body of [release] is; [sync.Once] lets only one run. *)
Inductive ReleasePC := Unreleased | AtDelete | AtCancel | AtSlot | AtDone | Released.

Record activeLoop := {
  SessionID : string;
  WorkDir : string;
  StartedAt : time;
  cancelled : bool;
  release_pc : ReleasePC;
}.

(** Loops are heap objects: [loops] maps session ids to indices of [heap].  [sem] is
    the number of tokens in the channel. *)
Record LoopRegistry := {
  maxConcurrent : Z;
  sem : Z;
  loops : gmap string nat;
  shuttingDown : bool;
  wg : Z;
  heap : list activeLoop;
}.

Definition NewLoopRegistry (maxConcurrent : Z) : LoopRegistry :=
  {| maxConcurrent := if maxConcurrent <? 1 then 1 else maxConcurrent;
     sem := 0; loops := ∅; shuttingDown := false; wg := 0; heap := [] |}.

Definition with_sem (n : Z) (r : LoopRegistry) : LoopRegistry :=
  {| maxConcurrent := maxConcurrent r; sem := n; loops := loops r;
     shuttingDown := shuttingDown r; wg := wg r; heap := heap r |}.
Definition with_loops (m : gmap string nat) (r : LoopRegistry) : LoopRegistry :=
  {| maxConcurrent := maxConcurrent r; sem := sem r; loops := m;
     shuttingDown := shuttingDown r; wg := wg r; heap := heap r |}.
Definition with_wg (n : Z) (r : LoopRegistry) : LoopRegistry :=
  {| maxConcurrent := maxConcurrent r; sem := sem r; loops := loops r;
     shuttingDown := shuttingDown r; wg := n; heap := heap r |}.
Definition with_heap (h : list activeLoop) (r : LoopRegistry) : LoopRegistry :=
  {| maxConcurrent := maxConcurrent r; sem := sem r; loops := loops r;
     shuttingDown := shuttingDown r; wg := wg r; heap := h |}.
Definition with_shutdown (r : LoopRegistry) : LoopRegistry :=
  {| maxConcurrent := maxConcurrent r; sem := sem r; loops := loops r;
     shuttingDown := true; wg := wg r; heap := heap r |}.

Definition set_pc (pc : ReleasePC) (x : activeLoop) : activeLoop :=
  {| SessionID := SessionID x; WorkDir := WorkDir x; StartedAt := StartedAt x;
     cancelled := cancelled x; release_pc := pc |}.
(** The context's cancel function. *)
Definition cancel (x : activeLoop) : activeLoop :=
  {| SessionID := SessionID x; WorkDir := WorkDir x; StartedAt := StartedAt x;
     cancelled := true; release_pc := release_pc x |}.

Definition cancel_loop (l : nat) (r : LoopRegistry) : LoopRegistry :=
  with_heap (alter cancel l (heap r)) r.

(** ** Calls *)

Inductive Call :=
| RegisterCheck (workDir : string)
| RegisterReserve (workDir : string)
| RegisterInsert (workDir : string)
| RegisterRefund
| Registered (r : result RegistryError nat)
| ShutdownFlag
| ShutdownCancel (live : list nat)
| ShutdownWait
| ShutdownReturned (clean : bool)
| CancelLookup (sessionID : string)
| CancelCall (l : nat)
| CancelReturned (found : bool).

(** What the environment contributes to a step. *)
Record Env := {
  new_id : string;
  now : time;
  live_order : list nat;
  expired : bool;
}.

(** One atomic action of a call; [None] when the call has returned or waits. *)
Definition call_step (env : Env) (r : LoopRegistry) (c : Call) : option (LoopRegistry * Call) :=
  match c with
  | RegisterCheck workDir =>
      if shuttingDown r then Some (r, Registered (Err ErrShuttingDown))
      else Some (r, RegisterReserve workDir)
  | RegisterReserve workDir =>
      if sem r <? maxConcurrent r then Some (with_sem (sem r + 1) r, RegisterInsert workDir)
      else Some (r, Registered (Err ErrTooManyLoops))
  | RegisterInsert workDir =>
      if shuttingDown r then Some (r, RegisterRefund)
      else
        let l := length (heap r) in
        let loop := {| SessionID := new_id env; WorkDir := workDir; StartedAt := now env;
                       cancelled := false; release_pc := Unreleased |} in
        Some (with_wg (wg r + 1) (with_loops (<[new_id env := l]> (loops r))
                (with_heap (heap r ++ [loop]) r)), Registered (Ok l))
  | RegisterRefund =>
      if 0 <? sem r then Some (with_sem (sem r - 1) r, Registered (Err ErrShuttingDown)) else None
  | ShutdownFlag =>
      if bool_decide (live_order env ≡ₚ (map_to_list (loops r)).*2)
      then Some (with_shutdown r, ShutdownCancel (live_order env)) else None
  | ShutdownCancel (l :: live) => Some (cancel_loop l r, ShutdownCancel live)
  | ShutdownCancel [] => Some (r, ShutdownWait)
  | ShutdownWait =>
      if expired env then Some (r, ShutdownReturned false)
      else if wg r =? 0 then Some (r, ShutdownReturned true) else None
  | CancelLookup sessionID =>
      match loops r !! sessionID with
      | Some l => Some (r, CancelCall l)
      | None => Some (r, CancelReturned false)
      end
  | CancelCall l => Some (cancel_loop l r, CancelReturned true)
  | Registered _ | ShutdownReturned _ | CancelReturned _ => None
  end.

(** One atomic action of the release of loop [l]. *)
Definition release_step (l : nat) (r : LoopRegistry) : option LoopRegistry :=
  x ← heap r !! l;
  let at_ pc r := with_heap (alter (set_pc pc) l (heap r)) r in
  match release_pc x with
  | Unreleased => Some (at_ AtDelete r)
  | AtDelete => Some (at_ AtCancel (with_loops (delete (SessionID x) (loops r)) r))
  | AtCancel => Some (at_ AtSlot (cancel_loop l r))
  | AtSlot => if 0 <? sem r then Some (at_ AtDone (with_sem (sem r - 1) r)) else None
  | AtDone => Some (at_ Released (with_wg (wg r - 1) r))
  | Released => None
  end.

(** The callback runs under the lock, so it sees one state. *)
Definition WithRegistrationBarrier {A} (fn : option (Z → result RegistryError A)) (r : LoopRegistry)
    : result RegistryError A :=
  match fn with
  | None => Err ErrInvalidRegistryOperation
  | Some fn => if shuttingDown r then Err ErrShuttingDown else fn (Z.of_nat (size (loops r)))
  end.

Definition Count (r : LoopRegistry) : Z := Z.of_nat (size (loops r)).

(** ** The registry and its callers *)

Record System := { reg : LoopRegistry; calls : list Call }.

Definition first_action (c : Call) : bool :=
  match c with RegisterCheck _ | ShutdownFlag | CancelLookup _ => true | _ => false end.

Section system.
(** What is known of the ids [newSessionID] returns. *)
Context (good_id : LoopRegistry → string → Prop).

Inductive step : System → System → Prop :=
| step_begin c r cs :
    first_action c = true → step {| reg := r; calls := cs |} {| reg := r; calls := c :: cs |}
| step_call env cs1 c cs2 r r' c' :
    good_id r (new_id env) → call_step env r c = Some (r', c') →
    step {| reg := r; calls := cs1 ++ c :: cs2 |} {| reg := r'; calls := cs1 ++ c' :: cs2 |}
| step_release l r r' cs :
    release_step l r = Some r' → step {| reg := r; calls := cs |} {| reg := r'; calls := cs |}.
End system.

Definition start (max : Z) : System := {| reg := NewLoopRegistry max; calls := [] |}.

(** ** The invariant *)

Definition holds_slot (x : activeLoop) : bool :=
  match release_pc x with Unreleased | AtDelete | AtCancel | AtSlot => true | _ => false end.
Definition waited (x : activeLoop) : bool :=
  match release_pc x with Released => false | _ => true end.
Definition registered (x : activeLoop) : bool :=
  match release_pc x with Unreleased | AtDelete => true | _ => false end.
Definition reserved (c : Call) : bool :=
  match c with RegisterInsert _ | RegisterRefund => true | _ => false end.

Definition call_ok (r : LoopRegistry) (c : Call) : Prop :=
  match c with
  | Registered (Ok l) => (l < length (heap r))%nat
  | RegisterRefund | ShutdownCancel _ | ShutdownWait | ShutdownReturned false =>
      shuttingDown r = true
  | ShutdownReturned true => shuttingDown r = true ∧ wg r = 0
  | _ => True
  end.

Record inv (s : System) : Prop := {
  inv_max : 1 ≤ maxConcurrent (reg s);
  inv_sem : sem (reg s) = Z.of_nat (countb holds_slot (heap (reg s)) + countb reserved (calls s));
  inv_cap : sem (reg s) ≤ maxConcurrent (reg s);
  inv_wg : wg (reg s) = Z.of_nat (countb waited (heap (reg s)));
  inv_loops sid l : loops (reg s) !! sid = Some l →
    ∃ x, heap (reg s) !! l = Some x ∧ SessionID x = sid ∧ registered x = true;
  inv_cancelled l x : heap (reg s) !! l = Some x →
    registered x = false → release_pc x ≠ AtCancel → cancelled x = true;
  inv_calls c : c ∈ calls s → call_ok (reg s) c;
}.

Lemma inv_start max : inv (start max).
Proof.
  split; simpl; try done; try (destruct (Z.ltb_spec max 1); lia).
  intros c Hc. by apply not_elem_of_nil in Hc.
Qed.

(** What happens to a call's claims when the registry moves on. *)
Lemma call_ok_mono r r' c :
  (shuttingDown r = true → shuttingDown r' = true) →
  (shuttingDown r = true → wg r = 0 → wg r' = 0) →
  (length (heap r) ≤ length (heap r'))%nat →
  call_ok r c → call_ok r' c.
Proof.
  intros Hs Hw Hl. destruct c as [| | | |[l|e]| | | |[|]| | |]; simpl; try done; try tauto; lia.
Qed.

Lemma calls_ok_replace r r' cs1 c c' cs2 :
  (∀ d, call_ok r d → call_ok r' d) → call_ok r' c' →
  (∀ d, d ∈ cs1 ++ c :: cs2 → call_ok r d) → ∀ d, d ∈ cs1 ++ c' :: cs2 → call_ok r' d.
Proof.
  intros Hm Hc Hall d. rewrite elem_of_app, elem_of_cons.
  intros [?|[->|?]]; [|done|]; apply Hm, Hall; rewrite elem_of_app, elem_of_cons; auto.
Qed.

Lemma registered_holds x : registered x = true → holds_slot x = true ∧ waited x = true.
Proof. unfold registered, holds_slot, waited. by destruct (release_pc x). Qed.

(** Changing the object of a loop without changing where its release is. *)
Lemma lookup_cancel (h : list activeLoop) (l k : nat) x :
  alter cancel l h !! k = Some x →
  ∃ y, h !! k = Some y ∧ SessionID x = SessionID y ∧ release_pc x = release_pc y ∧
       (cancelled x = true ∨ (x = y ∧ l ≠ k)).
Proof.
  destruct (decide (l = k)) as [->|Hne].
  - rewrite list_lookup_alter_eq. intros (y & Hy & ->)%fmap_Some. exists y. auto.
  - rewrite list_lookup_alter_ne by done. intros Hx. exists x. auto 6.
Qed.

Lemma inv_cancel l r cs1 c c' cs2 :
  reserved c = reserved c' → call_ok r c' →
  inv {| reg := r; calls := cs1 ++ c :: cs2 |} → inv {| reg := cancel_loop l r; calls := cs1 ++ c' :: cs2 |}.
Proof.
  intros Hres Hc [H1 H2 H3 H4 H5 H6 H7]. unfold cancel_loop. split; simpl in *; try done.
  - rewrite countb_alter_same by done. rewrite countb_middle in *. by rewrite <-Hres.
  - by rewrite countb_alter_same.
  - intros sid k Hk. destruct (H5 sid k Hk) as (x & Hx & Hid & Hr).
    destruct (decide (l = k)) as [->|Hne].
    + exists (cancel x). rewrite list_lookup_alter_eq, Hx. done.
    + exists x. by rewrite list_lookup_alter_ne.
  - intros k x (y & Hy & _ & Hpc & [Hcx|[-> _]])%lookup_cancel; [done|by apply (H6 k)].
  - apply (calls_ok_replace r _ cs1 c); [|by destruct c' as [| | | |[?|?]| | | |[|]| | |]; simpl in *; rewrite ?length_alter|done].
    intros d. apply call_ok_mono; simpl; [done|done|by rewrite length_alter].
Qed.

(** A call that only moves on leaves the registry as it is. *)
Lemma inv_same r cs1 c c' cs2 :
  reserved c = reserved c' → call_ok r c' →
  inv {| reg := r; calls := cs1 ++ c :: cs2 |} → inv {| reg := r; calls := cs1 ++ c' :: cs2 |}.
Proof.
  intros Hres Hc [H1 H2 H3 H4 H5 H6 H7]. split; simpl in *; try done.
  - rewrite countb_middle in *. by rewrite <-Hres.
  - by apply (calls_ok_replace r r cs1 c).
Qed.

Lemma call_step_inv env r r' cs1 c c' cs2 :
  call_step env r c = Some (r', c') →
  inv {| reg := r; calls := cs1 ++ c :: cs2 |} → inv {| reg := r'; calls := cs1 ++ c' :: cs2 |}.
Proof.
  intros Hst Hi. pose proof Hi as [H1 H2 H3 H4 H5 H6 H7]. simpl in *. rewrite countb_middle in H2.
  assert (Hc : call_ok r c) by (apply H7; rewrite elem_of_app; right; left).
  destruct c as [w|w|w| |res| |[|l live]| | |sid|l|]; simpl in *; try done.
  - destruct (shuttingDown r) eqn:Hs; simplify_eq; by apply (inv_same _ _ (RegisterCheck w)).
  - destruct (Z.ltb_spec (sem r) (maxConcurrent r)); simplify_eq; [|by apply (inv_same _ _ (RegisterReserve w))].
    split; simpl; try done; [rewrite countb_middle; simpl; lia|lia|].
    by apply (calls_ok_replace r _ cs1 (RegisterReserve w)).
  - destruct (shuttingDown r) eqn:Hs; simplify_eq; [by apply (inv_same _ _ (RegisterInsert w))|].
    split; simpl; try done.
    + rewrite countb_app, countb_middle. simpl. lia.
    + rewrite countb_app. simpl. lia.
    + intros sid l. rewrite lookup_insert_Some. intros [[<- <-]|[_ Hl]].
      * eexists. rewrite lookup_app_r, Nat.sub_diag by lia. done.
      * destruct (H5 sid l Hl) as (x & Hx & ? & ?). exists x.
        rewrite lookup_app_l by (by eapply lookup_lt_Some). done.
    + intros l x [Hx|[_ Hx]]%lookup_app_Some; [by apply (H6 l)|].
      by apply list_lookup_singleton_Some in Hx as [_ <-].
    + apply (calls_ok_replace r _ cs1 (RegisterInsert w)); [|simpl; rewrite length_app; simpl; lia|done].
      intros d. apply call_ok_mono; simpl; [done|by rewrite Hs|rewrite length_app; lia].
  - destruct (Z.ltb_spec 0 (sem r)); simplify_eq.
    split; simpl; try done; [rewrite countb_middle; simpl; lia|lia|].
    by apply (calls_ok_replace r _ cs1 RegisterRefund).
  - case_bool_decide; simplify_eq. split; simpl; try done; [rewrite countb_middle; simpl; lia|].
    apply (calls_ok_replace r _ cs1 ShutdownFlag); [|done|done].
    intros d. by apply call_ok_mono.
  - simplify_eq. by apply (inv_same _ _ (ShutdownCancel [])).
  - simplify_eq. by apply (inv_cancel l r cs1 (ShutdownCancel (l :: live))).
  - destruct (expired env); [|destruct (Z.eqb_spec (wg r) 0)]; simplify_eq; by apply (inv_same _ _ ShutdownWait).
  - destruct (loops r !! sid); simplify_eq; by apply (inv_same _ _ (CancelLookup sid)).
  - simplify_eq. by apply (inv_cancel l r cs1 (CancelCall l)).
Qed.

Lemma alter_twice {A} (f g : A → A) (h : list A) (l : nat) :
  alter f l (alter g l h) = alter (f ∘ g) l h.
Proof.
  revert l. induction h as [|x h IH]; intros [|l]; simpl; [done..|]. f_equal. apply IH.
Qed.

(** The body of [release], from the reader's side: how each action changes the counts. *)
Lemma release_step_cases l r r' :
  release_step l r = Some r' →
  ∃ x, heap r !! l = Some x ∧
  match release_pc x with
  | Unreleased => r' = with_heap (alter (set_pc AtDelete) l (heap r)) r
  | AtDelete => r' = with_heap (alter (set_pc AtCancel) l (heap r)) (with_loops (delete (SessionID x) (loops r)) r)
  | AtCancel => r' = with_heap (alter (set_pc AtSlot ∘ cancel) l (heap r)) r
  | AtSlot => 0 < sem r ∧ r' = with_heap (alter (set_pc AtDone) l (heap r)) (with_sem (sem r - 1) r)
  | AtDone => r' = with_heap (alter (set_pc Released) l (heap r)) (with_wg (wg r - 1) r)
  | Released => False
  end.
Proof.
  unfold release_step. destruct (heap r !! l) as [x|]; [|done]. simpl. intros H. exists x. split; [done|].
  destruct (release_pc x); simplify_eq/=; try done.
  - unfold cancel_loop. simpl. by rewrite alter_twice.
  - destruct (Z.ltb_spec 0 (sem r)); by simplify_eq.
Qed.

Lemma lookup_alter_cases {A} (f : A → A) (h : list A) (l k : nat) y :
  alter f l h !! k = Some y →
  (l = k ∧ ∃ x, h !! k = Some x ∧ y = f x) ∨ (l ≠ k ∧ h !! k = Some y).
Proof.
  destruct (decide (l = k)) as [->|Hne].
  - rewrite list_lookup_alter_eq. intros (x & Hx & ->)%fmap_Some. eauto.
  - rewrite list_lookup_alter_ne by done. auto.
Qed.

(** A release that changes one object and possibly the rest of the registry. *)
Lemma inv_release l x f r r' cs :
  heap r !! l = Some x → heap r' = alter f l (heap r) → SessionID (f x) = SessionID x →
  shuttingDown r' = shuttingDown r → maxConcurrent r' = maxConcurrent r →
  (if holds_slot x then 1 else 0) - (if holds_slot (f x) then 1 else 0) = sem r - sem r' →
  (if waited x then 1 else 0) - (if waited (f x) then 1 else 0) = wg r - wg r' →
  (wg r = 0 → wg r' = 0) → sem r' ≤ sem r →
  (∀ sid k, loops r' !! sid = Some k → loops r !! sid = Some k ∧ (k = l → registered (f x) = true)) →
  (registered (f x) = false → release_pc (f x) ≠ AtCancel → cancelled (f x) = true) →
  inv {| reg := r; calls := cs |} → inv {| reg := r'; calls := cs |}.
Proof.
  intros Hx Hh Hid Hsd Hmx Hsem Hwg Hw0 Hle Hlo Hca [H1 H2 H3 H4 H5 H6 H7]. simpl in *.
  pose proof (countb_alter holds_slot f (heap r) l x Hx) as C1.
  pose proof (countb_alter waited f (heap r) l x Hx) as C2.
  split; simpl; rewrite ?Hh, ?Hmx; try done; try lia.
  - destruct (holds_slot x), (holds_slot (f x)); lia.
  - destruct (waited x), (waited (f x)); lia.
  - intros sid k Hk. destruct (Hlo sid k Hk) as [Hk' Hreg]. destruct (H5 sid k Hk') as (y & Hy & Hyid & Hyr).
    destruct (decide (l = k)) as [->|Hne].
    + exists (f y). rewrite list_lookup_alter_eq, Hy. simplify_eq. auto.
    + exists y. by rewrite list_lookup_alter_ne.
  - intros k y [[-> (z & Hz & ->)]|[_ Hy]]%lookup_alter_cases; [|by apply (H6 k)]. by simplify_eq.
  - intros c Hc. apply (call_ok_mono r); [by rewrite Hsd|auto|by rewrite Hh, length_alter|by apply H7].
Qed.

Lemma release_step_inv l r r' cs :
  release_step l r = Some r' →
  inv {| reg := r; calls := cs |} → inv {| reg := r'; calls := cs |}.
Proof.
  intros (x & Hx & Hc)%release_step_cases Hi.
  pose proof (inv_cancelled _ Hi l x Hx) as Hcx. unfold registered in Hcx.
  pose proof (countb_pos waited _ l x Hx) as Hp. pose proof (inv_wg _ Hi) as Hwg. simpl in Hwg.
  assert (Hself : ∀ sid, loops r !! sid = Some l → sid = SessionID x).
  { intros sid Hl. destruct (inv_loops _ Hi sid l Hl) as (y & Hy & <- & _). simpl in Hy. by simplify_eq. }
  destruct (release_pc x) eqn:Hpc; try done.
  all: try match type of Hc with _ ∧ _ => destruct Hc as [Hpos Hc] end; subst r'.
  all: eapply inv_release; try done; unfold holds_slot, waited, registered; simpl; rewrite ?Hpc;
    try done; try lia; auto.
  all: try (intros sid k Hk; split; [done|]; intros ->; destruct (inv_loops _ Hi sid l Hk) as (y & Hy & _ & Hr);
    simpl in Hy; simplify_eq; unfold registered in Hr; rewrite Hpc in Hr; done).
  - intros sid k (Hne & Hk)%lookup_delete_Some. split; [done|]. intros ->. by rewrite (Hself sid Hk) in Hne.
  - intros H0. unfold waited in Hp. rewrite Hpc in Hp. specialize (Hp eq_refl). unfold waited in Hwg. lia.
Qed.

Lemma inv_step good_id s s' : inv s → step good_id s s' → inv s'.
Proof.
  intros Hi Hst. destruct Hst as [c r cs Hf|env cs1 c cs2 r r' c' _ Hc|l r r' cs Hr].
  - destruct Hi as [H1 H2 H3 H4 H5 H6 H7]. split; simpl in *; try done.
    + destruct c; simpl in *; try done; lia.
    + intros d [->|Hd]%elem_of_cons; [by destruct c|by apply H7].
  - by eapply call_step_inv.
  - by eapply release_step_inv.
Qed.

Lemma inv_reachable good_id max s : rtc (step good_id) (start max) s → inv s.
Proof. apply rtc_invariant; [intros a b; apply inv_step|apply inv_start]. Qed.

(** ** The contract: a bounded set of running loops

    What a client may rely on: a set of running loops, of at most [max] elements,
    that grows by registration and shrinks by release, and never grows again once it
    is closed. *)

Record Slots := { running : gset nat; closed : bool }.

Inductive slot_step (max : Z) : Slots → Slots → Prop :=
| slot_take l s :
    closed s = false → l ∉ running s → Z.of_nat (size (running s)) < max →
    slot_step max s {| running := {[l]} ∪ running s; closed := false |}
| slot_give l s :
    l ∈ running s → slot_step max s {| running := running s ∖ {[l]}; closed := closed s |}
| slot_close s :
    slot_step max s {| running := running s; closed := true |}.

(** The loops whose slot has not been returned. *)
Definition slots (s : System) : Slots :=
  {| running := list_to_set (filter (λ l, holds_slot <$> heap (reg s) !! l = Some true)
                               (seq 0 (length (heap (reg s)))));
     closed := shuttingDown (reg s) |}.

Lemma elem_of_running_loops s l :
  l ∈ running (slots s) ↔ ∃ x, heap (reg s) !! l = Some x ∧ holds_slot x = true.
Proof.
  simpl. rewrite elem_of_list_to_set, list_elem_of_filter, elem_of_seq, fmap_Some. split.
  - intros [(x & Hx & He) _]. eauto.
  - intros (x & Hx & He). split; [eauto|]. pose proof (lookup_lt_Some _ _ _ Hx). lia.
Qed.

Lemma filter_seq_countb {A} (p : A → bool) (h : list A) :
  length (filter (λ l, p <$> h !! l = Some true) (seq 0 (length h))) = countb p h.
Proof.
  induction h as [|x h IH] using rev_ind; [done|].
  rewrite length_app, Nat.add_1_r, seq_S, list.filter_app, length_app, countb_app. f_equal.
  - rewrite <-IH. f_equal. apply filter_ext_in. intros l [_ Hl]%elem_of_seq.
    by rewrite lookup_app_l by lia.
  - simpl. rewrite filter_cons, lookup_app_r, Nat.sub_diag by lia. simpl.
    destruct (p x); [by rewrite decide_True|by rewrite decide_False].
Qed.

Lemma size_running s : size (running (slots s)) = countb holds_slot (heap (reg s)).
Proof.
  simpl. rewrite size_list_to_set by apply list.NoDup_filter, NoDup_seq. apply filter_seq_countb.
Qed.

Lemma slots_same s s' :
  shuttingDown (reg s') = shuttingDown (reg s) →
  (∀ l, (∃ x, heap (reg s') !! l = Some x ∧ holds_slot x = true) ↔
        ∃ x, heap (reg s) !! l = Some x ∧ holds_slot x = true) →
  slots s' = slots s.
Proof.
  intros Hs Hl. enough (running (slots s') = running (slots s)) as He.
  { unfold slots in *. simpl in He. by rewrite He, Hs. }
  apply set_eq. intros l. by rewrite !elem_of_running_loops.
Qed.

Lemma holds_alter f (h : list activeLoop) k l :
  (∀ x, h !! k = Some x → holds_slot (f x) = holds_slot x) →
  (∃ x, alter f k h !! l = Some x ∧ holds_slot x = true) ↔ ∃ x, h !! l = Some x ∧ holds_slot x = true.
Proof.
  intros Hf. split.
  - intros (y & [[-> (x & Hx & ->)]|[_ Hy]]%lookup_alter_cases & Hh); [|eauto].
    exists x. by rewrite Hf in Hh.
  - intros (x & Hx & Hh). destruct (decide (k = l)) as [->|Hne].
    + exists (f x). rewrite list_lookup_alter_eq, Hx, Hf by done. done.
    + exists x. by rewrite list_lookup_alter_ne.
Qed.

Lemma call_step_slots env r r' cs1 c c' cs2 :
  let s := {| reg := r; calls := cs1 ++ c :: cs2 |} in
  let s' := {| reg := r'; calls := cs1 ++ c' :: cs2 |} in
  inv s → call_step env r c = Some (r', c') →
  maxConcurrent r' = maxConcurrent r ∧
  (slots s' = slots s ∨ slot_step (maxConcurrent r) (slots s) (slots s')).
Proof.
  intros s s' Hi Hst. pose proof (inv_sem _ Hi) as Hsem. pose proof (inv_cap _ Hi) as Hcap.
  subst s s'. simpl in *. rewrite countb_middle in Hsem.
  destruct c as [w|w|w| |res| |[|l live]| | |sid|l|]; simpl in *; try done.
  - destruct (shuttingDown r); simplify_eq; auto.
  - destruct (sem r <? maxConcurrent r); simplify_eq; auto.
  - destruct (shuttingDown r) eqn:Hs; simplify_eq/=; [auto|]. split; [done|]. right.
    match goal with |- slot_step _ ?a ?b => assert (b = {| running := {[length (heap r)]} ∪ running a; closed := false |}) as -> end.
    { unfold slots. simpl. rewrite Hs. f_equal. apply set_eq. intros l.
      rewrite elem_of_union, elem_of_singleton, !elem_of_list_to_set, !list_elem_of_filter, !elem_of_seq, !fmap_Some.
      rewrite length_app. simpl. split.
      - intros [(x & [Hx|[Hl Hx]]%lookup_app_Some & He) Hlt]; [right|left].
        + split; [eauto|]. pose proof (lookup_lt_Some _ _ _ Hx). lia.
        + apply list_lookup_singleton_Some in Hx as [Hz _]. lia.
      - intros [->|[(x & Hx & He) Hlt]]; (split; [|lia]).
        + eexists. rewrite lookup_app_r, Nat.sub_diag by lia. done.
        + exists x. by rewrite lookup_app_l by lia. }
    apply slot_take; [done| |].
    + rewrite elem_of_running_loops. simpl. intros (x & Hx & _). apply lookup_lt_Some in Hx. lia.
    + rewrite size_running. simpl. lia.
  - destruct (0 <? sem r); simplify_eq; auto.
  - case_bool_decide; simplify_eq. split; [done|]. right. apply slot_close.
  - simplify_eq; auto.
  - simplify_eq. split; [done|]. left. apply slots_same; [done|]. intros k. by apply holds_alter.
  - destruct (expired env); [|destruct (wg r =? 0)]; simplify_eq; auto.
  - destruct (loops r !! sid); simplify_eq; auto.
  - simplify_eq. split; [done|]. left. apply slots_same; [done|]. intros k. by apply holds_alter.
Qed.

Lemma release_step_slots l r r' cs :
  let s := {| reg := r; calls := cs |} in
  let s' := {| reg := r'; calls := cs |} in
  release_step l r = Some r' →
  maxConcurrent r' = maxConcurrent r ∧
  (slots s' = slots s ∨ slot_step (maxConcurrent r) (slots s) (slots s')).
Proof.
  intros s s' (x & Hx & Hc)%release_step_cases. subst s s'.
  destruct (release_pc x) eqn:Hpc; try done.
  all: try match type of Hc with _ ∧ _ => destruct Hc as [Hpos Hc] end; subst r'; (split; [done|]).
  4: { right. match goal with |- slot_step _ ?a ?b =>
         assert (b = {| running := running a ∖ {[l]}; closed := closed a |}) as -> end.
    - unfold slots. simpl. f_equal. apply set_eq. intros k.
      rewrite elem_of_difference, elem_of_singleton, !elem_of_list_to_set, !list_elem_of_filter, !elem_of_seq, !fmap_Some.
      rewrite length_alter. split.
      + intros [(y & [[-> (z & Hz & ->)]|[Hne Hy]]%lookup_alter_cases & He) Hlt]; [done|]. eauto.
      + intros [[(y & Hy & He) Hlt] Hne]. split; [|done]. exists y. by rewrite list_lookup_alter_ne.
    - apply slot_give, elem_of_running_loops. exists x. simpl. unfold holds_slot. by rewrite Hpc. }
  all: left; apply slots_same; [done|]; intros k; apply holds_alter; intros y Hy; simpl in Hy; rewrite Hx in Hy;
    injection Hy as <-; unfold holds_slot; simpl; by rewrite Hpc.
Qed.

Lemma step_slots good_id s s' :
  inv s → step good_id s s' →
  maxConcurrent (reg s') = maxConcurrent (reg s) ∧
  (slots s' = slots s ∨ slot_step (maxConcurrent (reg s)) (slots s) (slots s')).
Proof.
  intros Hi Hst. destruct Hst as [c r cs Hf|env cs1 c cs2 r r' c' _ Hc|l r r' cs Hr].
  - auto.
  - by apply (call_step_slots env).
  - by apply (release_step_slots l).
Qed.

(** The cap in force: a cap below one is one. *)
Definition cap (max : Z) : Z := maxConcurrent (NewLoopRegistry max).

Lemma slots_reachable good_id max s :
  rtc (step good_id) (start max) s →
  maxConcurrent (reg s) = cap max ∧ rtc (slot_step (cap max)) (slots (start max)) (slots s).
Proof.
  intros Hr. split.
  - apply (rtc_invariant (step good_id) (λ s, inv s ∧ maxConcurrent (reg s) = cap max) (start max)) in Hr;
      [tauto| |split; [apply inv_start|done]].
    intros a b [Hi Hm] Hst. split; [by eapply inv_step|].
    destruct (step_slots _ _ _ Hi Hst) as [-> _]. done.
  - eapply (rtc_simulation _ _ slots (λ s, inv s ∧ maxConcurrent (reg s) = cap max)); [|split; [apply inv_start|done]|exact Hr].
    intros a b [Hi Hm] Hst. destruct (step_slots _ _ _ Hi Hst) as [Hm' Hs]. rewrite Hm in Hs, Hm'.
    split; [split; [by eapply inv_step|done]|done].
Qed.

(** C23: the registry keeps its contract under every interleaving of its calls.
    Whatever ids are handed out, the loops that hold a slot are always a set that the
    contract allows: it takes a new loop only while fewer than the cap run and the
    registry is open, and gives one back by its release. So never more loops than the
    cap hold a slot, the semaphore counts exactly these and the calls in the middle
    of a registration, and every listed loop is one of them, under its own id. *)
Theorem loop_registry_refines good_id max s :
  rtc (step good_id) (start max) s →
  rtc (slot_step (cap max)) {| running := ∅; closed := false |} (slots s) ∧
  Z.of_nat (size (running (slots s))) ≤ cap max ∧
  sem (reg s) = Z.of_nat (size (running (slots s)) + countb reserved (calls s)) ∧
  sem (reg s) ≤ cap max ∧
  (∀ sid l, loops (reg s) !! sid = Some l →
     l ∈ running (slots s) ∧ ∃ x, heap (reg s) !! l = Some x ∧ SessionID x = sid) ∧
  Count (reg s) ≤ Z.of_nat (size (running (slots s))).
Proof.
  intros Hr. pose proof (inv_reachable _ _ _ Hr) as Hi. destruct (slots_reachable _ _ _ Hr) as [Hm Hsl].
  destruct Hi as [H1 H2 H3 H4 H5 H6 H7]. rewrite Hm in H3. rewrite size_running.
  assert (Hin : ∀ sid l, loops (reg s) !! sid = Some l →
    l ∈ running (slots s) ∧ ∃ x, heap (reg s) !! l = Some x ∧ SessionID x = sid).
  { intros sid l Hl. destruct (H5 sid l Hl) as (x & Hx & Hid & Hrx). split; [|eauto].
    apply elem_of_running_loops. exists x. split; [done|]. by apply registered_holds. }
  split_and!; [exact Hsl|lia|done|done|done|].
  unfold Count. rewrite <-size_running. apply inj_le, map_size_injective.
  - intros sid l Hl. by apply (Hin sid).
  - intros k k' l Hk Hk'. destruct (Hin _ _ Hk) as (_ & x & Hx & <-), (Hin _ _ Hk') as (_ & y & Hy & <-). by simplify_eq.
Qed.

(** ** Shutdown *)

(** Ids are not reused while a loop is listed. *)
Definition fresh_ids (r : LoopRegistry) (id : string) : Prop :=
  ∀ l x, heap r !! l = Some x → registered x = true → SessionID x ≠ id.

(** The loops a shutdown has still to cancel. *)
Definition to_cancel (c : Call) : option (list nat) :=
  match c with
  | ShutdownCancel live => Some live
  | ShutdownWait | ShutdownReturned _ => Some []
  | _ => None
  end.

Definition cancels_ok (h : list activeLoop) (c : Call) : Prop :=
  ∀ live, to_cancel c = Some live → ∀ l x, h !! l = Some x →
    cancelled x = true ∨ release_pc x = AtCancel ∨ l ∈ live.

(** With fresh ids, every loop not yet being released is listed. *)
Record inv_fresh (s : System) : Prop := {
  fresh_inv : inv s;
  fresh_listed l x : heap (reg s) !! l = Some x → registered x = true →
    loops (reg s) !! SessionID x = Some l;
  fresh_cancels c : c ∈ calls s → cancels_ok (heap (reg s)) c;
}.

Lemma cancels_ok_cancel h l c : cancels_ok h c → cancels_ok (alter cancel l h) c.
Proof.
  intros Hc live Hl k x (y & Hy & _ & -> & [Hx|[-> _]])%lookup_cancel; [auto|by apply (Hc live Hl k)].
Qed.

Lemma cancels_shutdown r c live : call_ok r c → to_cancel c = Some live → shuttingDown r = true.
Proof. destruct c as [| | | | | | | |[|]| | |]; simpl; intros Hc Hl; naive_solver. Qed.

(** What a call may do to the loops: nothing, cancel one, or add one. *)
Lemma call_step_shape env r r' c c' :
  call_step env r c = Some (r', c') →
  (heap r' = heap r ∧ loops r' = loops r) ∨
  (∃ l, heap r' = alter cancel l (heap r) ∧ loops r' = loops r) ∨
  (∃ w, c = RegisterInsert w ∧ shuttingDown r = false ∧
     heap r' = heap r ++ [{| SessionID := new_id env; WorkDir := w; StartedAt := now env;
                             cancelled := false; release_pc := Unreleased |}] ∧
     loops r' = <[new_id env := length (heap r)]> (loops r)).
Proof.
  destruct c as [w|w|w| |res| |[|k live]| | |sid|k|]; simpl; intros Hst; repeat case_match; simplify_eq/=; eauto 9.
Qed.

Lemma call_step_listed env r r' c c' :
  (∀ l x, heap r !! l = Some x → registered x = true → loops r !! SessionID x = Some l) →
  fresh_ids r (new_id env) → call_step env r c = Some (r', c') →
  ∀ l x, heap r' !! l = Some x → registered x = true → loops r' !! SessionID x = Some l.
Proof.
  intros Hl Hf Hst l x.
  destruct (call_step_shape _ _ _ _ _ Hst) as [[-> ->]|[(k & -> & ->)|(w & _ & _ & -> & ->)]].
  - apply Hl.
  - intros (y & Hy & -> & Hpc & _)%lookup_cancel Hr. apply Hl; [done|]. unfold registered in *. by rewrite <-Hpc.
  - intros [Hx|[Hk Hx]]%lookup_app_Some Hr.
    + rewrite lookup_insert_ne; [by apply Hl|]. intros He. by apply (Hf l x).
    + apply list_lookup_singleton_Some in Hx as [Hz <-]. simpl. rewrite lookup_insert_eq. f_equal. lia.
Qed.

(** What a call's cancellations still owe carries over to its next action. *)
Lemma call_step_own env r r' c c' :
  (∀ l x, heap r !! l = Some x → registered x = true → loops r !! SessionID x = Some l) →
  (∀ l x, heap r !! l = Some x → registered x = false → release_pc x ≠ AtCancel → cancelled x = true) →
  cancels_ok (heap r) c → call_step env r c = Some (r', c') → cancels_ok (heap r') c'.
Proof.
  intros Hl Hcx Hc Hst.
  destruct c as [w|w|w| |res| |[|k live]| | |sid|k|]; simpl in *; repeat case_match; simplify_eq/=; try done.
  - intros live [= <-] l x Hx. split_bools. destruct (registered x) eqn:Hr.
    + right; right. match goal with H : _ ≡ₚ _ |- _ => rewrite H end.
      apply list_elem_of_fmap. exists (SessionID x, l). split; [done|]. by apply elem_of_map_to_list, Hl.
    + specialize (Hcx l x Hx Hr). destruct (release_pc x); auto; left; by apply Hcx.
  - intros live' [= <-] l x (y & Hy & _ & Hpc & Hx)%lookup_cancel. rewrite Hpc.
    destruct Hx as [Hx|[-> Hne]]; [by left|].
    destruct (Hc (k :: live) eq_refl l y Hy) as [?|[?|[->|?]%elem_of_cons]]; auto; done.
Qed.

(** The calls beside the one that acts. *)
Lemma call_step_other env r r' c c' d :
  call_ok r d → cancels_ok (heap r) d → call_step env r c = Some (r', c') → cancels_ok (heap r') d.
Proof.
  intros Hok Hd Hst.
  destruct (call_step_shape _ _ _ _ _ Hst) as [[-> _]|[(k & -> & _)|(w & _ & Hs & _)]].
  - done.
  - by apply cancels_ok_cancel.
  - intros live Hl. pose proof (cancels_shutdown _ _ _ Hok Hl). congruence.
Qed.

Lemma call_step_fresh env r r' cs1 c c' cs2 :
  inv_fresh {| reg := r; calls := cs1 ++ c :: cs2 |} → fresh_ids r (new_id env) →
  call_step env r c = Some (r', c') → inv_fresh {| reg := r'; calls := cs1 ++ c' :: cs2 |}.
Proof.
  intros [Hi Hl Hc] Hf Hst. pose proof Hi as [_ _ _ _ _ Hcx Hok]. simpl in *.
  split; [by eapply call_step_inv|by eapply call_step_listed|]. simpl.
  assert (Hin : ∀ d, d ∈ cs1 ∨ d = c ∨ d ∈ cs2 → d ∈ cs1 ++ c :: cs2)
    by (intros d; rewrite elem_of_app, elem_of_cons; tauto).
  intros d. rewrite elem_of_app, elem_of_cons. intros [Hd|[->|Hd]].
  - eapply call_step_other; [apply Hok|apply Hc|exact Hst]; auto.
  - eapply call_step_own; [exact Hl|exact Hcx|apply Hc|exact Hst]; auto.
  - eapply call_step_other; [apply Hok|apply Hc|exact Hst]; auto.
Qed.

Ltac open_release Hst x Hpc :=
  destruct (release_pc x) eqn:Hpc; try done;
  try match type of Hst with _ ∧ _ => destruct Hst as [_ Hst] end; subst.

Lemma release_step_fresh l r r' cs :
  release_step l r = Some r' →
  inv_fresh {| reg := r; calls := cs |} → inv_fresh {| reg := r'; calls := cs |}.
Proof.
  intros Hst [Hi Hl Hc]. pose proof Hi as [_ _ _ _ _ Hcx Hok]. simpl in *.
  split; [by eapply release_step_inv| |]; simpl in *;
    apply release_step_cases in Hst as (x & Hx & Hst); specialize (Hcx l x Hx).
  - assert (Hloops : ∀ k y, heap r !! k = Some y → registered y = true → k ≠ l →
      loops r' !! SessionID y = Some k).
    { intros k y Hy Hr Hne. pose proof (Hl k y Hy Hr) as Hk.
      open_release Hst x Hpc; simpl; try done.
      rewrite lookup_delete_ne; [done|]. intros He. destruct Hne.
      assert (loops r !! SessionID x = Some l) by (apply Hl; [done|unfold registered; by rewrite Hpc]). congruence. }
    intros k y Hy Hr.
    open_release Hst x Hpc; simpl in *; apply lookup_alter_cases in Hy as [[-> (z & Hz & ->)]|[Hne Hy]]; try done;
      try (by apply Hloops).
    simplify_eq. apply (Hl _ _ Hx). unfold registered. by rewrite Hpc.
  - intros d Hd live Hlive k y Hy. specialize (Hc d Hd live Hlive).
    unfold registered in Hcx.
    open_release Hst x Hpc; simpl in *; apply lookup_alter_cases in Hy as [[-> (z & Hz & ->)]|[Hne Hy]]; auto;
      simplify_eq/=; auto.
    destruct (Hc _ _ Hx) as [?|[?|?]]; auto. congruence.
Qed.

Lemma inv_fresh_step good_id s s' :
  (∀ r id, good_id r id → fresh_ids r id) → inv_fresh s → step good_id s s' → inv_fresh s'.
Proof.
  intros Hg Hi Hst. destruct Hst as [c r cs Hf|env cs1 c cs2 r r' c' Hid Hc|l r r' cs Hr].
  - destruct Hi as [Hi Hl Hc]. split; simpl in *; [|done|].
    + eapply (inv_step good_id); [exact Hi|by apply step_begin].
    + intros d [->|Hd]%elem_of_cons; [by destruct c|by apply Hc].
  - eapply call_step_fresh; [exact Hi|by apply Hg|exact Hc].
  - by eapply release_step_fresh.
Qed.

Lemma inv_fresh_reachable good_id max s :
  (∀ r id, good_id r id → fresh_ids r id) → rtc (step good_id) (start max) s → inv_fresh s.
Proof.
  intros Hg. apply rtc_invariant; [intros a b; by apply inv_fresh_step|].
  split; [apply inv_start|done|]. intros c Hc. by apply not_elem_of_nil in Hc.
Qed.

(** A registry that is closing takes no further loop, and one that has drained
    stays empty. *)
Lemma step_closed good_id s s' :
  inv s → step good_id s s' → shuttingDown (reg s) = true →
  shuttingDown (reg s') = true ∧ length (heap (reg s')) = length (heap (reg s)) ∧
  (wg (reg s) = 0 → wg (reg s') = 0).
Proof.
  intros Hi Hst Hs. destruct Hst as [c r cs Hf|env cs1 c cs2 r r' c' _ Hc|l r r' cs Hr]; simpl in *.
  - done.
  - destruct c as [w|w|w| |res| |[|k live]| | |sid|k|]; simpl in *; repeat case_match; simplify_eq/=;
      rewrite ?length_alter; done.
  - pose proof (inv_wg _ Hi) as Hw. simpl in Hw. apply release_step_cases in Hr as (x & Hx & Hr).
    pose proof (countb_pos waited _ l x Hx) as Hp. unfold waited at 1 in Hp.
    open_release Hr x Hpc; simpl; rewrite length_alter; try done.
    split_and!; [done|done|]. specialize (Hp eq_refl). lia.
Qed.

Lemma drained s :
  inv s → wg (reg s) = 0 →
  loops (reg s) = ∅ ∧ ∀ l x, heap (reg s) !! l = Some x → release_pc x = Released ∧ cancelled x = true.
Proof.
  intros Hi H0. pose proof Hi as [_ _ _ Hw Hlo Hca _].
  assert (Hz : ∀ l x, heap (reg s) !! l = Some x → release_pc x = Released).
  { intros l x Hx. assert (countb waited (heap (reg s)) = 0%nat) as Hc by lia.
    pose proof (proj1 (countb_zero _ _) Hc l x Hx) as Hn. unfold waited in Hn. by destruct (release_pc x). }
  split.
  - apply map_empty. intros sid. destruct (loops (reg s) !! sid) as [l|] eqn:E; [|done].
    destruct (Hlo sid l E) as (x & Hx & _ & Hr). unfold registered in Hr. by rewrite (Hz l x Hx) in Hr.
  - intros l x Hx. split; [by apply (Hz l)|]. apply (Hca l x Hx); unfold registered; by rewrite (Hz l x Hx).
Qed.

(** Shutdown. Once it has begun, no loop is ever registered again, whatever
    registrations were under way; once it has returned true, every loop ever
    registered has been cancelled and released, and the registry stays empty; and if
    ids are not reused while listed, then from the moment it begins to wait every
    loop has been cancelled, except one whose own release is about to cancel it. *)
Theorem shutdown_drains good_id max s s' :
  rtc (step good_id) (start max) s → shuttingDown (reg s) = true → rtc (step good_id) s s' →
  shuttingDown (reg s') = true ∧ length (heap (reg s')) = length (heap (reg s)) ∧
  (ShutdownReturned true ∈ calls s →
     loops (reg s') = ∅ ∧
     ∀ l x, heap (reg s') !! l = Some x → release_pc x = Released ∧ cancelled x = true) ∧
  ((∀ r id, good_id r id → fresh_ids r id) → ∀ b,
     ShutdownWait ∈ calls s ∨ ShutdownReturned b ∈ calls s →
     ∀ l x, heap (reg s) !! l = Some x → cancelled x = true ∨ release_pc x = AtCancel).
Proof.
  intros Hr Hs Hr'. pose proof (inv_reachable _ _ _ Hr) as Hi.
  assert (Hcl : inv s' ∧ shuttingDown (reg s') = true ∧ length (heap (reg s')) = length (heap (reg s)) ∧
    (wg (reg s) = 0 → wg (reg s') = 0)).
  { apply (rtc_invariant (step good_id) (λ a, inv a ∧ shuttingDown (reg a) = true ∧
      length (heap (reg a)) = length (heap (reg s)) ∧ (wg (reg s) = 0 → wg (reg a) = 0)) s); [|done|done].
    intros a b (Ha & Hsa & Hla & Hwa) Hst. destruct (step_closed _ _ _ Ha Hst Hsa) as (? & -> & ?).
    split_and!; [by eapply inv_step|done|done|auto]. }
  destruct Hcl as (Hi' & Hs' & Hl' & Hw'). split_and!; [done|done| |].
  - intros Hret. apply drained; [done|]. by apply Hw', (inv_calls _ Hi _ Hret).
  - intros Hg b Hc l x Hx. pose proof (inv_fresh_reachable _ _ _ Hg Hr) as [_ _ Hf].
    assert (cancelled x = true ∨ release_pc x = AtCancel ∨ l ∈ @nil nat) as Hres.
    { destruct Hc as [Hc|Hc]; by apply (Hf _ Hc [] eq_refl l). }
    rewrite elem_of_nil in Hres. tauto.
Qed.

(** ** Progress *)

(** The actions a release has still to take. *)
Definition pc_left (x : activeLoop) : nat :=
  match release_pc x with
  | Unreleased => 5 | AtDelete => 4 | AtCancel => 3 | AtSlot => 2 | AtDone => 1 | Released => 0
  end%nat.
Definition releases_left (h : list activeLoop) : nat := foldr (λ x n, pc_left x + n)%nat O h.

Lemma releases_left_alter f h l x :
  h !! l = Some x → (releases_left (alter f l h) + pc_left x = releases_left h + pc_left (f x))%nat.
Proof.
  revert l. induction h as [|y h IH]; intros [|l] Hl; simplify_eq/=; [lia|]. specialize (IH l Hl). lia.
Qed.

Lemma releases_left_pos h :
  releases_left h ≠ O → ∃ l x, h !! l = Some x ∧ release_pc x ≠ Released.
Proof.
  induction h as [|x h IH]; simpl; [done|]. intros Hne.
  destruct (decide (pc_left x = O)) as [Hz|Hz].
  - destruct IH as (l & y & Hy & Hp); [lia|]. by exists (S l), y.
  - exists O, x. split; [done|]. intros Hp. unfold pc_left in Hz. by rewrite Hp in Hz.
Qed.

Lemma releases_left_waited h : releases_left h = O → countb waited h = O.
Proof.
  induction h as [|x h IH]; simpl; [done|]. intros Hz.
  assert (pc_left x = O) as Hx by lia. unfold pc_left in Hx. unfold waited at 1.
  destruct (release_pc x); try done. apply IH. lia.
Qed.

Lemma releases_left_bound h : (releases_left h ≤ 5 * length h)%nat.
Proof. induction h as [|x h IH]; simpl; [lia|]. unfold pc_left. destruct (release_pc x); lia. Qed.

(** A release never waits: its token is in the semaphore. *)
Lemma release_enabled s l x :
  inv s → heap (reg s) !! l = Some x → release_pc x ≠ Released →
  ∃ r', release_step l (reg s) = Some r' ∧
        (releases_left (heap r') < releases_left (heap (reg s)))%nat.
Proof.
  intros Hi Hx Hp. assert (Hs : ∃ r', release_step l (reg s) = Some r').
  { unfold release_step. rewrite Hx. simpl. destruct (release_pc x) eqn:Hpc; try done; try (by eexists).
    destruct (Z.ltb_spec 0 (sem (reg s))); [by eexists|].
    pose proof (inv_sem _ Hi) as Hsem. pose proof (countb_pos holds_slot _ l x Hx) as Hc.
    unfold holds_slot at 1 in Hc. rewrite Hpc in Hc. specialize (Hc eq_refl). lia. }
  destruct Hs as [r' Hr]. exists r'. split; [done|].
  apply release_step_cases in Hr as (y & Hy & Hr). rewrite Hx in Hy. injection Hy as <-.
  open_release Hr x Hpc; simpl.
  all: match goal with |- (releases_left (alter ?f _ _) < _)%nat =>
    pose proof (releases_left_alter f _ _ _ Hx) as Hl end.
  all: unfold pc_left in Hl; simpl in Hl; rewrite Hpc in Hl; lia.
Qed.

Definition returned (c : Call) : bool :=
  match c with Registered _ | ShutdownReturned _ | CancelReturned _ => true | _ => false end.

(** Releasing every loop drains the registry. *)
Lemma drain good_id n s :
  inv s → (releases_left (heap (reg s)) ≤ n)%nat →
  ∃ k s', (k ≤ n)%nat ∧ nsteps (step good_id) k s s' ∧ calls s' = calls s ∧ wg (reg s') = 0 ∧ inv s'.
Proof.
  revert s. induction n as [|n IH]; intros s Hi Hn.
  all: destruct (decide (releases_left (heap (reg s)) = O)) as [Hz|Hz]; [|try lia].
  1,2: exists O, s; split_and!; [lia|constructor|done| |done];
    rewrite (inv_wg _ Hi), (releases_left_waited _ Hz); done.
  destruct (releases_left_pos _ Hz) as (l & x & Hx & Hp).
  destruct (release_enabled s l x Hi Hx Hp) as (r' & Hr & Hlt).
  assert (Hst : step good_id s {| reg := r'; calls := calls s |}) by (destruct s; by apply (step_release _ l)).
  destruct (IH {| reg := r'; calls := calls s |}) as (k & s' & Hk & Hsteps & Hc & Hw & Hi');
    [by eapply inv_step|simpl; lia|].
  exists (S k), s'. split_and!; [lia|by eapply nsteps_l|done|done|done].
Qed.

(** Nothing in the registry gets stuck. The release of a loop can always take
    its next action, and so can every call that has not returned, except a shutdown
    that waits; and a waiting shutdown returns true once the loops are released, by
    at most five actions for each. *)
Theorem registry_progress good_id max s :
  rtc (step good_id) (start max) s →
  (∀ l x, heap (reg s) !! l = Some x → release_pc x ≠ Released → is_Some (release_step l (reg s))) ∧
  (∀ c id, c ∈ calls s → returned c = false → c ≠ ShutdownWait →
     ∃ env, new_id env = id ∧ is_Some (call_step env (reg s) c)) ∧
  (∀ id, (∀ r, good_id r id) → ShutdownWait ∈ calls s →
     ∃ k s', (k ≤ 5 * length (heap (reg s)) + 1)%nat ∧ nsteps (step good_id) k s s' ∧
             ShutdownReturned true ∈ calls s').
Proof.
  intros Hr. pose proof (inv_reachable _ _ _ Hr) as Hi. split_and!.
  - intros l x Hx Hp. destruct (release_enabled s l x Hi Hx Hp) as (r' & -> & _). done.
  - intros c id Hc Hret Hw.
    exists {| new_id := id; now := 0; live_order := (map_to_list (loops (reg s))).*2; expired := false |}.
    split; [done|].
    destruct c as [w|w|w| |res| |[|k live]| | |sid|k|]; simpl in *; try done; try (case_match; done).
    + destruct (Z.ltb_spec 0 (sem (reg s))); [done|].
      apply list_elem_of_split in Hc as (l1 & l2 & Hc). pose proof (inv_sem _ Hi) as Hsem.
      rewrite Hc, countb_middle in Hsem. simpl in Hsem. lia.
    + rewrite bool_decide_eq_true_2; done.
  - intros id Hg Hw. pose proof (releases_left_bound (heap (reg s))) as Hb.
    destruct (drain good_id _ s Hi Hb) as (k & [r' cs] & Hk & Hsteps & Hcs & H0 & _). simpl in *. subst cs.
    apply list_elem_of_split in Hw as (l1 & l2 & Hc). rewrite Hc in Hsteps.
    exists (S k), {| reg := r'; calls := l1 ++ ShutdownReturned true :: l2 |}. split_and!.
    + lia.
    + eapply nsteps_r; [exact Hsteps|].
      apply (step_call _ {| new_id := id; now := 0; live_order := []; expired := false |}); [apply Hg|].
      simpl. by rewrite H0.
    + simpl. rewrite elem_of_app. right. left.
Qed.

(** ** Concrete runs *)

Inductive Action := Begin (c : Call) | Act (i : nat) (env : Env) | Release (l : nat).

Definition act (s : System) (a : Action) : option System :=
  match a with
  | Begin c => if first_action c then Some {| reg := reg s; calls := c :: calls s |} else None
  | Act i env =>
      c ← calls s !! i; rc ← call_step env (reg s) c;
      Some {| reg := rc.1; calls := take i (calls s) ++ rc.2 :: drop (S i) (calls s) |}
  | Release l => r ← release_step l (reg s); Some {| reg := r; calls := calls s |}
  end.
Definition acts (s : System) (l : list Action) : option System := foldl (λ s a, s ← s; act s a) (Some s) l.

Lemma act_step s a s' : act s a = Some s' → step (λ _ _, True) s s'.
Proof.
  destruct s as [r cs], a as [c|i env|l]; simpl; intros H.
  - destruct (first_action c) eqn:Hf; simplify_eq. by apply step_begin.
  - apply bind_Some in H as (c & Hc & [[r' c'] [Hst [= <-]]]%bind_Some). simpl.
    rewrite <-(take_drop_middle cs i c Hc) at 1. by apply (step_call _ env).
  - apply bind_Some in H as (r' & Hr & [= <-]). by apply (step_release _ l).
Qed.

Lemma acts_none l : foldl (λ s a, s ← s; act s a) None l = None.
Proof. by induction l. Qed.

Lemma acts_steps l s s' : acts s l = Some s' → rtc (step (λ _ _, True)) s s'.
Proof.
  revert s. induction l as [|a l IH]; intros s; [by intros [= ->]|].
  unfold acts. simpl. destruct (act s a) as [s1|] eqn:E; [|by rewrite acts_none].
  intros H. eapply rtc_l; [by eapply act_step|by apply IH].
Qed.

Definition ex_env (id : string) (order : list nat) : Env :=
  {| new_id := id; now := 7; live_order := order; expired := false |}.

(** One loop is registered, a second call finds the cap of one reached, and a
    shutdown has cancelled the loop and waits. *)
Definition ex_waiting_acts : list Action :=
  [Begin (RegisterCheck "/p"); Act 0 (ex_env "" []); Act 0 (ex_env "" []); Act 0 (ex_env "a" []);
   Begin (RegisterCheck "/q"); Act 0 (ex_env "" []); Act 0 (ex_env "" []);
   Begin ShutdownFlag; Act 0 (ex_env "" [0%nat]); Act 0 (ex_env "" []); Act 0 (ex_env "" [])].
Definition ex_waiting : System := default (start 0) (acts (start 0) ex_waiting_acts).
(** The loop has been released and the shutdown has returned. *)
Definition ex_drained_acts : list Action :=
  ex_waiting_acts ++ [Release 0; Release 0; Release 0; Release 0; Release 0; Act 0 (ex_env "" [])].
Definition ex_drained : System := default (start 0) (acts (start 0) ex_drained_acts).

Lemma ex_waiting_reachable : rtc (step (λ _ _, True)) (start 0) ex_waiting.
Proof. apply (acts_steps ex_waiting_acts). vm_compute. reflexivity. Qed.

Lemma loop_registry_refines_witness :
  calls ex_waiting = [ShutdownWait; Registered (Err ErrTooManyLoops); Registered (Ok 0%nat)] ∧
  Z.of_nat (size (running (slots ex_waiting))) ≤ 1.
Proof.
  split; [vm_compute; reflexivity|].
  destruct (loop_registry_refines (λ _ _, True) 0 ex_waiting ex_waiting_reachable) as (_ & H & _). exact H.
Defined.

Lemma shutdown_drains_witness :
  calls ex_drained = [ShutdownReturned true; Registered (Err ErrTooManyLoops); Registered (Ok 0%nat)] ∧
  loops (reg ex_drained) = ∅.
Proof.
  assert (Hr : rtc (step (λ _ _, True)) (start 0) ex_drained).
  { apply (acts_steps ex_drained_acts). vm_compute. reflexivity. }
  split; [vm_compute; reflexivity|].
  destruct (shutdown_drains (λ _ _, True) 0 ex_drained ex_drained Hr) as (_ & _ & H & _).
  - vm_compute. reflexivity.
  - constructor.
  - apply H. vm_compute. left.
Defined.

Lemma registry_progress_witness :
  ∃ k s', (k ≤ 6)%nat ∧ nsteps (step (λ _ _, True)) k ex_waiting s' ∧ ShutdownReturned true ∈ calls s'.
Proof.
  destruct (registry_progress (λ _ _, True) 0 ex_waiting ex_waiting_reachable) as (_ & _ & H).
  apply (H ""); [done|]. vm_compute. left.
Defined.

(** Why ids must not repeat: a second loop under the same id hides the first, which
    then runs on, unlisted and out of reach of [Cancel] and [Shutdown]. *)
Theorem reused_id_hides_loop :
  ∃ s, acts (start 2)
    [Begin (RegisterCheck "/p"); Act 0 (ex_env "" []); Act 0 (ex_env "" []); Act 0 (ex_env "a" []);
     Begin (RegisterCheck "/q"); Act 0 (ex_env "" []); Act 0 (ex_env "" []); Act 0 (ex_env "a" []);
     Release 1; Release 1] = Some s ∧
  Count (reg s) = 0 ∧ release_pc <$> heap (reg s) !! 0%nat = Some Unreleased ∧
  cancelled <$> heap (reg s) !! 0%nat = Some false.
Proof. eexists. split; [vm_compute; reflexivity|]. split_and!; vm_compute; reflexivity. Qed.
