(* ===== verification/Digest.v ===== *)
(** * The digests of [crypto/sha256], [encoding/hex] and [unicode/utf8]

    The code names content by the hexadecimal SHA-256 digest of its bytes, and bounds
    and validates text as UTF-8.  These functions are small enough to be defined and
    run: the examples at the end are the published test vectors. *)

From S2P Require Export GoLib.

Local Open Scope Z_scope.

(** ** SHA-256 *)

Definition word (z : Z) : Z := z mod 2 ^ 32.
Definition rotate (n x : Z) : Z :=
  Z.lor (Z.shiftr x n) (word (Z.shiftl x (32 - n))).
Definition xor3 (x y z : Z) : Z := Z.lxor (Z.lxor x y) z.

Record Digest := { da : Z; db : Z; dc : Z; dd : Z; de : Z; df : Z; dg : Z; dh : Z }.

(** The leading fractional bits of the square roots of the first eight primes. *)
Definition initial_digest : Digest :=
  {| da := 1779033703; db := 3144134277; dc := 1013904242; dd := 2773480762;
     de := 1359893119; df := 2600822924; dg := 528734635; dh := 1541459225 |}.

(** The leading fractional bits of the cube roots of the first sixty-four primes. *)
Definition round_constants : list Z :=
  [1116352408; 1899447441; 3049323471; 3921009573; 961987163; 1508970993;
   2453635748; 2870763221; 3624381080; 310598401; 607225278; 1426881987;
   1925078388; 2162078206; 2614888103; 3248222580; 3835390401; 4022224774;
   264347078; 604807628; 770255983; 1249150122; 1555081692; 1996064986;
   2554220882; 2821834349; 2952996808; 3210313671; 3336571891; 3584528711;
   113926993; 338241895; 666307205; 773529912; 1294757372; 1396182291;
   1695183700; 1986661051; 2177026350; 2456956037; 2730485921; 2820302411;
   3259730800; 3345764771; 3516065817; 3600352804; 4094571909; 275423344;
   430227734; 506948616; 659060556; 883997877; 958139571; 1322822218;
   1537002063; 1747873779; 1955562222; 2024104815; 2227730452; 2361852424;
   2428436474; 2756734187; 3204031479; 3329325298].

(** One round, for a word of the schedule and its constant. *)
Definition round (d : Digest) (wk : Z * Z) : Digest :=
  let s1 := xor3 (rotate 6 (de d)) (rotate 11 (de d)) (rotate 25 (de d)) in
  let ch := Z.lxor (Z.land (de d) (df d)) (Z.land (word (Z.lnot (de d))) (dg d)) in
  let t1 := dh d + s1 + ch + wk.2 + wk.1 in
  let s0 := xor3 (rotate 2 (da d)) (rotate 13 (da d)) (rotate 22 (da d)) in
  let maj := xor3 (Z.land (da d) (db d)) (Z.land (da d) (dc d)) (Z.land (db d) (dc d)) in
  {| da := word (t1 + s0 + maj); db := da d; dc := db d; dd := dc d;
     de := word (dd d + t1); df := de d; dg := df d; dh := dg d |}.

(** The message schedule, last word first: [n] words more than those of the block. *)
Fixpoint schedule (n : nat) (ws : list Z) : list Z :=
  match n with
  | O => ws
  | S n' =>
      let w15 := nth 14 ws 0 in
      let w2 := nth 1 ws 0 in
      let s0 := xor3 (rotate 7 w15) (rotate 18 w15) (Z.shiftr w15 3) in
      let s1 := xor3 (rotate 17 w2) (rotate 19 w2) (Z.shiftr w2 10) in
      schedule n' (word (nth 15 ws 0 + s0 + nth 6 ws 0 + s1) :: ws)
  end.

Definition add_digest (x y : Digest) : Digest :=
  {| da := word (da x + da y); db := word (db x + db y); dc := word (dc x + dc y);
     dd := word (dd x + dd y); de := word (de x + de y); df := word (df x + df y);
     dg := word (dg x + dg y); dh := word (dh x + dh y) |}.

(** One block of sixteen words. *)
Definition block (d : Digest) (ws : list Z) : Digest :=
  add_digest d (fold_left round (zip (rev (schedule 48 (rev ws))) round_constants) d).

Definition bytes_of (s : string) : list Z :=
  map (λ c, Z.of_nat (nat_of_ascii c)) (String.list_ascii_of_string s).

(** The [n] low bytes of [z], high byte first. *)
Fixpoint big_endian (n : nat) (z : Z) : list Z :=
  match n with
  | O => []
  | S n' => Z.land (Z.shiftr z (8 * Z.of_nat n')) 255 :: big_endian n' z
  end.

Definition padded (bs : list Z) : list Z :=
  let n := Z.of_nat (length bs) in
  bs ++ 128 :: repeat 0 (Z.to_nat ((55 - n) mod 64)) ++ big_endian 8 (8 * n).

Fixpoint words (bs : list Z) : list Z :=
  match bs with
  | a :: b :: c :: d :: bs' => (Z.shiftl a 24 + Z.shiftl b 16 + Z.shiftl c 8 + d) :: words bs'
  | _ => []
  end.

(** The padded message is a whole number of blocks; each takes sixteen words. *)
Fixpoint blocks (fuel : nat) (d : Digest) (ws : list Z) : Digest :=
  match fuel, ws with
  | O, _ | _, [] => d
  | S fuel', _ => blocks fuel' (block d (take 16 ws)) (drop 16 ws)
  end.

(** [sha256.Sum256]. *)
Definition Sum256 (s : string) : list Z :=
  let ws := words (padded (bytes_of s)) in
  let d := blocks (length ws) initial_digest ws in
  flat_map (big_endian 4) [da d; db d; dc d; dd d; de d; df d; dg d; dh d].

(** ** Hexadecimal *)

Definition hex_digit (n : Z) : ascii :=
  ascii_of_nat (Z.to_nat (if n <? 10 then 48 + n else 87 + n)).

(** [hex.EncodeToString]. *)
Fixpoint EncodeToString (bs : list Z) : string :=
  match bs with
  | [] => ""
  | b :: bs' => String (hex_digit (Z.shiftr b 4)) (String (hex_digit (Z.land b 15)) (EncodeToString bs'))
  end.

(** [validLowerSHA256(value, prefix)] below accepts such a text. *)
Definition sha256_hex (s : string) : string := EncodeToString (Sum256 s).
#[global] Arguments sha256_hex : simpl never.

(** ** UTF-8 *)

Definition byte_in (lo hi : Z) (b : Z) : bool := (lo <=? b) && (b <=? hi).

(** The runes [unicode/utf8] decodes: no surrogates, no overlong forms, at most
    U+10FFFF. *)
Definition decode_rune (bs : list Z) : option (Z * list Z) :=
  let cont := byte_in 128 191 in
  match bs with
  | a :: bs1 =>
      if a <? 128 then Some (a, bs1)
      else match bs1 with
      | b :: bs2 =>
          if byte_in 194 223 a && cont b then Some (Z.shiftl (a - 192) 6 + (b - 128), bs2)
          else match bs2 with
          | c :: bs3 =>
              if byte_in 224 239 a && cont b && cont c &&
                 (negb (a =? 224) || byte_in 160 191 b) && (negb (a =? 237) || byte_in 128 159 b)
              then Some (Z.shiftl (a - 224) 12 + Z.shiftl (b - 128) 6 + (c - 128), bs3)
              else match bs3 with
              | d :: bs4 =>
                  if byte_in 240 244 a && cont b && cont c && cont d &&
                     (negb (a =? 240) || byte_in 144 191 b) && (negb (a =? 244) || byte_in 128 143 b)
                  then Some (Z.shiftl (a - 240) 18 + Z.shiftl (b - 128) 12 + Z.shiftl (c - 128) 6 + (d - 128), bs4)
                  else None
              | [] => None
              end
          | [] => None
          end
      | [] => None
      end
  | [] => None
  end.

(** The runes of a text, or [None] when it is not valid UTF-8. *)
Fixpoint runes_fuel (fuel : nat) (bs : list Z) : option (list Z) :=
  match fuel, bs with
  | _, [] => Some []
  | O, _ => None
  | S fuel', _ =>
      r ← decode_rune bs;
      rest ← runes_fuel fuel' r.2;
      Some (r.1 :: rest)
  end.
Definition runes_of (s : string) : option (list Z) := runes_fuel (strlen s) (bytes_of s).

(** [utf8.ValidString]. *)
Definition ValidString (s : string) : bool := bool_decide (is_Some (runes_of s)).

(** The longest valid prefix of at most [n] bytes. *)
Fixpoint valid_prefix (n : nat) (value : string) : string :=
  match n with
  | O => ""
  | S n' => if ValidString (str_take n value) then str_take n value else valid_prefix n' value
  end.

(** [unicode.IsControl]. *)
Definition IsControl (r : Z) : bool := byte_in 0 31 r || byte_in 127 159 r.

(** ** Digests as text *)

Definition lower_hex (c : ascii) : bool :=
  let n := nat_of_ascii c in (((48 <=? n) && (n <=? 57)) || ((97 <=? n) && (n <=? 102)))%nat.
(** The visible ASCII characters. *)
Definition graph (c : ascii) : bool :=
  let n := nat_of_ascii c in ((33 <=? n) && (n <=? 126))%nat.

Fixpoint str_all (p : ascii → bool) (s : string) : bool :=
  match s with
  | "" => true
  | String c s' => p c && str_all p s'
  end%string.

Lemma str_all_app p s1 s2 : str_all p (s1 +:+ s2)%string = str_all p s1 && str_all p s2.
Proof. induction s1 as [|c s1 IH]; simpl; [done|]. by rewrite IH, andb_assoc. Qed.

Lemma str_all_rev p s : str_all p (String.rev s) = str_all p s.
Proof.
  induction s as [|c s IH]; [done|]. rewrite str_rev_cons, str_all_app, IH. simpl.
  by rewrite andb_true_r, andb_comm.
Qed.

Lemma str_all_impl (p q : ascii → bool) s :
  (∀ c, p c = true → q c = true) → str_all p s = true → str_all q s = true.
Proof.
  intros Hpq. induction s as [|c s IH]; simpl; [done|]. intros [Hc Hs]%andb_prop.
  by rewrite Hpq, IH.
Qed.

Lemma str_all_existsb p s : str_existsb (λ c, negb (p c)) s = negb (str_all p s).
Proof. induction s as [|c s IH]; simpl; [done|]. by rewrite IH, negb_andb. Qed.

Lemma lower_hex_graph c : lower_hex c = true → graph c = true.
Proof. unfold lower_hex, graph. rewrite orb_true_iff, !andb_true_iff, !Nat.leb_le. lia. Qed.

Lemma lower_hex_is_hex c : lower_hex c = true → is_hex_digit c = true.
Proof. unfold lower_hex, is_hex_digit. intros ->. done. Qed.

Lemma byte_in_spec lo hi b : byte_in lo hi b = true ↔ lo ≤ b ≤ hi.
Proof. unfold byte_in. rewrite andb_true_iff, !Z.leb_le. done. Qed.

Lemma length_big_endian n z : length (big_endian n z) = n.
Proof. induction n; simpl; auto. Qed.

Lemma big_endian_bytes n z : Forall (λ b, 0 ≤ b < 256) (big_endian n z).
Proof.
  induction n as [|n IH]; simpl; constructor; [|done].
  change 255 with (Z.ones 8). rewrite Z.land_ones by lia. apply Z.mod_pos_bound. lia.
Qed.

Lemma Sum256_bytes s : length (Sum256 s) = 32%nat ∧ Forall (λ b, 0 ≤ b < 256) (Sum256 s).
Proof.
  unfold Sum256. set (d := blocks _ _ _). clearbody d. cbn [flat_map]. split.
  - rewrite !length_app, !length_big_endian. done.
  - repeat (apply Forall_app; split; [apply big_endian_bytes|]). constructor.
Qed.

Lemma hex_digit_lower n : 0 ≤ n < 16 → lower_hex (hex_digit n) = true.
Proof.
  intros Hn. assert (∃ k, (k < 16)%nat ∧ n = Z.of_nat k) as (k & Hk & ->) by (exists (Z.to_nat n); lia).
  do 16 (destruct k as [|k]; [vm_compute; done|]). lia.
Qed.

Lemma EncodeToString_lower bs :
  Forall (λ b, 0 ≤ b < 256) bs →
  str_all lower_hex (EncodeToString bs) = true ∧ strlen (EncodeToString bs) = (2 * length bs)%nat.
Proof.
  induction 1 as [|b bs Hb _ [IH1 IH2]]; [done|]. cbn [EncodeToString str_all String.length length].
  rewrite IH1, IH2, !hex_digit_lower; [split; [done|lia]| |].
  - change 15 with (Z.ones 4). rewrite Z.land_ones by lia. apply Z.mod_pos_bound. lia.
  - rewrite Z.shiftr_div_pow2 by lia. split; [apply Z.div_pos; lia|apply Z.div_lt_upper_bound; lia].
Qed.

Lemma sha256_hex_lower s : str_all lower_hex (sha256_hex s) = true ∧ strlen (sha256_hex s) = 64%nat.
Proof.
  destruct (Sum256_bytes s) as [Hl Hb]. destruct (EncodeToString_lower _ Hb) as [H1 H2].
  split; [exact H1|]. unfold sha256_hex. rewrite H2, Hl. done.
Qed.

(** Visible ASCII text is valid, has no control characters and nothing to trim. *)
Lemma runes_of_graph s : str_all graph s = true → runes_of s = Some (bytes_of s).
Proof.
  unfold runes_of, bytes_of. induction s as [|c s IH]; [done|]. simpl. intros [Hc Hs]%andb_prop.
  unfold graph in Hc. rewrite andb_true_iff, !Nat.leb_le in Hc.
  destruct (Z.ltb_spec (Z.of_nat (nat_of_ascii c)) 128); [|lia]. simpl. by rewrite IH.
Qed.

Lemma ValidString_graph s : str_all graph s = true → ValidString s = true.
Proof. intros H. unfold ValidString. rewrite (runes_of_graph s H). done. Qed.

Lemma no_control_graph s : str_all graph s = true → existsb IsControl (bytes_of s) = false.
Proof.
  induction s as [|c s IH]; [done|]. cbn [str_all]. intros [Hc Hs]%andb_prop.
  unfold bytes_of in *. cbn [String.list_ascii_of_string map existsb]. rewrite (IH Hs), orb_false_r.
  unfold graph in Hc. rewrite andb_true_iff, !Nat.leb_le in Hc.
  unfold IsControl, byte_in. apply orb_false_iff. rewrite !andb_false_iff, !Z.leb_gt. lia.
Qed.

Definition starts_outside (r : string) : bool :=
  match r with String d _ => negb (graph d) | "" => false end%string.

Lemma graph_unstrippable runes c s :
  forallb starts_outside runes = true → graph c = true → unstrippable runes (String c s).
Proof.
  intros Hr Hc. apply unstrippable_spec. intros r Hin. rewrite forallb_elem in Hr. specialize (Hr r Hin).
  destruct r as [|d r]; [done|]. simpl in *. destruct (ascii_dec d c) as [->|]; [|done]. by rewrite Hc in Hr.
Qed.

Lemma graph_trimmed s : str_all graph s = true → trim_space s = s.
Proof.
  assert (Hun : ∀ runes s, forallb starts_outside runes = true → str_all graph s = true → unstrippable runes s).
  { intros runes [|c s'] Hr Ha.
    - apply unstrippable_spec. intros r Hin. rewrite forallb_elem in Hr. specialize (Hr r Hin). by destruct r.
    - simpl in Ha. apply andb_prop in Ha as [Hc _]. by apply graph_unstrippable. }
  intros Hs. apply trim_space_id. split; apply Hun; [by vm_compute|done|by vm_compute|by rewrite str_all_rev].
Qed.

Definition lower_graph (c : ascii) : bool :=
  graph c && negb ((65 <=? nat_of_ascii c) && (nat_of_ascii c <=? 90))%nat.

Lemma to_lower_cons c s : graph c = true → to_lower (String c s) = String (ascii_lower c) (to_lower s).
Proof. destruct c as [[] [] [] [] [] [] [] []]; (discriminate || reflexivity). Qed.

Lemma to_lower_lower s : str_all lower_graph s = true → to_lower s = s.
Proof.
  induction s as [|c s IH]; [done|]. cbn [str_all]. intros [[Hg Hl]%andb_prop Hs]%andb_prop.
  rewrite to_lower_cons, (IH Hs) by done. unfold ascii_lower.
  destruct ((65 <=? nat_of_ascii c)%nat && (nat_of_ascii c <=? 90)%nat); done.
Qed.

Lemma lower_hex_lower_graph c : lower_hex c = true → lower_graph c = true.
Proof.
  intros H. unfold lower_graph. rewrite (lower_hex_graph c H). unfold lower_hex in H.
  rewrite orb_true_iff, !andb_true_iff, !Nat.leb_le in H. apply negb_true_iff, andb_false_iff.
  rewrite !Nat.leb_gt. lia.
Qed.

(** The published test vectors. *)
Example sha256_abc :
  sha256_hex "abc" = "ba7816bf8f01cfea414140de5dae2223b00361a396177a9cb410ff61f20015ad"%string.
Proof. vm_compute. reflexivity. Qed.
Example sha256_two_blocks :
  sha256_hex "abcdbcdecdefdefgefghfghighijhijkijkljklmklmnlmnomnopnopq" =
  "248d6a61d20638b8e5c026930c3e6039a33ce45964ff2167f6ecedd419db06c1"%string.
Proof. vm_compute. reflexivity. Qed.
