(* ===== verification/Edits.v ===== *)
(** * Edits of a file's text: internal/agent/edit_policy.go, fuzzy.go

    What the Edit tool computes before anything is written: exact and fuzzy
    replacement, and the application of a unified patch.  Everything here is a pure
    function of the file's content and the tool's arguments.  The engine of
    [regexp], which a regex edit uses, is the argument [compile]; the header of a
    hunk, which the code matches with a regular expression, is parsed by hand.  The
    hints for a failed edit ([closestLinesHint]) and the tool's JSON schemas are not
    modelled; the errors a function formats are constructors of [EditError]. *)

From S2P Require Export GoLib.

Local Open Scope string_scope.
Local Open Scope list_scope.
Local Open Scope Z_scope.

(** ** Data *)

Definition EditCorelayWaterfall : string := "corelay-waterfall".
Definition EditPatchFirst : string := "patch-first".
Definition EditExact : string := "exact".
Definition EditWholeFile : string := "whole-file".

Definition maxUnifiedPatchBytes : Z := 256 * 1024.
Definition maxUnifiedPatchHunks : Z := 128.

Record editPolicyInput := {
  EiFilePath : string;
  EiOldString : string;
  EiNewString : string;
  EiReplaceAll : bool;
  EiRegex : bool;
  EiPatch : string;
  EiContent : string;
}.

Inductive EditError :=
| RegexDisabled | InvalidRegex | RegexNotFound | OldStringEmpty | OldStringNotFound | UnsupportedPolicy (p : string)
| PatchEmpty | PatchTooLarge | PatchNul | UnexpectedPatchLine | InvalidHunkHeader | InvalidHunkRange | InvalidHunkBody
| TooManyHunks | NoHunks | HunkOutside | HunkNewRange | HunkContext | HunkRemoval | HunkCount
| PatchFailed (e : EditError) | FallbackFailed (patch fallback : EditError).

Definition normalizeEditPolicy (policy : string) : string :=
  if String.eqb policy "" then EditCorelayWaterfall else policy.

(** ** Strings *)

(** [strings.Replace(s, old, new, 1)] for an [old] that is not empty. *)
Fixpoint replace_first (s old new : string) : string :=
  match s with
  | "" => ""
  | String c s' =>
      if has_prefix s old then new +:+ str_drop (strlen old) s else String c (replace_first s' old new)
  end.

(** [strings.ReplaceAll] and [strings.Count] for an [old] that is not empty; [skip]
    bytes belong to an occurrence already found. *)
Fixpoint replace_all (skip : nat) (s old new : string) : string :=
  match s with
  | "" => ""
  | String c s' =>
      match skip with
      | S k => replace_all k s' old new
      | O => if has_prefix s old then new +:+ replace_all (strlen old - 1) s' old new
             else String c (replace_all 0 s' old new)
      end
  end.
Fixpoint count_occurrences (skip : nat) (s old : string) : Z :=
  match s with
  | "" => 0
  | String _ s' =>
      match skip with
      | S k => count_occurrences k s' old
      | O => if has_prefix s old then 1 + count_occurrences (strlen old - 1) s' old
             else count_occurrences 0 s' old
      end
  end.

Definition lf : ascii := "010".
Definition cr : ascii := "013".
Definition nl : string := String lf "".
Definition crlf : string := String cr nl.
Definition split_lines (s : string) : list string := split_on lf s.

(** ** Fuzzy replacement *)

Definition window_matches (oldTrim lines : list string) : bool :=
  (length oldTrim <=? length lines)%nat &&
  forallb (λ p, String.eqb (trim_space p.1) p.2) (zip lines oldTrim).

(** The first line a window of trimmed lines matches at. *)
Fixpoint fuzzy_start (oldTrim lines : list string) : option nat :=
  if window_matches oldTrim lines then Some 0%nat
  else match lines with
       | [] => None
       | _ :: lines' => S <$> fuzzy_start oldTrim lines'
       end.

Definition fuzzyReplace (content old newStr : string) : option string :=
  let contentLines := split_lines content in
  let oldLines := split_lines (trim_set old nl) in
  let n := length oldLines in
  if (n =? 0)%nat || String.eqb old "" then None
  else match fuzzy_start (map trim_space oldLines) contentLines with
       | None => None
       | Some start =>
           Some (str_join nl (take start contentLines ++ split_lines newStr ++ drop (start + n) contentLines))
       end.

(** ** String edits *)

(** What [regexp] gives for a compiled expression. *)
Record Regexp := {
  re_find_all : string → list (nat * nat);
  re_replace_all : string → string → string;
}.

Section regexp.
Context (compile : string → option Regexp).

Definition applyStringEdit (content : string) (args : editPolicyInput) (allowFuzzy allowRegex : bool)
    : result EditError (string * Z) :=
  if EiRegex args then
    if negb allowRegex then Err RegexDisabled
    else match compile (EiOldString args) with
    | None => Err InvalidRegex
    | Some re =>
        match re_find_all re content with
        | [] => Err RegexNotFound
        | (lo, hi) :: _ as matches =>
            if EiReplaceAll args
            then Ok (re_replace_all re content (EiNewString args), Z.of_nat (length matches))
            else Ok (str_take lo content +:+
                     re_replace_all re (str_take (hi - lo) (str_drop lo content)) (EiNewString args) +:+
                     str_drop hi content, 1)
        end
    end
  else if String.eqb (EiOldString args) "" then Err OldStringEmpty
  else if contains content (EiOldString args) then
    if EiReplaceAll args
    then Ok (replace_all 0 content (EiOldString args) (EiNewString args),
             count_occurrences 0 content (EiOldString args))
    else Ok (replace_first content (EiOldString args) (EiNewString args), 1)
  else match (if allowFuzzy then fuzzyReplace content (EiOldString args) (EiNewString args) else None) with
       | Some res => Ok (res, 1)
       | None => Err OldStringNotFound
       end.

(** ** Unified patches *)

Record unifiedPatchHunk := {
  oldStart : Z;
  oldCount : Z;
  newStart : Z;
  newCount : Z;
  h_lines : list string;
}.

Definition is_digit (c : ascii) : bool := bool_decide (is_Some (digit_val c)).

(** The longest run of digits, and the rest. *)
Fixpoint span_digits (s : string) : string * string :=
  match s with
  | String c s' => if is_digit c then prod_map (String c) id (span_digits s') else ("", s)
  | "" => ("", "")
  end.

(** [strconv.Atoi] of a run of digits with its range error ignored. *)
Definition atoi_digits (s : string) : Z := default max_int64 (atoi s).

(** [\d+(?:,(\d+))?]: the start, and the count, which defaults to 1. *)
Definition hunk_range (s : string) : option (Z * Z * string) :=
  let (digits, rest) := span_digits s in
  if String.eqb digits "" then None
  else match rest with
  | String "," rest' =>
      let (digits', rest'') := span_digits rest' in
      if String.eqb digits' "" then None
      else Some (atoi_digits digits, atoi_digits digits', rest'')
  | _ => Some (atoi_digits digits, 1, rest)
  end.

(** [unifiedHunkHeader]. *)
Definition hunk_header (line : string) : option unifiedPatchHunk :=
  if negb (has_prefix line "@@ -") then None
  else match hunk_range (str_drop 4 line) with
  | None => None
  | Some (oldStart, oldCount, rest) =>
      if negb (has_prefix rest " +") then None
      else match hunk_range (str_drop 2 rest) with
      | None => None
      | Some (newStart, newCount, rest') =>
          if String.eqb rest' " @@" || has_prefix rest' " @@ "
          then Some {| oldStart := oldStart; oldCount := oldCount; newStart := newStart;
                       newCount := newCount; h_lines := [] |}
          else None
      end
  end.

Definition valid_range (h : unifiedPatchHunk) : bool :=
  negb ((oldStart h <? 0) || (oldCount h <? 0) || (newStart h <? 0) || (newCount h <? 0) ||
        ((oldStart h =? 0) && negb (oldCount h =? 0)) || ((newStart h =? 0) && negb (newCount h =? 0))).

Definition with_line (line : string) (h : unifiedPatchHunk) : unifiedPatchHunk :=
  {| oldStart := oldStart h; oldCount := oldCount h; newStart := newStart h; newCount := newCount h;
     h_lines := h_lines h ++ [line] |}.

Definition body_line (line : string) : bool :=
  match line with
  | String c _ => Ascii.eqb c " " || Ascii.eqb c "-" || Ascii.eqb c "+"
  | "" => false
  end.

Definition close_hunk (hunks : list unifiedPatchHunk) (h : unifiedPatchHunk)
    : result EditError (list unifiedPatchHunk) :=
  let hunks := hunks ++ [h] in
  if maxUnifiedPatchHunks <? Z.of_nat (length hunks) then Err TooManyHunks else Ok hunks.

Definition start_hunk (line : string) : result EditError unifiedPatchHunk :=
  match hunk_header line with
  | None => Err InvalidHunkHeader
  | Some h => if valid_range h then Ok h else Err InvalidHunkRange
  end.

(** The loops over the lines of the patch: [current] is the hunk being read, and a
    hunk once begun ends where the next one begins. *)
Fixpoint parse_patch (lines : list string) (current : option unifiedPatchHunk) (hunks : list unifiedPatchHunk)
    : result EditError (list unifiedPatchHunk) :=
  match lines, current with
  | [], None => Ok hunks
  | [], Some h => close_hunk hunks h
  | line :: lines', None =>
      if has_prefix line "@@ " then
        h ← start_hunk line;
        parse_patch lines' (Some h) hunks
      else if has_prefix line "--- " || has_prefix line "+++ " || has_prefix line "diff " ||
              has_prefix line "index " || String.eqb line ""
      then parse_patch lines' None hunks
      else Err UnexpectedPatchLine
  | line :: lines', Some h =>
      if has_prefix line "@@ " then
        hunks ← close_hunk hunks h;
        h' ← start_hunk line;
        parse_patch lines' (Some h') hunks
      else if String.eqb line "" && (length lines' =? 0)%nat then parse_patch lines' (Some h) hunks
      else if has_prefix line "\ No newline at end of file" then parse_patch lines' (Some h) hunks
      else if negb (body_line line) then Err InvalidHunkBody
      else parse_patch lines' (Some (with_line line h)) hunks
  end.

(** What the application of a hunk's lines counts. *)
Record Progress := {
  sourceIndex : nat;
  output : list string;
  consumed : Z;
  produced : Z;
  changes : Z;
}.

(** [sourceIndex < len(source) && source[sourceIndex] == value]. *)
Definition matches_at (source : list string) (i : nat) (value : string) : bool :=
  match source !! i with Some l => String.eqb l value | None => false end.

Definition apply_line (source : list string) (line : string) (p : Progress) : result EditError Progress :=
  match line with
  | "" => Ok p
  | String c value =>
      let matches := matches_at source (sourceIndex p) value in
      if Ascii.eqb c " " then
        if negb matches then Err HunkContext
        else Ok {| sourceIndex := S (sourceIndex p); output := output p ++ [value];
                   consumed := consumed p + 1; produced := produced p + 1; changes := changes p |}
      else if Ascii.eqb c "-" then
        if negb matches then Err HunkRemoval
        else Ok {| sourceIndex := S (sourceIndex p); output := output p;
                   consumed := consumed p + 1; produced := produced p; changes := changes p + 1 |}
      else if Ascii.eqb c "+" then
        Ok {| sourceIndex := sourceIndex p; output := output p ++ [value];
              consumed := consumed p; produced := produced p + 1; changes := changes p + 1 |}
      else Ok p
  end.

Fixpoint apply_lines (source : list string) (lines : list string) (p : Progress) : result EditError Progress :=
  match lines with
  | [] => Ok p
  | line :: lines' => p ← apply_line source line p; apply_lines source lines' p
  end.

(** The index a one-based start names; a start of 0 is that of an empty range. *)
Definition range_index (start : Z) : Z := if start =? 0 then 0 else start - 1.

Definition apply_hunk (source : list string) (h : unifiedPatchHunk) (p : Progress) : result EditError Progress :=
  let target := range_index (oldStart h) in
  if (target <? Z.of_nat (sourceIndex p)) || (Z.of_nat (length source) <? target) then Err HunkOutside
  else
    let out := output p ++ take (Z.to_nat target - sourceIndex p) (drop (sourceIndex p) source) in
    if negb (range_index (newStart h) =? Z.of_nat (length out)) then Err HunkNewRange
    else
      p' ← apply_lines source (h_lines h)
             {| sourceIndex := Z.to_nat target; output := out; consumed := 0; produced := 0; changes := changes p |};
      if negb (consumed p' =? oldCount h) || negb (produced p' =? newCount h) then Err HunkCount
      else Ok p'.

Fixpoint apply_hunks (source : list string) (hunks : list unifiedPatchHunk) (p : Progress)
    : result EditError Progress :=
  match hunks with
  | [] => Ok p
  | h :: hunks' => p ← apply_hunk source h p; apply_hunks source hunks' p
  end.

(** The patched lines, and the number of lines added or removed. *)
Definition patch_lines (source : list string) (hunks : list unifiedPatchHunk) : result EditError (list string * Z) :=
  p ← apply_hunks source hunks {| sourceIndex := 0; output := []; consumed := 0; produced := 0; changes := 0 |};
  Ok (output p ++ drop (sourceIndex p) source, changes p).

Definition has_nul (s : string) : bool := str_elem "000" s.

Definition patch_text_lines (patch : string) : list string :=
  let patch := replace_all 0 patch crlf nl in
  let patch := replace_all 0 patch (String cr "") nl in
  split_lines patch.

Definition line_ending (content : string) : string := if contains content crlf then crlf else nl.

Definition source_lines (content : string) : list string :=
  let normalizedContent := replace_all 0 content crlf nl in
  if String.eqb content "" then [] else split_lines (trim_suffix normalizedContent nl).

Definition applyUnifiedPatch (content patch : string) : result EditError (string * Z) :=
  if String.eqb (trim_space patch) "" then Err PatchEmpty
  else if maxUnifiedPatchBytes <? slen patch then Err PatchTooLarge
  else if has_nul patch then Err PatchNul
  else
    hunks ← parse_patch (patch_text_lines patch) None [];
    if (length hunks =? 0)%nat then Err NoHunks
    else
      let finalNewline := has_suffix content nl in
      r ← patch_lines (source_lines content) hunks;
      Ok (str_join (line_ending content) r.1 +:+ (if finalNewline then line_ending content else ""), r.2).

(** ** The policies *)

Definition applyEditPolicy (content : string) (args : editPolicyInput) (policy : string)
    : result EditError (string * Z) :=
  let policy := normalizeEditPolicy policy in
  if String.eqb policy EditWholeFile then Ok (EiContent args, 1)
  else if String.eqb policy EditPatchFirst then
    match applyUnifiedPatch content (EiPatch args) with
    | Ok r => Ok r
    | Err e =>
        if String.eqb (EiOldString args) "" then Err (PatchFailed e)
        else match applyStringEdit content args true false with
             | Ok r => Ok r
             | Err e' => Err (FallbackFailed e e')
             end
    end
  else if String.eqb policy EditExact then
    if EiRegex args then Err RegexDisabled else applyStringEdit content args false false
  else if String.eqb policy EditCorelayWaterfall then applyStringEdit content args true true
  else Err (UnsupportedPolicy policy).
End regexp.

(** ** Patches: what application means *)

Definition old_line (line : string) : option string :=
  match line with
  | String c value => if Ascii.eqb c " " || Ascii.eqb c "-" then Some value else None
  | "" => None
  end.
Definition new_line (line : string) : option string :=
  match line with
  | String c value => if Ascii.eqb c " " || Ascii.eqb c "+" then Some value else None
  | "" => None
  end.
Definition is_change (line : string) : bool :=
  match line with String c _ => Ascii.eqb c "-" || Ascii.eqb c "+" | "" => false end.

(** The lines a hunk replaces, and those it replaces them by. *)
Definition old_lines (h : unifiedPatchHunk) : list string := omap old_line (h_lines h).
Definition new_lines (h : unifiedPatchHunk) : list string := omap new_line (h_lines h).

(** [patched source out hunks i j]: from line [i] of the file and line [j] of the result
    on, the hunks turn [source] into [out].  Between two hunks the lines are the same. *)
Inductive patched : list string → list string → list unifiedPatchHunk → Z → Z → Prop :=
| patched_end tail i j : patched tail tail [] i j
| patched_hunk gap h source out hunks i j :
    range_index (oldStart h) = i + Z.of_nat (length gap) →
    range_index (newStart h) = j + Z.of_nat (length gap) →
    oldCount h = Z.of_nat (length (old_lines h)) →
    newCount h = Z.of_nat (length (new_lines h)) →
    patched source out hunks (i + Z.of_nat (length gap) + oldCount h) (j + Z.of_nat (length gap) + newCount h) →
    patched (gap ++ old_lines h ++ source) (gap ++ new_lines h ++ out) (h :: hunks) i j.

(** The patch that undoes a patch. *)
Definition reverse_line (line : string) : string :=
  match line with
  | String c value =>
      if Ascii.eqb c "-" then String "+" value else if Ascii.eqb c "+" then String "-" value else line
  | "" => ""
  end.
Definition reverse_hunk (h : unifiedPatchHunk) : unifiedPatchHunk :=
  {| oldStart := newStart h; oldCount := newCount h; newStart := oldStart h; newCount := oldCount h;
     h_lines := map reverse_line (h_lines h) |}.

Definition total_changes (hunks : list unifiedPatchHunk) : nat :=
  sum_list_with (λ h, countb is_change (h_lines h)) hunks.

Lemma reverse_line_spec line :
  old_line (reverse_line line) = new_line line ∧ new_line (reverse_line line) = old_line line ∧
  is_change (reverse_line line) = is_change line.
Proof.
  destruct line as [|c v]; [done|]. unfold reverse_line.
  destruct (Ascii.eqb_spec c "-") as [->|H1]; [done|]. destruct (Ascii.eqb_spec c "+") as [->|H2]; [done|].
  cbn. apply Ascii.eqb_neq in H1, H2. by rewrite H1, H2.
Qed.

Lemma reverse_hunk_lines h :
  old_lines (reverse_hunk h) = new_lines h ∧ new_lines (reverse_hunk h) = old_lines h ∧
  countb is_change (h_lines (reverse_hunk h)) = countb is_change (h_lines h).
Proof.
  unfold old_lines, new_lines. cbn. induction (h_lines h) as [|line l (H1 & H2 & H3)]; [done|]. cbn.
  destruct (reverse_line_spec line) as (-> & -> & ->). rewrite H1, H2, H3. done.
Qed.

Lemma patched_reverse source out hunks i j :
  patched source out hunks i j → patched out source (map reverse_hunk hunks) j i.
Proof.
  induction 1 as [|gap h source out hunks i j H1 H2 H3 H4 _ IH]; cbn; [constructor|].
  destruct (reverse_hunk_lines h) as (E1 & E2 & _). rewrite <-E1 at 1. rewrite <-E2.
  apply patched_hunk; [done|done|by rewrite E1|by rewrite E2|exact IH].
Qed.

(** *** Application computes it *)

Definition advance (lines : list string) (p : Progress) : Progress :=
  {| sourceIndex := sourceIndex p + length (omap old_line lines);
     output := output p ++ omap new_line lines;
     consumed := consumed p + Z.of_nat (length (omap old_line lines));
     produced := produced p + Z.of_nat (length (omap new_line lines));
     changes := changes p + Z.of_nat (countb is_change lines) |}.

Lemma progress_eq p p' :
  sourceIndex p = sourceIndex p' → output p = output p' → consumed p = consumed p' →
  produced p = produced p' → changes p = changes p' → p = p'.
Proof. destruct p, p'; simpl; congruence. Qed.

Lemma drop_lookup_head {A} (l : list A) (i : nat) x : l !! i = Some x → drop i l = x :: drop (S i) l.
Proof. intros H. by rewrite (drop_S l x i H). Qed.

Lemma advance_cons line lines p : advance (line :: lines) p = advance lines (advance [line] p).
Proof.
  unfold advance. cbn. destruct (old_line line), (new_line line), (is_change line); cbn;
    apply progress_eq; cbn; rewrite <-?app_assoc; lia || done.
Qed.

(** The line at the index, if the line of the hunk names one. *)
Lemma apply_line_iff source line p p' :
  apply_line source line p = Ok p' ↔
  (∃ rest, drop (sourceIndex p) source = omap old_line [line] ++ rest) ∧ p' = advance [line] p.
Proof.
  assert (Hstay : advance [] p = p) by (apply progress_eq; cbn; rewrite ?app_nil_r; lia || done).
  assert (Hadv : Ok (E:=EditError) (advance [line] p) = Ok p' ↔ p' = advance [line] p) by (split; congruence).
  assert (Hat : ∀ value : string,
    matches_at source (sourceIndex p) value = true ↔ ∃ rest, drop (sourceIndex p) source = value :: rest).
  { intros value. unfold matches_at. destruct (source !! sourceIndex p) as [l|] eqn:Hl.
    - rewrite (drop_lookup_head _ _ _ Hl), String.eqb_eq. naive_solver.
    - apply lookup_ge_None_1 in Hl. rewrite drop_ge by lia. naive_solver. }
  destruct line as [|c value].
  { assert (advance [""] p = p) as -> by (apply progress_eq; cbn; rewrite ?app_nil_r; lia || done). cbn.
    split; [intros [= ->]; split; [by eexists|done]|]. by intros [_ ->]. }
  specialize (Hat value). unfold apply_line.
  assert (Hgen : ∀ (err : EditError) q, q = advance [String c value] p → omap old_line [String c value] = [value] →
    (if negb (matches_at source (sourceIndex p) value) then Err err else Ok q) = Ok p' ↔ (∃ rest, drop (sourceIndex p) source = omap old_line [String c value] ++ rest) ∧
                p' = advance [String c value] p).
  { intros err r -> ->. cbn [app]. rewrite <-Hat, <-Hadv. destruct (matches_at _ _ _); cbn; naive_solver. }
  destruct (Ascii.eqb_spec c " ") as [->|H1]; [by apply Hgen; [apply progress_eq; cbn; lia || done|]|].
  destruct (Ascii.eqb_spec c "-") as [->|H2];
    [by apply Hgen; [apply progress_eq; cbn; rewrite ?app_nil_r; lia || done|]|].
  destruct (Ascii.eqb_spec c "+") as [->|H3].
  - rewrite <-Hadv. cbn. split.
    + intros [= <-]. split; [by eexists|]. f_equal. apply progress_eq; cbn; lia || done.
    + intros [_ [= <-]]. f_equal. apply progress_eq; cbn; lia || done.
  - apply Ascii.eqb_neq in H1, H2, H3. rewrite <-Hadv. unfold advance. cbn. rewrite H1, H2, H3. cbn. split.
    + intros [= <-]. split; [by eexists|]. f_equal. apply progress_eq; cbn; rewrite ?app_nil_r; lia || done.
    + intros [_ [= <-]]. f_equal. apply progress_eq; cbn; rewrite ?app_nil_r; lia || done.
Qed.

Lemma apply_lines_iff source lines p p' :
  apply_lines source lines p = Ok p' ↔
  (∃ rest, drop (sourceIndex p) source = omap old_line lines ++ rest) ∧ p' = advance lines p.
Proof.
  revert p. induction lines as [|line lines IH]; intros p; cbn [apply_lines].
  { assert (advance [] p = p) as -> by (apply progress_eq; cbn; rewrite ?app_nil_r; lia || done).
    split; [intros [= <-]; split; [by eexists|done]|]. by intros [_ ->]. }
  rewrite result_bind_ok. setoid_rewrite IH. setoid_rewrite apply_line_iff. clear IH.
  rewrite (advance_cons line lines).
  assert (Hsplit : (∃ rest, drop (sourceIndex p) source = omap old_line (line :: lines) ++ rest) ↔
    (∃ rest, drop (sourceIndex p) source = omap old_line [line] ++ rest) ∧
    (∃ rest, drop (sourceIndex (advance [line] p)) source = omap old_line lines ++ rest)).
  { cbn [advance sourceIndex]. rewrite <-drop_drop. cbn [omap list_omap]. destruct (old_line line) as [v|]; cbn.
    - split.
      + intros [rest Hr]. rewrite Hr. split; by eexists.
      + intros [[r1 H1] [r2 H2]]. rewrite H1 in *. cbn in H2. rewrite drop_0 in H2. exists r2. by rewrite H2.
    - rewrite drop_0. split; [intros H; split; [by eexists|done]|by intros [_ ?]]. }
  rewrite Hsplit. split.
  - intros (? & (H1 & ->) & H2 & ->). done.
  - intros ((H1 & H2) & ->). exists (advance [line] p). done.
Qed.

Definition start_of (i : nat) (out : list string) (n : Z) : Progress :=
  {| sourceIndex := i; output := out; consumed := 0; produced := 0; changes := n |}.

Lemma apply_hunk_iff source h p p' :
  (sourceIndex p ≤ length source)%nat →
  apply_hunk source h p = Ok p' ↔
  ∃ gap rest, drop (sourceIndex p) source = gap ++ old_lines h ++ rest ∧
    range_index (oldStart h) = Z.of_nat (sourceIndex p + length gap) ∧
    range_index (newStart h) = Z.of_nat (length (output p) + length gap) ∧
    oldCount h = Z.of_nat (length (old_lines h)) ∧ newCount h = Z.of_nat (length (new_lines h)) ∧
    p' = advance (h_lines h) (start_of (sourceIndex p + length gap) (output p ++ gap) (changes p)).
Proof.
  intros Hle. unfold apply_hunk. set (target := range_index (oldStart h)). split.
  - destruct (Z.ltb_spec target (Z.of_nat (sourceIndex p))); [done|].
    destruct (Z.ltb_spec (Z.of_nat (length source)) target); [done|]. cbn [orb].
    set (gap := take (Z.to_nat target - sourceIndex p) (drop (sourceIndex p) source)).
    assert (Hgap : (sourceIndex p + length gap)%nat = Z.to_nat target).
    { subst gap. rewrite length_take, length_drop. lia. }
    destruct (Z.eqb_spec (range_index (newStart h)) (Z.of_nat (length (output p ++ gap)))) as [Hnew|]; [|done].
    cbn [negb]. intros (p0 & [(rest & Hrest) ->]%apply_lines_iff & Hc)%result_bind_ok.
    cbn [sourceIndex] in Hrest.
    destruct (Z.eqb_spec (consumed (advance (h_lines h) (start_of (Z.to_nat target) (output p ++ gap) (changes p))))
      (oldCount h)) as [Hold|Hne%Z.eqb_neq]; [|by unfold start_of in Hne; rewrite Hne in Hc].
    destruct (Z.eqb_spec (produced (advance (h_lines h) (start_of (Z.to_nat target) (output p ++ gap) (changes p))))
      (newCount h)) as [Hprod|Hne%Z.eqb_neq];
      [|by unfold start_of in Hne, Hold; rewrite Hold, Z.eqb_refl, Hne in Hc].
    unfold start_of in *. rewrite Hold, Hprod, !Z.eqb_refl in Hc. injection Hc as <-.
    exists gap, rest. rewrite length_app in Hnew. split_and!; [|lia|lia|rewrite <-Hold; unfold old_lines; cbn; lia|rewrite <-Hprod; unfold new_lines; cbn; lia|].
    + fold (old_lines h) in Hrest. rewrite <-Hrest.
      replace (Z.to_nat target) with (sourceIndex p + (Z.to_nat target - sourceIndex p))%nat by lia.
      rewrite <-drop_drop. symmetry. apply take_drop.
    + by rewrite Hgap.
  - intros (gap & rest & Hd & H1 & H2 & H3 & H4 & ->). subst target. rewrite H1.
    assert (Hlen : (sourceIndex p + length gap ≤ length source)%nat).
    { apply (f_equal length) in Hd. rewrite length_drop, length_app in Hd. lia. }
    destruct (Z.ltb_spec (Z.of_nat (sourceIndex p + length gap)) (Z.of_nat (sourceIndex p))); [lia|].
    destruct (Z.ltb_spec (Z.of_nat (length source)) (Z.of_nat (sourceIndex p + length gap))); [lia|]. cbn [orb].
    assert (Hgap : take (Z.to_nat (Z.of_nat (sourceIndex p + length gap)) - sourceIndex p) (drop (sourceIndex p) source) = gap).
    { rewrite Hd. replace (_ - _)%nat with (length gap) by lia. apply take_app_length. }
    rewrite Hgap, length_app, H2, Z.eqb_refl. cbn [negb]. rewrite Nat2Z.id. apply result_bind_ok.
    eexists. split.
    + apply apply_lines_iff. split; [|done]. exists rest. cbn [sourceIndex].
      by rewrite <-drop_drop, Hd, drop_app_length.
    + cbn [advance consumed produced]. fold (old_lines h) (new_lines h). rewrite H3, H4, !Z.eqb_refl. done.
Qed.

Lemma patched_cast source out hs i j i' j' :
  patched source out hs i j → i = i' → j = j' → patched source out hs i' j'.
Proof. by intros ? -> ->. Qed.

Lemma apply_hunks_iff source hs p out n :
  (sourceIndex p ≤ length source)%nat →
  (∃ p', apply_hunks source hs p = Ok p' ∧ out = output p' ++ drop (sourceIndex p') source ∧ n = changes p') ↔
  ∃ out', out = output p ++ out' ∧
    patched (drop (sourceIndex p) source) out' hs (Z.of_nat (sourceIndex p)) (Z.of_nat (length (output p))) ∧
    n = changes p + Z.of_nat (total_changes hs).
Proof.
  revert p. induction hs as [|h hs IH]; intros p Hle; cbn [apply_hunks].
  { split.
    - intros (? & [= <-] & -> & ->). eexists. split; [done|]. split; [constructor|cbn; lia].
    - intros (out' & -> & Hp & ->). inversion Hp; subst. eexists. split; [done|]. split; [done|cbn; lia]. }
  assert (Hrest : ∀ gap rest, drop (sourceIndex p) source = gap ++ old_lines h ++ rest →
    let p1 := advance (h_lines h) (start_of (sourceIndex p + length gap) (output p ++ gap) (changes p)) in
    drop (sourceIndex p1) source = rest ∧ (sourceIndex p1 ≤ length source)%nat ∧
    output p1 = output p ++ gap ++ new_lines h).
  { intros gap rest Hd p1. subst p1. cbn [advance start_of sourceIndex output]. split; [|split].
    - rewrite <-!drop_drop, Hd, drop_app_length. apply drop_app_length.
    - apply (f_equal length) in Hd. rewrite length_drop, !length_app in Hd. unfold old_lines in Hd. lia.
    - by rewrite <-app_assoc. }
  split.
  - intros (p' & (p1 & Hp1 & Hps)%result_bind_ok & Hout & Hn).
    apply apply_hunk_iff in Hp1 as (gap & rest & Hd & H1 & H2 & H3 & H4 & ->); [|done].
    destruct (Hrest gap rest Hd) as (Hr & Hle' & Ho).
    destruct (proj1 (IH _ Hle') (ex_intro _ p' (conj Hps (conj Hout Hn)))) as (out' & -> & Hpat & Hn').
    rewrite Ho, <-!app_assoc. eexists. split; [done|]. split.
    + rewrite Hd. constructor; [lia|lia|done|done|].
      rewrite Hr, Ho in Hpat. rewrite H3, H4. eapply patched_cast; [exact Hpat| |].
      * cbn. fold (old_lines h). lia.
      * rewrite !length_app. lia.
    + rewrite Hn'. unfold total_changes. cbn. lia.
  - intros (out' & -> & Hpat & ->). inversion Hpat as [|gap ? src o ? ? ? H1 H2 H3 H4 Hp' Hsrc Ho']; subst.
    symmetry in Hsrc. destruct (Hrest gap src Hsrc) as (Hr & Hle' & Ho).
    assert (Hgoal : ∃ p', apply_hunks source hs (advance (h_lines h) (start_of (sourceIndex p + length gap)
        (output p ++ gap) (changes p))) = Ok p' ∧
      output p ++ gap ++ new_lines h ++ o = output p' ++ drop (sourceIndex p') source ∧
      changes p + Z.of_nat (total_changes (h :: hs)) = changes p').
    { apply (IH _ Hle'). exists o. split; [by rewrite Ho, <-!app_assoc|]. split.
      - rewrite Hr. rewrite H3, H4 in Hp'. eapply patched_cast; [exact Hp'| |].
        + cbn. fold (old_lines h). lia.
        + rewrite Ho, !length_app. lia.
      - unfold total_changes. cbn. lia. }
    destruct Hgoal as (p' & Hps & Ho2 & Hc). exists p'. split; [|by split].
    apply result_bind_ok. eexists. split; [|exact Hps]. apply apply_hunk_iff; [done|].
    exists gap, src. split_and!; [done|lia|lia|done|done|done].
Qed.

Lemma patch_lines_iff source hs out n :
  patch_lines source hs = Ok (out, n) ↔ patched source out hs 0 0 ∧ n = Z.of_nat (total_changes hs).
Proof.
  unfold patch_lines. rewrite result_bind_ok.
  assert (Hle : (sourceIndex (start_of 0 [] 0) ≤ length source)%nat) by (cbn; lia).
  pose proof (apply_hunks_iff source hs (start_of 0 [] 0) out n Hle) as Hiff. split.
  - intros (p' & Hp & [= Ho Hn]). destruct (proj1 Hiff) as (out' & -> & Hpat & ->); [by exists p'|]. done.
  - intros [Hpat ->]. destruct (proj2 Hiff) as (p' & Hp & -> & ->); [by exists out|]. by exists p'.
Qed.

(** ** String edits: what they replace *)

Definition occurs (s old : string) : Prop := ∃ a b, s = (a +:+ old +:+ b)%string.

(** The first occurrence is replaced, or the text is split at its occurrences, from the
    left and without overlap, and joined again. *)
Inductive replaced (s old new : string) : bool → string → Z → Prop :=
| replaced_first a b :
    s = (a +:+ old +:+ b)%string →
    (∀ a' b', s = (a' +:+ old +:+ b')%string → (strlen a ≤ strlen a')%nat) →
    replaced s old new false (a +:+ new +:+ b)%string 1
| replaced_all piece pieces :
    s = str_join old (piece :: pieces) →
    Forall (λ p, ¬ occurs p old) (piece :: pieces) →
    replaced s old new true (str_join new (piece :: pieces)) (Z.of_nat (length pieces)).

(** The first window of lines equal to the old text up to the space around each line. *)
Inductive fuzzily_replaced (s old new : string) : string → Prop :=
| fuzzily_replaced_at pre window post :
    split_lines s = pre ++ window ++ post →
    map trim_space window = map trim_space (split_lines (trim_set old nl)) →
    (∀ pre' window' post', split_lines s = pre' ++ window' ++ post' →
       map trim_space window' = map trim_space window → (length pre ≤ length pre')%nat) →
    fuzzily_replaced s old new (str_join nl (pre ++ split_lines new ++ post)).

Lemma contains_spec s sub : contains s sub = true ↔ occurs s sub.
Proof.
  induction s as [|c s IH]; cbn [contains]; rewrite orb_true_iff, prefix_spec.
  - split; [intros [(t & ->)|]; [by exists "", t|done]|].
    intros (a & b & H). left. destruct a; [by exists b|done].
  - rewrite IH. split.
    + intros [(t & ->)|(a & b & ->)]; [by exists "", t|by exists (String c a), b].
    + intros ([|d a] & b & H); [left; by exists b|right]. injection H as -> ->. by exists a, b.
Qed.

Lemma replace_first_spec s old new :
  old ≠ "" → contains s old = true → replaced s old new false (replace_first s old new) 1.
Proof.
  intros Hold. induction s as [|c s IH]; intros Hc; [by destruct old|].
  cbn [replace_first]. destruct (has_prefix (String c s) old) eqn:Hp.
  - pose proof Hp as (t & Ht)%prefix_spec. rewrite Ht, str_drop_app.
    apply (replaced_first (old +:+ t) old new "" t); [done|cbn; lia].
  - cbn [contains] in Hc. unfold has_prefix in Hp. rewrite Hp in Hc. pose proof (IH Hc) as Hr0; inversion Hr0 as [a b Hs Hmin|].
    apply (replaced_first (String c s) old new (String c a) b); [by rewrite Hs|].
    intros [|d a'] b' H'.
    + rewrite (proj2 (prefix_spec _ _)) in Hp; [done|by exists b'].
    + injection H' as -> H'. cbn. apply Hmin in H'. lia.
Qed.

Lemma replace_all_skip k s old new :
  replace_all k s old new = replace_all 0 (str_drop k s) old new ∧
  count_occurrences k s old = count_occurrences 0 (str_drop k s) old.
Proof. revert k. induction s as [|c s IH]; intros [|k]; cbn; done || apply IH. Qed.

Lemma str_join_head sep c x (l : list string) :
  str_join sep (String c x :: l) = String c (str_join sep (x :: l)).
Proof. by destruct l. Qed.

Lemma replaced_all_inv s old new r n :
  replaced s old new true r n →
  ∃ piece pieces, s = str_join old (piece :: pieces) ∧ r = str_join new (piece :: pieces) ∧
    n = Z.of_nat (length pieces) ∧ Forall (λ p, ¬ occurs p old) (piece :: pieces).
Proof. inversion 1. by eexists _, _. Qed.

Lemma replace_all_spec s old new :
  old ≠ "" → replaced s old new true (replace_all 0 s old new) (count_occurrences 0 s old).
Proof.
  intros Hold. remember (strlen s) as n eqn:Hn. revert s Hn.
  induction (lt_wf n) as [n _ IH]. intros [|c s] Hn.
  { apply (replaced_all "" old new "" []); [done|]. constructor; [|constructor].
    intros ([|] & b & H); [|done]. by destruct old. }
  cbn [replace_all count_occurrences]. destruct (has_prefix (String c s) old) eqn:Hp.
  - pose proof Hp as (t & Ht)%prefix_spec. destruct old as [|d old]; [done|]. injection Ht as <- Ht.
    destruct (replace_all_skip (strlen (String c old) - 1) s (String c old) new) as [-> ->].
    cbn [strlen String.length]. rewrite Nat.sub_succ, Nat.sub_0_r, Ht, str_drop_app.
    assert (Hlt : (strlen t < n)%nat) by (subst n s; cbn; rewrite strlen_app; lia).
    destruct (replaced_all_inv _ _ _ _ _ (IH _ Hlt t eq_refl)) as (piece & pieces & Hs & -> & -> & Hfree).
    rewrite Hs.
    replace (1 + Z.of_nat (length pieces)) with (Z.of_nat (length (piece :: pieces))) by (cbn; lia).
    apply (replaced_all _ (String c old) new "" (piece :: pieces)); [done|].
    constructor; [|done]. by intros ([|] & b & Hb).
  - assert (Hlt : (strlen s < n)%nat) by (subst n; cbn; lia).
    destruct (replaced_all_inv _ _ _ _ _ (IH _ Hlt s eq_refl)) as (piece & pieces & Hs & -> & -> & Hfree).
    rewrite <-str_join_head.
    apply replaced_all; [by rewrite Hs, str_join_head|].
    inversion Hfree as [|? ? H1 H2]; subst. constructor; [|done].
    intros ([|d a] & b & Hb); [|injection Hb as -> ->; apply H1; by exists a, b].
    assert (Hpre : has_prefix (String c (str_join old (piece :: pieces))) old = true); [|by rewrite Hpre in Hp].
    apply prefix_spec. cbn in Hb. destruct pieces as [|q pieces]; [by exists b|].
    exists (b +:+ old +:+ str_join old (q :: pieces))%string.
    rewrite str_join_cons. change (String c (piece +:+ old +:+ str_join old (q :: pieces))%string)
      with (String c piece +:+ old +:+ str_join old (q :: pieces))%string.
    by rewrite Hb, <-!str_app_assoc.
Qed.

Lemma window_matches_spec oldTrim lines :
  window_matches oldTrim lines = true ↔
  ∃ window post, lines = window ++ post ∧ map trim_space window = oldTrim.
Proof.
  unfold window_matches. revert lines. induction oldTrim as [|o oldTrim IH]; intros lines.
  { destruct lines; cbn; (split; [intros _|done]); [by exists [], []|by exists [], (s :: lines)]. }
  destruct lines as [|l lines]; cbn.
  { split; [done|]. intros ([|] & post & H & Hm); [by cbn in Hm|done]. }
  rewrite (andb_comm (String.eqb _ _)), andb_assoc, andb_true_iff, IH, String.eqb_eq. split.
  - intros [(window & post & -> & <-) <-]. by exists (l :: window), post.
  - intros ([|w window] & post & H & Hm); [done|]. cbn in Hm. injection Hm as Ho <-.
    injection H as -> ->. split; [by exists window, post|done].
Qed.

Lemma fuzzy_start_spec oldTrim lines :
  match fuzzy_start oldTrim lines with
  | Some i => (∃ window post, lines = take i lines ++ window ++ post ∧ map trim_space window = oldTrim ∧ (i ≤ length lines)%nat) ∧
              (∀ pre window post, lines = pre ++ window ++ post → map trim_space window = oldTrim → (i ≤ length pre)%nat)
  | None => ∀ pre window post, lines = pre ++ window ++ post → map trim_space window ≠ oldTrim
  end.
Proof.
  induction lines as [|l lines IH]; cbn [fuzzy_start]; destruct (window_matches oldTrim _) eqn:Hw.
  - apply window_matches_spec in Hw as (window & post & Hl & Hm). split; [|lia].
    exists window, post. rewrite Hl, Hm. cbn. split_and!; [done|done|lia].
  - intros pre window post Hl Hm. apply not_true_iff_false in Hw. apply Hw, window_matches_spec.
    destruct pre; [by exists window, post|done].
  - apply window_matches_spec in Hw as (window & post & Hl & Hm). split; [|lia].
    exists window, post. rewrite take_0, Hm. split_and!; [done|done|lia].
  - apply not_true_iff_false in Hw. rewrite window_matches_spec in Hw.
    assert (Hskip : ∀ pre window post, l :: lines = pre ++ window ++ post → map trim_space window = oldTrim →
      ∃ pre', pre = l :: pre' ∧ lines = pre' ++ window ++ post).
    { intros [|? pre] window post Hl Hm; [destruct Hw; by exists window, post|].
      injection Hl as <- ->. by exists pre. }
    destruct (fuzzy_start oldTrim lines) as [i|] eqn:Hs; cbn.
    + destruct IH as [(window & post & Hl & Hm & Hi) Hmin]. split.
      * exists window, post. rewrite Hl at 1. split_and!; [done|done|lia].
      * intros pre win po H1 H2. destruct (Hskip _ _ _ H1 H2) as (pre' & -> & H3). apply Hmin in H3; [cbn; lia|done].
    + intros pre win po H1 H2. destruct (Hskip _ _ _ H1 H2) as (pre' & -> & H3). by eapply IH in H3.
Qed.

Lemma fuzzyReplace_spec content old newStr :
  old ≠ "" →
  match fuzzyReplace content old newStr with
  | Some res => fuzzily_replaced content old newStr res
  | None => ∀ res, ¬ fuzzily_replaced content old newStr res
  end.
Proof.
  intros Hold. unfold fuzzyReplace.
  set (oldLines := split_lines (trim_set old nl)). set (lines := split_lines content).
  destruct (Nat.eqb_spec (length oldLines) 0) as [Hz|_].
  { apply length_zero_iff_nil in Hz. by apply split_on_not_nil in Hz. }
  destruct (String.eqb_spec old "") as [|_]; [done|]. cbn [orb].
  pose proof (fuzzy_start_spec (map trim_space oldLines) lines) as H.
  destruct (fuzzy_start _ lines) as [i|].
  - destruct H as [(window & post & Hl & Hm & Hi) Hmin].
    assert (Hpost : drop (i + length oldLines) lines = post).
    { rewrite Hl, app_assoc. apply drop_app_length'. rewrite length_app, length_take_le by done.
      apply (f_equal length) in Hm. rewrite !length_map in Hm. lia. }
    rewrite Hpost. apply (fuzzily_replaced_at _ _ _ (take i lines) window post); [done|done|].
    intros pre' window' post' H1 H2. rewrite length_take_le by done. by eapply Hmin; [|rewrite H2].
  - intros res [pre window post H1 H2 _]. by eapply H.
Qed.

(** ** Properties *)

(** C27: A patch is applied exactly when its text parses into hunks, at least one, which
    turn the lines of the file into those of the result: between two hunks nothing changes,
    each hunk removes lines the file has at the place it names and puts its own there, and
    its four numbers agree with its lines on both sides.  The count reported is the number
    of lines added and removed. *)
Theorem unified_patch_exact content patch res n :
  applyUnifiedPatch content patch = Ok (res, n) ↔
  trim_space patch ≠ "" ∧ slen patch ≤ maxUnifiedPatchBytes ∧ has_nul patch = false ∧
  ∃ hunks out, parse_patch (patch_text_lines patch) None [] = Ok hunks ∧ hunks ≠ [] ∧
    patched (source_lines content) out hunks 0 0 ∧
    res = (str_join (line_ending content) out +:+ (if has_suffix content nl then line_ending content else ""))%string ∧
    n = Z.of_nat (total_changes hunks).
Proof.
  unfold applyUnifiedPatch. destruct (String.eqb_spec (trim_space patch) "") as [->|Hne]; [naive_solver|].
  destruct (Z.ltb_spec maxUnifiedPatchBytes (slen patch)); [split; [done|intros (_ & ? & _); lia]|].
  destruct (has_nul patch); [naive_solver|]. rewrite result_bind_ok. split.
  - intros (hunks & Hp & Hr). destruct (Nat.eqb_spec (length hunks) 0) as [|Hz]; [done|].
    apply result_bind_ok in Hr as ([out k] & [Hpat ->]%patch_lines_iff & [= <- <-]).
    split; [done|]. split; [lia|]. split; [done|]. exists hunks, out. split; [done|].
    split; [by intros ->|done].
  - intros (_ & _ & _ & hunks & out & Hp & Hne' & Hpat & -> & ->). exists hunks. split; [done|].
    destruct hunks as [|h hunks]; [done|]. cbn [length Nat.eqb]. apply result_bind_ok.
    exists (out, Z.of_nat (total_changes (h :: hunks))). split; [by apply patch_lines_iff|done].
Qed.

(** A patch can be undone: the patch with its sides exchanged applies to the lines the
    patch produced and gives back the lines it was applied to. *)
Theorem patch_reverse_roundtrip source hunks out n :
  patch_lines source hunks = Ok (out, n) → patch_lines out (map reverse_hunk hunks) = Ok (source, n).
Proof.
  intros [Hpat ->]%patch_lines_iff. apply patch_lines_iff. split; [by apply patched_reverse|].
  f_equal. clear Hpat. induction hunks as [|h hunks IH]; [done|].
  change (total_changes (h :: hunks)) with (countb is_change (h_lines h) + total_changes hunks)%nat.
  change (total_changes (map reverse_hunk (h :: hunks)))
    with (countb is_change (h_lines (reverse_hunk h)) + total_changes (map reverse_hunk hunks))%nat.
  destruct (reverse_hunk_lines h) as (_ & _ & ->). lia.
Qed.

(** A plain string edit replaces what it says: the first occurrence of the old text,
    or every occurrence from the left, counted; when the text does not occur, and only then,
    and only where the policy allows it, the first window of lines equal to it up to the
    space around each line.  It fails exactly when the old text is empty or nothing matches. *)
Theorem string_edit_exact compile content args allowFuzzy allowRegex :
  EiRegex args = false →
  match applyStringEdit compile content args allowFuzzy allowRegex with
  | Ok (res, n) =>
      EiOldString args ≠ "" ∧
      (replaced content (EiOldString args) (EiNewString args) (EiReplaceAll args) res n ∨
       ¬ occurs content (EiOldString args) ∧ allowFuzzy = true ∧ n = 1 ∧
       fuzzily_replaced content (EiOldString args) (EiNewString args) res)
  | Err OldStringEmpty => EiOldString args = ""
  | Err OldStringNotFound =>
      EiOldString args ≠ "" ∧ ¬ occurs content (EiOldString args) ∧
      (allowFuzzy = true → ∀ res, ¬ fuzzily_replaced content (EiOldString args) (EiNewString args) res)
  | Err _ => False
  end.
Proof.
  intros Hre. unfold applyStringEdit. rewrite Hre.
  destruct (String.eqb_spec (EiOldString args) "") as [|Hold]; [done|].
  destruct (contains content (EiOldString args)) eqn:Hc.
  - destruct (EiReplaceAll args); (split; [done|left]); [by apply replace_all_spec|by apply replace_first_spec].
  - rewrite <-not_true_iff_false, contains_spec in Hc. destruct allowFuzzy; [|done].
    pose proof (fuzzyReplace_spec content _ (EiNewString args) Hold) as Hf.
    destruct (fuzzyReplace _ _ _); [split; [done|right; done]|done].
Qed.

(** ** Concrete edits *)

Definition ex_patch (lines : list string) : string := str_join nl lines.
Definition ex_file : string := ex_patch ["one"; "two"; "three"; ""].

Example ex_patched :
  applyUnifiedPatch ex_file (ex_patch ["--- a"; "+++ b"; "@@ -1,3 +1,3 @@ func"; " one"; "-two"; "+2"; " three"; ""]) =
  Ok (ex_patch ["one"; "2"; "three"; ""], 2).
Proof. vm_compute. reflexivity. Qed.
Example ex_two_hunks :
  applyUnifiedPatch ex_file (ex_patch ["@@ -1 +1,2 @@"; " one"; "+1.5"; "@@ -3,1 +4 @@"; "-three"; "+3"]) =
  Ok (ex_patch ["one"; "1.5"; "two"; "3"; ""], 3).
Proof. vm_compute. reflexivity. Qed.
Example ex_fuzzy :
  fuzzyReplace ex_file (ex_patch ["  two "; "three"]) "x" = Some (ex_patch ["one"; "x"; ""]).
Proof. vm_compute. reflexivity. Qed.
Example ex_stale_patch :
  applyUnifiedPatch ex_file (ex_patch ["@@ -2 +2 @@"; "-TWO"; "+2"]) = Err HunkRemoval.
Proof. vm_compute. reflexivity. Qed.

Definition ex_edit : editPolicyInput :=
  {| EiFilePath := "f"; EiOldString := "o"; EiNewString := "0"; EiReplaceAll := true; EiRegex := false;
     EiPatch := ""; EiContent := "" |}.

Lemma string_edit_exact_witness :
  applyStringEdit (λ _, None) ex_file ex_edit true true = Ok (ex_patch ["0ne"; "tw0"; "three"; ""], 2) ∧
  replaced ex_file "o" "0" true (ex_patch ["0ne"; "tw0"; "three"; ""]) 2.
Proof.
  split; [vm_compute; reflexivity|].
  destruct (string_edit_exact (λ _, None) ex_file ex_edit true true eq_refl) as [_ [H|[H _]]]; [exact H|].
  exfalso. apply H, contains_spec. vm_compute. reflexivity.
Defined.

Definition ex_hunks : list unifiedPatchHunk :=
  [{| oldStart := 2; oldCount := 1; newStart := 2; newCount := 2; h_lines := ["-two"; "+2"; "+2.5"] |}].

Lemma patch_reverse_roundtrip_witness :
  patch_lines ["one"; "two"; "three"] ex_hunks = Ok (["one"; "2"; "2.5"; "three"], 3) ∧
  patch_lines ["one"; "2"; "2.5"; "three"] (map reverse_hunk ex_hunks) = Ok (["one"; "two"; "three"], 3).
Proof. split; [vm_compute; reflexivity|]. apply patch_reverse_roundtrip. vm_compute. reflexivity. Defined.

(** The code takes a start of an empty old range as the line before which to insert; a
    hunk without context, as [git diff -U0] writes it, names the line after which to insert
    and is refused. *)
Example zero_context_insert_refused :
  applyUnifiedPatch ex_file (ex_patch ["@@ -3,0 +4,2 @@"; "+four"; "+five"]) = Err HunkNewRange.
Proof. vm_compute. reflexivity. Qed.
(** Deleting every line of a file leaves one empty line. *)
Example delete_all_lines_leaves_newline :
  applyUnifiedPatch (ex_patch ["a"; ""]) (ex_patch ["@@ -1 +0,0 @@"; "-a"]) = Ok (nl, 1).
Proof. vm_compute. reflexivity. Qed.
(** A patch of one line of a file with both line endings rewrites the ending of the others. *)
Example mixed_endings_rewritten :
  applyUnifiedPatch ("a" +:+ nl +:+ "b" +:+ crlf)%string (ex_patch ["@@ -2 +2 @@"; "-b"; "+c"]) =
  Ok ("a" +:+ crlf +:+ "c" +:+ crlf, 2)%string.
Proof. vm_compute. reflexivity. Qed.
