(* ===== verification/JsonText.v ===== *)
(** * JSON text as [encoding/json] writes it

    [json.Marshal] of decoded values and of structs of strings, for text of valid
    UTF-8 (which is what the decoder produces).  Quoting is injective, because
    [unquote] reads it back; two objects whose members are the same up to their
    order are written alike. *)

From stdpp Require Export pretty.
From S2P Require Export Json Digest.

Local Open Scope string_scope.
Local Open Scope Z_scope.

(** A [json.RawMessage] whose bytes matter: the bytes, and the value they decode to. *)
Record RawInput := { raw_bytes : string; raw_value : RawMessage }.

(** ** Strings *)

Definition dquote : string := String "034" "".
Definition backslash : ascii := "\".
Definition hex4 (n : Z) : string :=
  "\u00" +:+ String (hex_digit (Z.shiftr n 4)) (String (hex_digit (Z.land n 15)) "").

(** The escapes of [json.Marshal], HTML escaping included. *)
Definition quote_char (c : ascii) : string :=
  let n := Z.of_nat (nat_of_ascii c) in
  if n =? 34 then String backslash (String c "")
  else if n =? 92 then "\\"
  else if n =? 8 then "\b" else if n =? 12 then "\f" else if n =? 10 then "\n"
  else if n =? 13 then "\r" else if n =? 9 then "\t"
  else if (n <? 32) || (n =? 60) || (n =? 62) || (n =? 38) then hex4 n
  else String c "".

(** The line and paragraph separators U+2028 and U+2029 are escaped too. *)
Definition line_separator : string := byte_str [226; 128; 168]%nat.
Definition paragraph_separator : string := byte_str [226; 128; 169]%nat.

(** [skip] bytes have been written already, as part of an escape. *)
Fixpoint quote_chars (skip : nat) (s : string) : string :=
  match s with
  | "" => ""
  | String c s' =>
      match skip with
      | S k => quote_chars k s'
      | O =>
          if has_prefix s line_separator then "\u2028" +:+ quote_chars 2 s'
          else if has_prefix s paragraph_separator then "\u2029" +:+ quote_chars 2 s'
          else quote_char c +:+ quote_chars 0 s'
      end
  end.

Definition json_string (s : string) : string := dquote +:+ quote_chars 0 s +:+ dquote.

(** ** Objects and values *)

Definition json_member (member : string * string) : string :=
  json_string member.1 +:+ ":" +:+ member.2.
(** A struct, or a map whose members are in the order they are written. *)
Definition json_object (members : list (string * string)) : string :=
  "{" +:+ str_join "," (map json_member members) +:+ "}".
Definition json_array (items : list string) : string := "[" +:+ str_join "," items +:+ "]".

(** Of members with one name, a decoded map has the last. *)
Fixpoint last_wins {A} (members : list (string * A)) : list (string * A) :=
  match members with
  | [] => []
  | m :: members' =>
      if existsb (λ m', String.eqb m.1 m'.1) members' then last_wins members'
      else m :: last_wins members'
  end.

(** [json.Marshal] of a value decoded with [UseNumber]: numbers keep their literal,
    and the members of a map are written in the order of their names. *)
Fixpoint marshal (v : json) : string :=
  match v with
  | JNull => "null"
  | JBool b => if b then "true" else "false"
  | JNumber lit => lit
  | JString s => json_string s
  | JArray l => json_array (map marshal l)
  | JObject ms =>
      json_object (stable_sort (less_str fst) (last_wins (map (λ m, (m.1, marshal m.2)) ms)))
  end.

(** ** Reading a string back *)

Definition hex_val (c : ascii) : Z :=
  let n := Z.of_nat (nat_of_ascii c) in
  if byte_in 48 57 n then n - 48 else if byte_in 97 102 n then n - 87 else n - 55.

Definition unescape (c : ascii) : ascii :=
  if Ascii.eqb c "b" then "008" else if Ascii.eqb c "f" then "012"
  else if Ascii.eqb c "n" then "010" else if Ascii.eqb c "r" then "013"
  else if Ascii.eqb c "t" then "009" else c.

Definition unescape_u (a b c d : ascii) : string :=
  let n := 4096 * hex_val a + 256 * hex_val b + 16 * hex_val c + hex_val d in
  if n =? 8232 then line_separator else if n =? 8233 then paragraph_separator
  else String (ascii_of_nat (Z.to_nat n)) "".

(** The characters up to the closing quote, and the text after it. *)
Fixpoint unquote (t : string) : option (string * string) :=
  match t with
  | "" => None
  | String c t' =>
      if Ascii.eqb c "034" then Some ("", t')
      else if Ascii.eqb c backslash then
        match t' with
        | "" => None
        | String e t'' =>
            if Ascii.eqb e "u" then
              match t'' with
              | String a (String b (String c' (String d t3))) =>
                  prod_map (String.append (unescape_u a b c' d)) id <$> unquote t3
              | _ => None
              end
            else prod_map (String (unescape e)) id <$> unquote t''
        end
      else prod_map (String c) id <$> unquote t'
  end.

Lemma unquote_char c t : unquote (quote_char c +:+ t) = (prod_map (String c) id <$> unquote t).
Proof. destruct c as [[] [] [] [] [] [] [] []]; reflexivity. Qed.

Lemma unquote_quoted (s t : string) : unquote (quote_chars 0 s +:+ dquote +:+ t) = Some (s, t).
Proof.
  remember (strlen s) as n eqn:Hn. revert s Hn. induction (lt_wf n) as [n _ IH]. intros s ->.
  destruct s as [|c s]; [reflexivity|]. cbn [quote_chars].
  assert (Hsep : ∀ b1 b2 b3 esc, String c s = byte_str [b1; b2; b3] +:+ str_drop 3 (String c s) →
    has_prefix (String c s) (byte_str [b1; b2; b3]) = true →
    (∀ u, unquote (esc +:+ u) = (prod_map (String.append (byte_str [b1; b2; b3])) id <$> unquote u)) →
    unquote ((esc +:+ quote_chars 2 s) +:+ dquote +:+ t) = Some (String c s, t)).
  { intros b1 b2 b3 esc Hs _ Hesc. rewrite <-str_app_assoc, Hesc. destruct s as [|c2 [|c3 s]]; [done..|].
    cbn [quote_chars]. cbn [str_drop] in Hs. rewrite (IH (strlen s)) by (simpl; lia || done).
    cbn. cbn in Hs. rewrite <-Hs. done. }
  destruct (has_prefix (String c s) line_separator) eqn:H1.
  { apply (Hsep 226%nat 128%nat 168%nat "\u2028"); [|done|reflexivity].
    apply prefix_spec in H1 as [u Hu]. rewrite Hu at 1. unfold line_separator. f_equal. rewrite Hu. reflexivity. }
  destruct (has_prefix (String c s) paragraph_separator) eqn:H2.
  { apply (Hsep 226%nat 128%nat 169%nat "\u2029"); [|done|reflexivity].
    apply prefix_spec in H2 as [u Hu]. rewrite Hu at 1. unfold paragraph_separator. f_equal. rewrite Hu. reflexivity. }
  rewrite <-str_app_assoc, unquote_char, (IH (strlen s)) by (simpl; lia || done). done.
Qed.

(** Quoted text can be read off the front of a text: the two parts are determined. *)
Lemma json_string_app_inj (s1 s2 t1 t2 : string) :
  json_string s1 +:+ t1 = json_string s2 +:+ t2 → s1 = s2 ∧ t1 = t2.
Proof.
  assert (Hd : ∀ u v : string, dquote +:+ u = dquote +:+ v → u = v) by (intros u v [= ?]; done).
  unfold json_string. rewrite <-!str_app_assoc. intros H%Hd.
  assert (Some (s1, t1) = Some (s2, t2)) as [= -> ->]; [|done].
  by rewrite <-!unquote_quoted, H.
Qed.

(** ** The order of members does not matter *)

Lemma last_wins_distinct {A} (ms : list (string * A)) : NoDup ms.*1 → last_wins ms = ms.
Proof.
  induction ms as [|m ms IH]; simpl; [done|]. intros [Hm Hnd]%list.NoDup_cons.
  destruct (existsb _ ms) eqn:He; [|by rewrite IH].
  apply existsb_elem in He as (m' & Hin & Heq%String.eqb_eq). destruct Hm. rewrite Heq.
  by apply list_elem_of_fmap_2.
Qed.

(** Sorting by a key under which no two elements are equal forgets the order. *)
Lemma stable_sort_distinct {A} (f : A → string) (l1 l2 : list A) :
  NoDup (map f l1) → l1 ≡ₚ l2 → stable_sort (less_str f) l1 = stable_sort (less_str f) l2.
Proof.
  intros Hnd Hp.
  assert (Hp' : stable_sort (less_str f) l1 ≡ₚ stable_sort (less_str f) l2) by (by rewrite !stable_sort_perm).
  assert (Hnd' : NoDup (map f (stable_sort (less_str f) l1))).
  { by rewrite (Permutation_map f (stable_sort_perm (less_str f) l1)). }
  pose proof (stable_sort_ordered (less_str f) l1) as O1. pose proof (stable_sort_ordered (less_str f) l2) as O2.
  revert Hp' Hnd' O1 O2. generalize (stable_sort (less_str f) l1), (stable_sort (less_str f) l2).
  clear. intros k1. induction k1 as [|x k1 IH]; intros k2 Hp Hnd O1 O2.
  { by apply Permutation_nil in Hp as ->. }
  destruct k2 as [|y k2]; [symmetry in Hp; by apply Permutation_nil in Hp|].
  assert (x = y) as ->.
  { inversion O1 as [|? ? _ H1]; inversion O2 as [|? ? _ H2]; subst. rewrite Forall_elem in H1, H2.
    assert (Hx : x ∈ y :: k2) by (rewrite <-Hp; left). assert (Hy : y ∈ x :: k1) by (rewrite Hp; left).
    apply elem_of_cons in Hx as [|Hx]; [done|]. apply elem_of_cons in Hy as [|Hy]; [done|].
    specialize (H1 y Hy). specialize (H2 x Hx). exfalso. simpl in Hnd. apply list.NoDup_cons in Hnd as [Hn _].
    apply Hn. rewrite (ltb_trichotomy (f x) (f y) H2 H1). by apply list_elem_of_fmap_2. }
  f_equal. apply IH.
  - by apply Permutation_cons_inv in Hp.
  - simpl in Hnd. by apply list.NoDup_cons in Hnd as [_ ?].
  - by inversion O1.
  - by inversion O2.
Qed.

Lemma marshal_object_perm (ms1 ms2 : members) :
  NoDup ms1.*1 → ms1 ≡ₚ ms2 → marshal (JObject ms1) = marshal (JObject ms2).
Proof.
  assert (Hm : ∀ ms, marshal (JObject ms) =
    json_object (stable_sort (less_str fst) (last_wins (map (λ m, (m.1, marshal m.2)) ms)))) by done.
  intros Hnd Hp. rewrite !Hm. f_equal. clear Hm.
  assert (Hk : ∀ ms : members, (map (λ m, (m.1, marshal m.2)) ms).*1 = ms.*1).
  { intros ms. induction ms as [|m ms IH]; [done|]. cbn -[marshal]. f_equal. exact IH. }
  rewrite (last_wins_distinct (map _ ms1)) by by rewrite Hk.
  rewrite (last_wins_distinct (map _ ms2)) by (rewrite Hk; by rewrite <-Hp). apply stable_sort_distinct.
  - change (map fst) with (fmap (M:=list) (fst (A:=string) (B:=string))). by rewrite Hk.
  - by apply Permutation_map.
Qed.

Example marshal_example :
  marshal (JObject [("b", JNumber "1.0"); ("a", JArray [JNull; JString "<x>"]); ("b", JBool true)]) =
  "{" +:+ dquote +:+ "a" +:+ dquote +:+ ":[null," +:+ dquote +:+ "\u003cx\u003e" +:+ dquote +:+ "]," +:+
  dquote +:+ "b" +:+ dquote +:+ ":true}".
Proof. vm_compute. reflexivity. Qed.
