(* ===== verification/ApprovalProof.v ===== *)
(** * Approval proofs: internal/agent/plugin_approval.go and the approval part of
    internal/agent/computer_use.go

    An approved call of a plugin or of a host-interaction tool carries a signed proof
    of its approval to the executor, which checks that the proof is for this call, this
    input and this policy, and remembers the signatures it accepted.  Uses of proofs interleave,
    as steps of a machine.  The two kinds of proof have
    the same fields and differ in the key, the executors they are for and the order of the
    checks; [mintPluginApproval] and [mintHostInteractionApproval] are separate here as
    they are there.  The random keys and the clock are arguments; a proof is signed with
    HMAC-SHA256 over its JSON text. *)

From S2P Require Export Approval JsonText.

Local Open Scope string_scope.
Local Open Scope Z_scope.

(** ** Keyed hashing and times *)

Definition string_of_bytes (bs : list Z) : string := byte_str (map Z.to_nat bs).

(** [hmac.New(sha256.New, key)] for a key of at most one block. *)
Definition hmac_pad (byte : Z) (key : string) : string :=
  string_of_bytes (map (Z.lxor byte) (bytes_of key ++ repeat 0 (64 - strlen key))).
Definition hmac_sha256 (key msg : string) : list Z :=
  Sum256 (hmac_pad 92 key +:+ string_of_bytes (Sum256 (hmac_pad 54 key +:+ msg))).

(** [hex.DecodeString]: both cases, pairs of digits only. *)
Definition hex_value (c : ascii) : option Z :=
  let n := Z.of_nat (nat_of_ascii c) in
  if byte_in 48 57 n then Some (n - 48) else if byte_in 97 102 n then Some (n - 87)
  else if byte_in 65 70 n then Some (n - 55) else None.
Fixpoint DecodeString (s : string) : option (list Z) :=
  match s with
  | "" => Some []
  | String a (String b s') =>
      match hex_value a, hex_value b, DecodeString s' with
      | Some h, Some l, Some bs => Some (16 * h + l :: bs)
      | _, _, _ => None
      end
  | _ => None
  end.

(** [UnixNano] of a time, and [time.Unix(0, n)]. *)
Definition unix_epoch : time := 62135596800 * second.
Definition unix_nano (t : time) : Z := wrap64 (t - unix_epoch).
Definition time_unix_nano (n : Z) : time := unix_epoch + n.

(** ** Proofs and their text *)

Record pluginApprovalProof := {
  ApprovalID : string;
  ApSessionID : string;
  ApRunID : string;
  ApToolCallID : string;
  ApToolName : string;
  ApExecutorID : string;
  ApApprovalSource : string;
  ApExecutionPolicy : Snapshot;
  ApExecutionPolicyRevision : Z;
  ApFullSelectionRevision : Z;
  ApInputDigest : string;
  ApExpiresAt : Z;
  ApSignature : string;
}.
Abbreviation hostInteractionApprovalProof := pluginApprovalProof.

(** [opts.approval] of a call without a proof. *)
Definition no_proof : pluginApprovalProof :=
  Build_pluginApprovalProof "" "" "" "" "" "" "" zeroSnapshot 0 0 "" 0 "".

Definition with_signature (signature : string) (p : pluginApprovalProof) : pluginApprovalProof :=
  {| ApprovalID := ApprovalID p; ApSessionID := ApSessionID p; ApRunID := ApRunID p; ApToolCallID := ApToolCallID p;
     ApToolName := ApToolName p; ApExecutorID := ApExecutorID p; ApApprovalSource := ApApprovalSource p;
     ApExecutionPolicy := ApExecutionPolicy p; ApExecutionPolicyRevision := ApExecutionPolicyRevision p;
     ApFullSelectionRevision := ApFullSelectionRevision p; ApInputDigest := ApInputDigest p;
     ApExpiresAt := ApExpiresAt p; ApSignature := signature |}.

Definition json_bool (b : bool) : string := if b then "true" else "false".
Definition omit_zero (name : string) (z : Z) : list (string * string) :=
  if z =? 0 then [] else [(name, pretty z)].

(** [json.Marshal] of the structs, member by member as their tags say. *)
Definition capabilities_text (c : Capabilities) : string :=
  json_object [("filesystemIsolation", json_bool (FilesystemIsolation c)); ("networkIsolation", json_bool (NetworkIsolation c));
    ("processIsolation", json_bool (ProcessIsolation c)); ("environmentIsolation", json_bool (EnvironmentIsolation c));
    ("processLimits", json_bool (ProcessLimits c)); ("memoryLimits", json_bool (MemoryLimits c));
    ("processTreeKill", json_bool (ProcessTreeKill c)); ("environmentFiltering", json_bool (EnvironmentFiltering c));
    ("timeouts", json_bool (Timeouts c))].
Definition snapshot_text (s : Snapshot) : string :=
  json_object ([("mode", json_string (SMode s)); ("revision", pretty (SRevision s));
      ("runtimeCapabilities", capabilities_text (RuntimeCapabilities s))] ++
    omit_zero "parentRevision" (ParentRevision s) ++ omit_zero "fullSelectionRevision" (FullSelectionRevision s) ++
    [("source", json_string (SSource s))])%list.
Definition proof_text (p : pluginApprovalProof) : string :=
  json_object [("approval_id", json_string (ApprovalID p)); ("session_id", json_string (ApSessionID p));
    ("run_id", json_string (ApRunID p)); ("tool_call_id", json_string (ApToolCallID p));
    ("tool_name", json_string (ApToolName p)); ("executor_id", json_string (ApExecutorID p));
    ("approval_source", json_string (ApApprovalSource p)); ("execution_policy", snapshot_text (ApExecutionPolicy p));
    ("execution_policy_revision", pretty (ApExecutionPolicyRevision p));
    ("full_selection_revision", pretty (ApFullSelectionRevision p)); ("input_digest", json_string (ApInputDigest p));
    ("expires_at", pretty (ApExpiresAt p)); ("signature", json_string (ApSignature p))].

(** The key is [None] when no random bytes could be had. *)
Definition signPluginApproval (key : option string) (proof : pluginApprovalProof) : option string :=
  key ≫= λ k, Some (EncodeToString (hmac_sha256 k (proof_text (with_signature "" proof)))).
Definition signHostInteractionApproval : option string → hostInteractionApprovalProof → option string :=
  signPluginApproval.

Definition nul_byte : string := String Ascii.zero "".
Definition approvalToolInputDigest (toolName input : string) : string :=
  "sha256:" +:+ sha256_hex (toolName +:+ nul_byte +:+ input).

(** ** Minting *)

Inductive ProofError :=
| PolicyInvalid (e : PolicyError) | MetadataIncomplete | RequestNotBound
| FullNeedsGrant | FullProvenanceInvalid | ChildNotBound | SourceNotExplicit
| ExecutorInvalid | ToolInvalid | KeyUnavailable
| PolicyMissing | BindingMissing | CallNotBound | InputNotBound | PolicyNotBound
| ProofIncomplete | ProofExpired | SignatureMismatch | ProofConsumed.

Definition validateApprovalProofSource (source : string) (policy : Snapshot) : result ProofError unit :=
  if String.eqb source ApprovalSourceUser then
    if String.eqb (SMode policy) ModeFull then Err FullNeedsGrant else Ok tt
  else if String.eqb source ApprovalSourceUserSelectedFull then
    if negb (String.eqb (SMode policy) ModeFull) || (FullSelectionRevision policy =? 0) then Err FullProvenanceInvalid
    else if String.eqb (SSource policy) SourceUserSelected then
      if (SRevision policy =? 0) || negb (FullSelectionRevision policy =? SRevision policy)
      then Err FullProvenanceInvalid else Ok tt
    else if String.eqb (SSource policy) SourceInherited || String.eqb (SSource policy) SourceChildRestriction then
      if (ParentRevision policy =? 0) || negb (ParentRevision policy =? SRevision policy)
      then Err ChildNotBound else Ok tt
    else Err FullProvenanceInvalid
  else Err SourceNotExplicit.

Definition validateApprovalProofMetadata (now : time) (pending : Pending) (toolCallID toolName executorID input : string)
    (policy : Snapshot) : result ProofError unit :=
  match ValidateSnapshot policy with
  | Err e => Err (PolicyInvalid e)
  | Ok _ =>
      if blank (pID pending) || blank (pSessionID pending) || blank (pRunID pending) || blank toolCallID
         || blank toolName || blank executorID || blank (pInputDigest pending)
         || is_zero (pExpiresAt pending) || negb (time_after (pExpiresAt pending) now)
      then Err MetadataIncomplete
      else if negb (String.eqb (pToolCallID pending) toolCallID) || negb (String.eqb (pToolName pending) toolName)
           || negb (String.eqb (pExecutorID pending) executorID)
           || negb (String.eqb (pInputDigest pending) (approvalToolInputDigest toolName input))
           || negb (pExecutionPolicyRevision pending =? SRevision policy)
           || negb (pFullSelectionRevision pending =? FullSelectionRevision policy)
      then Err RequestNotBound
      else validateApprovalProofSource (pApprovalSource pending) policy
  end.

Definition minted_proof (pending : Pending) (toolCallID : string) (policy : Snapshot) : pluginApprovalProof :=
  {| ApprovalID := trim_space (pID pending); ApSessionID := trim_space (pSessionID pending);
     ApRunID := trim_space (pRunID pending); ApToolCallID := trim_space toolCallID;
     ApToolName := trim_space (pToolName pending); ApExecutorID := trim_space (pExecutorID pending);
     ApApprovalSource := pApprovalSource pending; ApExecutionPolicy := policy;
     ApExecutionPolicyRevision := SRevision policy; ApFullSelectionRevision := FullSelectionRevision policy;
     ApInputDigest := pInputDigest pending; ApExpiresAt := unix_nano (pExpiresAt pending); ApSignature := "" |}.

Definition signed (key : option string) (proof : pluginApprovalProof) : result ProofError pluginApprovalProof :=
  match signPluginApproval key proof with
  | None => Err KeyUnavailable
  | Some signature => Ok (with_signature signature proof)
  end.

Definition mintPluginApproval (key : option string) (now : time) (pending : Pending) (toolCallID input : string)
    (policy : Snapshot) : result ProofError pluginApprovalProof :=
  _ ← validateApprovalProofMetadata now pending toolCallID (pToolName pending) (pExecutorID pending) input policy;
  _ ← guard_err (has_prefix (trim_space (pExecutorID pending)) "plugin:sha256:") ExecutorInvalid;
  signed key (minted_proof pending toolCallID policy).

Definition host_tools : list string :=
  ["Screenshot"; "MouseClick"; "TypeText"; "OpenApp"; "ListWindows"; "FileManager"; "Clipboard"].
Definition isHostInteractionTool (name : string) : bool := existsb (String.eqb name) host_tools.

Definition mintHostInteractionApproval (key : option string) (now : time) (pending : Pending) (toolCallID input : string)
    (policy : Snapshot) : result ProofError hostInteractionApprovalProof :=
  _ ← validateApprovalProofMetadata now pending toolCallID (pToolName pending) (pExecutorID pending) input policy;
  _ ← guard_err (String.eqb (pExecutorID pending) ("builtin:" +:+ pToolName pending)) ExecutorInvalid;
  _ ← guard_err (isHostInteractionTool (pToolName pending)) ToolInvalid;
  signed key (minted_proof pending toolCallID policy).

(** ** Checking and consuming *)

(** Signatures used, with the time their proofs expire. *)
Abbreviation UsedApprovals := (gmap string Z).

Definition cleanupExpiredPluginApprovals (now : time) (used : UsedApprovals) : UsedApprovals :=
  filter (λ kv, unix_nano now < kv.2) used.

(** The checks of [consumePluginApprovalProof] before anything is claimed; [now] is when the
    expiry is checked. *)
Definition check_proof (key : option string) (now : time) (proof : pluginApprovalProof) : result ProofError unit :=
  if String.eqb (ApprovalID proof) "" || String.eqb (ApSignature proof) "" then Err ProofIncomplete
  else if (ApExpiresAt proof <=? 0) || negb (time_after (time_unix_nano (ApExpiresAt proof)) now) then Err ProofExpired
  else match signPluginApproval key proof with
  | None => Err KeyUnavailable
  | Some expected =>
      match DecodeString (ApSignature proof), DecodeString expected with
      | Some provided, Some expected => if bool_decide (provided = expected) then Ok tt else Err SignatureMismatch
      | _, _ => Err SignatureMismatch
      end
  end.

(** [usedPluginApprovals.LoadOrStore], and what is made of its answer. *)
Definition load_or_store (proof : pluginApprovalProof) (used : UsedApprovals) : UsedApprovals * result ProofError unit :=
  match used !! ApSignature proof with
  | Some _ => (used, Err ProofConsumed)
  | None => (<[ApSignature proof := ApExpiresAt proof]> used, Ok tt)
  end.

(** A call that nothing interleaves with; [later] is when old signatures are dropped. *)
Definition consumePluginApprovalProof (key : option string) (now later : time) (proof : pluginApprovalProof)
    (used : UsedApprovals) : UsedApprovals * result ProofError unit :=
  match check_proof key now proof with
  | Err e => (used, Err e)
  | Ok _ => load_or_store proof (cleanupExpiredPluginApprovals later used)
  end.

(** What the run expects of the proof of a call. *)
Record ProofBinding := {
  PbSessionID : string; PbRunID : string; PbToolCallID : string;
  PbToolName : string; PbExecutorID : string; PbInput : string; PbPolicy : option Snapshot;
}.

Definition check_binding (proof : pluginApprovalProof) (b : ProofBinding) (executor_unset wrong_executor : bool)
    : result ProofError unit :=
  match PbPolicy b with
  | None => Err PolicyMissing
  | Some policy =>
      match ValidateSnapshot policy with
      | Err e => Err (PolicyInvalid e)
      | Ok _ =>
          if blank (PbSessionID b) || blank (PbRunID b) || blank (PbToolCallID b) || executor_unset then Err BindingMissing
          else if negb (String.eqb (ApSessionID proof) (PbSessionID b)) || negb (String.eqb (ApRunID proof) (PbRunID b))
               || negb (String.eqb (ApToolCallID proof) (PbToolCallID b))
          then Err CallNotBound
          else if negb (String.eqb (ApToolName proof) (PbToolName b)) || negb (String.eqb (ApExecutorID proof) (PbExecutorID b))
               || wrong_executor
               || negb (String.eqb (ApInputDigest proof) (approvalToolInputDigest (PbToolName b) (PbInput b)))
          then Err InputNotBound
          else if negb (bool_decide (ApExecutionPolicy proof = policy))
               || negb (ApExecutionPolicyRevision proof =? SRevision policy)
               || negb (ApFullSelectionRevision proof =? FullSelectionRevision policy)
          then Err PolicyNotBound
          else Ok tt
      end
  end.

(** Everything an executor checks of a proof before it claims it: the bindings, the source of
    the approval and the incompleteness of a host proof, then what both kinds check. *)
Definition admit_plugin (key : option string) (now : time) (proof : pluginApprovalProof) (b : ProofBinding)
    : result ProofError unit :=
  _ ← check_binding proof b false false;
  check_proof key now proof.

Definition admit_host (key : option string) (now : time) (proof : hostInteractionApprovalProof) (b : ProofBinding)
    : result ProofError unit :=
  _ ← check_binding proof b (blank (PbExecutorID b)) (negb (String.eqb (ApExecutorID proof) ("builtin:" +:+ PbToolName b)));
  _ ← match PbPolicy b with
      | Some policy => validateApprovalProofSource (ApApprovalSource proof) policy
      | None => Ok tt
      end;
  _ ← guard_err (negb (String.eqb (ApSessionID proof) "" || String.eqb (ApRunID proof) "")) ProofIncomplete;
  check_proof key now proof.

Definition validatePluginApprovalBound (key : option string) (now later : time) (proof : pluginApprovalProof)
    (b : ProofBinding) (used : UsedApprovals) : UsedApprovals * result ProofError unit :=
  match check_binding proof b false false with
  | Err e => (used, Err e)
  | Ok _ => consumePluginApprovalProof key now later proof used
  end.

Definition validateHostInteractionApproval (key : option string) (now later : time) (proof : hostInteractionApprovalProof)
    (b : ProofBinding) (used : UsedApprovals) : UsedApprovals * result ProofError unit :=
  match admit_host key now proof b with
  | Err e => (used, Err e)
  | Ok _ => load_or_store proof (cleanupExpiredPluginApprovals later used)
  end.

(** ** The text of a proof determines it *)

(** Texts that can be read off the front of a longer one that goes on with a comma or a
    closing brace. *)
Definition stops (t : string) : Prop := ∃ t', t = "," +:+ t' ∨ t = "}" +:+ t'.
Class Delimited {A} (enc : A → string) : Prop :=
  delimited a b t u : stops t → stops u → enc a +:+ t = enc b +:+ u → a = b ∧ t = u.

Lemma stops_comma t : stops ("," +:+ t).
Proof. exists t. by left. Qed.
Lemma stops_brace t : stops ("}" +:+ t).
Proof. exists t. by right. Qed.

#[export] Instance string_delimited : Delimited json_string.
Proof. intros a b t u _ _. apply json_string_app_inj. Qed.

#[export] Instance bool_delimited : Delimited json_bool.
Proof.
  intros [] [] t u _ _; unfold json_bool; intros H; simplify_eq/=; done.
Qed.

(** Two texts of one kind of characters, each followed by another kind. *)
Lemma str_all_split (P : ascii → bool) (x y t u : string) :
  str_all P x = true → str_all P y = true →
  (∀ c t', t = String c t' → P c = false) → (∀ c u', u = String c u' → P c = false) →
  x +:+ t = y +:+ u → x = y ∧ t = u.
Proof.
  revert y. induction x as [|c x IH]; intros [|d y] Hx Hy Ht Hu H; simpl in *; split_bools.
  - done.
  - exfalso. pose proof (Ht d (y +:+ u) H). congruence.
  - exfalso. pose proof (Hu c (x +:+ t) (eq_sym H)). congruence.
  - injection H as -> H. destruct (IH y) as [-> ->]; done.
Qed.

Definition number_char (c : ascii) : bool :=
  byte_in 48 57 (Z.of_nat (nat_of_ascii c)) || Ascii.eqb c "-".

Lemma pretty_N_char_number n : (n < 10)%N → number_char (pretty_N_char n) = true.
Proof. intros H. destruct n as [|p]; [done|]. do 4 (destruct p as [p|p|]; try done; try lia). Qed.

Lemma pretty_N_go_number n s : str_all number_char s = true → str_all number_char (pretty_N_go n s) = true.
Proof.
  revert s. induction (N.lt_wf_0 n) as [n _ IH]. intros s Hs.
  destruct (decide (0 < n)%N) as [Hn|Hn].
  - rewrite pretty_N_go_step by done. apply IH; [apply N.div_lt; lia|]. simpl.
    rewrite pretty_N_char_number; [done|]. apply N.mod_lt. lia.
  - assert (n = 0%N) as -> by lia. by rewrite pretty_N_go_0.
Qed.

Lemma pretty_N_number (n : N) : str_all number_char (pretty n) = true.
Proof.
  unfold pretty, pretty_N. case_decide; [done|]. by apply pretty_N_go_number.
Qed.

Lemma pretty_Z_number (z : Z) : str_all number_char (pretty z) = true.
Proof.
  destruct z as [|p|p]; [done|apply (pretty_N_number (N.pos p))|].
  change (pretty (Z.neg p)) with ("-" +:+ pretty (N.pos p)). rewrite str_all_app. by rewrite pretty_N_number.
Qed.

Lemma stops_number t c t' : stops t → t = String c t' → number_char c = false.
Proof. intros (t'' & [->| ->]) E; by injection E as <- _. Qed.

#[export] Instance Z_delimited : Delimited (pretty (A := Z)).
Proof.
  intros a b t u Ht Hu H. apply (str_all_split number_char) in H as [H ->].
  - split; [by apply (inj pretty) in H|done].
  - apply pretty_Z_number.
  - apply pretty_Z_number.
  - intros c t' E. exact (stops_number _ _ _ Ht E).
  - intros c u' E. exact (stops_number _ _ _ Hu E).
Qed.

(** *** Objects *)

(** The rest of an object after some of its members. *)
Definition object_rest (members : list (string * string)) : string :=
  match members with
  | [] => "}"
  | _ => "," +:+ str_join "," (map json_member members) +:+ "}"
  end.

Lemma object_rest_stops ms t : stops (object_rest ms +:+ t).
Proof. destruct ms as [|m ms]; [apply stops_brace|]. unfold object_rest. rewrite <- str_app_assoc. apply stops_comma. Qed.

Lemma object_rest_cons m ms : object_rest (m :: ms) = "," +:+ json_member m +:+ object_rest ms.
Proof.
  destruct ms as [|m' ms]; [done|]. unfold object_rest. cbn [map]. rewrite str_join_cons.
  by rewrite <- !str_app_assoc.
Qed.

Lemma json_object_cons m ms : json_object (m :: ms) = "{" +:+ json_member m +:+ object_rest ms.
Proof.
  destruct ms as [|m' ms]; [done|]. unfold json_object, object_rest. cbn [map]. rewrite str_join_cons.
  by rewrite <- !str_app_assoc.
Qed.

Lemma member_inj {A} (enc : A → string) `{!Delimited enc} name a b ms ms' t u :
  json_member (name, enc a) +:+ object_rest ms +:+ t = json_member (name, enc b) +:+ object_rest ms' +:+ u →
  a = b ∧ object_rest ms +:+ t = object_rest ms' +:+ u.
Proof.
  unfold json_member. cbn [fst snd]. rewrite <- !str_app_assoc. intros H.
  apply (inj (String.append _)) in H. apply (inj (String.append _)) in H.
  by apply delimited in H; [|apply object_rest_stops..].
Qed.

Lemma first_member_inj {A} (enc : A → string) `{!Delimited enc} name a b ms ms' t u :
  json_object ((name, enc a) :: ms) +:+ t = json_object ((name, enc b) :: ms') +:+ u →
  a = b ∧ object_rest ms +:+ t = object_rest ms' +:+ u.
Proof.
  rewrite !json_object_cons, <- !str_app_assoc. intros H. apply (inj (String.append _)) in H.
  by apply member_inj in H.
Qed.

Lemma next_member_inj {A} (enc : A → string) `{!Delimited enc} name a b ms ms' t u :
  object_rest ((name, enc a) :: ms) +:+ t = object_rest ((name, enc b) :: ms') +:+ u →
  a = b ∧ object_rest ms +:+ t = object_rest ms' +:+ u.
Proof.
  rewrite !object_rest_cons, <- !str_app_assoc. intros H. apply (inj (String.append _)) in H.
  by apply member_inj in H.
Qed.

Lemma member_names_inj (n1 n2 v1 v2 : string) ms ms' t u :
  object_rest ((n1, v1) :: ms) +:+ t = object_rest ((n2, v2) :: ms') +:+ u → n1 = n2.
Proof.
  rewrite !object_rest_cons, <- !str_app_assoc. intros H. apply (inj (String.append _)) in H.
  unfold json_member in H. cbn [fst snd] in H. rewrite <- !str_app_assoc in H.
  by apply json_string_app_inj in H as [-> _].
Qed.

Lemma object_end_inj t u : object_rest [] +:+ t = object_rest [] +:+ u → t = u.
Proof. intros H. by apply (inj (String.append _)) in H. Qed.

(** An optional number: its name tells whether it is there. *)
Lemma omit_zero_inj name a b ms ms' t u :
  fst <$> head ms ≠ Some name → fst <$> head ms' ≠ Some name →
  object_rest (omit_zero name a ++ ms) +:+ t = object_rest (omit_zero name b ++ ms') +:+ u →
  a = b ∧ object_rest ms +:+ t = object_rest ms' +:+ u.
Proof.
  intros Hn Hn'. unfold omit_zero. destruct (Z.eqb_spec a 0) as [->|Ha], (Z.eqb_spec b 0) as [->|Hb]; cbn [app]; intros H.
  - done.
  - exfalso. destruct ms as [|[n v] ms]; [by rewrite object_rest_cons in H|].
    apply member_names_inj in H. subst n. by apply Hn.
  - exfalso. destruct ms' as [|[n v] ms']; [by rewrite object_rest_cons in H|].
    apply member_names_inj in H. subst n. by apply Hn'.
  - by apply (next_member_inj (pretty (A := Z))) in H.
Qed.

Ltac read_members H :=
  let E := fresh "E" in
  lazymatch type of H with
  | json_object ((_, ?enc ?a) :: _) +:+ _ = json_object ((_, _ ?b) :: _) +:+ _ =>
      apply (first_member_inj enc _ a b) in H as [E H]; read_members H
  | object_rest ((_, ?enc ?a) :: _) +:+ _ = object_rest ((_, _ ?b) :: _) +:+ _ =>
      apply (next_member_inj enc _ a b) in H as [E H]; read_members H
  | object_rest [] +:+ _ = _ => apply object_end_inj in H
  | object_rest (omit_zero ?name _ ++ _) +:+ _ = _ =>
      apply (omit_zero_inj name) in H as [E H];
        [read_members H|unfold omit_zero; repeat case_match; discriminate..]
  end.

#[export] Instance capabilities_delimited : Delimited capabilities_text.
Proof.
  intros a b t u _ _ H. unfold capabilities_text in H. read_members H. split; [|done].
  destruct a, b. simpl in *. by subst.
Qed.

#[export] Instance snapshot_delimited : Delimited snapshot_text.
Proof.
  intros a b t u _ _ H. unfold snapshot_text in H. cbn [app] in H. read_members H. split; [|done].
  destruct a, b. simpl in *. by subst.
Qed.

(** What is signed determines the proof. *)
Lemma proof_text_inj p q : proof_text p = proof_text q → p = q.
Proof.
  intros H. unfold proof_text in H. rewrite <- (str_app_nil_r (json_object _)) in H.
  rewrite <- (str_app_nil_r (json_object (("approval_id", json_string (ApprovalID q)) :: _))) in H.
  read_members H. destruct p, q. simpl in *. by subst.
Qed.

(** ** Hexadecimal text *)

Lemma hex_value_digit n : 0 ≤ n < 16 → hex_value (hex_digit n) = Some n.
Proof.
  intros H. assert (Hn : n ∈ map Z.of_nat (seq 0 16)).
  { apply list_elem_of_In, in_map_iff. exists (Z.to_nat n). split; [lia|]. apply in_seq. lia. }
  apply list_elem_of_In in Hn. repeat destruct Hn as [<-|Hn]; try reflexivity. destruct Hn.
Qed.

Lemma DecodeString_Encode bs :
  Forall (λ b, 0 ≤ b < 256) bs → DecodeString (EncodeToString bs) = Some bs.
Proof.
  induction 1 as [|b bs Hb _ IH]; [done|]. cbn [EncodeToString DecodeString].
  rewrite IH, !hex_value_digit.
  - do 2 f_equal. rewrite Z.shiftr_div_pow2 by lia. change 15 with (Z.ones 4). rewrite Z.land_ones by lia.
    change (2 ^ 4) with 16. pose proof (Z.div_mod b 16). lia.
  - change 15 with (Z.ones 4). rewrite Z.land_ones by lia. apply Z.mod_pos_bound. lia.
  - rewrite Z.shiftr_div_pow2 by lia. split; [apply Z.div_pos; lia|]. apply Z.div_lt_upper_bound; lia.
Qed.

Lemma hmac_bytes k t : Forall (λ b, 0 ≤ b < 256) (hmac_sha256 k t).
Proof. unfold hmac_sha256. apply Sum256_bytes. Qed.

(** ** Theorems *)

#[local] Opaque hmac_sha256 proof_text EncodeToString DecodeString json_object sha256_hex.

(** The two kinds of proof. *)
Inductive ProofKind := PluginProof | HostProof.
Definition mint (kind : ProofKind) :=
  match kind with PluginProof => mintPluginApproval | HostProof => mintHostInteractionApproval end.
Definition validate (kind : ProofKind) :=
  match kind with PluginProof => validatePluginApprovalBound | HostProof => validateHostInteractionApproval end.

Lemma mint_ok kind key now pending callID input policy proof :
  mint kind key now pending callID input policy = Ok proof →
  validateApprovalProofMetadata now pending callID (pToolName pending) (pExecutorID pending) input policy = Ok tt ∧
  ∃ k, key = Some k ∧ proof = with_signature (EncodeToString (hmac_sha256 k (proof_text (minted_proof pending callID policy))))
                                (minted_proof pending callID policy).
Proof.
  intros H.
  assert (validateApprovalProofMetadata now pending callID (pToolName pending) (pExecutorID pending) input policy = Ok tt ∧
          signed key (minted_proof pending callID policy) = Ok proof) as [H1 H2].
  { destruct kind; simpl in H; unfold mintPluginApproval, mintHostInteractionApproval in H; inv_result;
      by repeat match goal with u : () |- _ => destruct u end. }
  split; [done|]. unfold signed, signPluginApproval in H2. destruct key as [k|]; simpl in H2; [|done].
  exists k. split; [done|]. by injection H2 as <-.
Qed.

Lemma metadata_ok now pending callID tool executor input policy :
  validateApprovalProofMetadata now pending callID tool executor input policy = Ok tt →
  pToolCallID pending = callID ∧ pToolName pending = tool ∧ pExecutorID pending = executor ∧
  pInputDigest pending = approvalToolInputDigest tool input ∧
  pFullSelectionRevision pending = FullSelectionRevision policy ∧ now < pExpiresAt pending ∧
  validateApprovalProofSource (pApprovalSource pending) policy = Ok tt.
Proof.
  unfold validateApprovalProofMetadata. intros H. repeat case_match; try discriminate.
  repeat match goal with H : (_ || _) = false |- _ => apply orb_false_elim in H as [? ?] end.
  split_bools. unfold time_after in *. rewrite !Z.ltb_lt in *. rewrite !Z.eqb_eq in *. by split_and!.
Qed.

Lemma check_proof_ok key now proof :
  check_proof key now proof = Ok tt →
  now < time_unix_nano (ApExpiresAt proof) ∧
  ∃ k, key = Some k ∧ DecodeString (ApSignature proof) = Some (hmac_sha256 k (proof_text (with_signature "" proof))).
Proof.
  unfold check_proof, signPluginApproval. intros H.
  destruct key as [k|]; simpl in H; [|repeat case_match; simplify_eq].
  rewrite DecodeString_Encode in H by apply hmac_bytes. repeat case_match; simplify_eq; split_bools; simplify_eq.
  unfold time_after in *. rewrite Z.ltb_lt in *. split; [done|]. by exists k.
Qed.

Definition admit_proof (kind : ProofKind) :=
  match kind with PluginProof => admit_plugin | HostProof => admit_host end.

(** A validation is the admission, then the claim. *)
Lemma validate_admit kind key now later proof b used :
  validate kind key now later proof b used =
  match admit_proof kind key now proof b with
  | Err e => (used, Err e)
  | Ok _ => load_or_store proof (cleanupExpiredPluginApprovals later used)
  end.
Proof.
  destruct kind; [|done]. simpl. unfold validatePluginApprovalBound, admit_plugin, consumePluginApprovalProof.
  by destruct (check_binding _ _ _ _).
Qed.

Lemma admit_ok kind key now proof b :
  admit_proof kind key now proof b = Ok tt →
  (∃ e w, check_binding proof b e w = Ok tt) ∧ check_proof key now proof = Ok tt.
Proof.
  destruct kind; simpl; [unfold admit_plugin|unfold admit_host]; intros H; inv_result;
    repeat match goal with u : () |- _ => destruct u end; (split; [by eexists _, _|done]).
Qed.

Lemma check_binding_ok proof b e w :
  check_binding proof b e w = Ok tt →
  ApSessionID proof = PbSessionID b ∧ ApRunID proof = PbRunID b ∧ ApToolCallID proof = PbToolCallID b ∧
  ApToolName proof = PbToolName b ∧ ApExecutorID proof = PbExecutorID b ∧
  ApInputDigest proof = approvalToolInputDigest (PbToolName b) (PbInput b) ∧
  PbPolicy b = Some (ApExecutionPolicy proof).
Proof.
  unfold check_binding. intros H. repeat case_match; try discriminate.
  repeat match goal with H : (_ || _) = false |- _ => apply orb_false_elim in H as [? ?] end.
  split_bools. subst. by split_and!.
Qed.

(** The text of [proof] is another one than that of [minted], but has its keyed hash. *)
Definition forged (key : option string) (proof minted : pluginApprovalProof) : Prop :=
  ∃ k, key = Some k ∧
    proof_text (with_signature "" proof) ≠ proof_text (with_signature "" minted) ∧
    hmac_sha256 k (proof_text (with_signature "" proof)) = hmac_sha256 k (proof_text (with_signature "" minted)).

Lemma not_forged key proof minted :
  (∃ k, key = Some k ∧ hmac_sha256 k (proof_text (with_signature "" proof)) = hmac_sha256 k (proof_text (with_signature "" minted))) →
  ¬ forged key proof minted → proof = with_signature (ApSignature proof) minted.
Proof.
  intros (k & Hk & Hh) Hn.
  destruct (decide (proof_text (with_signature "" proof) = proof_text (with_signature "" minted))) as [Ht|Ht].
  - apply proof_text_inj in Ht. transitivity (with_signature (ApSignature proof) (with_signature "" proof)); [by destruct proof|].
    by rewrite Ht.
  - destruct Hn. by exists k.
Qed.

(** C16: An approval authorizes exactly the call it was given for.  When an executor accepts a
    proof that carries the signature of a minted one (whatever the case of its hexadecimal
    digits), then the call has the session, run, id, tool and executor that the proof names,
    the digest of its input and its policy are those of the proof, and either the proof is a
    forgery (its text differs from the minted one's and has the same keyed hash), or it is the
    minted proof, field by field: the session, run, call, tool and executor are those of the
    request the user approved, the input has the digest of the approved input, the policy is
    the one of the approval and may be approved that way, and the approval has not expired. *)
Theorem approval_proof_binds kind key now pending callID input policy minted now' later proof b used :
  mint kind key now pending callID input policy = Ok minted →
  DecodeString (ApSignature proof) = DecodeString (ApSignature minted) →
  (validate kind key now' later proof b used).2 = Ok tt →
  (ApSessionID proof = PbSessionID b ∧ ApRunID proof = PbRunID b ∧ ApToolCallID proof = PbToolCallID b ∧
   ApToolName proof = PbToolName b ∧ ApExecutorID proof = PbExecutorID b ∧
   ApInputDigest proof = approvalToolInputDigest (PbToolName b) (PbInput b) ∧
   PbPolicy b = Some (ApExecutionPolicy proof) ∧ now' < time_unix_nano (ApExpiresAt proof)) ∧
  (forged key proof minted ∨
   proof = with_signature (ApSignature proof) minted ∧
   PbSessionID b = trim_space (pSessionID pending) ∧ PbRunID b = trim_space (pRunID pending) ∧
   PbToolCallID b = trim_space (pToolCallID pending) ∧ PbToolName b = trim_space (pToolName pending) ∧
   PbExecutorID b = trim_space (pExecutorID pending) ∧
   approvalToolInputDigest (PbToolName b) (PbInput b) = approvalToolInputDigest (pToolName pending) input ∧
   PbPolicy b = Some policy ∧ validateApprovalProofSource (pApprovalSource pending) policy = Ok tt ∧
   now' < time_unix_nano (unix_nano (pExpiresAt pending))).
Proof.
  intros Hm Hsig Hv. apply mint_ok in Hm as (Hmeta & k & -> & ->).
  rewrite validate_admit in Hv. destruct (admit_proof kind _ now' proof b) as [[]|] eqn:Ha; [|done]. clear Hv.
  apply admit_ok in Ha as [(e & w & Hb) Hc]. apply check_proof_ok in Hc as (Hexp & k' & [= <-] & Hd).
  apply check_binding_ok in Hb as (B1 & B2 & B3 & B4 & B5 & B6 & B7). split; [by split_and!|].
  rewrite Hsig in Hd. cbn [with_signature ApSignature] in Hd. rewrite DecodeString_Encode in Hd by apply hmac_bytes.
  apply (inj Some) in Hd. match type of Hd with _ = hmac_sha256 _ _ => set (minted := with_signature _ (minted_proof _ _ _)) end.
  destruct (decide (proof_text (with_signature "" proof) = proof_text (with_signature "" minted))) as [Ht|Ht].
  - right. assert (Hp : proof = with_signature (ApSignature proof) minted).
    { apply (not_forged (Some k)); [exists k; by rewrite Ht|]. intros (? & _ & Hne & _). done. }
    apply metadata_ok in Hmeta as (<- & _ & _ & M4 & _ & _ & M7).
    subst minted. rewrite Hp in *. cbn in *. split_and!; congruence.
  - left. exists k. split_and!; done.
Qed.

(** ** Uses that interleave

    Executors that run at the same time use one table of signatures, and none of them holds a
    lock.  A use checks its proof (one reading of the clock), reads the clock again for
    [cleanupExpired...], whose [Range] then sees entries and deletes those that had expired,
    one at a time and in any order, and claims the signature with [LoadOrStore].  What [Range]
    sees of an entry is its value at some time during the call, so an entry that was seen may
    be deleted at any later point of it; it may also end without having seen an entry.  The
    clock, the table and the uses in progress are the state; the accepted proofs are a record
    for the theorem.  Each kind of proof has a table of its own. *)

Inductive UsePhase :=
| UseStarted
| UseChecked (checked : time)
| UseCleaning (checked cutoff : time) (seen : gset string)
| UseReturned (r : result ProofError unit).

Record Use := { u_proof : pluginApprovalProof; u_binding : ProofBinding; u_phase : UsePhase }.
Definition at_phase (p : UsePhase) (u : Use) : Use :=
  {| u_proof := u_proof u; u_binding := u_binding u; u_phase := p |}.

Record Acceptance := { ac_checked : time; ac_claimed : time; ac_proof : pluginApprovalProof }.

Record UseState := {
  us_clock : time;
  us_used : gmap string Z;
  us_uses : list Use;
  us_accepted : list Acceptance;
}.
Definition initial_uses (t : time) : UseState := {| us_clock := t; us_used := ∅; us_uses := []; us_accepted := [] |}.

Inductive UseEvent :=
| UTick (t : time)
| UStart (proof : pluginApprovalProof) (b : ProofBinding)
| UCheck (i : nat)
| UReadClock (i : nat)
| USee (i : nat) (signature : string)
| UDelete (i : nat) (signature : string)
| UClaim (i : nat).

Section Uses.
Context (kind : ProofKind) (key : option string).

Definition set_use (i : nat) (u : Use) (p : UsePhase) (s : UseState) : UseState :=
  {| us_clock := us_clock s; us_used := us_used s; us_uses := <[i := at_phase p u]> (us_uses s); us_accepted := us_accepted s |}.
Definition set_used (used : gmap string Z) (s : UseState) : UseState :=
  {| us_clock := us_clock s; us_used := used; us_uses := us_uses s; us_accepted := us_accepted s |}.
Definition accept (checked : time) (proof : pluginApprovalProof) (s : UseState) : UseState :=
  {| us_clock := us_clock s; us_used := us_used s; us_uses := us_uses s;
     us_accepted := {| ac_checked := checked; ac_claimed := us_clock s; ac_proof := proof |} :: us_accepted s |}.

(** One step of one use; [None] when the use is not there. *)
Definition use_step (e : UseEvent) (s : UseState) : option UseState :=
  match e with
  | UTick t =>
      if us_clock s <=? t
      then Some {| us_clock := t; us_used := us_used s; us_uses := us_uses s; us_accepted := us_accepted s |} else None
  | UStart proof b =>
      Some {| us_clock := us_clock s; us_used := us_used s;
              us_uses := us_uses s ++ [{| u_proof := proof; u_binding := b; u_phase := UseStarted |}];
              us_accepted := us_accepted s |}
  | UCheck i =>
      u ← us_uses s !! i;
      match u_phase u with
      | UseStarted =>
          Some (set_use i u match admit_proof kind key (us_clock s) (u_proof u) (u_binding u) with
                            | Ok _ => UseChecked (us_clock s)
                            | Err e => UseReturned (Err e)
                            end s)
      | _ => None
      end
  | UReadClock i =>
      u ← us_uses s !! i;
      match u_phase u with UseChecked checked => Some (set_use i u (UseCleaning checked (us_clock s) ∅) s) | _ => None end
  | USee i k =>
      u ← us_uses s !! i;
      match u_phase u, us_used s !! k with
      | UseCleaning checked cutoff seen, Some expires =>
          if expires <=? unix_nano cutoff then Some (set_use i u (UseCleaning checked cutoff ({[k]} ∪ seen)) s) else None
      | _, _ => None
      end
  | UDelete i k =>
      u ← us_uses s !! i;
      match u_phase u with
      | UseCleaning _ _ seen => if decide (k ∈ seen) then Some (set_used (delete k (us_used s)) s) else None
      | _ => None
      end
  | UClaim i =>
      u ← us_uses s !! i;
      match u_phase u with
      | UseCleaning checked _ _ =>
          let '(used, r) := load_or_store (u_proof u) (us_used s) in
          let s' := set_used used (set_use i u (UseReturned r) s) in
          Some (if is_ok r then accept checked (u_proof u) s' else s')
      | _ => None
      end
  end.

Fixpoint use_run (events : list UseEvent) (s : UseState) : option UseState :=
  match events with
  | [] => Some s
  | e :: events' => s' ← use_step e s; use_run events' s'
  end.

(** A time whose [UnixNano] is exact: from 1678 to 2262. *)
Definition nano_range (t : time) : Prop := min_int64 ≤ t - unix_epoch ≤ max_int64.

(** When the process started. *)
Context (t0 : time).

(** An accepted proof is remembered, or one with its signature has expired. *)
Definition expired_by (t : time) (signature : string) (l : list Acceptance) : Prop :=
  ∃ a, a ∈ l ∧ ApSignature (ac_proof a) = signature ∧ time_unix_nano (ApExpiresAt (ac_proof a)) ≤ t.

Definition accepted_ok (t : time) (a : Acceptance) : Prop :=
  ac_checked a < time_unix_nano (ApExpiresAt (ac_proof a)) ∧ ac_claimed a ≤ t ∧
  check_proof key (ac_checked a) (ac_proof a) = Ok tt.

Definition phase_ok (s : UseState) (u : Use) : Prop :=
  match u_phase u with
  | UseChecked checked => check_proof key checked (u_proof u) = Ok tt
  | UseCleaning checked cutoff seen =>
      check_proof key checked (u_proof u) = Ok tt ∧ t0 ≤ cutoff ≤ us_clock s ∧
      ∀ k, k ∈ seen → expired_by (us_clock s) k (us_accepted s)
  | _ => True
  end.

(** Of two accepted proofs with one signature, the later was claimed after one with that
    signature had expired. *)
Fixpoint replays_ok (l : list Acceptance) : Prop :=
  match l with
  | [] => True
  | a :: l' => (∀ a', a' ∈ l' → ApSignature (ac_proof a') = ApSignature (ac_proof a) →
                  expired_by (ac_claimed a) (ApSignature (ac_proof a)) l') ∧ replays_ok l'
  end.

Record uses_ok (s : UseState) : Prop := {
  uo_clock : t0 ≤ us_clock s;
  uo_accepted : Forall (accepted_ok (us_clock s)) (us_accepted s);
  uo_uses : Forall (phase_ok s) (us_uses s);
  uo_used : ∀ k v, us_used s !! k = Some v →
    ∃ a, a ∈ us_accepted s ∧ ApSignature (ac_proof a) = k ∧ ApExpiresAt (ac_proof a) = v;
  uo_remembered : ∀ a, a ∈ us_accepted s →
    is_Some (us_used s !! ApSignature (ac_proof a)) ∨ expired_by (us_clock s) (ApSignature (ac_proof a)) (us_accepted s);
  uo_replays : replays_ok (us_accepted s);
}.

Lemma expired_later t t' k l l' : t ≤ t' → l ⊆ l' → expired_by t k l → expired_by t' k l'.
Proof. intros Ht Hl (a & Ha & Hk & He). exists a. split_and!; [by apply Hl|done|lia]. Qed.

(** What changes the clock forward and only adds acceptances keeps what holds of a use. *)
Lemma phase_later s s' u :
  us_clock s ≤ us_clock s' → us_accepted s ⊆ us_accepted s' → phase_ok s u → phase_ok s' u.
Proof.
  intros Ht Hl. unfold phase_ok. destruct (u_phase u) as [| |checked cutoff seen|]; try done.
  intros (H1 & H2 & H3). split_and!; [done|lia|lia|]. intros k Hk. eapply expired_later; [exact Ht|exact Hl|by apply H3].
Qed.
Lemma phases_later s s' l :
  us_clock s ≤ us_clock s' → us_accepted s ⊆ us_accepted s' → Forall (phase_ok s) l → Forall (phase_ok s') l.
Proof. intros Ht Hl. apply Forall_impl. intros u. by apply phase_later. Qed.

Lemma set_use_ok i u p s :
  us_uses s !! i = Some u → phase_ok s (at_phase p u) → uses_ok s → uses_ok (set_use i u p s).
Proof.
  intros Hi Hp [H1 H2 H3 H4 H5 H6]. constructor; simpl; try done.
  apply Forall_insert; [exact (phases_later _ (set_use i u p s) _ ltac:(done) ltac:(done) H3)|exact Hp].
Qed.

Lemma tick_ok t s : us_clock s ≤ t → uses_ok s →
  uses_ok {| us_clock := t; us_used := us_used s; us_uses := us_uses s; us_accepted := us_accepted s |}.
Proof.
  intros Ht [H1 H2 H3 H4 H5 H6]. constructor; simpl; [lia| | |done| |done].
  - eapply Forall_impl; [|exact H2]. intros a (? & ? & ?). split_and!; [done|lia|done].
  - eapply phases_later; [| |exact H3]; done.
  - intros a Ha. destruct (H5 a Ha) as [?|H]; [by left|right]. eapply expired_later; [exact Ht|done|exact H].
Qed.

Lemma see_expired k v cutoff s :
  uses_ok s → nano_range cutoff → cutoff ≤ us_clock s → us_used s !! k = Some v → v ≤ unix_nano cutoff →
  expired_by (us_clock s) k (us_accepted s).
Proof.
  intros Hs Hr Hc Hk Hv. destruct (uo_used _ Hs k v Hk) as (a & Ha & Hka & Hva). exists a. split_and!; [done|done|].
  unfold unix_nano, time_unix_nano in *. rewrite wrap64_id in Hv by (unfold nano_range in Hr; lia). lia.
Qed.

Lemma delete_ok k s : expired_by (us_clock s) k (us_accepted s) → uses_ok s →
  uses_ok (set_used (delete k (us_used s)) s).
Proof.
  intros He [H1 H2 H3 H4 H5 H6]. constructor; simpl; [done|done|done| | |done].
  - intros k' v [_ Hk']%lookup_delete_Some. by apply H4.
  - intros a Ha. destruct (decide (ApSignature (ac_proof a) = k)) as [->|Hne]; [by right|].
    rewrite lookup_delete_ne by done. by apply H5.
Qed.

Lemma claim_ok i u checked cutoff seen s :
  us_uses s !! i = Some u → u_phase u = UseCleaning checked cutoff seen →
  us_used s !! ApSignature (u_proof u) = None → uses_ok s →
  uses_ok (accept checked (u_proof u) (set_used (<[ApSignature (u_proof u) := ApExpiresAt (u_proof u)]> (us_used s))
                                            (set_use i u (UseReturned (Ok tt)) s))).
Proof.
  intros Hi Hph Hnone [H1 H2 H3 H4 H5 H6]. set (a := {| ac_checked := checked; ac_claimed := us_clock s; ac_proof := u_proof u |}).
  assert (Hu : phase_ok s u) by (by eapply Forall_lookup_1). unfold phase_ok in Hu. rewrite Hph in Hu.
  destruct Hu as (Hc & _ & _). pose proof (check_proof_ok _ _ _ Hc) as [Hexp _].
  assert (Hsub : us_accepted s ⊆ a :: us_accepted s) by (intros x; by apply list_elem_of_further).
  constructor; simpl; fold a.
  - done.
  - constructor; [|done]. split_and!; simpl; [done|lia|done].
  - apply Forall_insert; [|done]. eapply phases_later; [| |exact H3]; done.
  - intros k v [[<- <-]|[_ Hk]]%lookup_insert_Some; [by exists a; split; [left|]|].
    destruct (H4 k v Hk) as (a' & Ha' & ?). exists a'. split; [by right|done].
  - intros a' Ha'. destruct (decide (ApSignature (ac_proof a') = ApSignature (u_proof u))) as [E|Hne].
    + left. rewrite E, lookup_insert_eq. by eexists.
    + apply elem_of_cons in Ha' as [->|Ha']; [done|]. rewrite lookup_insert_ne by done.
      destruct (H5 a' Ha') as [?|H]; [by left|right]. by apply (expired_later (us_clock s) _ _ (us_accepted s)).
  - split; [|done]. intros a' Ha' E. destruct (H5 a' Ha') as [[v Hv]|H]; [by rewrite E, Hnone in Hv|]. by rewrite <- E.
Qed.

Lemma use_at u i s : us_uses s !! i = Some u → uses_ok s → phase_ok s u.
Proof. intros Hi Hs. eapply Forall_lookup_1; [apply (uo_uses _ Hs)|exact Hi]. Qed.

Lemma use_step_clock e s s' : use_step e s = Some s' → us_clock s ≤ us_clock s'.
Proof.
  intros H. destruct e as [t|proof b|i|i|i k|i k|i]; simpl in H;
    [destruct (Z.leb_spec (us_clock s) t); [by injection H as <-|done]|by injection H as <-|
     destruct (us_uses s !! i) as [u|]; [simpl in H|done]; destruct (u_phase u); try done..].
  all: try (by injection H as <-); repeat case_match; simplify_eq; done.
Qed.
Lemma use_run_clock events s s' : use_run events s = Some s' → us_clock s ≤ us_clock s'.
Proof.
  revert s. induction events as [|e events IH]; intros s; simpl; [by intros [= <-]|].
  destruct (use_step e s) as [s1|] eqn:He; [|done]. simpl. intros H. apply use_step_clock in He. apply IH in H. lia.
Qed.

Lemma use_step_ok e s s' :
  nano_range t0 → nano_range (us_clock s) → use_step e s = Some s' → uses_ok s → uses_ok s'.
Proof.
  intros Hr0 Hr H Hs. pose proof (uo_clock _ Hs) as Ht0.
  destruct e as [t|proof b|i|i|i k|i k|i]; simpl in H;
    [| |destruct (us_uses s !! i) as [u|] eqn:Hi; [simpl in H|done]; pose proof (use_at _ _ _ Hi Hs) as Hu..].
  - destruct (Z.leb_spec (us_clock s) t) as [Ht|]; [|done]. injection H as <-. by apply tick_ok.
  - injection H as <-.  destruct Hs as [H1 H2 H3 H4 H5 H6]. constructor; try done.
    apply Forall_app_2; [exact H3|by repeat constructor].
  - destruct (u_phase u) eqn:Hph; try done. injection H as <-.  apply set_use_ok; [done| |done].
    unfold phase_ok, at_phase. simpl. destruct (admit_proof _ _ _ _ _) as [[]|] eqn:Ha; [|done]. by apply admit_ok in Ha as [_ ?].
  - destruct (u_phase u) as [|checked| |] eqn:Hph; try done. injection H as <-.  apply set_use_ok; [done| |done].
    unfold phase_ok in *. rewrite Hph in Hu. simpl. split_and!; [done|lia|lia|]. intros k Hk. by apply not_elem_of_empty in Hk.
  - destruct (u_phase u) as [| |checked cutoff seen|] eqn:Hph; try done. destruct (us_used s !! k) as [v|] eqn:Hk; [|done].
    destruct (Z.leb_spec v (unix_nano cutoff)) as [Hv|]; [|done]. injection H as <-. 
    apply set_use_ok; [done| |done]. unfold phase_ok in *. rewrite Hph in Hu. simpl. destruct Hu as (Hc & Hcut & Hseen).
    split_and!; [done|lia|lia|]. intros k' [->%elem_of_singleton|Hk']%elem_of_union; [|by apply Hseen].
    eapply see_expired; [done| |apply Hcut|exact Hk|exact Hv]. unfold nano_range in *. lia.
  - destruct (u_phase u) as [| |checked cutoff seen|] eqn:Hph; try done. destruct (decide (k ∈ seen)) as [Hk|]; [|done].
    injection H as <-.  apply delete_ok; [|done]. unfold phase_ok in Hu. rewrite Hph in Hu. by apply Hu.
  - destruct (u_phase u) as [| |checked cutoff seen|] eqn:Hph; try done. unfold load_or_store in H.
    destruct (us_used s !! ApSignature (u_proof u)) as [v|] eqn:Hk; simpl in H; injection H as <-.
    + assert (Hx := set_use_ok i u (UseReturned (Err ProofConsumed)) s Hi I Hs). by destruct Hx; constructor.
    + by eapply claim_ok.
Qed.

Lemma use_run_ok events s s' :
  nano_range t0 → nano_range (us_clock s') → use_run events s = Some s' → uses_ok s → uses_ok s'.
Proof.
  intros Hr0 Hr. revert s. induction events as [|e events IH]; intros s; simpl; [by intros [= <-]|].
  destruct (use_step e s) as [s1|] eqn:He; [|done]. simpl. intros H Hs. apply (IH s1); [done|].
  apply (use_step_ok e s); [done| |exact He|done]. apply use_step_clock in He. apply use_run_clock in H.
  pose proof (uo_clock _ Hs). unfold nano_range in *. lia.
Qed.

Lemma initial_uses_ok : uses_ok (initial_uses t0).
Proof. constructor; simpl; try done. intros a Ha. by apply not_elem_of_nil in Ha. Qed.
End Uses.

(** *** A use that nothing interleaves with *)

Lemma cleanup_delete t k v (used : gmap string Z) :
  used !! k = Some v → v ≤ unix_nano t → cleanupExpiredPluginApprovals t (delete k used) = cleanupExpiredPluginApprovals t used.
Proof.
  intros Hk Hv. unfold cleanupExpiredPluginApprovals. rewrite map_filter_delete. apply delete_id.
  apply map_lookup_filter_None. right. intros x Hx. rewrite Hk in Hx. injection Hx as <-. simpl. lia.
Qed.
Lemma cleanup_none t (used : gmap string Z) :
  ¬ (∃ k v, used !! k = Some v ∧ v ≤ unix_nano t) → cleanupExpiredPluginApprovals t used = used.
Proof. intros H. apply map_filter_id. intros k v Hk. simpl. apply Znot_ge_lt. intros Hv. apply H. exists k, v. split; [done|lia]. Qed.

Lemma set_use_twice i u p p' s :
  us_uses (set_use i (at_phase p u) p' (set_use i u p s)) = us_uses (set_use i u p' s).
Proof. simpl. by rewrite list_insert_insert_eq. Qed.

Lemma use_run_app kind key es es' s :
  use_run kind key (es ++ es')%list s = use_run kind key es s ≫= use_run kind key es'.
Proof. revert s. induction es as [|e es IH]; intros s; [done|]. simpl. destruct (use_step kind key e s); [apply IH|done]. Qed.

(** A [Range] that sees and deletes every expired entry removes what the clean-up removes. *)
Lemma sweep_runs kind key i u checked cutoff seen s :
  us_uses s !! i = Some u → u_phase u = UseCleaning checked cutoff seen →
  ∃ events seen', use_run kind key events s =
    Some (set_used (cleanupExpiredPluginApprovals cutoff (us_used s)) (set_use i u (UseCleaning checked cutoff seen') s)).
Proof.
  remember (size (us_used s)) as n eqn:Hn. revert u seen s Hn. induction (lt_wf n) as [n _ IH]. intros u seen s -> Hi Hph.
  destruct (map_choose_or_empty (filter (λ kv, kv.2 ≤ unix_nano cutoff) (us_used s))) as [(k & v & Hk)|Hx].
  - apply map_lookup_filter_Some in Hk as [Hk Hv]. simpl in Hv.
    set (s1 := set_used (delete k (us_used s)) (set_use i u (UseCleaning checked cutoff ({[k]} ∪ seen)) s)).
    assert (Hi1 : us_uses s1 !! i = Some (at_phase (UseCleaning checked cutoff ({[k]} ∪ seen)) u)).
    { simpl. apply list_lookup_insert_eq. by eapply lookup_lt_Some. }
    destruct (IH (size (us_used s1))) with (u := at_phase (UseCleaning checked cutoff ({[k]} ∪ seen)) u) (s := s1)
      (seen := {[k]} ∪ seen) as (es & seen' & Hes); [|done|exact Hi1|done|].
    { simpl. rewrite (map_size_delete_Some k (us_used s)) by (by eexists).
      assert (size (us_used s) ≠ 0%nat) by (intros E; apply map_size_empty_iff in E; by rewrite E in Hk). lia. }
    exists (USee i k :: UDelete i k :: es), seen'. cbn [use_run use_step]. rewrite Hi. cbn [mbind option_bind].
    rewrite Hph, Hk. rewrite (proj2 (Z.leb_le v (unix_nano cutoff)) Hv). cbn [mbind option_bind use_step].
    assert (Hi2 : us_uses (set_use i u (UseCleaning checked cutoff ({[k]} ∪ seen)) s) !! i
                  = Some (at_phase (UseCleaning checked cutoff ({[k]} ∪ seen)) u)) by exact Hi1.
    rewrite Hi2. cbn [mbind option_bind u_phase at_phase]. rewrite decide_True by set_solver. cbn [mbind option_bind].
    etransitivity; [exact Hes|]. f_equal. unfold set_used, s1. cbn [us_clock us_used us_uses us_accepted set_use set_used].
    rewrite (cleanup_delete cutoff k v) by done. by rewrite list_insert_insert_eq.
  - exists [], seen. simpl. rewrite cleanup_none.
    + destruct s as [t m us acc]. unfold set_used, set_use. simpl in *. do 2 f_equal. symmetry. apply list_insert_id.
      rewrite Hi. f_equal. destruct u. unfold at_phase. simpl in *. by rewrite Hph.
    + intros (k & v & Hk & Hv). assert (filter (λ kv, kv.2 ≤ unix_nano cutoff) (us_used s) !! k = Some v) as Hf
        by (by apply map_lookup_filter_Some). by rewrite Hx in Hf.
Qed.

(** [validate] is the use that nothing interleaves with. *)
Lemma use_alone kind key i u later s :
  us_uses s !! i = Some u → u_phase u = UseStarted → us_clock s ≤ later →
  ∃ events s', use_run kind key events s = Some s' ∧
    (us_used s', u_phase <$> us_uses s' !! i) =
      prod_map id (λ r, Some (UseReturned r)) (validate kind key (us_clock s) later (u_proof u) (u_binding u) (us_used s)).
Proof.
  intros Hi Hph Hlater. assert (Hlt : (i < length (us_uses s))%nat) by (by eapply lookup_lt_Some).
  rewrite validate_admit. destruct (admit_proof kind key (us_clock s) (u_proof u) (u_binding u)) as [[]|e] eqn:Ha.
  - set (u1 := at_phase (UseChecked (us_clock s)) u). set (u2 := at_phase (UseCleaning (us_clock s) later ∅) u).
    set (s2 := {| us_clock := later; us_used := us_used s; us_uses := <[i := u2]> (us_uses s); us_accepted := us_accepted s |}).
    destruct (sweep_runs kind key i u2 (us_clock s) later ∅ s2) as (es & seen & Hes);
      [by apply list_lookup_insert_eq|done|].
    exists ([UCheck i; UTick later; UReadClock i] ++ es ++ [UClaim i])%list. rewrite !use_run_app.
    assert (E : use_run kind key [UCheck i; UTick later; UReadClock i] s = Some s2).
    { cbn [use_run use_step]. rewrite Hi. cbn [mbind option_bind]. rewrite Hph, Ha. cbn [mbind option_bind us_clock set_use].
      rewrite (proj2 (Z.leb_le _ _) Hlater). cbn [mbind option_bind us_uses set_use]. rewrite list_lookup_insert_eq by done.
      cbn [mbind option_bind u_phase at_phase]. unfold set_use, s2. simpl. by rewrite list_insert_insert_eq. }
    rewrite E. cbn [mbind option_bind]. rewrite use_run_app, Hes. cbn [mbind option_bind use_run use_step us_uses set_used set_use].
    rewrite list_lookup_insert_eq by (simpl; by rewrite length_insert). cbn [mbind option_bind u_phase at_phase u_proof us_used set_used].
    destruct (load_or_store (u_proof u) (cleanupExpiredPluginApprovals later (us_used s))) as [used r] eqn:Hr. simpl in Hr |- *.
    rewrite Hr. eexists. split; [done|]. simpl.
    destruct (is_ok r); simpl; rewrite list_lookup_insert_eq by (by rewrite !length_insert); done.
  - exists [UCheck i]. eexists. split.
    + cbn [use_run use_step]. rewrite Hi. cbn [mbind option_bind]. rewrite Hph, Ha. done.
    + simpl. by rewrite list_lookup_insert_eq.
Qed.

Lemma replays_split l1 a2 l2 a1 l3 :
  replays_ok (l1 ++ a2 :: l2 ++ a1 :: l3) → ApSignature (ac_proof a1) = ApSignature (ac_proof a2) →
  expired_by (ac_claimed a2) (ApSignature (ac_proof a2)) (l2 ++ a1 :: l3).
Proof.
  induction l1 as [|a l1 IH]; simpl; [|intros [_ H]; by apply IH]. intros [H _] E. apply (H a1); [|done].
  apply elem_of_app. right. by left.
Qed.

(** Accepted proofs with one signature are one proof, unless there is a forgery among them. *)
Lemma accepted_same key t a b :
  accepted_ok key t a → accepted_ok key t b → ApSignature (ac_proof a) = ApSignature (ac_proof b) →
  ¬ forged key (ac_proof a) (ac_proof b) → ac_proof a = ac_proof b.
Proof.
  intros (_ & _ & Ha) (_ & _ & Hb) E Hf. apply check_proof_ok in Ha as (_ & k & -> & Ha), Hb as (_ & k' & [= <-] & Hb).
  rewrite E, Hb in Ha. apply (inj Some) in Ha.
  rewrite (not_forged (Some k) (ac_proof a) (ac_proof b)); [|by exists k|done]. rewrite E. by destruct (ac_proof b).
Qed.

(** C17: A signature, as it is written, is good for one execution while its proof lasts.  In any
    interleaving of any number of uses, with a clock that does not run backwards, stays
    between 1678 and 2262, and with no forgery among the accepted proofs (two texts with one
    keyed hash): when two uses with one signature text are accepted, both are of the same
    proof, and its expiry fell between the check and the claim of the second, so never more
    than one is accepted that claims before the expiry.  (Such a late second use can happen,
    see [expiry_race]; and a signature written in upper case is another text, see
    [signature_case_replay].) *)
Theorem approval_proof_single_use kind key t0 events s l1 a2 l2 a1 l3 :
  use_run kind key events (initial_uses t0) = Some s →
  nano_range t0 → nano_range (us_clock s) →
  (∀ a b, a ∈ us_accepted s → b ∈ us_accepted s → ¬ forged key (ac_proof a) (ac_proof b)) →
  us_accepted s = (l1 ++ a2 :: l2 ++ a1 :: l3)%list → ApSignature (ac_proof a1) = ApSignature (ac_proof a2) →
  ac_proof a1 = ac_proof a2 ∧
  ac_checked a2 < time_unix_nano (ApExpiresAt (ac_proof a1)) ≤ ac_claimed a2.
Proof.
  intros Hrun Hr0 Hr Hf Hl E. assert (Hs : uses_ok key t0 s) by (eapply use_run_ok; [done|done|exact Hrun|apply initial_uses_ok]).
  assert (Hin : ∀ a, a ∈ us_accepted s → accepted_ok key (us_clock s) a) by (apply Forall_elem, Hs).
  assert (H2 : a2 ∈ us_accepted s) by (rewrite Hl; apply elem_of_app; right; by left).
  assert (Hsub : ∀ a, a ∈ (l2 ++ a1 :: l3)%list → a ∈ us_accepted s) by (intros a Ha; rewrite Hl; apply elem_of_app; right; by right).
  assert (Hsame : ∀ a, a ∈ (l2 ++ a1 :: l3)%list → ApSignature (ac_proof a) = ApSignature (ac_proof a2) → ac_proof a = ac_proof a2).
  { intros a Ha Ea. eapply accepted_same; eauto. }
  assert (E1 : ac_proof a1 = ac_proof a2) by (apply Hsame; [apply elem_of_app; right; by left|done]). split; [done|].
  pose proof (uo_replays _ _ _ Hs) as Hrep. rewrite Hl in Hrep.
  destruct (replays_split _ _ _ _ _ Hrep E) as (a & Ha & Ea & Hexp). rewrite (Hsame a Ha Ea) in Hexp.
  destruct (Hin a2 H2) as (Hchk & _ & _). by rewrite E1.
Qed.

(** ** Concrete runs *)

Definition ex_key : option string := Some "key".
Definition ex_pending_of (callID toolName executorID input : string) : Pending :=
  {| pID := "apr_1"; pSessionID := "s1"; pSessionRevision := 1; pRunID := "r1"; pToolCallID := callID;
     pToolName := toolName; pExecutorID := executorID; pRedactedInput := ""; 
     pInputDigest := approvalToolInputDigest toolName input; pExecutionPolicyRevision := 1; pFullSelectionRevision := 0;
     pApprovalSource := ApprovalSourceUser; pDangerLevel := "dangerous"; pScope := "workspace";
     pRememberAllowed := false; pCreatedAt := unix_epoch; pExpiresAt := unix_epoch + 100 |}.
Definition ex_workspace : Snapshot :=
  {| SMode := ModeWorkspace; SRevision := 1; RuntimeCapabilities := zeroCapabilities; ParentRevision := 0;
     FullSelectionRevision := 0; SSource := SourceDefault |}.
Definition ex_click : Pending := ex_pending_of "c1" "MouseClick" "builtin:MouseClick" "{}".
Definition ex_click_proof : pluginApprovalProof :=
  match mint HostProof ex_key unix_epoch ex_click "c1" "{}" ex_workspace with Ok p => p | Err _ => no_proof end.
Definition ex_click_binding : ProofBinding :=
  {| PbSessionID := "s1"; PbRunID := "r1"; PbToolCallID := "c1"; PbToolName := "MouseClick";
     PbExecutorID := "builtin:MouseClick"; PbInput := "{}"; PbPolicy := Some ex_workspace |}.

Lemma ex_click_minted : mint HostProof ex_key unix_epoch ex_click "c1" "{}" ex_workspace = Ok ex_click_proof.
Proof. vm_compute. reflexivity. Qed.

(** The proof that was minted is accepted, and is no forgery. *)
Lemma approval_proof_binds_witness :
  PbPolicy ex_click_binding = Some ex_workspace ∧
  approvalToolInputDigest "MouseClick" "{}" = approvalToolInputDigest (pToolName ex_click) "{}" ∧
  unix_epoch + 5 < time_unix_nano (unix_nano (pExpiresAt ex_click)).
Proof.
  destruct (approval_proof_binds HostProof ex_key unix_epoch ex_click "c1" "{}" ex_workspace ex_click_proof
    (unix_epoch + 5) (unix_epoch + 6) ex_click_proof ex_click_binding ∅) as [_ [(k & _ & Hne & _)|(_ & _ & _ & _ & _ & _ & H1 & H2 & _ & H3)]].
  - exact ex_click_minted.
  - reflexivity.
  - vm_compute. reflexivity.
  - exfalso. apply Hne. reflexivity.
  - split; [exact H2|]. split; [exact H1|exact H3].
Defined.

(** Two executors with one proof, both past the check before either claims it: the first to
    claim it wins, and the second is refused although it was admitted. *)
Definition ex_two_uses : list UseEvent :=
  [UStart ex_click_proof ex_click_binding; UStart ex_click_proof ex_click_binding; UTick (unix_epoch + 5);
   UCheck 0; UCheck 1; UReadClock 1; UTick (unix_epoch + 6); UReadClock 0; UClaim 1; UClaim 0].
Example ex_two_uses_end :
  (λ s, (map u_phase (us_uses s), length (us_accepted s))) <$> use_run HostProof ex_key ex_two_uses (initial_uses unix_epoch)
  = Some ([UseReturned (Err ProofConsumed); UseReturned (Ok tt)], 1%nat).
Proof. vm_compute. reflexivity. Qed.

(** When the expiry passes between the check of it and the removal of old signatures, a
    proof is accepted a second time. *)
Definition ex_late_uses : list UseEvent :=
  [UStart ex_click_proof ex_click_binding; UStart ex_click_proof ex_click_binding; UTick (unix_epoch + 5);
   UCheck 0; UReadClock 0; UClaim 0; UTick (unix_epoch + 99); UCheck 1; UTick (unix_epoch + 100); UReadClock 1;
   USee 1 (ApSignature ex_click_proof); UDelete 1 (ApSignature ex_click_proof); UClaim 1].
Definition ex_late_end : UseState := default (initial_uses 0) (use_run HostProof ex_key ex_late_uses (initial_uses unix_epoch)).
Definition ex_accepted (checked claimed : Z) : Acceptance :=
  {| ac_checked := unix_epoch + checked; ac_claimed := unix_epoch + claimed; ac_proof := ex_click_proof |}.
Lemma ex_late_run : use_run HostProof ex_key ex_late_uses (initial_uses unix_epoch) = Some ex_late_end.
Proof. vm_compute. reflexivity. Qed.
Example expiry_race : us_accepted ex_late_end = [ex_accepted 99 100; ex_accepted 5 5].
Proof. vm_compute. reflexivity. Qed.

Lemma approval_proof_single_use_witness :
  unix_epoch + 99 < time_unix_nano (ApExpiresAt ex_click_proof) ≤ unix_epoch + 100.
Proof.
  apply (approval_proof_single_use HostProof ex_key unix_epoch ex_late_uses ex_late_end []
    (ex_accepted 99 100) [] (ex_accepted 5 5) [] ex_late_run).
  - split; discriminate.
  - vm_compute. split; discriminate.
  - rewrite expiry_race. intros a b Ha Hb (k & _ & Hne & _). apply Hne.
    assert (H : ∀ x, x ∈ [ex_accepted 99 100; ex_accepted 5 5] → ac_proof x = ex_click_proof).
    { intros x [->|[->|[]%not_elem_of_nil]%elem_of_cons]%elem_of_cons; reflexivity. }
    rewrite (H a Ha), (H b Hb). reflexivity.
  - exact expiry_race.
  - reflexivity.
Defined.

(** Signatures are compared after decoding but remembered as text: the same proof with
    the signature in upper case is accepted again, long before it expires. *)
Definition upper_hex (c : ascii) : ascii :=
  let n := nat_of_ascii c in if ((97 <=? n)%nat && (n <=? 102)%nat)%bool then ascii_of_nat (n - 32) else c.
Fixpoint str_map (f : ascii → ascii) (s : string) : string :=
  match s with "" => "" | String c s' => String (f c) (str_map f s') end.
Example signature_case_replay :
  let upper := with_signature (str_map upper_hex (ApSignature ex_click_proof)) ex_click_proof in
  (λ s, map u_phase (us_uses s)) <$> use_run HostProof ex_key
    [UStart ex_click_proof ex_click_binding; UStart upper ex_click_binding; UTick (unix_epoch + 5);
     UCheck 0; UReadClock 0; UClaim 0; UCheck 1; UReadClock 1; UClaim 1] (initial_uses unix_epoch)
  = Some [UseReturned (Ok tt); UseReturned (Ok tt)].
Proof. vm_compute. reflexivity. Qed.
