(* ===== verification/ToolCatalog.v ===== *)
(** * The tool catalog of a run: internal/agent/tool_schema.go (its first half)

    A run is given a catalog of tools.  Compiling it fixes, for every name, the schema
    of the input and the identity of the executor: a built-in, a server of the model
    context protocol (MCP), or a plugin.  The snapshot is stored in a process-wide
    registry under a marker, which the set of allowed names carries; identities are
    checked against the registry and against the servers and plugins alive at the time.

    What the process knows of those, [Live], is an argument: the tools the global MCP
    clients offer, and whether a binding of the run is still valid.  The order in which
    Go's maps are visited decides which of several errors is reported; it is the order
    of the bindings here. *)

From S2P Require Export JsonText.

Local Open Scope string_scope.
Local Open Scope list_scope.
Local Open Scope Z_scope.

(** ** Identities *)

Inductive toolExecutorProvenance := toolExecutorBuiltIn | toolExecutorMCP | toolExecutorPlugin | toolExecutorOther.
#[export] Instance provenance_eq_dec : EqDecision toolExecutorProvenance.
Proof. solve_decision. Defined.
(** The number of a kind: [iota + 1]. *)
Definition provenance_number (k : toolExecutorProvenance) : Z :=
  match k with toolExecutorBuiltIn => 1 | toolExecutorMCP => 2 | toolExecutorPlugin => 3 | toolExecutorOther => 4 end.

Record toolExecutorIdentity := {
  CatalogMarker : string;
  TiToolName : string;
  TiKind : toolExecutorProvenance;
  TiOwner : string;
  TiExecutorID : string;
  SchemaDigest : string;
  TiToken : string;
}.
#[export] Instance identity_eq_dec : EqDecision toolExecutorIdentity.
Proof. solve_decision. Defined.

Definition with_token (token : string) (i : toolExecutorIdentity) : toolExecutorIdentity :=
  {| CatalogMarker := CatalogMarker i; TiToolName := TiToolName i; TiKind := TiKind i; TiOwner := TiOwner i;
     TiExecutorID := TiExecutorID i; SchemaDigest := SchemaDigest i; TiToken := token |}.

(** [json.Marshal(identity)]. *)
Definition identity_text (i : toolExecutorIdentity) : string :=
  json_object [("catalog_marker", json_string (CatalogMarker i)); ("tool_name", json_string (TiToolName i));
    ("kind", pretty (provenance_number (TiKind i))); ("owner", json_string (TiOwner i));
    ("executor_id", json_string (TiExecutorID i)); ("schema_digest", json_string (SchemaDigest i));
    ("token", json_string (TiToken i))].

Definition toolExecutorIdentityToken (i : toolExecutorIdentity) : string :=
  "sha256:" +:+ sha256_hex (identity_text (with_token "" i)).
(** [bytes.TrimSpace] is [trim_space] on the bytes of text. *)
Definition toolSchemaDigest (schema : string) : string := "sha256:" +:+ sha256_hex (trim_space schema).

(** ** Catalogs *)

Record mcpToolBinding := { McServerName : string; McToolName : string; McInputSchema : string; McExecutorID : string }.
Record mcpRuntimeExecutorBinding := { MrServerName : string; MrExecutorID : string; MrRuntimeID : string }.
Record pluginExecutorBinding := { PlPluginName : string; PlExecutorID : string; PlLegacyExecutorID : string }.

(** [ToolDef.RuntimeBinding]. *)
Inductive RuntimeBinding := NoBinding | BoundMCP (b : mcpRuntimeExecutorBinding) | BoundPlugin (b : pluginExecutorBinding)
  | ForeignBinding.
Record ToolDef := { TdName : string; TdInputSchema : string; TdRuntimeBinding : RuntimeBinding }.

(** What holds outside at a time: the tools of the global MCP clients; whether a binding
    is complete and its server or its files unchanged. *)
Record Live := {
  mcp_tools : list mcpToolBinding;
  mcp_definition_ok : string → string → mcpRuntimeExecutorBinding → bool;
  plugin_definition_ok : string → string → pluginExecutorBinding → bool;
  plugin_artifacts_ok : pluginExecutorBinding → bool;
}.

Inductive CatalogError :=
| McpBindingInvalid | PluginBindingInvalid | UnsupportedBinding
| ReservedName (name : string) | AmbiguousMcp (name : string) | DuplicateDefinition (name : string)
| ReservedSchema (name : string) | PluginMcpCollision (name : string) | McpSchemaMismatch (name : string)
| SnapshotConflict | SnapshotUnavailable | NoSchema (name : string) | EmptySchema (name : string) | NoIdentity (name : string)
| IdentityIncomplete | BoundCatalogUnavailable | TokenMismatch | InputNotJSON
| NowCollides (name : string) | McpIdentityChanged (name : string) | McpNotUnique (name : string)
| McpSchemaChanged (name : string) | PluginIdentityChanged (name : string) | ArtifactsChanged (name : string).

Record toolCatalogSchemaSnapshot := {
  schemas : gmap string string;
  identities : gmap string toolExecutorIdentity;
  pluginExecutors : gmap string pluginExecutorBinding;
  mcpExecutors : gmap string mcpRuntimeExecutorBinding;
  processGlobalMCP : bool;
}.

(** [mcpRuntimeBindingFromTool], [pluginRuntimeBindingFromTool]: no binding of this
    kind, an error, or the binding. *)
Definition mcpRuntimeBindingFromTool (live : Live) (tool : ToolDef) : result CatalogError (option mcpRuntimeExecutorBinding) :=
  match TdRuntimeBinding tool with
  | BoundMCP b => if mcp_definition_ok live (TdName tool) (TdInputSchema tool) b then Ok (Some b) else Err McpBindingInvalid
  | _ => Ok None
  end.
Definition pluginRuntimeBindingFromTool (live : Live) (tool : ToolDef) : result CatalogError (option pluginExecutorBinding) :=
  match TdRuntimeBinding tool with
  | NoBinding => Ok None
  | BoundPlugin b => if plugin_definition_ok live (TdName tool) (TdInputSchema tool) b then Ok (Some b) else Err PluginBindingInvalid
  | _ => Err UnsupportedBinding
  end.

Section build.
Context (live : Live).
(** The definitions of the built-in tools, by name; the other schemas the Edit tool may have. *)
Context (builtIns : gmap string string) (isAllowedEditToolSchema : string → bool).

Definition mcp_by_name (bindings : list mcpToolBinding) (name : string) : list mcpToolBinding :=
  filter (λ b, McToolName b = name) bindings.
Definition runtime_mcp_by_name (tools : list ToolDef) (name : string) : list mcpRuntimeExecutorBinding :=
  omap (λ tool, match TdRuntimeBinding tool with
                | BoundMCP b => if String.eqb (TdName tool) name then Some b else None
                | _ => None
                end) tools.

Fixpoint check_runtime_bindings (tools : list ToolDef) : result CatalogError unit :=
  match tools with
  | [] => Ok tt
  | tool :: rest => _ ← mcpRuntimeBindingFromTool live tool; check_runtime_bindings rest
  end.

(** The two loops over the names MCP servers claim. *)
Fixpoint check_claims (claims : string → nat) (names : list string) : result CatalogError unit :=
  match names with
  | [] => Ok tt
  | name :: rest =>
      if bool_decide (is_Some (builtIns !! name)) then Err (ReservedName name)
      else if (1 <? claims name)%nat then Err (AmbiguousMcp name)
      else check_claims claims rest
  end.

Definition executor_identity (marker : string) (kind : toolExecutorProvenance) (owner id : string) (tool : ToolDef)
    : toolExecutorIdentity :=
  let i := {| CatalogMarker := marker; TiToolName := TdName tool; TiKind := kind; TiOwner := owner;
              TiExecutorID := id; SchemaDigest := toolSchemaDigest (TdInputSchema tool); TiToken := "" |} in
  with_token (toolExecutorIdentityToken i) i.

Definition add_tool (tool : ToolDef) (identity : toolExecutorIdentity) (plugin : option pluginExecutorBinding)
    (mcp : option mcpRuntimeExecutorBinding) (s : toolCatalogSchemaSnapshot) : toolCatalogSchemaSnapshot :=
  {| schemas := <[TdName tool := TdInputSchema tool]> (schemas s);
     identities := <[TdName tool := identity]> (identities s);
     pluginExecutors := match plugin with Some b => <[TdName tool := b]> (pluginExecutors s) | None => pluginExecutors s end;
     mcpExecutors := match mcp with Some b => <[TdName tool := b]> (mcpExecutors s) | None => mcpExecutors s end;
     processGlobalMCP := processGlobalMCP s |}.

(** One round of the loop over the tools. *)
Definition bind_tool (marker : string) (all : list ToolDef) (bindings : list mcpToolBinding) (tool : ToolDef)
    (s : toolCatalogSchemaSnapshot) : result CatalogError toolCatalogSchemaSnapshot :=
  let name := TdName tool in
  _ ← guard_err (negb (bool_decide (is_Some (schemas s !! name)))) (DuplicateDefinition name);
  mcpRuntime ← mcpRuntimeBindingFromTool live tool;
  plugin ← match mcpRuntime with Some _ => Ok None | None => pluginRuntimeBindingFromTool live tool end;
  let claims := mcp_by_name bindings name in
  let identity kind owner id := executor_identity marker kind owner id tool in
  match builtIns !! name with
  | Some builtIn =>
      if bool_decide (is_Some plugin) || bool_decide (is_Some mcpRuntime) then Err (ReservedName name)
      else
        let allowedVariant := String.eqb name "Edit" && isAllowedEditToolSchema (TdInputSchema tool) in
        if negb allowedVariant && negb (String.eqb (trim_space (TdInputSchema tool)) (trim_space builtIn))
        then Err (ReservedSchema name)
        else Ok (add_tool tool (identity toolExecutorBuiltIn "corelaycode" ("builtin:" +:+ name)) None None s)
  | None =>
      match plugin, mcpRuntime, claims with
      | Some b, _, _ =>
          if negb (length claims + length (runtime_mcp_by_name all name) =? 0)%nat then Err (PluginMcpCollision name)
          else Ok (add_tool tool (identity toolExecutorPlugin (PlPluginName b) (PlExecutorID b)) (Some b) None s)
      | None, Some b, _ =>
          Ok (add_tool tool (identity toolExecutorMCP (MrServerName b) (MrExecutorID b)) None (Some b) s)
      | None, None, [b] =>
          if negb (String.eqb (trim_space (TdInputSchema tool)) (trim_space (McInputSchema b))) then Err (McpSchemaMismatch name)
          else Ok (add_tool tool (identity toolExecutorMCP (McServerName b) (McExecutorID b)) None None s)
      | None, None, _ => Ok (add_tool tool (identity toolExecutorOther "unbound" ("unbound:" +:+ name)) None None s)
      end
  end.

Fixpoint bind_tools (marker : string) (all : list ToolDef) (bindings : list mcpToolBinding) (tools : list ToolDef)
    (s : toolCatalogSchemaSnapshot) : result CatalogError toolCatalogSchemaSnapshot :=
  match tools with
  | [] => Ok s
  | tool :: rest => s' ← bind_tool marker all bindings tool s; bind_tools marker all bindings rest s'
  end.

(** The error is stored in the snapshot in the code. *)
Definition buildToolCatalogSchemaSnapshotForCatalog (marker : string) (tools : list ToolDef)
    (mcpBindings : list mcpToolBinding) (global : bool) : result CatalogError toolCatalogSchemaSnapshot :=
  let claims name := (length (mcp_by_name mcpBindings name) + length (runtime_mcp_by_name tools name))%nat in
  _ ← check_runtime_bindings tools;
  _ ← check_claims claims (map McToolName mcpBindings);
  _ ← check_claims claims (omap (λ tool, match TdRuntimeBinding tool with BoundMCP _ => Some (TdName tool) | _ => None end) tools);
  bind_tools marker tools mcpBindings tools
    {| schemas := ∅; identities := ∅; pluginExecutors := ∅; mcpExecutors := ∅; processGlobalMCP := global |}.
End build.

(** ** The registry and its readers *)

(** [toolCatalogSchemaSnapshots]. *)
Definition Registry := gmap string (result CatalogError toolCatalogSchemaSnapshot).

Definition toolCatalogSchemaMarkerPrefix : string := String Ascii.zero "corelay-tool-catalog-schema:".
Definition legacyToolCatalogSchemaMarkerPrefix : string := String Ascii.zero "aniclew-tool-catalog-schema:".
Definition isToolCatalogSchemaMarker (value : string) : bool :=
  has_prefix value toolCatalogSchemaMarkerPrefix || has_prefix value legacyToolCatalogSchemaMarkerPrefix.

Definition snapshotForAllowedTools (registry : Registry) (allowed : gset string)
    : result CatalogError toolCatalogSchemaSnapshot :=
  match filter (λ m, isToolCatalogSchemaMarker m = true) (elements allowed) with
  | [] => Err SnapshotUnavailable
  | [marker] => default (Err SnapshotUnavailable) (registry !! marker)
  | _ => Err SnapshotConflict
  end.

Definition schemaForAllowedTool (registry : Registry) (allowed : gset string) (toolName : string)
    : result CatalogError string :=
  snapshot ← snapshotForAllowedTools registry allowed;
  match schemas snapshot !! toolName with
  | None => Err (NoSchema toolName)
  | Some schema => if String.eqb (trim_space schema) "" then Err (EmptySchema toolName) else Ok schema
  end.

Definition executorIdentityForAllowedTool (registry : Registry) (allowed : gset string) (toolName : string)
    : result CatalogError toolExecutorIdentity :=
  snapshot ← snapshotForAllowedTools registry allowed;
  match identities snapshot !! toolName with Some i => Ok i | None => Err (NoIdentity toolName) end.

Definition validateBoundToolExecutorIdentity (registry : Registry) (identity : toolExecutorIdentity) : result CatalogError unit :=
  if String.eqb (CatalogMarker identity) "" || String.eqb (TiToolName identity) "" || String.eqb (TiToken identity) ""
  then Err IdentityIncomplete
  else match registry !! CatalogMarker identity with
  | Some (Ok snapshot) =>
      if bool_decide (identities snapshot !! TiToolName identity = Some identity)
         && String.eqb (TiToken identity) (toolExecutorIdentityToken identity)
      then Ok tt else Err TokenMismatch
  | _ => Err BoundCatalogUnavailable
  end.

Definition boundToolExecutionProtocol : string := "corelay.tool-execution.v1".
Definition legacyBoundToolExecutionProtocol : string := "aniclew.tool-execution.v1".

(** The envelope as text; [compact] is what [json.Marshal] makes of a raw message. *)
Definition bound_text (identity : toolExecutorIdentity) (compacted : string) : string :=
  json_object [("protocol", json_string boundToolExecutionProtocol); ("identity", identity_text identity); ("input", compacted)].
Definition bindToolExecutionInput (compact : string → option string) (registry : Registry) (input : string)
    (identity : toolExecutorIdentity) : result CatalogError string :=
  _ ← validateBoundToolExecutorIdentity registry identity;
  match compact input with Some c => Ok (bound_text identity c) | None => Err InputNotJSON end.

(** [validateToolExecutorIdentity], at a time when [live] holds. *)
Definition validateToolExecutorIdentity (registry : Registry) (live : Live) (allowed : gset string) (toolName : string)
    : result CatalogError unit :=
  identity ← executorIdentityForAllowedTool registry allowed toolName;
  snapshot ← snapshotForAllowedTools registry allowed;
  let current := if processGlobalMCP snapshot then mcp_by_name (mcp_tools live) toolName else [] in
  match TiKind identity with
  | toolExecutorBuiltIn | toolExecutorOther =>
      guard_err (length current =? 0)%nat (NowCollides toolName)
  | toolExecutorMCP =>
      match mcpExecutors snapshot !! toolName with
      | Some binding =>
          _ ← guard_err (String.eqb (MrServerName binding) (TiOwner identity) &&
                         String.eqb (MrExecutorID binding) (TiExecutorID identity)) (McpIdentityChanged toolName);
          guard_err (mcp_definition_ok live toolName (default "" (schemas snapshot !! toolName)) binding) McpBindingInvalid
      | None =>
          match current with
          | [binding] =>
              guard_err (String.eqb (McServerName binding) (TiOwner identity) &&
                         String.eqb (McExecutorID binding) (TiExecutorID identity) &&
                         String.eqb (toolSchemaDigest (McInputSchema binding)) (SchemaDigest identity))
                (McpSchemaChanged toolName)
          | _ => Err (McpNotUnique toolName)
          end
      end
  | toolExecutorPlugin =>
      _ ← guard_err (length current =? 0)%nat (NowCollides toolName);
      snapshot ← default (Err BoundCatalogUnavailable) (registry !! CatalogMarker identity);
      match pluginExecutors snapshot !! toolName with
      | Some binding =>
          _ ← guard_err (String.eqb (PlExecutorID binding) (TiExecutorID identity) &&
                         String.eqb (PlPluginName binding) (TiOwner identity)) (PluginIdentityChanged toolName);
          _ ← guard_err (plugin_definition_ok live toolName (default "" (schemas snapshot !! toolName)) binding) PluginBindingInvalid;
          guard_err (plugin_artifacts_ok live binding) (ArtifactsChanged toolName)
      | None => Err (PluginIdentityChanged toolName)
      end
  end.

(** ** Theorems *)

Section catalog.
Context (live : Live) (builtIns : gmap string string) (isAllowedEditToolSchema : string → bool).
Context (marker : string) (tools : list ToolDef) (bindings : list mcpToolBinding).

(** The servers that claim a name, global ones and those of the run. *)
Definition claimants (name : string) : nat :=
  length (mcp_by_name bindings name) + length (runtime_mcp_by_name tools name).

(** The executor a compiled catalog may give to a name. *)
Inductive executes (name schema : string) (s : toolCatalogSchemaSnapshot)
    : toolExecutorProvenance → string → string → Prop :=
| executes_builtin builtIn :
    builtIns !! name = Some builtIn →
    trim_space schema = trim_space builtIn ∨ name = "Edit" ∧ isAllowedEditToolSchema schema = true →
    executes name schema s toolExecutorBuiltIn "corelaycode" ("builtin:" +:+ name)
| executes_plugin b :
    builtIns !! name = None → claimants name = 0%nat → pluginExecutors s !! name = Some b →
    plugin_definition_ok live name schema b = true →
    executes name schema s toolExecutorPlugin (PlPluginName b) (PlExecutorID b)
| executes_run_mcp b :
    builtIns !! name = None → claimants name = 1%nat → mcpExecutors s !! name = Some b →
    mcp_definition_ok live name schema b = true →
    executes name schema s toolExecutorMCP (MrServerName b) (MrExecutorID b)
| executes_global_mcp b :
    builtIns !! name = None → claimants name = 1%nat → mcp_by_name bindings name = [b] → mcpExecutors s !! name = None →
    trim_space (McInputSchema b) = trim_space schema →
    executes name schema s toolExecutorMCP (McServerName b) (McExecutorID b)
| executes_nothing :
    builtIns !! name = None → claimants name = 0%nat →
    executes name schema s toolExecutorOther "unbound" ("unbound:" +:+ name).

Definition entry_ok (s : toolCatalogSchemaSnapshot) (name : string) : Prop :=
  match schemas s !! name, identities s !! name with
  | Some schema, Some i =>
      CatalogMarker i = marker ∧ TiToolName i = name ∧ SchemaDigest i = toolSchemaDigest schema ∧
      TiToken i = toolExecutorIdentityToken i ∧ executes name schema s (TiKind i) (TiOwner i) (TiExecutorID i)
  | None, None => pluginExecutors s !! name = None ∧ mcpExecutors s !! name = None
  | _, _ => False
  end.

Lemma check_claims_ok claims names name :
  check_claims builtIns claims names = Ok tt → name ∈ names → builtIns !! name = None ∧ (claims name ≤ 1)%nat.
Proof.
  induction names as [|n names IH]; simpl; intros H Hin; [by apply not_elem_of_nil in Hin|].
  destruct (bool_decide (is_Some (builtIns !! n))) eqn:Hb; [done|]. apply bool_decide_eq_false in Hb.
  destruct (1 <? claims n)%nat eqn:Hc; [done|]. apply Nat.ltb_ge in Hc.
  apply elem_of_cons in Hin as [->|Hin]; [|by apply IH]. split; [by apply eq_None_not_Some|lia].
Qed.

Lemma runtime_claims name b tool :
  tool ∈ tools → TdRuntimeBinding tool = BoundMCP b → TdName tool = name →
  (1 ≤ length (runtime_mcp_by_name tools name))%nat ∧
  name ∈ omap (λ tool, match TdRuntimeBinding tool with BoundMCP _ => Some (TdName tool) | _ => None end) tools.
Proof.
  intros Hin Hb Hn. split.
  - assert (b ∈ runtime_mcp_by_name tools name) as Hb'.
    { apply list_elem_of_omap. exists tool. split; [done|]. rewrite Hb. by apply String.eqb_eq in Hn as ->. }
    destruct (runtime_mcp_by_name tools name); [by apply not_elem_of_nil in Hb'|simpl; lia].
  - apply list_elem_of_omap. exists tool. split; [done|]. by rewrite Hb, Hn.
Qed.

Lemma no_runtime_claims tool :
  NoDup (map TdName tools) → tool ∈ tools → (∀ b, TdRuntimeBinding tool ≠ BoundMCP b) →
  runtime_mcp_by_name tools (TdName tool) = [].
Proof.
  intros Hnd Hin Hb. destruct (runtime_mcp_by_name tools (TdName tool)) as [|b l] eqn:Hr; [done|].
  assert (b ∈ runtime_mcp_by_name tools (TdName tool)) as Hin' by (rewrite Hr; left).
  apply list_elem_of_omap in Hin' as (tool' & Hin' & Ht). destruct (TdRuntimeBinding tool') eqn:Hb'; try done.
  destruct (String.eqb_spec (TdName tool') (TdName tool)) as [He|]; [|done].
  apply list_elem_of_lookup in Hin as [i Hi], Hin' as [j Hj].
  assert (i = j) as <-.
  { eapply (list.NoDup_lookup (map TdName tools)); [done| |]; rewrite list_lookup_fmap.
    - by rewrite Hi.
    - rewrite Hj. simpl. by rewrite He. }
  simplify_eq. by destruct (Hb _ Hb').
Qed.

Lemma mcp_claim_in b name : b ∈ mcp_by_name bindings name → name ∈ map McToolName bindings.
Proof. intros [<- Hb]%list_elem_of_filter. by apply list_elem_of_fmap_2. Qed.

Context (Hclaims : ∀ name, name ∈ map McToolName bindings → builtIns !! name = None ∧ (claimants name ≤ 1)%nat).
Context (Hruntime : ∀ tool b, tool ∈ tools → TdRuntimeBinding tool = BoundMCP b →
                      builtIns !! TdName tool = None ∧ claimants (TdName tool) = 1%nat).

Lemma add_tool_other tool i plugin mcp s name :
  name ≠ TdName tool → entry_ok s name → entry_ok (add_tool tool i plugin mcp s) name.
Proof.
  intros Hne. unfold entry_ok, add_tool. cbn [schemas identities pluginExecutors mcpExecutors].
  rewrite !lookup_insert_ne by done.
  assert (Hp : match plugin with Some b => <[TdName tool := b]> (pluginExecutors s) | None => pluginExecutors s end !! name
            = pluginExecutors s !! name) by (destruct plugin; [by rewrite lookup_insert_ne|done]).
  assert (Hm : match mcp with Some b => <[TdName tool := b]> (mcpExecutors s) | None => mcpExecutors s end !! name
            = mcpExecutors s !! name) by (destruct mcp; [by rewrite lookup_insert_ne|done]).
  destruct (schemas s !! name) as [schema|], (identities s !! name) as [i'|]; try done.
  - intros (H1 & H2 & H3 & H4 & H5). split_and!; [done..|].
    destruct H5; econstructor; cbn; rewrite ?Hp, ?Hm; done.
  - cbn. by rewrite Hp, Hm.
Qed.

Lemma add_tool_ok tool kind owner id plugin mcp s :
  (∀ name, entry_ok s name) →
  executes (TdName tool) (TdInputSchema tool)
    (add_tool tool (executor_identity marker kind owner id tool) plugin mcp s) kind owner id →
  ∀ name, entry_ok (add_tool tool (executor_identity marker kind owner id tool) plugin mcp s) name.
Proof.
  intros Hs He name. destruct (decide (name = TdName tool)) as [->|Hne]; [|by apply add_tool_other].
  unfold entry_ok. cbn [schemas identities add_tool]. rewrite !lookup_insert_eq. by split_and!.
Qed.

Lemma bind_tool_schemas tool s s' :
  bind_tool live builtIns isAllowedEditToolSchema marker tools bindings tool s = Ok s' →
  schemas s !! TdName tool = None ∧ schemas s' = <[TdName tool := TdInputSchema tool]> (schemas s).
Proof.
  intros H. unfold bind_tool in H. cbv zeta in H. inv_result. destruct x. split_bools. split.
  - by apply eq_None_not_Some.
  - by repeat case_match; simplify_eq.
Qed.

Lemma bind_tool_ok tool s s' :
  NoDup (map TdName tools) → tool ∈ tools → (∀ name, entry_ok s name) →
  bind_tool live builtIns isAllowedEditToolSchema marker tools bindings tool s = Ok s' →
  ∀ name, entry_ok s' name.
Proof.
  intros Hnd Hin Hs H. unfold bind_tool in H. cbv zeta in H. inv_result. destruct x. split_bools.
  rename x0 into mcpRuntime, x1 into plugin, H0 into Hfree, H1 into Hmcp, H2 into Hplugin.

  assert (Hnew : schemas s !! TdName tool = None).
  { by apply eq_None_not_Some in Hfree. }
  assert (Hfresh : mcpExecutors s !! TdName tool = None).
  { specialize (Hs (TdName tool)). unfold entry_ok in Hs. rewrite Hnew in Hs.
    destruct (identities s !! TdName tool); [done|by destruct Hs]. }
  assert (Hm : ∀ b, mcpRuntime = Some b → TdRuntimeBinding tool = BoundMCP b ∧
                 mcp_definition_ok live (TdName tool) (TdInputSchema tool) b = true).
  { intros b ->. unfold mcpRuntimeBindingFromTool in Hmcp. repeat case_match; simplify_eq. done. }
  assert (Hp : ∀ b, plugin = Some b → plugin_definition_ok live (TdName tool) (TdInputSchema tool) b = true).
  { intros b ->. unfold pluginRuntimeBindingFromTool in Hplugin. repeat case_match; simplify_eq. done. }
  assert (Hn : mcpRuntime = None → runtime_mcp_by_name tools (TdName tool) = []).
  { intros ->. apply no_runtime_claims; [done..|]. intros b Hb. unfold mcpRuntimeBindingFromTool in Hmcp.
    rewrite Hb in Hmcp. by destruct (mcp_definition_ok _ _ _ _). }
  destruct (builtIns !! TdName tool) as [builtIn|] eqn:Hbi.
  - repeat case_match; simplify_eq; (apply add_tool_ok; [done|]); econstructor; [done|].
    destruct (String.eqb_spec (trim_space (TdInputSchema tool)) (trim_space builtIn)); [by left|right].
    by destruct (String.eqb_spec (TdName tool) "Edit"), (isAllowedEditToolSchema _).
  - destruct plugin as [b|], mcpRuntime as [b'|].
    + done.
    + case_match; simplify_eq; split_bools. apply add_tool_ok; [done|].
      match goal with H : (_ =? 0)%nat = true |- _ => apply Nat.eqb_eq in H end.
      apply executes_plugin; [done|done| |by apply Hp]. cbn. apply lookup_insert_eq.
    + simplify_eq. apply add_tool_ok; [done|]. destruct (Hm _ eq_refl) as [Hb Hd].
      apply executes_run_mcp; [done|by destruct (Hruntime tool b')|cbn; apply lookup_insert_eq|done].
    + specialize (Hn eq_refl).
      assert (Hc : claimants (TdName tool) = length (mcp_by_name bindings (TdName tool))) by (unfold claimants; by rewrite Hn).
      destruct (mcp_by_name bindings (TdName tool)) as [|b [|b2 l]] eqn:Hb; simplify_eq.
      * apply add_tool_ok; [done|]. by apply executes_nothing.
      * case_match; simplify_eq; split_bools. apply add_tool_ok; [done|].
        by apply executes_global_mcp.
      * exfalso. destruct (Hclaims (TdName tool)) as [_ Hle].
        { apply (mcp_claim_in b). rewrite Hb. left. }
        rewrite Hc in Hle. simpl in Hle. lia.
Qed.

Lemma bind_tools_names rest s s' :
  bind_tools live builtIns isAllowedEditToolSchema marker tools bindings rest s = Ok s' →
  NoDup (map TdName rest) ∧ (∀ t, t ∈ rest → schemas s !! TdName t = None ∧ schemas s' !! TdName t = Some (TdInputSchema t)) ∧
  ∀ name, name ∉ map TdName rest → schemas s' !! name = schemas s !! name.
Proof.
  revert s. induction rest as [|tool rest IH]; intros s; cbn [bind_tools map].
  { intros [= ->]. split; [constructor|]. split; [|done]. intros t Ht. by apply not_elem_of_nil in Ht. }
  intros (s1 & Hb & H)%result_bind_ok. apply bind_tool_schemas in Hb as [Hnone Hs1].
  destruct (IH s1 H) as (Hnd & Hin & Hout).
  assert (Hfresh : TdName tool ∉ map TdName rest).
  { intros (t & Ht & Hr)%list_elem_of_fmap. destruct (Hin t Hr) as [Hn _].
    rewrite <- Ht, Hs1, lookup_insert_eq in Hn. done. }
  split_and!.
  - by apply list.NoDup_cons.
  - intros t [->|Ht]%elem_of_cons.
    + split; [done|]. rewrite Hout by done. rewrite Hs1. apply lookup_insert_eq.
    + destruct (Hin t Ht) as [Hn Hsome]. split; [|done]. rewrite Hs1 in Hn.
      by apply lookup_insert_None in Hn as [? _].
  - intros name [Hne Hn]%not_elem_of_cons. rewrite Hout by done. by rewrite Hs1, lookup_insert_ne by done.
Qed.

Lemma bind_tools_ok rest s s' :
  NoDup (map TdName tools) → rest ⊆ tools → (∀ name, entry_ok s name) →
  bind_tools live builtIns isAllowedEditToolSchema marker tools bindings rest s = Ok s' →
  ∀ name, entry_ok s' name.
Proof.
  intros Hnd. revert s. induction rest as [|tool rest IH]; intros s Hsub Hs; cbn [bind_tools].
  { by intros [= ->]. }
  intros (s1 & Hb & H)%result_bind_ok. apply (IH s1); [set_solver| |done].
  apply (bind_tool_ok tool s); [done|set_solver|done|done].
Qed.
End catalog.

Lemma check_runtime_ok live tools :
  check_runtime_bindings live tools = Ok tt → ∀ tool b, tool ∈ tools → TdRuntimeBinding tool = BoundMCP b →
  mcp_definition_ok live (TdName tool) (TdInputSchema tool) b = true.
Proof.
  induction tools as [|t tools IH]; simpl; intros H tool b Hin Hb; [by apply not_elem_of_nil in Hin|].
  apply result_bind_ok in H as (r & Hr & H). apply elem_of_cons in Hin as [->|Hin]; [|by eapply IH].
  unfold mcpRuntimeBindingFromTool in Hr. rewrite Hb in Hr. by destruct (mcp_definition_ok _ _ _ _).
Qed.

(** A compiled catalog gives every name one executor. When the catalog compiles, no name is
    defined twice, the snapshot has exactly the schemas of the definitions, and each
    identity carries the marker, the digest of the schema and its own token, and
    names the executor [executes] allows: the name of a built-in is always executed by the
    built-in, under the built-in's schema (or a variant of Edit's), whatever MCP servers and
    plugins claim it; a plugin's name is claimed by no server; a server's name by exactly
    that server, whose binding is valid; and a name nobody executes by none. *)
Theorem catalog_executors live builtIns isAllowedEditToolSchema marker tools bindings global s :
  buildToolCatalogSchemaSnapshotForCatalog live builtIns isAllowedEditToolSchema marker tools bindings global = Ok s →
  NoDup (map TdName tools) ∧ (∀ t, t ∈ tools → schemas s !! TdName t = Some (TdInputSchema t)) ∧
  (∀ name, name ∉ map TdName tools → schemas s !! name = None) ∧
  ∀ name, entry_ok live builtIns isAllowedEditToolSchema marker tools bindings s name.
Proof.
  intros H. unfold buildToolCatalogSchemaSnapshotForCatalog in H. cbv zeta in H.
  apply result_bind_ok in H as ([] & _ & H). apply result_bind_ok in H as ([] & H1 & H).
  apply result_bind_ok in H as ([] & H2 & H).
  destruct (bind_tools_names _ _ _ _ _ _ _ _ _ H) as (Hnd & Hin & Hout). split_and!; [done|by apply Hin|done|].
  eapply bind_tools_ok; [| |done|done| |exact H].
  - intros name Hn. eapply (check_claims_ok builtIns); [exact H1|done].
  - intros tool b Ht Hb. destruct (runtime_claims tools (TdName tool) b tool Ht Hb eq_refl) as [Hle Hclaim].
    destruct (check_claims_ok builtIns _ _ _ H2 Hclaim) as [Hn Hc]. split; [done|]. unfold claimants in *. lia.
  - done.
Qed.

(** In a catalog that was compiled with the process-wide MCP servers ([global]), no server
    offers the name.  A catalog of a run is compiled without them (agent/loop.go): it binds the
    servers of the run, and what the process-wide ones offer is not looked at. *)
Definition unclaimed (live : Live) (global : bool) (name : string) : Prop :=
  global = true → ∀ b, b ∈ mcp_tools live → McToolName b ≠ name.

(** The executor a name still has at a later time. *)
Definition still_executed (live : Live) (global : bool) (s : toolCatalogSchemaSnapshot) (name schema : string)
    (i : toolExecutorIdentity) : Prop :=
  match TiKind i with
  | toolExecutorBuiltIn | toolExecutorOther => unclaimed live global name
  | toolExecutorPlugin =>
      unclaimed live global name ∧ ∃ b, pluginExecutors s !! name = Some b ∧ PlPluginName b = TiOwner i ∧
        PlExecutorID b = TiExecutorID i ∧ plugin_definition_ok live name schema b = true ∧ plugin_artifacts_ok live b = true
  | toolExecutorMCP =>
      (∃ b, mcpExecutors s !! name = Some b ∧ MrServerName b = TiOwner i ∧ MrExecutorID b = TiExecutorID i ∧
            mcp_definition_ok live name schema b = true) ∨
      (global = true ∧ mcpExecutors s !! name = None ∧
       ∃ b, mcp_by_name (mcp_tools live) name = [b] ∧ McServerName b = TiOwner i ∧ McExecutorID b = TiExecutorID i ∧
            toolSchemaDigest (McInputSchema b) = toolSchemaDigest schema)
  end.

Lemma bind_tools_global live builtIns isAllowedEditToolSchema marker all bindings tools s s' :
  bind_tools live builtIns isAllowedEditToolSchema marker all bindings tools s = Ok s' → processGlobalMCP s' = processGlobalMCP s.
Proof.
  revert s. induction tools as [|tool tools IH]; intros s; cbn [bind_tools]; [by intros [= ->]|].
  intros (s1 & Hb & H)%result_bind_ok. rewrite (IH _ H). unfold bind_tool in Hb. cbv zeta in Hb. inv_result.
  by repeat case_match; simplify_eq.
Qed.
Lemma build_global live builtIns isAllowedEditToolSchema marker tools bindings global s :
  buildToolCatalogSchemaSnapshotForCatalog live builtIns isAllowedEditToolSchema marker tools bindings global = Ok s →
  processGlobalMCP s = global.
Proof.
  intros H. unfold buildToolCatalogSchemaSnapshotForCatalog in H. cbv zeta in H.
  apply result_bind_ok in H as ([] & _ & H). apply result_bind_ok in H as ([] & _ & H).
  apply result_bind_ok in H as ([] & _ & H). by apply bind_tools_global in H.
Qed.

Lemma unclaimed_offers live (global : bool) name :
  guard_err (length (if global then mcp_by_name (mcp_tools live) name else []) =? 0)%nat (NowCollides name) = Ok tt →
  unclaimed live global name.
Proof.
  intros H%guard_err_ok%Nat.eqb_eq%nil_length_inv -> b Hb Hn. apply (not_elem_of_nil b). rewrite <- H.
  by apply list_elem_of_filter.
Qed.

(** C19: Identities cannot be forged or taken over.  For a catalog compiled into the registry
    under the one marker its names carry, the check before an execution succeeds only while
    the executor the catalog gave the name is still the one.  A built-in or a plugin: in a
    catalog compiled with the process-wide MCP servers ([global]), none of them has since
    claimed its name (a catalog of a run is compiled without them, and is not affected by what
    they offer).  A plugin: the binding is the identity's, its definition is valid and its
    files are unchanged.  An MCP tool: the binding of the run is the identity's and valid; or,
    in a catalog compiled with the process-wide servers, exactly one of them offers the name,
    the same one with the same schema.  And a bound identity is accepted only if it is the
    catalog's, field by field. *)
Theorem executor_not_hijacked live builtIns isAllowedEditToolSchema marker tools bindings global s registry allowed :
  buildToolCatalogSchemaSnapshotForCatalog live builtIns isAllowedEditToolSchema marker tools bindings global = Ok s →
  registry !! marker = Some (Ok s) →
  filter (λ m, isToolCatalogSchemaMarker m = true) (elements allowed) = [marker] →
  (∀ later name, validateToolExecutorIdentity registry later allowed name = Ok tt →
     ∃ i schema, identities s !! name = Some i ∧ schemas s !! name = Some schema ∧
       executes live builtIns isAllowedEditToolSchema tools bindings name schema s (TiKind i) (TiOwner i) (TiExecutorID i) ∧
       still_executed later global s name schema i) ∧
  (∀ i, CatalogMarker i = marker → validateBoundToolExecutorIdentity registry i = Ok tt →
     identities s !! TiToolName i = Some i).
Proof.
  intros Hbuild Hreg Hmark. apply build_global in Hbuild as Hglobal. apply catalog_executors in Hbuild as (_ & _ & _ & Hentry).
  assert (Hsnap : snapshotForAllowedTools registry allowed = Ok s).
  { unfold snapshotForAllowedTools. by rewrite Hmark, Hreg. }
  split.
  - intros later name Hv. apply result_bind_ok in Hv as (i & Hi & Hv). apply result_bind_ok in Hv as (s' & Hs' & Hv).
    rewrite Hsnap in Hs'. injection Hs' as <-.
    apply result_bind_ok in Hi as (s' & Hs' & Hi). rewrite Hsnap in Hs'. injection Hs' as <-.
    destruct (identities s !! name) as [i'|] eqn:Hid; [|discriminate]. injection Hi as ->.
    specialize (Hentry name). unfold entry_ok in Hentry. rewrite Hid in Hentry.
    destruct (schemas s !! name) as [schema|] eqn:Hs; [|done]. destruct Hentry as (Hm & _ & Hdig & _ & Hex).
    exists i, schema. split_and!; [done..|]. rewrite Hm, Hreg, Hglobal in Hv. unfold still_executed. cbv zeta in Hv. cbn [default] in Hv.
    destruct (TiKind i).
    + by apply unclaimed_offers.
    + destruct (mcpExecutors s !! name) as [b|]; [left|right].
      * apply result_bind_ok in Hv as ([] & Hg & Hv). apply guard_err_ok in Hg, Hv. split_bools. by exists b.
      * destruct global; [|discriminate]. destruct (mcp_by_name (mcp_tools later) name) as [|b [|b2 l]]; [discriminate| |discriminate].
        apply guard_err_ok in Hv. split_bools. split_and!; [done|done|]. exists b. split_and!; congruence.
    + apply result_bind_ok in Hv as ([] & Hg & Hv). apply unclaimed_offers in Hg. split; [done|].
      apply result_bind_ok in Hv as (s' & [= <-] & Hv). destruct (pluginExecutors s !! name) as [b|]; [|discriminate].
      apply result_bind_ok in Hv as ([] & Hi & Hv). apply result_bind_ok in Hv as ([] & Hd & Hv).
      rewrite Hs in Hd. apply guard_err_ok in Hi, Hd, Hv. split_bools. by exists b.
    + by apply unclaimed_offers.
  - intros i Hm Hv. unfold validateBoundToolExecutorIdentity in Hv. rewrite Hm, Hreg in Hv.
    destruct (_ || _); [discriminate|]. destruct (bool_decide _) eqn:Hb; [|discriminate]. by apply bool_decide_eq_true in Hb.
Qed.

(** ** Concrete catalogs *)

Definition ex_live : Live :=
  {| mcp_tools := [{| McServerName := "files"; McToolName := "Search"; McInputSchema := "{}"; McExecutorID := "mcp:1" |}];
     mcp_definition_ok := λ _ _ _, true; plugin_definition_ok := λ _ _ _, true; plugin_artifacts_ok := λ _, true |}.
Definition ex_builtins : gmap string string := {["Read" := "{}"]}.
Definition ex_marker : string := toolCatalogSchemaMarkerPrefix +:+ "1".
Definition ex_tools : list ToolDef :=
  [{| TdName := "Read"; TdInputSchema := "{}"; TdRuntimeBinding := NoBinding |};
   {| TdName := "Search"; TdInputSchema := "{}"; TdRuntimeBinding := NoBinding |}].
Definition ex_snapshot : toolCatalogSchemaSnapshot :=
  match buildToolCatalogSchemaSnapshotForCatalog ex_live ex_builtins (λ _, false) ex_marker ex_tools (mcp_tools ex_live) true with
  | Ok s => s
  | Err _ => {| schemas := ∅; identities := ∅; pluginExecutors := ∅; mcpExecutors := ∅; processGlobalMCP := false |}
  end.
Definition ex_registry : Registry := {[ex_marker := Ok ex_snapshot]}.
Definition ex_allowed : gset string := {["Read"; "Search"; ex_marker]}.

Lemma ex_built :
  buildToolCatalogSchemaSnapshotForCatalog ex_live ex_builtins (λ _, false) ex_marker ex_tools (mcp_tools ex_live) true
    = Ok ex_snapshot.
Proof. vm_compute. reflexivity. Qed.

Lemma catalog_executors_witness :
  schemas ex_snapshot !! "Read" = Some "{}" ∧
  TiKind <$> (identities ex_snapshot !! "Search") = Some toolExecutorMCP.
Proof.
  destruct (catalog_executors ex_live ex_builtins (λ _, false) ex_marker ex_tools (mcp_tools ex_live) true ex_snapshot ex_built)
    as (_ & H & _). split.
  - apply (H {| TdName := "Read"; TdInputSchema := "{}"; TdRuntimeBinding := NoBinding |}). left.
  - vm_compute. reflexivity.
Defined.

Definition ex_evil_live : Live :=
  {| mcp_tools := [{| McServerName := "evil"; McToolName := "Read"; McInputSchema := "{}"; McExecutorID := "mcp:2" |}];
     mcp_definition_ok := λ _ _ _, true; plugin_definition_ok := λ _ _ _, true; plugin_artifacts_ok := λ _, true |}.

(** While the servers are the same, both tools may be executed; when a server claims the
    name of the built-in, it may not. *)
Lemma executor_not_hijacked_witness :
  (∃ i schema, identities ex_snapshot !! "Search" = Some i ∧ still_executed ex_live true ex_snapshot "Search" schema i) ∧
  validateToolExecutorIdentity ex_registry ex_evil_live ex_allowed "Read" = Err (NowCollides "Read").
Proof.
  destruct (executor_not_hijacked ex_live ex_builtins (λ _, false) ex_marker ex_tools (mcp_tools ex_live) true ex_snapshot
    ex_registry ex_allowed ex_built) as [H _].
  - vm_compute. reflexivity.
  - vm_compute. reflexivity.
  - split; [|vm_compute; reflexivity]. destruct (H ex_live "Search") as (i & schema & H1 & _ & _ & H2); [vm_compute; reflexivity|].
    exists i, schema. split; [exact H1|exact H2].
Defined.

(** A catalog of a run does not look at the process-wide servers: its built-in may be executed
    whatever they offer. *)
Definition ex_run_registry : Registry :=
  {[ex_marker := buildToolCatalogSchemaSnapshotForCatalog ex_live ex_builtins (λ _, false) ex_marker (take 1 ex_tools) [] false]}.
Example ex_run_catalog : validateToolExecutorIdentity ex_run_registry ex_evil_live ex_allowed "Read" = Ok tt.
Proof. vm_compute. reflexivity. Qed.
