(* ===== verification/ToolSchema.v ===== *)
(** * Tool input schemas: the second half of internal/agent/tool_schema.go

    Before a call is authorized its input is checked against the schema the catalog
    advertises for the tool.  A schema is compiled, which fails closed on malformed
    keywords, and the input validated against the result.  [well_formed] and [admits] say
    directly on the JSON of the schema what the keywords mean; the theorem is that the
    two phases together decide exactly that.  The guard on nesting is a level count that
    the recursions use up, so it is also what they terminate by. *)

From Stdlib Require Import QArith Qpower.
From S2P Require Export JsonText.

Local Open Scope string_scope.
Local Open Scope list_scope.
Local Open Scope Z_scope.

(** ** Numbers

    [big.Rat.SetString] on the literal of a JSON number: an exact rational, unless its
    exponent, less the digits of its fraction, is beyond a million. *)

Definition is_digit_byte (c : ascii) : bool := byte_in 48 57 (Z.of_nat (nat_of_ascii c)).
(** The digits in front: their value after [acc], how many, and the rest. *)
Fixpoint scan_digits (acc count : Z) (s : string) : Z * Z * string :=
  match s with
  | String c s' => if is_digit_byte c then scan_digits (10 * acc + (Z.of_nat (nat_of_ascii c) - 48)) (count + 1) s' else (acc, count, s)
  | "" => (acc, count, "")
  end.
Definition scan_sign (s : string) : bool * string :=
  match s with
  | String c s' => if Ascii.eqb c "-" then (true, s') else if Ascii.eqb c "+" then (false, s') else (false, s)
  | "" => (false, "")
  end.
(** [strconv.ParseInt] of what follows the [e]. *)
Definition scan_exponent (s : string) : option Z :=
  match s with
  | "" => Some 0
  | String c s' =>
      if Ascii.eqb c "e" || Ascii.eqb c "E" then
        let '(neg, s') := scan_sign s' in
        let '(e, n, rest) := scan_digits 0 0 s' in
        let e := if neg then - e else e in
        if (n =? 0) || negb (String.eqb rest "") || (e <? - 2 ^ 63) || (2 ^ 63 <=? e) then None else Some e
      else None
  end.
Definition ten_power (e : Z) : Q := Qpower (10 # 1) e.
Definition SetString (lit : string) : option Q :=
  let '(neg, s) := scan_sign lit in
  let '(m, n, s) := scan_digits 0 0 s in
  let '(m, k, s) := match s with
                    | String c s' => if Ascii.eqb c "." then scan_digits m 0 s' else (m, 0, s)
                    | "" => (m, 0, "")
                    end in
  if n + k =? 0 then None
  else match scan_exponent s with
  | None => None
  | Some e =>
      if m =? 0 then Some 0%Q
      else if 1000000 <? Z.abs (e - k) then None
      else Some (inject_Z (if neg then - m else m) * ten_power (e - k))%Q
  end.

Definition IsInt (q : Q) : bool := (Z.pos (Qden (Qred q)) =? 1)%Z.

(** ** Equality of decoded values *)

Definition has_member {A} (k : string) (ms : list (string * A)) : bool := existsb (λ m, String.eqb k m.1) ms.

(** Objects are compared as maps: of members with one name the last counts. *)
Fixpoint toolJSONValuesEqual (left right : json) {struct left} : bool :=
  match left, right with
  | JNumber l, JNumber r =>
      match SetString l, SetString r with Some l, Some r => Qeq_bool l r | _, _ => false end
  | JObject l, JObject r =>
      (length (last_wins l) =? length (last_wins r))%nat &&
      (fix members_equal (l : members) : bool :=
         match l with
         | [] => true
         | (k, v) :: l' =>
             (has_member k l' || match last_member k r with Some w => toolJSONValuesEqual v w | None => false end)
             && members_equal l'
         end) l
  | JArray l, JArray r =>
      (fix items_equal (l r : list json) : bool :=
         match l, r with
         | [], [] => true
         | v :: l', w :: r' => toolJSONValuesEqual v w && items_equal l' r'
         | _, _ => false
         end) l r
  | JString l, JString r => String.eqb l r
  | JBool l, JBool r => Bool.eqb l r
  | JNull, JNull => true
  | _, _ => false
  end.

(** ** Compiled schemas *)

Inductive Additional (S : Type) := AdditionalAllow | AdditionalDeny | AdditionalSchema (s : S).
Arguments AdditionalAllow {S}.
Arguments AdditionalDeny {S}.
Arguments AdditionalSchema {S} _.

Record SchemaFields (S : Type) := {
  types : list string;
  properties : list (string * S);
  required : list string;
  enum : option (list json);
  items : option S;
  additional : Additional S;
  minLength : option Z;
  maxLength : option Z;
  minItems : option Z;
  maxItems : option Z;
  uniqueItems : bool;
  minimum : option Q;
  maximum : option Q;
}.
Arguments types {S} _.
Arguments properties {S} _.
Arguments required {S} _.
Arguments enum {S} _.
Arguments items {S} _.
Arguments additional {S} _.
Arguments minLength {S} _.
Arguments maxLength {S} _.
Arguments minItems {S} _.
Arguments maxItems {S} _.
Arguments uniqueItems {S} _.
Arguments minimum {S} _.
Arguments maximum {S} _.
Inductive compiledToolSchema := Compiled (fields : SchemaFields compiledToolSchema).

Inductive SchemaProblem :=
| SchemaTooDeep | EmptyTypes | ExpectedString | ExpectedTypes | UnsupportedType (name : string)
| ExpectedObject | ExpectedStrings | ExpectedNonEmptyArray | ExpectedSchema | ExpectedBoolOrSchema
| ExpectedSize | MinExceedsMax (keyword : string) | ExpectedBool | ExpectedNumber
(* of an input *)
| InputTooDeep | NotInEnum | ExpectedType (names : list string) | TooShort | TooLong | InvalidNumber
| BelowMinimum | AboveMaximum | MissingProperty | PropertyNotAllowed | TooFewItems | TooManyItems | DuplicateItem.
(** Where, and what. *)
Inductive SchemaError :=
| InputMalformed | InputNotObject | SchemaMalformed | SchemaNotObject
| BadSchema (path : string) (p : SchemaProblem)
| BadInput (path : string) (p : SchemaProblem).

Definition maxToolSchemaDepth : nat := 64.

Definition letter_byte (c : ascii) : bool :=
  let n := Z.of_nat (nat_of_ascii c) in byte_in 97 122 n || byte_in 65 90 n || Ascii.eqb c "_" || Ascii.eqb c "-".
Definition identifier (name : string) : bool :=
  match name with
  | "" => false
  | String c s => letter_byte c && forallb (λ c, letter_byte c || is_digit_byte c) (String.list_ascii_of_string s)
  end.
Definition toolSchemaPropertyPath (base name : string) : string :=
  if identifier name then base +:+ "." +:+ name else base +:+ "[" +:+ json_string name +:+ "]".
Definition index_path (path : string) (index : nat) : string := path +:+ "[" +:+ pretty (Z.of_nat index) +:+ "]".

Definition supportedToolSchemaType (name : string) : bool :=
  existsb (String.eqb name) ["string"; "number"; "integer"; "boolean"; "object"; "array"; "null"].

(** ** Compilation *)

(** A loop over a list that stops at the first error. *)
Fixpoint each_indexed {A B E} (f : nat → A → result E B) (i : nat) (l : list A) : result E (list B) :=
  match l with
  | [] => Ok []
  | x :: l' => y ← f i x; ys ← each_indexed f (S i) l'; Ok (y :: ys)
  end.

Definition string_item (e : nat → SchemaError) (i : nat) (v : json) : result SchemaError string :=
  match v with JString s => Ok s | _ => Err (e i) end.

Definition compile_types (object : members) (path : string) : result SchemaError (list string) :=
  declared ← match last_member "type" object with
             | None => Ok []
             | Some (JString s) => Ok [s]
             | Some (JArray []) => Err (BadSchema (path +:+ ".type") EmptyTypes)
             | Some (JArray l) => each_indexed (string_item (λ i, BadSchema (index_path (path +:+ ".type") i) ExpectedString)) 0 l
             | Some _ => Err (BadSchema (path +:+ ".type") ExpectedTypes)
             end;
  match list_find (λ name, supportedToolSchemaType name = false) declared with
  | Some (_, name) => Err (BadSchema (path +:+ ".type") (UnsupportedType name))
  | None => Ok (rev (remove_dups (rev declared)))
  end.

(** The members of a Go map in the order of their names. *)
Definition sorted_members (ms : members) : members := stable_sort (less_str fst) (last_wins ms).

Definition compile_required (object : members) (path : string) : result SchemaError (list string) :=
  match last_member "required" object with
  | None => Ok []
  | Some (JArray l) =>
      names ← each_indexed (string_item (λ i, BadSchema (index_path (path +:+ ".required") i) ExpectedString)) 0 l;
      Ok (stable_sort (less_str id) names)
  | Some _ => Err (BadSchema (path +:+ ".required") ExpectedStrings)
  end.

Definition compile_enum (object : members) (path : string) : result SchemaError (option (list json)) :=
  match last_member "enum" object with
  | None => Ok None
  | Some (JArray (v :: l)) => Ok (Some (v :: l))
  | Some _ => Err (BadSchema (path +:+ ".enum") ExpectedNonEmptyArray)
  end.

Definition compileToolSchemaSize (value : json) (path : string) : result SchemaError Z :=
  match value with
  | JNumber lit =>
      match SetString lit with
      | Some q =>
          if IsInt q && Qle_bool 0 q && (Qnum (Qred q) <? 2 ^ 63) then Ok (Qnum (Qred q))
          else Err (BadSchema path ExpectedSize)
      | None => Err (BadSchema path ExpectedSize)
      end
  | _ => Err (BadSchema path ExpectedSize)
  end.
Definition compileToolSchemaNumber (value : json) (path : string) : result SchemaError Q :=
  match value with
  | JNumber lit => match SetString lit with Some q => Ok q | None => Err (BadSchema path ExpectedNumber) end
  | _ => Err (BadSchema path ExpectedNumber)
  end.
(** An optional keyword. *)
Definition optional {A} (f : json → string → result SchemaError A) (object : members) (path keyword : string)
    : result SchemaError (option A) :=
  match last_member keyword object with
  | None => Ok None
  | Some v => a ← f v (path +:+ "." +:+ keyword); Ok (Some a)
  end.
(** A lower and an upper bound. *)
Definition compile_bounds {A} (f : json → string → result SchemaError A) (le : A → A → bool) (object : members)
    (path low high : string) : result SchemaError (option A * option A) :=
  lo ← optional f object path low;
  hi ← optional f object path high;
  _ ← guard_err (match lo, hi with Some lo, Some hi => le lo hi | _, _ => true end) (BadSchema path (MinExceedsMax low));
  Ok (lo, hi).
Definition compile_bool (value : json) (path : string) : result SchemaError bool :=
  match value with JBool b => Ok b | _ => Err (BadSchema path ExpectedBool) end.

Section levels.
(** The compilation of a nested schema. *)
Context (compile : members → string → result SchemaError compiledToolSchema).

Definition compile_properties (object : members) (path : string) : result SchemaError (list (string * compiledToolSchema)) :=
  match last_member "properties" object with
  | None => Ok []
  | Some (JObject ps) =>
      each_indexed (λ _ m, match m.2 with
                           | JObject sub => s ← compile sub (toolSchemaPropertyPath path m.1); Ok (m.1, s)
                           | _ => Err (BadSchema (toolSchemaPropertyPath path m.1) ExpectedObject)
                           end) 0 (sorted_members ps)
  | Some _ => Err (BadSchema (path +:+ ".properties") ExpectedObject)
  end.
Definition compile_items (object : members) (path : string) : result SchemaError (option compiledToolSchema) :=
  match last_member "items" object with
  | None => Ok None
  | Some (JObject sub) => s ← compile sub (path +:+ "[]"); Ok (Some s)
  | Some _ => Err (BadSchema (path +:+ ".items") ExpectedSchema)
  end.
Definition compile_additional (object : members) (path : string) : result SchemaError (Additional compiledToolSchema) :=
  match last_member "additionalProperties" object with
  | None => Ok AdditionalAllow
  | Some (JBool b) => Ok (if b then AdditionalAllow else AdditionalDeny)
  | Some (JObject sub) => s ← compile sub (path +:+ ".*"); Ok (AdditionalSchema s)
  | Some _ => Err (BadSchema (path +:+ ".additionalProperties") ExpectedBoolOrSchema)
  end.

Definition compile_fields (object : members) (path : string) : result SchemaError compiledToolSchema :=
  types ← compile_types object path;
  properties ← compile_properties object path;
  required ← compile_required object path;
  enum ← compile_enum object path;
  items ← compile_items object path;
  additional ← compile_additional object path;
  lengths ← compile_bounds compileToolSchemaSize Z.leb object path "minLength" "maxLength";
  counts ← compile_bounds compileToolSchemaSize Z.leb object path "minItems" "maxItems";
  unique ← optional compile_bool object path "uniqueItems";
  range ← compile_bounds compileToolSchemaNumber Qle_bool object path "minimum" "maximum";
  Ok (Compiled {| types := types; properties := properties; required := required; enum := enum; items := items;
                  additional := additional; minLength := lengths.1; maxLength := lengths.2; minItems := counts.1;
                  maxItems := counts.2; uniqueItems := default false unique; minimum := range.1; maximum := range.2 |}).
End levels.

(** [compileToolSchema object path depth], with [levels = maxToolSchemaDepth + 1 - depth]. *)
Fixpoint compileToolSchema (levels : nat) (object : members) (path : string) : result SchemaError compiledToolSchema :=
  match levels with
  | O => Err (BadSchema path SchemaTooDeep)
  | S levels' => compile_fields (compileToolSchema levels') object path
  end.

(** ** Validation *)

(** The runes of a string; a byte that belongs to none counts as one. *)
Definition byte_at (s : string) (i : nat) : Z := match String.get i s with Some c => Z.of_nat (nat_of_ascii c) | None => -1 end.
Definition rune_length (s : string) : nat :=
  let b i := byte_at s i in
  let tail i := byte_in 128 191 (b i) in
  if byte_in 194 223 (b 0%nat) && tail 1%nat then 2
  else if byte_in 224 239 (b 0%nat) && tail 1%nat && tail 2%nat &&
          negb ((b 0%nat =? 224) && (b 1%nat <? 160)) && negb ((b 0%nat =? 237) && (159 <? b 1%nat)) then 3
  else if byte_in 240 244 (b 0%nat) && tail 1%nat && tail 2%nat && tail 3%nat &&
          negb ((b 0%nat =? 240) && (b 1%nat <? 144)) && negb ((b 0%nat =? 244) && (143 <? b 1%nat)) then 4
  else 1.
Fixpoint rune_count_from (skip : nat) (s : string) : Z :=
  match s with
  | "" => 0
  | String c s' => match skip with
                   | S k => rune_count_from k s'
                   | O => 1 + rune_count_from (rune_length s - 1) s'
                   end
  end.
Definition RuneCountInString (s : string) : Z := rune_count_from 0 s.

Definition toolJSONNumberIsInteger (lit : string) : bool :=
  match SetString lit with Some q => IsInt q | None => false end.

Definition has_type (value : json) (name : string) : bool :=
  match value with
  | JString _ => String.eqb name "string"
  | JNumber lit => String.eqb name "number" || (String.eqb name "integer" && toolJSONNumberIsInteger lit)
  | JBool _ => String.eqb name "boolean"
  | JObject _ => String.eqb name "object"
  | JArray _ => String.eqb name "array"
  | JNull => String.eqb name "null"
  end.
Definition acceptsType (value : json) (types : list string) : bool := existsb (has_type value) types.

(** A bound that is there holds. *)
Definition at_least {A} (le : A → A → bool) (bound : option A) (x : A) : bool :=
  match bound with Some b => le b x | None => true end.
Definition at_most {A} (le : A → A → bool) (bound : option A) (x : A) : bool :=
  match bound with Some b => le x b | None => true end.

(** The first pair of equal items: the index of the second. *)
Fixpoint find_equal (v : json) (i : nat) (l : list json) : option nat :=
  match l with
  | [] => None
  | w :: l' => if toolJSONValuesEqual v w then Some i else find_equal v (S i) l'
  end.
Fixpoint find_duplicate (i : nat) (l : list json) : option nat :=
  match l with
  | [] => None
  | v :: l' => match find_equal v (S i) l' with Some j => Some j | None => find_duplicate (S i) l' end
  end.

Definition check_string {C} (s : SchemaFields C) (text path : string) : result SchemaError unit :=
  _ ← guard_err (at_least Z.leb (minLength s) (RuneCountInString text)) (BadInput path TooShort);
  guard_err (at_most Z.leb (maxLength s) (RuneCountInString text)) (BadInput path TooLong).
Definition check_number {C} (s : SchemaFields C) (lit path : string) : result SchemaError unit :=
  if bool_decide (minimum s = None) && bool_decide (maximum s = None) then Ok tt
  else match SetString lit with
  | None => Err (BadInput path InvalidNumber)
  | Some q =>
      _ ← guard_err (at_least Qle_bool (minimum s) q) (BadInput path BelowMinimum);
      guard_err (at_most Qle_bool (maximum s) q) (BadInput path AboveMaximum)
  end.
Fixpoint check_required (names : list string) (ms : members) (path : string) : result SchemaError unit :=
  match names with
  | [] => Ok tt
  | name :: rest =>
      _ ← guard_err (has_member name ms) (BadInput (toolSchemaPropertyPath path name) MissingProperty);
      check_required rest ms path
  end.
Definition property_named {C} (name : string) (ps : list (string * C)) : option C :=
  snd <$> find (λ p, String.eqb name p.1) ps.

Section levels.
(** The validation of a nested value. *)
Context (validate : compiledToolSchema → json → string → result SchemaError unit).

Definition check_member (s : SchemaFields compiledToolSchema) (path : string) (m : string * json) : result SchemaError unit :=
  let path := toolSchemaPropertyPath path m.1 in
  match property_named m.1 (properties s) with
  | Some property => validate property m.2 path
  | None => match additional s with
            | AdditionalAllow => Ok tt
            | AdditionalDeny => Err (BadInput path PropertyNotAllowed)
            | AdditionalSchema sub => validate sub m.2 path
            end
  end.
Definition check_object (s : SchemaFields compiledToolSchema) (ms : members) (path : string) : result SchemaError unit :=
  _ ← check_required (required s) ms path;
  _ ← each_indexed (λ _, check_member s path) 0 (sorted_members ms);
  Ok tt.
Definition check_array (s : SchemaFields compiledToolSchema) (l : list json) (path : string) : result SchemaError unit :=
  let count := Z.of_nat (length l) in
  _ ← guard_err (at_least Z.leb (minItems s) count) (BadInput path TooFewItems);
  _ ← guard_err (at_most Z.leb (maxItems s) count) (BadInput path TooManyItems);
  _ ← match (if uniqueItems s then find_duplicate 0 l else None) with
      | Some i => Err (BadInput (index_path path i) DuplicateItem)
      | None => Ok tt
      end;
  match items s with
  | None => Ok tt
  | Some sub => _ ← each_indexed (λ i v, validate sub v (index_path path i)) 0 l; Ok tt
  end.

Definition validate_fields (s : SchemaFields compiledToolSchema) (value : json) (path : string) : result SchemaError unit :=
  _ ← guard_err (match enum s with Some l => existsb (toolJSONValuesEqual value) l | None => true end) (BadInput path NotInEnum);
  _ ← guard_err (bool_decide (types s = []) || acceptsType value (types s)) (BadInput path (ExpectedType (types s)));
  match value with
  | JString text => check_string s text path
  | JNumber lit => check_number s lit path
  | JObject ms => check_object s ms path
  | JArray l => check_array s l path
  | _ => Ok tt
  end.
End levels.

(** [schema.validate(value, path, depth)], with [levels = maxToolSchemaDepth + 1 - depth]. *)
Fixpoint validate (levels : nat) (schema : compiledToolSchema) (value : json) (path : string) : result SchemaError unit :=
  match levels with
  | O => Err (BadInput path InputTooDeep)
  | S levels' => let 'Compiled s := schema in validate_fields (validate levels') s value path
  end.

(** [decode] is [decodeToolJSON]. *)
Definition validateToolInputSchema (decode : string → RawMessage) (input schema : string) : result SchemaError unit :=
  match decode input with
  | None => Err InputMalformed
  | Some (JObject value) =>
      match decode schema with
      | None => Err SchemaMalformed
      | Some (JObject object) =>
          compiled ← compileToolSchema (S maxToolSchemaDepth) object "$";
          validate (S maxToolSchemaDepth) compiled (JObject value) "$"
      | Some _ => Err SchemaNotObject
      end
  | Some _ => Err InputNotObject
  end.

(** ** What the keywords mean *)

(** Two decoded values are the same: numbers by their value, objects as maps. *)
Inductive same : json → json → Prop :=
| same_null : same JNull JNull
| same_bool b : same (JBool b) (JBool b)
| same_string s : same (JString s) (JString s)
| same_number l1 l2 q1 q2 : SetString l1 = Some q1 → SetString l2 = Some q2 → (q1 == q2)%Q → same (JNumber l1) (JNumber l2)
| same_array l1 l2 :
    length l1 = length l2 → (∀ i v w, l1 !! i = Some v → l2 !! i = Some w → same v w) → same (JArray l1) (JArray l2)
| same_object ms1 ms2 :
    (∀ k, last_member k ms1 = None ↔ last_member k ms2 = None) →
    (∀ k v w, last_member k ms1 = Some v → last_member k ms2 = Some w → same v w) →
    same (JObject ms1) (JObject ms2).

Definition strings_of (v : json) : option (list string) :=
  match v with
  | JArray l => mapM (λ v, match v with JString s => Some s | _ => None end) l
  | _ => None
  end.
(** The value of a numeric keyword, and of one that counts. *)
Definition number_of (v : json) : option Q := match v with JNumber lit => SetString lit | _ => None end.
Definition size_of (v : json) : option Z :=
  q ← number_of v; if IsInt q && Qle_bool 0 q && (Qnum (Qred q) <? 2 ^ 63) then Some (Qnum (Qred q)) else None.
Definition keyword {A} (f : json → option A) (name : string) (schema : members) : option A := last_member name schema ≫= f.

Definition type_names (v : json) : option (list string) := match v with JString s => Some [s] | _ => strings_of v end.
(** The schema a property is declared with, if it is. *)
Definition object_of (v : json) : option members := match v with JObject o => Some o | _ => None end.
Definition array_of (v : json) : option (list json) := match v with JArray l => Some l | _ => None end.
Definition declared (schema : members) (name : string) : option members :=
  ps ← keyword object_of "properties" schema; keyword object_of name ps.
Definition is_declared (schema : members) (name : string) : bool :=
  match keyword object_of "properties" schema with Some ps => has_member name ps | None => false end.

Definition unique_items (l : list json) : Prop :=
  ∀ i j v w, (i < j)%nat → l !! i = Some v → l !! j = Some w → ¬ same v w.
Definition bounds_hold (schema : members) (v : json) : Prop :=
  match v with
  | JString s =>
      (∀ n, keyword size_of "minLength" schema = Some n → n ≤ RuneCountInString s) ∧
      (∀ n, keyword size_of "maxLength" schema = Some n → RuneCountInString s ≤ n)
  | JNumber lit =>
      (∀ lo, keyword number_of "minimum" schema = Some lo → ∃ q, SetString lit = Some q ∧ (lo <= q)%Q) ∧
      (∀ hi, keyword number_of "maximum" schema = Some hi → ∃ q, SetString lit = Some q ∧ (q <= hi)%Q)
  | JArray l =>
      (∀ n, keyword size_of "minItems" schema = Some n → n ≤ Z.of_nat (length l)) ∧
      (∀ n, keyword size_of "maxItems" schema = Some n → Z.of_nat (length l) ≤ n) ∧
      (last_member "uniqueItems" schema = Some (JBool true) → unique_items l)
  | _ => True
  end.

(** The value is one the schema describes. *)
Inductive admits (schema : members) (v : json) : Prop := {
  ad_enum l : keyword array_of "enum" schema = Some l → ∃ c, c ∈ l ∧ same v c;
  ad_type names : keyword type_names "type" schema = Some names → ∃ t, t ∈ names ∧ has_type v t = true;
  ad_bounds : bounds_hold schema v;
  ad_required ms names name : v = JObject ms → keyword strings_of "required" schema = Some names → name ∈ names →
    last_member name ms ≠ None;
  ad_declared ms name w sub : v = JObject ms → last_member name ms = Some w → declared schema name = Some sub → admits sub w;
  ad_closed ms name w : v = JObject ms → last_member name ms = Some w → is_declared schema name = false →
    last_member "additionalProperties" schema ≠ Some (JBool false);
  ad_additional ms name w sub : v = JObject ms → last_member name ms = Some w → is_declared schema name = false →
    keyword object_of "additionalProperties" schema = Some sub → admits sub w;
  ad_items l w sub : v = JArray l → w ∈ l → keyword object_of "items" schema = Some sub → admits sub w;
}.

(** Two bounds are values of their kind, in order. *)
Definition bounds_formed {A} (f : json → option A) (le : A → A → Prop) (schema : members) (low high : string) : Prop :=
  (∀ v, last_member low schema = Some v → f v ≠ None) ∧ (∀ v, last_member high schema = Some v → f v ≠ None) ∧
  ∀ lo hi, keyword f low schema = Some lo → keyword f high schema = Some hi → le lo hi.

(** The keywords have values of their kinds, and schemas are nested no deeper than so many
    levels, counting this one. *)
Inductive well_formed : nat → members → Prop :=
| well_formed_schema n schema :
    (∀ v, last_member "type" schema = Some v → ∃ names, type_names v = Some names ∧ names ≠ [] ∧
       ∀ t, t ∈ names → supportedToolSchemaType t = true) →
    (∀ v, last_member "properties" schema = Some v → ∃ ps, v = JObject ps ∧
       ∀ name p, last_member name ps = Some p → ∃ sub, p = JObject sub ∧ well_formed n sub) →
    (∀ v, last_member "required" schema = Some v → ∃ names, strings_of v = Some names) →
    (∀ v, last_member "enum" schema = Some v → ∃ w l, v = JArray (w :: l)) →
    (∀ v, last_member "items" schema = Some v → ∃ sub, v = JObject sub ∧ well_formed n sub) →
    (∀ v, last_member "additionalProperties" schema = Some v → (∃ b, v = JBool b) ∨ ∃ sub, v = JObject sub ∧ well_formed n sub) →
    bounds_formed size_of Z.le schema "minLength" "maxLength" →
    bounds_formed size_of Z.le schema "minItems" "maxItems" →
    (∀ v, last_member "uniqueItems" schema = Some v → ∃ b, v = JBool b) →
    bounds_formed number_of Qle schema "minimum" "maximum" →
    well_formed (S n) schema.

(** ** Maps *)

Lemma last_wins_lookup {A} (ms : list (string * A)) k v :
  (k, v) ∈ last_wins ms → (k, v) ∈ ms.
Proof.
  induction ms as [|m ms IH]; cbn [last_wins]; [done|]. destruct (existsb _ ms); [by right; apply IH|].
  intros [->|Hin]%elem_of_cons; [left|right; by apply IH].
Qed.

Lemma has_member_elem {A} k (ms : list (string * A)) : has_member k ms = true ↔ k ∈ map fst ms.
Proof.
  unfold has_member. rewrite existsb_elem, list_elem_of_fmap. split.
  - intros (m & Hm & ->%String.eqb_eq). by exists m.
  - intros (m & -> & Hm). exists m. by rewrite String.eqb_refl.
Qed.

Lemma last_member_none k ms : last_member k ms = None ↔ has_member k ms = false.
Proof.
  induction ms as [|[k' v] ms IH]; [done|]. unfold has_member in *. cbn [last_member existsb fst].
  destruct (last_member k ms) eqn:E.
  - split; [done|]. intros [_ H]%orb_false_elim. by apply IH in H.
  - rewrite (proj1 IH eq_refl), orb_false_r. by destruct (String.eqb k k').
Qed.

Lemma last_wins_map (ms : members) k v : (k, v) ∈ last_wins ms ↔ last_member k ms = Some v.
Proof.
  induction ms as [|[k' v'] ms IH]; cbn [last_wins last_member fst]; [split; [by intros ?%elem_of_nil|done]|].
  change (existsb (λ m', String.eqb k' m'.1) ms) with (has_member k' ms).
  destruct (has_member k' ms) eqn:Hk.
  - rewrite IH. destruct (last_member k ms) eqn:E; [done|]. destruct (String.eqb_spec k k') as [->|]; [|done].
    apply last_member_none in E. congruence.
  - rewrite elem_of_cons, IH. apply last_member_none in Hk. destruct (String.eqb_spec k k') as [->|Hne].
    + rewrite Hk. split; [intros [?|?]; by simplify_eq|intros ?; left; by simplify_eq].
    + destruct (last_member k ms); split; [by intros [?|?]; simplify_eq|by right|by intros [?|?]; simplify_eq|done].
Qed.

Lemma last_wins_nodup {A} (ms : list (string * A)) : NoDup (map fst (last_wins ms)).
Proof.
  induction ms as [|m ms IH]; cbn [last_wins]; [constructor|]. destruct (existsb _ ms) eqn:E; [done|].
  cbn [map]. apply list.NoDup_cons. split; [|done]. intros ([k v] & Hk & Hin)%list_elem_of_fmap.
  apply last_wins_lookup in Hin. assert (H : has_member m.1 ms = true); [|unfold has_member in H; congruence].
  apply has_member_elem. rewrite Hk. by apply list_elem_of_fmap_2 with (f := fst) in Hin.
Qed.

Lemma sorted_members_map ms k v : (k, v) ∈ sorted_members ms ↔ last_member k ms = Some v.
Proof. unfold sorted_members. by rewrite elem_of_stable_sort, last_wins_map. Qed.

(** ** Equality decides [same] *)

Lemma json_nested_ind (P : json → Prop) :
  P JNull → (∀ b, P (JBool b)) → (∀ lit, P (JNumber lit)) → (∀ s, P (JString s)) →
  (∀ l, (∀ v, v ∈ l → P v) → P (JArray l)) → (∀ ms : members, (∀ k v, (k, v) ∈ ms → P v) → P (JObject ms)) →
  ∀ v, P v.
Proof.
  intros Hnull Hbool Hnum Hstr Harr Hobj. fix IH 1. intros [|b|lit|s|l|ms]; [done..| |].
  - apply Harr. induction l as [|v l IHl]; intros w Hw; [exact (False_ind _ (not_elem_of_nil _ Hw))|].
    apply elem_of_cons in Hw as [->|Hw]; [apply IH|by apply IHl].
  - apply Hobj. induction ms as [|[k' v'] ms IHms]; intros k v Hv; [exact (False_ind _ (not_elem_of_nil _ Hv))|].
    apply elem_of_cons in Hv as [E|Hv]; [injection E as -> ->; apply IH|by eapply IHms].
Qed.

Definition items_equal : list json → list json → bool :=
  fix items_equal (l r : list json) : bool :=
    match l, r with
    | [], [] => true
    | v :: l', w :: r' => toolJSONValuesEqual v w && items_equal l' r'
    | _, _ => false
    end.
Definition members_equal (r : members) : members → bool :=
  fix members_equal (l : members) : bool :=
    match l with
    | [] => true
    | (k, v) :: l' =>
        (has_member k l' || match last_member k r with Some w => toolJSONValuesEqual v w | None => false end)
        && members_equal l'
    end.

Lemma items_equal_same l r :
  (∀ v, v ∈ l → ∀ w, toolJSONValuesEqual v w = true ↔ same v w) →
  items_equal l r = true ↔ length l = length r ∧ ∀ i v w, l !! i = Some v → r !! i = Some w → same v w.
Proof.
  revert r. induction l as [|v l IH]; intros [|w r] Hl; cbn [items_equal length].
  { split; [|done]. intros _. by split. }
  { split; [done|by intros [? _]]. }
  { split; [done|by intros [? _]]. }
  rewrite andb_true_iff, Hl by left. rewrite IH by (intros; apply Hl; by right). split.
  - intros (Hv & Hlen & Hi). split; [lia|]. intros [|i] v' w' Hv' Hw'; simpl in Hv', Hw'; [by simplify_eq|by apply (Hi i)].
  - intros [Hlen Hi]. split_and!; [by apply (Hi 0%nat)|lia|]. intros i v' w'. apply (Hi (S i)).
Qed.

Lemma members_equal_same l r :
  (∀ k v, (k, v) ∈ l → ∀ w, toolJSONValuesEqual v w = true ↔ same v w) →
  members_equal r l = true ↔ ∀ k v, last_member k l = Some v → ∃ w, last_member k r = Some w ∧ same v w.
Proof.
  induction l as [|[k' v'] l IH]; intros Hl; cbn [members_equal last_member]; [by split|].
  rewrite andb_true_iff, orb_true_iff, IH by (intros ? ? ?; apply (Hl k); by right).
  assert (Hv' : ∀ w, toolJSONValuesEqual v' w = true ↔ same v' w) by (intros w; apply (Hl k'); left).
  split.
  - intros [H1 H2] k v. destruct (last_member k l) eqn:E; [intros [= <-]; by apply H2|].
    destruct (String.eqb_spec k k') as [->|]; [|done]. intros [= <-]. apply last_member_none in E.
    destruct H1 as [H1|H1]; [congruence|]. destruct (last_member k' r) as [w|]; [|done]. exists w. by rewrite <- Hv'.
  - intros H. split.
    + destruct (has_member k' l) eqn:E; [by left|right]. apply last_member_none in E. destruct (H k' v') as (w & -> & Hs).
      { by rewrite E, String.eqb_refl. }
      by rewrite Hv'.
    + intros k v Hk. apply H. by rewrite Hk.
Qed.

(** The keys of one map are keys of the other, and there are as many: they are the same. *)
Lemma same_keys (l r : members) :
  (∀ k, last_member k l ≠ None → last_member k r ≠ None) →
  length (last_wins l) = length (last_wins r) ↔ ∀ k, last_member k l = None ↔ last_member k r = None.
Proof.
  intros Hsub.
  assert (Hkey : ∀ (ms : members) k, k ∈ map fst (last_wins ms) ↔ last_member k ms ≠ None).
  { intros ms k. rewrite list_elem_of_fmap. split.
    - intros ([k' v] & -> & Hin%last_wins_map). simpl. by rewrite Hin.
    - destruct (last_member k ms) as [v|] eqn:E; [|done]. intros _. exists (k, v). by rewrite last_wins_map. }
  assert (Hincl : map fst (last_wins l) ⊆ map fst (last_wins r)) by (intros k; rewrite !Hkey; apply Hsub).
  split.
  - intros Hlen k. assert (Hp : map fst (last_wins l) ≡ₚ map fst (last_wins r)).
    { apply submseteq_length_Permutation; [apply NoDup_submseteq; [apply last_wins_nodup|done]|]. rewrite !length_map. lia. }
    assert (Hk : k ∈ map fst (last_wins l) ↔ k ∈ map fst (last_wins r)) by (by rewrite Hp).
    rewrite !Hkey in Hk. destruct (last_member k l), (last_member k r); intuition congruence.
  - intros H. rewrite <- (length_map fst (last_wins l)), <- (length_map fst (last_wins r)). apply Permutation_length.
    apply NoDup_Permutation; [apply last_wins_nodup..|]. intros k. by rewrite !Hkey, H.
Qed.

Lemma values_equal_same v : ∀ w, toolJSONValuesEqual v w = true ↔ same v w.
Proof.
  induction v as [|b|lit|s|l IH|ms IH] using json_nested_ind; intros w;
    (destruct w as [|b'|lit'|s'|l'|ms']; try (split; [done|by inversion 1]); cbn [toolJSONValuesEqual]).
  - split; [constructor|done].
  - rewrite eqb_true_iff. split; [intros ->; constructor|by inversion 1].
  - split.
    + intros H. destruct (SetString lit) eqn:E1, (SetString lit') eqn:E2; try done. apply Qeq_bool_iff in H. by econstructor.
    + inversion 1 as [| | |? ? q1 q2 E1 E2 E3| |]; subst. rewrite E1, E2. by apply Qeq_bool_iff.
  - rewrite String.eqb_eq. split; [intros ->; constructor|by inversion 1].
  - change (items_equal l l' = true ↔ same (JArray l) (JArray l')). rewrite (items_equal_same _ _ IH). split.
    + intros [H1 H2]. by constructor.
    + by inversion 1.
  - change ((length (last_wins ms) =? length (last_wins ms'))%nat && members_equal ms' ms = true ↔ same (JObject ms) (JObject ms')).
    rewrite andb_true_iff, Nat.eqb_eq, (members_equal_same _ _ IH). split.
    + intros [Hlen H]. constructor.
      * apply same_keys; [|done]. intros k Hk. destruct (last_member k ms) as [v|] eqn:E; [|done].
        by destruct (H k v E) as (w & -> & _).
      * intros k v w Hv Hw. destruct (H k v Hv) as (w' & E & Hs). congruence.
    + inversion 1 as [| | | | |? ? Hk Hs]; subst. split.
      * apply same_keys; [|done]. intros k. by rewrite (Hk k).
      * intros k v Hv. destruct (last_member k ms') as [w|] eqn:E; [exists w; by eauto|]. apply Hk in E. congruence.
Qed.

(** ** Compilation accepts the well-formed schemas *)

Lemma each_indexed_ok {A B E} (f : nat → A → result E B) i l ys :
  each_indexed f i l = Ok ys ↔
  length ys = length l ∧ ∀ k x y, l !! k = Some x → ys !! k = Some y → f (i + k)%nat x = Ok y.
Proof.
  revert i ys. induction l as [|x l IH]; intros i ys; cbn [each_indexed].
  { split; [by intros [= <-]|]. intros [H _]. by destruct ys. }
  split.
  - intros (y & Hy & H)%result_bind_ok. apply result_bind_ok in H as (ys' & H & [= <-]). apply IH in H as [Hlen H].
    split; [simpl; by rewrite Hlen|]. intros [|k] x' y' Hx Hy'; simpl in Hx, Hy'; simplify_eq; [by rewrite Nat.add_0_r|].
    rewrite <- Nat.add_succ_comm. by apply H.
  - intros [Hlen H]. destruct ys as [|y ys]; [done|]. injection Hlen as Hlen.
    specialize (H 0%nat x y eq_refl eq_refl) as Hx. rewrite Nat.add_0_r in Hx. rewrite Hx. cbn.
    assert (E1 : each_indexed f (S i) l = Ok ys); [|by rewrite E1].
    apply IH. split; [done|]. intros k x' y' Hk Hk'. rewrite Nat.add_succ_comm. by apply (H (S k)).
Qed.
Lemma each_indexed_total {A B E} (f : nat → A → result E B) i l :
  (∀ k x, l !! k = Some x → ∃ y, f (i + k)%nat x = Ok y) ↔ ∃ ys, each_indexed f i l = Ok ys.
Proof.
  split.
  - revert i. induction l as [|x l IH]; intros i H; cbn [each_indexed]; [by eexists|].
    destruct (H 0%nat x eq_refl) as [y Hy]. rewrite Nat.add_0_r in Hy. rewrite Hy. cbn.
    destruct (IH (S i)) as [ys ->]; [|by eexists]. intros k x' Hk. rewrite Nat.add_succ_comm. by apply (H (S k)).
  - intros [ys [Hlen H]%each_indexed_ok] k x Hk. assert (Hlt : (k < length ys)%nat) by (rewrite Hlen; by eapply lookup_lt_Some).
    apply lookup_lt_is_Some in Hlt as [y Hy]. exists y. by apply H.
Qed.

Lemma string_items e i l names :
  each_indexed (string_item e) i l = Ok names ↔ strings_of (JArray l) = Some names.
Proof.
  unfold strings_of. revert i names. induction l as [|v l IH]; intros i names; cbn [each_indexed mapM].
  { split; by intros [= <-]. }
  destruct v as [| | |s| |]; cbn; try done. specialize (IH (S i)).
  destruct (each_indexed (string_item e) (S i) l) as [ns|] eqn:E1; cbn.
  - destruct (mapM _ l) as [ns'|] eqn:E2; cbn; [|by specialize (proj1 (IH ns) eq_refl)].
    specialize (proj1 (IH ns) eq_refl) as [= ->]. split; by intros [= <-].
  - destruct (mapM _ l) as [ns'|] eqn:E2; cbn; [|done]. by specialize (proj2 (IH ns') eq_refl).
Qed.

Definition types_formed (schema : members) : Prop :=
  ∀ v, last_member "type" schema = Some v → ∃ names, type_names v = Some names ∧ names ≠ [] ∧
    ∀ t, t ∈ names → supportedToolSchemaType t = true.

(** The types declared, and what the compiled list has of them. *)
Definition declared_types (object : members) (path : string) : result SchemaError (list string) :=
  match last_member "type" object with
  | None => Ok []
  | Some (JString s) => Ok [s]
  | Some (JArray []) => Err (BadSchema (path +:+ ".type") EmptyTypes)
  | Some (JArray l) => each_indexed (string_item (λ i, BadSchema (index_path (path +:+ ".type") i) ExpectedString)) 0 l
  | Some _ => Err (BadSchema (path +:+ ".type") ExpectedTypes)
  end.

Lemma declared_types_ok object path names :
  declared_types object path = Ok names ↔
  match last_member "type" object with None => names = [] | Some v => type_names v = Some names ∧ names ≠ [] end.
Proof.
  unfold declared_types. destruct (last_member "type" object) as [v|]; [|split; [by intros [= <-]|by intros ->]].
  destruct v as [| | |s|[|v l]|]; cbn [type_names]; try (split; [done|by intros [? _]]).
  - split; [by intros [= <-]|by intros [[= <-] _]].
  - split; [done|]. by intros [[= <-] ?].
  - rewrite string_items. split; [|by intros [? _]]. intros H. split; [done|]. intros ->.
    unfold strings_of in H. cbn in H. destruct v; try done. cbn in H. by destruct (mapM _ l).
Qed.

Lemma compile_types_ok object path :
  ((∃ ts, compile_types object path = Ok ts) ↔ types_formed object) ∧
  ∀ ts, compile_types object path = Ok ts →
    match last_member "type" object with
    | None => ts = []
    | Some v => ∃ names, type_names v = Some names ∧ names ≠ [] ∧ ∀ t, t ∈ ts ↔ t ∈ names
    end.
Proof.
  assert (H : ∀ ts, compile_types object path = Ok ts ↔ ∃ names, declared_types object path = Ok names ∧
    (∀ t, t ∈ names → supportedToolSchemaType t = true) ∧ ts = rev (remove_dups (rev names))).
  { intros ts. change (compile_types object path) with (declared_types object path ≫= λ declared,
      match list_find (λ name, supportedToolSchemaType name = false) declared with
      | Some (_, name) => Err (BadSchema (path +:+ ".type") (UnsupportedType name))
      | None => Ok (rev (remove_dups (rev declared)))
      end). destruct (declared_types object path) as [names|]; cbn; [|split; [done|by intros (? & ? & _)]].
    destruct (list_find _ names) as [[k t]|] eqn:E.
    - apply list_find_Some in E as (Hk & Ht & _). split; [done|]. intros (? & [= <-] & Hall & _).
      apply list_elem_of_lookup_2 in Hk. apply Hall in Hk. congruence.
    - rewrite list_find_None, Forall_elem in E. split.
      + intros [= <-]. exists names. split_and!; [done| |done]. intros t Ht. apply not_false_iff_true. by apply E.
      + by intros (? & [= <-] & _ & ->). }
  split.
  - split.
    + intros [ts (names & Hn & Hs & _)%H] v Hv. apply declared_types_ok in Hn. rewrite Hv in Hn.
      destruct Hn as [Hn Hne]. by exists names.
    + intros Hf. destruct (last_member "type" object) as [v|] eqn:Hv.
      * destruct (Hf v Hv) as (names & Hn & Hne & Hs). eexists. apply H. exists names. split_and!; [|done|done].
        apply declared_types_ok. by rewrite Hv.
      * exists []. apply H. exists []. split_and!; [|by intros t Ht%elem_of_nil|done]. apply declared_types_ok. by rewrite Hv.
  - intros ts (names & Hn & _ & ->)%H. apply declared_types_ok in Hn. destruct (last_member "type" object) as [v|]; [|by rewrite Hn].
    destruct Hn as [Hn Hne]. exists names. split_and!; [done|done|]. intros t.
    rewrite !list_elem_of_In, <- in_rev, <- list_elem_of_In, elem_of_remove_dups, list_elem_of_In, <- in_rev. done.
Qed.

Lemma compile_required_ok object path :
  ((∃ names, compile_required object path = Ok names) ↔ ∀ v, last_member "required" object = Some v → ∃ names, strings_of v = Some names) ∧
  ∀ names, compile_required object path = Ok names →
    ∀ name, name ∈ names ↔ ∃ names', keyword strings_of "required" object = Some names' ∧ name ∈ names'.
Proof.
  unfold compile_required, keyword. destruct (last_member "required" object) as [v|]; cbn.
  2: { split; [split; [done|by eexists]|]. intros names [= <-] name. split; [by intros ?%elem_of_nil|by intros (? & ? & _)]. }
  destruct v as [| | | |l|]; try (split; [split; [by intros [? ?]|by intros H; destruct (H _ eq_refl)]|done]).
  split.
  - split.
    + intros [names (ns & Hn & _)%result_bind_ok] v [= <-]. exists ns. by apply string_items in Hn.
    + intros H. destruct (H _ eq_refl) as [ns Hn]. eexists. by rewrite (proj2 (string_items _ _ _ _) Hn).
  - intros names (ns & Hn & [= <-])%result_bind_ok name. apply string_items in Hn. rewrite elem_of_stable_sort. split.
    + intros Hin. by exists ns.
    + intros (ns' & Hn' & Hin). by simplify_eq.
Qed.

Lemma compile_enum_ok object path :
  ((∃ e, compile_enum object path = Ok e) ↔ ∀ v, last_member "enum" object = Some v → ∃ w l, v = JArray (w :: l)) ∧
  ∀ e, compile_enum object path = Ok e → e = keyword array_of "enum" object.
Proof.
  unfold compile_enum, keyword. destruct (last_member "enum" object) as [[| | | |[|v l]|]|]; cbn.
  all: split; [split|]; try done; try (by intros [? ?]); try (by intros e [= <-]); try (intros H; by destruct (H _ eq_refl) as (? & ? & ?)).
  - intros _ w [= <-]. by eexists _, _.
  - intros _. by eexists.
  - intros _. by eexists.
Qed.

(** A keyword read by [f] as the declarative [g] reads it. *)
Definition reads {A} (f : json → string → result SchemaError A) (g : json → option A) : Prop :=
  ∀ v path a, f v path = Ok a ↔ g v = Some a.
Lemma size_reads : reads compileToolSchemaSize size_of.
Proof.
  intros v path a. unfold size_of, number_of. destruct v; cbn; try done.
  destruct (SetString lit) as [q|]; cbn; [|done]. destruct (_ && _); [|done]. split; by intros [= <-].
Qed.
Lemma number_reads : reads compileToolSchemaNumber number_of.
Proof.
  intros v path a. destruct v; cbn; try done. destruct (SetString lit) as [q|]; cbn; [|done]. split; by intros [= <-].
Qed.
Definition bool_of (v : json) : option bool := match v with JBool b => Some b | _ => None end.
Lemma bool_reads : reads compile_bool bool_of.
Proof. intros v path a. destruct v; cbn; try done. split; by intros [= <-]. Qed.

Lemma optional_ok {A} f (g : json → option A) object path name :
  reads f g →
  ((∃ o, optional f object path name = Ok o) ↔ ∀ v, last_member name object = Some v → g v ≠ None) ∧
  ∀ o, optional f object path name = Ok o → o = keyword g name object.
Proof.
  intros Hr. unfold optional, keyword. destruct (last_member name object) as [v|]; cbn.
  2: { split; [split; [done|by eexists]|by intros o [= <-]]. }
  split.
  - split.
    + intros [o (a & Ha & _)%result_bind_ok] w [= <-]. apply Hr in Ha. by rewrite Ha.
    + intros H. specialize (H v eq_refl). destruct (g v) as [a|] eqn:E; [|done]. exists (Some a).
      by rewrite (proj2 (Hr v _ a) E).
  - intros o (a & Ha & [= <-])%result_bind_ok. by apply Hr in Ha as ->.
Qed.

Lemma bounds_ok {A} f (g : json → option A) (leb : A → A → bool) (le : A → A → Prop) object path low high :
  reads f g → (∀ a b, leb a b = true ↔ le a b) →
  ((∃ b, compile_bounds f leb object path low high = Ok b) ↔ bounds_formed g le object low high) ∧
  ∀ b, compile_bounds f leb object path low high = Ok b → b = (keyword g low object, keyword g high object).
Proof.
  intros Hr Hle. destruct (optional_ok f g object path low Hr) as [L1 L2], (optional_ok f g object path high Hr) as [H1 H2].
  unfold compile_bounds. split.
  - split.
    + intros [b (lo & Hlo & H)%result_bind_ok]. apply result_bind_ok in H as (hi & Hhi & H).
      apply result_bind_ok in H as ([] & Hg%guard_err_ok & _). split_and!; [apply L1; by eexists|apply H1; by eexists|].
      intros a b' Ha Hb. apply L2 in Hlo as ->. apply H2 in Hhi as ->. rewrite Ha, Hb in Hg. by apply Hle.
    + intros (F1 & F2 & F3). apply L1 in F1 as [lo Hlo]. apply H1 in F2 as [hi Hhi]. rewrite Hlo, Hhi. cbn.
      apply L2 in Hlo as ->. apply H2 in Hhi as ->. exists (keyword g low object, keyword g high object).
      destruct (keyword g low object) as [a|] eqn:Ea; [|done]. destruct (keyword g high object) as [b|] eqn:Eb; [|done].
      by rewrite (proj2 (Hle a b) (F3 a b eq_refl eq_refl)).
  - intros b (lo & Hlo & H)%result_bind_ok. apply result_bind_ok in H as (hi & Hhi & H).
    apply result_bind_ok in H as ([] & _ & [= <-]). apply L2 in Hlo as ->. by apply H2 in Hhi as ->.
Qed.

Lemma list_lookup_pair {A B} (l : list A) (l' : list B) y :
  length l' = length l → y ∈ l' → ∃ k x, l !! k = Some x ∧ l' !! k = Some y.
Proof.
  intros Hlen [k Hk]%list_elem_of_lookup. assert (Hlt : (k < length l)%nat) by (rewrite <- Hlen; by eapply lookup_lt_Some).
  apply lookup_lt_is_Some in Hlt as [x Hx]. by exists k, x.
Qed.

Section compile_levels.
Context (compile : members → string → result SchemaError compiledToolSchema) (formed : members → Prop).
Context (Hcompile : ∀ sub path, (∃ s, compile sub path = Ok s) ↔ formed sub).

(** A nested schema and what it was compiled to. *)
Definition compiled_to (sub : members) (s : compiledToolSchema) : Prop := ∃ path, compile sub path = Ok s.

Lemma compile_items_ok object path :
  ((∃ s, compile_items compile object path = Ok s) ↔
     ∀ v, last_member "items" object = Some v → ∃ sub, v = JObject sub ∧ formed sub) ∧
  ∀ s, compile_items compile object path = Ok s →
    match s with
    | Some s => ∃ sub, keyword object_of "items" object = Some sub ∧ compiled_to sub s
    | None => keyword object_of "items" object = None
    end.
Proof.
  unfold compile_items, keyword. destruct (last_member "items" object) as [[| | | | |sub]|]; cbn.
  all: split; [split|]; try done; try (by intros [? ?]); try (by intros s [= <-]); try (intros H; by destruct (H _ eq_refl) as (? & ? & _)).
  - intros [s (s' & Hs & _)%result_bind_ok] v [= <-]. exists sub. split; [done|]. apply (Hcompile sub (path +:+ "[]")). by exists s'.
  - intros H. destruct (H _ eq_refl) as (sub' & [= <-] & Hf). apply (Hcompile sub (path +:+ "[]")) in Hf as [s ->]. by eexists.
  - intros s (s' & Hs & [= <-])%result_bind_ok. exists sub. split; [done|by eexists].
  - by eexists.
Qed.

Lemma compile_additional_ok object path :
  ((∃ s, compile_additional compile object path = Ok s) ↔
     ∀ v, last_member "additionalProperties" object = Some v → (∃ b, v = JBool b) ∨ ∃ sub, v = JObject sub ∧ formed sub) ∧
  ∀ s, compile_additional compile object path = Ok s →
    match s with
    | AdditionalAllow => last_member "additionalProperties" object ≠ Some (JBool false) ∧
                         keyword object_of "additionalProperties" object = None
    | AdditionalDeny => last_member "additionalProperties" object = Some (JBool false)
    | AdditionalSchema s => ∃ sub, last_member "additionalProperties" object = Some (JObject sub) ∧ compiled_to sub s
    end.
Proof.
  unfold compile_additional, keyword. destruct (last_member "additionalProperties" object) as [[|[]| | | |sub]|]; cbn.
  all: split; [split|]; try done; try (by intros [? ?]); try (by intros s [= <-]);
    try (intros H; by destruct (H _ eq_refl) as [[? ?]|(? & ? & _)]).
  - intros _ v [= <-]. left. by eexists.
  - by eexists.
  - intros _ v [= <-]. left. by eexists.
  - by eexists.
  - intros [s (s' & Hs & _)%result_bind_ok] v [= <-]. right. exists sub. split; [done|]. apply (Hcompile sub (path +:+ ".*")). by exists s'.
  - intros H. destruct (H _ eq_refl) as [[? ?]|(sub' & [= <-] & Hf)]; [done|].
    apply (Hcompile sub (path +:+ ".*")) in Hf as [s ->]. by eexists.
  - intros s (s' & Hs & [= <-])%result_bind_ok. exists sub. split; [done|by eexists].
  - by eexists.
Qed.

Definition compile_property (path : string) (m : string * json) : result SchemaError (string * compiledToolSchema) :=
  match m.2 with
  | JObject sub => s ← compile sub (toolSchemaPropertyPath path m.1); Ok (m.1, s)
  | _ => Err (BadSchema (toolSchemaPropertyPath path m.1) ExpectedObject)
  end.

Lemma compile_property_ok path m y :
  compile_property path m = Ok y → ∃ sub, m.2 = JObject sub ∧ y.1 = m.1 ∧ compiled_to sub y.2.
Proof.
  destruct m as [name [| | | | |sub]]; cbn; try done. intros (s & Hs & [= <-])%result_bind_ok.
  exists sub. split_and!; [done|done|by eexists].
Qed.

Lemma compile_properties_total object path :
  (∃ s, compile_properties compile object path = Ok s) ↔
    ∀ v, last_member "properties" object = Some v → ∃ ps, v = JObject ps ∧
      ∀ name p, last_member name ps = Some p → ∃ sub, p = JObject sub ∧ formed sub.
Proof.
  unfold compile_properties. destruct (last_member "properties" object) as [[| | | | |ps]|];
    try (split; [by intros [? ?]|intros H; by destruct (H _ eq_refl) as (? & ? & _)]); [|split; [done|by eexists]].
  change (λ (_ : nat) (m : string * json), _) with (λ _ : nat, compile_property path).
  rewrite <- (each_indexed_total (λ _ : nat, compile_property path)). split.
  - intros H v [= <-]. exists ps. split; [done|]. intros name p Hp. apply sorted_members_map, list_elem_of_lookup in Hp as [k Hk].
    destruct (H k _ Hk) as [y (sub & Hsub & _ & Hc)%compile_property_ok]. exists sub. split; [done|].
    destruct Hc as [path' Hc]. apply (Hcompile sub path'). by eexists.
  - intros H k [name p] Hk. destruct (H _ eq_refl) as (ps' & [= <-] & Hps). apply list_elem_of_lookup_2, sorted_members_map in Hk.
    destruct (Hps name p Hk) as (sub & -> & Hf). unfold compile_property. cbn.
    apply (Hcompile sub (toolSchemaPropertyPath path name)) in Hf as [s ->]. by eexists.
Qed.

Lemma property_named_elem {C} name (ps : list (string * C)) s : property_named name ps = Some s → (name, s) ∈ ps.
Proof.
  unfold property_named. intros ([k s'] & E & ->)%fmap_Some. apply find_some in E as [Hin He]. simpl in He.
  apply String.eqb_eq in He. subst k. by apply list_elem_of_In.
Qed.
Lemma property_named_none {C} name (ps : list (string * C)) : property_named name ps = None → name ∉ map fst ps.
Proof.
  unfold property_named. destruct (find _ ps) as [p|] eqn:E; [done|]. intros _ (p & -> & Hp)%list_elem_of_fmap.
  apply list_elem_of_In in Hp. pose proof (find_none _ _ E p Hp) as H. simpl in H. by rewrite String.eqb_refl in H.
Qed.

Lemma compile_properties_ok object path ps :
  compile_properties compile object path = Ok ps →
  ∀ name, match property_named name ps with
          | Some s => ∃ sub, declared object name = Some sub ∧ compiled_to sub s
          | None => is_declared object name = false
          end ∧ (property_named name ps ≠ None → is_declared object name = true).
Proof.
  unfold compile_properties, declared, is_declared, keyword.
  destruct (last_member "properties" object) as [[| | | | |raw]|]; try done; cbn; [|intros [= <-]; by cbn].
  change (λ (_ : nat) (m : string * json), _) with (λ _ : nat, compile_property path).
  intros [Hlen Hps]%each_indexed_ok name. destruct (property_named name ps) as [s|] eqn:E.
  - apply property_named_elem in E. destruct (list_lookup_pair _ _ _ Hlen E) as (k & [name' p] & Hk & Hk').
    destruct (compile_property_ok _ _ _ (Hps k _ _ Hk Hk')) as (sub & Hp & Hn & Hc). simpl in Hp, Hn, Hc. subst p name'.
    apply list_elem_of_lookup_2, sorted_members_map in Hk. split; [|intros _].
    + exists sub. by rewrite Hk.
    + apply not_false_iff_true. intros Hf. apply last_member_none in Hf. congruence.
  - split; [|done]. apply property_named_none in E. apply last_member_none.
    destruct (last_member name raw) as [p|] eqn:Hp; [|done]. destruct E. apply sorted_members_map, list_elem_of_lookup in Hp as [k Hk].
    assert (Hlt : (k < length ps)%nat) by (rewrite Hlen; by eapply lookup_lt_Some). apply lookup_lt_is_Some in Hlt as [y Hy].
    destruct (compile_property_ok _ _ _ (Hps k _ _ Hk Hy)) as (sub & _ & Hn & _). simpl in Hn. rewrite <- Hn.
    apply list_elem_of_fmap_2. by eapply list_elem_of_lookup_2.
Qed.
End compile_levels.

(** What a compiled schema has of the schema it comes from. *)
Record compiled_from (compile : members → string → result SchemaError compiledToolSchema) (object : members)
    (s : SchemaFields compiledToolSchema) : Prop := {
  cf_types : match last_member "type" object with
             | None => types s = []
             | Some v => ∃ names, type_names v = Some names ∧ names ≠ [] ∧ ∀ t, t ∈ types s ↔ t ∈ names
             end;
  cf_properties name : match property_named name (properties s) with
                       | Some p => ∃ sub, declared object name = Some sub ∧ compiled_to compile sub p
                       | None => is_declared object name = false
                       end ∧ (property_named name (properties s) ≠ None → is_declared object name = true);
  cf_required name : name ∈ required s ↔ ∃ names, keyword strings_of "required" object = Some names ∧ name ∈ names;
  cf_enum : enum s = keyword array_of "enum" object;
  cf_items : match items s with
             | Some i => ∃ sub, keyword object_of "items" object = Some sub ∧ compiled_to compile sub i
             | None => keyword object_of "items" object = None
             end;
  cf_additional : match additional s with
                  | AdditionalAllow => last_member "additionalProperties" object ≠ Some (JBool false) ∧
                                       keyword object_of "additionalProperties" object = None
                  | AdditionalDeny => last_member "additionalProperties" object = Some (JBool false)
                  | AdditionalSchema a => ∃ sub, last_member "additionalProperties" object = Some (JObject sub) ∧ compiled_to compile sub a
                  end;
  cf_lengths : minLength s = keyword size_of "minLength" object ∧ maxLength s = keyword size_of "maxLength" object;
  cf_counts : minItems s = keyword size_of "minItems" object ∧ maxItems s = keyword size_of "maxItems" object;
  cf_unique : uniqueItems s = default false (keyword bool_of "uniqueItems" object);
  cf_range : minimum s = keyword number_of "minimum" object ∧ maximum s = keyword number_of "maximum" object;
}.

Section compile_fields.
Context (compile : members → string → result SchemaError compiledToolSchema) (n : nat).
Context (Hcompile : ∀ sub path, (∃ s, compile sub path = Ok s) ↔ well_formed n sub).

Lemma Zle_reads (a b : Z) : (a <=? b) = true ↔ a ≤ b.
Proof. lia. Qed.

Lemma compile_fields_from object path c : compile_fields compile object path = Ok c → ∃ s, c = Compiled s ∧ compiled_from compile object s.
Proof.
  unfold compile_fields. intros H.
  apply result_bind_ok in H as (ts & H1 & H). apply result_bind_ok in H as (ps & H2 & H). apply result_bind_ok in H as (rs & H3 & H).
  apply result_bind_ok in H as (e & H4 & H). apply result_bind_ok in H as (i & H5 & H). apply result_bind_ok in H as (a & H6 & H).
  apply result_bind_ok in H as (b1 & H7 & H). apply result_bind_ok in H as (b2 & H8 & H). apply result_bind_ok in H as (u & H9 & H).
  apply result_bind_ok in H as (b3 & H10 & [= <-]). eexists. split; [done|].
  apply (bounds_ok _ _ _ _ _ _ _ _ size_reads Zle_reads) in H7 as ->. apply (bounds_ok _ _ _ _ _ _ _ _ size_reads Zle_reads) in H8 as ->.
  apply (bounds_ok _ _ _ _ _ _ _ _ number_reads Qle_bool_iff) in H10 as ->. apply (optional_ok _ _ _ _ _ bool_reads) in H9 as ->.
  split; cbn [types properties required enum items additional minLength maxLength minItems maxItems uniqueItems minimum maximum]; try done.
  - by eapply compile_types_ok.
  - by eapply compile_properties_ok.
  - by eapply compile_required_ok.
  - by eapply compile_enum_ok.
  - by eapply compile_items_ok.
  - by eapply compile_additional_ok.
Qed.

Lemma compile_fields_formed object path : (∃ c, compile_fields compile object path = Ok c) ↔ well_formed (S n) object.
Proof.
  assert (Hbind : ∀ {A B} (r : result SchemaError A) (k : A → result SchemaError B),
    (∃ b, (r ≫= k) = Ok b) ↔ ∃ a, r = Ok a ∧ ∃ b, k a = Ok b).
  { intros A B r k. split.
    - intros [b (a & Ha & Hb)%result_bind_ok]. exists a. split; [done|by exists b].
    - intros (a & -> & b & Hb). by exists b. }
  split.
  - intros [c H]. unfold compile_fields in H.
    apply result_bind_ok in H as (ts & H1 & H). apply result_bind_ok in H as (ps & H2 & H). apply result_bind_ok in H as (rs & H3 & H).
    apply result_bind_ok in H as (e & H4 & H). apply result_bind_ok in H as (i & H5 & H). apply result_bind_ok in H as (a & H6 & H).
    apply result_bind_ok in H as (b1 & H7 & H). apply result_bind_ok in H as (b2 & H8 & H). apply result_bind_ok in H as (u & H9 & H).
    apply result_bind_ok in H as (b3 & H10 & _). constructor.
    + apply (compile_types_ok object path). by eexists.
    + apply (compile_properties_total _ _ Hcompile object path). by eexists.
    + apply (compile_required_ok object path). by eexists.
    + apply (compile_enum_ok object path). by eexists.
    + apply (compile_items_ok _ _ Hcompile object path). by eexists.
    + apply (compile_additional_ok _ _ Hcompile object path). by eexists.
    + apply (bounds_ok _ _ _ _ object path _ _ size_reads Zle_reads). by eexists.
    + apply (bounds_ok _ _ _ _ object path _ _ size_reads Zle_reads). by eexists.
    + intros v Hv. pose proof (proj1 (proj1 (optional_ok _ _ object path "uniqueItems" bool_reads)) (ex_intro _ u H9) v Hv) as Hb.
      destruct v; try done. by eexists.
    + apply (bounds_ok _ _ _ _ object path _ _ number_reads Qle_bool_iff). by eexists.
  - inversion 1 as [? ? F1 F2 F3 F4 F5 F6 F7 F8 F9 F10]; subst. unfold compile_fields.
    apply Hbind. apply (compile_types_ok object path) in F1 as [ts ->]. eexists; split; [done|].
    apply Hbind. apply (compile_properties_total _ _ Hcompile object path) in F2 as [ps ->]. eexists; split; [done|].
    apply Hbind. apply (compile_required_ok object path) in F3 as [rs ->]. eexists; split; [done|].
    apply Hbind. apply (compile_enum_ok object path) in F4 as [e ->]. eexists; split; [done|].
    apply Hbind. apply (compile_items_ok _ _ Hcompile object path) in F5 as [i ->]. eexists; split; [done|].
    apply Hbind. apply (compile_additional_ok _ _ Hcompile object path) in F6 as [a ->]. eexists; split; [done|].
    apply Hbind. apply (bounds_ok _ _ _ _ object path _ _ size_reads Zle_reads) in F7 as [b1 ->]. eexists; split; [done|].
    apply Hbind. apply (bounds_ok _ _ _ _ object path _ _ size_reads Zle_reads) in F8 as [b2 ->]. eexists; split; [done|].
    apply Hbind. destruct (proj2 (proj1 (optional_ok _ _ object path "uniqueItems" bool_reads))) as [u ->].
    { intros v Hv. by destruct (F9 v Hv) as [b ->]. }
    eexists; split; [done|].
    apply Hbind. apply (bounds_ok _ _ _ _ object path _ _ number_reads Qle_bool_iff) in F10 as [b3 ->]. eexists; split; [done|].
    by eexists.
Qed.
End compile_fields.

Lemma compile_formed n object path : (∃ c, compileToolSchema n object path = Ok c) ↔ well_formed n object.
Proof.
  revert object path. induction n as [|n IH]; intros object path; cbn [compileToolSchema].
  - split; [by intros [? ?]|by inversion 1].
  - by apply compile_fields_formed.
Qed.

(** ** Validation accepts the values the schema admits *)

Lemma bind_unit_ok {E A} (r : result E A) (k : A → result E unit) : (r ≫= k) = Ok tt ↔ ∃ a, r = Ok a ∧ k a = Ok tt.
Proof. split; [by intros H%result_bind_ok|]. by intros (a & -> & Hk). Qed.
Lemma guard_unit_ok {E} b (e : E) (k : unit → result E unit) : (guard_err b e ≫= k) = Ok tt ↔ b = true ∧ k tt = Ok tt.
Proof. destruct b; cbn; [tauto|]. by split; [|intros [? _]]. Qed.

Lemma at_least_ok {A} leb (le : A → A → Prop) b x :
  (∀ a c, leb a c = true ↔ le a c) → at_least leb b x = true ↔ ∀ n, b = Some n → le n x.
Proof. intros Hle. destruct b as [n|]; cbn; [|done]. rewrite Hle. split; [by intros H n' [= <-]|intros H; by apply H]. Qed.
Lemma at_most_ok {A} leb (le : A → A → Prop) b x :
  (∀ a c, leb a c = true ↔ le a c) → at_most leb b x = true ↔ ∀ n, b = Some n → le x n.
Proof. intros Hle. destruct b as [n|]; cbn; [|done]. rewrite Hle. split; [by intros H n' [= <-]|intros H; by apply H]. Qed.

Lemma find_equal_ok v i l : find_equal v i l = None ↔ ∀ j w, l !! j = Some w → ¬ same v w.
Proof.
  revert i. induction l as [|w l IH]; intros i; cbn [find_equal]; [done|].
  destruct (toolJSONValuesEqual v w) eqn:E.
  - apply values_equal_same in E. split; [done|]. intros H. by destruct (H 0%nat w).
  - rewrite IH. assert (Hw : ¬ same v w) by (rewrite <- values_equal_same; congruence). split.
    + intros H [|j] w' Hj; simpl in Hj; [by simplify_eq|by eapply H].
    + intros H j. apply (H (S j)).
Qed.
Lemma find_duplicate_ok i l : find_duplicate i l = None ↔ unique_items l.
Proof.
  revert i. induction l as [|v l IH]; intros i; cbn [find_duplicate]; [by split|].
  destruct (find_equal v (S i) l) as [j|] eqn:E.
  - split; [done|]. intros H. assert (E' : find_equal v (S i) l = None); [|congruence].
    apply find_equal_ok. intros k w Hk. by apply (H 0%nat (S k) v w); [lia|..].
  - rewrite IH. pose proof (proj1 (find_equal_ok _ _ _) E) as Hv. split.
    + intros H [|a] [|b] x y Hab Hx Hy; simpl in Hx, Hy; try lia; [simplify_eq; by eapply Hv|eapply (H a b); [lia|done|done]].
    + intros H a b x y Hab. apply (H (S a) (S b)). lia.
Qed.

Lemma check_required_ok names ms path :
  check_required names ms path = Ok tt ↔ ∀ name, name ∈ names → last_member name ms ≠ None.
Proof.
  induction names as [|name names IH]; cbn [check_required]; [split; [by intros _ ? ?%elem_of_nil|done]|].
  rewrite guard_unit_ok, IH. split.
  - intros [H1 H2] name' [->|Hin]%elem_of_cons; [|by apply H2]. intros E%last_member_none. congruence.
  - intros H. split; [|intros; apply H; by right]. apply not_false_iff_true. rewrite <- last_member_none. apply H. left.
Qed.

Section validate_levels.
Context (compile : members → string → result SchemaError compiledToolSchema).
Context (validate : compiledToolSchema → json → string → result SchemaError unit).
Context (Hvalidate : ∀ sub c v p, compiled_to compile sub c → validate c v p = Ok tt ↔ admits sub v).
Context (object : members) (s : SchemaFields compiledToolSchema) (Hs : compiled_from compile object s).

Lemma enum_ok v :
  match enum s with Some l => existsb (toolJSONValuesEqual v) l | None => true end = true ↔
  ∀ l, keyword array_of "enum" object = Some l → ∃ c, c ∈ l ∧ same v c.
Proof.
  rewrite (cf_enum _ _ _ Hs). destruct (keyword array_of "enum" object) as [l|]; [|done].
  rewrite existsb_elem. setoid_rewrite values_equal_same. split; [by intros H l' [= <-]|intros H; by apply H].
Qed.

Lemma types_ok v :
  (bool_decide (types s = []) || acceptsType v (types s)) = true ↔
  ∀ names, keyword type_names "type" object = Some names → ∃ t, t ∈ names ∧ has_type v t = true.
Proof.
  pose proof (cf_types _ _ _ Hs) as Ht. unfold keyword. destruct (last_member "type" object) as [tv|]; cbn.
  2: { by rewrite bool_decide_eq_true_2. }
  destruct Ht as (names & Hn & Hne & Hin). rewrite Hn.
  assert (Hts : types s ≠ []). { intros E. rewrite E in Hin. destruct names as [|t names]; [done|].
    by destruct (not_elem_of_nil t (proj2 (Hin t) (list_elem_of_here _ _))). }
  rewrite bool_decide_eq_false_2 by done. cbn. unfold acceptsType. rewrite existsb_elem. split.
  - intros (t & Hi & Ht) names' [= <-]. exists t. by rewrite <- Hin.
  - intros H. destruct (H names eq_refl) as (t & Hi & Ht). exists t. by rewrite Hin.
Qed.

Lemma string_ok text path : check_string s text path = Ok tt ↔ bounds_hold object (JString text).
Proof.
  destruct (cf_lengths _ _ _ Hs) as [E1 E2]. unfold check_string.
  rewrite guard_unit_ok, E1, E2, guard_err_ok, (at_least_ok _ _ _ _ Zle_reads), (at_most_ok _ _ _ _ Zle_reads). done.
Qed.

Lemma number_ok lit path : check_number s lit path = Ok tt ↔ bounds_hold object (JNumber lit).
Proof.
  destruct (cf_range _ _ _ Hs) as [E1 E2]. unfold check_number. rewrite E1, E2. cbn [bounds_hold].
  destruct (keyword number_of "minimum" object) as [lo|], (keyword number_of "maximum" object) as [hi|], (SetString lit) as [q|];
    cbn; rewrite ?guard_unit_ok, ?guard_err_ok, ?Qle_bool_iff; naive_solver.
Qed.

Lemma nested_items sub_of l path :
  (∃ ys, each_indexed (λ i v, validate sub_of v (index_path path i)) 0 l = Ok ys) ↔
  ∀ k v, l !! k = Some v → validate sub_of v (index_path path k) = Ok tt.
Proof.
  rewrite <- each_indexed_total. split; intros H k v Hk.
  - by destruct (H k v Hk) as [[] ?].
  - exists tt. by apply H.
Qed.

Lemma array_ok l path :
  check_array validate s l path = Ok tt ↔
  bounds_hold object (JArray l) ∧ ∀ w sub, w ∈ l → keyword object_of "items" object = Some sub → admits sub w.
Proof.
  destruct (cf_counts _ _ _ Hs) as [E1 E2]. unfold check_array. cbv zeta.
  rewrite !guard_unit_ok, E1, E2, (at_least_ok _ _ _ _ Zle_reads), (at_most_ok _ _ _ _ Zle_reads). cbn [bounds_hold].
  assert (Hu : uniqueItems s = true ↔ last_member "uniqueItems" object = Some (JBool true)).
  { rewrite (cf_unique _ _ _ Hs). unfold keyword. destruct (last_member "uniqueItems" object) as [[|b| | | |]|]; cbn; try done.
    split; [by intros ->|by intros [= ->]]. }
  assert (Hi : match items s with
               | None => Ok tt
               | Some sub => _ ← each_indexed (λ i v, validate sub v (index_path path i)) 0 l; Ok tt
               end = Ok tt ↔ ∀ w sub, w ∈ l → keyword object_of "items" object = Some sub → admits sub w).
  { pose proof (cf_items _ _ _ Hs) as Hi. destruct (items s) as [i|].
    - destruct Hi as (sub & -> & Hc). rewrite bind_unit_ok. split.
      + intros (ys & Hys & _) w sub' [k Hk]%list_elem_of_lookup [= <-].
        apply (Hvalidate _ _ w (index_path path k) Hc). eapply (proj1 (nested_items _ _ _)); [by eexists|done].
      + intros H. destruct (proj2 (nested_items i l path)) as [ys ->]; [|by eexists].
        intros k v Hk. apply (Hvalidate _ _ _ _ Hc), (H v sub); [by eapply list_elem_of_lookup_2|done].
    - split; [|done]. intros _ w sub _. by rewrite Hi. }
  rewrite bind_unit_ok. setoid_rewrite Hi. split.
  - intros (H1 & H2 & u & Hd & H3). split_and!; [done|done| |done]. intros Hun%Hu. rewrite Hun in Hd.
    destruct (find_duplicate 0 l) eqn:E; [done|]. by apply find_duplicate_ok in E.
  - intros ((H1 & H2 & H3) & H4). split_and!; [done|done|]. exists tt. split; [|done].
    destruct (uniqueItems s) eqn:Hun; [|done]. pose proof (H3 (proj1 Hu eq_refl)) as Hq. apply (find_duplicate_ok 0) in Hq. by rewrite Hq.
Qed.

(** What a schema says of one member of an object. *)
Definition member_admitted (name : string) (w : json) : Prop :=
  (∀ sub, declared object name = Some sub → admits sub w) ∧
  (is_declared object name = false → last_member "additionalProperties" object ≠ Some (JBool false)) ∧
  (∀ sub, is_declared object name = false → keyword object_of "additionalProperties" object = Some sub → admits sub w).

Lemma undeclared name : is_declared object name = false → declared object name = None.
Proof.
  unfold is_declared, declared. destruct (keyword object_of "properties" object) as [ps|]; cbn; [|done].
  intros H%last_member_none. unfold keyword. by rewrite H.
Qed.

Lemma member_ok path name w : check_member validate s path (name, w) = Ok tt ↔ member_admitted name w.
Proof.
  unfold check_member, member_admitted. cbv zeta. cbn [fst snd].
  destruct (cf_properties _ _ _ Hs name) as [Hp Hd]. destruct (property_named name (properties s)) as [p|].
  - destruct Hp as (sub & Hsub & Hc). rewrite (Hvalidate _ _ _ _ Hc), Hsub, Hd by done. naive_solver.
  - rewrite Hp, (undeclared name Hp). pose proof (cf_additional _ _ _ Hs) as Ha. unfold keyword in *.
    destruct (additional s) as [| |a].
    + destruct Ha as [Ha1 Ha2]. rewrite Ha2. naive_solver.
    + rewrite Ha. naive_solver.
    + destruct Ha as (sub & -> & Hc). rewrite (Hvalidate _ _ _ _ Hc). cbn. naive_solver.
Qed.

Lemma object_ok ms path :
  check_object validate s ms path = Ok tt ↔
  (∀ names name, keyword strings_of "required" object = Some names → name ∈ names → last_member name ms ≠ None) ∧
  ∀ name w, last_member name ms = Some w → member_admitted name w.
Proof.
  unfold check_object. rewrite bind_unit_ok. setoid_rewrite bind_unit_ok. split.
  - intros ([] & H1 & ys & H2 & _). rewrite check_required_ok in H1. split.
    + intros names name Hn Hin. apply H1, (cf_required _ _ _ Hs). by exists names.
    + intros name w Hw. apply sorted_members_map, list_elem_of_lookup in Hw as [k Hk]. apply (member_ok path).
      by destruct (proj2 (each_indexed_total _ _ _) (ex_intro _ ys H2) k _ Hk) as [[] ?].
  - intros [H1 H2]. exists tt. split.
    + apply check_required_ok. intros name (names & Hn & Hin)%(cf_required _ _ _ Hs). by eapply H1.
    + destruct (proj1 (each_indexed_total (λ _ : nat, check_member validate s path) 0 (sorted_members ms))) as [ys ->]; [|by exists ys].
      intros k [name w] Hk. exists tt. apply member_ok, H2, sorted_members_map. by eapply list_elem_of_lookup_2.
Qed.

Lemma fields_ok v path : validate_fields validate s v path = Ok tt ↔ admits object v.
Proof.
  unfold validate_fields. rewrite !guard_unit_ok, enum_ok, types_ok. split.
  - intros (He & Ht & Hv). split; [done|done|..].
    + destruct v; try done; [by apply number_ok in Hv|by apply string_ok in Hv|by apply array_ok in Hv as [Hv _]].
    + intros ms names name ->. apply object_ok in Hv as [Hv _]. by apply Hv.
    + intros ms name w sub -> Hw. apply object_ok in Hv as [_ Hv]. destruct (Hv name w Hw) as (A & _ & _). exact (A sub).
    + intros ms name w -> Hw. apply object_ok in Hv as [_ Hv]. destruct (Hv name w Hw) as (_ & A & _). exact A.
    + intros ms name w sub -> Hw. apply object_ok in Hv as [_ Hv]. destruct (Hv name w Hw) as (_ & _ & A). exact (A sub).
    + intros l w sub ->. apply array_ok in Hv as [_ Hv]. by apply Hv.
  - intros [H1 H2 H3 H4 H5 H6 H7 H8]. split_and!; [done|done|]. destruct v; try done.
    + by apply number_ok.
    + by apply string_ok.
    + apply array_ok. split; [done|]. intros w sub. by apply H8.
    + apply object_ok. split; [by intros; eapply H4|]. intros name w Hw. split_and!; [by intros; eapply H5|by intros; eapply H6|by intros; eapply H7].
Qed.
End validate_levels.

Lemma validate_admits n m object path c v p :
  (n ≤ m)%nat → compileToolSchema n object path = Ok c → validate m c v p = Ok tt ↔ admits object v.
Proof.
  revert m object path c v p. induction n as [|n IH]; intros m object path c v p Hle Hc; [done|].
  destruct m as [|m]; [lia|]. cbn [compileToolSchema] in Hc. apply (compile_fields_from _ n (compile_formed n)) in Hc as (s & -> & Hs). cbn [validate].
  apply (fields_ok (compileToolSchema n)); [|exact Hs]. intros sub c' v' p' [path' Hc'].
  apply (IH m sub path' c' v' p'); [lia|exact Hc'].
Qed.

(** C18: the check of a tool's input decides what the schema means.  An input is accepted
    exactly when it is a JSON object, the advertised schema is a well-formed one, every
    keyword having a value of its kind and the nesting at most 64 levels, and the schema
    admits the input: the types, the enumerations up to the equality of JSON values, the
    bounds, the required, declared and additional members, and the items, at every depth.
    In particular a malformed schema accepts nothing, and no input is refused for its
    depth. *)
Theorem schema_validation_exact decode input schema :
  validateToolInputSchema decode input schema = Ok tt ↔
  ∃ value object, decode input = Some (JObject value) ∧ decode schema = Some (JObject object) ∧
    well_formed (S maxToolSchemaDepth) object ∧ admits object (JObject value).
Proof.
  unfold validateToolInputSchema. destruct (decode input) as [[| | | | |value]|]; try (split; [done|by intros (? & ? & [=] & _)]).
  destruct (decode schema) as [[| | | | |object]|]; try (split; [done|by intros (? & ? & _ & [=] & _)]).
  rewrite bind_unit_ok. split.
  - intros (c & Hc & Hv). exists value, object. split_and!; [done|done|by apply (compile_formed _ _ "$"); exists c|].
    eapply validate_admits, Hv; [|exact Hc]. done.
  - intros (value' & object' & [= <-] & [= <-] & Hf & Ha). apply (compile_formed _ _ "$") in Hf as [c Hc]. exists c. split; [done|].
    eapply validate_admits, Ha; [|exact Hc]. done.
Qed.

(** ** A concrete schema *)

Definition ex_object_schema : members :=
  [("type", JString "object"); ("required", JArray [JString "count"]); ("additionalProperties", JBool false);
   ("properties", JObject [("count", JObject [("type", JString "integer"); ("minimum", JNumber "1"); ("maximum", JNumber "10")]);
                           ("tags", JObject [("type", JString "array"); ("uniqueItems", JBool true)])])].
Definition ex_schema_decode (inputs : string → RawMessage) (text : string) : RawMessage :=
  if String.eqb text "schema" then Some (JObject ex_object_schema) else inputs text.
Definition ex_input (text : string) : RawMessage :=
  if String.eqb text "ok" then Some (JObject [("count", JNumber "1e1"); ("tags", JArray [JNumber "1"; JString "1"])])
  else if String.eqb text "twice" then Some (JObject [("tags", JArray [JNumber "1"; JNumber "1.0"]); ("count", JNumber "3")])
  else if String.eqb text "other" then Some (JObject [("count", JNumber "2"); ("x y", JNull)])
  else Some (JObject [("count", JNumber "0.5")]).
Example ex_validated :
  map (λ t, validateToolInputSchema (ex_schema_decode ex_input) t "schema") ["ok"; "twice"; "other"; "half"] =
  [Ok tt; Err (BadInput "$.tags[1]" DuplicateItem);
   Err (BadInput ("$[" +:+ json_string "x y" +:+ "]") PropertyNotAllowed); Err (BadInput "$.count" (ExpectedType ["integer"]))].
Proof. vm_compute. reflexivity. Qed.
(** A misspelled type refuses every input; so does a number whose exponent is out of range. *)
Example ex_malformed :
  compileToolSchema 65 [("type", JString "strng")] "$" = Err (BadSchema "$.type" (UnsupportedType "strng")) ∧
  compileToolSchema 65 [("minimum", JNumber "1e2000000")] "$" = Err (BadSchema "$.minimum" ExpectedNumber).
Proof. vm_compute. split; reflexivity. Qed.
