(* ===== verification/Guards.v ===== *)
(** * The guards of a run: internal/agent/run_guard.go, read_ledger.go

    Before a tool call is executed, the run guard counts the equivalent attempts made
    since the run last made progress, and the read ledger checks that the run has seen
    the revision of the file it is about to change.

    Both are records under a mutex, so their operations are functions; what they
    promise is stated against the history of the run.  Actions are compared by the
    SHA-256 digest of a canonical text, which is injective ([action_text_inj]).  The
    JSON decoder is the argument [decode]; the answers of the operating system about
    paths and the files themselves are arguments of each operation, so that both may
    change between two operations. *)

From S2P Require Export JsonText PathSafety.

Local Open Scope string_scope.
Local Open Scope list_scope.
Local Open Scope Z_scope.

(** ** Canonical actions *)

Definition DefaultRunGuardRepeatLimit : Z := 3.

Record ActionFingerprintInput := {
  AfToolName : string;
  AfArguments : string;
  AfTargetRevision : string;
  AfFailureCode : string;
  AfPlanStep : string;
}.

Section actions.
(** [decode t] is the value of [t] when it is exactly one JSON text. *)
Context (decode : string → RawMessage).

Definition canonicalFingerprintArguments (arguments : string) : string :=
  let trimmed := trim_space arguments in
  if String.eqb trimmed "" then "valid:{}"
  else match decode trimmed with
       | Some value => "valid:" +:+ marshal value
       | None => "invalid:" +:+ trimmed
       end.

(** The text of [CanonicalActionFingerprint] before it is hashed. *)
Definition action_text (input : ActionFingerprintInput) : string :=
  json_object
    [("tool_name", json_string (AfToolName input));
     ("arguments", json_string (canonicalFingerprintArguments (AfArguments input)));
     ("target_revision", json_string (AfTargetRevision input));
     ("failure_code", json_string (AfFailureCode input));
     ("plan_step", json_string (AfPlanStep input))].

Definition CanonicalActionFingerprint (input : ActionFingerprintInput) : string :=
  sha256_hex (action_text input).

(** ** The run guard *)

Definition RunGuardWithinLimit : string := "within_limit".
Definition RunGuardRepeatedAction : string := "repeated_action".

Record RunGuardDecision := {
  RgAllowed : bool;
  RgFingerprint : string;
  RgOccurrences : Z;
  RgLimit : Z;
  RgReason : string;
}.
Definition no_decision : RunGuardDecision :=
  {| RgAllowed := false; RgFingerprint := ""; RgOccurrences := 0; RgLimit := 0; RgReason := "" |}.

Record RunGuard := {
  repeatLimit : Z;
  seen : gmap string Z;
  successfulResults : gmap string string;
  observations : Z;
  denied : Z;
  lastDenied : RunGuardDecision;
}.

Definition NewRunGuard (limit : Z) : RunGuard :=
  {| repeatLimit := if limit <=? 0 then DefaultRunGuardRepeatLimit else limit;
     seen := ∅; successfulResults := ∅; observations := 0; denied := 0; lastDenied := no_decision |}.

Definition Observe (input : ActionFingerprintInput) (g : RunGuard) : RunGuard * RunGuardDecision :=
  let fingerprint := CanonicalActionFingerprint input in
  let occurrences := wrap64 (default 0 (seen g !! fingerprint) + 1) in
  let allowed := occurrences <=? repeatLimit g in
  let decision :=
    {| RgAllowed := allowed; RgFingerprint := fingerprint; RgOccurrences := occurrences;
       RgLimit := repeatLimit g;
       RgReason := if allowed then RunGuardWithinLimit else RunGuardRepeatedAction |} in
  ({| repeatLimit := repeatLimit g; seen := <[fingerprint := occurrences]> (seen g);
      successfulResults := successfulResults g; observations := wrap64 (observations g + 1);
      denied := if allowed then denied g else wrap64 (denied g + 1);
      lastDenied := if allowed then lastDenied g else decision |}, decision).

Definition Reset (g : RunGuard) : RunGuard :=
  {| repeatLimit := repeatLimit g; seen := ∅; successfulResults := ∅; observations := observations g;
     denied := denied g; lastDenied := lastDenied g |}.

(** The second component: was it progress. *)
Definition ObserveResult (input : ActionFingerprintInput) (res : string) (isError : bool) (g : RunGuard)
    : RunGuard * bool :=
  if isError then (g, false)
  else
    let fingerprint := CanonicalActionFingerprint input in
    let resultDigest := sha256_hex res in
    if bool_decide (successfulResults g !! fingerprint = Some resultDigest) then (g, false)
    else ({| repeatLimit := repeatLimit g; seen := ∅;
             successfulResults := <[fingerprint := resultDigest]> (successfulResults g);
             observations := observations g; denied := denied g; lastDenied := lastDenied g |}, true).

Record RunGuardSnapshot := {
  RsRepeatLimit : Z;
  RsObservations : Z;
  RsDenied : Z;
  RsLastDeniedReason : string;
  RsLastDeniedFingerprint : string;
  RsLastDeniedOccurrences : Z;
}.
(** [RunGuard.Snapshot]. *)
Definition guard_snapshot (g : RunGuard) : RunGuardSnapshot :=
  {| RsRepeatLimit := repeatLimit g; RsObservations := observations g; RsDenied := denied g;
     RsLastDeniedReason := RgReason (lastDenied g); RsLastDeniedFingerprint := RgFingerprint (lastDenied g);
     RsLastDeniedOccurrences := RgOccurrences (lastDenied g) |}.

(** *** What the guard promises

    The history of a run, the latest event first. *)
Inductive GuardEvent :=
| GObserve (input : ActionFingerprintInput)
| GResult (input : ActionFingerprintInput) (res : string) (isError : bool)
| GReset.

Definition guard_event (e : GuardEvent) (g : RunGuard) : RunGuard :=
  match e with
  | GObserve input => (Observe input g).1
  | GResult input res isError => (ObserveResult input res isError g).1
  | GReset => Reset g
  end.

Fixpoint guard_after (limit : Z) (history : list GuardEvent) : RunGuard :=
  match history with
  | [] => NewRunGuard limit
  | e :: history' => guard_event e (guard_after limit history')
  end.

(** The last successful result of an action, since the last reset. *)
Fixpoint last_success (fingerprint : string) (history : list GuardEvent) : option string :=
  match history with
  | [] | GReset :: _ => None
  | GResult input res false :: history' =>
      if String.eqb (CanonicalActionFingerprint input) fingerprint then Some (sha256_hex res)
      else last_success fingerprint history'
  | _ :: history' => last_success fingerprint history'
  end.

(** A reset is progress, and so is a successful result that is new or has changed. *)
Definition is_progress (e : GuardEvent) (history : list GuardEvent) : bool :=
  match e with
  | GReset => true
  | GResult input res false =>
      negb (bool_decide (last_success (CanonicalActionFingerprint input) history = Some (sha256_hex res)))
  | _ => false
  end.

Definition is_attempt (fingerprint : string) (e : GuardEvent) : bool :=
  match e with GObserve input => String.eqb (CanonicalActionFingerprint input) fingerprint | _ => false end.

(** The attempts at an action since the last progress. *)
Fixpoint attempts (fingerprint : string) (history : list GuardEvent) : nat :=
  match history with
  | [] => 0
  | e :: history' =>
      if is_progress e history' then 0
      else ((if is_attempt fingerprint e then 1 else 0) + attempts fingerprint history')%nat
  end.

(** The attempts that were denied. *)
Fixpoint denials (limit : Z) (history : list GuardEvent) : nat :=
  match history with
  | [] => 0
  | e :: history' =>
      Nat.add
        (match e with
         | GObserve input =>
             if Z.of_nat (attempts (CanonicalActionFingerprint input) history') <? limit then 0 else 1
         | _ => 0
         end)
        (denials limit history')
  end.

Lemma attempts_length fingerprint history : (attempts fingerprint history ≤ length history)%nat.
Proof. induction history as [|e h IH]; simpl; [lia|]. case_match; [lia|]. case_match; lia. Qed.

Lemma denials_length limit history : (denials limit history ≤ length history)%nat.
Proof. induction history as [|e h IH]; simpl; [lia|]. repeat case_match; lia. Qed.

Definition effective_limit (limit : Z) : Z := if limit <=? 0 then DefaultRunGuardRepeatLimit else limit.

(** The guard's state is determined by these measures of the history. *)
Lemma guard_after_spec limit history :
  Z.of_nat (length history) < max_int64 →
  let g := guard_after limit history in
  repeatLimit g = effective_limit limit ∧
  (∀ fp, default 0 (seen g !! fp) = Z.of_nat (attempts fp history)) ∧
  (∀ fp, successfulResults g !! fp = last_success fp history) ∧
  observations g = Z.of_nat (countb (λ e, match e with GObserve _ => true | _ => false end) history) ∧
  denied g = Z.of_nat (denials (effective_limit limit) history).
Proof.
  induction history as [|e h IH]; intros Hlen.
  { simpl. split_and!; [done| | |done|done]; intros fp; by rewrite lookup_empty. }
  cbn [length] in Hlen. destruct (IH ltac:(lia)) as (H1 & H2 & H3 & H4 & H5). clear IH.
  cbn [guard_after]. set (g := guard_after limit h) in *.
  pose proof (λ fp, attempts_length fp h) as Hb. pose proof (denials_length (effective_limit limit) h) as Hd.
  assert (Hc : (countb (λ e, match e with GObserve _ => true | _ => false end) h ≤ length h)%nat).
  { clear. induction h as [|e h IH]; simpl; [lia|]. destruct e; lia. }
  destruct e as [input|input res isError|]; cbn [guard_event attempts is_progress is_attempt last_success countb denials].
  - unfold Observe. cbn [fst repeatLimit seen successfulResults observations denied].
    specialize (H2 (CanonicalActionFingerprint input)) as H2i. rewrite H2i.
    specialize (Hb (CanonicalActionFingerprint input)) as Hbi.
    rewrite wrap64_id by (unfold min_int64, max_int64 in *; lia). split_and!; [done| |done| |].
    + intros fp. rewrite lookup_insert. destruct (decide (CanonicalActionFingerprint input = fp)) as [<-|Hne].
      * rewrite String.eqb_refl. simpl. lia.
      * rewrite (proj2 (String.eqb_neq _ _) Hne), (H2 fp). simpl. lia.
    + rewrite H4, wrap64_id by (unfold min_int64, max_int64 in *; lia). lia.
    + rewrite H1, H5. destruct (Z.leb_spec (Z.of_nat (attempts (CanonicalActionFingerprint input) h) + 1) (effective_limit limit)).
      * rewrite (proj2 (Z.ltb_lt _ _)) by lia. lia.
      * rewrite (proj2 (Z.ltb_ge _ _)) by lia. rewrite wrap64_id by (unfold min_int64, max_int64 in *; lia). lia.
  - unfold ObserveResult. destruct isError; cbn [fst negb]; [by split_and!|]. rewrite H3.
    destruct (bool_decide_reflect (last_success (CanonicalActionFingerprint input) h = Some (sha256_hex res)))
      as [He|He]; cbn [fst repeatLimit seen successfulResults observations denied negb].
    + split_and!; [done|done| |done|done]. intros fp. rewrite H3.
      destruct (String.eqb_spec (CanonicalActionFingerprint input) fp) as [<-|]; [done|done].
    + split_and!; [done| | |done|done]; intros fp; [by rewrite lookup_empty|].
      rewrite lookup_insert, H3. destruct (decide (CanonicalActionFingerprint input = fp)) as [<-|Hne].
      * by rewrite String.eqb_refl.
      * by rewrite (proj2 (String.eqb_neq _ _) Hne).
  - cbn. split_and!; [done| | |done|done]; intros fp; by rewrite lookup_empty.
Qed.

(** Actions with different canonical texts are different. *)
Lemma action_text_inj i1 i2 :
  action_text i1 = action_text i2 →
  AfToolName i1 = AfToolName i2 ∧
  canonicalFingerprintArguments (AfArguments i1) = canonicalFingerprintArguments (AfArguments i2) ∧
  AfTargetRevision i1 = AfTargetRevision i2 ∧ AfFailureCode i1 = AfFailureCode i2 ∧
  AfPlanStep i1 = AfPlanStep i2.
Proof.
  assert (Hcolon : ∀ t1 t2 : string, ":" +:+ t1 = ":" +:+ t2 → t1 = t2) by (by intros t1 t2 [= ?]).
  assert (Hcut : ∀ name s1 s2 t1 t2 : string,
    json_member (name, json_string s1) +:+ t1 = json_member (name, json_string s2) +:+ t2 → s1 = s2 ∧ t1 = t2).
  { intros name s1 s2 t1 t2. unfold json_member. cbn [fst snd]. rewrite <-!str_app_assoc. intros H.
    apply json_string_app_inj in H as [_ H]. by apply Hcolon, json_string_app_inj in H. }
  assert (Hsep : ∀ t1 t2 : string, "," +:+ t1 = "," +:+ t2 → t1 = t2) by (by intros t1 t2 [= ?]).
  unfold action_text, json_object. cbn [map str_join String.concat].
  generalize (canonicalFingerprintArguments (AfArguments i1)), (canonicalFingerprintArguments (AfArguments i2)).
  assert (Hbrace : ∀ t1 t2 : string, "{" +:+ t1 = "{" +:+ t2 → t1 = t2) by (by intros t1 t2 [= ?]).
  intros a1 a2. rewrite <-!str_app_assoc. intros H%Hbrace.
  apply Hcut in H as [H1 H]. apply Hsep, Hcut in H as [H2 H]. apply Hsep, Hcut in H as [H3 H].
  apply Hsep, Hcut in H as [H4 H]. apply Hsep, Hcut in H as [H5 _]. done.
Qed.
End actions.

(** ** Files

    What a path that has been resolved names. *)
Record File := { f_data : string; f_mode : Z }.
Inductive Node := NotExist | Regular (f : File) | OtherNode.
Definition Files := gmap string Node.
Definition node (fs : Files) (p : string) : Node := default NotExist (fs !! p).

Definition artifactBytesRevision (data : string) : string := "sha256:" +:+ sha256_hex data.

Inductive RevisionError := RevNotExist | RevUnavailable.

Definition readLedgerFileRevision (fs : Files) (filePath : string) : result RevisionError string :=
  match node fs filePath with
  | NotExist => Err RevNotExist
  | OtherNode => Err RevUnavailable
  | Regular f => Ok (artifactBytesRevision (f_data f))
  end.

(** ** The read ledger *)

Definition ReadLedgerAllowed : string := "allowed".
Definition ReadLedgerNewFile : string := "new_file".
Definition ReadLedgerReadRequired : string := "read_required".
Definition ReadLedgerStaleRead : string := "stale_read".
Definition ReadLedgerMissingTarget : string := "missing_target".
Definition ReadLedgerRevisionUnavailable : string := "revision_unavailable".

Inductive LedgerError :=
| LedgerPathEmpty | LedgerWorkspace (e : PathError) | LedgerPath (e : PathError) | LedgerTarget (e : PathError)
| LedgerOutside | LedgerRevision (e : RevisionError).

(** [Detail] is the text of an error, or empty. *)
Record ReadLedgerDecision := {
  RdAllowed : bool;
  RdCode : string;
  RdPath : string;
  RdRecordedRevision : string;
  RdCurrentRevision : string;
  RdDetail : option LedgerError;
}.

Record ReadLedger := {
  lgWorkDir : string;
  lgAllowExternal : bool;
  reads : gmap string string;
}.

Definition NewReadLedger (os : OS) (workDir : string) (allowExternal : bool) : ReadLedger :=
  let workDir := if String.eqb (trim_space workDir) "" then "." else workDir in
  {| lgWorkDir := match filepath_abs os workDir with Ok absolute => clean absolute | Err _ => workDir end;
     lgAllowExternal := allowExternal; reads := ∅ |}.

Definition with_reads (m : gmap string string) (l : ReadLedger) : ReadLedger :=
  {| lgWorkDir := lgWorkDir l; lgAllowExternal := lgAllowExternal l; reads := m |}.

Definition map_err {E E' A} (f : E → E') (r : result E A) : result E' A :=
  match r with Ok a => Ok a | Err e => Err (f e) end.

(** From internal/agent/tools.go. *)
Definition resolvePath (path workDir : string) : string := if is_abs path then path else join2 workDir path.

Definition canonicalPath (os : OS) (filePath : string) (l : ReadLedger) : result LedgerError string :=
  if String.eqb (trim_space filePath) "" then Err LedgerPathEmpty
  else
    workspace ← map_err LedgerWorkspace (canonicalWorkspace os (lgWorkDir l));
    absolute ← map_err LedgerPath (filepath_abs os (resolvePath filePath (lgWorkDir l)));
    canonical ← map_err LedgerTarget (canonicalizeTarget os absolute);
    if negb (lgAllowExternal l) && negb (pathWithin canonical workspace) then Err LedgerOutside
    else Ok (clean canonical).

(** An operation that fails may still have forgotten the path. *)
Definition RecordRead (os : OS) (fs : Files) (filePath : string) (l : ReadLedger)
    : ReadLedger * result LedgerError unit :=
  match canonicalPath os filePath l with
  | Err e => (l, Err e)
  | Ok canonical =>
      match readLedgerFileRevision fs canonical with
      | Err e => (with_reads (delete canonical (reads l)) l, Err (LedgerRevision e))
      | Ok revision => (with_reads (<[canonical := revision]> (reads l)) l, Ok tt)
      end
  end.
Definition RefreshAfterWrite : OS → Files → string → ReadLedger → ReadLedger * result LedgerError unit := RecordRead.

Definition Forget (os : OS) (filePath : string) (l : ReadLedger) : ReadLedger * result LedgerError unit :=
  match canonicalPath os filePath l with
  | Err e => (l, Err e)
  | Ok canonical => (with_reads (delete canonical (reads l)) l, Ok tt)
  end.

Definition CurrentRevision (os : OS) (fs : Files) (filePath : string) (l : ReadLedger) : result LedgerError string :=
  canonical ← canonicalPath os filePath l;
  map_err LedgerRevision (readLedgerFileRevision fs canonical).

Definition ledger_decision (allowed : bool) (code path recorded current : string) (detail : option LedgerError)
    : ReadLedgerDecision :=
  {| RdAllowed := allowed; RdCode := code; RdPath := path; RdRecordedRevision := recorded;
     RdCurrentRevision := current; RdDetail := detail |}.

Definition checkMutation (os : OS) (fs : Files) (filePath : string) (allowCreate : bool) (l : ReadLedger)
    : ReadLedgerDecision :=
  match canonicalPath os filePath l with
  | Err e => ledger_decision false ReadLedgerRevisionUnavailable "" "" "" (Some e)
  | Ok canonical =>
      match readLedgerFileRevision fs canonical with
      | Err RevNotExist =>
          if allowCreate then ledger_decision true ReadLedgerNewFile canonical "" "" None
          else ledger_decision false ReadLedgerMissingTarget canonical "" "" (Some (LedgerRevision RevNotExist))
      | Err e => ledger_decision false ReadLedgerRevisionUnavailable canonical "" "" (Some (LedgerRevision e))
      | Ok revision =>
          match reads l !! canonical with
          | None => ledger_decision false ReadLedgerReadRequired canonical "" revision None
          | Some recorded =>
              if String.eqb recorded revision
              then ledger_decision true ReadLedgerAllowed canonical recorded revision None
              else ledger_decision false ReadLedgerStaleRead canonical recorded revision None
          end
      end
  end.
Definition CheckWrite (os : OS) (fs : Files) (filePath : string) (l : ReadLedger) : ReadLedgerDecision :=
  checkMutation os fs filePath true l.
Definition CheckEdit (os : OS) (fs : Files) (filePath : string) (l : ReadLedger) : ReadLedgerDecision :=
  checkMutation os fs filePath false l.

(** *** What the ledger promises

    The history of a run, the latest event first, each with the state of the world it
    happened in. *)
Inductive LedgerEvent :=
| LRead (os : OS) (fs : Files) (filePath : string)
| LForget (os : OS) (filePath : string).

Definition ledger_event (e : LedgerEvent) (l : ReadLedger) : ReadLedger :=
  match e with
  | LRead os fs filePath => (RecordRead os fs filePath l).1
  | LForget os filePath => (Forget os filePath l).1
  end.

Fixpoint ledger_after (l : ReadLedger) (history : list LedgerEvent) : ReadLedger :=
  match history with
  | [] => l
  | e :: history' => ledger_event e (ledger_after l history')
  end.

(** What the run last saw of the file at [p]: the content of its last read or write
    that was of a regular file, unless it was forgotten since. *)
Fixpoint last_seen (l : ReadLedger) (p : string) (history : list LedgerEvent) : option string :=
  match history with
  | [] => None
  | e :: history' =>
      match (match e with LRead os _ filePath | LForget os filePath => canonicalPath os filePath l end) with
      | Err _ => last_seen l p history'
      | Ok p' =>
          if negb (String.eqb p' p) then last_seen l p history'
          else match e with
               | LRead _ fs _ => match node fs p with Regular f => Some (f_data f) | _ => None end
               | LForget _ _ => None
               end
      end
  end.

(** The ledger keeps the digest of what was last seen. *)
Lemma canonicalPath_reads os filePath m l : canonicalPath os filePath (with_reads m l) = canonicalPath os filePath l.
Proof. done. Qed.

Lemma ledger_after_spec l history :
  reads l = ∅ →
  (∀ os filePath, canonicalPath os filePath (ledger_after l history) = canonicalPath os filePath l) ∧
  (∀ p, reads (ledger_after l history) !! p = artifactBytesRevision <$> last_seen l p history).
Proof.
  intros Hl. induction history as [|e h [IH1 IH2]]; simpl.
  { split; [done|]. intros p. by rewrite Hl, lookup_empty. }
  destruct e as [os fs path|os path]; simpl; unfold RecordRead, Forget; rewrite IH1;
    destruct (canonicalPath os path l) as [q|err] eqn:Hq; simpl; try done.
  - destruct (node fs q) as [|f|] eqn:Hn; unfold readLedgerFileRevision; rewrite Hn; simpl;
      (split; [done|]); intros p; destruct (String.eqb_spec q p) as [<-|Hne]; cbn [negb].
    all: rewrite ?lookup_delete_eq, ?lookup_insert_eq, ?Hn; try done.
    all: rewrite ?lookup_delete_ne, ?lookup_insert_ne by done; by rewrite IH2.
  - split; [done|]. intros p. destruct (String.eqb_spec q p) as [<-|Hne]; cbn [negb].
    + by rewrite lookup_delete_eq.
    + by rewrite lookup_delete_ne.
Qed.

(** ** Theorems *)

(** The run guard, against the history of the run. The next attempt at an action is
    allowed exactly when it was attempted fewer times than the limit since the run last
    made progress (a reset, or a successful result that is new for its action or has
    changed); a result counts as progress exactly when it is that; and the snapshot
    reports the attempts observed and denied. *)
Theorem run_guard_exact decode limit history input res isError :
  Z.of_nat (length history) < max_int64 - 1 →
  let g := guard_after decode limit history in
  let fp := CanonicalActionFingerprint decode input in
  let d := (Observe decode input g).2 in
  (RgAllowed d = true ↔ Z.of_nat (attempts decode fp history) < effective_limit limit) ∧
  RgOccurrences d = Z.of_nat (attempts decode fp history) + 1 ∧ RgFingerprint d = fp ∧
  (ObserveResult decode input res isError g).2 = is_progress decode (GResult input res isError) history ∧
  RsObservations (guard_snapshot g) =
    Z.of_nat (countb (λ e, match e with GObserve _ => true | _ => false end) history) ∧
  RsDenied (guard_snapshot g) = Z.of_nat (denials decode (effective_limit limit) history).
Proof.
  intros Hlen g fp d. destruct (guard_after_spec decode limit history ltac:(lia)) as (H1 & H2 & H3 & H4 & H5).
  fold g in H1, H2, H3, H4, H5. pose proof (attempts_length decode fp history) as Hb. specialize (H2 fp) as Ha.
  assert (Hocc : wrap64 (default 0 (seen g !! fp) + 1) = Z.of_nat (attempts decode fp history) + 1).
  { rewrite Ha. apply wrap64_id. unfold min_int64, max_int64 in *. lia. }
  subst d. unfold Observe. fold fp. cbn [snd RgAllowed RgOccurrences RgFingerprint]. rewrite Hocc, H1.
  split_and!; [rewrite Z.leb_le; lia|done|done| |done|done].
  unfold ObserveResult, is_progress. destruct isError; [done|]. rewrite H3. by case_match.
Qed.

(** Fingerprints tell actions apart as the code means them to. The hashed texts of
    two actions agree only if the tool, the canonical arguments, the revision of the
    target, the failure and the plan step do; and arguments that differ in white space
    around them or in the order of their members have one fingerprint. *)
Theorem fingerprint_identifies_action decode i1 i2 ms1 ms2 :
  (action_text decode i1 = action_text decode i2 →
     AfToolName i1 = AfToolName i2 ∧
     canonicalFingerprintArguments decode (AfArguments i1) = canonicalFingerprintArguments decode (AfArguments i2) ∧
     AfTargetRevision i1 = AfTargetRevision i2 ∧ AfFailureCode i1 = AfFailureCode i2 ∧
     AfPlanStep i1 = AfPlanStep i2) ∧
  (decode (trim_space (AfArguments i1)) = Some (JObject ms1) →
   decode (trim_space (AfArguments i2)) = Some (JObject ms2) →
   trim_space (AfArguments i1) ≠ "" → trim_space (AfArguments i2) ≠ "" →
   NoDup ms1.*1 → ms1 ≡ₚ ms2 →
   AfToolName i1 = AfToolName i2 → AfTargetRevision i1 = AfTargetRevision i2 →
   AfFailureCode i1 = AfFailureCode i2 → AfPlanStep i1 = AfPlanStep i2 →
   CanonicalActionFingerprint decode i1 = CanonicalActionFingerprint decode i2).
Proof.
  split; [apply action_text_inj|]. intros D1 D2 N1 N2 Hnd Hp E1 E2 E3 E4.
  unfold CanonicalActionFingerprint, action_text, canonicalFingerprintArguments.
  rewrite (proj2 (String.eqb_neq _ _) N1), (proj2 (String.eqb_neq _ _) N2), D1, D2, E1, E2, E3, E4.
  by rewrite (marshal_object_perm ms1 ms2).
Qed.

(** C26: read before write. After any history of reads, writes and forgotten paths, an
    edit is allowed exactly when its target is a regular file the run has seen and that
    still has the digest of what it saw last; a write is allowed then and when there is
    no file. The decision names the resolved path and the revision it was taken on. *)
Theorem read_before_write l history os fs filePath :
  reads l = ∅ →
  let l' := ledger_after l history in
  let seen_unchanged p := ∃ f data, node fs p = Regular f ∧ last_seen l p history = Some data ∧
                                    artifactBytesRevision data = artifactBytesRevision (f_data f) in
  (RdAllowed (CheckEdit os fs filePath l') = true ↔
     ∃ p, canonicalPath os filePath l = Ok p ∧ seen_unchanged p) ∧
  (RdAllowed (CheckWrite os fs filePath l') = true ↔
     ∃ p, canonicalPath os filePath l = Ok p ∧ (seen_unchanged p ∨ node fs p = NotExist)) ∧
  (∀ allowCreate, let d := checkMutation os fs filePath allowCreate l' in
     RdAllowed d = true → canonicalPath os filePath l = Ok (RdPath d) ∧
     match node fs (RdPath d) with
     | Regular f => RdCode d = ReadLedgerAllowed ∧ RdCurrentRevision d = artifactBytesRevision (f_data f)
     | NotExist => RdCode d = ReadLedgerNewFile ∧ allowCreate = true
     | OtherNode => False
     end).
Proof.
  intros Hl l' seen_unchanged. destruct (ledger_after_spec l history Hl) as [H1 H2]. fold l' in H1, H2.
  assert (Hnot : ∀ p, ¬ seen_unchanged p → node fs p ≠ NotExist →
    (false = true ↔ ∃ q, Ok (E:=LedgerError) p = Ok q ∧ seen_unchanged q) ∧
    (false = true ↔ ∃ q, Ok (E:=LedgerError) p = Ok q ∧ (seen_unchanged q ∨ node fs q = NotExist))).
  { intros p H3 H4. split; (split; [done|]); intros (q & [= <-] & Hq); [|destruct Hq]; contradiction. }
  unfold CheckEdit, CheckWrite, checkMutation. rewrite !H1.
  destruct (canonicalPath os filePath l) as [p|err]; [|split; [|split; [|done]]; (split; [done|]); by intros (? & ? & _)].
  unfold readLedgerFileRevision. destruct (node fs p) as [|f|] eqn:Hn.
  - cbn. split; [|split].
    + split; [done|]. intros (q & [= <-] & f & d & Hq & _). by rewrite Hn in Hq.
    + split; [|done]. intros _. exists p. auto.
    + intros [] Ha; cbn in *; [|done]. by rewrite Hn.
  - rewrite H2. destruct (last_seen l p history) as [data|] eqn:Hs; cbn [fmap option_fmap option_map].
    + destruct (String.eqb_spec (artifactBytesRevision data) (artifactBytesRevision (f_data f))) as [He|He];
        cbn [ledger_decision RdAllowed RdPath RdCode RdCurrentRevision].
      * assert (Hseen : seen_unchanged p) by (exists f, data; done).
        split; [split; [intros _; exists p; done|done]|]. split; [split; [intros _; exists p; split; [done|by left]|done]|].
        intros ? _. by rewrite Hn.
      * destruct (Hnot p) as [? ?]; [|by rewrite Hn|by split_and!].
        intros (f' & d' & Hf & Hd & Hq). congruence.
    + destruct (Hnot p) as [? ?]; [|by rewrite Hn|by split_and!].
      intros (f' & d' & Hf & Hd & Hq). congruence.
  - destruct (Hnot p) as [? ?]; [|by rewrite Hn|by split_and!]. intros (f' & d' & Hf & _). congruence.
Qed.

(** ** Concrete runs *)

Definition quoted (s : string) : string := dquote +:+ s +:+ dquote.
Definition ex_args1 : string := "{" +:+ quoted "a" +:+ ":1," +:+ quoted "b" +:+ ":2}".
Definition ex_args2 : string := " {" +:+ quoted "b" +:+ ":2," +:+ quoted "a" +:+ ":1}".
Definition ex_decode (t : string) : RawMessage :=
  if String.eqb t ex_args1 then Some (JObject [("a", JNumber "1"); ("b", JNumber "2")])
  else if String.eqb t (trim_space ex_args2) then Some (JObject [("b", JNumber "2"); ("a", JNumber "1")])
  else None.
Definition ex_action (args : string) : ActionFingerprintInput :=
  {| AfToolName := "Grep"; AfArguments := args; AfTargetRevision := ""; AfFailureCode := ""; AfPlanStep := "" |}.

(** Two attempts with the members in either order, under a limit of two: the third is
    denied, and allowed again after a successful result. *)
Definition ex_history : list GuardEvent := [GObserve (ex_action ex_args1); GObserve (ex_action ex_args2)].

Lemma run_guard_exact_witness :
  RgAllowed (Observe ex_decode (ex_action ex_args1) (guard_after ex_decode 2 ex_history)).2 = false ∧
  RgAllowed (Observe ex_decode (ex_action ex_args1)
    (guard_after ex_decode 2 (GResult (ex_action ex_args1) "ok" false :: ex_history))).2 = true.
Proof.
  split.
  - apply not_true_iff_false. intros H.
    apply (run_guard_exact ex_decode 2 ex_history (ex_action ex_args1) "" false) in H; [|vm_compute; reflexivity].
    vm_compute in H. discriminate.
  - apply (run_guard_exact ex_decode 2 (GResult (ex_action ex_args1) "ok" false :: ex_history)
      (ex_action ex_args1) "" false); vm_compute; reflexivity.
Defined.

Lemma fingerprint_identifies_action_witness :
  CanonicalActionFingerprint ex_decode (ex_action ex_args1) = CanonicalActionFingerprint ex_decode (ex_action ex_args2).
Proof.
  destruct (fingerprint_identifies_action ex_decode (ex_action ex_args1) (ex_action ex_args2)
    [("a", JNumber "1"); ("b", JNumber "2")] [("b", JNumber "2"); ("a", JNumber "1")]) as [_ H].
  apply H.
  - vm_compute. reflexivity.
  - vm_compute. reflexivity.
  - vm_compute. discriminate.
  - vm_compute. discriminate.
  - apply list.NoDup_cons. split; [|apply NoDup_singleton]. intros Hb%list_elem_of_singleton. discriminate.
  - apply Permutation_swap.
  - reflexivity.
  - reflexivity.
  - reflexivity.
  - reflexivity.
Defined.

Definition ex_ledger : ReadLedger := NewReadLedger ex_os "/work" false.
Definition ex_files (content : string) : Files :=
  {["/work/a.go" := Regular {| f_data := content; f_mode := 420 |}]}.

(** An edit of a file that was read and did not change. *)
Lemma read_before_write_witness :
  RdAllowed (CheckEdit ex_os (ex_files "x") "a.go"
    (ledger_after ex_ledger [LRead ex_os (ex_files "x") "/work/a.go"])) = true.
Proof.
  destruct (read_before_write ex_ledger [LRead ex_os (ex_files "x") "/work/a.go"] ex_os (ex_files "x") "a.go")
    as [[_ H] _]; [reflexivity|].
  apply H. exists "/work/a.go". split; [vm_compute; reflexivity|].
  exists {| f_data := "x"; f_mode := 420 |}, "x". split_and!; vm_compute; reflexivity.
Defined.

Example ex_stale :
  RdCode (CheckEdit ex_os (ex_files "y") "a.go"
    (ledger_after ex_ledger [LRead ex_os (ex_files "x") "/work/a.go"])) = ReadLedgerStaleRead.
Proof. vm_compute. reflexivity. Qed.
