(* ===== verification/FileMutation.v ===== *)
(** * File mutations: internal/agent/file_mutation.go, file_mutation_batch.go,
    lint.go and the executors of tools_improved.go

    The last part of a file mutation's way: the one-shot token that binds an approved
    Write or Edit to the revision it was approved on, the executors, which stage the new
    content beside the target, lint it and commit it, and the rollback of a batch.

    The executors run beside other processes.  A [Machine] says what these do to the
    files before each system call of ours, which of our calls fail, and what the
    operating system answers about paths; a [World] holds the files and the history of
    our calls, which the theorems speak about.  The mutation lock, which keeps the
    executors of this process apart, is modelled in [ArtifactLocks].

    A special file counts as a directory here.  Decoding the tool's arguments, the JSON
    validator and the syntax checkers that run as child processes are fields of the
    machine.  A result text is a constructor of [Outcome] or [MutationFailure]. *)

From S2P Require Export Guards Edits.

Local Open Scope string_scope.
Local Open Scope list_scope.
Local Open Scope Z_scope.

(** ** Preconditions: one-shot tokens *)

Definition fileMutationProofTTL : duration := minute.

Record fileMutationPrecondition := {
  PcToken : string;
  PcToolName : string;
  PcCanonicalPath : string;
  PcExpectedRevision : string;
  PcExpectAbsent : bool;
  PcInputDigest : string;
  PcExpiresAt : time;
}.

(** [fileMutationExecutionEnvelope] as it comes out of the decoder. *)
Record fileMutationExecutionEnvelope := { EnToken : string; EnInput : string }.

Definition Preconditions := gmap string fileMutationPrecondition.

Inductive MutationError :=
| DecisionNotExecutable | ToolCannotCarry | EditAbsent | RevisionUnavailable | TokenUnavailable | TokenCollision | NotEncoded
| EnvelopeIncomplete | TokenUnknown | ProofExpired | ProofNotBound
| PathUnresolved | WrongTool | TargetMoved | DirectoryChanged
| TargetExists | TargetChanged (expected found : string) | TargetUnreadable
| NotPublished | NotReplaced.

Definition nul_str : string := String Ascii.zero "".
Definition fileMutationInputDigest (toolName input : string) : string :=
  "sha256:" +:+ sha256_hex (toolName +:+ nul_str +:+ input).

Definition cleanupExpiredFileMutationPreconditions (now : time) (pending : Preconditions) : Preconditions :=
  filter (λ kv, time_after (PcExpiresAt kv.2) now = true) pending.

(** The envelope is encoded by [json.Marshal], which compacts the input it embeds, or
    fails on one that is not JSON; [random] is what [newFileMutationToken] gives. *)
Definition bindFileMutationExecutionInput (compact : string → option string) (random : option string) (now : time)
    (input toolName : string) (decision : ReadLedgerDecision) (pending : Preconditions)
    : Preconditions * result MutationError fileMutationExecutionEnvelope :=
  if negb (RdAllowed decision) || String.eqb (trim_space (RdPath decision)) "" then (pending, Err DecisionNotExecutable)
  else
    let expectAbsent := String.eqb (RdCode decision) ReadLedgerNewFile in
    if negb (String.eqb (RdCode decision) ReadLedgerAllowed) && negb expectAbsent then (pending, Err DecisionNotExecutable)
    else if negb (String.eqb toolName "Write") && negb (String.eqb toolName "Edit") then (pending, Err ToolCannotCarry)
    else if String.eqb toolName "Edit" && expectAbsent then (pending, Err EditAbsent)
    else if negb expectAbsent && String.eqb (trim_space (RdCurrentRevision decision)) "" then
      (pending, Err RevisionUnavailable)
    else match random with
    | None => (pending, Err TokenUnavailable)
    | Some token =>
        let pending := cleanupExpiredFileMutationPreconditions now pending in
        let proof :=
          {| PcToken := token; PcToolName := toolName; PcCanonicalPath := clean (RdPath decision);
             PcExpectedRevision := RdCurrentRevision decision; PcExpectAbsent := expectAbsent;
             PcInputDigest := fileMutationInputDigest toolName input;
             PcExpiresAt := time_add now fileMutationProofTTL |} in
        match pending !! token with
        | Some _ => (pending, Err TokenCollision)
        | None =>
            match compact input with
            | Some encoded => (<[token := proof]> pending, Ok {| EnToken := token; EnInput := encoded |})
            | None => (delete token (<[token := proof]> pending), Err NotEncoded)
            end
        end
    end.

(** For an input that decodes to an envelope; any other input is handed on as it is. *)
Definition unwrapFileMutationExecutionInput (now : time) (envelope : fileMutationExecutionEnvelope)
    (toolName : string) (pending : Preconditions)
    : Preconditions * result MutationError (string * fileMutationPrecondition) :=
  if String.eqb (trim_space (EnToken envelope)) "" || String.eqb (EnInput envelope) "" then
    (pending, Err EnvelopeIncomplete)
  else match pending !! EnToken envelope with
  | None => (pending, Err TokenUnknown)
  | Some proof =>
      let pending := delete (EnToken envelope) pending in
      if negb (time_after (PcExpiresAt proof) now) then (pending, Err ProofExpired)
      else if negb (String.eqb (PcToken proof) (EnToken envelope)) || negb (String.eqb (PcToolName proof) toolName)
              || negb (String.eqb (PcInputDigest proof) (fileMutationInputDigest toolName (EnInput envelope)))
      then (pending, Err ProofNotBound)
      else (pending, Ok (EnInput envelope, proof))
  end.

Definition discardFileMutationPrecondition (token : string) (pending : Preconditions) : Preconditions :=
  if negb (String.eqb (trim_space token) "") then delete token pending else pending.


(** ** The machine *)

Inductive IoError := ENOENT | EEXIST | EISDIR | ENOTDIR | EIO.

(** What [runToolProcess] reports of a child process. *)
Record ToolProcess := {
  TpPolicyOrContextFailure : bool;
  TpStarted : bool;
  TpExitCode : Z;
  TpErr : bool;
}.

Record Machine := {
  others : nat → Files → Files;
  io_error : nat → bool;
  random_name : nat → string;
  os_at : nat → OS;
  json_valid : string → bool;
  runToolProcess : nat → string → string → ToolProcess;
  decode_edit : string → option editPolicyInput;
  decode_write : string → option (string * string);
  regexp_compile : string → option Regexp;
}.

Record World := { files : Files; history : list (Files * Files) }.
Definition tick (w : World) : nat := length (history w).

Definition IO (A : Type) : Type := World → World * A.
#[export] Instance IO_ret : MRet IO := λ A a w, (w, a).
#[export] Instance IO_bind : MBind IO := λ A B f c w, let (w', a) := c w in f a w'.

(** [if err != nil { return ..., err }], with the error made into one of the caller's. *)
Definition try {E E' A B} (c : IO (result E A)) (err : E → E') (k : A → IO (result E' B)) : IO (result E' B) :=
  c ≫= λ r, match r with Ok a => k a | Err e => mret (Err (err e)) end.

Section machine.
Context (m : Machine).

(** A system call, after what the others have done meanwhile. *)
Definition syscall {A} (f : Files → result IoError (Files * A)) : IO (result IoError A) := λ w,
  let fs := others m (tick w) (files w) in
  let r := if io_error m (tick w) then Err EIO else f fs in
  let fs' := match r with Ok (fs', _) => fs' | Err _ => fs end in
  ({| files := fs'; history := history w ++ [(fs, fs')] |}, snd <$> r).

Definition read_file (p : string) : IO (result IoError string) :=
  syscall (λ fs, match node fs p with
                 | NotExist => Err ENOENT
                 | OtherNode => Err EISDIR
                 | Regular f => Ok (fs, f_data f)
                 end).
(** [os.Stat], then [info.Mode().IsRegular()]: the mode of a regular file. *)
Definition stat_regular (p : string) : IO (result IoError (option Z)) :=
  syscall (λ fs, match node fs p with
                 | NotExist => Err ENOENT
                 | OtherNode => Ok (fs, None)
                 | Regular f => Ok (fs, Some (f_mode f))
                 end).
Definition lstat (p : string) : IO (result IoError unit) :=
  syscall (λ fs, match node fs p with NotExist => Err ENOENT | _ => Ok (fs, tt) end).
Definition read_revision (p : string) : IO (result IoError string) :=
  syscall (λ fs, match readLedgerFileRevision fs p with
                 | Ok revision => Ok (fs, revision)
                 | Err RevNotExist => Err ENOENT
                 | Err RevUnavailable => Err EISDIR
                 end).
Definition remove (p : string) : IO (result IoError unit) :=
  syscall (λ fs, match node fs p with
                 | NotExist => Err ENOENT
                 | OtherNode => Err EISDIR
                 | Regular _ => Ok (delete p fs, tt)
                 end).
Definition create (p : string) : IO (result IoError unit) :=
  syscall (λ fs, match node fs p with
                 | NotExist => Ok (<[p := Regular {| f_data := ""; f_mode := 384 |}]> fs, tt)
                 | _ => Err EEXIST
                 end).
(** A call on an open file, which changes the file. *)
Definition on_open (p : string) (change : File → File) : IO (result IoError unit) :=
  syscall (λ fs, match node fs p with
                 | Regular f => Ok (<[p := Regular (change f)]> fs, tt)
                 | _ => Err ENOENT
                 end).
Definition set_mode (mode : Z) (f : File) : File := {| f_data := f_data f; f_mode := mode |}.
Definition set_data (data : string) (f : File) : File := {| f_data := data; f_mode := f_mode f |}.
Definition link (old new : string) : IO (result IoError unit) :=
  syscall (λ fs, match node fs old, node fs new with
                 | Regular f, NotExist => Ok (<[new := Regular f]> fs, tt)
                 | Regular _, _ => Err EEXIST
                 | _, _ => Err ENOENT
                 end).
Definition rename (old new : string) : IO (result IoError unit) :=
  syscall (λ fs, match node fs old, node fs new with
                 | Regular f, OtherNode => Err EISDIR
                 | Regular f, _ => Ok (<[new := Regular f]> (delete old fs), tt)
                 | _, _ => Err ENOENT
                 end).
Definition mkdir (p : string) : IO (result IoError unit) :=
  syscall (λ fs, match node fs p with
                 | NotExist => Ok (<[p := OtherNode]> fs, tt)
                 | OtherNode => Ok (fs, tt)
                 | Regular _ => Err ENOTDIR
                 end).
Fixpoint mkdir_each (ps : list string) : IO (result IoError unit) :=
  match ps with
  | [] => mret (Ok tt)
  | p :: ps' => try (mkdir p) id (λ _, mkdir_each ps')
  end.
(** [os.MkdirAll]: the directory and its parents, from the root. *)
Definition dir_chain (dir : string) : list string :=
  let comps := path_comps dir in
  map (λ n, render (is_abs dir) (take n comps)) (seq 1 (length comps)).
Definition mkdir_all (dir : string) : IO (result IoError unit) := mkdir_each (dir_chain dir).

(** ** Paths and states *)

Definition mutationExecutionPath (rawPath workDir toolName : string) (proof : option fileMutationPrecondition)
    (full_mode : bool) : IO (result MutationError string) := λ w,
  let input := Some (JObject [("file_path", JString rawPath)]) in
  (w, match executionToolWorkspacePathsWithPolicy (os_at m (tick w)) toolName input workDir full_mode with
      | None | Some (Err _) => Err PathUnresolved
      | Some (Ok paths) =>
          let absolute := PathSafety.one paths "file_path" in
          match proof with
          | None => Ok absolute
          | Some proof =>
              if negb (String.eqb (PcToolName proof) toolName) then Err WrongTool
              else if negb (String.eqb (clean absolute) (clean (PcCanonicalPath proof))) then Err TargetMoved
              else Ok (clean (PcCanonicalPath proof))
          end
      end).

Definition expect_absent (path : string) : IO (result MutationError unit) :=
  lstat path ≫= λ r, mret match r with
                         | Err ENOENT => Ok tt
                         | Err _ => Err TargetUnreadable
                         | Ok _ => Err TargetExists
                         end.
Definition expect_revision (path expected : string) : IO (result MutationError unit) :=
  read_revision path ≫= λ r, mret match r with
                                 | Err _ => Err TargetUnreadable
                                 | Ok current => if String.eqb current expected then Ok tt else Err (TargetChanged expected current)
                                 end.

Definition validateExpectedArtifactState (path expectedRevision : string) (expectAbsent : bool)
    : IO (result MutationError unit) :=
  if expectAbsent then expect_absent path else expect_revision path expectedRevision.

Definition validateArtifactPrecondition (path : string) (proof : option fileMutationPrecondition)
    : IO (result MutationError unit) :=
  match proof with
  | None => mret (Ok tt)
  | Some proof => validateExpectedArtifactState path (PcExpectedRevision proof) (PcExpectAbsent proof)
  end.

Definition validateArtifactBytesPrecondition (data : string) (proof : option fileMutationPrecondition)
    : result MutationError unit :=
  match proof with
  | None => Ok tt
  | Some proof =>
      if PcExpectAbsent proof then Err TargetExists
      else let current := artifactBytesRevision data in
           if String.eqb current (PcExpectedRevision proof) then Ok tt
           else Err (TargetChanged (PcExpectedRevision proof) current)
  end.

(** ** Staging and committing *)

Record stagedArtifact := { st_target : string; st_temporary : string; st_revision : string }.

Definition temp_path (target random : string) : string :=
  join2 (filepath_dir target) (".corelay-mutation-" +:+ random +:+ filepath_ext target).
Definition perm (mode : Z) : Z := Z.land mode 511.
Definition staged_mode (mode : Z) : Z := if perm mode =? 0 then 420 else perm mode.

(** The error of a step is returned after the temporary file has been removed. *)
Definition or_cleanup {A} (temporary : string) (c : IO (result IoError unit)) (k : IO (result IoError A))
    : IO (result IoError A) :=
  c ≫= λ r, match r with
            | Ok _ => k
            | Err e => remove temporary ≫= λ _, mret (Err e)
            end.

Definition stageArtifact (target data : string) (mode : Z) : IO (result IoError stagedArtifact) := λ w,
  let temporary := temp_path target (random_name m (tick w)) in
  try (create temporary) id (λ _,
    or_cleanup temporary (on_open temporary (set_mode (staged_mode mode))) (
    or_cleanup temporary (on_open temporary (set_data data)) (
    or_cleanup temporary (on_open temporary id) (
    or_cleanup temporary (on_open temporary id) (
    mret (Ok {| st_target := target; st_temporary := temporary; st_revision := artifactBytesRevision data |})))))) w.

(** The second component says whether the stage is committed, so that [cleanup] leaves
    it alone. *)
Definition commit (s : stagedArtifact) (expectedRevision : string) (expectAbsent : bool)
    : IO (result MutationError unit * bool) :=
  if expectAbsent then
    expect_absent (st_target s) ≫= λ r,
    match r with
    | Err e => mret (Err e, false)
    | Ok _ =>
        link (st_temporary s) (st_target s) ≫= λ r,
        match r with
        | Err _ => mret (Err NotPublished, false)
        | Ok _ => remove (st_temporary s) ≫= λ r, mret (Ok tt, is_ok r)
        end
    end
  else
    expect_revision (st_target s) expectedRevision ≫= λ r,
    match r with
    | Err e => mret (Err e, false)
    | Ok _ =>
        rename (st_temporary s) (st_target s) ≫= λ r,
        match r with
        | Err _ => mret (Err NotReplaced, false)
        | Ok _ => mret (Ok tt, true)
        end
    end.

(** [defer stage.cleanup()] around what is done with the stage. *)
Definition with_cleanup {A} (s : stagedArtifact) (c : IO (A * bool)) : IO A :=
  c ≫= λ r : A * bool, if r.2 then mret r.1 else remove (st_temporary s) ≫= λ _, mret r.1.
(** ** Lint *)

Inductive LintFailureCode :=
| LintFailureNone | LintFailureSyntax | LintFailureSandbox | LintFailureRevisionMismatch | LintFailureArtifact.

Record LintResult := { lr_checked : bool; lr_valid : bool; lr_failure : LintFailureCode }.

Definition failedInfrastructure (r : LintResult) : bool :=
  match lr_failure r with
  | LintFailureSandbox | LintFailureRevisionMismatch | LintFailureArtifact => true
  | _ => false
  end.
Definition lint_failed (failure : LintFailureCode) : LintResult :=
  {| lr_checked := true; lr_valid := false; lr_failure := failure |}.

Definition lint_extensions : list string := [".json"; ".go"; ".py"; ".js"; ".mjs"; ".cjs"; ".jsx"].
Definition lintCommand (extension : string) : string :=
  if String.eqb extension ".go" then "gofmt" else if String.eqb extension ".py" then "python3" else "node".

Definition verifyLintArtifactUnchanged (path expected : string) (res : LintResult) : IO LintResult :=
  read_revision path ≫= λ r, mret match r with
                                   | Err _ => lint_failed LintFailureArtifact
                                   | Ok after => if negb (String.eqb after expected)
                                                 then lint_failed LintFailureRevisionMismatch else res
                                   end.

Definition run_checker (command path : string) : IO ToolProcess := λ w, (w, runToolProcess m (tick w) command path).

Definition lintFileWithOptions (path expectedRevision : string) : IO LintResult :=
  let ext := to_lower (filepath_ext path) in
  if negb (existsb (String.eqb ext) lint_extensions) then
    mret {| lr_checked := false; lr_valid := true; lr_failure := LintFailureNone |}
  else
    read_revision path ≫= λ before,
    match before with
    | Err _ => mret (lint_failed LintFailureArtifact)
    | Ok before =>
        if negb (String.eqb before expectedRevision) then mret (lint_failed LintFailureRevisionMismatch)
        else if String.eqb ext ".json" then
          read_file path ≫= λ data,
          match data with
          | Err _ => mret (lint_failed LintFailureArtifact)
          | Ok data =>
              let valid := json_valid m data in
              verifyLintArtifactUnchanged path expectedRevision
                {| lr_checked := true; lr_valid := valid;
                   lr_failure := if valid then LintFailureNone else LintFailureSyntax |}
          end
        else
          run_checker (lintCommand ext) path ≫= λ process,
          verifyLintArtifactUnchanged path expectedRevision
            {| lr_checked := true; lr_valid := false; lr_failure := LintFailureNone |} ≫= λ r,
          mret match lr_failure r with
               | LintFailureRevisionMismatch | LintFailureArtifact => r
               | _ =>
                   if TpPolicyOrContextFailure process || negb (TpStarted process) then lint_failed LintFailureSandbox
                   else if negb (TpExitCode process =? 0) || TpErr process then lint_failed LintFailureSyntax
                   else {| lr_checked := true; lr_valid := true; lr_failure := LintFailureNone |}
               end
    end.

(** ** The executors *)

Record MutationOptions := {
  MoFileMutation : option fileMutationPrecondition;
  MoFullMode : bool;
  MoEditPolicy : string;
}.

Inductive MutationFailure :=
| InvalidInput | MutationBlocked (e : MutationError) | DirectoryFailed | ReadFailed | InspectFailed
| EditFailed (e : EditError) | BaselineNotLinted | StagingFailed | LintRefused (failure : LintFailureCode)
| ConcurrentMutation.

Inductive Outcome := Edited (count : Z) | Created (lines size : Z) | Updated (lines size : Z).

Definition const_err {E E'} (e' : E') (_ : E) : E' := e'.

(** The staged content is linted when the old one passed. *)
Definition lint_stage (lint_it : bool) (stage : stagedArtifact) (baselineRevision : string) (absent : bool)
    : IO (result MutationFailure unit) :=
  if negb lint_it then mret (Ok tt)
  else
    lintFileWithOptions (st_temporary stage) (st_revision stage) ≫= λ lintResult,
    if lr_valid lintResult then mret (Ok tt)
    else
      validateExpectedArtifactState (st_target stage) baselineRevision absent ≫= λ state,
      match state with
      | Err _ => read_revision (st_target stage) ≫= λ _, mret (Err ConcurrentMutation)
      | Ok _ => mret (Err (LintRefused (lr_failure lintResult)))
      end.

(** From the lint of the stage to the check after the commit. *)
Definition commit_stage (opts : MutationOptions) (lint_it : bool) (stage : stagedArtifact) (baselineRevision : string)
    (absent : bool) (done : Outcome) : IO (result MutationFailure Outcome) :=
  with_cleanup stage (
    lint_stage lint_it stage baselineRevision absent ≫= λ linted,
    match linted with
    | Err e => mret (Err e, false)
    | Ok _ =>
        validateArtifactPrecondition (st_target stage) (MoFileMutation opts) ≫= λ valid,
        match valid with
        | Err e => mret (Err (MutationBlocked e), false)
        | Ok _ =>
            commit stage baselineRevision absent ≫= λ committed : result MutationError unit * bool,
            match committed.1 with
            | Err e => mret (Err (MutationBlocked e), committed.2)
            | Ok _ =>
                read_revision (st_target stage) ≫= λ current,
                mret (match current with
                      | Ok current => if String.eqb current (st_revision stage) then Ok done else Err ConcurrentMutation
                      | Err _ => Err ConcurrentMutation
                      end, committed.2)
            end
        end
    end).

Definition executeEditV2WithOptions (input workDir : string) (opts : MutationOptions)
    : IO (result MutationFailure Outcome) :=
  match decode_edit m input with
  | None => mret (Err InvalidInput)
  | Some args =>
      try (mutationExecutionPath (EiFilePath args) workDir "Edit" (MoFileMutation opts) (MoFullMode opts))
        MutationBlocked (λ path,
      try (read_file path) (const_err ReadFailed) (λ data,
      try (mret (validateArtifactBytesPrecondition data (MoFileMutation opts))) MutationBlocked (λ _,
      try (stat_regular path) (const_err InspectFailed) (λ info,
      match info with
      | None => mret (Err InspectFailed)
      | Some mode =>
          match applyEditPolicy (regexp_compile m) data args (MoEditPolicy opts) with
          | Err e => mret (Err (EditFailed e))
          | Ok (newContent, count) =>
              let baselineRevision := artifactBytesRevision data in
              lintFileWithOptions path baselineRevision ≫= λ baselineLint,
              if failedInfrastructure baselineLint then mret (Err BaselineNotLinted)
              else
                let preLintOK := lr_valid baselineLint || negb (lr_checked baselineLint) in
                try (stageArtifact path newContent mode) (const_err StagingFailed) (λ stage,
                commit_stage opts preLintOK stage baselineRevision false (Edited count))
          end
      end))))
  end.

(** From the reading of the old content on. *)
Definition write_content (path content : string) (opts : MutationOptions) : IO (result MutationFailure Outcome) :=
  let lines := Z.of_nat (length (split_lines content)) in
  read_file path ≫= λ backup,
  match backup with
  | Ok backup =>
      try (mret (validateArtifactBytesPrecondition backup (MoFileMutation opts))) MutationBlocked (λ _,
      lintFileWithOptions path (artifactBytesRevision backup) ≫= λ baselineLint,
      if failedInfrastructure baselineLint then mret (Err BaselineNotLinted)
      else
        let preLintOK := lr_valid baselineLint || negb (lr_checked baselineLint) in
        try (stat_regular path) (const_err InspectFailed) (λ info,
        match info with
        | None => mret (Err InspectFailed)
        | Some mode =>
            try (stageArtifact path content mode) (const_err StagingFailed) (λ stage,
            commit_stage opts preLintOK stage (artifactBytesRevision backup) false (Updated lines (slen content)))
        end))
  | Err ENOENT =>
      try (validateArtifactPrecondition path (MoFileMutation opts)) MutationBlocked (λ _,
      try (stageArtifact path content 420) (const_err StagingFailed) (λ stage,
      commit_stage opts true stage "" true (Created lines (slen content))))
  | Err _ => mret (Err ReadFailed)
  end.

(** The second look at the path, once its directory exists. *)
Definition recheck_path (file_path workDir path : string) (opts : MutationOptions) : IO (result MutationError unit) :=
  match MoFileMutation opts with
  | None => mret (Ok tt)
  | Some _ =>
      mutationExecutionPath file_path workDir "Write" (MoFileMutation opts) (MoFullMode opts) ≫= λ canonical,
      mret match canonical with
           | Err e => Err e
           | Ok canonical => if String.eqb (clean canonical) (clean path) then Ok tt else Err DirectoryChanged
           end
  end.

Definition executeWriteV2WithOptions (input workDir : string) (opts : MutationOptions)
    : IO (result MutationFailure Outcome) :=
  match decode_write m input with
  | None => mret (Err InvalidInput)
  | Some (file_path, content) =>
      try (mutationExecutionPath file_path workDir "Write" (MoFileMutation opts) (MoFullMode opts))
        MutationBlocked (λ path,
      try (mkdir_all (filepath_dir path)) (const_err DirectoryFailed) (λ _,
      try (recheck_path file_path workDir path opts) MutationBlocked (λ _,
      write_content path content opts)))
  end.

(** ** Rollback *)

Record fileMutationSnapshot := {
  SnPath : string;
  SnExisted : bool;
  SnData : string;
  SnMode : Z;
  SnRevision : string;
}.
Record committedFileMutation := {
  CmResultIndex : nat;
  CmSnapshot : fileMutationSnapshot;
  CmPostRevision : string;
}.

Inductive SnapshotError := SnapshotTargetMissing | SnapshotUnreadable | SnapshotNotRegular.

(** [captureFileMutationSnapshot], from the resolved path on. *)
Definition capture_snapshot (path toolName : string) : IO (result SnapshotError fileMutationSnapshot) :=
  read_file path ≫= λ data,
  match data with
  | Err ENOENT =>
      if String.eqb toolName "Edit" then mret (Err SnapshotTargetMissing)
      else mret (Ok {| SnPath := path; SnExisted := false; SnData := ""; SnMode := 420; SnRevision := "" |})
  | Err _ => mret (Err SnapshotUnreadable)
  | Ok data =>
      try (stat_regular path) (const_err SnapshotUnreadable) (λ info,
      mret match info with
           | None => Err SnapshotNotRegular
           | Some mode => Ok {| SnPath := path; SnExisted := true; SnData := data; SnMode := mode;
                                SnRevision := artifactBytesRevision data |}
           end)
  end.

Definition committedMutationRevision (snapshot : fileMutationSnapshot) : IO (result IoError string) :=
  read_revision (SnPath snapshot).

Inductive RollbackError := RollbackState (e : MutationError) | RollbackIo | RollbackMismatch.

Definition rollbackCommittedFileMutation (mutation : committedFileMutation) : IO (result RollbackError unit) :=
  let snapshot := CmSnapshot mutation in
  try (validateExpectedArtifactState (SnPath snapshot) (CmPostRevision mutation) false) RollbackState (λ _,
  if negb (SnExisted snapshot) then try (remove (SnPath snapshot)) (const_err RollbackIo) (λ _, mret (Ok tt))
  else
    try (stageArtifact (SnPath snapshot) (SnData snapshot) (SnMode snapshot)) (const_err RollbackIo) (λ stage,
    with_cleanup stage (
      commit stage (CmPostRevision mutation) false ≫= λ committed : result MutationError unit * bool,
      match committed.1 with
      | Err e => mret (Err (RollbackState e), committed.2)
      | Ok _ =>
          read_revision (SnPath snapshot) ≫= λ current,
          mret (match current with
                | Ok current => if String.eqb current (SnRevision snapshot) then Ok tt else Err RollbackMismatch
                | Err _ => Err RollbackIo
                end, committed.2)
      end))).

(** [rollbackFileMutationBatch]: the latest mutation first; the answer for each, from
    which its result text and the ledger follow. *)
Fixpoint rollback_each (mutations : list committedFileMutation)
    : IO (list (committedFileMutation * result RollbackError unit)) :=
  match mutations with
  | [] => mret []
  | mutation :: mutations' =>
      rollbackCommittedFileMutation mutation ≫= λ r,
      rollback_each mutations' ≫= λ rs,
      mret ((mutation, r) :: rs)
  end.
Definition rollback_journal (journal : list committedFileMutation)
    : IO (list (committedFileMutation * result RollbackError unit)) := rollback_each (rev journal).
End machine.

(** ** Tokens *)

Inductive TokenOp :=
| TBind (compact : string → option string) (random : option string) (now : time) (input toolName : string)
    (decision : ReadLedgerDecision)
| TUnwrap (now : time) (envelope : fileMutationExecutionEnvelope) (toolName : string)
| TDiscard (token : string).

Definition token_op (op : TokenOp) (pending : Preconditions) : Preconditions :=
  match op with
  | TBind compact random now input toolName decision =>
      (bindFileMutationExecutionInput compact random now input toolName decision pending).1
  | TUnwrap now envelope toolName => (unwrapFileMutationExecutionInput now envelope toolName pending).1
  | TDiscard token => discardFileMutationPrecondition token pending
  end.

(** The operations of a process, the latest first. *)
Definition tokens_after (ops : list TokenOp) : Preconditions := foldr token_op ∅ ops.

(** The operations after which a token is gone. *)
Definition consumes (token : string) (op : TokenOp) : Prop :=
  match op with
  | TUnwrap _ envelope _ => EnToken envelope = token ∧ trim_space token ≠ "" ∧ EnInput envelope ≠ ""
  | TDiscard token' => token' = token ∧ trim_space token ≠ ""
  | TBind _ _ _ _ _ _ => False
  end.

(** What a token stands for. *)
Definition bound_by (token : string) (now : time) (input toolName : string) (decision : ReadLedgerDecision)
    (proof : fileMutationPrecondition) : Prop :=
  RdAllowed decision = true ∧ (toolName = "Write" ∨ toolName = "Edit") ∧
  proof = {| PcToken := token; PcToolName := toolName; PcCanonicalPath := clean (RdPath decision);
             PcExpectedRevision := RdCurrentRevision decision;
             PcExpectAbsent := String.eqb (RdCode decision) ReadLedgerNewFile;
             PcInputDigest := fileMutationInputDigest toolName input;
             PcExpiresAt := time_add now fileMutationProofTTL |}.

Lemma cleanup_lookup now pending token proof :
  cleanupExpiredFileMutationPreconditions now pending !! token = Some proof ↔
  pending !! token = Some proof ∧ time_after (PcExpiresAt proof) now = true.
Proof. unfold cleanupExpiredFileMutationPreconditions. apply map_lookup_filter_Some. Qed.

(** A binding keeps what is pending, drops what has expired, or adds its own token. *)
Lemma bind_lookup compact random now input toolName decision pending token proof :
  (bindFileMutationExecutionInput compact random now input toolName decision pending).1 !! token = Some proof →
  pending !! token = Some proof ∨ random = Some token ∧ bound_by token now input toolName decision proof.
Proof.
  unfold bindFileMutationExecutionInput, bound_by.
  destruct (RdAllowed decision); cbn [negb orb]; [|by left].
  destruct (String.eqb (trim_space (RdPath decision)) ""); [by left|].
  destruct (negb _ && negb _); [by left|].
  destruct (String.eqb_spec toolName "Write") as [Hw|Hw]; destruct (String.eqb_spec toolName "Edit") as [He|He];
    cbn [negb andb]; [congruence| | |by left].
  all: repeat case_match; cbn [fst]; try (by left); try (intros [? _]%cleanup_lookup; by left).
  all: intros Hl; try (apply lookup_delete_Some in Hl as [? Hl]);
    apply lookup_insert_Some in Hl as [[-> <-]|[_ [? _]%cleanup_lookup]]; [right|by left]; auto.
Qed.

Lemma unwrap_lookup now envelope toolName pending token proof :
  (unwrapFileMutationExecutionInput now envelope toolName pending).1 !! token = Some proof →
  pending !! token = Some proof ∧ ¬ consumes token (TUnwrap now envelope toolName).
Proof.
  unfold unwrapFileMutationExecutionInput. cbn [consumes].
  destruct (String.eqb_spec (trim_space (EnToken envelope)) "") as [He|]; cbn [orb].
  { cbn [fst]. intros H. split; [done|]. intros (<- & Hne & _). congruence. }
  destruct (String.eqb_spec (EnInput envelope) ""); cbn [fst]; [intros H; split; [done|]; by intros (_ & _ & ?)|].
  destruct (pending !! EnToken envelope) as [p|] eqn:Hp; cbn [fst].
  - assert (Hd : ∀ q, delete (EnToken envelope) pending !! token = Some q →
      pending !! token = Some q ∧ ¬ (EnToken envelope = token ∧ trim_space token ≠ "" ∧ EnInput envelope ≠ "")).
    { intros q [Hne Hq]%lookup_delete_Some. split; [done|]. by intros (? & _). }
    repeat case_match; cbn [fst]; apply Hd.
  - intros H. split; [done|]. intros (<- & _). congruence.
Qed.

Lemma discard_lookup token' pending token (proof : fileMutationPrecondition) :
  discardFileMutationPrecondition token' pending !! token = Some proof →
  pending !! token = Some proof ∧ ¬ consumes token (TDiscard token').
Proof.
  unfold discardFileMutationPrecondition. cbn [consumes].
  destruct (String.eqb_spec (trim_space token') ""); cbn [negb].
  - intros H. split; [done|]. by intros [-> ?].
  - intros [Hne H]%lookup_delete_Some. split; [done|]. by intros [? _].
Qed.

Lemma pending_bound ops token proof :
  tokens_after ops !! token = Some proof →
  ∃ later compact now input toolName decision earlier,
    ops = later ++ TBind compact (Some token) now input toolName decision :: earlier ∧
    bound_by token now input toolName decision proof ∧ Forall (λ op, ¬ consumes token op) later.
Proof.
  induction ops as [|op ops IH].
  { intros H. exfalso. exact (lookup_empty_Some token proof H). }
  change (tokens_after (op :: ops)) with (token_op op (tokens_after ops)). intros H.
  assert (Hold : tokens_after ops !! token = Some proof → ¬ consumes token op →
    ∃ later compact now input toolName decision earlier,
      op :: ops = later ++ TBind compact (Some token) now input toolName decision :: earlier ∧
      bound_by token now input toolName decision proof ∧ Forall (λ op, ¬ consumes token op) later).
  { intros (later & c & n & i & t & d & e & -> & Hb & Hf)%IH Hn. exists (op :: later), c, n, i, t, d, e. auto. }
  destruct op as [c r n i t d|n e t|tok]; cbn [token_op] in H.
  - apply bind_lookup in H as [H|[-> Hb]]; [by apply Hold; [|intros []]|].
    exists [], c, n, i, t, d, ops. auto.
  - apply unwrap_lookup in H as [??]. by apply Hold.
  - apply discard_lookup in H as [??]. by apply Hold.
Qed.

(** A token works once, for what it was bound to.  When the executor accepts an
    envelope, its token was bound by a decision that allowed this tool to mutate this path
    at this revision, with an input of the same digest, less than a minute before, and no
    operation since has used or discarded the token. *)
Theorem mutation_token_sound ops now envelope toolName input proof :
  (unwrapFileMutationExecutionInput now envelope toolName (tokens_after ops)).2 = Ok (input, proof) →
  ∃ later compact bound_at bound_input decision earlier,
    ops = later ++ TBind compact (Some (EnToken envelope)) bound_at bound_input toolName decision :: earlier ∧
    RdAllowed decision = true ∧ PcToolName proof = toolName ∧
    PcCanonicalPath proof = clean (RdPath decision) ∧ PcExpectedRevision proof = RdCurrentRevision decision ∧
    (PcExpectAbsent proof = true ↔ RdCode decision = ReadLedgerNewFile) ∧
    fileMutationInputDigest toolName bound_input = fileMutationInputDigest toolName input ∧
    now < bound_at + fileMutationProofTTL ∧
    Forall (λ op, ¬ consumes (EnToken envelope) op) later ∧
    consumes (EnToken envelope) (TUnwrap now envelope toolName).
Proof.
  unfold unwrapFileMutationExecutionInput.
  destruct (String.eqb_spec (trim_space (EnToken envelope)) ""); cbn [orb]; [done|].
  destruct (String.eqb_spec (EnInput envelope) ""); [done|].
  destruct (tokens_after ops !! EnToken envelope) as [p|] eqn:Hp; [|done].
  destruct (time_after (PcExpiresAt p) now) eqn:Ht; cbn [negb]; [|done].
  destruct (String.eqb_spec (PcToken p) (EnToken envelope)); cbn [negb orb]; [|done].
  destruct (String.eqb_spec (PcToolName p) toolName) as [Htn|]; cbn [negb orb]; [|done].
  destruct (String.eqb_spec (PcInputDigest p) (fileMutationInputDigest toolName (EnInput envelope))) as [Hd|];
    cbn [negb]; [|done].
  intros [= <- <-].
  destruct (pending_bound _ _ _ Hp) as (later & c & n' & i & t & d & earlier & -> & (Ha & _ & Hproof) & Hf).
  rewrite Hproof in *. cbn [PcToolName PcInputDigest PcExpiresAt PcExpectAbsent PcCanonicalPath PcExpectedRevision] in *.
  subst t. exists later, c, n', i, d, earlier. unfold time_after, time_add in Ht. apply Z.ltb_lt in Ht.
  split_and!; try done; apply String.eqb_eq.
Qed.

(** ** Under interference *)

Section interference.
Context (m : Machine) (target : string).

(** The temporary files an executor for this target may create. *)
Definition temp (t : nat) : string := temp_path target (random_name m t).

(** What a system call of ours may do, given the calls before it. *)
Context (allowed : list (Files * Files) → Files * Files → Prop).

Definition guaranteed (w w' : World) : Prop :=
  ∃ calls, history w' = history w ++ calls ∧
    ∀ before call after, calls = before ++ call :: after → allowed (history w ++ before) call.

#[global] Instance guaranteed_po : PreOrder guaranteed.
Proof.
  split.
  - intros w. exists []. rewrite app_nil_r. split; [done|]. by intros [] ?? ?.
  - intros w1 w2 w3 (c1 & H1 & G1) (c2 & H2 & G2). exists (c1 ++ c2). split; [by rewrite H2, H1, app_assoc|].
    intros before call after Hs. apply app_eq_inv in Hs as [(l & -> & Hl)|(l & -> & Hl)].
    + destruct l as [|x l].
      * cbn in Hl. rewrite app_nil_r in H1. symmetry in Hl. specialize (G2 [] call after Hl).
        by rewrite app_nil_r, H1 in G2.
      * injection Hl as -> ->. by apply (G1 _ _ l).
    + rewrite app_assoc, <-H1. by eapply G2.
Qed.

(** A computation that starts where [P] holds makes allowed calls only and ends where
    [Q] holds of its answer. *)
Definition triple {A} (P : World → Prop) (c : IO A) (Q : A → World → Prop) : Prop :=
  ∀ w, P w → guaranteed w (c w).1 ∧ Q (c w).2 (c w).1.

Lemma t_ret {A} (P : World → Prop) (a : A) Q : (∀ w, P w → Q a w) → triple P (mret a) Q.
Proof. intros H w Hp. split; [reflexivity|by apply H]. Qed.

Lemma t_bind {A B} (P : World → Prop) (c : IO A) (f : A → IO B) R Q :
  triple P c R → (∀ a, triple (R a) (f a) Q) → triple P (c ≫= f) Q.
Proof.
  intros Hc Hf w Hp. destruct (Hc w Hp) as [Hg Hr]. unfold mbind, IO_bind. destruct (c w) as [w1 a].
  destruct (Hf a w1 Hr) as [Hg' Hq]. split; [by transitivity w1|done].
Qed.

Lemma t_conseq {A} (P P' : World → Prop) (c : IO A) (Q Q' : A → World → Prop) :
  triple P' c Q' → (∀ w, P w → P' w) → (∀ a w, Q' a w → Q a w) → triple P c Q.
Proof. intros Hc H1 H2 w Hp. destruct (Hc w (H1 w Hp)) as [? Hq]. auto. Qed.

Lemma t_try {E E' A B} (P : World → Prop) (c : IO (result E A)) (err : E → E') (k : A → IO (result E' B)) R Q :
  triple P c R → (∀ a, triple (R (Ok a)) (k a) Q) → (∀ e w, R (Err e) w → Q (Err (err e)) w) →
  triple P (try c err k) Q.
Proof. intros Hc Hk He. eapply t_bind; [exact Hc|]. intros [a|e]; [apply Hk|]. apply t_ret, He. Qed.

Lemma t_pure {A} (P : World → Prop) (f : World → A) (Q : A → World → Prop) :
  (∀ w, P w → Q (f w) w) → triple P (λ w, (w, f w)) Q.
Proof. intros H w Hp. split; [reflexivity|by apply H]. Qed.

Lemma t_known {A} (P : World → Prop) (φ : Prop) (c : IO A) Q : (φ → triple P c Q) → triple (λ w, P w ∧ φ) c Q.
Proof. intros H w [Hp Hf]. by apply H. Qed.

Lemma t_exists {A X} (P : X → World → Prop) (c : IO A) Q : (∀ x, triple (P x) c Q) → triple (λ w, ∃ x, P x w) c Q.
Proof. intros H w [x Hp]. by apply (H x). Qed.

(** Assertions about the files that the others leave alone. *)
Definition stable (K : Files → Prop) : Prop :=
  ∀ fs fs', (∀ t, node fs' (temp t) = node fs (temp t)) → K fs → K fs'.
Definition holds (K : Files → Prop) (w : World) : Prop := K (files w).

Context (Hothers : ∀ i fs t, node (others m i fs) (temp t) = node fs (temp t)).

Lemma t_syscall {A} K (f : Files → result IoError (Files * A)) (Q : result IoError A → World → Prop) :
  stable K →
  (∀ h fs, K fs → allowed h (fs, fs) → ∀ e, Q (Err e) {| files := fs; history := h ++ [(fs, fs)] |}) →
  (∀ h fs fs' a, K fs → f fs = Ok (fs', a) →
     allowed h (fs, fs') ∧ Q (Ok a) {| files := fs'; history := h ++ [(fs, fs')] |}) →
  (∀ h fs, allowed h (fs, fs)) →
  triple (holds K) (syscall m f) Q.
Proof.
  intros Hs Herr Hok Hid w Hp. unfold syscall. set (fs := others m (tick w) (files w)).
  assert (HK : K fs) by (eapply Hs; [|exact Hp]; intros t; apply Hothers).
  assert (Hg : ∀ fs', allowed (history w) (fs, fs') →
    guaranteed w {| files := fs'; history := history w ++ [(fs, fs')] |}).
  { intros fs' Ha. exists [(fs, fs')]. split; [done|]. intros [|x before] call after Heq.
    - injection Heq as <- <-. by rewrite app_nil_r.
    - injection Heq as _ Heq. by destruct before. }
  destruct (io_error m (tick w)); [cbn; split; [by apply Hg|by apply Herr]|].
  destruct (f fs) as [[fs' a]|e] eqn:Hf; cbn; [|split; [by apply Hg|by apply Herr]].
  destruct (Hok (history w) fs fs' a HK Hf) as [Ha Hq]. split; [by apply Hg|done].
Qed.

Context (Hid : ∀ h fs, allowed h (fs, fs)).

Definition reads_only {A} (f : Files → result IoError (Files * A)) : Prop := ∀ fs fs' a, f fs = Ok (fs', a) → fs' = fs.

(** The state a call saw, when it succeeds. *)
Lemma t_read {A} K (f : Files → result IoError (Files * A)) :
  stable K → reads_only f →
  triple (holds K) (syscall m f)
    (λ r w, K (files w) ∧ list.last (history w) = Some (files w, files w) ∧
            match r with Ok a => f (files w) = Ok (files w, a) | Err _ => True end).
Proof.
  intros Hs Hr. apply t_syscall; [done| | |done].
  - intros h fs HK _ e. cbn [files history]. by rewrite list.last_snoc.
  - intros h fs fs' a HK Hf. pose proof (Hr _ _ _ Hf) as ->. cbn [files history]. by rewrite list.last_snoc.
Qed.
End interference.

(** *** What an authorised mutation may do *)

Section mutation.
Context (m : Machine) (target expected : string) (absent : bool) (content : string → Prop).

(** Nothing is at the target, or, unless it had to be absent, the call before saw the
    expected revision there. *)
Definition justified (before : list (Files * Files)) (fs : Files) : Prop :=
  node fs target = NotExist ∨
  absent = false ∧
  ∃ seen : Files * Files, list.last before = Some seen ∧ readLedgerFileRevision seen.2 target = Ok expected.

(** A call of ours changes a temporary file, or makes a directory, or puts new content at
    the target, and is justified then. *)
Definition mutation_call (before : list (Files * Files)) (call : Files * Files) : Prop :=
  ∀ p, node call.1 p ≠ node call.2 p →
    (∃ t, p = temp m target t) ∨
    (node call.1 p = NotExist ∧ node call.2 p = OtherNode) ∨
    (p = target ∧ (∃ f, node call.2 p = Regular f ∧ content (f_data f)) ∧ justified before call.1).

Context (Hothers : ∀ i fs t, node (others m i fs) (temp m target t) = node fs (temp m target t)).
Context (Hne : ∀ t, temp m target t ≠ target).

Abbreviation hoare := (triple mutation_call).
Abbreviation always := (λ _ : Files, True).

Lemma mutation_call_id h fs : mutation_call h (fs, fs).
Proof. intros p H. by destruct H. Qed.

Lemma stable_always : stable m target always.
Proof. by intros ????. Qed.

Lemma node_insert fs p n q : node (<[p := n]> fs) q = if decide (p = q) then n else node fs q.
Proof. unfold node, Files in *. rewrite lookup_insert. by case_decide. Qed.
Lemma node_delete fs p q : node (delete p fs) q = if decide (p = q) then NotExist else node fs q.
Proof. unfold node, Files in *. rewrite lookup_delete. by case_decide. Qed.

Lemma h_read {A} K (f : Files → result IoError (Files * A)) :
  stable m target K → reads_only f →
  hoare (holds K) (syscall m f)
    (λ r w, K (files w) ∧ list.last (history w) = Some (files w, files w) ∧
            match r with Ok a => f (files w) = Ok (files w, a) | Err _ => True end).
Proof. intros. eapply t_read; [exact Hothers|exact mutation_call_id|done..]. Qed.

Lemma h_keep {A} K (f : Files → result IoError (Files * A)) :
  stable m target K → reads_only f → hoare (holds K) (syscall m f) (λ _, holds K).
Proof. intros Hs Hr. eapply t_conseq; [by apply h_read|done|]. by intros a w [HK _]. Qed.

Ltac reads := intros fs fs' a H; repeat case_match; simplify_eq; done.
Lemma read_file_reads p : reads_only (λ fs, match node fs p with
  NotExist => Err ENOENT | OtherNode => Err EISDIR | Regular f => Ok (fs, f_data f) end).
Proof. reads. Qed.
Lemma stat_regular_reads p : reads_only (λ fs, match node fs p with
  NotExist => Err ENOENT | OtherNode => Ok (fs, None) | Regular f => Ok (fs, Some (f_mode f)) end).
Proof. reads. Qed.
Lemma lstat_reads p : reads_only (λ fs, match node fs p with NotExist => Err ENOENT | _ => Ok (fs, tt) end).
Proof. reads. Qed.
Lemma read_revision_reads p : reads_only (λ fs, match readLedgerFileRevision fs p with
  Ok revision => Ok (fs, revision) | Err RevNotExist => Err ENOENT | Err RevUnavailable => Err EISDIR end).
Proof. reads. Qed.

Lemma h_read_revision K p : stable m target K → hoare (holds K) (read_revision m p) (λ _, holds K).
Proof. intros. apply h_keep; [done|apply read_revision_reads]. Qed.

(** The state of the target when a check has passed. *)
Lemma h_expect_revision K p revision :
  stable m target K →
  hoare (holds K) (expect_revision m p revision)
    (λ r w, K (files w) ∧ (r = Ok tt → list.last (history w) = Some (files w, files w) ∧
                                        readLedgerFileRevision (files w) p = Ok revision)).
Proof.
  intros Hs. unfold expect_revision, read_revision. eapply t_bind; [apply h_read; [done|apply read_revision_reads]|].
  intros [current|e]; apply t_ret; intros w (HK & Hl & Hr); (split; [done|]); [|done].
  destruct (String.eqb_spec current revision) as [<-|]; [|done]. intros _. split; [done|].
  destruct (readLedgerFileRevision (files w) p) as [c|[]]; congruence.
Qed.

Lemma h_expect_absent K p :
  stable m target K → hoare (holds K) (expect_absent m p) (λ _, holds K).
Proof.
  intros Hs. unfold expect_absent, lstat. eapply t_bind; [apply h_keep; [done|apply lstat_reads]|].
  intros r. by apply t_ret.
Qed.

Lemma h_state K p revision ab :
  stable m target K → hoare (holds K) (validateExpectedArtifactState m p revision ab) (λ _, holds K).
Proof.
  intros Hs. unfold validateExpectedArtifactState. destruct ab; [by apply h_expect_absent|].
  eapply t_conseq; [by apply h_expect_revision|done|]. by intros a w [? _].
Qed.

Lemma h_precondition K p proof :
  stable m target K → hoare (holds K) (validateArtifactPrecondition m p proof) (λ _, holds K).
Proof. intros Hs. destruct proof; [by apply h_state|by apply t_ret]. Qed.

Lemma h_lint K p revision :
  stable m target K → hoare (holds K) (lintFileWithOptions m p revision) (λ _, holds K).
Proof.
  intros Hs. unfold lintFileWithOptions. destruct (negb _); [by apply t_ret|].
  assert (Hverify : ∀ res, hoare (holds K) (verifyLintArtifactUnchanged m p revision res) (λ _, holds K)).
  { intros res. unfold verifyLintArtifactUnchanged. eapply t_bind; [by apply h_read_revision|].
    intros r. by apply t_ret. }
  eapply t_bind; [by apply h_read_revision|]. intros [before|]; [|by apply t_ret].
  destruct (negb _); [by apply t_ret|]. destruct (String.eqb _ _).
  - eapply t_bind; [apply h_keep; [done|apply read_file_reads]|]. intros [data|]; [apply Hverify|by apply t_ret].
  - eapply t_bind; [by apply (t_pure _ _ _ (λ _, holds K))|]. intros process.
    eapply t_bind; [apply Hverify|]. intros r. by apply t_ret.
Qed.

(** *** Staging *)

Definition only_at {A} (p : string) (f : Files → result IoError (Files * A)) : Prop :=
  ∀ fs fs' a, f fs = Ok (fs', a) → ∀ q, q ≠ p → node fs' q = node fs q.
Definition staged (tp data : string) (fs : Files) : Prop := ∃ f, node fs tp = Regular f ∧ f_data f = data.

Lemma stable_staged t data : stable m target (staged (temp m target t) data).
Proof. intros fs fs' H (f & Hf & Hd). exists f. by rewrite H. Qed.

Lemma h_temp {A} K t (f : Files → result IoError (Files * A)) (Q : result IoError A → Files → Prop) :
  stable m target K → only_at (temp m target t) f →
  (∀ fs e, K fs → Q (Err e) fs) → (∀ fs fs' a, K fs → f fs = Ok (fs', a) → Q (Ok a) fs') →
  hoare (holds K) (syscall m f) (λ r, holds (Q r)).
Proof.
  intros Hs Ho He Hk. apply (t_syscall m target); [exact Hothers|done| | |apply mutation_call_id].
  - intros h fs HK _ e. by apply He.
  - intros h fs fs' a HK Hf. split; [|by eapply Hk]. intros p Hp. cbn [fst snd] in Hp. left. exists t.
    destruct (decide (p = temp m target t)) as [|Hn]; [done|]. by rewrite (Ho _ _ _ Hf p Hn) in Hp.
Qed.

Lemma remove_only p : only_at p (λ fs, match node fs p with
  NotExist => Err ENOENT | OtherNode => Err EISDIR | Regular _ => Ok (delete p fs, tt) end).
Proof. intros fs fs' a H q Hq. repeat case_match; simplify_eq. rewrite node_delete. by case_decide. Qed.
Lemma create_only p : only_at p (λ fs, match node fs p with
  NotExist => Ok (<[p := Regular {| f_data := ""; f_mode := 384 |}]> fs, tt) | _ => Err EEXIST end).
Proof. intros fs fs' a H q Hq. repeat case_match; simplify_eq. rewrite node_insert. by case_decide. Qed.
Lemma on_open_only p change : only_at p (λ fs, match node fs p with
  Regular f => Ok (<[p := Regular (change f)]> fs, tt) | _ => Err ENOENT end).
Proof. intros fs fs' a H q Hq. repeat case_match; simplify_eq. rewrite node_insert. by case_decide. Qed.

Lemma h_remove_temp K t :
  stable m target K → hoare (holds K) (remove m (temp m target t)) (λ _, holds always).
Proof. intros Hs. apply (h_temp K t _ (λ _, always)); [done|apply remove_only|done|done]. Qed.

Lemma h_or_cleanup {A} K R t c (k : IO (result IoError A)) (Q : result IoError A → World → Prop) :
  stable m target K → stable m target R →
  hoare (holds K) c (λ r w, match r with Ok _ => holds R w | Err _ => holds K w end) →
  hoare (holds R) k Q → (∀ e w, Q (Err e) w) →
  hoare (holds K) (or_cleanup m (temp m target t) c k) Q.
Proof.
  intros H1 H2 Hc Hk He. eapply t_bind; [exact Hc|]. intros [a|e]; [exact Hk|].
  eapply t_bind; [by apply h_remove_temp|]. intros r. apply t_ret. auto.
Qed.

Lemma h_on_open K R t change :
  stable m target K → stable m target R →
  (∀ fs f, K fs → node fs (temp m target t) = Regular f → R (<[temp m target t := Regular (change f)]> fs)) →
  hoare (holds K) (on_open m (temp m target t) change)
    (λ r w, match r with Ok _ => holds R w | Err _ => holds K w end).
Proof.
  intros H1 H2 Hk. eapply t_conseq; [apply (h_temp K t _ (λ r, match r with Ok _ => R | Err _ => K end) H1)| done|].
  - apply on_open_only.
  - done.
  - intros fs fs' a HK H. destruct (node fs (temp m target t)) eqn:Hn; simplify_eq. by apply Hk.
  - by intros [].
Qed.

Lemma h_stage data mode :
  hoare (holds always) (stageArtifact m target data mode)
    (λ r w, match r with
            | Ok s => st_target s = target ∧ st_revision s = artifactBytesRevision data ∧
                      ∃ t, st_temporary s = temp m target t ∧ staged (temp m target t) data (files w)
            | Err _ => True
            end).
Proof.
  intros w _. unfold stageArtifact. set (t := tick w). fold (temp m target t).
  assert (Hkeep : ∀ fs f, staged (temp m target t) data fs → node fs (temp m target t) = Regular f →
    staged (temp m target t) data (<[temp m target t := Regular (id f)]> fs)).
  { intros fs f (f' & Hf' & Hd) Hf. exists f. rewrite node_insert, decide_True by done. split; [done|congruence]. }
  pose proof (stable_staged t data) as Hst. pose proof stable_always as Hsa.
  assert (Htriple : hoare (holds always)
    (try (create m (temp m target t)) id (λ _,
      or_cleanup m (temp m target t) (on_open m (temp m target t) (set_mode (staged_mode mode))) (
      or_cleanup m (temp m target t) (on_open m (temp m target t) (set_data data)) (
      or_cleanup m (temp m target t) (on_open m (temp m target t) id) (
      or_cleanup m (temp m target t) (on_open m (temp m target t) id) (
      mret (Ok {| st_target := target; st_temporary := temp m target t;
                  st_revision := artifactBytesRevision data |})))))))
    (λ r w, match r with
            | Ok s => st_target s = target ∧ st_revision s = artifactBytesRevision data ∧
                      ∃ t, st_temporary s = temp m target t ∧ staged (temp m target t) data (files w)
            | Err _ => True
            end)); [|exact (Htriple w I)].
  eapply t_try; [apply (h_temp always t _ (λ _, always)); [done|apply create_only|done|done]| |done].
  intros u. eapply (h_or_cleanup always always); [done|done|by apply h_on_open| |done].
  eapply (h_or_cleanup always (staged (temp m target t) data)); [done|done| | |done].
  { apply h_on_open; [done|done|]. intros fs f _ _. exists (set_data data f).
    split; [|done]. by rewrite node_insert, decide_True. }
  do 2 (eapply (h_or_cleanup (staged (temp m target t) data) (staged (temp m target t) data)); [done|done|by apply h_on_open| |done]).
  apply t_ret. intros w' Hw. split; [done|]. split; [done|]. by exists t.
Qed.

(** *** Committing *)

(** A stage of content that may be put at the target. *)
Definition staged_ok (s : stagedArtifact) (fs : Files) : Prop :=
  st_target s = target ∧ ∃ t data, st_temporary s = temp m target t ∧ content data ∧
    staged (temp m target t) data fs.

Lemma stable_staged_ok s : stable m target (staged_ok s).
Proof.
  intros fs fs' H (Ht & t & data & Hs & Hc & Hst). split; [done|]. exists t, data. split; [done|]. split; [done|].
  by eapply stable_staged.
Qed.

Lemma h_commit s base ab :
  (ab = false → absent = false ∧ base = expected) →
  hoare (holds (staged_ok s)) (commit m s base ab) (λ _, holds always).
Proof.
  intros Hbase. unfold commit.
  assert (Hpub : ∀ h fs fs' t f, node fs (temp m target t) = Regular f → content (f_data f) →
    (∀ p, p ≠ temp m target t → p ≠ target → node fs' p = node fs p) → node fs' target = Regular f →
    justified h fs → mutation_call h (fs, fs')).
  { intros h fs fs' t f Hf Hc Hrest Hfs' Hwhy p Hp. cbn [fst snd] in *.
    destruct (decide (p = temp m target t)) as [|H1]; [left; by exists t|].
    destruct (decide (p = target)) as [->|H2]; [|by rewrite Hrest in Hp]. right; right. split; [done|].
    split; [by exists f|done]. }
  destruct ab.
  - eapply t_bind; [apply h_expect_absent, stable_staged_ok|]. intros [[]|e]; [|by apply t_ret].
    eapply t_bind; [|intros [[]|e]; [|by apply t_ret]].
    + apply (t_syscall m target _ Hothers (staged_ok s) _ (λ r w, ∃ t, st_temporary s = temp m target t));
        [apply stable_staged_ok| | |apply mutation_call_id].
      * intros h fs (_ & t & _ & H & _) _ e. by exists t.
      * intros h fs fs' [] (Ht & t & data & Htp & Hc & f & Hf & <-) H. split; [|by exists t].
        rewrite Ht, Htp, Hf in H. destruct (node fs target) eqn:Hn; simplify_eq.
        eapply Hpub; [exact Hf|done| | |by left].
        -- intros p _ H2. by rewrite node_insert, decide_False.
        -- by rewrite node_insert, decide_True.
    + apply (t_bind _ _ _ _ (λ _, holds always)); [|intros r; by apply t_ret]. intros w (t & ->).
      by apply (h_remove_temp always t stable_always w).
  - destruct (Hbase eq_refl) as [Hab ->].
    eapply t_bind; [apply h_expect_revision, stable_staged_ok|]. intros [[]|e]; [|by apply t_ret].
    apply (t_bind _ _ _ _ (λ _, holds always)); [|intros [[]|e]; by apply t_ret]. unfold rename, syscall. intros w [HK Hchk].
    destruct (Hchk eq_refl) as [Hlast Hrev]. clear Hchk. set (fs := others m (tick w) (files w)).
    assert (Hfs : staged_ok s fs) by (eapply stable_staged_ok; [|exact HK]; intros t; apply Hothers).
    clearbody fs. destruct Hfs as (Ht & t & data & Htp & Hc & f & Hf & <-). rewrite Ht in *. cbn [fst snd].
    split; [|done]. eexists [(fs, _)]. split; [done|]. intros [|? before] call after Heq;
      [|injection Heq as _ Heq; by destruct before].
    injection Heq as <- <-. rewrite app_nil_r. rewrite Htp, Hf.
    destruct (io_error m (tick w)); [apply mutation_call_id|]. destruct (node fs target) eqn:Hn; try apply mutation_call_id.
    all: eapply (Hpub _ _ _ t f Hf Hc).
    all: try (intros p H1 H2; rewrite node_insert, decide_False, node_delete, decide_False by congruence; done).
    all: try (by rewrite node_insert, decide_True).
    all: right; split; [done|]; exists (files w, files w); split; [done|]; exact Hrev.
Qed.

Lemma h_with_cleanup {A} s (c : IO (A * bool)) (P : World → Prop) :
  (∀ w, P w → ∃ t, st_temporary s = temp m target t) →
  hoare P c (λ _, holds always) → hoare P (with_cleanup m s c) (λ _, holds always).
Proof.
  intros Ht Hc w Hp. destruct (Ht w Hp) as [t Hs].
  assert (H : hoare P (with_cleanup m s c) (λ _, holds always)); [|by apply H]. eapply t_bind; [exact Hc|].
  intros [a []]; [by apply t_ret|]. rewrite Hs. eapply t_bind; [apply h_remove_temp, stable_always|]. intros r. by apply t_ret.
Qed.

Lemma h_lint_stage s lint_it base ab :
  hoare (holds (staged_ok s)) (lint_stage m lint_it s base ab) (λ _, holds (staged_ok s)).
Proof.
  pose proof (stable_staged_ok s) as Hs. unfold lint_stage. destruct (negb lint_it); [by apply t_ret|].
  eapply t_bind; [by apply h_lint|]. intros r. destruct (lr_valid r); [by apply t_ret|].
  eapply t_bind; [by apply h_state|]. intros [[]|e]; [by apply t_ret|].
  eapply t_bind; [by apply h_read_revision|]. intros ?. by apply t_ret.
Qed.

Lemma h_commit_stage opts lint_it s base ab done_ :
  (ab = false → absent = false ∧ base = expected) →
  hoare (holds (staged_ok s)) (commit_stage m opts lint_it s base ab done_) (λ _, holds always).
Proof.
  intros Hbase. pose proof (stable_staged_ok s) as Hs. unfold commit_stage.
  apply h_with_cleanup; [by intros w (_ & t & _ & H & _); exists t|].
  eapply t_bind; [apply h_lint_stage|]. intros [[]|e]; [|by apply t_ret].
  eapply t_bind; [by apply h_precondition|]. intros [[]|e]; [|by apply t_ret].
  eapply t_bind; [by apply h_commit|]. intros [[[]|e] b]; [|by apply t_ret].
  eapply t_bind; [apply h_read_revision, stable_always|]. intros r. by apply t_ret.
Qed.

(** Stage the data and go on with the stage. *)
Lemma h_stage_commit data mode (k : stagedArtifact → IO (result MutationFailure Outcome)) :
  content data →
  (∀ s, hoare (holds (staged_ok s)) (k s) (λ _, holds always)) →
  hoare (holds always) (try (stageArtifact m target data mode) (const_err StagingFailed) k) (λ _, holds always).
Proof.
  intros Hc Hk. eapply t_try; [apply h_stage| |done]. intros s. eapply t_conseq; [apply Hk| |done].
  intros w (H1 & H2 & t & H3 & H4). split; [done|]. by exists t, data.
Qed.

Lemma h_mkdir p : hoare (holds always) (mkdir m p) (λ _, holds always).
Proof.
  apply (t_syscall m target _ Hothers always); [apply stable_always|done| |apply mutation_call_id].
  intros h fs fs' a _ H. split; [|done]. destruct (node fs p) eqn:Hn; simplify_eq; [|apply mutation_call_id].
  intros q Hq. cbn [fst snd] in *. right; left. rewrite node_insert in *. case_decide; [by subst|done].
Qed.

Lemma h_mkdir_all dir : hoare (holds always) (mkdir_all m dir) (λ _, holds always).
Proof.
  unfold mkdir_all. induction (dir_chain dir) as [|p ps IH]; [by apply t_ret|].
  eapply t_try; [apply h_mkdir|by intros a|done].
Qed.

(** The executors, for a target they resolve to. *)
Context (proof : fileMutationPrecondition) (Htarget : target = clean (PcCanonicalPath proof)).
Context (Hexpected : expected = PcExpectedRevision proof) (Habsent : absent = PcExpectAbsent proof).

Lemma h_path rawPath workDir toolName full_mode :
  hoare (holds always) (mutationExecutionPath m rawPath workDir toolName (Some proof) full_mode)
    (λ r w, holds always w ∧ (∀ path, r = Ok path → path = target)).
Proof.
  apply t_pure. intros w _. split; [done|]. rewrite Htarget. intros path. cbv zeta. repeat case_match; intros; simplify_eq; done.
Qed.

Lemma h_bytes data :
  hoare (holds always) (mret (validateArtifactBytesPrecondition data (Some proof)))
    (λ r w, holds always w ∧ (∀ u, r = Ok u → absent = false ∧ artifactBytesRevision data = expected)).
Proof.
  apply t_ret. intros w _. split; [done|]. intros u. unfold validateArtifactBytesPrecondition.
  rewrite <-Habsent, <-Hexpected. destruct absent; [done|].
  by destruct (String.eqb_spec (artifactBytesRevision data) expected).
Qed.

Lemma h_edit input workDir opts :
  MoFileMutation opts = Some proof →
  (∀ args old new n, decode_edit m input = Some args → artifactBytesRevision old = expected →
     applyEditPolicy (regexp_compile m) old args (MoEditPolicy opts) = Ok (new, n) → content new) →
  hoare (holds always) (executeEditV2WithOptions m input workDir opts) (λ _, holds always).
Proof.
  intros Hopts Hc. unfold executeEditV2WithOptions. destruct (decode_edit m input) as [args|]; [|by apply t_ret].
  rewrite Hopts. pose proof stable_always as Hs.
  eapply t_try; [apply h_path| |done]. intros path. apply t_known. intros Hpath. rewrite (Hpath path eq_refl).
  eapply t_try; [apply h_keep; [done|apply read_file_reads]| |done]. intros data.
  eapply t_try; [apply h_bytes| |done]. intros u. apply t_known. intros Hu. destruct (Hu u eq_refl) as [Hab Hrev].
  eapply t_try; [apply h_keep; [done|apply stat_regular_reads]| |done]. intros [mode|]; [|by apply t_ret].
  destruct (applyEditPolicy _ _ _ _) as [[new n]|] eqn:He; [|by apply t_ret].
  eapply t_bind; [by apply h_lint|]. intros lint. destruct (failedInfrastructure lint); [by apply t_ret|].
  apply h_stage_commit; [by eapply Hc|]. intros s. apply h_commit_stage. by intros _.
Qed.

Lemma h_recheck rawPath workDir path opts :
  MoFileMutation opts = Some proof →
  hoare (holds always) (recheck_path m rawPath workDir path opts) (λ _, holds always).
Proof.
  intros Hopts. unfold recheck_path. rewrite Hopts.
  apply (t_bind _ _ _ _ (λ _, holds always)); [eapply t_conseq; [apply h_path|done|by intros ?? []]|].
  intros r. by apply (t_ret _ _ _ (λ _, holds always)).
Qed.

Lemma h_write input workDir opts :
  MoFileMutation opts = Some proof →
  (∀ file_path new, decode_write m input = Some (file_path, new) → content new) →
  hoare (holds always) (executeWriteV2WithOptions m input workDir opts) (λ _, holds always).
Proof.
  intros Hopts Hc. unfold executeWriteV2WithOptions. destruct (decode_write m input) as [[fp new]|]; [|by apply t_ret].
  pose proof stable_always as Hs. specialize (Hc fp new eq_refl).
  eapply t_try; [rewrite Hopts; apply h_path| |done]. intros path. apply t_known. intros Hpath. rewrite (Hpath path eq_refl).
  eapply t_try; [apply h_mkdir_all| |done]. intros u.
  eapply t_try; [by apply h_recheck|intros u'|done]. unfold write_content. rewrite Hopts.
  eapply t_bind; [apply h_keep; [done|apply read_file_reads]|]. intros [backup|[]]; [| |by apply t_ret..].
  - eapply t_try; [apply h_bytes| |done]. intros v. apply t_known. intros Hv. destruct (Hv v eq_refl) as [Hab Hrev].
    eapply t_bind; [by apply h_lint|]. intros lint. destruct (failedInfrastructure lint); [by apply t_ret|].
    eapply t_try; [apply h_keep; [done|apply stat_regular_reads]| |done]. intros [mode|]; [|by apply t_ret].
    apply h_stage_commit; [done|]. intros s. apply h_commit_stage. by intros _.
  - eapply t_try; [by apply h_precondition|intros v|done].
    apply h_stage_commit; [done|]. intros s. by apply h_commit_stage.
Qed.
End mutation.

(** The dispatch of ExecuteToolWithOptions for the two mutation tools. *)
Definition executeMutationTool (m : Machine) (toolName input workDir : string) (opts : MutationOptions)
    : IO (result MutationFailure Outcome) :=
  if String.eqb toolName "Edit" then executeEditV2WithOptions m input workDir opts
  else executeWriteV2WithOptions m input workDir opts.

(** The content a call asks for, given that the file it changes has a revision. *)
Definition requested (m : Machine) (toolName input policy revision new : string) : Prop :=
  if String.eqb toolName "Edit"
  then ∃ args old n, decode_edit m input = Some args ∧ artifactBytesRevision old = revision ∧
                     applyEditPolicy (regexp_compile m) old args policy = Ok (new, n)
  else ∃ file_path, decode_write m input = Some (file_path, new).

(** C28: Whatever other processes do meanwhile to any file but the temporary files of this
    mutation, which they leave alone (their names differ from the target's), and whichever
    system calls fail, an authorised Edit or Write changes nothing but its temporary files, missing
    directories and the path of its precondition; there it puts only the content the call
    asks for, computed from the authorised revision, and only where no file is, or, when
    the precondition names a revision, right after a call that saw that revision. *)
Theorem mutation_under_interference m toolName input workDir opts proof w :
  MoFileMutation opts = Some proof →
  let target := clean (PcCanonicalPath proof) in
  (∀ i fs t, node (others m i fs) (temp m target t) = node fs (temp m target t)) →
  (∀ t, temp m target t ≠ target) →
  ∃ calls, history (executeMutationTool m toolName input workDir opts w).1 = history w ++ calls ∧
    ∀ before call after, calls = before ++ call :: after →
      mutation_call m target (PcExpectedRevision proof) (PcExpectAbsent proof)
        (requested m toolName input (MoEditPolicy opts) (PcExpectedRevision proof)) (history w ++ before) call.
Proof.
  intros Hopts target Hothers Hne. unfold executeMutationTool, requested. destruct (String.eqb toolName "Edit").
  - edestruct (h_edit m target (PcExpectedRevision proof) (PcExpectAbsent proof)) as [H _];
      [exact Hothers|exact Hne|done..| |exact I|exact H]. intros. by eexists _, _, _.
  - edestruct (h_write m target (PcExpectedRevision proof) (PcExpectAbsent proof)) as [H _];
      [exact Hothers|exact Hne|done..| |exact I|exact H]. intros. by eexists.
Qed.

(** ** Without interference *)

#[export] Instance RevisionError_eq_dec : EqDecision RevisionError.
Proof. solve_decision. Defined.

Section quiet.
Context (m : Machine) (target : string) (fs : Files).
Context (Hothers : ∀ i fs, others m i fs = fs) (Hio : ∀ i, io_error m i = false).
Context (Hfree : ∀ t, node fs (temp m target t) = NotExist) (Hne : ∀ t, temp m target t ≠ target).

(** The calls themselves do not matter here. *)
Abbreviation run := (triple (λ _ _, True)).
Definition same (fs' : Files) : Prop := ∀ p, node fs' p = node fs p.
Definition with_node (p : string) (n : Node) (fs' : Files) : Prop :=
  ∀ q, node fs' q = if decide (p = q) then n else node fs q.

Lemma q_sys {A} (K : Files → Prop) (f : Files → result IoError (Files * A)) (Q : result IoError A → Files → Prop) :
  (∀ fs1, K fs1 → match f fs1 with Ok (fs', a) => Q (Ok a) fs' | Err e => Q (Err e) fs1 end) →
  run (holds K) (syscall m f) (λ r, holds (Q r)).
Proof.
  intros H w Hw. unfold syscall. rewrite Hothers, Hio. specialize (H _ Hw). split.
  - eexists. split; [done|]. done.
  - destruct (f (files w)) as [[]|]; exact H.
Qed.

Lemma q_keep {A} K (f : Files → result IoError (Files * A)) :
  reads_only f → run (holds K) (syscall m f) (λ r w, holds K w ∧ match r with
    | Ok a => f (files w) = Ok (files w, a) | Err e => f (files w) = Err e end).
Proof.
  intros Hr. eapply t_conseq; [apply (q_sys K f (λ r fs', K fs' ∧ match r with
    Ok a => f fs' = Ok (fs', a) | Err e => f fs' = Err e end))|done|done].
  intros fs1 HK. destruct (f fs1) as [[fs' a]|e] eqn:Hf; [|done]. pose proof (Hr _ _ _ Hf) as ->. done.
Qed.

Lemma q_keep' {A} K (f : Files → result IoError (Files * A)) :
  reads_only f → run (holds K) (syscall m f) (λ _, holds K).
Proof. intros Hr. eapply t_conseq; [by apply q_keep|done|by intros ?? []]. Qed.

Lemma q_read_revision K p : run (holds K) (read_revision m p) (λ r w, holds K w ∧
  ∀ a, (r = Ok a ↔ readLedgerFileRevision (files w) p = Ok a)).
Proof.
  eapply t_conseq; [apply q_keep, read_revision_reads|done|]. intros r w [HK Hr]. split; [done|]. intros a.
  destruct (readLedgerFileRevision (files w) p) as [|[]] eqn:He; destruct r; naive_solver.
Qed.

Lemma q_state K p revision ab : run (holds K) (validateExpectedArtifactState m p revision ab) (λ _, holds K).
Proof.
  unfold validateExpectedArtifactState, expect_absent, expect_revision, lstat, read_revision. destruct ab.
  - eapply t_bind; [apply q_keep', lstat_reads|]. intros r. by apply t_ret.
  - eapply t_bind; [apply q_keep', read_revision_reads|]. intros r. by apply t_ret.
Qed.

Lemma q_lint K p revision : run (holds K) (lintFileWithOptions m p revision) (λ _, holds K).
Proof.
  unfold lintFileWithOptions. destruct (negb _); [by apply t_ret|].
  assert (Hverify : ∀ res, run (holds K) (verifyLintArtifactUnchanged m p revision res) (λ _, holds K)).
  { intros res. unfold verifyLintArtifactUnchanged, read_revision.
    eapply t_bind; [apply q_keep', read_revision_reads|]. intros r. by apply t_ret. }
  unfold read_revision. eapply t_bind; [apply q_keep', read_revision_reads|]. intros [before|]; [|by apply t_ret].
  destruct (negb _); [by apply t_ret|]. destruct (String.eqb _ _).
  - unfold read_file. eapply t_bind; [apply q_keep', read_file_reads|]. intros [data|]; [apply Hverify|by apply t_ret].
  - eapply t_bind; [by apply (t_pure _ _ _ (λ _, holds K))|]. intros process.
    eapply t_bind; [apply Hverify|]. intros r. by apply t_ret.
Qed.

Lemma with_node_node p n fs' : with_node p n fs' → node fs' p = n.
Proof. intros H. by rewrite H, decide_True. Qed.

Lemma q_ok {A} (K R : Files → Prop) (f : Files → result IoError (Files * A)) a :
  (∀ fs1, K fs1 → ∃ fs', f fs1 = Ok (fs', a) ∧ R fs') →
  run (holds K) (syscall m f) (λ r w, holds R w ∧ r = Ok a).
Proof.
  intros H. eapply t_conseq; [apply (q_sys K f (λ r fs', R fs' ∧ r = Ok a))|done|done].
  intros fs1 HK. by destruct (H fs1 HK) as (fs' & -> & HR).
Qed.

Lemma q_or_cleanup {A} K R t c (k : IO (result IoError A)) Q :
  run (holds K) c (λ r w, holds R w ∧ r = Ok tt) → run (holds R) k Q →
  run (holds K) (or_cleanup m (temp m target t) c k) Q.
Proof.
  intros Hc Hk. eapply t_bind; [exact Hc|]. intros r. apply t_known. intros ->. exact Hk.
Qed.

Lemma q_on_open t f change :
  run (holds (with_node (temp m target t) (Regular f))) (on_open m (temp m target t) change)
    (λ r w, holds (with_node (temp m target t) (Regular (change f))) w ∧ r = Ok tt).
Proof.
  apply q_ok. intros fs1 H1. eexists. rewrite (with_node_node _ _ _ H1). split; [done|].
  intros q. rewrite node_insert. destruct (decide (temp m target t = q)) as [|Hn]; [done|].
  rewrite H1. by rewrite decide_False.
Qed.

Definition staged_as (t : nat) (data : string) (mode : Z) : Files → Prop :=
  with_node (temp m target t) (Regular {| f_data := data; f_mode := staged_mode mode |}).
Definition stage_of (t : nat) (data : string) : stagedArtifact :=
  {| st_target := target; st_temporary := temp m target t; st_revision := artifactBytesRevision data |}.

Lemma q_stage data mode :
  run (holds same) (stageArtifact m target data mode)
    (λ r w, ∃ t, holds (staged_as t data mode) w ∧ r = Ok (stage_of t data)).
Proof.
  intros w Hw. unfold stageArtifact. set (t := tick w). fold (temp m target t).
  assert (H : run (holds same) (try (create m (temp m target t)) id (λ _,
      or_cleanup m (temp m target t) (on_open m (temp m target t) (set_mode (staged_mode mode))) (
      or_cleanup m (temp m target t) (on_open m (temp m target t) (set_data data)) (
      or_cleanup m (temp m target t) (on_open m (temp m target t) id) (
      or_cleanup m (temp m target t) (on_open m (temp m target t) id) (
      mret (Ok (stage_of t data))))))))
    (λ r w, holds (staged_as t data mode) w ∧ r = Ok (stage_of t data))).
  { eapply (t_bind _ _ _ _ (λ r w, holds (with_node (temp m target t) (Regular {| f_data := ""; f_mode := 384 |})) w ∧ r = Ok tt)).
    - apply q_ok. intros fs1 H1. eexists. rewrite H1, Hfree. split; [done|].
      intros q. rewrite node_insert. destruct (decide _); [done|]. by rewrite H1.
    - intros r. apply t_known. intros ->. do 4 (eapply q_or_cleanup; [apply q_on_open|]). by apply t_ret. }
  destruct (H w Hw) as [Hg Hq]. split; [exact Hg|]. by exists t.
Qed.

Lemma q_remove_temp t n :
  (∃ f, n = Regular f) →
  run (holds (with_node (temp m target t) n)) (remove m (temp m target t)) (λ r w, holds same w ∧ r = Ok tt).
Proof.
  intros [f ->]. apply q_ok. intros fs1 H1. eexists. rewrite (with_node_node _ _ _ H1). split; [done|].
  intros q. rewrite node_delete. destruct (decide _) as [<-|Hn]; [by rewrite Hfree|]. rewrite H1. by rewrite decide_False.
Qed.

(** *** The commit of a stage *)

(** What is left when the commit is made, and when it is not. *)
Definition committed_as (data : string) (mode : Z) : Files → Prop :=
  with_node target (Regular {| f_data := data; f_mode := staged_mode mode |}).

(** The test that comes first, and decides. *)
Definition commit_allowed (base : string) (ab : bool) : Prop :=
  if ab then node fs target = NotExist else readLedgerFileRevision fs target = Ok base.

Lemma q_commit t data mode base ab :
  run (holds (staged_as t data mode)) (commit m (stage_of t data) base ab)
    (λ r w, match r with
            | (Ok _, committed) => holds (committed_as data mode) w ∧ committed = true
            | (Err _, committed) => (holds (staged_as t data mode) w ∧ ¬ commit_allowed base ab) ∧ committed = false
            end).
Proof.
  assert (Htn : ∀ fs1, staged_as t data mode fs1 →
    node fs1 (temp m target t) = Regular {| f_data := data; f_mode := staged_mode mode |} ∧ node fs1 target = node fs target).
  { intros fs1 H1. split; [by apply with_node_node in H1|]. rewrite H1. by rewrite decide_False. }
  unfold commit, commit_allowed. cbn [st_target st_temporary stage_of]. destruct ab.
  - apply (t_bind _ _ _ _ (λ r w, holds (staged_as t data mode) w ∧ (is_ok r = true ↔ node fs target = NotExist))).
    { unfold expect_absent, lstat. eapply t_bind; [apply q_keep, lstat_reads|]. intros r. apply t_ret. intros w [Hw Hr].
      split; [done|]. destruct (Htn _ Hw) as [_ Heq]. rewrite Heq in Hr.
      destruct (node fs target); destruct r as [a|e]; simplify_eq; cbn; (split; intros; congruence). }
    intros [[]|e]; [|by apply t_ret; intros w [? Hi]; split; [split; [done|intros Hc; by apply Hi in Hc]|]].
    apply t_known. intros Habs. specialize (proj1 Habs eq_refl) as Hne'.
    apply (t_bind _ _ _ _ (λ r w, holds (λ fs2, ∀ q, node fs2 q =
      if decide (temp m target t = q) then Regular {| f_data := data; f_mode := staged_mode mode |}
      else if decide (target = q) then Regular {| f_data := data; f_mode := staged_mode mode |} else node fs q) w ∧ r = Ok tt)).
    { apply q_ok. intros fs1 H1. destruct (Htn _ H1) as [E1 E2]. eexists. rewrite E1, E2, Hne'. split; [done|].
      intros q. rewrite node_insert. destruct (decide (target = q)); [by case_decide|]. rewrite H1. by case_decide. }
    intros r. apply t_known. intros ->.
    apply (t_bind _ _ _ _ (λ r w, holds (committed_as data mode) w ∧ r = Ok tt)).
    { apply q_ok. intros fs1 H1. eexists. rewrite H1, decide_True by done. split; [done|].
      intros q. rewrite node_delete. destruct (decide (temp m target t = q)) as [<-|Hn].
      - rewrite decide_False by (intros E; by apply (Hne t)). by rewrite Hfree.
      - rewrite H1. by rewrite decide_False. }
    intros r. apply t_known. intros ->. by apply t_ret.
  - apply (t_bind _ _ _ _ (λ r w, holds (staged_as t data mode) w ∧
      (is_ok r = true ↔ readLedgerFileRevision fs target = Ok base))).
    { unfold expect_revision. eapply t_bind; [apply q_read_revision|]. intros r. apply t_ret. intros w [Hw Hr].
      split; [done|]. destruct (Htn _ Hw) as [_ Heq]. unfold readLedgerFileRevision in *. rewrite Heq in Hr.
      destruct r as [c|].
      - specialize (proj1 (Hr c) eq_refl) as ->. destruct (String.eqb_spec c base) as [->|]; cbn; [done|].
        split; [done|congruence].
      - cbn. split; [done|]. intros H. by apply Hr in H. }
    intros [[]|e]; [|by apply t_ret; intros w [? Hi]; split; [split; [done|intros Hc; by apply Hi in Hc]|]].
    apply t_known. intros Hf. specialize (proj1 Hf eq_refl) as Hrev. unfold readLedgerFileRevision in Hrev.
    destruct (node fs target) as [|f|] eqn:Hn; try done.
    apply (t_bind _ _ _ _ (λ r w, holds (committed_as data mode) w ∧ r = Ok tt)).
    { apply q_ok. intros fs1 H1. destruct (Htn _ H1) as [E1 E2]. eexists. rewrite E1, E2, ?Hn. split; [done|].
      intros q. rewrite node_insert. destruct (decide (target = q)) as [|Hn']; [done|].
      rewrite node_delete. destruct (decide _) as [<-|Hn2]; [by rewrite Hfree|]. rewrite H1. by rewrite decide_False. }
    intros r. apply t_known. intros ->. by apply t_ret.
Qed.

Lemma q_commit_stage opts lint_it t data mode base ab done_ :
  run (holds (staged_as t data mode)) (commit_stage m opts lint_it (stage_of t data) base ab done_)
    (λ r w, match r with Ok d => d = done_ ∧ holds (committed_as data mode) w | Err _ => holds same w end).
Proof.
  unfold commit_stage, with_cleanup.
  apply (t_bind _ _ _ _ (λ r w, match r with
    | (Ok d, committed) => (d = done_ ∧ holds (committed_as data mode) w) ∧ committed = true
    | (Err _, committed) => holds (staged_as t data mode) w ∧ committed = false end)).
  - apply (t_bind _ _ _ _ (λ _, holds (staged_as t data mode))).
    { unfold lint_stage. destruct (negb lint_it); [by apply t_ret|].
      eapply t_bind; [apply q_lint|]. intros r. destruct (lr_valid r); [by apply t_ret|].
      eapply t_bind; [apply q_state|]. intros [[]|e]; [by apply t_ret|].
      eapply t_bind; [apply q_read_revision|]. intros ?. apply t_ret. by intros w []. }
    intros [[]|e]; [|by apply t_ret].
    apply (t_bind _ _ _ _ (λ _, holds (staged_as t data mode))).
    { unfold validateArtifactPrecondition. destruct (MoFileMutation opts); [apply q_state|by apply t_ret]. }
    intros [[]|e]; [|by apply t_ret].
    eapply t_bind; [apply q_commit|]. intros [[[]|e] committed]; cbn [fst snd]; [|by apply t_ret; intros w [[]]].
    apply t_known. intros ->. eapply t_bind; [apply q_read_revision|]. intros r. apply t_ret. intros w [Hw Hr].
    assert (Hrev : r = Ok (artifactBytesRevision data)).
    { apply Hr. unfold readLedgerFileRevision. by rewrite Hw, decide_True. }
    rewrite Hrev. cbn [st_revision stage_of]. by rewrite String.eqb_refl.
  - intros [[d|e] []]; cbn [fst snd]; try (by apply t_ret; intros w [? ?]).
    + by apply t_known.
    + apply t_known. intros _. eapply t_bind; [apply q_remove_temp; by eexists|]. intros r. apply t_known. by intros _; apply t_ret.
Qed.

Lemma q_stage_commit data mode lint_it opts base ab done_ :
  run (holds same) (try (stageArtifact m target data mode) (const_err StagingFailed)
                        (λ s, commit_stage m opts lint_it s base ab done_))
    (λ r w, match r with Ok d => d = done_ ∧ holds (committed_as data mode) w | Err _ => holds same w end).
Proof.
  eapply t_bind; [apply q_stage|]. intros r w (t & Hw & ->). by apply q_commit_stage.
Qed.

(** *** The executors *)

Context (proof : fileMutationPrecondition) (Htarget : target = clean (PcCanonicalPath proof)).

Lemma q_path rawPath workDir toolName full_mode :
  run (holds same) (mutationExecutionPath m rawPath workDir toolName (Some proof) full_mode)
    (λ r w, holds same w ∧ (∀ path, r = Ok path → path = target)).
Proof.
  apply t_pure. intros w Hw. split; [done|]. rewrite Htarget. intros path. cbv zeta.
  repeat case_match; intros; simplify_eq; done.
Qed.

(** The file the precondition was made for. *)
Definition as_authorised (f : File) : Prop :=
  node fs target = Regular f ∧ PcExpectAbsent proof = false ∧ artifactBytesRevision (f_data f) = PcExpectedRevision proof.

Lemma q_read_target :
  run (holds same) (read_file m target) (λ r w, holds same w ∧
    r = match node fs target with Regular f => Ok (f_data f) | NotExist => Err ENOENT | OtherNode => Err EISDIR end).
Proof.
  eapply t_conseq; [apply q_keep, read_file_reads|done|]. intros r w [Hw Hr]. split; [done|].
  rewrite (Hw target) in Hr. destruct r; destruct (node fs target); congruence.
Qed.

Lemma q_target (k : string → IO (result MutationFailure Outcome)) err Q :
  (∀ f, node fs target = Regular f → run (holds same) (k (f_data f)) Q) →
  (∀ w, holds same w → Q (Err err) w) →
  run (holds same) (try (read_file m target) (const_err err) k) Q.
Proof.
  intros Hk He. unfold try. eapply t_bind; [apply q_read_target|]. intros r. apply t_known. intros ->.
  destruct (node fs target) as [|f|]; [by apply t_ret|by apply Hk|by apply t_ret].
Qed.

Lemma q_bytes f (k : () → IO (result MutationFailure Outcome)) Q :
  node fs target = Regular f →
  (as_authorised f → run (holds same) (k tt) Q) → (∀ e w, holds same w → Q (Err e) w) →
  run (holds same) (try (mret (validateArtifactBytesPrecondition (f_data f) (Some proof))) MutationBlocked k) Q.
Proof.
  intros Hf Hk He. unfold try, validateArtifactBytesPrecondition.
  destruct (PcExpectAbsent proof) eqn:Ha; [intros w Hw; split; [reflexivity|by apply He]|].
  destruct (String.eqb_spec (artifactBytesRevision (f_data f)) (PcExpectedRevision proof)) as [Hr|];
    [|intros w Hw; split; [reflexivity|by apply He]]. by apply Hk.
Qed.

Lemma q_stat f (k : option Z → IO (result MutationFailure Outcome)) err Q :
  node fs target = Regular f → run (holds same) (k (Some (f_mode f))) Q → (∀ w, holds same w → Q (Err err) w) →
  run (holds same) (try (stat_regular m target) (const_err err) k) Q.
Proof.
  intros Hf Hk He. unfold try, stat_regular. eapply t_bind; [apply q_keep, stat_regular_reads|].
  intros [info|e]; [|apply t_ret; intros w [Hw _]; by apply He]. intros w [Hw Hr]. rewrite (Hw target), Hf in Hr.
  injection Hr as <-. by apply Hk.
Qed.

Lemma q_edit input workDir opts :
  MoFileMutation opts = Some proof →
  run (holds same) (executeEditV2WithOptions m input workDir opts) (λ r w,
    match r with
    | Ok done_ => ∃ f args new n, as_authorised f ∧ decode_edit m input = Some args ∧
        applyEditPolicy (regexp_compile m) (f_data f) args (MoEditPolicy opts) = Ok (new, n) ∧ done_ = Edited n ∧
        holds (committed_as new (f_mode f)) w
    | Err _ => holds same w
    end).
Proof.
  intros Hopts. unfold executeEditV2WithOptions. destruct (decode_edit m input) as [args|]; [|by apply t_ret].
  rewrite Hopts. eapply t_try; [apply q_path| |by intros ?? []]. intros path. apply t_known. intros Hp.
  rewrite (Hp path eq_refl). apply q_target; [|done]. intros f Hf. apply q_bytes; [done| |done]. intros Hauth.
  apply (q_stat f); [done| |done].
  destruct (applyEditPolicy _ _ _ _) as [[new n]|] eqn:He; [|by apply t_ret].
  eapply t_bind; [apply q_lint|]. intros lint. destruct (failedInfrastructure lint); [by apply t_ret|].
  eapply t_conseq; [apply q_stage_commit|done|]. intros [d|e] w; [|done]. intros [-> Hw]. exists f, args, new, n. done.
Qed.

Lemma q_recheck K rawPath workDir path opts :
  run (holds K) (recheck_path m rawPath workDir path opts) (λ _, holds K).
Proof.
  unfold recheck_path. destruct (MoFileMutation opts); [|by apply t_ret].
  eapply t_bind; [by apply (t_pure _ _ _ (λ _, holds K))|]. intros r. by apply t_ret.
Qed.

Definition nothing_there : Prop := node fs target = NotExist ∧ PcExpectAbsent proof = true.

Lemma q_write_content path content opts :
  MoFileMutation opts = Some proof → path = target →
  run (holds same) (write_content m path content opts) (λ r w,
    match r with
    | Ok done_ =>
        let lines := Z.of_nat (length (split_lines content)) in
        (nothing_there ∧ done_ = Created lines (slen content) ∧ holds (committed_as content 420) w) ∨
        (∃ f, as_authorised f ∧ done_ = Updated lines (slen content) ∧ holds (committed_as content (f_mode f)) w)
    | Err _ => holds same w
    end).
Proof.
  intros Hopts ->. unfold write_content. rewrite Hopts. eapply t_bind; [apply q_read_target|].
  intros r. apply t_known. intros Hr. destruct (node fs target) as [|f|] eqn:Hn; subst r; [| |by apply t_ret].
  - apply (t_bind _ _ _ _ (λ r w, holds same w ∧ (∀ u, r = Ok u → PcExpectAbsent proof = true))).
    { unfold validateArtifactPrecondition. destruct (PcExpectAbsent proof) eqn:Ha.
      { eapply t_conseq; [apply (q_state same)|done|done]. }
      cbn [validateExpectedArtifactState].
      unfold expect_revision. eapply t_bind; [apply q_read_revision|]. intros r. apply t_ret. intros w [Hw Hr].
      split; [done|]. intros u Hu. destruct r as [c|]; [|done]. specialize (proj1 (Hr c) eq_refl).
      unfold readLedgerFileRevision. by rewrite (Hw target), Hn. }
    intros [u|e]; [|by apply t_ret; intros w []]. apply t_known. intros Ha. specialize (Ha u eq_refl).
    eapply t_conseq; [apply q_stage_commit|done|]. intros [d|e] w; [|done]. intros [-> Hw]. by left.
  - apply (q_bytes f); [done| |done]. intros Hauth.
    eapply t_bind; [apply q_lint|]. intros lint. destruct (failedInfrastructure lint); [by apply t_ret|].
    apply (q_stat f); [done| |done]. eapply t_conseq; [apply q_stage_commit|done|].
    intros [d|e] w; [|done]. intros [-> Hw]. right. by exists f.
Qed.

(** *** Rollback *)

Definition restored (snapshot : fileMutationSnapshot) : Files → Prop :=
  if SnExisted snapshot then committed_as (SnData snapshot) (SnMode snapshot) else with_node target NotExist.

Lemma q_rollback mutation :
  SnPath (CmSnapshot mutation) = target →
  (SnExisted (CmSnapshot mutation) = true → SnRevision (CmSnapshot mutation) = artifactBytesRevision (SnData (CmSnapshot mutation))) →
  run (holds same) (rollbackCommittedFileMutation m mutation) (λ r w,
    if decide (readLedgerFileRevision fs target = Ok (CmPostRevision mutation))
    then holds (restored (CmSnapshot mutation)) w ∧ r = Ok tt
    else holds same w ∧ is_ok r = false).
Proof.
  intros Hp Hrev. unfold rollbackCommittedFileMutation, restored. rewrite Hp.
  set (snapshot := CmSnapshot mutation) in *. set (post := CmPostRevision mutation).
  apply (t_bind _ _ _ _ (λ r w, holds same w ∧ (is_ok r = true ↔ readLedgerFileRevision fs target = Ok post))).
  { cbn [validateExpectedArtifactState]. unfold expect_revision. eapply t_bind; [apply q_read_revision|].
    intros r. apply t_ret. intros w [Hw Hr]. split; [done|]. unfold readLedgerFileRevision in *. rewrite (Hw target) in Hr.
    destruct r as [c|].
    - specialize (proj1 (Hr c) eq_refl) as ->. destruct (String.eqb_spec c post) as [->|]; cbn; [done|].
      split; [done|congruence].
    - cbn. split; [done|]. intros H. by apply Hr in H. }
  intros r. apply t_known. intros Hr. destruct r as [[]|e].
  2:{ apply t_ret. intros w Hw. rewrite decide_False; [done|]. intros H. by apply Hr in H. }
  specialize (proj1 Hr eq_refl) as Hok. destruct (decide (readLedgerFileRevision fs target = Ok post)) as [_|]; [|done].
  destruct (SnExisted snapshot) eqn:He; cbn [negb].
  - eapply t_bind; [apply q_stage|]. intros r. apply t_exists. intros t. apply t_known. intros ->. unfold with_cleanup.
    apply (t_bind _ _ _ _ (λ r w, holds (committed_as (SnData snapshot) (SnMode snapshot)) w ∧ r = (Ok tt, true))).
    + eapply t_bind; [apply q_commit|]. intros [[[]|e] committed]; cbn [fst snd].
      * apply t_known. intros ->. eapply t_bind; [apply q_read_revision|]. intros r. apply t_ret. intros w [Hw H].
        split; [done|]. assert (r = Ok (artifactBytesRevision (SnData snapshot))) as ->.
        { apply H. unfold readLedgerFileRevision. by rewrite Hw, decide_True. }
        by rewrite Hrev, String.eqb_refl.
      * apply t_ret. by intros w [[_ []] _].
    + intros r. apply t_known. intros ->. by apply t_ret.
  - apply (t_bind _ _ _ _ (λ r w, holds (with_node target NotExist) w ∧ r = Ok tt)).
    + unfold readLedgerFileRevision in Hok. destruct (node fs target) as [|f|] eqn:Hn; try done.
      apply q_ok. intros fs1 H1. eexists. rewrite (H1 target), Hn. split; [done|].
      intros q. rewrite node_delete. destruct (decide (target = q)); [done|apply H1].
    + intros r. apply t_known. intros ->. by apply t_ret.
Qed.
End quiet.

(** Directories made on the way to a file. *)
Definition grown (fs : Files) (dirs : list string) (fs' : Files) : Prop :=
  ∀ p, node fs' p = node fs p ∨ p ∈ dirs ∧ node fs p = NotExist ∧ node fs' p = OtherNode.

Definition quiet (m : Machine) : Prop := (∀ i fs, others m i fs = fs) ∧ ∀ i, io_error m i = false.

Lemma q_mkdir_all m fs dir :
  quiet m → triple (λ _ _, True) (holds (same fs)) (mkdir_all m dir) (λ _, holds (grown fs (dir_chain dir))).
Proof.
  intros [Ho Hi]. unfold mkdir_all.
  assert (Hgen : ∀ ps done_, triple (λ _ _, True) (holds (grown fs done_)) (mkdir_each m ps)
    (λ _, holds (grown fs (done_ ++ ps)))).
  { induction ps as [|p ps IH]; intros done_; cbn [mkdir_each].
    { rewrite app_nil_r. by apply t_ret. }
    assert (Hmono : ∀ fs', grown fs (done_ ++ [p]) fs' → grown fs (done_ ++ p :: ps) fs').
    { intros fs' H q. destruct (H q) as [?|(Hin & ?)]; [by left|right]. split; [set_solver|done]. }
    eapply t_try; [apply (q_sys m Ho Hi (grown fs done_) _ (λ _, grown fs (done_ ++ [p])))| |].
    - intros fs1 H1. destruct (node fs1 p) eqn:Hn.
      + intros q. rewrite node_insert. destruct (decide (p = q)) as [<-|].
        * right. destruct (H1 p) as [Hq|(_ & _ & Hq)]; [|congruence]. split; [set_solver|]. by rewrite <-Hq.
        * destruct (H1 q) as [?|(?&?)]; [by left|right]. split; [set_solver|done].
      + intros q. destruct (H1 q) as [?|(?&?)]; [by left|right]. split; [set_solver|done].
      + intros q. destruct (H1 q) as [?|(?&?)]; [by left|right]. split; [set_solver|done].
    - intros u. eapply t_conseq; [apply (IH (done_ ++ [p]))|done|]. intros r w. by rewrite <-app_assoc.
    - intros e w Hw. by apply Hmono. }
  eapply t_conseq; [apply (Hgen _ [])| |done]. intros w Hw p. left. apply Hw.
Qed.

(** What a successful call has done, from the file that was at the target. *)
Definition applied (m : Machine) (toolName input policy : string) (old : option string) (new : string)
    (outcome : Outcome) : Prop :=
  if String.eqb toolName "Edit"
  then ∃ args data n, decode_edit m input = Some args ∧ old = Some data ∧
         applyEditPolicy (regexp_compile m) data args policy = Ok (new, n) ∧ outcome = Edited n
  else ∃ file_path, decode_write m input = Some (file_path, new) ∧
         let lines := Z.of_nat (length (split_lines new)) in
         outcome = match old with None => Created lines (slen new) | Some _ => Updated lines (slen new) end.

(** Without interference a mutation is all or nothing.  When it succeeds, the file of
    the precondition was as authorised, it now has exactly the requested content (its
    permission bits kept), and no other path has changed but for missing directories on
    the way to it; when it fails for any reason, no file has changed and nothing is left of
    the staging. *)
Theorem mutation_all_or_nothing m toolName input workDir opts proof w :
  quiet m → MoFileMutation opts = Some proof →
  let target := clean (PcCanonicalPath proof) in
  let dirs := dir_chain (filepath_dir target) in
  (∀ t, node (files w) (temp m target t) = NotExist ∧ temp m target t ∉ target :: dirs) → target ∉ dirs →
  let w' := (executeMutationTool m toolName input workDir opts w).1 in
  match (executeMutationTool m toolName input workDir opts w).2 with
  | Ok outcome => ∃ old new mode,
      applied m toolName input (MoEditPolicy opts) (f_data <$> old) new outcome ∧
      match old with
      | Some f => as_authorised target (files w) proof f ∧ mode = f_mode f
      | None => nothing_there target (files w) proof ∧ mode = 420
      end ∧
      node (files w') target = Regular {| f_data := new; f_mode := staged_mode mode |} ∧
      ∀ p, p ≠ target → node (files w') p = node (files w) p ∨
                        p ∈ dirs ∧ node (files w) p = NotExist ∧ node (files w') p = OtherNode
  | Err _ => grown (files w) dirs (files w')
  end.
Proof.
  intros Hq Hopts target dirs Hfree Htd. pose proof Hq as [Ho Hi].
  assert (Hfree' : ∀ t, node (files w) (temp m target t) = NotExist) by (intros t; apply Hfree).
  assert (Hne : ∀ t, temp m target t ≠ target) by (intros t; destruct (Hfree t) as [_ H]; set_solver).
  unfold executeMutationTool, applied. destruct (String.eqb toolName "Edit").
  - destruct (q_edit m target (files w) Ho Hi Hfree' Hne proof eq_refl input workDir opts Hopts w) as [_ H]; [by intros p|].
    destruct (executeEditV2WithOptions m input workDir opts w) as [w' [outcome|e]]; cbn [fst snd] in *.
    + destruct H as (f & args & new & n & Hf & Hargs & Hnew & -> & Hw). exists (Some f), new, (f_mode f).
      split; [by exists args, (f_data f), n|]. split; [done|]. split; [by apply with_node_node in Hw|].
      intros p Hp. left. rewrite Hw. by rewrite decide_False.
    + intros p. left. apply H.
  - assert (H : triple (λ _ _, True) (holds (same (files w))) (executeWriteV2WithOptions m input workDir opts) (λ r w',
      match r with
      | Ok outcome => ∃ fs1 new file_path, decode_write m input = Some (file_path, new) ∧ grown (files w) dirs fs1 ∧
          let lines := Z.of_nat (length (split_lines new)) in
          (nothing_there target fs1 proof ∧ outcome = Created lines (slen new) ∧ holds (committed_as target fs1 new 420) w') ∨
          (∃ f, as_authorised target fs1 proof f ∧ outcome = Updated lines (slen new) ∧
                holds (committed_as target fs1 new (f_mode f)) w')
      | Err _ => holds (grown (files w) dirs) w'
      end)).
    { assert (Hsg : ∀ w', holds (same (files w)) w' → holds (grown (files w) dirs) w') by (intros w' H p; left; apply H).
      unfold executeWriteV2WithOptions. destruct (decode_write m input) as [[fp new]|] eqn:Hd; [|by apply t_ret].
      eapply t_try; [rewrite Hopts; by apply (q_path m target (files w))| |by intros e w' [? _]; apply Hsg].
      intros path. apply t_known. intros Hp. rewrite (Hp path eq_refl).
      eapply t_try; [by apply q_mkdir_all| |done]. intros u.
      eapply t_try; [by apply q_recheck| |done]. intros u' w1 Hw1.
      destruct (q_write_content m target (files w1)) with (proof := proof) (path := target) (content := new) (opts := opts) (w := w1)
        as [Hg H]; [done|done| |done|done|done|by intros p|].
      { intros t. destruct (Hfree t) as [Hft Hin]. destruct (Hw1 (temp m target t)) as [->|(Hin' & _)]; [done|set_solver]. }
      split; [exact Hg|]. destruct (write_content m target new opts w1) as [w2 [outcome|e]]; cbn [fst snd] in *.
      - by exists (files w1), new, fp.
      - intros p. rewrite (H p). apply Hw1. }
    destruct (H w) as [_ Hw]; [by intros p|]. clear H.
    destruct (executeWriteV2WithOptions m input workDir opts w) as [w' [outcome|e]]; cbn [fst snd] in *; [|exact Hw].
    destruct Hw as (fs1 & new & fp & Hd & Hgrown & Hcase).
    assert (Htarget : node fs1 target = node (files w) target) by (destruct (Hgrown target) as [|[? _]]; done).
    assert (Hrest : ∀ mode p, committed_as target fs1 new mode (files w') → p ≠ target →
      node (files w') p = node (files w) p ∨ p ∈ dirs ∧ node (files w) p = NotExist ∧ node (files w') p = OtherNode).
    { intros mode p Hc Hp. rewrite (Hc p), decide_False by done. apply Hgrown. }
    destruct Hcase as [((Hn & Ha) & -> & Hc)|(f & (Hn & Ha) & -> & Hc)].
    + exists None, new, 420. split; [by exists fp|]. split; [by rewrite Htarget in Hn|].
      split; [by apply with_node_node in Hc|]. intros p. by apply Hrest with 420.
    + exists (Some f), new, (f_mode f). split; [by exists fp|]. split; [by rewrite Htarget in Hn|].
      split; [by apply with_node_node in Hc|]. intros p. by apply Hrest with (f_mode f).
Qed.

(** The snapshot is of the file as it was; its mode has plain permission bits. *)
Definition snapshot_fits (fs : Files) (snapshot : fileMutationSnapshot) : Prop :=
  match node fs (SnPath snapshot) with
  | Regular old => snapshot = {| SnPath := SnPath snapshot; SnExisted := true; SnData := f_data old;
                                 SnMode := f_mode old; SnRevision := artifactBytesRevision (f_data old) |} ∧
                   staged_mode (f_mode old) = f_mode old
  | NotExist => SnExisted snapshot = false
  | OtherNode => False
  end.

(** The mutations of a batch from one state of the files to another: each snapshot is of
    the state before, each post-revision of the file after, and a mutation changes its own
    path and creates missing directories.  [made] are the directories on the way to the
    paths of the batch. *)
Inductive journaled (fs0 : Files) : list string → list committedFileMutation → Files → Prop :=
| journaled_nil fs : same fs0 fs → journaled fs0 [] [] fs
| journaled_snoc made journal mutation dirs fs fs' f :
    journaled fs0 made journal fs →
    let path := SnPath (CmSnapshot mutation) in
    snapshot_fits fs (CmSnapshot mutation) →
    node fs' path = Regular f →
    (∀ p, p ≠ path → node fs' p = node fs p ∨ p ∈ dirs ∧ node fs p = NotExist ∧ node fs' p = OtherNode) →
    artifactBytesRevision (f_data f) = CmPostRevision mutation →
    journaled fs0 (made ++ dirs) (journal ++ [mutation]) fs'.

(** A mutation that succeeds, without interference, is such a step. *)
Lemma executed_journaled fs0 made journal m toolName input workDir opts proof w outcome i snapshot :
  journaled fs0 made journal (files w) →
  quiet m → MoFileMutation opts = Some proof →
  let target := clean (PcCanonicalPath proof) in
  let dirs := dir_chain (filepath_dir target) in
  (∀ t, node (files w) (temp m target t) = NotExist ∧ temp m target t ∉ target :: dirs) → target ∉ dirs →
  SnPath snapshot = target → snapshot_fits (files w) snapshot →
  (executeMutationTool m toolName input workDir opts w).2 = Ok outcome →
  ∃ post, journaled fs0 (made ++ dirs)
    (journal ++ [{| CmResultIndex := i; CmSnapshot := snapshot; CmPostRevision := post |}])
    (files (executeMutationTool m toolName input workDir opts w).1).
Proof.
  intros Hj Hq Hopts target dirs Hfree Htd Hp Hs Hok.
  pose proof (mutation_all_or_nothing m toolName input workDir opts proof w Hq Hopts Hfree Htd) as H.
  cbv zeta in H. rewrite Hok in H. destruct H as (old & new & mode & _ & _ & Hn & Hrest).
  exists (artifactBytesRevision new). econstructor; cbn [CmSnapshot CmPostRevision]; [exact Hj|exact Hs| | |].
  - rewrite Hp. exact Hn.
  - rewrite Hp. exact Hrest.
  - done.
Qed.

(** A path that is neither a target nor on the way to one is as it was. *)
Lemma journaled_elsewhere fs0 made journal fs p :
  journaled fs0 made journal fs → p ∉ made → (∀ mutation, mutation ∈ journal → p ≠ SnPath (CmSnapshot mutation)) →
  node fs p = node fs0 p.
Proof.
  intros Hj. induction Hj as [fs Hs|made journal mutation dirs fs fs' f Hj IH path _ _ Hrest _]; intros Hm Hp.
  { apply Hs. }
  rewrite <- IH; [|set_solver|set_solver]. destruct (Hrest p) as [?|[? _]]; [|done|set_solver]. apply Hp. set_solver.
Qed.

(** Undoing the last mutation, with directories of later ones still there. *)
Lemma undo_last m mutation dirs extra fs fs' f w :
  quiet m →
  let path := SnPath (CmSnapshot mutation) in
  snapshot_fits fs (CmSnapshot mutation) →
  node fs' path = Regular f →
  (∀ p, p ≠ path → node fs' p = node fs p ∨ p ∈ dirs ∧ node fs p = NotExist ∧ node fs' p = OtherNode) →
  artifactBytesRevision (f_data f) = CmPostRevision mutation →
  grown fs' extra (files w) →
  (∀ t, node (files w) (temp m path t) = NotExist ∧ temp m path t ≠ path) →
  (rollbackCommittedFileMutation m mutation w).2 = Ok tt ∧
  grown fs (dirs ++ extra) (files (rollbackCommittedFileMutation m mutation w).1).
Proof.
  intros [Ho Hi] path Hsnap Hf Hrest Hpost Hw Hfree.
  assert (Hwf : node (files w) path = Regular f) by (destruct (Hw path) as [?|(_ & ? & _)]; congruence).
  destruct (q_rollback m path (files w) Ho Hi (λ t, proj1 (Hfree t)) (λ t, proj2 (Hfree t)) mutation eq_refl) with (w := w) as [_ Hr].
  { unfold snapshot_fits in Hsnap. fold path in Hsnap. destruct (node fs path); [by rewrite Hsnap| |done].
    intros _. by destruct Hsnap as [-> _]. }
  { by intros p. }
  rewrite decide_True in Hr by (unfold readLedgerFileRevision; by rewrite Hwf, Hpost).
  destruct (rollbackCommittedFileMutation m mutation w) as [w1 r]. cbn [fst snd] in *. destruct Hr as [Hr ->]. split; [done|].
  assert (Hback : node (files w1) path = node fs path ∧ ∀ p, p ≠ path → node (files w1) p = node (files w) p).
  { unfold holds, restored in Hr. unfold snapshot_fits in Hsnap. fold path in Hsnap.
    destruct (node fs path) as [|old|] eqn:Hold; [| |done].
    - rewrite Hsnap in Hr. split; [rewrite (Hr path); by rewrite decide_True|].
      intros p Hp. rewrite (Hr p). by rewrite decide_False.
    - destruct Hsnap as [Hsn Hmode]. rewrite Hsn in Hr. cbn in Hr. split.
      + rewrite (Hr path), decide_True, Hmode by done. by destruct old.
      + intros p Hp. rewrite (Hr p). by rewrite decide_False. }
  destruct Hback as [Hb1 Hb2]. intros p. destruct (decide (p = path)) as [->|Hp]; [by left|]. rewrite (Hb2 p Hp).
  destruct (Hw p) as [->|(Hin & Hn & ->)].
  - destruct (Hrest p Hp) as [->|(Hin & Hn & ->)]; [by left|right]. split; [set_solver|done].
  - right. split; [set_solver|]. split; [|done]. destruct (Hrest p Hp) as [?|(_ & _ & ?)]; congruence.
Qed.

(** C29: The rollback of a batch restores the state before it.  Suppose that no one else
    interferes with the files, no system call fails, the files have plain permission bits, and
    the names of temporary files are free.  Then every mutation of the journal is undone, the
    latest first, also when one file was changed several times: afterwards every path has the
    content and mode it had before the batch, and files the batch created are gone; only
    directories that the batch made on the way to its files stay. *)
Theorem batch_rollback_restores m fs0 made journal fs w :
  quiet m → journaled fs0 made journal fs → files w = fs →
  (∀ mutation t, mutation ∈ journal →
     node fs0 (temp m (SnPath (CmSnapshot mutation)) t) = NotExist ∧ temp m (SnPath (CmSnapshot mutation)) t ∉ made ∧
     ∀ mutation', mutation' ∈ journal → temp m (SnPath (CmSnapshot mutation)) t ≠ SnPath (CmSnapshot mutation')) →
  Forall (λ mr, mr.2 = Ok tt) (rollback_journal m journal w).2 ∧
  map fst (rollback_journal m journal w).2 = rev journal ∧
  ∀ p, node (files (rollback_journal m journal w).1) p = node fs0 p ∨
       p ∈ made ∧ node fs0 p = NotExist ∧ node (files (rollback_journal m journal w).1) p = OtherNode.
Proof.
  intros Hq Hj Hw Hfree. unfold rollback_journal.
  assert (Hgen : ∀ extra w, grown fs extra (files w) →
    (∀ mutation t, mutation ∈ journal → temp m (SnPath (CmSnapshot mutation)) t ∉ extra) →
    Forall (λ mr, mr.2 = Ok tt) (rollback_each m (rev journal) w).2 ∧
    map fst (rollback_each m (rev journal) w).2 = rev journal ∧
    grown fs0 (made ++ extra) (files (rollback_each m (rev journal) w).1)).
  2: { destruct (Hgen [] w) as (H1 & H2 & H3); [rewrite Hw; intros p; by left|intros; apply not_elem_of_nil|].
       rewrite app_nil_r in H3. by split_and!. }
  clear w Hw. induction Hj as [fs Hs|made journal mutation dirs fs fs' f Hj IH path Hsnap Hf Hrest Hpost]; intros extra w Hw Hex.
  { split; [constructor|]. split; [done|]. intros p. cbn. rewrite <- (Hs p). apply Hw. }
  assert (Hm : mutation ∈ journal ++ [mutation]) by set_solver.
  assert (Htemp : ∀ t, node (files w) (temp m path t) = NotExist ∧ temp m path t ≠ path).
  { intros t. destruct (Hfree mutation t Hm) as (H0 & Hmade & Hpaths). split; [|by apply Hpaths].
    destruct (Hw (temp m path t)) as [->|(Hin & _)]; [|by apply (Hex mutation t Hm) in Hin].
    rewrite (journaled_elsewhere fs0 (made ++ dirs) (journal ++ [mutation])); [exact H0|by econstructor|done|].
    intros mutation' Hin. by apply Hpaths. }
  destruct (undo_last m mutation dirs extra fs fs' f w Hq Hsnap Hf Hrest Hpost Hw Htemp) as [Hok Hback].
  rewrite rev_app_distr. cbn [rev app rollback_each]. unfold mbind, IO_bind.
  destruct (rollbackCommittedFileMutation m mutation w) as [w1 r]. cbn [fst snd] in Hok, Hback. subst r.
  destruct IH with (extra := dirs ++ extra) (w := w1) as (H1 & H2 & H3); [|exact Hback| |].
  { intros mu t Hmu. destruct (Hfree mu t) as (Ha & Hb & Hc); [set_solver|]. split_and!; [done|set_solver|].
    intros mu' Hmu'. apply Hc. set_solver. }
  { intros mu t Hmu. destruct (Hfree mu t) as (_ & Hb & _); [set_solver|].
    specialize (Hex mu t). set_solver. }
  destruct (rollback_each m (rev journal) w1) as [w2 rs]. cbn [fst snd] in *. split; [by constructor|].
  split; [cbn; by rewrite H2|]. intros p. destruct (H3 p) as [?|(?&?)]; [by left|right]. split; [set_solver|done].
Qed.

(** ** Concrete runs *)

Definition ex_others (i : nat) (fs : Files) : Files :=
  if (i =? 3)%nat then <["/work/other" := Regular {| f_data := "theirs"; f_mode := 420 |}]> fs else fs.

(** A machine on which the checker of Go files accepts, and JSON is never valid. *)
Definition ex_machine (others : nat → Files → Files) : Machine :=
  {| others := others; io_error := λ _, false; random_name := λ _, "1"; os_at := λ _, ex_os;
     json_valid := λ _, false;
     runToolProcess := λ _ _ _, {| TpPolicyOrContextFailure := false; TpStarted := true; TpExitCode := 0; TpErr := false |};
     decode_edit := λ path, Some {| EiFilePath := path; EiOldString := "x"; EiNewString := "y"; EiReplaceAll := false;
                                    EiRegex := false; EiPatch := ""; EiContent := "" |};
     decode_write := λ path, Some (path, "new");
     regexp_compile := λ _, None |}.
Definition ex_alone : Machine := ex_machine (λ _ fs, fs).

Definition ex_proof (toolName path revision : string) (absent : bool) : fileMutationPrecondition :=
  {| PcToken := "t"; PcToolName := toolName; PcCanonicalPath := path; PcExpectedRevision := revision;
     PcExpectAbsent := absent; PcInputDigest := ""; PcExpiresAt := 0 |}.
Definition ex_mutation (toolName path revision : string) (absent : bool) : MutationOptions :=
  {| MoFileMutation := Some (ex_proof toolName path revision absent); MoFullMode := false; MoEditPolicy := "" |}.
Definition ex_world (fs : Files) : World := {| files := fs; history := [] |}.

Definition ex_edit_x : MutationOptions := ex_mutation "Edit" "/work/a.go" (artifactBytesRevision "x") false.

Example ex_edit_applies :
  let '(w, r) := executeMutationTool ex_alone "Edit" "a.go" "/work" ex_edit_x (ex_world (ex_files "x")) in
  (r, files w) = (Ok (Edited 1), ex_files "y").
Proof. vm_compute. reflexivity. Qed.
Example ex_edit_stale :
  let '(w, r) := executeMutationTool ex_alone "Edit" "a.go" "/work" ex_edit_x (ex_world (ex_files "xx")) in
  is_ok r = false ∧ files w = ex_files "xx".
Proof. vm_compute. split; reflexivity. Qed.
Example ex_write_creates :
  let '(w, r) := executeMutationTool (ex_machine ex_others) "Write" "new/b.txt" "/work"
                   (ex_mutation "Write" "/work/new/b.txt" "" true) (ex_world ∅) in
  r = Ok (Created 1 3) ∧ node (files w) "/work/new/b.txt" = Regular {| f_data := "new"; f_mode := 420 |} ∧
  node (files w) "/work/other" = Regular {| f_data := "theirs"; f_mode := 420 |}.
Proof. vm_compute. repeat split; reflexivity. Qed.
(** JSON that does not parse is refused before the commit. *)
Example ex_write_bad_json :
  let '(w, r) := executeMutationTool ex_alone "Write" "c.json" "/work"
                   (ex_mutation "Write" "/work/c.json" "" true) (ex_world ∅) in
  r = Err (LintRefused LintFailureSyntax) ∧ node (files w) "/work/c.json" = NotExist.
Proof. vm_compute. split; reflexivity. Qed.

Lemma mutation_under_interference_witness :
  ∃ calls,
    history (executeMutationTool (ex_machine ex_others) "Write" "new/b.txt" "/work"
               (ex_mutation "Write" "/work/new/b.txt" "" true) (ex_world ∅)).1 = calls ∧
    ∀ before call after, calls = before ++ call :: after →
      mutation_call (ex_machine ex_others) "/work/new/b.txt" "" true
        (requested (ex_machine ex_others) "Write" "new/b.txt" "" "") before call.
Proof.
  destruct (mutation_under_interference (ex_machine ex_others) "Write" "new/b.txt" "/work"
    (ex_mutation "Write" "/work/new/b.txt" "" true) (ex_proof "Write" "/work/new/b.txt" "" true) (ex_world ∅))
    as (calls & H1 & H2).
  - reflexivity.
  - intros i fs t. unfold ex_machine, ex_others, others. destruct (i =? 3)%nat; [|reflexivity].
    rewrite node_insert, decide_False; [reflexivity|]. intros E. vm_compute in E. discriminate E.
  - intros t E. vm_compute in E. discriminate E.
  - exists calls. split; [exact H1|exact H2].
Defined.

Lemma ex_quiet : quiet ex_alone.
Proof. by split. Qed.

Lemma mutation_all_or_nothing_witness :
  ∃ old new mode,
    applied ex_alone "Edit" "a.go" "" (f_data <$> old) new (Edited 1) ∧
    match old with
    | Some f => as_authorised "/work/a.go" (ex_files "x") (ex_proof "Edit" "/work/a.go" (artifactBytesRevision "x") false) f ∧
                mode = f_mode f
    | None => nothing_there "/work/a.go" (ex_files "x") (ex_proof "Edit" "/work/a.go" (artifactBytesRevision "x") false) ∧
              mode = 420
    end.
Proof.
  pose proof (mutation_all_or_nothing ex_alone "Edit" "a.go" "/work" ex_edit_x
    (ex_proof "Edit" "/work/a.go" (artifactBytesRevision "x") false) (ex_world (ex_files "x")) ex_quiet eq_refl) as H.
  assert (Hr : (executeMutationTool ex_alone "Edit" "a.go" "/work" ex_edit_x (ex_world (ex_files "x"))).2 = Ok (Edited 1))
    by (vm_compute; reflexivity).
  cbv zeta in H. rewrite Hr in H. destruct H as (old & new & mode & H1 & H2 & _).
  - intros t. split; [vm_compute; reflexivity|]. intros Hin. apply list_elem_of_In in Hin. vm_compute in Hin.
    repeat destruct Hin as [Hin|Hin]; discriminate Hin || exact Hin.
  - intros Hin. apply list_elem_of_In in Hin. vm_compute in Hin.
    repeat destruct Hin as [Hin|Hin]; discriminate Hin || exact Hin.
  - exists old, new, mode. split; [exact H1|exact H2].
Defined.

(** Two mutations: a file is edited, another one created in a directory that was not there. *)
Definition ex_edited : committedFileMutation :=
  {| CmResultIndex := 0;
     CmSnapshot := {| SnPath := "/work/a.go"; SnExisted := true; SnData := "x"; SnMode := 420;
                      SnRevision := artifactBytesRevision "x" |};
     CmPostRevision := artifactBytesRevision "y" |}.
Definition ex_created : committedFileMutation :=
  {| CmResultIndex := 1;
     CmSnapshot := {| SnPath := "/work/new/b.go"; SnExisted := false; SnData := ""; SnMode := 420; SnRevision := "" |};
     CmPostRevision := artifactBytesRevision "b" |}.
Definition ex_journal : list committedFileMutation := [ex_edited; ex_created].
Definition ex_after : Files :=
  <["/work/new/b.go" := Regular {| f_data := "b"; f_mode := 420 |}]> (<["/work/new" := OtherNode]> (ex_files "y")).

Lemma ex_journaled : journaled (ex_files "x") ["/work/new"] ex_journal ex_after.
Proof.
  apply (journaled_snoc _ [] [ex_edited] ex_created ["/work/new"] (ex_files "y") _ {| f_data := "b"; f_mode := 420 |}); [| |reflexivity| |reflexivity].
  - apply (journaled_snoc _ [] [] ex_edited [] (ex_files "x") _ {| f_data := "y"; f_mode := 420 |}); [| |reflexivity| |reflexivity].
    + by constructor.
    + vm_compute. by split.
    + intros q Hq. left. cbn [SnPath CmSnapshot ex_edited] in Hq. unfold ex_files, singletonM, map_singleton. rewrite !node_insert.
      repeat case_decide; done.
  - vm_compute. reflexivity.
  - intros q Hq. cbn [SnPath CmSnapshot ex_created] in Hq. unfold ex_after. rewrite !node_insert.
    rewrite (decide_False (P := "/work/new/b.go" = q)) by done. case_decide as Hd; [right|by left]. subst q.
    split_and!; [by left|reflexivity|reflexivity].
Qed.

(** After the rollback the directory is still there. *)
Lemma batch_rollback_restores_witness :
  journaled (ex_files "x") ["/work/new"] ex_journal ex_after ∧
  (∀ p, p ≠ "/work/new" → node (files (rollback_journal ex_alone ex_journal (ex_world ex_after)).1) p = node (ex_files "x") p) ∧
  node (files (rollback_journal ex_alone ex_journal (ex_world ex_after)).1) "/work/new" = OtherNode.
Proof.
  split; [apply ex_journaled|].
  destruct (batch_rollback_restores ex_alone (ex_files "x") ["/work/new"] ex_journal ex_after (ex_world ex_after) ex_quiet
    ex_journaled) as (_ & _ & H); [reflexivity| |].
  - intros mutation t Hin. apply list_elem_of_In in Hin.
    destruct Hin as [<-|[<-|[]]]; (split; [vm_compute; reflexivity|split; [intros [E|[]%not_elem_of_nil]%elem_of_cons; vm_compute in E; discriminate E|]]);
      intros mutation' Hin; apply list_elem_of_In in Hin; destruct Hin as [<-|[<-|[]]]; intros E; vm_compute in E; discriminate E.
  - split; [|vm_compute; reflexivity]. intros p Hp. destruct (H p) as [E|([E|[]%not_elem_of_nil]%elem_of_cons & _)]; [exact E|done].
Defined.

Definition ex_decision : ReadLedgerDecision :=
  ledger_decision true ReadLedgerAllowed "/work/a.go" "r" "r" None.
Definition ex_tokens : list TokenOp := [TBind (λ i, Some i) (Some "tok") 5 "{}" "Edit" ex_decision].

Lemma mutation_token_sound_witness :
  PcCanonicalPath (ex_proof "Edit" "/work/a.go" "r" false) = "/work/a.go" ∧
  ∃ later compact bound_at bound_input decision earlier,
    ex_tokens = later ++ TBind compact (Some "tok") bound_at bound_input "Edit" decision :: earlier ∧
    RdAllowed decision = true ∧ 6 < bound_at + fileMutationProofTTL.
Proof.
  split; [reflexivity|].
  destruct (unwrapFileMutationExecutionInput 6 {| EnToken := "tok"; EnInput := "{}" |} "Edit" (tokens_after ex_tokens))
    as [pending [[input proof]|e]] eqn:Hu; [|vm_compute in Hu; discriminate Hu].
  destruct (mutation_token_sound ex_tokens 6 {| EnToken := "tok"; EnInput := "{}" |} "Edit" input proof)
    as (later & compact & bat & binput & d & earlier & H1 & H2 & _ & _ & _ & _ & _ & H3 & _); [by rewrite Hu|].
  exists later, compact, bat, binput, d, earlier. split; [exact H1|]. split; [exact H2|exact H3].
Defined.

(** A replaced file keeps its nine permission bits only: a set-user-ID bit is lost, by an
    edit and by the rollback alike. *)
Example special_mode_bits_lost : staged_mode (2 ^ 23 + 493) = 493 ∧ staged_mode 0 = 420.
Proof. vm_compute. split; reflexivity. Qed.
