(* ===== verification/Dispatch.v ===== *)
(** * Tool dispatch: internal/agent/tool_dispatch.go, concurrency.go and the batch part of
    file_mutation_batch.go

    The boundary between a model's tool calls and their executors.  Every call of a turn
    is authorized before any is executed; the calls that only read then run
    concurrently, and the others one after the other, file mutations as one batch that is
    rolled back when one of them fails.

    The dispatcher is a program ([Prog]) over the [World] of a run: what is outside (the
    files, the pending mutation tokens, everything behind the callbacks), the read ledger,
    the run guard, and a log.  The log is not in the code: it records, for each slot of the
    turn, what crosses the boundary, and the theorems speak about it.  The callbacks of
    [toolDispatchOptions] are functions that may change what is outside; so may others,
    between any two actions ([interfere]).  Error texts of other components are
    arguments ([Host]). *)

From stdpp Require Import sorting.
From S2P Require Export Prog Permission ApprovalProof ToolCatalog ToolSchema FileMutation.

Local Open Scope string_scope.
Local Open Scope list_scope.
Local Open Scope Z_scope.
Local Open Scope prog_scope.

(** ** Calls, results, events *)

Record toolUseBlock := { TuID : string; TuName : string; TuInputRaw : string; TuInput : string }.

Record toolMutationPreview := { MpFile : string; MpBefore : string; MpCheckpointCaptured : bool }.
Definition no_preview : toolMutationPreview := Build_toolMutationPreview "" "" false.

Record toolDispatchResult := {
  TrTool : toolUseBlock;
  TrContent : string;
  TrDisplay : string;
  TrIsError : bool;
  TrExecuted : bool;
  TrSynthetic : bool;
  TrConcurrent : bool;
  TrMutation : toolMutationPreview;
}.

Definition deniedToolResult (call : toolUseBlock) (reason : string) : toolDispatchResult :=
  let reason := trim_space reason in
  let reason := if String.eqb reason "" then "Tool call denied" else reason in
  {| TrTool := call; TrContent := "Permission denied: " +:+ reason; TrDisplay := "[BLOCKED] " +:+ reason;
     TrIsError := true; TrExecuted := false; TrSynthetic := true; TrConcurrent := false; TrMutation := no_preview |}.

Definition executed_result (call : toolUseBlock) (content : string) (isError : bool) (mutation : toolMutationPreview)
    : toolDispatchResult :=
  {| TrTool := call; TrContent := content; TrDisplay := content; TrIsError := isError; TrExecuted := true;
     TrSynthetic := false; TrConcurrent := false; TrMutation := mutation |}.

(** Assignments to the fields of a result. *)
Definition mark_concurrent (r : toolDispatchResult) : toolDispatchResult :=
  {| TrTool := TrTool r; TrContent := TrContent r; TrDisplay := TrDisplay r; TrIsError := TrIsError r;
     TrExecuted := TrExecuted r; TrSynthetic := TrSynthetic r; TrConcurrent := true; TrMutation := TrMutation r |}.
Definition append_content (s : string) (r : toolDispatchResult) : toolDispatchResult :=
  {| TrTool := TrTool r; TrContent := TrContent r +:+ s; TrDisplay := TrDisplay r; TrIsError := TrIsError r;
     TrExecuted := TrExecuted r; TrSynthetic := TrSynthetic r; TrConcurrent := TrConcurrent r; TrMutation := TrMutation r |}.
(** [IsError = true], and one text for [Content] and [Display]. *)
Definition mark_failed (text : string) (r : toolDispatchResult) : toolDispatchResult :=
  {| TrTool := TrTool r; TrContent := text; TrDisplay := text; TrIsError := true;
     TrExecuted := TrExecuted r; TrSynthetic := TrSynthetic r; TrConcurrent := TrConcurrent r; TrMutation := TrMutation r |}.

Record ToolExecutionJournalEntry := { JeID : string; JeName : string; JeInputDigest : string; JeRunID : string }.

(** [Event], by its [Type], with what [Data] holds. *)
Inductive Event :=
| EvToolInput (id name : string) (input : RawMessage) (danger : string)
| EvApprovalRequired (pending : Pending)
| EvToolExecutionStart (entry : ToolExecutionJournalEntry).

(** What [opts.Execute] is called with: the raw input, wrapped in its envelopes. *)
Inductive ExecutionInput :=
| BoundInput (text : string)
| MutationInput (e : fileMutationExecutionEnvelope)
| HostInput (proof : hostInteractionApprovalProof) (inner : ExecutionInput)
| PluginInput (proof : pluginApprovalProof) (inner : ExecutionInput).

(** *** Helpers on calls *)

Definition danger_text (d : DangerLevel) : string :=
  match d with DangerSafe => "safe" | DangerModerate => "moderate" | DangerDangerous => "dangerous" | DangerUnknown => "unknown" end.

Definition toolInputDigest (call : toolUseBlock) : string :=
  "sha256:" +:+ sha256_hex (TuName call +:+ nul_byte +:+ TuInput call).

Definition journal_entry (runID : string) (call : toolUseBlock) : ToolExecutionJournalEntry :=
  {| JeID := TuID call; JeName := TuName call; JeInputDigest := toolInputDigest call; JeRunID := runID |}.

Definition isFileMutationTool (name : string) : bool := String.eqb name "Write" || String.eqb name "Edit".

Definition planModeTools : list string :=
  ["Read"; "Glob"; "Grep"; "LS"; "RepoMap"; "LSP"; "LoadToolResult"; "LoadSkill"; "ReportCompletion"].
Definition egressTools : list string := ["WebSearch"; "WebFetch"; "WebResearch"; "HTTPRequest"].
Definition IsEgressTool (name : string) : bool := existsb (String.eqb name) egressTools.

(** The object an input decodes to; anything else leaves the map empty. *)
Definition IsConcurrencySafe (toolName : string) (input : members) : bool :=
  if existsb (String.eqb toolName) ["Read"; "Glob"; "Grep"; "RepoMap"; "LSP"; "LoadToolResult"] then true
  else if existsb (String.eqb toolName) ["Write"; "Edit"] then false
  else if existsb (String.eqb toolName) ["Bash"; "Git"] then
    bool_decide (Kind (classifyCommandEffect toolName input) = CommandEffectReadOnly)
  else false.

Section calls.
Context (decode : string → RawMessage).

Definition normalizeDispatchToolCall (call : toolUseBlock) : result string toolUseBlock :=
  let raw := if negb (String.eqb (trim_space (TuInputRaw call)) "") then trim_space (TuInputRaw call)
             else trim_space (TuInput call) in
  let raw := if String.eqb raw "" then "{}" else raw in
  match decode raw with
  | Some (JObject _) => Ok {| TuID := TuID call; TuName := TuName call; TuInputRaw := raw; TuInput := raw |}
  | Some JNull => Err "tool input must be a JSON object"
  | Some _ => Err "json: cannot unmarshal into Go value"
  | None => Err "invalid JSON"
  end.

Fixpoint first_path (object : members) (keys : list string) : string :=
  match keys with
  | [] => ""
  | key :: keys' =>
      match last_member key object ≫= unmarshal_string with
      | Some path => let path := trim_space path in if String.eqb path "" then first_path object keys' else path
      | None => first_path object keys'
      end
  end.
Definition dispatchFilePath (input : string) : string :=
  match unmarshal_map (decode input) with
  | Some object => first_path object ["file_path"; "path"]
  | None => ""
  end.

Definition redactedApprovalInput (call : toolUseBlock) : string :=
  let path := dispatchFilePath (TuInput call) in
  if negb (String.eqb path "") then json_object [("file_path", json_string path)]
  else "{" +:+ dquote +:+ "input" +:+ dquote +:+ ":" +:+ dquote +:+ "omitted" +:+ dquote +:+ "," +:+
       dquote +:+ "digest" +:+ dquote +:+ ":" +:+ dquote +:+ toolInputDigest call +:+ dquote +:+ "}".

Definition approvalScope (call : toolUseBlock) : string :=
  let path := dispatchFilePath (TuInput call) in if negb (String.eqb path "") then path else "workspace".
End calls.

(** ** The world *)

Section dispatch.
Context {Env : Type}.

Record Outside := { o_io : FileMutation.World; o_pending : Preconditions; o_env : Env }.
Definition Callback (A R : Type) : Type := A → Outside → Outside * R.

(** [approval.Requester], and the optional [FullModeIssuer] and [FullModeGrantConsumer].
    What [Await] sees of the run's context is part of what is outside. *)
Record Requester := {
  RqOpen : Callback Draft (option Pending);
  RqAwait : Callback (string * string) (result string Resolution);
  RqIssue : option (Callback (Draft * Snapshot) (option Pending));
  RqConsume : option (Callback (Pending * Draft * Snapshot) bool);
}.

Record toolDispatchOptions := {
  OpContextDone : option (Outside → bool);
  OpExecutionPolicy : option Snapshot;
  OpWorkDir : string;
  OpAllowedTools : gset string;
  OpPlanMode : bool;
  OpPermissionConfig : PermissionConfig;
  OpSnapshotDecision : option (Callback toolUseBlock string);
  OpApprovalRequester : option Requester;
  OpSessionID : string;
  OpSessionRevision : Z;
  OpRunID : string;
  OpReadBeforeWrite : bool;
  OpPlanStep : string;
  OpScopeCheck : option (Callback toolUseBlock (bool * string));
  OpInstructionCheck : option (Callback toolUseBlock (bool * string));
  OpInstructionBegin : option (Callback unit unit);
  OpInstructionFinish : option (Callback unit unit);
  OpPreHook : option (Callback toolUseBlock (bool * string));
  OpPostHook : option (Callback (toolUseBlock * string * bool) unit);
  OpBeforeExecute : option (Callback toolUseBlock (toolMutationPreview * bool));
  OpMutationBatchCommitted : option (Callback (list committedFileMutation) bool);
  OpMutationBatchSettled : option (Callback (list string) bool);
  OpPreExecutionJournal : option (Callback ToolExecutionJournalEntry bool);
  OpExecute : option (Callback (toolUseBlock * ExecutionInput) (string * bool));
  OpEmit : option (Callback Event unit);
}.

(** The process around the dispatcher: decoding, the system calls, the registry of catalogs
    and the executors alive, the environment, the random keys, and the texts of errors. *)
Record Host := {
  decode : string → RawMessage;
  compact : string → option string;
  machine : Machine;
  registry : Outside → Registry;
  live : Outside → Live;
  offline : Outside → bool;
  clock : Outside → time;
  new_token : Outside → option string;
  host_key : option string;
  plugin_key : option string;
  catalog_message : CatalogError → string;
  schema_message : SchemaError → string;
  path_message : PathError → string;
  ledger_message : LedgerError → string;
  mutation_message : MutationError → string;
  snapshot_message : SnapshotError → string;
  rollback_message : RollbackError → string;
  io_message : IoError → string;
}.
Context (host : Host) (opts : toolDispatchOptions).

(** What crosses the boundary. *)
Inductive DispatchEvent :=
| DContext (done : bool)
| DIdentity (name : string) (valid : bool)
| DOffline (o : bool)
| DScope (call : toolUseBlock) (allowed : bool)
| DPermission (call : toolUseBlock) (p : PermissionResult)
| DInstruction (call : toolUseBlock) (allowed : bool)
| DClock (t : time)
| DOpened (draft : Draft) (p : option Pending)
| DAnswered (sessionID approvalID : string) (answer : result string Resolution)
| DIssued (draft : Draft) (policy : Snapshot) (p : option Pending)
| DHook (call : toolUseBlock) (blocked : bool)
| DLedger (call : toolUseBlock) (d : ReadLedgerDecision)
| DGuard (input : ActionFingerprintInput) (allowed : bool)
| DCheckpoint (call : toolUseBlock) (ok : bool)
| DJournal (entry : ToolExecutionJournalEntry) (ok : bool)
| DGrant (grant : Pending) (expected : Draft) (ok : bool)
| DEmit (e : Event)
| DExecute (call : toolUseBlock) (input : ExecutionInput) (content : string) (isError : bool)
| DPostHook (call : toolUseBlock) (content : string) (isError : bool)
| DRollback (m : committedFileMutation) (ok : bool).

Record World := {
  out : Outside;
  ledger : option ReadLedger;
  guard : option RunGuard;
  captured : list string;
  log : list (nat * DispatchEvent);
}.
Definition set_out (o : Outside) (w : World) : World :=
  {| out := o; ledger := ledger w; guard := guard w; captured := captured w; log := log w |}.
Definition set_ledger (l : option ReadLedger) (w : World) : World :=
  {| out := out w; ledger := l; guard := guard w; captured := captured w; log := log w |}.
Definition set_guard (g : option RunGuard) (w : World) : World :=
  {| out := out w; ledger := ledger w; guard := g; captured := captured w; log := log w |}.
Definition set_captured (c : list string) (w : World) : World :=
  {| out := out w; ledger := ledger w; guard := guard w; captured := c; log := log w |}.
Definition add_log (i : nat) (e : DispatchEvent) (w : World) : World :=
  {| out := out w; ledger := ledger w; guard := guard w; captured := captured w; log := (i, e) :: log w |}.

Definition interfere (w w' : World) : Prop := ∃ o, w' = set_out o w.

Definition io (w : World) : FileMutation.World := o_io (out w).
Definition current_files (w : World) : Files := files (io w).
Definition current_os (w : World) : OS := os_at (machine host) (tick (io w)).
Definition set_io (s : FileMutation.World) (w : World) : World :=
  set_out {| o_io := s; o_pending := o_pending (out w); o_env := o_env (out w) |} w.
Definition set_pending (p : Preconditions) (w : World) : World :=
  set_out {| o_io := io w; o_pending := p; o_env := o_env (out w) |} w.

#[local] Notation PROG := (Prog World).

(** One call of a callback, recorded for slot [i]. *)
Definition call_back {A R} (i : nat) (f : Callback A R) (a : A) (event : R → DispatchEvent) : PROG R :=
  act (λ w, let '(o, r) := f a (out w) in (add_log i (event r) (set_out o w), r)).
Definition quietly {A R} (f : Callback A R) (a : A) : PROG R :=
  act (λ w, let '(o, r) := f a (out w) in (set_out o w, r)).
Definition observe {R} (i : nat) (f : World → R) (event : R → DispatchEvent) : PROG R :=
  act (λ w, let r := f w in (add_log i (event r) w, r)).
Definition system_call {R} (c : IO R) : PROG R :=
  act (λ w, let '(s, r) := c (io w) in (set_io s w, r)).

Definition deny {A} (call : toolUseBlock) (reason : string) : PROG (result toolDispatchResult A) :=
  fail (deniedToolResult call reason).
(** [if !b { results[index] = deniedToolResult(call, reason); continue }]. *)
Definition check (b : bool) (call : toolUseBlock) (reason : string) : PROG (result toolDispatchResult unit) :=
  require b (deniedToolResult call reason).
Definition or_deny {A E} (r : result E A) (call : toolUseBlock) (reason : E → string) : PROG (result toolDispatchResult A) :=
  lift (map_err (λ e, deniedToolResult call (reason e)) r).

Definition emit (i : nat) (e : Event) : PROG unit :=
  match OpEmit opts with Some f => call_back i f e (λ _, DEmit e) | None => mret tt end.

Definition dispatchContextDenial (i : nat) (call : toolUseBlock) : PROG (result toolDispatchResult unit) :=
  match OpContextDone opts with
  | None => mret (Ok tt)
  | Some is_done =>
      d ← observe i (λ w, is_done (out w)) DContext;
      check (negb d) call "Run context was canceled before tool execution"
  end.

Definition validate_identity (i : nat) (call : toolUseBlock) : PROG (result toolDispatchResult unit) :=
  r ← observe i (λ w, validateToolExecutorIdentity (registry host (out w)) (live host (out w)) (OpAllowedTools opts) (TuName call))
        (λ r, DIdentity (TuName call) (is_ok r));
  or_deny r call (λ e, "Tool executor identity check failed: " +:+ catalog_message host e).

Definition is_full : bool := full_mode (OpExecutionPolicy opts).
Definition is_read_only : bool :=
  match OpExecutionPolicy opts with Some p => String.eqb (SMode p) ModeReadOnly | None => false end.

(** ** Authorization *)

Record preparedToolCall := {
  PtIndex : nat;
  PtTool : toolUseBlock;
  PtConcurrent : bool;
  PtDanger : DangerLevel;
  PtHostApproval : option hostInteractionApprovalProof;
  PtPluginApproval : option pluginApprovalProof;
  PtFullModeGrant : option Pending;
}.

Definition fullModeApprovalDraft (call : toolUseBlock) (identity : toolExecutorIdentity) (danger : DangerLevel) : Draft :=
  {| dSessionID := OpSessionID opts; dSessionRevision := OpSessionRevision opts; dRunID := OpRunID opts;
     dToolCallID := TuID call; dToolName := TuName call; dExecutorID := TiExecutorID identity;
     dRedactedInput := redactedApprovalInput (decode host) call; dInputDigest := toolInputDigest call;
     dExecutionPolicyRevision := match OpExecutionPolicy opts with Some p => SRevision p | None => 0 end;
     dFullSelectionRevision := match OpExecutionPolicy opts with Some p => FullSelectionRevision p | None => 0 end;
     dDangerLevel := danger_text danger; dScope := approvalScope (decode host) call; dRememberAllowed := false |}.

Definition pendingMatchesApprovalDraft (now : time) (p : Pending) (d : Draft) (source : string) : bool :=
  negb (blank (pID p)) && String.eqb (pSessionID p) (dSessionID d) && (pSessionRevision p =? dSessionRevision d) &&
  String.eqb (pRunID p) (dRunID d) && String.eqb (pToolCallID p) (dToolCallID d) && String.eqb (pToolName p) (dToolName d) &&
  String.eqb (pExecutorID p) (dExecutorID d) && String.eqb (pRedactedInput p) (dRedactedInput d) &&
  String.eqb (pInputDigest p) (dInputDigest d) && (pExecutionPolicyRevision p =? dExecutionPolicyRevision d) &&
  (pFullSelectionRevision p =? dFullSelectionRevision d) && String.eqb (pApprovalSource p) source &&
  String.eqb (pDangerLevel p) (dDangerLevel d) && String.eqb (pScope p) (dScope d) &&
  Bool.eqb (pRememberAllowed p) (dRememberAllowed d) && time_after (pExpiresAt p) now.

Definition now : PROG time := ask (λ w, clock host (out w)).
(** A reading of the clock that an approval depends on. *)
Definition read_clock (i : nat) : PROG time := observe i (λ w, clock host (out w)) DClock.

Definition not_expired (p : Pending) (t : time) : bool := is_zero (pExpiresAt p) || time_after (pExpiresAt p) t.

(** [Open], the checks of what it gives, [Await], the checks of its answer. *)
Definition request_from_user (i : nat) (call : toolUseBlock) (requester : Requester) (draft : Draft)
    : PROG (result toolDispatchResult Pending) :=
  p ← call_back i (RqOpen requester) draft (DOpened draft);
  match p with
  | None => deny call "Approval request could not be opened"
  | Some pending =>
      t ← read_clock i;
      t' ← read_clock i;
      _ ←? check (pendingMatchesApprovalDraft t pending draft ApprovalSourceUser && not_expired pending t') call
             "Approval request metadata is invalid";
      _ ← emit i (EvApprovalRequired pending);
      r ← call_back i (RqAwait requester) (OpSessionID opts, pID pending) (DAnswered (OpSessionID opts) (pID pending));
      t'' ← read_clock i;
      match r with
      | Ok resolution =>
          _ ←? check (String.eqb (resApprovalID resolution) (pID pending) && Allowed resolution && not_expired pending t'') call
                 "Explicit approval was denied or became unavailable";
          mret (Ok pending)
      | Err _ => deny call "Explicit approval was denied or became unavailable"
      end
  end.

(** The approval of one call: an error, or the pending approval that was given. *)
Definition requestToolApproval (i : nat) (call : toolUseBlock) (danger : DangerLevel) (identity : toolExecutorIdentity)
    : PROG (result toolDispatchResult Pending) :=
  match OpApprovalRequester opts with
  | None => deny call "Explicit approval is required but no approval requester is available"
  | Some requester =>
      if blank (OpSessionID opts) then deny call "Explicit approval is required but the active session ID is unavailable"
      else
        let draft := fullModeApprovalDraft call identity danger in
        match OpExecutionPolicy opts with
        | Some policy =>
            if is_full && (negb (bool_decide (TiKind identity = toolExecutorBuiltIn)) || isHostInteractionTool (TuName call)) then
              match RqIssue requester with
              | None => deny call "Full-mode grant issuer is unavailable"
              | Some issue =>
                  p ← call_back i issue (draft, policy) (DIssued draft policy);
                  t ← read_clock i;
                  match p with
                  | Some pending =>
                      _ ←? check (pendingMatchesApprovalDraft t pending draft ApprovalSourceUserSelectedFull) call
                             "Full-mode grant could not be issued for this exact tool call";
                      mret (Ok pending)
                  | None => deny call "Full-mode grant could not be issued for this exact tool call"
                  end
              end
            else request_from_user i call requester draft
        | None => request_from_user i call requester draft
        end
  end.

Definition is_kind (k : toolExecutorProvenance) (identity : toolExecutorIdentity) : bool := bool_decide (TiKind identity = k).

(** Plan mode, air gap and read-only mode. *)
Definition check_mode (i : nat) (call : toolUseBlock) (identity : toolExecutorIdentity)
    : PROG (result toolDispatchResult unit) :=
  _ ←? check (negb (OpPlanMode opts) || existsb (String.eqb (TuName call)) planModeTools) call
         "Plan mode is read-only; describe the change instead of executing it";
  o ← observe i (λ w, offline host (out w)) DOffline;
  _ ←? check (negb (o && IsEgressTool (TuName call))) call (TuName call +:+ " is disabled in air-gap mode");
  match OpExecutionPolicy opts with
  | Some policy =>
      if String.eqb (SMode policy) ModeReadOnly then
        _ ←? check (negb (tool_in (canonicalPermissionToolName (TuName call)) ["Bash"; "Git"])
                    || FilesystemIsolation (RuntimeCapabilities policy)) call
               "Read-only shell execution requires filesystem isolation";
        check (is_kind toolExecutorBuiltIn identity && readOnlyPolicyAllowsBuiltIn (TuName call) (decode host (TuInput call))) call
          "Read-only execution mode blocks this tool effect"
      else mret (Ok tt)
  | None => mret (Ok tt)
  end.

(** A callback that allows or refuses with a reason, [fallback] if it gives none. *)
Definition check_callback (i : nat) (f : option (Callback toolUseBlock (bool * string))) (call : toolUseBlock)
    (event : bool → DispatchEvent) (fallback : string) : PROG (result toolDispatchResult unit) :=
  match f with
  | None => mret (Ok tt)
  | Some f =>
      r ← call_back i f call (λ r, event r.1);
      check r.1 call (if String.eqb (trim_space r.2) "" then fallback else r.2)
  end.

Definition run_pre_hook (i : nat) (call : toolUseBlock) : PROG (result toolDispatchResult unit) :=
  match OpPreHook opts with
  | None => mret (Ok tt)
  | Some hook =>
      r ← call_back i hook call (λ r, DHook call r.1);
      check (negb r.1) call ("Pre-tool hook blocked: " +:+ trim_space r.2)
  end.

Definition resolve_permission (i : nat) (call : toolUseBlock) : PROG PermissionResult :=
  d ← match OpSnapshotDecision opts with Some f => quietly f call | None => mret "" end;
  observe i (λ w, ResolvePermissionWithPolicy (current_os w) (path_message host) (TuName call) (decode host (TuInput call))
                    (OpWorkDir opts) (OpPermissionConfig opts) d (OpExecutionPolicy opts)) (DPermission call).

Definition policy_or_empty : Snapshot := default zeroSnapshot (OpExecutionPolicy opts).

(** The proofs a call of a host-interaction tool or a plugin carries. *)
Definition mint_proofs (call : toolUseBlock) (identity : toolExecutorIdentity) (completed : option Pending)
    : PROG (result toolDispatchResult (option hostInteractionApprovalProof * option pluginApprovalProof)) :=
  let pending := default (Build_Pending "" "" 0 "" "" "" "" "" "" 0 0 "" "" "" false time_zero time_zero) completed in
  t ← now;
  h ←? (if isHostInteractionTool (TuName call) then
          match mintHostInteractionApproval (host_key host) t pending (TuID call) (TuInput call) policy_or_empty with
          | Ok proof => mret (Ok (Some proof))
          | Err _ => deny call "Host interaction approval proof could not be created"
          end
        else mret (Ok None));
  t ← now;
  p ←? (if is_kind toolExecutorPlugin identity then
          match mintPluginApproval (plugin_key host) t pending (TuID call) (TuInput call) policy_or_empty with
          | Ok proof => mret (Ok (Some proof))
          | Err _ => deny call "Plugin approval proof could not be created"
          end
        else mret (Ok None));
  mret (Ok (h, p)).

(** The approvals: the one the permission asks for, and the one for calls that always need
    one. A pending approval without identifier counts as none. *)
Definition obtain_approval (i : nat) (call : toolUseBlock) (permission : PermissionResult) (identity : toolExecutorIdentity)
    : PROG (result toolDispatchResult (option Pending)) :=
  completed ←? match PDecision permission with
               | PermissionDeny => deny call (PReason permission)
               | PermissionApproval => p ←? requestToolApproval i call (PDanger permission) identity; mret (Ok (Some p))
               | PermissionAllow => mret (Ok None)
               end;
  _ ←? check (negb is_full || is_kind toolExecutorBuiltIn identity || is_kind toolExecutorMCP identity
              || is_kind toolExecutorPlugin identity) call "Full-mode executor identity is unsupported";
  let needsBoundAuthorization := isHostInteractionTool (TuName call) || is_kind toolExecutorPlugin identity ||
        (is_full && negb (is_kind toolExecutorBuiltIn identity)) in
  if needsBoundAuthorization && match completed with Some p => String.eqb (pID p) "" | None => true end
  then p ←? requestToolApproval i call (PDanger permission) identity; mret (Ok (Some p))
  else mret (Ok completed).

Definition has_source (source : string) (p : option Pending) : bool :=
  match p with Some p => String.eqb (pApprovalSource p) source | None => false end.

(** One round of the authorization loop, up to the pre-tool hook, for a normalized call: the
    identity of the executor, the permission and the approval. *)
Definition authorize_gates (i : nat) (call : toolUseBlock)
    : PROG (result toolDispatchResult (toolExecutorIdentity * PermissionResult * option Pending)) :=
  _ ←? check (bool_decide (TuName call ∈ OpAllowedTools opts)) call
         ("Tool is not present in the immutable catalog: " +:+ TuName call);
  r ← ask (λ w, schemaForAllowedTool (registry host (out w)) (OpAllowedTools opts) (TuName call));
  schema ←? or_deny r call (λ e, "Tool input schema unavailable: " +:+ catalog_message host e);
  _ ←? or_deny (validateToolInputSchema (decode host) (TuInput call) schema) call
         (λ e, "Tool input schema validation failed: " +:+ schema_message host e);
  r ← ask (λ w, executorIdentityForAllowedTool (registry host (out w)) (OpAllowedTools opts) (TuName call));
  identity ←? or_deny r call (λ e, "Tool executor identity is unavailable: " +:+ catalog_message host e);
  _ ←? validate_identity i call;
  _ ←? check_mode i call identity;
  _ ←? check_callback i (OpScopeCheck opts) call (DScope call) "Tool target is outside the assigned scope";
  permission ← resolve_permission i call;
  _ ← emit i (EvToolInput (TuID call) (TuName call) (decode host (TuInput call)) (danger_text (PDanger permission)));
  _ ←? (if bool_decide (PDecision permission = PermissionDeny) then mret (Ok tt)
        else check_callback i (OpInstructionCheck opts) call (DInstruction call)
               "Applicable project instructions must be reviewed before this tool call");
  completed ←? obtain_approval i call permission identity;
  _ ← (if has_source ApprovalSourceUser completed then put (λ w, set_guard (Reset <$> guard w) w) else mret tt);
  _ ←? dispatchContextDenial i call;
  mret (Ok (identity, permission, completed)).

(** One round of the authorization loop. *)
Definition authorize (i : nat) (original : toolUseBlock) : PROG (result toolDispatchResult preparedToolCall) :=
  call ←? or_deny (normalizeDispatchToolCall (decode host) original) original (λ e, "Invalid tool input: " +:+ e);
  gates ←? authorize_gates i call;
  let '(identity, permission, completed) := gates in
  _ ←? run_pre_hook i call;
  proofs ←? mint_proofs call identity completed;
  mret (Ok {| PtIndex := i; PtTool := call;
              PtConcurrent := IsConcurrencySafe (TuName call) (default [] (unmarshal_map (decode host (TuInput call))));
              PtDanger := PDanger permission; PtHostApproval := proofs.1; PtPluginApproval := proofs.2;
              PtFullModeGrant := if has_source ApprovalSourceUserSelectedFull completed then completed else None |}).

(** ** Execution *)

Definition readLedgerDenialReason (d : ReadLedgerDecision) : string :=
  if String.eqb (RdCode d) ReadLedgerReadRequired then
    "Read-before-write blocked: read the existing file before changing it"
  else if String.eqb (RdCode d) ReadLedgerStaleRead then
    "Read-before-write blocked: the file changed after it was read"
  else if String.eqb (RdCode d) ReadLedgerMissingTarget then "Edit target does not exist"
  else match RdDetail d with
  | Some e => if String.eqb (trim_space (ledger_message host e)) "" then "Read-before-write safety check failed"
              else "Read-before-write blocked: " +:+ ledger_message host e
  | None => "Read-before-write safety check failed"
  end.

Definition check_ledger (call : toolUseBlock) (l : ReadLedger) (w : World) : ReadLedgerDecision :=
  let path := dispatchFilePath (decode host) (TuInput call) in
  if String.eqb (TuName call) "Write" then CheckWrite (current_os w) (current_files w) path l
  else CheckEdit (current_os w) (current_files w) path l.

(** The ledger part of [checkDispatchRuntimePolicy]: the revision of the target, the
    failure (its code and reason), and the decision a mutation is bound to. *)
Record LedgerVerdict := { lv_revision : string; lv_failure : option (string * string); lv_mutation : option ReadLedgerDecision }.

Definition ledger_verdict (i : nat) (call : toolUseBlock) : PROG LedgerVerdict :=
  let path := dispatchFilePath (decode host) (TuInput call) in
  revision ← ask (λ w, match ledger w with
                       | Some l => if String.eqb path "" then ""
                                   else match CurrentRevision (current_os w) (current_files w) path l with
                                        | Ok r => r
                                        | Err _ => "unavailable"
                                        end
                       | None => ""
                       end);
  if OpReadBeforeWrite opts && isFileMutationTool (TuName call) then
    has ← ask ledger;
    match has with
    | None => mret {| lv_revision := revision;
                      lv_failure := Some (ReadLedgerRevisionUnavailable, "Read-before-write ledger is unavailable");
                      lv_mutation := None |}
    | Some l =>
        d ← observe i (λ w, check_ledger call (default l (ledger w)) w) (DLedger call);
        let revision := if String.eqb (RdCurrentRevision d) "" then revision else RdCurrentRevision d in
        mret {| lv_revision := revision;
                lv_failure := if RdAllowed d then None else Some (RdCode d, readLedgerDenialReason d);
                lv_mutation := if RdAllowed d then Some d else None |}
    end
  else mret {| lv_revision := revision; lv_failure := None; lv_mutation := None |}.

(** The attempt is counted by the guard also when the ledger refuses it. *)
Definition observe_attempt (i : nat) (input : ActionFingerprintInput) : PROG (option RunGuardDecision) :=
  act (λ w, match guard w with
            | Some g => let '(g', d) := Observe (decode host) input g in
                        (add_log i (DGuard input (RgAllowed d)) (set_guard (Some g') w), Some d)
            | None => (w, None)
            end).

Definition checkDispatchRuntimePolicy (i : nat) (call : toolUseBlock)
    : PROG (result toolDispatchResult (option ReadLedgerDecision * ActionFingerprintInput)) :=
  v ← ledger_verdict i call;
  let input := {| AfToolName := TuName call; AfArguments := TuInput call; AfTargetRevision := lv_revision v;
                  AfFailureCode := default "" (fst <$> lv_failure v); AfPlanStep := OpPlanStep opts |} in
  d ← observe_attempt i input;
  _ ←? match d with
       | Some d => check (RgAllowed d) call
           ("Repeated action blocked after " +:+ pretty (RgLimit d) +:+ " equivalent attempts")
       | None => mret (Ok tt)
       end;
  match lv_failure v with
  | Some (_, reason) => deny call reason
  | None => mret (Ok (lv_mutation v, input))
  end.

Definition updateDispatchReadLedger (call : toolUseBlock) (isError : bool) : PROG unit :=
  put (λ w, match ledger w with
            | None => w
            | Some l =>
                let path := dispatchFilePath (decode host) (TuInput call) in
                let os := current_os w in
                let fs := current_files w in
                if String.eqb path "" then w
                else if String.eqb (TuName call) "Read" then
                  if isError then w else set_ledger (Some (RecordRead os fs path l).1) w
                else if isFileMutationTool (TuName call) then
                  if isError then set_ledger (Some (Forget os path l).1) w
                  else set_ledger (Some (RefreshAfterWrite os fs path l).1) w
                else w
            end).

(** What the guard records of a result. *)
Definition observe_result (input : ActionFingerprintInput) (content : string) (isError : bool) : PROG unit :=
  put (λ w, set_guard (match guard w with Some g => Some (ObserveResult (decode host) input content isError g).1 | None => None end) w).

(** The wrapper around [BeforeExecute] in the serial phase: which files have a checkpoint. *)
Definition capture (preview : toolMutationPreview) (w : World) : World :=
  if MpCheckpointCaptured preview && negb (String.eqb (trim_space (MpFile preview)) "")
     && negb (existsb (String.eqb (MpFile preview)) (captured w))
  then set_captured (captured w ++ [MpFile preview]) w else w.

Definition before_execute (i : nat) (call : toolUseBlock) (serial : bool) : PROG (result toolDispatchResult toolMutationPreview) :=
  match OpBeforeExecute opts with
  | None => mret (Ok no_preview)
  | Some f =>
      r ← act (λ w, let '(o, r) := f call (out w) in
                    let w := add_log i (DCheckpoint call r.2) (set_out o w) in
                    (if serial then capture r.1 w else w, r));
      _ ←? check r.2 call "File recovery checkpoint could not be prepared";
      mret (Ok r.1)
  end.

(** The token of a mutation is bound, and discarded when the call is over. *)
Definition bind_mutation (call : toolUseBlock) (bound : string) (d : ReadLedgerDecision)
    : PROG (result toolDispatchResult fileMutationExecutionEnvelope) :=
  r ← act (λ w, let '(pending, r) := bindFileMutationExecutionInput (compact host) (new_token host (out w)) (clock host (out w))
                                       bound (TuName call) d (o_pending (out w)) in
                (set_pending pending w, r));
  or_deny r call (λ e, "File mutation precondition binding failed: " +:+ mutation_message host e).
Definition discard_token (token : string) : PROG unit :=
  put (λ w, set_pending (discardFileMutationPrecondition token (o_pending (out w))) w).

(** [bindHostInteractionExecutionInput], [bindPluginApprovalExecutionInput]. *)
Definition bind_proofs (p : preparedToolCall) (identity : toolExecutorIdentity) (bound : ExecutionInput)
    : result toolDispatchResult ExecutionInput :=
  let call := PtTool p in
  bound ← (if isHostInteractionTool (TuName call) then
             match PtHostApproval p with
             | None => Err (deniedToolResult call "Host interaction approval proof is unavailable")
             | Some proof => if blank (ApSignature proof) then Err (deniedToolResult call "Host interaction approval binding failed")
                             else Ok (HostInput proof bound)
             end
           else Ok bound);
  if is_kind toolExecutorPlugin identity then
    match PtPluginApproval p with
    | None => Err (deniedToolResult call "Executable plugin approval proof is unavailable")
    | Some proof => if blank (ApSignature proof) then Err (deniedToolResult call "Executable plugin approval binding failed")
                    else Ok (PluginInput proof bound)
    end
  else Ok bound.

Definition consume_grant (i : nat) (p : preparedToolCall) (identity : toolExecutorIdentity)
    : PROG (result toolDispatchResult unit) :=
  let call := PtTool p in
  match PtFullModeGrant p with
  | None => mret (Ok tt)
  | Some grant =>
      match OpExecutionPolicy opts with
      | Some policy =>
          _ ←? check is_full call "Full-mode grant is not valid for this execution policy";
          match OpApprovalRequester opts ≫= RqConsume with
          | None => deny call "Full-mode grant consumer is unavailable"
          | Some consume =>
              _ ←? dispatchContextDenial i call;
              _ ←? validate_identity i call;
              let expected := fullModeApprovalDraft call identity (PtDanger p) in
              ok ← call_back i consume (grant, expected, policy) (DGrant grant expected);
              check ok call "Full-mode grant expired or no longer matches this execution"
          end
      | None => deny call "Full-mode grant is not valid for this execution policy"
      end
  end.

(** From the journal on: the last checks and the executor. *)
Definition launch (i : nat) (p : preparedToolCall) (identity : toolExecutorIdentity) (bound : ExecutionInput)
    (input : ActionFingerprintInput) (mutation : toolMutationPreview)
    (execute : Callback (toolUseBlock * ExecutionInput) (string * bool)) : PROG (result toolDispatchResult toolDispatchResult) :=
  let call := PtTool p in
  let entry := journal_entry (OpRunID opts) call in
  _ ←? match OpPreExecutionJournal opts with
       | Some journal => ok ← call_back i journal entry (DJournal entry); check ok call "Tool execution journal failed"
       | None => mret (Ok tt)
       end;
  _ ←? consume_grant i p identity;
  _ ← emit i (EvToolExecutionStart entry);
  r ← call_back i execute (call, bound) (λ r, DExecute call bound r.1 r.2);
  _ ← updateDispatchReadLedger call r.2;
  _ ← observe_result input r.1 r.2;
  _ ← match OpPostHook opts with
      | Some hook => call_back i hook (call, r.1, r.2) (λ _, DPostHook call r.1 r.2)
      | None => mret tt
      end;
  mret (Ok (executed_result call r.1 r.2 mutation)).

(** From the bound input on: the mutation's token lives until the call is over. *)
Definition bind_and_launch (i : nat) (p : preparedToolCall) (identity : toolExecutorIdentity) (bound : string)
    (d : option ReadLedgerDecision) (input : ActionFingerprintInput) (mutation : toolMutationPreview)
    (execute : Callback (toolUseBlock * ExecutionInput) (string * bool)) : PROG (result toolDispatchResult toolDispatchResult) :=
  match d with
  | Some d =>
      envelope ←? bind_mutation (PtTool p) bound d;
      r ← (b ←? lift (bind_proofs p identity (MutationInput envelope)); launch i p identity b input mutation execute);
      _ ← discard_token (EnToken envelope);
      mret r
  | None =>
      b ←? lift (bind_proofs p identity (BoundInput bound));
      launch i p identity b input mutation execute
  end.

Definition settle {A} (p : PROG (result A A)) : PROG A :=
  r ← p; mret (match r with Ok a => a | Err a => a end).

Definition executePreparedToolCall (p : preparedToolCall) (serial : bool) : PROG toolDispatchResult :=
  let i := PtIndex p in
  let call := PtTool p in
  settle (
    _ ←? dispatchContextDenial i call;
    r ← ask (λ w, executorIdentityForAllowedTool (registry host (out w)) (OpAllowedTools opts) (TuName call));
    identity ←? or_deny r call (λ e, "Tool executor identity is unavailable: " +:+ catalog_message host e);
    _ ←? validate_identity i call;
    v ←? checkDispatchRuntimePolicy i call;
    match OpExecute opts with
    | None => deny call "Tool executor is unavailable"
    | Some execute =>
        mutation ←? before_execute i call serial;
        _ ←? dispatchContextDenial i call;
        _ ←? validate_identity i call;
        r ← ask (λ w, bindToolExecutionInput (compact host) (registry host (out w)) (TuInput call) identity);
        bound ←? or_deny r call (λ e, "Tool executor binding failed: " +:+ catalog_message host e);
        bind_and_launch i p identity bound v.1 v.2 mutation execute
    end).

(** ** The mutation batch *)

(** [preflightFileMutationBatch]: the reasons to block, by slot. *)
Definition preflight_one (p : preparedToolCall) : PROG (option (nat * string)) :=
  if negb (isFileMutationTool (TuName (PtTool p))) then mret None
  else
    has ← ask ledger;
    match has with
    | None => mret (Some (PtIndex p, "Read-before-write ledger is unavailable"))
    | Some l =>
        d ← observe (PtIndex p) (λ w, check_ledger (PtTool p) (default l (ledger w)) w) (DLedger (PtTool p));
        mret (if RdAllowed d then None else Some (PtIndex p, readLedgerDenialReason d))
    end.
Definition failure_of (failures : list (nat * string)) (index : nat) : string :=
  match list_find (λ f, f.1 = index) failures with Some (_, f) => f.2 | None => "" end.
Definition preflightFileMutationBatch (calls : list preparedToolCall) : PROG (list (nat * string)) :=
  if negb (OpReadBeforeWrite opts) then mret []
  else
    found ← prog_each preflight_one calls;
    let failures := omap id found in
    mret (if (length failures =? 0)%nat then []
          else omap (λ p, if negb (isFileMutationTool (TuName (PtTool p))) then None
                          else let reason := failure_of failures (PtIndex p) in
                               Some (PtIndex p, if String.eqb reason "" then "File mutation batch blocked because another target failed preflight"
                                                else reason)) calls).

(** [captureFileMutationSnapshot]. *)
Definition snapshot_path (call : toolUseBlock) (w : World) : result string string :=
  let raw := dispatchFilePath (decode host) (TuInput call) in
  if String.eqb (trim_space raw) "" then Err "mutation path is empty"
  else match ledger w with
  | Some l => map_err (ledger_message host) (canonicalPath (current_os w) raw l)
  | None =>
      workspace ← map_err (path_message host) (canonicalWorkspace (current_os w) (OpWorkDir opts));
      map_err (path_message host) (canonicalPathWithinWorkspace (current_os w) raw (OpWorkDir opts) workspace DefaultPermissionConfig)
  end.
Definition captureFileMutationSnapshot (call : toolUseBlock) : PROG (result string fileMutationSnapshot) :=
  path ←? ask (snapshot_path call);
  r ← system_call (capture_snapshot (machine host) (clean path) (TuName call));
  lift (map_err (snapshot_message host) r).

(** [rollbackFileMutationBatch]: the number of errors. *)
Definition rolled_back_text : string :=
  "[TRANSACTION ROLLED BACK] A later file mutation failed, so this earlier change was restored to its pre-turn state.".
Definition rollback_failed_text : string :=
  "[TRANSACTION INCOMPLETE] A later file mutation failed, and this earlier change could not be rolled back safely: ".
Definition rollback_one (mutation : committedFileMutation) (results : list toolDispatchResult)
    : PROG (list toolDispatchResult * bool) :=
  let path := SnPath (CmSnapshot mutation) in
  let i := CmResultIndex mutation in
  r ← act (λ w, let '(s, r) := rollbackCommittedFileMutation (machine host) mutation (io w) in
                (add_log i (DRollback mutation (is_ok r)) (set_io s w), r));
  match r with
  | Err e =>
      _ ← put (λ w, set_ledger (match ledger w with Some l => Some (Forget (current_os w) path l).1 | None => None end) w);
      mret (alter (mark_failed (rollback_failed_text +:+ rollback_message host e)) i results, false)
  | Ok _ =>
      _ ← put (λ w, set_ledger (match ledger w with
                                | Some l => Some (if SnExisted (CmSnapshot mutation)
                                                  then (RefreshAfterWrite (current_os w) (current_files w) path l).1
                                                  else (Forget (current_os w) path l).1)
                                | None => None
                                end) w);
      mret (alter (mark_failed rolled_back_text) i results, true)
  end.
(** The journal from its end. *)
Fixpoint rollback_from (reversed : list committedFileMutation) (results : list toolDispatchResult) (errors : nat)
    : PROG (list toolDispatchResult * nat) :=
  match reversed with
  | [] => mret (results, errors)
  | mutation :: rest =>
      r ← rollback_one mutation results;
      rollback_from rest r.1 (if (r.2 : bool) then errors else S errors)
  end.
Definition rollbackFileMutationBatch (journal : list committedFileMutation) (results : list toolDispatchResult)
    : PROG (list toolDispatchResult * nat) :=
  rollback_from (rev journal) results 0.

Definition rollback_suffix (errors : nat) : string :=
  if (errors =? 0)%nat then "" else "; " +:+ pretty (Z.of_nat errors) +:+ " earlier change(s) could not be rolled back safely".

(** The variables of the serial loop. *)
Record BatchState := {
  bs_results : list toolDispatchResult;
  bs_journal : list committedFileMutation;
  bs_failed : bool;
}.
(** The mutation of slot [i] failed: the earlier ones are rolled back. *)
Definition abort_batch (i : nat) (st : BatchState) : PROG BatchState :=
  r ← rollbackFileMutationBatch (bs_journal st) (bs_results st);
  mret {| bs_results := if (r.2 =? 0)%nat then r.1 else alter (append_content (rollback_suffix r.2)) i r.1;
          bs_journal := []; bs_failed := true |}.
Definition set_result (i : nat) (r : toolDispatchResult) (st : BatchState) : BatchState :=
  {| bs_results := <[i := r]> (bs_results st); bs_journal := bs_journal st; bs_failed := bs_failed st |}.
Definition fail_batch (st : BatchState) : BatchState :=
  {| bs_results := bs_results st; bs_journal := bs_journal st; bs_failed := true |}.

(** One round of the serial loop. *)
Definition serial_step (blocked : list (nat * string)) (p : preparedToolCall) (st : BatchState) : PROG BatchState :=
  let i := PtIndex p in
  let call := PtTool p in
  let isMutation := isFileMutationTool (TuName call) in
  let reason := failure_of blocked i in
  if negb (String.eqb reason "") then mret (fail_batch (set_result i (deniedToolResult call reason) st))
  else if isMutation && bs_failed st then
    mret (set_result i (deniedToolResult call "File mutation batch was aborted after an earlier mutation failed") st)
  else if negb isMutation then r ← executePreparedToolCall p true; mret (set_result i r st)
  else
    snapshot ← captureFileMutationSnapshot call;
    match snapshot with
    | Err e => abort_batch i (set_result i (deniedToolResult call ("File mutation snapshot failed: " +:+ e)) st)
    | Ok snapshot =>
        r ← executePreparedToolCall p true;
        let st := set_result i r st in
        if TrIsError r then abort_batch i st
        else
          revision ← system_call (committedMutationRevision (machine host) snapshot);
          match revision with
          | Err e =>
              abort_batch i (set_result i (mark_failed
                ("[TRANSACTION INCOMPLETE] The mutation executed, but its committed revision could not be captured: " +:+
                 io_message host e) r) st)
          | Ok post =>
              mret {| bs_results := bs_results st;
                      bs_journal := bs_journal st ++ [{| CmResultIndex := i; CmSnapshot := snapshot; CmPostRevision := post |}];
                      bs_failed := bs_failed st |}
          end
    end.
Fixpoint serial_loop (blocked : list (nat * string)) (calls : list preparedToolCall) (st : BatchState) : PROG BatchState :=
  match calls with
  | [] => mret st
  | p :: rest => st' ← serial_step blocked p st; serial_loop blocked rest st'
  end.

(** After the loop: the recovery checkpoint of the batch is committed, or settled. *)
Definition uncommitted_text (errors : nat) : string :=
  if (errors =? 0)%nat then
    "[TRANSACTION ROLLED BACK] The mutation succeeded, but its recovery checkpoint could not be saved; the file was restored."
  else "[TRANSACTION INCOMPLETE] The mutation succeeded, its recovery checkpoint could not be saved, and rollback could not safely restore every change"
       +:+ (if (1 <? errors)%nat then " (" +:+ pretty (Z.of_nat errors) +:+ " rollback conflicts)" else "").
Definition commit_batch (st : BatchState) : PROG BatchState :=
  match OpMutationBatchCommitted opts with
  | Some committed =>
      if negb (bs_failed st) && negb (length (bs_journal st) =? 0)%nat then
        ok ← quietly committed (bs_journal st);
        if ok : bool then mret st
        else
          r ← rollbackFileMutationBatch (bs_journal st) (bs_results st);
          mret {| bs_results := foldl (λ rs m, alter (mark_failed (uncommitted_text r.2)) (CmResultIndex m) rs) r.1 (bs_journal st);
                  bs_journal := bs_journal st; bs_failed := true |}
      else mret st
  | None => mret st
  end.

Definition unsettled (r : toolDispatchResult) : toolDispatchResult :=
  mark_failed ("[TRANSACTION INCOMPLETE] The mutation batch failed and its recovery checkpoint could not be settled safely" +:+
               (if TrExecuted r && negb (String.eqb (TrDisplay r) "") then "; executor result: " +:+ TrDisplay r else "")) r.
Definition settle_batch (calls : list preparedToolCall) (st : BatchState) : PROG BatchState :=
  match OpMutationBatchSettled opts with
  | Some settled =>
      paths ← ask captured;
      if bs_failed st && negb (length paths =? 0)%nat then
        ok ← quietly settled paths;
        if ok : bool then mret st
        else mret {| bs_results := foldl (λ rs p, if isFileMutationTool (TuName (PtTool p)) then alter unsettled (PtIndex p) rs else rs)
                                     (bs_results st) calls;
                     bs_journal := bs_journal st; bs_failed := bs_failed st |}
      else mret st
  | None => mret st
  end.

(** ** Dispatching a turn *)

Definition no_result : toolDispatchResult :=
  {| TrTool := Build_toolUseBlock "" "" "" ""; TrContent := ""; TrDisplay := ""; TrIsError := false; TrExecuted := false;
     TrSynthetic := false; TrConcurrent := false; TrMutation := no_preview |}.

Fixpoint authorize_from (i : nat) (calls : list toolUseBlock) : PROG (list (result toolDispatchResult preparedToolCall)) :=
  match calls with
  | [] => mret []
  | call :: rest => r ← authorize i call; rs ← authorize_from (S i) rest; mret (r :: rs)
  end.
Definition prepared (auth : list (result toolDispatchResult preparedToolCall)) : list preparedToolCall :=
  omap (λ r, match r with Ok p => Some p | Err _ => None end) auth.
Definition concurrent_calls (auth : list (result toolDispatchResult preparedToolCall)) : list preparedToolCall :=
  filter (λ p, PtConcurrent p = true) (prepared auth).
Definition serial_calls (auth : list (result toolDispatchResult preparedToolCall)) : list preparedToolCall :=
  filter (λ p, PtConcurrent p = false) (prepared auth).
Definition denials (auth : list (result toolDispatchResult preparedToolCall)) : list toolDispatchResult :=
  map (λ r, match r with Ok _ => no_result | Err d => d end) auth.
(** The results received from the goroutines. *)
Definition receive (calls : list preparedToolCall) (rs : list toolDispatchResult) (results : list toolDispatchResult)
    : list toolDispatchResult :=
  foldl (λ acc cr, <[PtIndex cr.1 := mark_concurrent cr.2]> acc) results (zip calls rs).

Definition serial_phase (calls : list preparedToolCall) (results : list toolDispatchResult) : PROG (list toolDispatchResult) :=
  _ ← put (set_captured []);
  blocked ← preflightFileMutationBatch calls;
  st ← serial_loop blocked calls {| bs_results := results; bs_journal := []; bs_failed := false |};
  st ← commit_batch st;
  st ← settle_batch calls st;
  mret (bs_results st).

Definition instruction (f : option (Callback unit unit)) : PROG unit :=
  match f with Some f => quietly f tt | None => mret tt end.

(** [dispatchToolCalls]: the authorization loop, a goroutine for every call that is safe to
    run concurrently, and the serial phase when all of them have returned. *)
Inductive dispatchToolCalls (calls : list toolUseBlock) (w : World) : World → list toolDispatchResult → Prop :=
| dispatched w1 auth w2 rs w3 results :
    runs interfere (_ ← instruction (OpInstructionBegin opts); authorize_from 0 calls) w w1 auth →
    pool_runs interfere (map (λ p, executePreparedToolCall p false) (concurrent_calls auth)) w1 w2 rs →
    runs interfere (results ← serial_phase (serial_calls auth) (receive (concurrent_calls auth) rs (denials auth));
                    _ ← instruction (OpInstructionFinish opts); mret results) w2 w3 results →
    dispatchToolCalls calls w w3 results.

(** One of the schedules, undisturbed. *)
Definition run_dispatch (calls : list toolUseBlock) (w : World) : World * list toolDispatchResult :=
  let '(w1, auth) := run (_ ← instruction (OpInstructionBegin opts); authorize_from 0 calls) w in
  let '(w2, rs) := run_each (map (λ p, executePreparedToolCall p false) (concurrent_calls auth)) w1 in
  run (results ← serial_phase (serial_calls auth) (receive (concurrent_calls auth) rs (denials auth));
       _ ← instruction (OpInstructionFinish opts); mret results) w2.

(** ** Stories

    What a slot of the turn did, the latest first.  While the program of one slot runs,
    the others only add events of their own, so the story of the slot is its own. *)

Definition story (i : nat) (w : World) : list DispatchEvent := map snd (filter (λ e, e.1 = i) (log w)).

Definition others (i : nat) (w w' : World) : Prop := ∃ new, log w' = new ++ log w ∧ Forall (λ e, e.1 ≠ i) new.
Definition own (i : nat) (w w' : World) : Prop := ∃ new, log w' = new ++ log w ∧ Forall (λ e, e.1 = i) new.

#[local] Instance others_po i : PreOrder (others i).
Proof.
  split; [by exists []|]. intros w1 w2 w3 (n1 & H1 & F1) (n2 & H2 & F2). exists (n2 ++ n1).
  split; [by rewrite H2, H1, app_assoc|by apply Forall_app].
Qed.
#[local] Instance own_po i : PreOrder (own i).
Proof.
  split; [by exists []|]. intros w1 w2 w3 (n1 & H1 & F1) (n2 & H2 & F2). exists (n2 ++ n1).
  split; [by rewrite H2, H1, app_assoc|by apply Forall_app].
Qed.

Lemma interfere_others i w w' : interfere w w' → others i w w'.
Proof. intros [o ->]. by exists []. Qed.
Lemma interfere_own i w w' : interfere w w' → own i w w'.
Proof. intros [o ->]. by exists []. Qed.
Lemma own_others i j w w' : i ≠ j → own i w w' → others j w w'.
Proof. intros Hne (n & H & F). exists n. split; [done|]. eapply Forall_impl; [|exact F]. by intros e <-. Qed.

Lemma others_story i w w' : others i w w' → story i w' = story i w.
Proof.
  intros (n & H & F). unfold story. rewrite H, list.filter_app, map_app.
  assert (filter (λ e, e.1 = i) n = []) as ->; [|done]. clear H.
  induction F as [|e n He _ IH]; [done|]. by rewrite filter_cons_False, IH by done.
Qed.
Lemma own_story i j w w' : i ≠ j → own i w w' → story j w' = story j w.
Proof. intros Hne H. by eapply others_story, own_others. Qed.
Lemma story_log i e w : story i (add_log i e w) = e :: story i w.
Proof. unfold story. simpl. by rewrite filter_cons_True. Qed.

(** What the program of a slot returns, and what it adds to its story. *)
Definition spec {A} (i : nat) (p : PROG A) (Φ : A → list DispatchEvent → Prop) : Prop :=
  ∀ w, wp (others i) (own i) p (λ a w', ∃ ev, story i w' = ev ++ story i w ∧ Φ a ev) w.

Lemma spec_mono {A} i (p : PROG A) Φ Ψ : (∀ a ev, Φ a ev → Ψ a ev) → spec i p Φ → spec i p Ψ.
Proof. intros H Hp w. eapply wp_mono; [|apply Hp]. naive_solver. Qed.
Lemma spec_ret {A} i (a : A) Φ : Φ a [] → spec i (mret a) Φ.
Proof. intros H w. by exists []. Qed.
Lemma spec_bind {A B} i (p : PROG A) (k : A → PROG B) Φ Ψ :
  spec i p Φ → (∀ a ev, Φ a ev → spec i (k a) (λ b ev', Ψ b (ev' ++ ev))) → spec i (p ≫= k) Ψ.
Proof.
  intros Hp Hk w. apply wp_bind. eapply wp_mono; [|apply Hp]. intros a w1 (ev & H1 & HΦ).
  eapply wp_mono; [|by apply (Hk a ev HΦ w1)]. intros b w2 (ev' & H2 & HΨ). exists (ev' ++ ev).
  by rewrite H2, H1, app_assoc.
Qed.
Lemma spec_try {A B E} i (p : PROG (result E A)) (k : A → PROG (result E B)) Φ Ψ :
  spec i p Φ →
  (∀ e ev, Φ (Err e) ev → Ψ (Err e) ev) →
  (∀ a ev, Φ (Ok a) ev → spec i (k a) (λ b ev', Ψ b (ev' ++ ev))) → spec i (prog_try p k) Ψ.
Proof.
  intros Hp He Hk. eapply spec_bind; [exact Hp|]. intros [a|e] ev H; [by apply Hk|]. by apply spec_ret, He.
Qed.

Lemma spec_act {R} i (f : World → World * R) Φ :
  (∀ w, (log (f w).1 = log w ∧ Φ (f w).2 []) ∨ ∃ e, log (f w).1 = (i, e) :: log w ∧ Φ (f w).2 [e]) →
  spec i (act f) Φ.
Proof.
  intros H w w0 Hw. apply others_story in Hw. destruct (H w0) as [[Hl HΦ]|(e & Hl & HΦ)]; (split; [|]).
  - by exists [].
  - exists []. split; [|done]. rewrite <- Hw. unfold story. by rewrite Hl.
  - exists [(i, e)]. split; [done|]. by constructor.
  - exists [e]. split; [|done]. rewrite <- Hw. unfold story. rewrite Hl. by rewrite filter_cons_True.
Qed.
Lemma spec_call_back {A R} i (f : Callback A R) a event Φ : (∀ r, Φ r [event r]) → spec i (call_back i f a event) Φ.
Proof. intros H. apply spec_act. intros w. right. destruct (f a (out w)) as [o r]. exists (event r). split; [done|apply H]. Qed.
Lemma spec_quietly {A R} i (f : Callback A R) a Φ : (∀ r, Φ r []) → spec i (quietly f a) Φ.
Proof. intros H. apply spec_act. intros w. left. destruct (f a (out w)) as [o r]. split; [done|apply H]. Qed.
Lemma spec_observe {R} i (f : World → R) event Φ : (∀ w, Φ (f w) [event (f w)]) → spec i (observe i f event) Φ.
Proof. intros H. apply spec_act. intros w. right. exists (event (f w)). split; [done|apply H]. Qed.
Lemma spec_ask {R} i (f : World → R) Φ : (∀ w, Φ (f w) []) → spec i (ask f) Φ.
Proof. intros H. apply spec_act. intros w. left. split; [done|apply H]. Qed.
Lemma spec_put i (f : World → World) Φ : (∀ w, log (f w) = log w) → Φ tt [] → spec i (put f) Φ.
Proof. intros Hf H. apply spec_act. intros w. left. split; [apply Hf|done]. Qed.
Lemma spec_lift {A E} i (r : result E A) Φ : Φ r [] → spec i (lift r) Φ.
Proof. apply spec_ret. Qed.

(** ** The authorization of a slot *)

Definition when {A} (o : option A) (e : DispatchEvent) : list DispatchEvent :=
  match o with Some _ => [e] | None => [] end.

(** Events that come before any code of the project or of a tool runs. *)
Definition benign (e : DispatchEvent) : Prop :=
  match e with
  | DContext _ | DIdentity _ _ | DOffline _ | DScope _ _ | DPermission _ _ | DInstruction _ _
  | DClock _ | DOpened _ _ | DAnswered _ _ _ | DIssued _ _ _ => True
  | DEmit (EvToolInput _ _ _ _) | DEmit (EvApprovalRequired _) => True
  | _ => False
  end.

Definition gate_spec {A} (P : DispatchEvent → Prop) (i : nat) (call : toolUseBlock) (p : PROG (result toolDispatchResult A))
    (Φ : A → list DispatchEvent → Prop) : Prop :=
  spec i p (λ r ev, match r with
                    | Ok a => Φ a ev
                    | Err d => (∃ reason, d = deniedToolResult call reason) ∧ Forall P ev
                    end).

Lemma gate_mono {A} P i call (p : PROG (result toolDispatchResult A)) (Φ Ψ : A → list DispatchEvent → Prop) :
  (∀ a ev, Φ a ev → Ψ a ev) → gate_spec P i call p Φ → gate_spec P i call p Ψ.
Proof. intros H. apply spec_mono. intros [a|d] ev; [apply H|done]. Qed.
Lemma gate_ret {A} P i call (a : A) Φ : Φ a [] → gate_spec P i call (mret (Ok a)) Φ.
Proof. intros H. by apply spec_ret. Qed.
Lemma gate_deny {A} P i call reason Φ : gate_spec P i call (deny (A := A) call reason) Φ.
Proof. apply spec_ret. split; [by eexists|constructor]. Qed.
Lemma gate_check P i call b reason Φ : (b = true → Φ tt []) → gate_spec P i call (check b call reason) Φ.
Proof. intros H. apply spec_ret. destruct b; [by apply H|]. split; [by eexists|constructor]. Qed.
Lemma gate_or_deny {A E} P i call (r : result E A) reason Φ :
  (∀ a, r = Ok a → Φ a []) → gate_spec P i call (or_deny r call reason) Φ.
Proof. intros H. apply spec_ret. destruct r; [by apply H|]. split; [by eexists|constructor]. Qed.
Lemma gate_try {A B} P i call (p : PROG (result toolDispatchResult A)) (k : A → PROG (result toolDispatchResult B)) Φ Ψ :
  gate_spec P i call p Φ → (∀ a ev, Φ a ev → Forall P ev) →
  (∀ a ev, Φ a ev → gate_spec P i call (k a) (λ b ev', Ψ b (ev' ++ ev))) → gate_spec P i call (prog_try p k) Ψ.
Proof.
  intros Hp Hb Hk. eapply spec_try; [exact Hp|done|]. intros a ev Ha.
  eapply spec_mono; [|by apply (Hk a ev)]. intros [b|d] ev'; [done|]. intros [Hd Hev]. split; [done|].
  apply Forall_app. split; [done|exact (Hb a ev Ha)].
Qed.
Lemma gate_bind {A B} P i call (p : PROG A) (k : A → PROG (result toolDispatchResult B)) Φ Ψ :
  spec i p Φ → (∀ a ev, Φ a ev → Forall P ev) →
  (∀ a ev, Φ a ev → gate_spec P i call (k a) (λ b ev', Ψ b (ev' ++ ev))) → gate_spec P i call (p ≫= k) Ψ.
Proof.
  intros Hp Hb Hk. eapply spec_bind; [exact Hp|]. intros a ev Ha.
  eapply spec_mono; [|by apply (Hk a ev)]. intros [b|d] ev'; [done|]. intros [Hd Hev]. split; [done|].
  apply Forall_app. split; [done|exact (Hb a ev Ha)].
Qed.

Lemma spec_emit i e : spec i (emit i e) (λ _ ev, ev = when (OpEmit opts) (DEmit e)).
Proof. unfold emit. destruct (OpEmit opts); [by apply spec_call_back|by apply spec_ret]. Qed.

Lemma gate_context i call :
  gate_spec benign i call (dispatchContextDenial i call) (λ _ ev, ev = when (OpContextDone opts) (DContext false)).
Proof.
  unfold dispatchContextDenial. destruct (OpContextDone opts) as [is_done|]; [|by apply gate_ret].
  eapply gate_bind; [by apply (spec_observe _ _ _ (λ d ev, ev = [DContext d]))| |].
  - intros d ev ->. by constructor.
  - intros d ev ->. apply gate_check. by intros ->%negb_true_iff.
Qed.

Lemma gate_identity i call :
  gate_spec benign i call (validate_identity i call) (λ _ ev, ev = [DIdentity (TuName call) true]).
Proof.
  unfold validate_identity. eapply gate_bind;
    [by apply (spec_observe _ _ _ (λ r ev, ev = [DIdentity (TuName call) (is_ok r)]))| |].
  - intros d ev ->. by constructor.
  - intros r ev ->. apply gate_or_deny. by intros a ->.
Qed.

Lemma gate_callback i call f event fallback :
  (∀ b, benign (event b)) →
  gate_spec benign i call (check_callback i f call event fallback) (λ _ ev, ev = when f (event true)).
Proof.
  intros Hb. unfold check_callback. destruct f as [f|]; [|by apply gate_ret].
  eapply gate_bind; [by apply (spec_call_back _ _ _ _ (λ r ev, ev = [event r.1]))| |].
  - intros r ev ->. by constructor.
  - intros r ev ->. apply gate_check. by intros ->.
Qed.

(** What the modes allow. *)
Record mode_allows (call : toolUseBlock) (identity : toolExecutorIdentity) (off : bool) : Prop := {
  ma_plan : OpPlanMode opts = true → TuName call ∈ planModeTools;
  ma_offline : off = true → IsEgressTool (TuName call) = false;
  ma_read_only : ∀ policy, OpExecutionPolicy opts = Some policy → SMode policy = ModeReadOnly →
    TiKind identity = toolExecutorBuiltIn ∧ readOnlyPolicyAllowsBuiltIn (TuName call) (decode host (TuInput call)) = true ∧
    (tool_in (canonicalPermissionToolName (TuName call)) ["Bash"; "Git"] = true →
     FilesystemIsolation (RuntimeCapabilities policy) = true);
}.

Lemma gate_mode i call identity :
  gate_spec benign i call (check_mode i call identity) (λ _ ev, ∃ off, ev = [DOffline off] ∧ mode_allows call identity off).
Proof.
  unfold check_mode. eapply gate_try; [by apply (gate_check _ _ _ _ _ (λ _ ev, ev = [] ∧
      negb (OpPlanMode opts) || existsb (String.eqb (TuName call)) planModeTools = true))| |].
  { intros a ev [-> _]. constructor. }
  intros [] ev [-> Hplan]. eapply gate_bind; [by apply (spec_observe _ _ _ (λ o ev, ev = [DOffline o]))| |].
  { intros a ev ->. by constructor. }
  intros off ev ->. eapply gate_try; [by apply (gate_check _ _ _ _ _ (λ _ ev, ev = [] ∧ negb (off && IsEgressTool (TuName call)) = true))| |].
  { intros a ev [-> _]. constructor. }
  intros [] ev [-> Hoff].
  assert (Hp : OpPlanMode opts = true → TuName call ∈ planModeTools).
  { intros Hm. rewrite Hm in Hplan. apply existsb_elem in Hplan as (x & Hx & ->%String.eqb_eq). done. }
  assert (Ho : off = true → IsEgressTool (TuName call) = false).
  { intros ->. by apply negb_true_iff in Hoff. }
  destruct (OpExecutionPolicy opts) as [policy|] eqn:Hpol.
  - destruct (String.eqb_spec (SMode policy) ModeReadOnly) as [Hm|Hm].
    + eapply gate_try; [by apply (gate_check _ _ _ _ _ (λ _ ev, ev = [] ∧
        negb (tool_in (canonicalPermissionToolName (TuName call)) ["Bash"; "Git"]) || FilesystemIsolation (RuntimeCapabilities policy) = true))| |].
      { intros a ev [-> _]. constructor. }
      intros [] ev [-> Hfs]. apply gate_check. intros Hb. exists off. split; [done|]. constructor; [done|done|].
      intros q Hq _. rewrite Hpol in Hq. injection Hq as <-. unfold is_kind in Hb. apply andb_prop in Hb as [Hk%bool_decide_eq_true Hr]. split_and!; [done|done|].
      intros Ht. by rewrite Ht in Hfs.
    + apply gate_ret. exists off. split; [done|]. constructor; [done|done|]. intros q Hq. rewrite Hpol in Hq. by injection Hq as <-.
  - apply gate_ret. exists off. split; [done|]. constructor; [done|done|]. intros q Hq. by rewrite Hpol in Hq.
Qed.

(** The approval of a call.  By the user: a pending approval was opened for the draft of
    exactly this call and had not expired, the user was asked, the answer to it is an
    allowance by the user that names this approval, and it had still not expired when the
    answer was there.  Or by the full mode the user selected: a grant was issued for the draft
    of exactly this call under the policy of the run, and had not expired.  The events are the
    answers of the requester and the readings of the clock, newest first. *)
Inductive approval_given (call : toolUseBlock) (danger : DangerLevel) (identity : toolExecutorIdentity)
    : Pending → list DispatchEvent → Prop :=
| given_by_user pending resolution t t' t'' :
    pendingMatchesApprovalDraft t pending (fullModeApprovalDraft call identity danger) ApprovalSourceUser = true →
    not_expired pending t' = true →
    resApprovalID resolution = pID pending → resOutcome resolution = OutcomeAllowOnce → resReason resolution = ReasonUser →
    not_expired pending t'' = true →
    approval_given call danger identity pending
      (DClock t'' :: DAnswered (OpSessionID opts) (pID pending) (Ok resolution) ::
       when (OpEmit opts) (DEmit (EvApprovalRequired pending)) ++
       [DClock t'; DClock t; DOpened (fullModeApprovalDraft call identity danger) (Some pending)])
| given_in_full_mode pending policy t :
    OpExecutionPolicy opts = Some policy → SMode policy = ModeFull →
    TiKind identity ≠ toolExecutorBuiltIn ∨ isHostInteractionTool (TuName call) = true →
    pendingMatchesApprovalDraft t pending (fullModeApprovalDraft call identity danger) ApprovalSourceUserSelectedFull = true →
    approval_given call danger identity pending
      [DClock t; DIssued (fullModeApprovalDraft call identity danger) policy (Some pending)].

Lemma benign_when {A} (o : option A) e : benign e → Forall benign (when o e).
Proof. destruct o; [|constructor]. intros H. by constructor. Qed.

Lemma approval_given_benign call danger identity pending ev :
  approval_given call danger identity pending ev → Forall benign ev.
Proof. destruct 1; [|by repeat constructor]. do 2 (constructor; [done|]). apply Forall_app_2; [by apply benign_when|by repeat constructor]. Qed.

Lemma gate_silent {A B} P i call (p : PROG A) (k : A → PROG (result toolDispatchResult B)) (F : A → Prop) Ψ :
  spec i p (λ a ev, ev = [] ∧ F a) → (∀ a, F a → gate_spec P i call (k a) Ψ) → gate_spec P i call (p ≫= k) Ψ.
Proof.
  intros Hp Hk. eapply gate_bind; [exact Hp| |]; [by intros a ev [-> _]|].
  intros a ev [-> Ha]. eapply gate_mono; [|by apply Hk]. intros b ev'. by rewrite app_nil_r.
Qed.
Lemma gate_require {B} P i call b reason (k : unit → PROG (result toolDispatchResult B)) Ψ :
  (b = true → gate_spec P i call (k tt) Ψ) → gate_spec P i call (prog_try (check b call reason) k) Ψ.
Proof.
  intros Hk. eapply gate_try; [by apply (gate_check _ _ _ _ _ (λ _ ev, ev = [] ∧ b = true))| |].
  - by intros a ev [-> _].
  - intros [] ev [-> Hb]. eapply gate_mono; [|by apply Hk]. intros a ev'. by rewrite app_nil_r.
Qed.
Lemma gate_lookup {A B E} P i call (r : result E A) reason (k : A → PROG (result toolDispatchResult B)) Ψ :
  (∀ a, r = Ok a → gate_spec P i call (k a) Ψ) → gate_spec P i call (prog_try (or_deny r call reason) k) Ψ.
Proof.
  intros Hk. eapply gate_try; [by apply (gate_or_deny _ _ _ _ _ (λ a ev, ev = [] ∧ r = Ok a))| |].
  - by intros a ev [-> _].
  - intros a ev [-> Hb]. eapply gate_mono; [|by apply Hk]. intros b ev'. by rewrite app_nil_r.
Qed.

Lemma spec_now i : spec i now (λ _ ev, ev = [] ∧ True).
Proof. by apply spec_ask. Qed.

(** An event of the outside that a check follows. *)
Lemma gate_event {A B} i call (p : PROG A) (k : A → PROG (result toolDispatchResult B)) (event : A → DispatchEvent) Ψ :
  spec i p (λ a ev, ev = [event a]) → (∀ a, benign (event a)) →
  (∀ a, gate_spec benign i call (k a) (λ b ev, Ψ b (ev ++ [event a]))) → gate_spec benign i call (p ≫= k) Ψ.
Proof.
  intros Hp Hb Hk. eapply gate_bind; [exact Hp| |].
  - intros a ev ->. by constructor.
  - intros a ev ->. apply Hk.
Qed.
Lemma gate_clock {B} i call (k : time → PROG (result toolDispatchResult B)) Ψ :
  (∀ t, gate_spec benign i call (k t) (λ b ev, Ψ b (ev ++ [DClock t]))) → gate_spec benign i call (read_clock i ≫= k) Ψ.
Proof. intros Hk. eapply gate_event; [by apply spec_observe|done|exact Hk]. Qed.
Lemma gate_ask {A R B} i call (f : Callback A R) a event (k : R → PROG (result toolDispatchResult B)) Ψ :
  (∀ r, benign (event r)) → (∀ r, gate_spec benign i call (k r) (λ b ev, Ψ b (ev ++ [event r]))) →
  gate_spec benign i call (call_back i f a event ≫= k) Ψ.
Proof. intros Hb Hk. eapply gate_event; [by apply spec_call_back|exact Hb|exact Hk]. Qed.

Lemma gate_user i call requester danger identity :
  gate_spec benign i call (request_from_user i call requester (fullModeApprovalDraft call identity danger))
    (approval_given call danger identity).
Proof.
  unfold request_from_user. apply gate_ask; [done|]. intros [pending|]; [|apply gate_deny].
  apply gate_clock. intros t. apply gate_clock. intros t'. apply gate_require. intros [Hm Ht']%andb_prop.
  eapply gate_bind; [apply spec_emit|intros a ev ->; by apply benign_when|]. intros [] ev ->.
  apply gate_ask; [done|]. intros r. apply gate_clock. intros t''. destruct r as [resolution|]; [|apply gate_deny].
  apply gate_require. intros [[Hid%String.eqb_eq [Ho%String.eqb_eq Hr%String.eqb_eq]%andb_prop]%andb_prop Ht'']%andb_prop.
  apply gate_ret. cbn [app]. rewrite <- !app_assoc. by apply given_by_user with (resolution := resolution).
Qed.

Lemma gate_approval i call danger identity :
  gate_spec benign i call (requestToolApproval i call danger identity) (approval_given call danger identity).
Proof.
  unfold requestToolApproval. destruct (OpApprovalRequester opts) as [requester|]; [|apply gate_deny].
  destruct (blank (OpSessionID opts)); [apply gate_deny|]. destruct (OpExecutionPolicy opts) as [policy|] eqn:Hp; [|apply gate_user].
  destruct (is_full && _) eqn:Hf; [|apply gate_user]. apply andb_prop in Hf as [Hf Hk].
  destruct (RqIssue requester) as [issue|]; [|apply gate_deny].
  apply gate_ask; [done|]. intros p. apply gate_clock. intros t. destruct p as [pending|]; [|apply gate_deny].
  apply gate_require. intros Hm. apply gate_ret. apply given_in_full_mode; [done| | |done].
  - unfold is_full in Hf. rewrite Hp in Hf. by apply String.eqb_eq in Hf.
  - apply orb_prop in Hk as [Hk|Hk]; [left|by right]. by apply negb_true_iff, bool_decide_eq_false in Hk.
Qed.

(** Calls that need an approval of their own whatever the permission says. *)
Definition needsBoundAuthorization (call : toolUseBlock) (identity : toolExecutorIdentity) : bool :=
  isHostInteractionTool (TuName call) || is_kind toolExecutorPlugin identity || (is_full && negb (is_kind toolExecutorBuiltIn identity)).

Inductive approved (call : toolUseBlock) (p : PermissionResult) (identity : toolExecutorIdentity)
    : option Pending → list DispatchEvent → Prop :=
| approved_without :
    PDecision p = PermissionAllow → needsBoundAuthorization call identity = false → approved call p identity None []
| approved_explicitly pending ev :
    PDecision p ≠ PermissionDeny → approval_given call (PDanger p) identity pending ev →
    approved call p identity (Some pending) ev.

Definition full_kind (identity : toolExecutorIdentity) : Prop :=
  is_full = true → TiKind identity ≠ toolExecutorOther.

Lemma approval_given_id call danger identity pending ev :
  approval_given call danger identity pending ev → String.eqb (pID pending) "" = false.
Proof.
  assert (H : ∀ t d source, pendingMatchesApprovalDraft t pending d source = true → String.eqb (pID pending) "" = false).
  { intros t d source H. unfold pendingMatchesApprovalDraft in H.
    repeat match goal with H : _ && _ = true |- _ => apply andb_prop in H as [H ?] end.
    destruct (String.eqb_spec (pID pending) "") as [E|]; [|done]. by rewrite E in H. }
  destruct 1; by eapply H.
Qed.

Lemma gate_obtain i call p identity :
  gate_spec benign i call (obtain_approval i call p identity)
    (λ completed ev, approved call p identity completed ev ∧ full_kind identity).
Proof.
  unfold obtain_approval. cbv zeta. fold (needsBoundAuthorization call identity).
  assert (Hk : negb is_full || is_kind toolExecutorBuiltIn identity || is_kind toolExecutorMCP identity
            || is_kind toolExecutorPlugin identity = true → full_kind identity).
  { unfold full_kind, is_kind. intros H Hf E. by rewrite Hf, E in H. }
  eapply gate_try.
  - instantiate (1 := λ completed ev, Forall benign ev ∧
      ((completed = None ∧ ev = [] ∧ PDecision p = PermissionAllow) ∨
       ∃ pending, completed = Some pending ∧ PDecision p ≠ PermissionDeny ∧ approval_given call (PDanger p) identity pending ev)).
    destruct (PDecision p) eqn:Hp; [|apply gate_deny|].
    + apply gate_ret. split; [constructor|]. by left.
    + eapply gate_try; [apply gate_approval|apply approval_given_benign|]. intros pending ev Hg.
      apply gate_ret. split; [by eapply approval_given_benign|]. right. by exists pending.
  - by intros completed ev [? _].
  - intros completed ev [_ Hc]. apply gate_require. intros Hfull%Hk.
    destruct Hc as [(-> & -> & Hp)|(pending & -> & Hp & Hg)].
    + destruct (needsBoundAuthorization call identity) eqn:Hn; simpl.
      * eapply gate_try; [apply gate_approval|apply approval_given_benign|]. intros pending ev Hg.
        apply gate_ret. rewrite app_nil_r. split; [|done]. apply approved_explicitly; [by rewrite Hp|done].
      * apply gate_ret. split; [by constructor|done].
    + rewrite (approval_given_id _ _ _ _ _ Hg), andb_false_r. apply gate_ret.
      split; [|done]. by apply approved_explicitly.
Qed.

(** Everything the authorization of a call asked, in order, up to the pre-tool hook. *)
Definition gate_story (call : toolUseBlock) (p : PermissionResult) (off : bool) (approvals : list DispatchEvent)
    : list DispatchEvent :=
  when (OpContextDone opts) (DContext false) ++ approvals ++
  when (OpInstructionCheck opts) (DInstruction call true) ++
  when (OpEmit opts) (DEmit (EvToolInput (TuID call) (TuName call) (decode host (TuInput call)) (danger_text (PDanger p)))) ++
  [DPermission call p] ++ when (OpScopeCheck opts) (DScope call true) ++ [DOffline off; DIdentity (TuName call) true].

(** A call that passed every gate, with the identity and the approval it passed them with. *)
Record gated (call : toolUseBlock) (identity : toolExecutorIdentity) (p : PermissionResult) (completed : option Pending)
    (ev : list DispatchEvent) : Prop := {
  ga_catalog : TuName call ∈ OpAllowedTools opts;
  ga_schema : ∃ o schema, schemaForAllowedTool (registry host o) (OpAllowedTools opts) (TuName call) = Ok schema ∧
                validateToolInputSchema (decode host) (TuInput call) schema = Ok tt;
  ga_identity : ∃ o, executorIdentityForAllowedTool (registry host o) (OpAllowedTools opts) (TuName call) = Ok identity;
  ga_permission : ∃ os d, p = ResolvePermissionWithPolicy os (path_message host) (TuName call) (decode host (TuInput call))
                    (OpWorkDir opts) (OpPermissionConfig opts) d (OpExecutionPolicy opts);
  ga_full : full_kind identity;
  ga_story : ∃ off approvals, mode_allows call identity off ∧ approved call p identity completed approvals ∧
               ev = gate_story call p off approvals;
}.

Definition grant_of (completed : option Pending) : option Pending :=
  if has_source ApprovalSourceUserSelectedFull completed then completed else None.

(** The outcomes of the authorization of a slot. *)
Inductive authorized (i : nat) (original : toolUseBlock) : result toolDispatchResult preparedToolCall → list DispatchEvent → Prop :=
| authorized_call call identity p completed ev prepared :
    normalizeDispatchToolCall (decode host) original = Ok call →
    gated call identity p completed ev →
    PtIndex prepared = i → PtTool prepared = call → PtDanger prepared = PDanger p →
    PtFullModeGrant prepared = grant_of completed →
    PtConcurrent prepared = IsConcurrencySafe (TuName call) (default [] (unmarshal_map (decode host (TuInput call)))) →
    authorized i original (Ok prepared) (when (OpPreHook opts) (DHook call false) ++ ev)
| refused_call call reason ev :
    call = original ∨ normalizeDispatchToolCall (decode host) original = Ok call →
    Forall benign ev →
    authorized i original (Err (deniedToolResult call reason)) ev
| refused_after_gates call identity p completed ev reason blocked :
    normalizeDispatchToolCall (decode host) original = Ok call →
    gated call identity p completed ev → OpPreHook opts ≠ None →
    authorized i original (Err (deniedToolResult call reason)) (DHook call blocked :: ev).

Lemma gate_permission i call :
  spec i (resolve_permission i call) (λ p ev, ev = [DPermission call p] ∧
    ∃ os d, p = ResolvePermissionWithPolicy os (path_message host) (TuName call) (decode host (TuInput call))
                    (OpWorkDir opts) (OpPermissionConfig opts) d (OpExecutionPolicy opts)).
Proof.
  unfold resolve_permission. eapply (spec_bind _ _ _ (λ _ ev, ev = [])).
  - destruct (OpSnapshotDecision opts); [by apply spec_quietly|by apply spec_ret].
  - intros d ev ->. apply spec_observe. intros w. rewrite app_nil_r. split; [done|]. by eexists _, _.
Qed.

Lemma gates_spec i call :
  gate_spec benign i call (authorize_gates i call) (λ r ev, gated call r.1.1 r.1.2 r.2 ev).
Proof.
  unfold authorize_gates. apply gate_require. intros Hin%bool_decide_eq_true.
  eapply (gate_silent _ _ _ _ _ (λ r, ∃ o, r = schemaForAllowedTool (registry host o) (OpAllowedTools opts) (TuName call)));
    [apply spec_ask; by eauto|]. intros r [o1 Hr1]. apply gate_lookup. intros schema ->.
  apply gate_lookup. intros [] Hschema.
  eapply (gate_silent _ _ _ _ _ (λ r, ∃ o, r = executorIdentityForAllowedTool (registry host o) (OpAllowedTools opts) (TuName call)));
    [apply spec_ask; by eauto|]. intros r [o2 Hr2]. apply gate_lookup. intros identity ->.
  eapply gate_try; [apply gate_identity|intros a ev ->; by constructor|]. intros [] ev ->.
  eapply gate_try; [apply gate_mode|intros a ev (off & -> & _); by constructor|]. intros [] ev (off & -> & Hmode).
  eapply gate_try; [by apply gate_callback|intros a ev ->; by apply benign_when|]. intros [] ev ->.
  eapply gate_bind; [apply gate_permission|intros a ev [-> _]; by constructor|]. intros p ev [-> Hp].
  eapply gate_bind; [apply spec_emit|intros a ev ->; by apply benign_when|]. intros [] ev ->.
  eapply gate_try.
  { instantiate (1 := λ _ ev, Forall benign ev ∧ (PDecision p ≠ PermissionDeny → ev = when (OpInstructionCheck opts) (DInstruction call true))).
    case_bool_decide as Hd; [by apply gate_ret|]. eapply gate_mono; [|by apply gate_callback]. intros a ev ->.
    split; [by apply benign_when|done]. }
  { by intros a ev [? _]. }
  intros [] evi [Hbi Hi]. eapply gate_try; [apply gate_obtain| |].
  { intros completed ev [Ha _]. destruct Ha; [constructor|by eapply approval_given_benign]. }
  intros completed eva [Ha Hfull]. assert (PDecision p ≠ PermissionDeny) as Hnd.
  { destruct Ha as [H _|]; [by rewrite H|done]. }
  rewrite (Hi Hnd). eapply (gate_silent _ _ _ _ _ (λ _, True)).
  { destruct (has_source _ _); [by apply spec_put|by apply spec_ret]. }
  intros _ _. eapply gate_try; [apply gate_context|intros a ev ->; by apply benign_when|]. intros [] ev ->.
  apply gate_ret. split; [done|by exists o1, schema|by exists o2|done|done|].
  exists off, eva. split_and!; [done|done|]. unfold gate_story. cbn [app]. rewrite <- !app_assoc. done.
Qed.

Lemma mint_spec i call identity completed :
  spec i (mint_proofs call identity completed)
    (λ r ev, ev = [] ∧ match r with Err d => ∃ reason, d = deniedToolResult call reason | Ok _ => True end).
Proof.
  unfold mint_proofs. cbv zeta. eapply spec_bind; [apply spec_now|]. intros t ev [-> _]. eapply spec_try.
  - instantiate (1 := λ r ev, ev = [] ∧ match r with Err d => ∃ reason, d = deniedToolResult call reason | Ok _ => True end).
    destruct (isHostInteractionTool _); [|by apply spec_ret]. case_match; apply spec_ret; (split; [done|]); [done|by eexists].
  - by intros e ev [-> H].
  - intros h ev [-> _]. eapply spec_bind; [apply spec_now|]. intros t' ev [-> _]. eapply spec_try.
    + instantiate (1 := λ r ev, ev = [] ∧ match r with Err d => ∃ reason, d = deniedToolResult call reason | Ok _ => True end).
      destruct (is_kind _ _); [|by apply spec_ret]. case_match; apply spec_ret; (split; [done|]); [done|by eexists].
    + by intros e ev [-> H].
    + intros p ev [-> _]. by apply spec_ret.
Qed.

Lemma gated_benign call identity p completed ev : gated call identity p completed ev → Forall benign ev.
Proof.
  intros [_ _ _ _ _ (off & approvals & _ & Ha & ->)].
  assert (Forall benign approvals).
  { destruct Ha as [|pending ev' _ Hg]; [constructor|exact (approval_given_benign _ _ _ _ _ Hg)]. }
  unfold gate_story. repeat apply Forall_app_2; try done; try (by apply benign_when); repeat constructor.
Qed.

Lemma authorize_spec i original : spec i (authorize i original) (authorized i original).
Proof.
  unfold authorize. destruct (normalizeDispatchToolCall (decode host) original) as [call|e] eqn:Hn.
  2: { apply spec_ret. apply refused_call; [by left|constructor]. }
  eapply (spec_try _ _ _ (λ r ev, r = Ok call ∧ ev = [])); [by apply spec_ret|by intros e ev [? _]|].
  intros ? ? [[= ->] ->]. eapply spec_try; [apply gates_spec| |].
  - intros d ev [[reason ->] Hb]. rewrite app_nil_r. apply refused_call; [by right|done].
  - intros [[identity p] completed] ev Hg. cbn [fst snd] in Hg. unfold run_pre_hook.
    assert (Hmint : spec i (prog_try (mint_proofs call identity completed) (λ proofs,
        mret (Ok {| PtIndex := i; PtTool := call;
              PtConcurrent := IsConcurrencySafe (TuName call) (default [] (unmarshal_map (decode host (TuInput call))));
              PtDanger := PDanger p; PtHostApproval := proofs.1; PtPluginApproval := proofs.2;
              PtFullModeGrant := grant_of completed |})))
        (λ b ev', authorized i original b ((ev' ++ when (OpPreHook opts) (DHook call false)) ++ ev))).
    { eapply spec_try; [apply mint_spec| |].
      - intros d ev' [-> [reason ->]]. destruct (OpPreHook opts) eqn:Hh; simpl.
        + eapply refused_after_gates; [done|exact Hg|congruence].
        + apply refused_call; [by right|by eapply gated_benign].
      - intros proofs ev' [-> _]. apply spec_ret. eapply authorized_call; done. }
    destruct (OpPreHook opts) as [hook|] eqn:Hh.
    + eapply (spec_try _ _ _ (λ r ev, match r with
                | Ok _ => ev = [DHook call false]
                | Err d => ∃ reason blocked, d = deniedToolResult call reason ∧ ev = [DHook call blocked]
                end)).
      * eapply spec_bind; [by apply (spec_call_back _ _ _ _ (λ r ev, ev = [DHook call r.1]))|].
        intros r ev' ->. apply spec_ret. destruct r as [[] reason]; simpl; [by eexists _, _|done].
      * intros d ev' (reason & blocked & -> & ->). rewrite app_nil_r. eapply refused_after_gates; [done|exact Hg|congruence].
      * intros [] ev' ->. eapply spec_mono; [|exact Hmint]. intros b ev''. by rewrite app_nil_r.
    + eapply (spec_try _ _ _ (λ r ev, r = Ok tt ∧ ev = [])); [by apply spec_ret|by intros d ev' [? _]|].
      intros [] ev' [_ ->]. eapply spec_mono; [|exact Hmint]. intros b ev''. by rewrite app_nil_r.
Qed.

(** ** The execution of a slot *)

Lemma gate_weaken {A} (P P' : DispatchEvent → Prop) i call (p : PROG (result toolDispatchResult A)) Φ :
  (∀ e, P e → P' e) → gate_spec P i call p Φ → gate_spec P' i call p Φ.
Proof.
  intros H. apply spec_mono. intros [a|d] ev; [done|]. intros [Hd Hev]. split; [done|]. by eapply Forall_impl.
Qed.

(** Events of a slot before its executor is called. *)
Definition prior (e : DispatchEvent) : Prop :=
  match e with
  | DContext _ | DIdentity _ _ | DLedger _ _ | DGuard _ _ | DCheckpoint _ _ | DJournal _ _ | DGrant _ _ false => True
  | _ => False
  end.

Definition no_grant_spent (e : DispatchEvent) : Prop := match e with DGrant _ _ true => False | _ => True end.

Lemma prior_context i call :
  gate_spec prior i call (dispatchContextDenial i call) (λ _ ev, ev = when (OpContextDone opts) (DContext false)).
Proof.
  unfold dispatchContextDenial. destruct (OpContextDone opts) as [is_done|]; [|by apply gate_ret].
  eapply gate_bind; [by apply (spec_observe _ _ _ (λ d ev, ev = [DContext d]))| |].
  - intros d ev ->. by constructor.
  - intros d ev ->. apply gate_check. by intros ->%negb_true_iff.
Qed.
Lemma prior_identity i call :
  gate_spec prior i call (validate_identity i call) (λ _ ev, ev = [DIdentity (TuName call) true]).
Proof.
  unfold validate_identity. eapply gate_bind;
    [by apply (spec_observe _ _ _ (λ r ev, ev = [DIdentity (TuName call) (is_ok r)]))| |].
  - intros d ev ->. by constructor.
  - intros r ev ->. apply gate_or_deny. by intros a ->.
Qed.
Lemma prior_when {A} (o : option A) e : prior e → Forall prior (when o e).
Proof. destruct o; [|constructor]. intros H. by constructor. Qed.

(** What the guard and the ledger had to say of an attempt that may go on. *)
Definition policy_story (call : toolUseBlock) (d : option ReadLedgerDecision) (ev : list DispatchEvent) : Prop :=
  ∃ guarded, ev = guarded ++ match d with Some d => [DLedger call d] | None => [] end ∧
    (guarded = [] ∨ ∃ input, guarded = [DGuard input true] ∧ AfToolName input = TuName call ∧ AfArguments input = TuInput call) ∧
    (OpReadBeforeWrite opts = true → isFileMutationTool (TuName call) = true →
       ∃ d', d = Some d' ∧ RdAllowed d' = true) ∧
    (∀ d', d = Some d' → ∃ l w, d' = check_ledger call l w).

Lemma ledger_spec i call :
  spec i (ledger_verdict i call) (λ v ev, Forall prior ev ∧
    (lv_failure v = None →
     ev = match lv_mutation v with Some d => [DLedger call d] | None => [] end ∧
     (OpReadBeforeWrite opts = true → isFileMutationTool (TuName call) = true →
        ∃ d', lv_mutation v = Some d' ∧ RdAllowed d' = true) ∧
     (∀ d', lv_mutation v = Some d' → ∃ l w, d' = check_ledger call l w))).
Proof.
  unfold ledger_verdict. cbv zeta. eapply (spec_bind _ _ _ (λ _ ev, ev = [])); [by apply spec_ask|]. intros revision ev ->.
  destruct (OpReadBeforeWrite opts && isFileMutationTool (TuName call)) eqn:Hg.
  - eapply (spec_bind _ _ _ (λ _ ev, ev = [])); [by apply spec_ask|]. intros [l|] ev ->.
    + eapply spec_bind.
      * apply (spec_observe _ _ _ (λ d ev, ev = [DLedger call d] ∧ ∃ l w, d = check_ledger call l w)).
        intros w. split; [done|]. by eexists _, _.
      * intros d ev [-> Hd]. apply spec_ret. cbn [lv_failure lv_mutation]. split; [by constructor|].
        destruct (RdAllowed d) eqn:Ha; [|done]. intros _. split; [done|].
        split; [by eexists|]. intros d' [= <-]. done.
    + apply spec_ret. cbn. by split.
  - apply spec_ret. cbn. split; [constructor|]. intros _. split; [done|]. split; [|done].
    intros Hr Hm. by rewrite Hr, Hm in Hg.
Qed.

Lemma policy_spec i call :
  gate_spec prior i call (checkDispatchRuntimePolicy i call) (λ r ev, policy_story call r.1 ev).
Proof.
  unfold checkDispatchRuntimePolicy. eapply gate_bind; [apply ledger_spec|by intros v ev [? _]|]. intros v evl [Hpl Hl].
  set (input := Build_ActionFingerprintInput _ _ _ _ _).
  eapply gate_bind.
  - instantiate (1 := λ d ev, (d = None ∧ ev = []) ∨ ∃ d', d = Some d' ∧ ev = [DGuard input (RgAllowed d')]).
    apply spec_act. intros w. destruct (guard w) as [g|]; [|by left; split; [|left]].
    right. destruct (Observe (decode host) input g) as [g' d] eqn:Ho.
    exists (DGuard input (RgAllowed d)). split; [done|]. right. by exists d.
  - intros d ev [[_ ->]|(d' & _ & ->)]; [constructor|by constructor].
  - intros d evg Hd. eapply gate_try.
    + instantiate (1 := λ _ ev, ev = [] ∧ (∀ d', d = Some d' → RgAllowed d' = true)).
      destruct d as [d'|]; [|by apply gate_ret]. apply gate_check. intros H. split; [done|]. by intros ? [= <-].
    + by intros a ev [-> _].
    + intros [] ev [-> Hallowed]. destruct (lv_failure v) as [[code reason]|] eqn:Hf; [apply gate_deny|].
      apply gate_ret. cbn [fst snd]. destruct (Hl eq_refl) as (-> & H1 & H2).
      exists evg. split; [done|]. split; [|done].
      destruct Hd as [[_ ->]|(d' & -> & ->)]; [by left|right]. exists input. by rewrite (Hallowed d' eq_refl).
Qed.

Definition grant_story (p : preparedToolCall) (identity : toolExecutorIdentity) : list DispatchEvent :=
  match PtFullModeGrant p with
  | Some grant => [DGrant grant (fullModeApprovalDraft (PtTool p) identity (PtDanger p)) true; DIdentity (TuName (PtTool p)) true]
                  ++ when (OpContextDone opts) (DContext false)
  | None => []
  end.
Definition launch_story (p : preparedToolCall) (identity : toolExecutorIdentity) (input : ExecutionInput)
    (content : string) (isError : bool) : list DispatchEvent :=
  let call := PtTool p in
  let entry := journal_entry (OpRunID opts) call in
  when (OpPostHook opts) (DPostHook call content isError) ++ [DExecute call input content isError] ++
  when (OpEmit opts) (DEmit (EvToolExecutionStart entry)) ++ grant_story p identity ++
  when (OpPreExecutionJournal opts) (DJournal entry true).

Lemma grant_spec i p identity :
  gate_spec prior i (PtTool p) (consume_grant i p identity) (λ _ ev, ev = grant_story p identity ∧
    (is_Some (PtFullModeGrant p) → is_full = true)).
Proof.
  unfold consume_grant, grant_story. destruct (PtFullModeGrant p) as [grant|]; [|apply gate_ret; by split; [|intros [? ?]]].
  destruct (OpExecutionPolicy opts) as [policy|]; [|apply gate_deny].
  apply gate_require. intros Hf. destruct (OpApprovalRequester opts ≫= RqConsume) as [consume|]; [|apply gate_deny].
  eapply gate_try; [apply prior_context|intros a ev ->; by apply prior_when|]. intros [] ev ->.
  eapply gate_try; [apply prior_identity|intros a ev ->; by constructor|]. intros [] ev ->.
  eapply (spec_bind _ _ _ (λ ok ev, ev = [DGrant grant (fullModeApprovalDraft (PtTool p) identity (PtDanger p)) ok]));
    [by apply spec_call_back|].
  intros ok ev ->. apply spec_ret. destruct ok; simpl; [done|]. split; [by eexists|]. by constructor.
Qed.

Lemma launch_spec i p identity bound input mutation execute :
  gate_spec prior i (PtTool p) (launch i p identity bound input mutation execute)
    (λ r ev, ∃ content isError, r = executed_result (PtTool p) content isError mutation ∧
               ev = launch_story p identity bound content isError ∧ (is_Some (PtFullModeGrant p) → is_full = true)).
Proof.
  unfold launch. cbv zeta. eapply gate_try.
  - instantiate (1 := λ _ ev, ev = when (OpPreExecutionJournal opts) (DJournal (journal_entry (OpRunID opts) (PtTool p)) true)).
    destruct (OpPreExecutionJournal opts) as [journal|]; [|by apply gate_ret].
    eapply gate_bind; [by apply (spec_call_back _ _ _ _ (λ ok ev, ev = [DJournal (journal_entry (OpRunID opts) (PtTool p)) ok]))| |].
    + intros ok ev ->. by constructor.
    + intros ok ev ->. apply gate_check. by intros ->.
  - intros [] ev ->. by apply prior_when.
  - intros [] ev ->. eapply spec_try; [apply grant_spec| |].
    { by intros d ev [Hd Hp]. }
    intros [] ev [-> Hfull].
    eapply spec_bind; [apply spec_emit|]. intros [] ev ->.
    eapply (spec_bind _ _ _ (λ r ev, ev = [DExecute (PtTool p) bound r.1 r.2])); [by apply spec_call_back|]. intros r ev ->.
    eapply (spec_bind _ _ _ (λ _ ev, ev = [])).
    { apply spec_put; [|done]. intros w. cbv zeta. by repeat case_match. }
    intros [] ev ->. eapply (spec_bind _ _ _ (λ _ ev, ev = [])); [by apply spec_put|]. intros [] ev ->.
    eapply (spec_bind _ _ _ (λ _ ev, ev = when (OpPostHook opts) (DPostHook (PtTool p) r.1 r.2))).
    { destruct (OpPostHook opts); [by apply spec_call_back|by apply spec_ret]. }
    intros [] ev ->. apply spec_ret. exists r.1, r.2. split_and!; [done| |done].
    unfold launch_story. rewrite app_nil_r, <- !app_assoc. done.
Qed.

(** What the executor is given: the input of the call, bound to the identity of its
    executor, then to the decision of the ledger, then to the proofs of its approval. *)
Definition bound_input (p : preparedToolCall) (identity : toolExecutorIdentity) (d : option ReadLedgerDecision)
    (input : ExecutionInput) : Prop :=
  ∃ o text, bindToolExecutionInput (compact host) (registry host o) (TuInput (PtTool p)) identity = Ok text ∧
    ∃ inner, bind_proofs p identity inner = Ok input ∧
      match d with
      | None => inner = BoundInput text
      | Some d => ∃ o' envelope, inner = MutationInput envelope ∧
          (bindFileMutationExecutionInput (compact host) (new_token host o') (clock host o') text (TuName (PtTool p)) d
             (o_pending o')).2 = Ok envelope
      end.

(** The story of an execution, up to the executor's return. *)
Definition execution_story (p : preparedToolCall) (identity : toolExecutorIdentity) (input : ExecutionInput)
    (content : string) (isError : bool) (policy : list DispatchEvent) : list DispatchEvent :=
  let call := PtTool p in
  launch_story p identity input content isError ++
  [DIdentity (TuName call) true] ++ when (OpContextDone opts) (DContext false) ++
  when (OpBeforeExecute opts) (DCheckpoint call true) ++ policy ++
  [DIdentity (TuName call) true] ++ when (OpContextDone opts) (DContext false).

Inductive executed (p : preparedToolCall) : toolDispatchResult → list DispatchEvent → Prop :=
| executed_call identity d input content isError mutation policy :
    (∃ o, executorIdentityForAllowedTool (registry host o) (OpAllowedTools opts) (TuName (PtTool p)) = Ok identity) →
    policy_story (PtTool p) d policy → bound_input p identity d input →
    (is_Some (PtFullModeGrant p) → is_full = true) →
    executed p (executed_result (PtTool p) content isError mutation)
      (execution_story p identity input content isError policy)
| not_executed reason ev : Forall prior ev → executed p (deniedToolResult (PtTool p) reason) ev.

Lemma proofs_denied p identity inner d : bind_proofs p identity inner = Err d → ∃ reason, d = deniedToolResult (PtTool p) reason.
Proof. unfold bind_proofs. intros H. repeat (case_match; simplify_eq/=; try by eexists). Qed.

Definition launched (p : preparedToolCall) (identity : toolExecutorIdentity) (d : option ReadLedgerDecision)
    (mutation : toolMutationPreview) (r : toolDispatchResult) (ev : list DispatchEvent) : Prop :=
  ∃ input content isError, r = executed_result (PtTool p) content isError mutation ∧
    ev = launch_story p identity input content isError ∧ bound_input p identity d input ∧
    (is_Some (PtFullModeGrant p) → is_full = true).

Lemma launch_bound i p identity o text d inner fi mutation execute :
  bindToolExecutionInput (compact host) (registry host o) (TuInput (PtTool p)) identity = Ok text →
  match d with
  | None => inner = BoundInput text
  | Some d => ∃ o' envelope, inner = MutationInput envelope ∧
      (bindFileMutationExecutionInput (compact host) (new_token host o') (clock host o') text (TuName (PtTool p)) d
         (o_pending o')).2 = Ok envelope
  end →
  gate_spec prior i (PtTool p)
    (prog_try (lift (bind_proofs p identity inner)) (λ b, launch i p identity b fi mutation execute))
    (launched p identity d mutation).
Proof.
  intros Htext Hinner. eapply gate_try.
  - instantiate (1 := λ b ev, ev = [] ∧ bind_proofs p identity inner = Ok b). apply spec_ret.
    destruct (bind_proofs p identity inner) as [b|e] eqn:Hb; [done|]. split; [by eapply proofs_denied|constructor].
  - by intros b ev [-> _].
  - intros b ev [-> Hb]. eapply gate_mono; [|apply launch_spec]. intros r ev (content & isError & -> & -> & Hfull).
    rewrite app_nil_r. exists b, content, isError. split_and!; [done|done| |done].
    exists o, text. split; [done|]. by exists inner.
Qed.

Lemma bind_and_launch_spec i p identity o text d fi mutation execute :
  bindToolExecutionInput (compact host) (registry host o) (TuInput (PtTool p)) identity = Ok text →
  gate_spec prior i (PtTool p) (bind_and_launch i p identity text d fi mutation execute) (launched p identity d mutation).
Proof.
  intros Htext. unfold bind_and_launch. destruct d as [d|]; [|by eapply launch_bound].
  eapply gate_try.
  - instantiate (1 := λ envelope ev, ev = [] ∧ ∃ o', (bindFileMutationExecutionInput (compact host) (new_token host o')
      (clock host o') text (TuName (PtTool p)) d (o_pending o')).2 = Ok envelope).
    unfold bind_mutation. eapply (gate_silent _ _ _ _ _ (λ r, ∃ o', r = (bindFileMutationExecutionInput (compact host)
      (new_token host o') (clock host o') text (TuName (PtTool p)) d (o_pending o')).2)).
    + apply spec_act. intros w. left. destruct (bindFileMutationExecutionInput _ _ _ _ _ _ _) as [pending r] eqn:Hb.
      split; [done|]. split; [done|]. exists (out w). by rewrite Hb.
    + intros r [o' Hr]. apply gate_or_deny. intros envelope ->. split; [done|]. by exists o'.
  - by intros envelope ev [-> _].
  - intros envelope ev [-> [o' Hb]]. eapply spec_bind.
    + eapply (launch_bound i p identity o text (Some d)); [done|]. by exists o', envelope.
    + intros r ev Hr. eapply (spec_bind _ _ _ (λ _ ev, ev = [])); [by apply spec_put|]. intros [] ? ->.
      apply spec_ret. destruct r as [r|e]; [by rewrite app_nil_r|done].
Qed.

Lemma checkpoint_spec i call serial :
  gate_spec prior i call (before_execute i call serial) (λ _ ev, ev = when (OpBeforeExecute opts) (DCheckpoint call true)).
Proof.
  unfold before_execute. destruct (OpBeforeExecute opts) as [f|]; [|by apply gate_ret].
  eapply gate_bind.
  - apply (spec_act _ _ (λ r ev, ev = [DCheckpoint call r.2])). intros w. right.
    destruct (f call (out w)) as [o' r']. exists (DCheckpoint call r'.2). cbn [fst snd].
    split; [|done]. unfold capture. by repeat case_match.
  - intros r ev ->. by constructor.
  - intros r ev ->. apply gate_require. intros ->. by apply gate_ret.
Qed.

Lemma policy_prior call d ev : policy_story call d ev → Forall prior ev.
Proof.
  intros (g & -> & Hg & _). apply Forall_app. split.
  - destruct Hg as [->|(input & -> & _)]; [constructor|by constructor].
  - destruct d; [by constructor|constructor].
Qed.

(** An execution either runs the executor once, after everything that has to come before
    it, or ends before it. *)
Lemma execute_spec p serial : spec (PtIndex p) (executePreparedToolCall p serial) (executed p).
Proof.
  unfold executePreparedToolCall. cbv zeta. unfold settle.
  eapply spec_bind with (Φ := λ r ev, match r with Ok a => executed p a ev | Err d => executed p d ev end);
    [|by intros [a|d] ev H; apply spec_ret].
  eapply (spec_mono _ _ (λ r ev, match r with Ok a => executed p a ev
     | Err d => (∃ reason, d = deniedToolResult (PtTool p) reason) ∧ Forall prior ev end)).
  { intros [a|d] ev; [done|]. intros [[reason ->] H]. by apply not_executed. }
  match goal with |- spec ?i ?q _ => change (gate_spec prior i (PtTool p) q (executed p)) end.
  eapply gate_try; [apply prior_context|intros a ev ->; by apply prior_when|]. intros [] ev ->.
  eapply (gate_silent _ _ _ _ _ (λ r, ∃ o, r = executorIdentityForAllowedTool (registry host o) (OpAllowedTools opts) (TuName (PtTool p))));
    [apply spec_ask; by eauto|]. intros r [o Hr]. apply gate_lookup. intros identity ->.
  eapply gate_try; [apply prior_identity|intros a ev ->; by constructor|]. intros [] ev ->.
  eapply gate_try; [apply policy_spec|intros [d fi] ev Hp; by eapply policy_prior|]. intros [d fi] policy Hpolicy.
  cbn [fst snd] in *. destruct (OpExecute opts) as [execute|]; [|apply gate_deny].
  eapply gate_try; [apply checkpoint_spec|intros a ev ->; by apply prior_when|]. intros mutation ev ->.
  eapply gate_try; [apply prior_context|intros a ev ->; by apply prior_when|]. intros [] ev ->.
  eapply gate_try; [apply prior_identity|intros a ev ->; by constructor|]. intros [] ev ->.
  eapply (gate_silent _ _ _ _ _ (λ r, ∃ o, r = bindToolExecutionInput (compact host) (registry host o) (TuInput (PtTool p)) identity));
    [apply spec_ask; by eauto|]. intros r [o2 Hr2]. apply gate_lookup. intros text ->.
  eapply gate_mono; [|by eapply bind_and_launch_spec].
  intros r ev (input & content & isError & -> & -> & Hb & Hfull). rewrite <- !app_assoc.
  apply (executed_call p identity d input content isError mutation policy); [by exists o|done..].
Qed.

(** ** The three phases *)

(** Run on its own, the program of a slot leaves the other slots alone. *)
Lemma spec_alone {A} i (p : PROG A) Φ w :
  spec i p Φ →
  wp interfere (λ _ _, True) p (λ a w', (∀ j, j ≠ i → story j w' = story j w) ∧
    ∃ ev, story i w' = ev ++ story i w ∧ Φ a ev) w.
Proof.
  intros Hp. eapply (wp_mono _ _ _ (λ a w', (∃ ev, story i w' = ev ++ story i w ∧ Φ a ev) ∧ own i w w')).
  - intros a w' [H Hown]. split; [|done]. intros j Hj. by eapply own_story.
  - eapply (wp_weaken interfere (own i)); [done|done|]. apply wp_keep; [apply _|by exists []|apply interfere_own|].
    eapply wp_weaken; [apply interfere_others|by intros|apply Hp].
Qed.

Lemma interfere_story i w w' : interfere w w' → story i w' = story i w.
Proof. intros H. by eapply others_story, interfere_others. Qed.

Lemma silent_alone {A} (p : PROG A) w :
  (∀ i, spec i p (λ _ ev, ev = [])) → wp interfere (λ _ _, True) p (λ _ w', ∀ j, story j w' = story j w) w.
Proof.
  intros Hp. eapply wp_mono; [|eapply (spec_alone 0 p (λ _ ev, ev = []) w), Hp].
  intros a w' (H0 & ev & H1 & ->) j. destruct (decide (j = 0%nat)) as [->|]; [done|by apply H0].
Qed.

Lemma instruction_silent f i : spec i (instruction f) (λ _ ev, ev = []).
Proof. unfold instruction. destruct f; [by apply spec_quietly|by apply spec_ret]. Qed.

(** Phase one: every slot is authorized or refused. *)
Definition authorized_slots (i : nat) (calls : list toolUseBlock) (w : World)
    (auth : list (result toolDispatchResult preparedToolCall)) (w' : World) : Prop :=
  length auth = length calls ∧
  (∀ k original r, calls !! k = Some original → auth !! k = Some r →
     ∃ ev, story (i + k) w' = ev ++ story (i + k) w ∧ authorized (i + k) original r ev) ∧
  (∀ j, (j < i ∨ i + length calls ≤ j)%nat → story j w' = story j w).

Lemma authorize_from_slots i calls w :
  wp interfere (λ _ _, True) (authorize_from i calls) (authorized_slots i calls w) w.
Proof.
  revert i w. induction calls as [|c calls IH]; intros i w; cbn [authorize_from].
  { split_and!; [done|done|by intros]. }
  apply wp_bind. eapply wp_mono; [|apply spec_alone, authorize_spec]. intros r w1 (Hother & ev & Hst & Hau).
  apply wp_bind. eapply wp_mono; [|apply IH]. intros rs w2 (Hlen & Hslots & Hrest). split_and!.
  - simpl. by rewrite Hlen.
  - intros [|k] original r' Ho Hr; simpl in Ho, Hr; simplify_eq.
    + rewrite Nat.add_0_r. exists ev. split; [|done]. rewrite Hrest by lia. done.
    + destruct (Hslots k original r' Ho Hr) as (ev' & He & Ha). replace (i + S k)%nat with (S i + k)%nat by lia.
      exists ev'. split; [|done]. rewrite He. f_equal. apply Hother. lia.
  - intros j Hj. simpl in Hj. rewrite Hrest by lia. apply Hother. lia.
Qed.

Lemma authorize_phase calls w :
  wp interfere (λ _ _, True) (_ ← instruction (OpInstructionBegin opts); authorize_from 0 calls)
    (authorized_slots 0 calls w) w.
Proof.
  apply wp_bind. eapply wp_mono; [|apply silent_alone; intros i; apply instruction_silent]. intros [] w1 Hw1. cbv beta in Hw1.
  eapply wp_mono; [|apply authorize_from_slots]. intros auth w2 (H1 & H2 & H3). split_and!; [done| |].
  - intros k original r Ho Hr. destruct (H2 k original r Ho Hr) as (ev & He & Ha). exists ev. by rewrite <- Hw1.
  - intros j Hj. rewrite H3 by done. apply Hw1.
Qed.

(** The indices of the prepared calls are their slots. *)
Lemma authorized_index i original p ev : authorized i original (Ok p) ev → PtIndex p = i.
Proof. by inversion 1. Qed.

Lemma prepared_slots calls w auth w' p :
  authorized_slots 0 calls w auth w' → p ∈ prepared auth →
  auth !! PtIndex p = Some (Ok p) ∧ (PtIndex p < length calls)%nat.
Proof.
  intros (Hlen & Hslots & _) Hp. apply list_elem_of_omap in Hp as (r & Hr & Hrp).
  destruct r as [q|]; [|done]. injection Hrp as ->. apply list_elem_of_lookup in Hr as [k Hk].
  assert (Hlt : (k < length calls)%nat) by (rewrite <- Hlen; by eapply lookup_lt_Some).
  apply lookup_lt_is_Some in Hlt as Hc. destruct Hc as [original Hc]. destruct (Hslots k original _ Hc Hk) as (ev & _ & Ha).
  apply authorized_index in Ha. simpl in Ha. by rewrite Ha.
Qed.

Lemma prepared_sorted_from i auth :
  (∀ k p, auth !! k = Some (Ok p) → PtIndex p = (i + k)%nat) →
  StronglySorted lt (map PtIndex (prepared auth)) ∧ Forall (λ p, (i ≤ PtIndex p)%nat) (prepared auth).
Proof.
  revert i. induction auth as [|r auth IH]; intros i H; [split; constructor|].
  destruct (IH (S i)) as [H1 H2].
  { intros k p Hk. rewrite (H (S k) p Hk). lia. }
  assert (H2' : Forall (λ p, (i ≤ PtIndex p)%nat) (prepared auth)).
  { eapply Forall_impl; [|exact H2]. simpl. intros. lia. }
  destruct r as [p|]; [|by split]. change (prepared (Ok p :: auth)) with (p :: prepared auth).
  assert (Hp : PtIndex p = i) by (rewrite (H 0%nat p eq_refl); lia). split; [|constructor; [lia|done]].
  cbn [map]. constructor; [done|]. apply Forall_fmap. eapply Forall_impl; [|exact H2]. simpl. intros. lia.
Qed.

Lemma prepared_sorted calls w auth w' : authorized_slots 0 calls w auth w' → StronglySorted lt (map PtIndex (prepared auth)).
Proof.
  intros Hs. apply (prepared_sorted_from 0). intros k p Hk. destruct Hs as (Hlen & Hslots & _).
  assert (Hlt : (k < length calls)%nat) by (rewrite <- Hlen; by eapply lookup_lt_Some).
  apply lookup_lt_is_Some in Hlt as [original Hc]. destruct (Hslots k original _ Hc Hk) as (ev & _ & Ha).
  by apply authorized_index in Ha.
Qed.

Lemma sorted_nodup (l : list nat) : StronglySorted lt l → NoDup l.
Proof.
  induction 1 as [|x l _ IH Hx]; [apply base.NoDup_nil_2|]. apply list.NoDup_cons. split; [|done].
  intros Hin. rewrite Forall_elem in Hx. specialize (Hx x Hin). lia.
Qed.
Lemma filter_sorted (P : preparedToolCall → Prop) `{∀ x, Decision (P x)} (l : list preparedToolCall) :
  StronglySorted lt (map PtIndex l) → StronglySorted lt (map PtIndex (filter P l)).
Proof.
  induction l as [|p l IH]; [done|]. cbn [map]. intros [Hl Hp]%StronglySorted_inv. specialize (IH Hl).
  destruct (decide (P p)) as [Hd|Hd]; [rewrite filter_cons_True by done|by rewrite filter_cons_False].
  constructor; [done|]. rewrite Forall_elem in Hp |- *. intros j (q & -> & [_ Hq]%list_elem_of_filter)%list_elem_of_fmap.
  by apply Hp, list_elem_of_fmap_2.
Qed.

Lemma prepared_nodup calls w auth w' : authorized_slots 0 calls w auth w' → NoDup (map PtIndex (prepared auth)).
Proof. intros H. by eapply sorted_nodup, prepared_sorted. Qed.

(** Phase two: the concurrent calls, under any schedule. *)
Definition executed_slots (ps : list preparedToolCall) (w : World) (rs : list toolDispatchResult) (w' : World) : Prop :=
  length rs = length ps ∧
  (∀ k p r, ps !! k = Some p → rs !! k = Some r →
     ∃ ev, story (PtIndex p) w' = ev ++ story (PtIndex p) w ∧ executed p r ev) ∧
  (∀ j, j ∉ map PtIndex ps → story j w' = story j w).

Lemma concurrent_phase ps w w' rs :
  NoDup (map PtIndex ps) →
  pool_runs interfere (map (λ p, executePreparedToolCall p false) ps) w w' rs → executed_slots ps w rs w'.
Proof.
  intros Hnd Hrun. set (slot k := default 0%nat (PtIndex <$> ps !! k)).
  assert (Hslot : ∀ k p, ps !! k = Some p → slot k = PtIndex p) by (intros k p Hk; unfold slot; by rewrite Hk).
  assert (Hin : ∀ k, (k < length ps)%nat → slot k ∈ map PtIndex ps).
  { intros k Hk. apply lookup_lt_is_Some in Hk as [p Hp]. rewrite (Hslot k p Hp).
    apply list_elem_of_fmap_2. by eapply list_elem_of_lookup_2. }
  assert (Hg : ∀ k1 k2 s s', (k1 < length ps)%nat → (k2 < length ps)%nat → k1 ≠ k2 → own (slot k1) s s' → others (slot k2) s s').
  { intros k1 k2 s s' Hk1 Hk2 Hne. apply own_others. intros E.
    apply lookup_lt_is_Some in Hk1 as [p1 Hp1], Hk2 as [p2 Hp2]. apply Hne.
    eapply (list.NoDup_lookup (map PtIndex ps)); [done| |]; rewrite list_lookup_fmap.
    - by rewrite Hp1.
    - rewrite Hp2. simpl. by rewrite <- (Hslot _ _ Hp1), E, (Hslot _ _ Hp2). }
  destruct (wp_pool interfere (λ k, others (slot k)) (λ k, own (slot k)) (length ps)
    (λ k, interfere_others (slot k)) Hg (λ k, _) (λ w w', ∀ j, j ∉ map PtIndex ps → story j w' = story j w)
    (λ k r w', ∀ p, ps !! k = Some p → ∃ ev, story (PtIndex p) w' = ev ++ story (PtIndex p) w ∧ executed p r ev)
    (map (λ p, executePreparedToolCall p false) ps) w w' rs) as (H1 & H2 & H3).
  - split; [done|]. intros w1 w2 w3 A1 A2 j Hj. by rewrite A2, A1.
  - intros s s' Hs j _. by apply interfere_story.
  - intros k s s' Hk Ho j Hj. eapply own_story; [|exact Ho]. intros <-. by apply Hj, Hin.
  - intros k r s s' HQ Ho p Hp. destruct (HQ p Hp) as (ev & He & Hx). exists ev. split; [|done].
    rewrite <- He. eapply others_story. by rewrite <- (Hslot k p Hp).
  - apply length_map.
  - intros k q Hq. rewrite list_lookup_fmap in Hq. destruct (ps !! k) as [p|] eqn:Hp; [|done]. injection Hq as <-.
    rewrite (Hslot k p Hp). eapply wp_mono; [|apply execute_spec]. intros r s' (ev & He & Hx) p' [= <-]. by exists ev.
  - exact Hrun.
  - split_and!; [by rewrite H1, length_map| |done]. intros k p r Hp Hr. by apply (H3 k r Hr).
Qed.

Lemma nodup_map_inj {A B} (f : A → B) (l : list A) x y : NoDup (map f l) → x ∈ l → y ∈ l → f x = f y → x = y.
Proof.
  intros Hnd (i & Hi)%list_elem_of_lookup (j & Hj)%list_elem_of_lookup E.
  assert (i = j) as ->; [|congruence]. eapply (list.NoDup_lookup (map f l)); [done| |]; rewrite list_lookup_fmap.
  - by rewrite Hi.
  - rewrite Hj. simpl. by rewrite E.
Qed.

(** Phase three. Results change after their call only for the worse. *)
Definition similar (r r' : toolDispatchResult) : Prop :=
  TrTool r' = TrTool r ∧ TrExecuted r' = TrExecuted r ∧ TrSynthetic r' = TrSynthetic r ∧ TrMutation r' = TrMutation r ∧
  (TrIsError r = true → TrIsError r' = true).
#[local] Instance similar_po : PreOrder similar.
Proof. split; [done|]. intros r1 r2 r3 (A1 & A2 & A3 & A4 & A5) (B1 & B2 & B3 & B4 & B5). split_and!; try congruence. auto. Qed.
Lemma similar_failed text r : similar r (mark_failed text r).
Proof. done. Qed.
Lemma similar_append text r : similar r (append_content text r).
Proof. done. Qed.

Definition is_rollback (e : DispatchEvent) : Prop := match e with DRollback _ _ => True | _ => False end.

(** A successful rollback, and a result that admits that there was none. *)
Definition restored (rb : list DispatchEvent) : Prop := ∃ m, DRollback m true ∈ rb.
Definition admits (text : string) : Prop := has_prefix text "[TRANSACTION INCOMPLETE]" = true.

(** What rolling a journal back does to the slots, with so many errors. *)
Definition rolled_back (journal : list committedFileMutation) (results : list toolDispatchResult) (w : World)
    (results' : list toolDispatchResult) (errors : nat) (w' : World) : Prop :=
  ∀ j, (j ∉ map CmResultIndex journal ∧ results' !! j = results !! j ∧ story j w' = story j w) ∨
       (j ∈ map CmResultIndex journal ∧ ∃ rb, story j w' = rb ++ story j w ∧ Forall is_rollback rb ∧
        ∃ text, results' !! j = mark_failed text <$> results !! j ∧ (restored rb ∨ (admits text ∧ errors ≠ 0%nat))).

Lemma rollback_one_spec m results :
  spec (CmResultIndex m) (rollback_one m results)
    (λ r ev, ∃ text, ev = [DRollback m r.2] ∧ r.1 = alter (mark_failed text) (CmResultIndex m) results ∧
             (r.2 = false → admits text)).
Proof.
  unfold rollback_one. cbv zeta.
  eapply (spec_bind _ _ _ (λ r ev, ev = [DRollback m (is_ok r)])).
  { apply spec_act. intros w. right. destruct (rollbackCommittedFileMutation _ _ _) as [s' r]. by eexists. }
  intros r ev ->. destruct r as [[]|e].
  - eapply (spec_bind _ _ _ (λ _ ev, ev = [])); [by apply spec_put|]. intros [] ev ->. apply spec_ret. by eexists.
  - eapply (spec_bind _ _ _ (λ _ ev, ev = [])); [by apply spec_put|]. intros [] ev ->. apply spec_ret. by eexists.
Qed.

Lemma rollback_from_spec reversed results errors w :
  wp interfere (λ _ _, True) (rollback_from reversed results errors)
    (λ r w', (errors ≤ r.2)%nat ∧ rolled_back reversed results w r.1 r.2 w') w.
Proof.
  revert results errors w. induction reversed as [|m rest IH]; intros results errors w; cbn [rollback_from].
  { split; [done|]. intros j. left. split_and!; [apply not_elem_of_nil|done|done]. }
  apply wp_bind. eapply wp_mono; [|apply spec_alone, rollback_one_spec].
  intros [results1 ok] w1 (Hother & ev & Hst & text & -> & Hr & Hadm). cbn [fst snd] in *.
  eapply wp_mono; [|apply IH]. intros r' w2 [Hle H].
  assert (Herr : (errors ≤ r'.2)%nat ∧ (ok = false → r'.2 ≠ 0%nat)) by (destruct ok; split; intros; try done; lia).
  split; [apply Herr|]. intros j. cbn [map]. rewrite Hr in H. destruct (H j) as [(Hn & Hres & Hj)|(Hin & rb & Hj & Hrb & text' & Hres & Hor)].
  - destruct (decide (j = CmResultIndex m)) as [->|Hd].
    + right. split; [left|]. exists [DRollback m ok]. split_and!; [by rewrite Hj|by constructor|].
      exists text. split; [by rewrite Hres, list_lookup_alter_eq|]. destruct ok; [left; exists m; left|right]. split; [by apply Hadm|by apply Herr].
    + left. split_and!; [by apply not_elem_of_cons|by rewrite Hres, list_lookup_alter_ne|]. by rewrite Hj, Hother.
  - right. split; [by right|]. destruct (decide (j = CmResultIndex m)) as [->|Hd].
    + exists (rb ++ [DRollback m ok]). split_and!.
      * by rewrite Hj, Hst, app_assoc.
      * apply Forall_app. split; [done|by constructor].
      * exists text'. split; [rewrite Hres, list_lookup_alter_eq; by destruct (results !! CmResultIndex m)|].
        destruct Hor as [[m' Hm]|Hor]; [left; exists m'; apply elem_of_app; by left|by right].
    + exists rb. split_and!; [by rewrite Hj, Hother|done|]. exists text'. by rewrite Hres, list_lookup_alter_ne.
Qed.

Lemma rollback_spec journal results w :
  wp interfere (λ _ _, True) (rollbackFileMutationBatch journal results)
    (λ r w', rolled_back journal results w r.1 r.2 w') w.
Proof.
  eapply wp_mono; [|apply rollback_from_spec]. intros r w' [_ H] j.
  assert (Hin : j ∈ map CmResultIndex (rev journal) ↔ j ∈ map CmResultIndex journal).
  { rewrite map_rev, !list_elem_of_In. symmetry. apply in_rev. }
  destruct (H j) as [(Hn & H1 & H2)|(Hn & H1)]; [left|right]; rewrite Hin in Hn; done.
Qed.

(** *** The serial loop

    What became of a call of the serial phase: its first result, and what it did; later it
    may only be rolled back. *)
Record Outcome := { oc_call : preparedToolCall; oc_first : toolDispatchResult; oc_events : list DispatchEvent }.
Definition slot (o : Outcome) : nat := PtIndex (oc_call o).
Definition is_mutation (o : Outcome) : Prop := isFileMutationTool (TuName (PtTool (oc_call o))) = true.
Definition succeeded (o : Outcome) : Prop := TrExecuted (oc_first o) = true ∧ TrIsError (oc_first o) = false.

Definition incomplete (r : toolDispatchResult) : Prop := admits (TrContent r).

Section outcomes.
Context (w0 : World).
Definition outcome_story (w : World) (o : Outcome) (rb : list DispatchEvent) : Prop :=
  Forall is_rollback rb ∧ story (slot o) w = rb ++ oc_events o ++ story (slot o) w0.
Definition outcome_ok (w : World) (results : list toolDispatchResult) (o : Outcome) : Prop :=
  executed (oc_call o) (oc_first o) (oc_events o) ∧ (∃ rb, outcome_story w o rb) ∧
  ∃ r, results !! slot o = Some r ∧ similar (oc_first o) r.
(** A mutation that stands, and one that does not. *)
Definition stands (w : World) (results : list toolDispatchResult) (o : Outcome) : Prop :=
  succeeded o ∧ outcome_story w o [] ∧ ∃ r, results !! slot o = Some r ∧ TrIsError r = false.
Definition undone (w : World) (results : list toolDispatchResult) (o : Outcome) : Prop :=
  ∃ r rb, results !! slot o = Some r ∧ TrIsError r = true ∧ outcome_story w o rb ∧ (succeeded o → restored rb ∨ incomplete r).
End outcomes.

(** [all_blocked]: the preflight blocks every mutation, otherwise it blocks none. *)
Record serial_inv (all_blocked : bool) (results0 : list toolDispatchResult) (w0 : World) (don : list preparedToolCall)
    (os : list Outcome) (st : BatchState) (w : World) : Prop := {
  si_calls : map oc_call os = don;
  si_nodup : NoDup (map slot os);
  si_length : length (bs_results st) = length results0;
  si_outcomes : ∀ o, o ∈ os → outcome_ok w0 w (bs_results st) o;
  si_reads : ∀ o, o ∈ os → ¬ is_mutation o → outcome_story w0 w o [] ∧ bs_results st !! slot o = Some (oc_first o);
  si_rest : ∀ j, j ∉ map PtIndex don → bs_results st !! j = results0 !! j ∧ story j w = story j w0;
  si_stands : bs_failed st = false → ∀ o, o ∈ os → is_mutation o →
    stands w0 w (bs_results st) o ∧ slot o ∈ map CmResultIndex (bs_journal st);
  si_undone : bs_failed st = true → ∀ o, o ∈ os → is_mutation o → undone w0 w (bs_results st) o;
  si_journal : ∀ j, j ∈ map CmResultIndex (bs_journal st) → ∃ o, o ∈ os ∧ is_mutation o ∧ slot o = j;
  si_blocked : all_blocked = true → ∀ o, o ∈ os → is_mutation o → bs_failed st = true;
  si_order : ∀ l1 o1 l2 o2 l3, os = l1 ++ o1 :: l2 ++ o2 :: l3 → is_mutation o1 → is_mutation o2 →
    TrExecuted (oc_first o2) = true → succeeded o1;
}.

Lemma executed_shape p r ev :
  executed p r ev → TrTool r = PtTool p ∧ TrSynthetic r = negb (TrExecuted r) ∧ (TrExecuted r = false → TrIsError r = true).
Proof. by destruct 1. Qed.

Lemma denied_executed p reason : executed p (deniedToolResult (PtTool p) reason) [].
Proof. by apply not_executed. Qed.

Section push.
Context (all_blocked : bool) (results0 : list toolDispatchResult) (w0 : World) (don : list preparedToolCall)
  (os : list Outcome) (st : BatchState) (w : World).
Context (Hinv : serial_inv all_blocked results0 w0 don os st w).
(** The next call, its first result, what it is set to, what it did. *)
Context (p : preparedToolCall) (r0 r : toolDispatchResult) (ev : list DispatchEvent) (w1 : World).
Context (Hnew : PtIndex p ∉ map PtIndex don) (Hlt : (PtIndex p < length results0)%nat).
Context (Hothers : ∀ j, j ≠ PtIndex p → story j w1 = story j w) (Hown : story (PtIndex p) w1 = ev ++ story (PtIndex p) w).
Context (Hexec : executed p r0 ev) (Hsim : similar r0 r).
Let o := {| oc_call := p; oc_first := r0; oc_events := ev |}.

Lemma old_slot o' : o' ∈ os → slot o' ≠ PtIndex p.
Proof.
  intros Ho E. apply Hnew. rewrite <- E, <- (si_calls _ _ _ _ _ _ _ Hinv).
  apply (list_elem_of_fmap_2 PtIndex). by apply (list_elem_of_fmap_2 oc_call).
Qed.

Lemma new_story : story (PtIndex p) w1 = ev ++ story (PtIndex p) w0.
Proof. rewrite Hown. f_equal. by apply (si_rest _ _ _ _ _ _ _ Hinv). Qed.

Lemma new_nodup : NoDup (map slot (os ++ [o])).
Proof.
  rewrite map_app. apply list.NoDup_app. split_and!; [apply (si_nodup _ _ _ _ _ _ _ Hinv)| |apply list.NoDup_cons; split; [by apply not_elem_of_nil|constructor]].
  intros j (o' & -> & Ho)%list_elem_of_fmap E%list_elem_of_singleton. by apply (old_slot o').
Qed.

Lemma same_slot o1 o2 : o1 ∈ os → o2 ∈ os → slot o1 = slot o2 → o1 = o2.
Proof. apply nodup_map_inj, (si_nodup _ _ _ _ _ _ _ Hinv). Qed.

Lemma new_calls : map oc_call (os ++ [o]) = don ++ [p].
Proof. rewrite map_app. by rewrite (si_calls _ _ _ _ _ _ _ Hinv). Qed.

Lemma new_order :
  (is_mutation o → TrExecuted r0 = true → bs_failed st = false) →
  ∀ l1 o1 l2 o2 l3, os ++ [o] = l1 ++ o1 :: l2 ++ o2 :: l3 → is_mutation o1 → is_mutation o2 →
    TrExecuted (oc_first o2) = true → succeeded o1.
Proof.
  intros Hrun l1 o1 l2 o2 l3 E H1 H2 Hx. destruct l3 as [|o3 l3 _] using rev_ind.
  - assert (E' : os ++ [o] = (l1 ++ o1 :: l2) ++ [o2]) by (rewrite E; by rewrite <- app_assoc).
    apply app_inj_tail in E' as [-> <-].
    by apply (si_stands _ _ _ _ _ _ _ Hinv (Hrun H2 Hx) o1); [apply elem_of_app; right; left|].
  - assert (E' : os ++ [o] = (l1 ++ o1 :: l2 ++ o2 :: l3) ++ [o3]).
    { rewrite E. rewrite <- app_assoc. cbn [app]. by rewrite <- app_assoc. }
    apply app_inj_tail in E' as [E' _]. by eapply (si_order _ _ _ _ _ _ _ Hinv).
Qed.

Lemma inv_push more failed :
  is_mutation o ∨ r = r0 →
  more = [] ∨ (∃ m, more = [m] ∧ CmResultIndex m = PtIndex p ∧ is_mutation o) →
  (failed = false → bs_failed st = false ∧ (is_mutation o → succeeded o ∧ TrIsError r = false ∧ more ≠ [])) →
  (failed = true → (∀ o', o' ∈ os → is_mutation o' → bs_failed st = true) ∧
     (is_mutation o → TrIsError r = true ∧ (succeeded o → incomplete r))) →
  (is_mutation o → TrExecuted r0 = true → bs_failed st = false) →
  (all_blocked = true → is_mutation o → failed = true) →
  serial_inv all_blocked results0 w0 (don ++ [p]) (os ++ [o])
    {| bs_results := <[PtIndex p := r]> (bs_results st); bs_journal := bs_journal st ++ more; bs_failed := failed |} w1.
Proof.
  intros Hread Hmore Hstands Hundone Hrun Hblocked.
  assert (Hold : ∀ o', o' ∈ os → <[PtIndex p := r]> (bs_results st) !! slot o' = bs_results st !! slot o' ∧
                          story (slot o') w1 = story (slot o') w).
  { intros o' Ho. apply old_slot in Ho. split; [by rewrite list_lookup_insert_ne|by apply Hothers]. }
  assert (Hres : <[PtIndex p := r]> (bs_results st) !! PtIndex p = Some r).
  { apply list_lookup_insert_eq. by rewrite (si_length _ _ _ _ _ _ _ Hinv). }
  assert (Hso : outcome_story w0 w1 o []) by (split; [constructor|apply new_story]).
  split; cbn [bs_results bs_failed bs_journal].
  - apply new_calls.
  - apply new_nodup.
  - rewrite length_insert. by apply (si_length _ _ _ _ _ _ _ Hinv).
  - intros o' [Ho| ->%list_elem_of_singleton]%elem_of_app.
    + destruct (si_outcomes _ _ _ _ _ _ _ Hinv o' Ho) as (A & (rb & B1 & B2) & C). destruct (Hold o' Ho) as [E1 E2].
      split_and!; [done| |by rewrite E1]. exists rb. split; [done|]. by rewrite E2.
    + split_and!; [done|by exists []|by exists r].
  - intros o' [Ho| ->%list_elem_of_singleton]%elem_of_app Hm.
    + destruct (si_reads _ _ _ _ _ _ _ Hinv o' Ho Hm) as ([A B] & C). destruct (Hold o' Ho) as [E1 E2].
      split; [split; [done|by rewrite E2]|by rewrite E1].
    + split; [done|]. destruct Hread as [Hread|<-]; [by destruct Hm|exact Hres].
  - intros j Hj. rewrite map_app in Hj. apply not_elem_of_app in Hj as [Hj Hj2].
    apply not_elem_of_cons in Hj2 as [Hj2 _]. destruct (si_rest _ _ _ _ _ _ _ Hinv j Hj) as [A B].
    rewrite list_lookup_insert_ne by congruence. split; [done|]. by rewrite Hothers.
  - intros Hf o' [Ho| ->%list_elem_of_singleton]%elem_of_app Hm; destruct (Hstands Hf) as [Hf' Hn].
    + destruct (si_stands _ _ _ _ _ _ _ Hinv Hf' o' Ho Hm) as ((A & [B1 B2] & C) & D).
      destruct (Hold o' Ho) as [E1 E2]. split.
      * split_and!; [done|split; [done|by rewrite E2]|by rewrite E1].
      * rewrite map_app. apply elem_of_app. by left.
    + destruct (Hn Hm) as (A & B & C). split; [split_and!; [done|done|by exists r]|].
      destruct Hmore as [->|(m & -> & E & _)]; [done|]. rewrite map_app. apply elem_of_app. right. cbn [map]. rewrite E. left.
  - intros Hf o' [Ho| ->%list_elem_of_singleton]%elem_of_app Hm; destruct (Hundone Hf) as [Hf' Hn].
    + destruct (si_undone _ _ _ _ _ _ _ Hinv (Hf' o' Ho Hm) o' Ho Hm) as (r' & rb & A & B & [C1 C2] & D).
      destruct (Hold o' Ho) as [E1 E2]. exists r', rb. split_and!; [by rewrite E1|done| |done]. split; [done|]. by rewrite E2.
    + destruct (Hn Hm) as [A B]. exists r, []. split_and!; [done|done|done|]. intros Hs. right. by apply B.
  - intros j Hj. rewrite map_app in Hj. apply elem_of_app in Hj as [Hj|Hj].
    + destruct (si_journal _ _ _ _ _ _ _ Hinv j Hj) as (o' & Ho & H1 & H2). exists o'. split_and!; [by apply elem_of_app; left|done|done].
    + destruct Hmore as [->|(m & -> & E & Hm)]; [by apply not_elem_of_nil in Hj|]. apply list_elem_of_singleton in Hj.
      exists o. split_and!; [by apply elem_of_app; right; left|done|]. by rewrite Hj, E.
  - intros Hb o' [Ho| ->%list_elem_of_singleton]%elem_of_app Hm; [|by apply Hblocked].
    pose proof (si_blocked _ _ _ _ _ _ _ Hinv Hb o' Ho Hm) as Hf. destruct failed; [done|].
    destruct (Hstands eq_refl) as [Hf' _]. congruence.
  - by apply new_order.
Qed.

(** A failed mutation: the earlier ones are rolled back, and its own result is an error. *)
Lemma inv_abort results1 results' errors w' :
  is_mutation o → bs_failed st = false → length results' = length results0 →
  rolled_back (bs_journal st) (<[PtIndex p := r]> (bs_results st)) w1 results1 errors w' →
  (∀ j, j ≠ PtIndex p → results' !! j = results1 !! j) →
  (∃ r', results' !! PtIndex p = Some r' ∧ similar r r' ∧ TrIsError r' = true ∧ (succeeded o → incomplete r')) →
  serial_inv all_blocked results0 w0 (don ++ [p]) (os ++ [o])
    {| bs_results := results'; bs_journal := []; bs_failed := true |} w'.
Proof.
  intros Hmut Hf Hlen Hroll Hsame (r' & Hr' & Hsim' & Herr & Hinc).
  assert (Hi : PtIndex p ∉ map CmResultIndex (bs_journal st)).
  { intros Hi. apply (si_journal _ _ _ _ _ _ _ Hinv) in Hi as (o' & Ho & _ & E). by apply (old_slot o'). }
  assert (Hp : outcome_story w0 w' o []).
  { split; [constructor|]. rewrite app_nil_l. change (story (PtIndex p) w' = ev ++ story (PtIndex p) w0). rewrite <- new_story. by destruct (Hroll (PtIndex p)) as [(_ & _ & E)|[? _]]. }
  assert (Hold : ∀ j, j ≠ PtIndex p → ∃ rb, story j w' = rb ++ story j w ∧ Forall is_rollback rb ∧
    ((j ∉ map CmResultIndex (bs_journal st) ∧ rb = [] ∧ results' !! j = bs_results st !! j) ∨
     (j ∈ map CmResultIndex (bs_journal st) ∧ ∃ text, results' !! j = mark_failed text <$> bs_results st !! j ∧
        (restored rb ∨ admits text)))).
  { intros j Hj. rewrite <- (Hothers j Hj). destruct (Hroll j) as [(A & B & C)|(A & rb & C & D & text & B & E)];
      rewrite list_lookup_insert_ne in B by congruence; rewrite <- (Hsame j Hj) in B.
    - exists []. split_and!; [done|done|by left].
    - exists rb. split_and!; [done|done|]. right. split; [done|]. exists text. split; [done|tauto]. }
  split; cbn [bs_results bs_failed bs_journal]; [apply new_calls|apply new_nodup|done| | | |done| | |done|].
  - intros o' [Ho| ->%list_elem_of_singleton]%elem_of_app.
    + destruct (si_outcomes _ _ _ _ _ _ _ Hinv o' Ho) as (A & (rb & B1 & B2) & r1 & C1 & C2).
      destruct (Hold (slot o') (old_slot o' Ho)) as (rb' & E1 & E2 & E3). split_and!; [done| |].
      * exists (rb' ++ rb). split; [by apply Forall_app|]. by rewrite E1, B2, app_assoc.
      * destruct E3 as [(_ & _ & E3)|(_ & text & E3 & _)]; rewrite C1 in E3; [by exists r1|].
        exists (mark_failed text r1). split; [done|]. etrans; [exact C2|]. apply similar_failed.
    + split_and!; [done|by exists []|]. exists r'. split; [done|]. by etrans.
  - intros o' [Ho| ->%list_elem_of_singleton]%elem_of_app Hm; [|done].
    destruct (si_reads _ _ _ _ _ _ _ Hinv o' Ho Hm) as ([_ B] & C).
    destruct (Hold (slot o') (old_slot o' Ho)) as (rb & E1 & _ & [(_ & -> & E2)|(Hin & _)]).
    + split; [split; [done|by rewrite E1]|by rewrite E2].
    + apply (si_journal _ _ _ _ _ _ _ Hinv) in Hin as (o2 & Ho2 & Hm2 & E). destruct Hm.
      by rewrite <- (same_slot o2 o' Ho2 Ho E).
  - intros j Hj. rewrite map_app in Hj. apply not_elem_of_app in Hj as [Hj Hj2]. apply not_elem_of_cons in Hj2 as [Hj2 _].
    destruct (si_rest _ _ _ _ _ _ _ Hinv j Hj) as [A B]. destruct (Hold j Hj2) as (rb & E1 & _ & [(_ & -> & E2)|(Hin & _)]).
    + by rewrite E2, E1, B.
    + apply (si_journal _ _ _ _ _ _ _ Hinv) in Hin as (o' & Ho & _ & <-). exfalso. apply Hj.
      rewrite <- (si_calls _ _ _ _ _ _ _ Hinv). apply (list_elem_of_fmap_2 PtIndex). by apply (list_elem_of_fmap_2 oc_call).
  - intros _ o' [Ho| ->%list_elem_of_singleton]%elem_of_app Hm.
    + destruct (si_stands _ _ _ _ _ _ _ Hinv Hf o' Ho Hm) as ((A & [_ B] & r1 & C & _) & D).
      destruct (Hold (slot o') (old_slot o' Ho)) as (rb & E1 & E2 & [(Hn & _)|(_ & text & E3 & E4)]); [done|].
      exists (mark_failed text r1), rb. split_and!; [by rewrite E3, C|done|split; [done|by rewrite E1, B]|]. intros _. exact E4.
    + exists r', []. split_and!; [done|done|done|]. intros Hs. right. by apply Hinc.
  - intros j Hj. by apply not_elem_of_nil in Hj.
  - by apply new_order.
Qed.
End push.

Lemma rolled_back_length journal results w results' errors w' :
  rolled_back journal results w results' errors w' → length results' = length results.
Proof.
  intros H. assert (Hs : ∀ j, results' !! j = None ↔ results !! j = None).
  { intros j. destruct (H j) as [(_ & -> & _)|(_ & rb & _ & _ & text & -> & _)]; [done|]. by destruct (results !! j). }
  pose proof (proj1 (Hs (length results')) (lookup_ge_None_2 _ _ (Nat.le_refl _))) as H1%lookup_ge_None_1.
  pose proof (proj2 (Hs (length results)) (lookup_ge_None_2 _ _ (Nat.le_refl _))) as H2%lookup_ge_None_1. lia.
Qed.

Lemma has_prefix_app s t pre : has_prefix s pre = true → has_prefix (s +:+ t) pre = true.
Proof.
  unfold has_prefix. revert s. induction pre as [|c pre IH]; intros [|d s]; simpl; try done; [by destruct t|].
  destruct (ascii_dec c d); [apply IH|done].
Qed.
Lemma incomplete_append text r : incomplete r → incomplete (append_content text r).
Proof. apply (has_prefix_app (TrContent r)). Qed.

Lemma abort_spec i st w :
  (i < length (bs_results st))%nat → i ∉ map CmResultIndex (bs_journal st) →
  wp interfere (λ _ _, True) (abort_batch i st) (λ st' w', ∃ results1 errors,
    rolled_back (bs_journal st) (bs_results st) w results1 errors w' ∧ bs_journal st' = [] ∧ bs_failed st' = true ∧
    length (bs_results st') = length (bs_results st) ∧ (∀ j, j ≠ i → bs_results st' !! j = results1 !! j) ∧
    ∀ r, bs_results st !! i = Some r → bs_results st' !! i = Some r ∨ ∃ text, bs_results st' !! i = Some (append_content text r)) w.
Proof.
  intros Hi Hn. apply wp_bind. eapply wp_mono; [|apply rollback_spec]. intros [results1 errors] w' H. cbn [fst snd] in *.
  exists results1, errors. pose proof (rolled_back_length _ _ _ _ _ _ H) as Hlen.
  assert (Hr : results1 !! i = bs_results st !! i) by (by destruct (H i) as [(_ & E & _)|[? _]]).
  split_and!; [done|done|done|..]; cbn [bs_results]; destruct (errors =? 0)%nat.
  - done.
  - by rewrite length_alter.
  - done.
  - intros j Hj. by rewrite list_lookup_alter_ne.
  - intros r E. left. by rewrite Hr.
  - intros r E. right. rewrite list_lookup_alter_eq, Hr, E. by eexists.
Qed.

(** *** The preflight

    It blocks every mutation of the batch, or none. *)
Definition blocks (b : bool) (calls : list preparedToolCall) (blocked : list (nat * string)) : Prop :=
  ∀ p, p ∈ calls → failure_of blocked (PtIndex p) ≠ "" ↔ b = true ∧ isFileMutationTool (TuName (PtTool p)) = true.

Definition batch_reason (failures : list (nat * string)) (p : preparedToolCall) : option (nat * string) :=
  if negb (isFileMutationTool (TuName (PtTool p))) then None
  else let reason := failure_of failures (PtIndex p) in
       Some (PtIndex p, if String.eqb reason "" then "File mutation batch blocked because another target failed preflight"
                        else reason).

Lemma failure_of_none failures i : (∀ f, f ∈ failures → f.1 ≠ i) → failure_of failures i = "".
Proof.
  intros H. unfold failure_of. destruct (list_find _ _) as [[k f]|] eqn:E; [|done].
  apply list_find_Some in E as (Hl & Hf & _). exfalso. apply (H f); [by eapply list_elem_of_lookup_2|done].
Qed.
Lemma failure_of_some failures i : (∀ f, f ∈ failures → f.2 ≠ "") → (∃ f, f ∈ failures ∧ f.1 = i) → failure_of failures i ≠ "".
Proof.
  intros Hne (f & Hf & Hi). unfold failure_of. destruct (list_find _ _) as [[k f']|] eqn:E.
  - apply list_find_Some in E as (Hl & _ & _). by apply Hne, (list_elem_of_lookup_2 _ k).
  - rewrite list_find_None, Forall_elem in E. by destruct (E f Hf Hi).
Qed.

Lemma blocks_all calls failures :
  NoDup (map PtIndex calls) → blocks true calls (omap (batch_reason failures) calls).
Proof.
  intros Hnd p Hp. split.
  - intros Hf. split; [done|]. destruct (isFileMutationTool _) eqn:E; [done|]. destruct Hf. apply failure_of_none.
    intros f (q & Hq & Hr)%list_elem_of_omap Hi. unfold batch_reason in Hr.
    destruct (isFileMutationTool (TuName (PtTool q))) eqn:Eq; [|done]. injection Hr as <-. simpl in Hi.
    assert (q = p) as -> by (by eapply nodup_map_inj). congruence.
  - intros [_ E]. apply failure_of_some.
    + intros f (q & _ & Hr)%list_elem_of_omap. unfold batch_reason in Hr. case_match; [done|].
      injection Hr as <-. cbv zeta. cbn [snd]. by destruct (String.eqb_spec (failure_of failures (PtIndex q)) "").
    + eexists. split; [apply list_elem_of_omap; exists p; split; [done|]; unfold batch_reason; by rewrite E|done].
Qed.

Lemma nonempty_reason d : readLedgerDenialReason d ≠ "".
Proof. unfold readLedgerDenialReason. by repeat case_match. Qed.

(** Looking at a mutation's target before the batch. *)
Definition looked (ev : list DispatchEvent) : Prop := Forall (λ e, match e with DLedger _ _ => True | _ => False end) ev.

Lemma preflight_one_spec p :
  spec (PtIndex p) (preflight_one p) (λ r ev, looked ev ∧ (isFileMutationTool (TuName (PtTool p)) = false → ev = [])).
Proof.
  unfold preflight_one. destruct (isFileMutationTool _) eqn:E; [|apply spec_ret; by split; [constructor|]].
  eapply (spec_bind _ _ _ (λ _ ev, ev = [])); [by apply spec_ask|]. intros [l|] ev ->; [|apply spec_ret; by split; [constructor|]].
  eapply (spec_bind _ _ _ (λ d ev, ev = [DLedger (PtTool p) d])); [by apply spec_observe|]. intros d ev ->.
  apply spec_ret. split; [by constructor|done].
Qed.

(** What the preflight adds to the stories: a look at every mutation. *)
Definition preflighted (calls : list preparedToolCall) (w w' : World) : Prop :=
  (∀ j, j ∉ map PtIndex calls → story j w' = story j w) ∧
  ∀ p, p ∈ calls → ∃ ev, story (PtIndex p) w' = ev ++ story (PtIndex p) w ∧ looked ev.

Lemma preflight_each calls w :
  NoDup (map PtIndex calls) →
  wp interfere (λ _ _, True) (prog_each preflight_one calls) (λ _ w', preflighted calls w w') w.
Proof.
  intros Hnd. apply (wp_each _ _ _ (λ don _ w', preflighted don w w')).
  { split; [done|]. by intros p Hp%elem_of_nil. }
  intros don p rest ys w1 -> [H1 H2]. rewrite map_app in Hnd. apply list.NoDup_app in Hnd as (_ & Hd & Hnd).
  cbn [map] in Hd, Hnd. eapply wp_mono; [|apply spec_alone, preflight_one_spec].
  intros r w2 (Hother & ev & Hst & Hl & _).
  assert (Hp : PtIndex p ∉ map PtIndex don) by (intros Hin; by apply (Hd _ Hin); left).
  split.
  - intros j. rewrite map_app. cbn [map]. intros [Hj [Hj2 _]%not_elem_of_cons]%not_elem_of_app. by rewrite Hother, H1.
  - intros q [Hq| ->%list_elem_of_singleton]%elem_of_app.
    + destruct (H2 q Hq) as (ev' & E & Hl'). exists ev'. split; [|done]. rewrite Hother; [done|].
      intros Eq. apply Hp. rewrite <- Eq. by apply list_elem_of_fmap_2.
    + exists ev. split; [|done]. by rewrite Hst, H1.
Qed.

Lemma preflight_spec calls w :
  NoDup (map PtIndex calls) →
  wp interfere (λ _ _, True) (preflightFileMutationBatch calls)
    (λ blocked w', preflighted calls w w' ∧ ∃ b, blocks b calls blocked) w.
Proof.
  intros Hnd.
  assert (Hnone : blocks false calls []) by (intros p _; split; [done|by intros [? _]]).
  unfold preflightFileMutationBatch. destruct (OpReadBeforeWrite opts); simpl negb; cbv iota.
  2: { split; [|by exists false]. split; [done|]. intros p _. by exists []; split; [|constructor]. }
  apply wp_bind. eapply wp_mono; [|by apply preflight_each]. intros found w1 H. cbv zeta. simpl.
  split; [done|]. destruct (length (omap id found) =? 0)%nat; [by exists false|]. exists true.
  by apply blocks_all.
Qed.

(** *** The serial loop keeps the invariant *)
Section step.
Context (b : bool) (results0 : list toolDispatchResult) (w0 : World) (don : list preparedToolCall)
  (os : list Outcome) (st : BatchState) (w : World).
Context (Hinv : serial_inv b results0 w0 don os st w).
Context (p : preparedToolCall) (Hnew : PtIndex p ∉ map PtIndex don) (Hlt : (PtIndex p < length results0)%nat).

Definition stepped (st' : BatchState) (w' : World) : Prop :=
  ∃ os', serial_inv b results0 w0 (don ++ [p]) os' st' w'.

(** The mutation ends the batch. *)
Lemma abort_step r0 r ev w1 :
  isFileMutationTool (TuName (PtTool p)) = true → bs_failed st = false →
  (∀ j, j ≠ PtIndex p → story j w1 = story j w) → story (PtIndex p) w1 = ev ++ story (PtIndex p) w →
  executed p r0 ev → similar r0 r → TrIsError r = true →
  (TrExecuted r0 = true → TrIsError r0 = false → incomplete r) →
  wp interfere (λ _ _, True) (abort_batch (PtIndex p) (set_result (PtIndex p) r st)) stepped w1.
Proof.
  intros Hm Hf Hothers Hown Hex Hsim Herr Hinc. eapply wp_mono; [|apply abort_spec].
  2: { cbn. by rewrite length_insert, (si_length _ _ _ _ _ _ _ Hinv). }
  2: { intros Hi. apply (si_journal _ _ _ _ _ _ _ Hinv) in Hi as (o' & Ho & _ & E). by eapply (old_slot _ _ _ _ _ _ _ Hinv). }
  intros [results' j f] w' (results1 & errors & Hroll & Hj & Hf' & Hlen & Hsame & Hr). cbn in *. subst j f.
  exists (os ++ [{| oc_call := p; oc_first := r0; oc_events := ev |}]).
  eapply (inv_abort _ _ _ _ _ _ _ Hinv p r0 r ev w1 Hnew Hothers Hown Hex Hsim results1 _ errors); [exact Hm|done| |exact Hroll|exact Hsame|].
  - by rewrite Hlen, length_insert, (si_length _ _ _ _ _ _ _ Hinv).
  - specialize (Hr r). rewrite list_lookup_insert_eq in Hr by (by rewrite (si_length _ _ _ _ _ _ _ Hinv)).
    destruct (Hr eq_refl) as [E|[text E]].
    + exists r. split_and!; [done|done|done|]. intros [A B]. by apply Hinc.
    + exists (append_content text r). split_and!; [done|done|done|]. intros [A B]. by apply incomplete_append, Hinc.
Qed.

(** The call does not end it. *)
Lemma push_step r0 ev w1 more failed :
  (∀ j, j ≠ PtIndex p → story j w1 = story j w) → story (PtIndex p) w1 = ev ++ story (PtIndex p) w →
  executed p r0 ev →
  (isFileMutationTool (TuName (PtTool p)) = false → more = [] ∧ failed = bs_failed st) →
  (isFileMutationTool (TuName (PtTool p)) = true →
     if failed then TrExecuted r0 = false ∧ more = [] ∧ (b = true ∨ bs_failed st = true)
     else b = false ∧ bs_failed st = false ∧ TrIsError r0 = false ∧ ∃ m, more = [m] ∧ CmResultIndex m = PtIndex p) →
  stepped {| bs_results := <[PtIndex p := r0]> (bs_results st); bs_journal := bs_journal st ++ more; bs_failed := failed |} w1.
Proof.
  intros Hothers Hown Hex Hn Hm. destruct (executed_shape _ _ _ Hex) as (_ & _ & Hx).
  exists (os ++ [{| oc_call := p; oc_first := r0; oc_events := ev |}]).
  unfold is_mutation, succeeded in *. apply (inv_push _ _ _ _ _ _ _ Hinv p r0 r0 ev w1); unfold is_mutation, succeeded; try done; cbn [oc_call oc_first].
  all: destruct (isFileMutationTool (TuName (PtTool p))); [specialize (Hm eq_refl); clear Hn|destruct (Hn eq_refl) as [-> ->]; clear Hm].
  - by right.
  - by right.
  - destruct failed; [left; tauto|]. right. naive_solver.
  - by left.
  - intros ->. destruct Hm as (_ & Hf & He & m & -> & _). split; [done|]. intros _. split_and!; [|done|done|done].
    destruct (TrExecuted r0); [done|]. by rewrite Hx in He.
  - by intros E.
  - intros ->. destruct Hm as (He & _ & Hor). split.
    + intros o' Ho Ho2. destruct Hor as [Hor|Hor]; [|done]. by apply (si_blocked _ _ _ _ _ _ _ Hinv Hor o').
    + intros _. split; [by apply Hx|]. intros [? _]. congruence.
  - intros E. by split.
  - intros _ He. destruct failed; [|tauto]. destruct Hm as [He' _]. congruence.
  - done.
  - intros -> _. destruct failed; [done|]. by destruct Hm.
  - done.
Qed.

Lemma capture_silent call : ∀ i, spec i (captureFileMutationSnapshot call) (λ _ ev, ev = []).
Proof.
  intros i. unfold captureFileMutationSnapshot. eapply (spec_try _ _ _ (λ _ ev, ev = [])); [by apply spec_ask|by intros ? ? ->|].
  intros path ev ->. eapply (spec_bind _ _ _ (λ _ ev, ev = [])).
  - apply spec_act. intros w1. left. by destruct (capture_snapshot _ _ _ _) as [s r].
  - intros r ev ->. by apply spec_lift.
Qed.
Lemma system_silent {R} (c : IO R) : ∀ i, spec i (system_call c) (λ _ ev, ev = []).
Proof. intros i. apply spec_act. intros w1. left. by destruct (c (io w1)) as [s r]. Qed.

Lemma set_result_twice i r1 r2 s : set_result i r2 (set_result i r1 s) = set_result i r2 s.
Proof. unfold set_result. cbn. by rewrite list_insert_insert_eq. Qed.

Lemma step_spec blocked :
  (failure_of blocked (PtIndex p) ≠ "" ↔ b = true ∧ isFileMutationTool (TuName (PtTool p)) = true) →
  wp interfere (λ _ _, True) (serial_step blocked p st) stepped w.
Proof.
  intros Hb. unfold serial_step. cbv zeta. destruct (String.eqb_spec (failure_of blocked (PtIndex p)) "") as [E|E]; cbn [negb].
  2: { apply Hb in E as [Eb E]. change (stepped (fail_batch (set_result (PtIndex p)
         (deniedToolResult (PtTool p) (failure_of blocked (PtIndex p))) st)) w).
       unfold fail_batch, set_result; cbn. rewrite <- (app_nil_r (bs_journal st)).
       apply (push_step _ [] w); [done|done|apply denied_executed|congruence|]. intros _. by split_and!; [| |left]. }
  destruct (isFileMutationTool (TuName (PtTool p))) eqn:Hm; cbn [negb andb].
  2: { apply wp_bind. eapply wp_mono; [|apply spec_alone, execute_spec]. intros r w1 (Ho & ev & Hs & Hx).
       change (stepped (set_result (PtIndex p) r st) w1). unfold set_result. rewrite <- (app_nil_r (bs_journal st)).
       by apply (push_step _ ev w1); [| | | |congruence]. }
  destruct (bs_failed st) eqn:Hf.
  { change (stepped (set_result (PtIndex p) (deniedToolResult (PtTool p)
      "File mutation batch was aborted after an earlier mutation failed") st) w).
    unfold set_result. rewrite <- (app_nil_r (bs_journal st)).
    apply (push_step _ [] w); [done|done|apply denied_executed|congruence|]. intros _. rewrite Hf. by split_and!; [| |right]. }
  assert (Hbf : b = false) by (destruct b; [|done]; by destruct (proj2 Hb (conj eq_refl eq_refl))).
  apply wp_bind. eapply wp_mono; [|by apply silent_alone, capture_silent]. intros [snapshot|e] w1 Hw1; cbv beta in Hw1.
  2: { eapply (abort_step _ _ []); [done|done|by intros; apply Hw1|by apply Hw1|apply denied_executed|done|done|done]. }
  apply wp_bind. eapply wp_mono; [|apply spec_alone, execute_spec]. intros r w2 (Ho & ev & Hs & Hx).
  assert (Ho2 : ∀ j, j ≠ PtIndex p → story j w2 = story j w) by (intros; by rewrite Ho, Hw1).
  assert (Hs2 : story (PtIndex p) w2 = ev ++ story (PtIndex p) w) by (by rewrite Hs, Hw1).
  destruct (TrIsError r) eqn:He.
  { by apply (abort_step r r ev); try done; intros _ ?; congruence. }
  apply wp_bind. eapply wp_mono; [|by apply silent_alone, system_silent]. intros [post|e] w3 Hw3; cbv beta in Hw3.
  - change (stepped {| bs_results := <[PtIndex p := r]> (bs_results st);
      bs_journal := bs_journal st ++ [{| CmResultIndex := PtIndex p; CmSnapshot := snapshot; CmPostRevision := post |}];
      bs_failed := bs_failed st |} w3). rewrite Hf.
    apply (push_step _ ev w3); [by intros; rewrite Hw3, Ho2|by rewrite Hw3|done|congruence|].
    intros _. split_and!; [done|done|done|]. by eexists.
  - rewrite set_result_twice. apply (abort_step r _ ev); try done; [by intros; rewrite Hw3, Ho2|by rewrite Hw3].
Qed.
End step.

Lemma loop_spec b results0 w0 blocked calls don os st w :
  serial_inv b results0 w0 don os st w → NoDup (map PtIndex (don ++ calls)) →
  (∀ p, p ∈ calls → (PtIndex p < length results0)%nat) → blocks b calls blocked →
  wp interfere (λ _ _, True) (serial_loop blocked calls st) (λ st' w', ∃ os', serial_inv b results0 w0 (don ++ calls) os' st' w') w.
Proof.
  revert don os st w. induction calls as [|p calls IH]; intros don os st w Hinv Hnd Hlt Hb; cbn [serial_loop].
  { rewrite app_nil_r. by exists os. }
  assert (Hp : PtIndex p ∉ map PtIndex don).
  { rewrite map_app in Hnd. apply list.NoDup_app in Hnd as (_ & Hd & _). intros Hin. apply (Hd _ Hin). by left. }
  apply wp_bind. eapply wp_mono; [|eapply (step_spec _ _ _ _ _ _ _ Hinv p Hp)].
  - intros st' w1 [os' Hinv']. replace (don ++ p :: calls) with ((don ++ [p]) ++ calls) in * by (by rewrite <- app_assoc).
    eapply IH; [done|done| |].
    + intros q Hq. apply Hlt. by right.
    + intros q Hq. apply Hb. by right.
  - apply Hlt. by left.
  - apply Hb. by left.
Qed.

(** *** The end of the batch *)
Lemma marks_lookup {X} (c : X → bool) (idx : X → nat) (text : toolDispatchResult → string) (P : string → Prop) l rs j :
  (∀ r, P (text r)) →
  let rs' := foldl (λ rs x, if c x then alter (λ r, mark_failed (text r) r) (idx x) rs else rs) rs l in
  length rs' = length rs ∧
  (((∃ x, x ∈ l ∧ c x = true ∧ idx x = j) ∧ ∃ t, P t ∧ rs' !! j = mark_failed t <$> rs !! j) ∨
   ((∀ x, x ∈ l → c x = true → idx x ≠ j) ∧ rs' !! j = rs !! j)).
Proof.
  intros HP. revert rs. induction l as [|x l IH]; intros rs; cbn [foldl].
  { split; [done|right]. split; [|done]. by intros x Hx%elem_of_nil. }
  destruct (IH (if c x then alter (λ r, mark_failed (text r) r) (idx x) rs else rs)) as [Hl Hj]. split.
  { etrans; [exact Hl|]. destruct (c x); [apply length_alter|done]. }
  destruct Hj as [((y & Hy & Hc & E) & t & Ht & Hr)|[Hn Hr]].
  - left. split; [exists y; split_and!; [by right|done|done]|]. exists t. split; [done|]. rewrite Hr.
    destruct (c x); [|done]. destruct (decide (idx x = j)) as [->|]; [|by rewrite list_lookup_alter_ne].
    rewrite list_lookup_alter_eq. by destruct (rs !! j).
  - destruct (c x) eqn:Hc; [destruct (decide (idx x = j)) as [<-|Hne]|].
    + left. split; [exists x; split_and!; [left|done|done]|]. rewrite Hr, list_lookup_alter_eq.
      destruct (rs !! idx x) as [r|]; [exists (text r); by split|]. exists (text no_result). by split.
    + right. split; [|by rewrite Hr, list_lookup_alter_ne]. intros y [-> |Hy]%elem_of_cons Hcy; [done|by apply Hn].
    + right. split; [|done]. intros y [-> |Hy]%elem_of_cons Hcy; [congruence|by apply Hn].
Qed.

Section finish.
Context (b : bool) (results0 : list toolDispatchResult) (w0 : World) (calls : list preparedToolCall)
  (os : list Outcome) (st : BatchState) (w : World).
Context (Hinv : serial_inv b results0 w0 calls os st w).

Lemma inv_silent w' : (∀ j, story j w' = story j w) → serial_inv b results0 w0 calls os st w'.
Proof.
  intros Hw. destruct Hinv as [H1 H1' H2 H3 H3' H4 H5 H6 H7 H8 H9].
  assert (Hst : ∀ o rb, outcome_story w0 w o rb → outcome_story w0 w' o rb) by (intros o rb [A B]; split; [done|by rewrite Hw]).
  split; try done.
  - intros o Ho. destruct (H3 o Ho) as (A & (rb & B) & C). split_and!; [done|exists rb; by apply Hst|done].
  - intros o Ho Hm. destruct (H3' o Ho Hm) as [A B]. split; [by apply Hst|done].
  - intros j Hj. rewrite Hw. by apply H4.
  - intros Hf o Ho Hm. destruct (H5 Hf o Ho Hm) as ((A & B & C) & D). split; [|done]. split_and!; [done|by apply Hst|done].
  - intros Hf o Ho Hm. destruct (H6 Hf o Ho Hm) as (r & rb & A & B & C & D). exists r, rb. split_and!; [done|done|by apply Hst|done].
Qed.

(** Every mutation is marked as failed, as undone or as incomplete. *)
Lemma inv_fail results' w' :
  length results' = length (bs_results st) →
  (∀ j, ∃ rb, story j w' = rb ++ story j w ∧ Forall is_rollback rb ∧
     ((rb = [] ∧ results' !! j = bs_results st !! j ∧ ∀ o, o ∈ os → is_mutation o → slot o ≠ j) ∨
      ((∃ o, o ∈ os ∧ is_mutation o ∧ slot o = j) ∧ ∃ text, results' !! j = mark_failed text <$> bs_results st !! j ∧
       (restored rb ∨ admits text)))) →
  serial_inv b results0 w0 calls os {| bs_results := results'; bs_journal := bs_journal st; bs_failed := true |} w'.
Proof.
  intros Hlen Hj. destruct Hinv as [H1 H1' H2 H3 H3' H4 H5 H6 H7 H8 H9].
  split; cbn [bs_results bs_journal bs_failed]; try done; [by rewrite Hlen| | | |].
  - intros o Ho. destruct (H3 o Ho) as (A & (rb & B1 & B2) & r & C1 & C2).
    destruct (Hj (slot o)) as (rb' & E1 & E2 & E3). split_and!; [done| |].
    + exists (rb' ++ rb). split; [by apply Forall_app|]. by rewrite E1, B2, app_assoc.
    + destruct E3 as [(_ & E3 & _)|(_ & text & E3 & _)]; rewrite E3, C1; [by exists r|].
      exists (mark_failed text r). split; [done|]. etrans; [exact C2|]. apply similar_failed.
  - intros o Ho Hm. destruct (H3' o Ho Hm) as [[_ A] B].
    destruct (Hj (slot o)) as (rb & E1 & _ & [(-> & E2 & _)|((o2 & Ho2 & Hm2 & E) & _)]).
    + split; [split; [done|by rewrite E1]|by rewrite E2].
    + destruct Hm. by rewrite <- (same_slot _ _ _ _ _ _ _ Hinv o2 o Ho2 Ho E).
  - intros j Hn. destruct (H4 j Hn) as [A B]. destruct (Hj j) as (rb & E1 & _ & [(-> & E2 & _)|((o & Ho & _ & E) & _)]).
    + by rewrite E2, E1, B.
    + exfalso. apply Hn. rewrite <- E, <- H1. apply (list_elem_of_fmap_2 PtIndex). by apply (list_elem_of_fmap_2 oc_call).
  - intros _ o Ho Hm. destruct (H3 o Ho) as (A & (rb & B1 & B2) & r & C1 & C2).
    destruct (Hj (slot o)) as (rb' & E1 & E2 & [(_ & _ & E3)|(_ & text & E3 & E4)]); [by destruct (E3 o Ho Hm)|].
    exists (mark_failed text r), (rb' ++ rb). split_and!; [by rewrite E3, C1|done| |].
    + split; [by apply Forall_app|]. by rewrite E1, B2, app_assoc.
    + intros _. destruct E4 as [[m E4]|E4]; [left; exists m; apply elem_of_app; by left|by right].
Qed.
End finish.

Lemma commit_spec b results0 w0 calls os st w :
  serial_inv b results0 w0 calls os st w →
  wp interfere (λ _ _, True) (commit_batch st) (λ st' w', serial_inv b results0 w0 calls os st' w') w.
Proof.
  intros Hinv. unfold commit_batch. destruct (OpMutationBatchCommitted opts) as [f|]; [|done].
  destruct (negb (bs_failed st) && _) eqn:Hc; [|done]. apply andb_prop in Hc as [Hf%negb_true_iff _].
  apply wp_bind. eapply wp_mono; [|apply silent_alone; intros i; by apply spec_quietly]. intros ok w1 Hw1. cbv beta in Hw1.
  destruct ok; [by apply (inv_silent _ _ _ _ _ _ _ Hinv)|].
  apply wp_bind. eapply wp_mono; [|apply rollback_spec]. intros [results1 errors] w2 Hroll. cbn [fst snd] in *.
  apply (inv_fail _ _ _ _ _ _ _ Hinv).
  - rewrite <- (rolled_back_length _ _ _ _ _ _ Hroll).
    by apply (marks_lookup (λ _, true) CmResultIndex (λ _, uncommitted_text errors) (λ t, t = uncommitted_text errors) (bs_journal st) results1 0).
  - intros j. destruct (marks_lookup (λ _, true) CmResultIndex (λ _, uncommitted_text errors) (λ t, t = uncommitted_text errors)
      (bs_journal st) results1 j (λ _, eq_refl)) as [_ [((m & Hm & _ & <-) & t & -> & E)|[Hn E]]].
    + assert (Hin : CmResultIndex m ∈ map CmResultIndex (bs_journal st)) by (by apply list_elem_of_fmap_2).
      destruct (Hroll (CmResultIndex m)) as [(Hn & _)|(_ & rb & A & B & text & D & C)]; [done|].
      exists rb. split_and!; [by rewrite A, Hw1|done|]. right. split; [by apply (si_journal _ _ _ _ _ _ _ Hinv)|].
      exists (uncommitted_text errors). split; [etrans; [exact E|]; rewrite D; by destruct (bs_results st !! CmResultIndex m)|].
      destruct C as [C|[_ C]]; [by left|right]. by destruct errors.
    + assert (Hin : j ∉ map CmResultIndex (bs_journal st)) by (intros (m & -> & Hm)%list_elem_of_fmap; by apply (Hn m)).
      destruct (Hroll j) as [(_ & A & B)|[? _]]; [|done]. exists []. split_and!; [by rewrite B, Hw1|constructor|]. left.
      split_and!; [done| |].
      * by etrans; [exact E|].
      * intros o Ho Hm <-. by apply Hin, (si_stands _ _ _ _ _ _ _ Hinv Hf o).
Qed.

Lemma settle_spec b results0 w0 calls os st w :
  serial_inv b results0 w0 calls os st w →
  wp interfere (λ _ _, True) (settle_batch calls st) (λ st' w', serial_inv b results0 w0 calls os st' w') w.
Proof.
  intros Hinv. unfold settle_batch. destruct (OpMutationBatchSettled opts) as [f|]; [|done].
  apply wp_bind. eapply wp_mono; [|apply silent_alone; intros i; by apply spec_ask]. intros paths w1 Hw1. cbv beta in Hw1.
  pose proof (inv_silent _ _ _ _ _ _ _ Hinv w1 Hw1) as Hinv1.
  destruct (bs_failed st && _) eqn:Hc; [|done]. apply andb_prop in Hc as [Hf _].
  apply wp_bind. eapply wp_mono; [|apply silent_alone; intros i; by apply spec_quietly]. intros ok w2 Hw2. cbv beta in Hw2.
  destruct ok; [by apply (inv_silent _ _ _ _ _ _ _ Hinv1)|]. rewrite Hf.
  pose proof (λ j, marks_lookup (λ p, isFileMutationTool (TuName (PtTool p))) PtIndex
    (λ r, "[TRANSACTION INCOMPLETE] The mutation batch failed and its recovery checkpoint could not be settled safely" +:+
          (if TrExecuted r && negb (String.eqb (TrDisplay r) "") then "; executor result: " +:+ TrDisplay r else ""))
    admits calls (bs_results st) j (λ _, eq_refl)) as Hmarks.
  apply (inv_fail _ _ _ _ _ _ _ Hinv1); [by apply (Hmarks 0%nat)|].
  intros j. exists []. split_and!; [by rewrite Hw2|constructor|].
  pose proof (si_calls _ _ _ _ _ _ _ Hinv) as Hcalls. destruct (Hmarks j) as [_ [((p & Hp & Hm & <-) & t & Ht & E)|[Hn E]]].
  - right. rewrite <- Hcalls in Hp. apply list_elem_of_fmap in Hp as (o & -> & Ho). split; [by exists o|].
    exists t. split; [exact E|by right].
  - left. split_and!; [done|exact E|]. intros o Ho Hm. apply Hn; [|done]. rewrite <- Hcalls. by apply list_elem_of_fmap_2.
Qed.

(** What the serial phase did: the outcomes of its calls, in order; the mutations stand or
    fall together, and none was executed after one that failed. *)
Record batch_outcome (w0 : World) (calls : list preparedToolCall) (results0 : list toolDispatchResult)
    (os : list Outcome) (results : list toolDispatchResult) (w : World) : Prop := {
  bo_calls : map oc_call os = calls;
  bo_length : length results = length results0;
  bo_outcomes : ∀ o, o ∈ os → outcome_ok w0 w results o;
  bo_reads : ∀ o, o ∈ os → ¬ is_mutation o → outcome_story w0 w o [] ∧ results !! slot o = Some (oc_first o);
  bo_rest : ∀ j, j ∉ map PtIndex calls → results !! j = results0 !! j ∧ story j w = story j w0;
  bo_atomic : (∀ o, o ∈ os → is_mutation o → stands w0 w results o) ∨ (∀ o, o ∈ os → is_mutation o → undone w0 w results o);
  bo_order : ∀ l1 o1 l2 o2 l3, os = l1 ++ o1 :: l2 ++ o2 :: l3 → is_mutation o1 → is_mutation o2 →
    TrExecuted (oc_first o2) = true → succeeded o1;
}.

Lemma serial_inv_outcome b results0 w0 calls os st w :
  serial_inv b results0 w0 calls os st w → batch_outcome w0 calls results0 os (bs_results st) w.
Proof.
  intros [H1 _ H2 H3 H4 H5 H6 H7 _ _ H8]. split; [done..| |done]. destruct (bs_failed st); [right; by apply H7|left].
  intros o Ho Hm. by apply H6.
Qed.

Lemma serial_inv_start b results0 w :
  serial_inv b results0 w [] [] {| bs_results := results0; bs_journal := []; bs_failed := false |} w.
Proof.
  assert (Hnone : ∀ o : Outcome, o ∉ []) by (intros o; apply not_elem_of_nil).
  split; cbn [bs_results bs_journal bs_failed map]; try done; try (intros; exfalso; by eapply Hnone).
  - apply base.NoDup_nil_2.
  - intros j Hj. by apply not_elem_of_nil in Hj.
  - by intros [|??] o1 l2 o2 l3.
Qed.

Lemma serial_phase_spec calls results0 w :
  NoDup (map PtIndex calls) → (∀ p, p ∈ calls → (PtIndex p < length results0)%nat) →
  wp interfere (λ _ _, True) (serial_phase calls results0)
    (λ results w', ∃ w0 os, preflighted calls w w0 ∧ batch_outcome w0 calls results0 os results w') w.
Proof.
  intros Hnd Hlt. apply wp_bind. eapply wp_mono; [|apply silent_alone; intros i; by apply spec_put].
  intros [] w1 Hw1. cbv beta in Hw1. apply wp_bind. eapply wp_mono; [|by apply preflight_spec].
  intros blocked w2 [Hpre [b Hb]]. apply wp_bind. eapply wp_mono; [|by eapply (loop_spec _ _ _ _ _ []), Hb; [apply serial_inv_start|..]].
  intros st w3 [os Hinv]. apply wp_bind. eapply wp_mono; [|by apply commit_spec]. intros st' w4 Hinv'.
  apply wp_bind. eapply wp_mono; [|by apply settle_spec]. intros st'' w5 Hinv''.
  exists w2, os. split; [|by eapply serial_inv_outcome]. destruct Hpre as [A B]. split.
  - intros j Hj. by rewrite A, Hw1.
  - intros p Hp. destruct (B p Hp) as (ev & E & Hl). exists ev. by rewrite E, Hw1.
Qed.

(** ** The turn *)

(** What became of one call: it was refused; or authorized and run beside the others; or
    authorized, looked at before the batch, run in the serial phase and maybe rolled back. *)
Inductive dispatched_call (k : nat) (original : toolUseBlock) : toolDispatchResult → list DispatchEvent → Prop :=
| dispatched_refused d ev :
    authorized k original (Err d) ev → dispatched_call k original d ev
| dispatched_concurrent p r ev before :
    authorized k original (Ok p) before → PtConcurrent p = true → executed p r ev →
    dispatched_call k original (mark_concurrent r) (ev ++ before)
| dispatched_serial p r ev looks before :
    authorized k original (Ok p) before → PtConcurrent p = false → isFileMutationTool (TuName (PtTool p)) = false →
    looked looks → executed p r ev →
    dispatched_call k original r (ev ++ looks ++ before)
| dispatched_mutation p r r' rb ev looks before :
    authorized k original (Ok p) before → isFileMutationTool (TuName (PtTool p)) = true →
    looked looks → executed p r ev → similar r r' → Forall is_rollback rb →
    dispatched_call k original r' (rb ++ ev ++ looks ++ before).

Lemma receive_length calls rs results : length (receive calls rs results) = length results.
Proof.
  unfold receive. generalize (zip calls rs). intros l. revert results. induction l as [|x l IH]; intros results; [done|].
  cbn [foldl]. by rewrite IH, length_insert.
Qed.
Lemma receive_other calls rs results j : j ∉ map PtIndex calls → receive calls rs results !! j = results !! j.
Proof.
  unfold receive. revert rs results. induction calls as [|p calls IH]; intros [|r rs] results; try done.
  cbn [map]. intros [Hj Hj']%not_elem_of_cons. cbn [zip zip_with foldl fst snd]. rewrite IH by done.
  by rewrite list_lookup_insert_ne.
Qed.
Lemma receive_at calls rs results k p r :
  NoDup (map PtIndex calls) → (∀ p, p ∈ calls → (PtIndex p < length results)%nat) → calls !! k = Some p → rs !! k = Some r →
  receive calls rs results !! PtIndex p = Some (mark_concurrent r).
Proof.
  revert k rs results. induction calls as [|q calls IH]; intros k [|r' rs] results Hnd Hlt Hp Hr; try done.
  cbn [map] in Hnd. apply list.NoDup_cons in Hnd as [Hn Hnd].
  change (receive (q :: calls) (r' :: rs) results) with (receive calls rs (<[PtIndex q := mark_concurrent r']> results)).
  destruct k as [|k]; simpl in Hp, Hr.
  - simplify_eq. rewrite receive_other by done. apply list_lookup_insert_eq, Hlt. left.
  - apply (IH k); [done| |done|done]. intros p' Hp'. rewrite length_insert. apply Hlt. by right.
Qed.

Lemma concurrent_reads name input : IsConcurrencySafe name input = true → isFileMutationTool name = false.
Proof.
  intros H. destruct (isFileMutationTool name) eqn:E; [|done]. unfold isFileMutationTool in E.
  apply orb_prop in E as [->%String.eqb_eq| ->%String.eqb_eq]; done.
Qed.

Lemma executed_event p r ev call input c e :
  executed p r ev → DExecute call input c e ∈ ev → call = PtTool p ∧ TrExecuted r = true ∧ TrIsError r = e.
Proof.
  assert (Hprior : ∀ l, Forall prior l → DExecute call input c e ∉ l).
  { intros l Hl Hin. rewrite Forall_elem in Hl. by apply Hl in Hin. }
  destruct 1 as [identity d input' content isError mutation policy _ Hpol _ _|reason ev Hev]; [|by intros Hin; destruct (Hprior _ Hev)].
  pose proof (policy_prior _ _ _ Hpol) as Hpp. unfold execution_story, launch_story, grant_story. cbv zeta. intros Hin.
  repeat match type of Hin with
  | _ ∈ _ ++ _ => apply elem_of_app in Hin as [Hin|Hin]
  | _ ∈ when ?o _ => destruct o; simpl in Hin
  | _ ∈ match ?o with Some _ => _ | None => _ end => destruct o
  | _ ∈ policy => by destruct (Hprior _ Hpp)
  | _ ∈ _ :: _ => apply elem_of_cons in Hin as [Hin|Hin]
  | _ ∈ [] => by apply not_elem_of_nil in Hin
  end; try done. by injection Hin as -> -> -> ->.
Qed.

Lemma authorized_silent i original r ev call input c e : authorized i original r ev → DExecute call input c e ∉ ev.
Proof.
  assert (Hb : ∀ l, Forall benign l → DExecute call input c e ∉ l).
  { intros l Hl Hin. rewrite Forall_elem in Hl. by apply Hl in Hin. }
  destruct 1 as [call' identity p completed ev ? _ Hg _ _ _ _ _|? ? ev _ Hev|call' identity p completed ev ? ? _ Hg _].
  - intros [Hin|Hin]%elem_of_app; [|by eapply Hb, Hin; eapply gated_benign]. destruct (OpPreHook opts); [|by apply not_elem_of_nil in Hin].
    by apply list_elem_of_singleton in Hin.
  - by apply Hb.
  - intros [Hin|Hin]%elem_of_cons; [done|]. by eapply Hb, Hin; eapply gated_benign.
Qed.

Lemma looked_silent ev call input c e : looked ev → DExecute call input c e ∉ ev.
Proof. intros Hl Hin. unfold looked in Hl. rewrite Forall_elem in Hl. by apply Hl in Hin. Qed.

Lemma prepared_at auth k p : auth !! k = Some (Ok p) → p ∈ prepared auth.
Proof. intros H. apply list_elem_of_omap. exists (Ok p). split; [by eapply list_elem_of_lookup_2|done]. Qed.

Lemma concurrent_at auth p : p ∈ concurrent_calls auth ↔ p ∈ prepared auth ∧ PtConcurrent p = true.
Proof. unfold concurrent_calls. rewrite list_elem_of_filter. tauto. Qed.
Lemma serial_at auth p : p ∈ serial_calls auth ↔ p ∈ prepared auth ∧ PtConcurrent p = false.
Proof. unfold serial_calls. rewrite list_elem_of_filter. tauto. Qed.

Section phases.
Context (calls : list toolUseBlock) (w w1 : World) (auth : list (result toolDispatchResult preparedToolCall)).
Context (Hauth : authorized_slots 0 calls w auth w1).

Lemma slot_unique p q : p ∈ prepared auth → q ∈ prepared auth → PtIndex p = PtIndex q → p = q.
Proof. by apply nodup_map_inj, (prepared_nodup calls w auth w1). Qed.

Lemma unprepared k d : auth !! k = Some (Err d) → k ∉ map PtIndex (prepared auth).
Proof.
  intros Hk (p & -> & Hp)%list_elem_of_fmap. destruct (prepared_slots _ _ _ _ _ Hauth Hp) as [Hp' _]. congruence.
Qed.

Lemma concurrent_slot p k : p ∈ prepared auth → PtIndex p = k → PtConcurrent p = true → k ∉ map PtIndex (serial_calls auth).
Proof.
  intros Hp <- Hc (q & E & [Hq Hs]%serial_at)%list_elem_of_fmap. rewrite (slot_unique p q) in Hc by done. congruence.
Qed.
Lemma serial_slot p k : p ∈ prepared auth → PtIndex p = k → PtConcurrent p = false → k ∉ map PtIndex (concurrent_calls auth).
Proof.
  intros Hp <- Hc (q & E & [Hq Hs]%concurrent_at)%list_elem_of_fmap. rewrite (slot_unique p q) in Hc by done. congruence.
Qed.
Lemma unprepared_concurrent k : k ∉ map PtIndex (prepared auth) → k ∉ map PtIndex (concurrent_calls auth).
Proof. intros Hn (q & -> & [Hq _]%concurrent_at)%list_elem_of_fmap. by apply Hn, list_elem_of_fmap_2. Qed.
Lemma unprepared_serial k : k ∉ map PtIndex (prepared auth) → k ∉ map PtIndex (serial_calls auth).
Proof. intros Hn (q & -> & [Hq _]%serial_at)%list_elem_of_fmap. by apply Hn, list_elem_of_fmap_2. Qed.
End phases.

Lemma slot_in_order serial os o1 o2 :
  StronglySorted lt (map PtIndex serial) → map oc_call os = serial →
  o1 ∈ os → o2 ∈ os → (slot o1 < slot o2)%nat → ∃ l1 l2 l3, os = l1 ++ o1 :: l2 ++ o2 :: l3.
Proof.
  intros Hs E H1 H2 Hlt.
  assert (Hos : StronglySorted lt (map slot os)).
  { revert Hs. by rewrite <- E, map_map. }
  apply list_elem_of_split in H1 as (l1 & l3 & ->). rewrite map_app in Hos. cbn [map] in Hos.
  apply elem_of_app in H2 as [H2|[-> |H2]%elem_of_cons].
  - apply (StronglySorted_app_1_elem_of lt _ _ (slot o2) (slot o1)) in Hos; [lia|by apply list_elem_of_fmap_2|left].
  - lia.
  - apply list_elem_of_split in H2 as (l2 & l3' & ->). by exists l1, l2, l3'.
Qed.

Section slots.
Context (calls : list toolUseBlock) (w w1 w2 w0 w3 : World) (auth : list (result toolDispatchResult preparedToolCall)).
Context (rs results : list toolDispatchResult) (os : list Outcome).
Context (Hauth : authorized_slots 0 calls w auth w1) (Hexec : executed_slots (concurrent_calls auth) w1 rs w2).
Context (Hpre : preflighted (serial_calls auth) w2 w0).
Context (Hbatch : batch_outcome w0 (serial_calls auth) (receive (concurrent_calls auth) rs (denials auth)) os results w3).

Lemma turn_denials_length p : p ∈ prepared auth → (PtIndex p < length (denials auth))%nat.
Proof.
  intros Hp. unfold denials. destruct Hauth as (Hlen & _). rewrite length_map, Hlen. by apply (prepared_slots _ _ _ _ _ Hauth).
Qed.

(** The first half of a slot's story, and what is left for the second. *)
Lemma authorized_slot k original :
  calls !! k = Some original → ∃ r before, auth !! k = Some r ∧ story k w1 = before ++ story k w ∧ authorized k original r before.
Proof.
  destruct Hauth as (Hlen & Hslots & _). intros Hk.
  assert (Hlk : (k < length auth)%nat) by (rewrite Hlen; by eapply lookup_lt_Some).
  apply lookup_lt_is_Some in Hlk as [r Hr]. destruct (Hslots k original r Hk Hr) as (before & Hst & Ha). by exists r, before.
Qed.

Lemma untouched_slot k :
  k ∉ map PtIndex (concurrent_calls auth) → k ∉ map PtIndex (serial_calls auth) →
  results !! k = denials auth !! k ∧ story k w3 = story k w1.
Proof.
  intros Hc Hs. destruct (bo_rest _ _ _ _ _ _ Hbatch k Hs) as [A B]. split.
  - by rewrite A, receive_other.
  - rewrite B. destruct Hpre as [-> _]; [|done]. by apply Hexec.
Qed.

Lemma concurrent_done p :
  p ∈ prepared auth → PtConcurrent p = true →
  ∃ r ev, results !! PtIndex p = Some (mark_concurrent r) ∧ story (PtIndex p) w3 = ev ++ story (PtIndex p) w1 ∧ executed p r ev.
Proof.
  intros Hp Hc. pose proof (concurrent_slot _ _ _ _ Hauth p _ Hp eq_refl Hc) as Hs.
  destruct (bo_rest _ _ _ _ _ _ Hbatch _ Hs) as [A B]. destruct Hexec as (Hl & Hx & _).
  assert (Hin : p ∈ concurrent_calls auth) by (by apply concurrent_at). apply list_elem_of_lookup in Hin as [j Hj].
  assert (Hlr : (j < length rs)%nat) by (rewrite Hl; by eapply lookup_lt_Some). apply lookup_lt_is_Some in Hlr as [r Hr].
  destruct (Hx j p r Hj Hr) as (ev & E & Hev). exists r, ev. split_and!; [|by rewrite B, (proj1 Hpre)|done].
  rewrite A. apply (receive_at _ _ _ j); [|by intros q [Hq _]%concurrent_at; apply turn_denials_length|done|done].
  by eapply sorted_nodup, filter_sorted, prepared_sorted.
Qed.

Lemma serial_done p :
  p ∈ prepared auth → PtConcurrent p = false →
  ∃ o looks, o ∈ os ∧ oc_call o = p ∧ looked looks ∧ story (PtIndex p) w0 = looks ++ story (PtIndex p) w1.
Proof.
  intros Hp Hc. assert (Hin : p ∈ serial_calls auth) by (by apply serial_at).
  destruct (proj2 Hpre p Hin) as (looks & E & Hl). pose proof (serial_slot _ _ _ _ Hauth p _ Hp eq_refl Hc) as Hn.
  rewrite <- (bo_calls _ _ _ _ _ _ Hbatch) in Hin. apply list_elem_of_fmap in Hin as (o & -> & Ho).
  exists o, looks. split_and!; [done|done|done|]. rewrite E. f_equal. by apply Hexec.
Qed.

(** A call that executes no file mutation. *)
Definition plain (k : nat) (original : toolUseBlock) : Prop :=
  ∃ r ev, results !! k = Some r ∧ story k w3 = ev ++ story k w ∧ dispatched_call k original r ev ∧
    ∀ call input c e, DExecute call input c e ∈ ev → isFileMutationTool (TuName call) = false.
(** A mutation of the serial phase. *)
Definition batched (k : nat) (original : toolUseBlock) : Prop :=
  ∃ o before looks, o ∈ os ∧ slot o = k ∧ is_mutation o ∧ authorized k original (Ok (oc_call o)) before ∧
    looked looks ∧ story k w0 = looks ++ before ++ story k w.

Lemma refused_plain k original d before :
  auth !! k = Some (Err d) → story k w1 = before ++ story k w → authorized k original (Err d) before → plain k original.
Proof.
  intros Hr Hst Ha. pose proof (unprepared _ _ _ _ Hauth _ _ Hr) as Hn.
  destruct (untouched_slot k) as [A B]; [by apply unprepared_concurrent|by apply unprepared_serial|].
  exists d, before. split_and!; [|by rewrite B|by constructor|].
  - rewrite A. unfold denials. by rewrite list_lookup_fmap, Hr.
  - intros call input c e Hin. by destruct (authorized_silent _ _ _ _ call input c e Ha).
Qed.

Lemma prepared_index k original p before :
  auth !! k = Some (Ok p) → authorized k original (Ok p) before → p ∈ prepared auth ∧ PtIndex p = k.
Proof. intros Hr Ha. split; [by eapply prepared_at|by eapply authorized_index]. Qed.

Lemma concurrent_plain k original p before :
  auth !! k = Some (Ok p) → story k w1 = before ++ story k w → authorized k original (Ok p) before → PtConcurrent p = true →
  plain k original.
Proof.
  intros Hr Hst Ha Hc. destruct (prepared_index _ _ _ _ Hr Ha) as [Hp E]. destruct (concurrent_done p Hp Hc) as (r & ev & A & B & Hx).
  rewrite E in A, B. exists (mark_concurrent r), (ev ++ before). split_and!; [done|by rewrite B, Hst, app_assoc|by eapply dispatched_concurrent|].
  intros call input c e [Hin|Hin]%elem_of_app; [|by destruct (authorized_silent _ _ _ _ call input c e Ha)].
  destruct (executed_event _ _ _ _ _ _ _ Hx Hin) as (-> & _ & _).
  inversion Ha as [call' identity permission completed ev' p' ? ? ? Ht ? ? Hcc| |]; subst. eapply concurrent_reads. by rewrite <- Hcc.
Qed.

Lemma serial_plain_or_batched k original p before :
  auth !! k = Some (Ok p) → story k w1 = before ++ story k w → authorized k original (Ok p) before → PtConcurrent p = false →
  plain k original ∨ batched k original.
Proof.
  intros Hr Hst Ha Hc. destruct (prepared_index _ _ _ _ Hr Ha) as [Hp E]. destruct (serial_done p Hp Hc) as (o & looks & Ho & <- & Hl & B).
  rewrite E, Hst in B. destruct (isFileMutationTool (TuName (PtTool (oc_call o)))) eqn:Hm.
  { right. exists o, before, looks. by split_and!. }
  left. destruct (bo_outcomes _ _ _ _ _ _ Hbatch o Ho) as (Hx & _).
  destruct (bo_reads _ _ _ _ _ _ Hbatch o Ho) as [[_ C] D]; [by unfold is_mutation; rewrite Hm|].
  unfold slot in C, D. rewrite E in C, D. cbn [app] in C.
  exists (oc_first o), (oc_events o ++ looks ++ before). split_and!; [done|by rewrite C, B, <- !app_assoc|by eapply dispatched_serial|].
  intros call input c e [Hin|[Hin|Hin]%elem_of_app]%elem_of_app.
  - by destruct (executed_event _ _ _ _ _ _ _ Hx Hin) as (-> & _ & _).
  - by destruct (looked_silent _ call input c e Hl).
  - by destruct (authorized_silent _ _ _ _ call input c e Ha).
Qed.

Lemma slot_done k original : calls !! k = Some original → plain k original ∨ batched k original.
Proof.
  intros Hk. destruct (authorized_slot k original Hk) as ([p|d] & before & Hr & Hst & Ha).
  - destruct (PtConcurrent p) eqn:Hc; [left; by eapply concurrent_plain|by eapply serial_plain_or_batched].
  - left. by eapply refused_plain.
Qed.
End slots.

(** A turn's phases, in one. *)
Record turn (calls : list toolUseBlock) (w w' : World) (results : list toolDispatchResult) (w0 w3 : World)
    (serial : list preparedToolCall) (results0 : list toolDispatchResult) (os : list Outcome) : Prop := {
  tu_length : length results = length calls;
  tu_sorted : StronglySorted lt (map PtIndex serial);
  tu_batch : batch_outcome w0 serial results0 os results w3;
  tu_end : ∀ j, story j w' = story j w3;
  tu_slot : ∀ k original, calls !! k = Some original → plain w w3 results k original ∨ batched w w0 os k original;
}.

Lemma turn_phases calls w w' results :
  dispatchToolCalls calls w w' results → ∃ w0 w3 serial results0 os, turn calls w w' results w0 w3 serial results0 os.
Proof.
  destruct 1 as [w1 auth w2 rs w4 results Hr1 Hr2 Hr3].
  pose proof (wp_runs interfere interfere _ _ _ _ _ _ (λ _ _ H, H) (authorize_phase calls w) Hr1) as Hauth.
  pose proof (prepared_sorted _ _ _ _ Hauth) as Hsorted.
  pose proof (concurrent_phase _ _ _ _ (sorted_nodup _ (filter_sorted (λ p, PtConcurrent p = true) _ Hsorted)) Hr2) as Hexec.
  set (results0 := receive (concurrent_calls auth) rs (denials auth)) in *.
  apply runs_bind in Hr3 as (w3 & results' & Hr3 & Hr4). apply runs_bind in Hr4 as (w5 & [] & Hr4 & [<- ->]).
  pose proof (wp_runs interfere interfere _ _ _ _ _ _ (λ _ _ H, H) (silent_alone _ _ (instruction_silent _)) Hr4) as Hsame.
  assert (Hlt : ∀ p, p ∈ serial_calls auth → (PtIndex p < length results0)%nat).
  { intros p [Hp _]%serial_at. unfold results0. rewrite receive_length. by eapply turn_denials_length. }
  destruct (wp_runs interfere interfere _ _ _ _ _ _ (λ _ _ H, H) (serial_phase_spec _ _ w2
    (sorted_nodup _ (filter_sorted (λ p, PtConcurrent p = false) _ Hsorted)) Hlt) Hr3) as (w0 & os & Hpre & Hbatch).
  exists w0, w3, (serial_calls auth), results0, os. split; [|by apply filter_sorted|done|done|].
  - rewrite (bo_length _ _ _ _ _ _ Hbatch). unfold results0. rewrite receive_length. unfold denials. rewrite length_map. apply Hauth.
  - intros k original. by eapply slot_done.
Qed.

(** A mutation's story and result at the end of the turn. *)
Lemma batched_call calls w w' results w0 w3 serial results0 os k original :
  turn calls w w' results w0 w3 serial results0 os → batched w w0 os k original →
  ∃ r ev, results !! k = Some r ∧ story k w' = ev ++ story k w ∧ dispatched_call k original r ev.
Proof.
  intros Ht (o & before & looks & Ho & <- & Hm & Ha & Hl & Hst).
  destruct (bo_outcomes _ _ _ _ _ _ (tu_batch _ _ _ _ _ _ _ _ _ Ht) o Ho) as (Hx & (rb & Hrb & E) & r & Hr & Hsim).
  exists r, (rb ++ oc_events o ++ looks ++ before). split_and!; [done| |by eapply dispatched_mutation].
  rewrite (tu_end _ _ _ _ _ _ _ _ _ Ht), E, Hst. by rewrite <- !app_assoc.
Qed.

(** ** The theorems of the dispatcher *)

(** What lies between the pre-tool hook and the executor. *)
Record launch_checks (call : toolUseBlock) (danger : DangerLevel) (grant : option Pending) (late : list DispatchEvent) : Prop := {
  lc_identity : DIdentity (TuName call) true ∈ late;
  lc_context : OpContextDone opts ≠ None → DContext false ∈ late;
  lc_checkpoint : OpBeforeExecute opts ≠ None → DCheckpoint call true ∈ late;
  lc_journal : OpPreExecutionJournal opts ≠ None → DJournal (journal_entry (OpRunID opts) call) true ∈ late;
  lc_grant : ∀ g, grant = Some g → ∃ identity, DGrant g (fullModeApprovalDraft call identity danger) true ∈ late;
  lc_ledger : OpReadBeforeWrite opts = true → isFileMutationTool (TuName call) = true →
    ∃ d, DLedger call d ∈ late ∧ RdAllowed d = true;
}.

Definition is_execute (e : DispatchEvent) : Prop := match e with DExecute _ _ _ _ => True | _ => False end.

Lemma no_execute ev : (∀ call input c e, DExecute call input c e ∉ ev) → Forall (λ e, ¬ is_execute e) ev.
Proof. intros H. rewrite Forall_elem. intros [] Hin; try (intros []; fail). intros _. by eapply H. Qed.

Lemma checks_more call danger grant late more :
  launch_checks call danger grant late → launch_checks call danger grant (late ++ more).
Proof.
  assert (Hin : ∀ e, e ∈ late → e ∈ late ++ more) by (intros e He; apply elem_of_app; by left).
  intros [H1 H2 H3 H4 H5 H6]. split; [by apply Hin|intros ?; by apply Hin, H2|intros ?; by apply Hin, H3|intros ?; by apply Hin, H4| |].
  - intros g Hg. destruct (H5 g Hg) as [identity Hi]. exists identity. by apply Hin.
  - intros Hr Hm. destruct (H6 Hr Hm) as (d & Hd & Ha). exists d. split; [by apply Hin|done].
Qed.

Lemma when_in {A} (o : option A) e : o ≠ None → e ∈ when o e.
Proof. destruct o; [left|done]. Qed.

Lemma policy_quiet call d ev : policy_story call d ev → Forall (λ e, ¬ is_execute e) ev.
Proof. intros H%policy_prior. eapply Forall_impl; [|exact H]. intros e He Hx. by destruct e. Qed.

Lemma executed_split p r ev call input c e :
  executed p r ev → DExecute call input c e ∈ ev →
  ∃ after late, ev = after ++ DExecute call input c e :: late ∧ call = PtTool p ∧
    Forall (λ e, ¬ is_execute e) after ∧ Forall (λ e, ¬ is_execute e) late ∧
    launch_checks call (PtDanger p) (PtFullModeGrant p) late.
Proof.
  intros Hx Hin. destruct (executed_event _ _ _ _ _ _ _ Hx Hin) as (-> & Hr & _).
  destruct Hx as [identity d input' content isError mutation policy _ Hpol _ _|reason ev Hev]; [|done].
  assert (Hwhen : ∀ A (o : option A) e, ¬ is_execute e → Forall (λ e, ¬ is_execute e) (when o e)).
  { intros A [a|] e0 He; [by repeat constructor|constructor]. }
  set (late := when (OpEmit opts) (DEmit (EvToolExecutionStart (journal_entry (OpRunID opts) (PtTool p)))) ++ grant_story p identity ++
    when (OpPreExecutionJournal opts) (DJournal (journal_entry (OpRunID opts) (PtTool p)) true) ++
    [DIdentity (TuName (PtTool p)) true] ++ when (OpContextDone opts) (DContext false) ++
    when (OpBeforeExecute opts) (DCheckpoint (PtTool p) true) ++ policy ++
    [DIdentity (TuName (PtTool p)) true] ++ when (OpContextDone opts) (DContext false)).
  assert (E : execution_story p identity input' content isError policy =
    when (OpPostHook opts) (DPostHook (PtTool p) content isError) ++ DExecute (PtTool p) input' content isError :: late).
  { unfold execution_story, launch_story, late. cbv zeta. by rewrite <- !app_assoc. }
  assert (Hlate : Forall (λ e, ¬ is_execute e) late).
  { unfold late, grant_story. repeat (apply Forall_app; split); try (apply Hwhen; by intros []); try (constructor; [by intros []|constructor]).
    - destruct (PtFullModeGrant p); [|constructor]. do 2 (constructor; [by intros []|]). apply Hwhen. by intros [].
    - by eapply policy_quiet. }
  rewrite E in Hin |- *. exists (when (OpPostHook opts) (DPostHook (PtTool p) content isError)), late.
  assert (Heq : DExecute (PtTool p) input c e = DExecute (PtTool p) input' content isError).
  { apply elem_of_app in Hin as [Hin|[Hin|Hin]%elem_of_cons]; [|done|].
    - destruct (OpPostHook opts); [by apply list_elem_of_singleton in Hin|by apply not_elem_of_nil in Hin].
    - rewrite Forall_elem in Hlate. by destruct (Hlate _ Hin). }
  injection Heq as -> -> ->. split_and!; [done|done|apply Hwhen; by intros []|exact Hlate|].
  unfold late. split; repeat setoid_rewrite elem_of_app.
  - right; right; right; left. left.
  - intros Ho. do 4 right. left. by apply when_in.
  - intros Ho. do 5 right. left. by apply when_in.
  - intros Ho. right; right; left. by apply when_in.
  - intros g Hg. exists identity. right; left. unfold grant_story. rewrite Hg. left.
  - intros Hro Hm. destruct Hpol as (guarded & -> & _ & Hd & _). destruct (Hd Hro Hm) as (d' & -> & Ha).
    exists d'. split; [|done]. do 6 right. left. apply elem_of_app. right. left.
Qed.

Lemma turn_call calls w w' results k original :
  dispatchToolCalls calls w w' results → calls !! k = Some original →
  ∃ r ev, results !! k = Some r ∧ story k w' = ev ++ story k w ∧ dispatched_call k original r ev.
Proof.
  intros (w0 & w3 & serial & results0 & os & Ht)%turn_phases Hk.
  destruct (tu_slot _ _ _ _ _ _ _ _ _ Ht k original Hk) as [(r & ev & A & B & C & _)|Hb].
  - exists r, ev. split_and!; [done| |done]. by rewrite (tu_end _ _ _ _ _ _ _ _ _ Ht).
  - by eapply batched_call.
Qed.

(** An execution of a slot: what came before it, the latest first. *)
Definition mediated (original call : toolUseBlock) (late early : list DispatchEvent) : Prop :=
  normalizeDispatchToolCall (decode host) original = Ok call ∧
  ∃ identity p completed, gated call identity p completed early ∧ launch_checks call (PDanger p) (grant_of completed) late.

Lemma gated_quiet call identity p completed ev : gated call identity p completed ev → Forall (λ e, ¬ is_execute e) ev.
Proof. intros H%gated_benign. eapply Forall_impl; [|exact H]. intros e He Hx. by destruct e. Qed.
Lemma looked_quiet ev : looked ev → Forall (λ e, ¬ is_execute e) ev.
Proof. intros H. eapply Forall_impl; [|exact H]. intros e He Hx. by destruct e. Qed.
Lemma rollback_quiet ev : Forall is_rollback ev → Forall (λ e, ¬ is_execute e) ev.
Proof. intros H. eapply Forall_impl; [|exact H]. intros e He Hx. by destruct e. Qed.
Lemma hook_quiet call : Forall (λ e, ¬ is_execute e) (when (OpPreHook opts) (DHook call false)).
Proof. destruct (OpPreHook opts); [constructor; [by intros []|constructor]|constructor]. Qed.

(** One execution per slot, and everything that mediates it. *)
Definition executes (original call : toolUseBlock) (input : ExecutionInput) (content : string) (isError : bool)
    (ev : list DispatchEvent) : Prop :=
  ∃ after late early,
    ev = after ++ DExecute call input content isError :: late ++ when (OpPreHook opts) (DHook call false) ++ early ∧
    Forall (λ e, ¬ is_execute e) after ∧ Forall (λ e, ¬ is_execute e) (late ++ when (OpPreHook opts) (DHook call false) ++ early) ∧
    mediated original call late early.

Lemma authorized_executes k original p before looks ev rb call input c e :
  authorized k original (Ok p) before → looked looks → executed p rb ev → DExecute call input c e ∈ ev →
  executes original call input c e (ev ++ looks ++ before).
Proof.
  intros Ha Hl Hx Hin. destruct (executed_split _ _ _ _ _ _ _ Hx Hin) as (after & late & -> & -> & Hq1 & Hq2 & Hc).
  inversion Ha as [call' identity permission completed early p' Hn Hg ? Ht Hd Hgr ?| |]; subst.
  exists after, (late ++ looks), early. split_and!.
  - by rewrite <- !app_assoc.
  - done.
  - repeat (apply Forall_app; split); [done|by apply looked_quiet|by apply hook_quiet|by eapply gated_quiet].
  - split; [done|]. exists identity, permission, completed. split; [done|]. rewrite <- Hd, <- Hgr. by apply checks_more.
Qed.

Lemma executes_after original call input c e ev more :
  executes original call input c e ev → Forall (λ e, ¬ is_execute e) more → executes original call input c e (more ++ ev).
Proof.
  intros (after & late & early & -> & H1 & H2 & H3) Hm. exists (more ++ after), late, early.
  split_and!; [by rewrite <- app_assoc|by apply Forall_app|done|done].
Qed.

Lemma dispatched_executes k original r ev call input c e :
  dispatched_call k original r ev → DExecute call input c e ∈ ev → executes original call input c e ev.
Proof.
  destruct 1 as [d ev Ha|p r ev before Ha _ Hx|p r ev looks before Ha _ _ Hl Hx|p r r' rb ev looks before Ha _ Hl Hx _ Hrb].
  - intros Hin. by destruct (authorized_silent _ _ _ _ call input c e Ha).
  - intros [Hin|Hin]%elem_of_app; [|by destruct (authorized_silent _ _ _ _ call input c e Ha)].
    by apply (authorized_executes _ _ _ _ [] _ _ _ _ _ _ Ha (Forall_nil _ ) Hx).
  - intros [Hin|[Hin|Hin]%elem_of_app]%elem_of_app; [by eapply authorized_executes|by destruct (looked_silent _ call input c e Hl)|
      by destruct (authorized_silent _ _ _ _ call input c e Ha)].
  - intros [Hin|[Hin|[Hin|Hin]%elem_of_app]%elem_of_app]%elem_of_app; [|apply executes_after; [by eapply authorized_executes|by apply rollback_quiet]|
      by destruct (looked_silent _ call input c e Hl)|by destruct (authorized_silent _ _ _ _ call input c e Ha)].
    rewrite Forall_elem in Hrb. by apply Hrb in Hin.
Qed.

(** C6: every call of a turn gets exactly one result, in its slot, and its part of the log is
    exactly what became of it: refused with nothing executed; or authorized and executed
    beside the other readers; or authorized, looked at, executed in the serial phase and
    possibly rolled back, its result then changed only to an error.  The others, interfering
    between any two actions, and the schedule of the goroutines do not matter. *)
Theorem dispatch_mediates calls w w' results :
  dispatchToolCalls calls w w' results →
  length results = length calls ∧
  ∀ k original, calls !! k = Some original →
    ∃ r ev, results !! k = Some r ∧ story k w' = ev ++ story k w ∧ dispatched_call k original r ev.
Proof.
  intros H. split; [|by intros; eapply turn_call].
  apply turn_phases in H as (w0 & w3 & serial & results0 & os & Ht). apply Ht.
Qed.

(** C4: an executor never runs unmediated.  A call that was executed in a turn is the
    normalized call of its slot; it was executed once; and before it, in this order, came
    the gates (its name is in the immutable catalog, its input fits the schema, the modes
    allow it, the scope and the instructions do, the permission is not a denial, and where an
    approval is needed it was given: either the requester opened a pending approval for the
    draft of exactly this call, and its answer for that approval is an allowance by the user,
    there before the approval expired; or, in the full mode, a grant was issued for the draft
    of exactly this call), the pre-tool hook, and the last checks (the executor's identity,
    the run's context, the checkpoint, the journal, the single use of a full-mode grant, the
    read ledger's consent to a mutation).  What the requester answers is its own business;
    the broker's side is [Approval.allowed_only_by_user]. *)
Theorem complete_mediation calls w w' results k original ev call input content isError :
  dispatchToolCalls calls w w' results → calls !! k = Some original →
  story k w' = ev ++ story k w → DExecute call input content isError ∈ ev →
  executes original call input content isError ev.
Proof.
  intros H Hk Hev Hin. destruct (turn_call _ _ _ _ _ _ H Hk) as (r & ev' & _ & E & Hd).
  rewrite E in Hev. apply app_inv_tail in Hev as ->. by eapply dispatched_executes.
Qed.

(** A file mutation whose executor was called, in a slot that gained [ev]. *)
Definition mutated (w w' : World) (k : nat) (isError : bool) (ev : list DispatchEvent) : Prop :=
  story k w' = ev ++ story k w ∧
  ∃ call input content, isFileMutationTool (TuName call) = true ∧ DExecute call input content isError ∈ ev.

Lemma similar_error r r' : similar r r' → TrIsError r = true → TrIsError r' = true.
Proof. intros (_ & _ & _ & _ & H). exact H. Qed.

Lemma no_rollback_before k original p before looks r ev m ok :
  authorized k original (Ok p) before → looked looks → executed p r ev → DRollback m ok ∉ ev ++ looks ++ before.
Proof.
  intros Ha Hl Hx Hin. apply elem_of_app in Hin as [Hin|[Hin|Hin]%elem_of_app].
  - revert Hin. destruct Hx as [identity d input' content isError mutation policy _ Hpol _ _|reason ev Hev].
    + pose proof (policy_prior _ _ _ Hpol) as Hpp. unfold execution_story, launch_story, grant_story. cbv zeta. intros Hin.
      repeat match type of Hin with
      | _ ∈ _ ++ _ => apply elem_of_app in Hin as [Hin|Hin]
      | _ ∈ when ?o _ => destruct o; simpl in Hin
      | _ ∈ match ?o with Some _ => _ | None => _ end => destruct o
      | _ ∈ policy => by rewrite Forall_elem in Hpp; apply Hpp in Hin
      | _ ∈ _ :: _ => apply elem_of_cons in Hin as [Hin|Hin]
      | _ ∈ [] => by apply not_elem_of_nil in Hin
      end; done.
    + intros Hin. rewrite Forall_elem in Hev. by apply Hev in Hin.
  - unfold looked in Hl. rewrite Forall_elem in Hl. by apply Hl in Hin.
  - inversion Ha as [call' identity permission completed early p' Hn Hg ? Ht Hd Hgr ?| |]; subst.
    apply elem_of_app in Hin as [Hin|Hin].
    + destruct (OpPreHook opts); [by apply list_elem_of_singleton in Hin|by apply not_elem_of_nil in Hin].
    + apply gated_benign in Hg. rewrite Forall_elem in Hg. by apply Hg in Hin.
Qed.

Section mutations.
Context (calls : list toolUseBlock) (w w' : World) (results : list toolDispatchResult) (w0 w3 : World).
Context (serial : list preparedToolCall) (results0 : list toolDispatchResult) (os : list Outcome).
Context (Ht : turn calls w w' results w0 w3 serial results0 os).

(** It is the outcome of a call of the batch. *)
Lemma mutated_outcome k original isError ev :
  calls !! k = Some original → mutated w w' k isError ev →
  ∃ o, o ∈ os ∧ slot o = k ∧ is_mutation o ∧ TrExecuted (oc_first o) = true ∧ TrIsError (oc_first o) = isError ∧
    ∀ rb, outcome_story w0 w3 o rb → (∀ m ok, DRollback m ok ∈ ev ↔ DRollback m ok ∈ rb).
Proof.
  intros Hk (Hst & call & input & c & Hm & Hin). destruct (tu_slot _ _ _ _ _ _ _ _ _ Ht k original Hk) as [Hp|Hb].
  { destruct Hp as (r & ev' & _ & E & _ & Hno). rewrite <- (tu_end _ _ _ _ _ _ _ _ _ Ht), Hst in E.
    apply app_inv_tail in E as ->. apply Hno in Hin. congruence. }
  destruct Hb as (o & before & looks & Ho & <- & Hmo & Ha & Hl & E0).
  assert (Hrb : ∀ rb, outcome_story w0 w3 o rb → ev = rb ++ oc_events o ++ looks ++ before).
  { intros rb [_ E]. rewrite <- (tu_end _ _ _ _ _ _ _ _ _ Ht), Hst, E0 in E. rewrite !app_assoc in E. apply app_inv_tail in E.
    by rewrite E, <- !app_assoc. }
  destruct (bo_outcomes _ _ _ _ _ _ (tu_batch _ _ _ _ _ _ _ _ _ Ht) o Ho) as (Hx & (rb & Hr) & _).
  assert (Hin' : DExecute call input c isError ∈ oc_events o).
  { rewrite (Hrb rb Hr) in Hin. apply elem_of_app in Hin as [Hin|[Hin|[Hin|Hin]%elem_of_app]%elem_of_app]; [|done| |].
    - destruct Hr as [Hr _]. rewrite Forall_elem in Hr. by apply Hr in Hin.
    - by destruct (looked_silent _ call input c isError Hl).
    - by destruct (authorized_silent _ _ _ _ call input c isError Ha). }
  destruct (executed_event _ _ _ _ _ _ _ Hx Hin') as (_ & He1 & He2). exists o. split_and!; try done.
  intros rb' Hr' m ok. rewrite (Hrb rb' Hr'). split; [|intros; apply elem_of_app; by left].
  intros [?|Hr2]%elem_of_app; [done|]. by destruct (no_rollback_before _ _ _ _ _ _ _ m ok Ha Hl Hx).
Qed.
End mutations.

(** C5: the file mutations of a turn are one transaction.  Either every mutation whose
    executor was called succeeded, reports success and was not rolled back; or every one of
    them reports an error, and each that had succeeded either was restored or says so, its
    text beginning with the mark of an incomplete transaction.  And once one has failed no
    later one is executed. *)
Theorem batch_atomic calls w w' results :
  dispatchToolCalls calls w w' results →
  ((∀ k e ev r, (k < length calls)%nat → mutated w w' k e ev → results !! k = Some r →
      e = false ∧ TrIsError r = false ∧ ∀ m ok, DRollback m ok ∉ ev) ∨
   (∀ k e ev r, (k < length calls)%nat → mutated w w' k e ev → results !! k = Some r →
      TrIsError r = true ∧ (e = false → restored ev ∨ incomplete r))) ∧
  (∀ k1 e1 ev1 k2 e2 ev2, (k1 < k2)%nat → (k2 < length calls)%nat → mutated w w' k1 e1 ev1 → mutated w w' k2 e2 ev2 → e1 = false).
Proof.
  intros (w0 & w3 & serial & results0 & os & Ht)%turn_phases. pose proof (tu_batch _ _ _ _ _ _ _ _ _ Ht) as Hb.
  assert (Hcall : ∀ k e ev, (k < length calls)%nat → mutated w w' k e ev → ∃ o, o ∈ os ∧ slot o = k ∧ is_mutation o ∧
    TrExecuted (oc_first o) = true ∧ TrIsError (oc_first o) = e ∧
    ∀ rb, outcome_story w0 w3 o rb → (∀ m ok, DRollback m ok ∈ ev ↔ DRollback m ok ∈ rb)).
  { intros k e ev [original Hk]%lookup_lt_is_Some Hm. by eapply mutated_outcome. }
  split.
  - destruct (bo_atomic _ _ _ _ _ _ Hb) as [Hs|Hu]; [left|right]; intros k e ev r Hk Hm Hr;
      destruct (Hcall k e ev Hk Hm) as (o & Ho & <- & Hmo & Hx & <- & Hrb).
    + destruct (Hs o Ho Hmo) as ([_ H1] & H2 & r' & Hr' & H3). simplify_eq. split_and!; [done|done|].
      intros m ok Hin. apply (Hrb [] H2), not_elem_of_nil in Hin. done.
    + destruct (Hu o Ho Hmo) as (r' & rb & Hr' & H1 & H2 & H3). simplify_eq. split; [done|]. intros He.
      destruct H3 as [[m Hm']|H3]; [done|left|by right]. exists m. by apply (Hrb rb H2).
  - intros k1 e1 ev1 k2 e2 ev2 Hlt Hk2 H1 H2. destruct (Hcall k1 e1 ev1) as (o1 & Ho1 & <- & Hm1 & Hx1 & <- & _); [lia|done|].
    destruct (Hcall k2 e2 ev2 Hk2 H2) as (o2 & Ho2 & <- & Hm2 & Hx2 & _ & _).
    destruct (slot_in_order _ _ _ _ (tu_sorted _ _ _ _ _ _ _ _ _ Ht) (bo_calls _ _ _ _ _ _ Hb) Ho1 Ho2 Hlt) as (l1 & l2 & l3 & E).
    by apply (bo_order _ _ _ _ _ _ Hb l1 o1 l2 o2 l3).
Qed.

Lemma interfere_refl w : interfere w w.
Proof. exists (out w). by destruct w. Qed.

Lemma run_dispatch_dispatches calls w : dispatchToolCalls calls w (run_dispatch calls w).1 (run_dispatch calls w).2.
Proof.
  unfold run_dispatch. pose proof (runs_run interfere (_ ← instruction (OpInstructionBegin opts); authorize_from 0 calls) w interfere_refl) as H1.
  destruct (run (_ ← instruction (OpInstructionBegin opts); authorize_from 0 calls) w) as [w1 auth]. cbn [fst snd] in H1.
  pose proof (pool_run_each interfere (map (λ p, executePreparedToolCall p false) (concurrent_calls auth)) w1 interfere_refl) as H2.
  destruct (run_each _ w1) as [w2 rs]. cbn [fst snd] in H2.
  eapply dispatched; [exact H1|exact H2|]. by apply runs_run, interfere_refl.
Qed.
End dispatch.

(** ** Concrete turns

    A run without an execution policy: writes ask the user, who says yes; the files are
    read before they are written. *)

Definition ex_path_text (path : string) : string := json_object [("file_path", json_string path)].
Definition ex_decode (text : string) : RawMessage :=
  if String.eqb text (ex_path_text "a.go") then Some (JObject [("file_path", JString "a.go")])
  else if String.eqb text (ex_path_text "b.go") then Some (JObject [("file_path", JString "b.go")])
  else if String.eqb text "{}" then Some (JObject [])
  else None.

Definition ex_dispatch_builtins : gmap string string := {["Read" := "{}"; "Write" := "{}"]}.
Definition ex_dispatch_live : Live :=
  {| mcp_tools := []; mcp_definition_ok := λ _ _ _, true; plugin_definition_ok := λ _ _ _, true; plugin_artifacts_ok := λ _, true |}.
Definition ex_dispatch_snapshot : toolCatalogSchemaSnapshot :=
  default (Build_toolCatalogSchemaSnapshot ∅ ∅ ∅ ∅ false)
    (match buildToolCatalogSchemaSnapshotForCatalog ex_dispatch_live ex_dispatch_builtins (λ _, false) ex_marker
             [{| TdName := "Read"; TdInputSchema := "{}"; TdRuntimeBinding := NoBinding |};
              {| TdName := "Write"; TdInputSchema := "{}"; TdRuntimeBinding := NoBinding |}] [] true with
     | Ok s => Some s
     | Err _ => None
     end).

Definition ex_host : Host (Env := unit) :=
  {| decode := ex_decode; compact := Some; machine := ex_alone;
     registry := λ _, {[ex_marker := Ok ex_dispatch_snapshot]}; live := λ _, ex_dispatch_live;
     offline := λ _, false; clock := λ _, 1; new_token := λ _, Some "tok";
     host_key := None; plugin_key := None; catalog_message := λ _, "catalog"; schema_message := λ _, "schema"; path_message := λ _, "path";
     ledger_message := λ _, "ledger"; mutation_message := λ _, "mutation"; snapshot_message := λ _, "snapshot";
     rollback_message := λ _, "rollback"; io_message := λ _, "io" |}.

Definition ex_pending (d : Draft) : Pending :=
  {| pID := "p1"; pSessionID := dSessionID d; pSessionRevision := dSessionRevision d; pRunID := dRunID d;
     pToolCallID := dToolCallID d; pToolName := dToolName d; pExecutorID := dExecutorID d;
     pRedactedInput := dRedactedInput d; pInputDigest := dInputDigest d;
     pExecutionPolicyRevision := dExecutionPolicyRevision d; pFullSelectionRevision := dFullSelectionRevision d;
     pApprovalSource := ApprovalSourceUser; pDangerLevel := dDangerLevel d; pScope := dScope d;
     pRememberAllowed := dRememberAllowed d; pCreatedAt := 1; pExpiresAt := 100 |}.
(** A user who approves everything that is asked. *)
Definition ex_requester : Requester (Env := unit) :=
  {| RqOpen := λ d o, (o, Some (ex_pending d));
     RqAwait := λ a o, (o, Ok {| resApprovalID := a.2; resOutcome := OutcomeAllowOnce; resReason := ReasonUser; resResolvedAt := 2 |});
     RqIssue := None; RqConsume := None |}.

(** The executor: the write of [a.go] succeeds, that of [b.go] does not, a read does. *)
Definition ex_execute : Callback (Env := unit) (toolUseBlock * ExecutionInput) (string * bool) := λ a o,
  if String.eqb (TuName a.1) "Write" then
    if String.eqb (TuID a.1) "1" then
      ({| o_io := {| files := <["/work/a.go" := Regular {| f_data := "y"; f_mode := 420 |}]> (files (o_io o)); history := history (o_io o) |};
          o_pending := o_pending o; o_env := o_env o |}, ("written", false))
    else (o, ("no space left on device", true))
  else (o, ("x", false)).

Definition ex_opts : toolDispatchOptions (Env := unit) :=
  {| OpContextDone := Some (λ _, false); OpExecutionPolicy := None; OpWorkDir := "/work";
     OpAllowedTools := {["Read"; "Write"; ex_marker]}; OpPlanMode := false; OpPermissionConfig := DefaultPermissionConfig;
     OpSnapshotDecision := None; OpApprovalRequester := Some ex_requester; OpSessionID := "s1"; OpSessionRevision := 1;
     OpRunID := "r1"; OpReadBeforeWrite := true; OpPlanStep := ""; OpScopeCheck := None; OpInstructionCheck := None;
     OpInstructionBegin := None; OpInstructionFinish := None; OpPreHook := Some (λ _ o, (o, (false, ""))); OpPostHook := None;
     OpBeforeExecute := None; OpMutationBatchCommitted := None; OpMutationBatchSettled := None;
     OpPreExecutionJournal := None; OpExecute := Some ex_execute; OpEmit := None |}.

Definition ex_call (id name path : string) : toolUseBlock :=
  {| TuID := id; TuName := name; TuInputRaw := ex_path_text path; TuInput := "" |}.
Definition ex_turn_world : World (Env := unit) :=
  {| out := {| o_io := ex_world (ex_files "x"); o_pending := ∅; o_env := tt |};
     ledger := Some {| lgWorkDir := "/work"; lgAllowExternal := false; reads := {["/work/a.go" := artifactBytesRevision "x"]} |};
     guard := None; captured := []; log := [] |}.
Definition ex_turn : list toolUseBlock := [ex_call "0" "Read" "a.go"; ex_call "1" "Write" "a.go"; ex_call "2" "Write" "b.go"].
Definition ex_turn_run := run_dispatch ex_host ex_opts ex_turn ex_turn_world.

Lemma ex_turn_dispatched : dispatchToolCalls ex_host ex_opts ex_turn ex_turn_world ex_turn_run.1 ex_turn_run.2.
Proof. unfold ex_turn_run. apply run_dispatch_dispatches. Qed.

(** The read and the two writes were executed; the first write was rolled back. *)
Example ex_turn_results :
  map (λ r, (TrIsError r, TrExecuted r, TrConcurrent r)) ex_turn_run.2 = [(false, true, true); (true, true, false); (true, true, false)] ∧
  node (files (io ex_turn_run.1)) "/work/a.go" = Regular {| f_data := "x"; f_mode := 420 |}.
Proof. vm_compute. split; reflexivity. Qed.

(** A mutation whose target was not read: the batch is blocked, and nothing is executed. A
    read in the same turn is enough: it comes before the batch. *)
Definition ex_unread_world : World (Env := unit) :=
  set_ledger (Some {| lgWorkDir := "/work"; lgAllowExternal := false; reads := ∅ |}) ex_turn_world.
Example ex_turn_unread :
  map TrExecuted (run_dispatch ex_host ex_opts (tail ex_turn) ex_unread_world).2 = [false; false] ∧
  map TrExecuted (run_dispatch ex_host ex_opts ex_turn ex_unread_world).2 = [true; true; true].
Proof. vm_compute. split; reflexivity. Qed.

Lemma dispatch_mediates_witness :
  length ex_turn_run.2 = 3%nat ∧
  ∃ r ev, ex_turn_run.2 !! 1%nat = Some r ∧ story 1 ex_turn_run.1 = ev ++ story 1 ex_turn_world ∧
          dispatched_call ex_host ex_opts 1 (ex_call "1" "Write" "a.go") r ev.
Proof.
  destruct (dispatch_mediates ex_host ex_opts ex_turn ex_turn_world _ _ ex_turn_dispatched) as [H1 H2].
  split; [exact H1|]. apply H2. reflexivity.
Defined.

Lemma complete_mediation_witness :
  ∃ call input, executes ex_host ex_opts (ex_call "1" "Write" "a.go") call input "written" false (story 1 ex_turn_run.1).
Proof.
  assert (Hin : ∃ call input, DExecute call input "written" false ∈ story 1 ex_turn_run.1).
  { vm_compute. eexists _, _. right. left. }
  destruct Hin as (call & input & Hin). exists call, input.
  apply (complete_mediation ex_host ex_opts ex_turn ex_turn_world ex_turn_run.1 ex_turn_run.2 1 (ex_call "1" "Write" "a.go"));
    [apply ex_turn_dispatched|reflexivity| |exact Hin].
  change (story 1 ex_turn_world) with (@nil DispatchEvent). symmetry. apply app_nil_r.
Defined.

Lemma batch_atomic_witness :
  ∃ r, ex_turn_run.2 !! 1%nat = Some r ∧ TrIsError r = true ∧ (restored (story 1 ex_turn_run.1) ∨ incomplete r).
Proof.
  assert (Hm : mutated ex_turn_world ex_turn_run.1 1 false (story 1 ex_turn_run.1)).
  { split; [change (story 1 ex_turn_world) with (@nil DispatchEvent); symmetry; apply app_nil_r|].
    vm_compute. eexists _, _, _. split; [|right; left]. vm_compute. reflexivity. }
  destruct (ex_turn_run.2 !! 1%nat) as [r|] eqn:Hr; [|vm_compute in Hr; discriminate Hr]. exists r. split; [reflexivity|].
  destruct (batch_atomic ex_host ex_opts ex_turn ex_turn_world _ _ ex_turn_dispatched) as [[H|H] _];
    destruct (H 1%nat false (story 1 ex_turn_run.1) r) as [H1 H2]; [cbn; lia|exact Hm|exact Hr| |cbn; lia|exact Hm|exact Hr|].
  - exfalso. assert (He : TrIsError <$> ex_turn_run.2 !! 1%nat = Some true) by (vm_compute; reflexivity).
    rewrite Hr in He. destruct H2 as [H2 _]. cbn in He. congruence.
  - split; [exact H1|by apply H2].
Defined.
