(* ===== verification/Evidence.v ===== *)
(** * The evidence ledger: internal/agent/evidence.go

    A run keeps one ledger.  It records the outcomes of tools as digests that a
    completion claim can cite ([appendCompletionEvidence], [ResolveCompletionEvidence]),
    the files changed and the verification commands run, and it decides whether the
    run may stop ([Evaluate]).

    Every operation holds the ledger's mutex from its first to its last access, so an
    operation is a function on the ledger; [ledger_step] interleaves them.  The time
    stamps of records are not modelled (nothing reads them), the input of a tool is
    given by its bytes together with what the JSON decoder makes of them, and the
    policy of the environment variable is an argument. *)

From S2P Require Export GoPath JsonText.

Local Open Scope string_scope.
Local Open Scope list_scope.
Local Open Scope Z_scope.

(** ** Data *)

Definition EvidenceModeQuick : string := "quick".
Definition EvidenceModeNormal : string := "normal".
Definition EvidenceModeDeep : string := "deep".
Definition EvidencePolicyOff : string := "off".
Definition EvidencePolicyMeasure : string := "measure".
Definition EvidencePolicyAdvisory : string := "advisory".
Definition EvidencePolicyBlock : string := "block".
Definition EvidenceGateAllow : string := "allow".
Definition EvidenceGateWarn : string := "warn".
Definition EvidenceGateWouldBlock : string := "would-block".
Definition EvidenceGateBlock : string := "block".
Definition EvidenceTerminalVerified : string := "verified".
Definition EvidenceTerminalPartiallyVerified : string := "partially-verified".
Definition EvidenceTerminalUnverified : string := "unverified".
Definition EvidenceTerminalBlocked : string := "blocked".

Definition maxCompletionEvidenceRefs : Z := 256.
Definition maxCompletionEvidenceToolNameLen : Z := 128.
Definition maxCompletionEvidenceInputBytes : Z := 2 ^ 20.
Definition maxCompletionEvidenceResultBytes : Z := 4 * 2 ^ 20.
(** From internal/agent/completion_contract.go. *)
Definition maxCompletionRunIDBytes : Z := 256.

Inductive EvidenceError :=
| errCompletionEvidenceInvalidRunID
| errCompletionEvidenceRunBound
| errCompletionEvidenceNotBound
| errCompletionEvidenceLimit
| errCompletionEvidenceInvalidTool
| errCompletionEvidenceFieldLarge
| errCompletionEvidenceCollision.

Definition CompletionEvidenceSourceTool : string := "tool".
Definition CompletionEvidenceSourceAutoVerify : string := "auto-verify".

Record CompletionToolOutcome := {
  OcToolName : string;
  OcInput : RawInput;
  OcResult : string;
  OcIsError : bool;
  OcExecuted : bool;
  OcSynthetic : bool;
  OcDenied : bool;
}.

Record CompletionEvidenceRef := {
  RefDigest : string;
  RefSequence : Z;
  RefSource : string;
  RefToolName : string;
  RefSucceeded : bool;
}.

Record EvidenceRecord := {
  RecSource : string;
  RecCommand : string;
  RecStatus : string;
  RecSummary : string;
}.

Record EvidenceGateResult := {
  GateDecision : string;
  GateTerminalState : string;
  GateMode : string;
  GatePolicy : string;
  GateSummary : string;
  GateRisks : list string;
}.

Record EvidenceLedger := {
  Mode : string;
  Policy : string;
  MaxStopBlocks : Z;
  StopBlocks : Z;
  Risks : list string;
  ChangedFiles : list string;
  Records : list EvidenceRecord;
  completionRunID : string;
  completionRefs : list CompletionEvidenceRef;
  completionSuccessByDigest : gmap string bool;
}.

Definition with_completion (run : string) (refs : list CompletionEvidenceRef)
    (success : gmap string bool) (l : EvidenceLedger) : EvidenceLedger :=
  {| Mode := Mode l; Policy := Policy l; MaxStopBlocks := MaxStopBlocks l; StopBlocks := StopBlocks l;
     Risks := Risks l; ChangedFiles := ChangedFiles l; Records := Records l;
     completionRunID := run; completionRefs := refs; completionSuccessByDigest := success |}.
Definition with_gate_state (blocks : Z) (files : list string) (records : list EvidenceRecord)
    (l : EvidenceLedger) : EvidenceLedger :=
  {| Mode := Mode l; Policy := Policy l; MaxStopBlocks := MaxStopBlocks l; StopBlocks := blocks;
     Risks := Risks l; ChangedFiles := files; Records := records;
     completionRunID := completionRunID l; completionRefs := completionRefs l;
     completionSuccessByDigest := completionSuccessByDigest l |}.

(** ** Classification of the prompt *)

Definition containsAny (value : string) (needles : list string) : bool :=
  existsb (contains value) needles.

Definition quickEvidenceTriggers : list string :=
  ["quick"; "brief"; "simple"; "just explain"; "explain only"; "review only"; "check only";
   "no edits"; "do not edit"; "간단히"; "빠르게"; "설명만"; "검토만"; "방향"; "확인만"].
Definition normalEvidenceTriggers : list string :=
  ["add"; "fix"; "change"; "update"; "wire"; "connect"; "bug"; "추가"; "수정"; "고쳐"; "연결"].
Definition deepEvidenceTriggers : list string :=
  ["deep"; "thorough"; "exhaustive"; "end-to-end"; "production-ready"; "migration"; "database";
   "auth"; "security"; "refactor"; "large"; "complex"; "implement the plan"; "complete"; "finish";
   "전체"; "완료"; "구현"; "배포"; "데이터베이스"; "마이그레이션"; "보안"; "리팩토링"; "끝까지"].

Definition risk_signals : list (string * list string) :=
  [("production", ["production"; "prod"; "go-live"; "launch"; "deploy"; "배포"; "출시"; "운영"]);
   ("database", ["database"; "migration"; "schema"; "db "; " db"; "sql"; "데이터베이스"; "마이그레이션"; "스키마"]);
   ("auth-security", ["auth"; "oauth"; "jwt"; "security"; "secret"; "token"; "password"; "인증"; "보안"; "비밀"; "토큰"]);
   ("remote-write", ["git push"; "release"; "publish"; "server"; "remote"; "원격"; "서버"])].

(** The names are distinct, so the test for a risk already listed never matters. *)
Definition detectEvidenceRisks (prompt : string) : list string :=
  fold_left (λ risks ns,
    if containsAny prompt ns.2 && negb (existsb (String.eqb ns.1) risks)
    then risks ++ [ns.1] else risks) risk_signals [].

Definition ClassifyEvidenceMode (prompt : string) : string * list string :=
  let lower := to_lower prompt in
  let risks := detectEvidenceRisks lower in
  if (0 <? length risks)%nat || containsAny lower deepEvidenceTriggers then (EvidenceModeDeep, risks)
  else if containsAny lower quickEvidenceTriggers then (EvidenceModeQuick, risks)
  else if containsAny lower normalEvidenceTriggers then (EvidenceModeNormal, risks)
  else (EvidenceModeQuick, risks).

Definition known_policy (policy : string) : bool :=
  existsb (String.eqb policy)
    [EvidencePolicyOff; EvidencePolicyMeasure; EvidencePolicyAdvisory; EvidencePolicyBlock].

(** [env] is the value of the environment variable. *)
Definition evidencePolicyFromEnv (env : string) : string :=
  let policy := to_lower env in
  if known_policy policy then policy else EvidencePolicyMeasure.

(** The policy and the number of stop blocks. *)
Definition NormalizeEvidencePolicyConfig (env policy : string) (maxStopBlocks : Z) : string * Z :=
  let policy := to_lower (trim_space policy) in
  (if known_policy policy then policy else evidencePolicyFromEnv env,
   if maxStopBlocks <=? 0 then 2 else maxStopBlocks).

Definition NewEvidenceLedger (env prompt policy : string) (maxStopBlocks : Z) : EvidenceLedger :=
  let '(mode, risks) := ClassifyEvidenceMode prompt in
  let '(policy, maxStopBlocks) := NormalizeEvidencePolicyConfig env policy maxStopBlocks in
  {| Mode := mode; Policy := policy; MaxStopBlocks := maxStopBlocks; StopBlocks := 0;
     Risks := risks; ChangedFiles := []; Records := [];
     completionRunID := ""; completionRefs := []; completionSuccessByDigest := ∅ |}.

(** ** Digests of outcomes *)

Definition completionEvidenceSHA256 (value : string) : string := "sha256:" +:+ sha256_hex value.

Record completionEvidenceDigestInput := {
  DiRunID : string;
  DiSequence : Z;
  DiSource : string;
  DiToolName : string;
  DiInputSHA256 : string;
  DiResultSHA256 : string;
  DiSucceeded : bool;
}.

Definition canonicalCompletionEvidenceDigest (i : completionEvidenceDigestInput) : string :=
  completionEvidenceSHA256 (json_object
    [("runId", json_string (DiRunID i));
     ("sequence", pretty (Z.to_N (DiSequence i)));
     ("source", json_string (DiSource i));
     ("toolName", json_string (DiToolName i));
     ("inputSha256", json_string (DiInputSHA256 i));
     ("resultSha256", json_string (DiResultSHA256 i));
     ("succeeded", if DiSucceeded i then "true" else "false")]).

(** ** Completion evidence *)

Definition containsCompletionControl (value : string) : bool :=
  match runes_of value with Some rs => existsb IsControl rs | None => false end.

Definition validCompletionEvidenceRunID (runID : string) : bool :=
  negb (String.eqb runID "") && String.eqb runID (trim_space runID) &&
  (slen runID <=? maxCompletionRunIDBytes) && ValidString runID &&
  negb (containsCompletionControl runID).

Definition tool_name_char (c : ascii) : bool :=
  let n := Z.of_nat (nat_of_ascii c) in
  byte_in 97 122 n || byte_in 65 90 n || byte_in 48 57 n || str_elem c "_.:/-".

Definition safeCompletionEvidenceToolName (toolName : string) : result EvidenceError string :=
  if String.eqb toolName "" || negb (String.eqb toolName (trim_space toolName)) ||
     (maxCompletionEvidenceToolNameLen <? slen toolName)
  then Err errCompletionEvidenceInvalidTool
  else if str_all tool_name_char toolName then Ok toolName
  else Err errCompletionEvidenceInvalidTool.

(** Binding is idempotent; a bound ledger stays bound to its run. *)
Definition BindCompletionRun (runID : string) (l : EvidenceLedger)
    : result EvidenceError EvidenceLedger :=
  if negb (validCompletionEvidenceRunID runID) then Err errCompletionEvidenceInvalidRunID
  else if negb (String.eqb (completionRunID l) "") then
    if String.eqb (completionRunID l) runID then Ok l else Err errCompletionEvidenceRunBound
  else Ok (with_completion runID [] ∅ l).

Definition appendCompletionEvidence (source toolName input output : string) (succeeded : bool)
    (l : EvidenceLedger) : result EvidenceError (EvidenceLedger * CompletionEvidenceRef) :=
  if (maxCompletionEvidenceInputBytes <? slen input) || (maxCompletionEvidenceResultBytes <? slen output)
  then Err errCompletionEvidenceFieldLarge
  else if String.eqb (completionRunID l) "" then Err errCompletionEvidenceNotBound
  else if maxCompletionEvidenceRefs <=? Z.of_nat (length (completionRefs l))
  then Err errCompletionEvidenceLimit
  else
    let sequence := Z.of_nat (length (completionRefs l)) + 1 in
    let digest := canonicalCompletionEvidenceDigest
      {| DiRunID := completionRunID l; DiSequence := sequence; DiSource := source; DiToolName := toolName;
         DiInputSHA256 := completionEvidenceSHA256 input;
         DiResultSHA256 := completionEvidenceSHA256 output; DiSucceeded := succeeded |} in
    match completionSuccessByDigest l !! digest with
    | Some _ => Err errCompletionEvidenceCollision
    | None =>
        let ref := {| RefDigest := digest; RefSequence := sequence; RefSource := source;
                      RefToolName := toolName; RefSucceeded := succeeded |} in
        Ok (with_completion (completionRunID l) (completionRefs l ++ [ref])
              (<[digest := succeeded]> (completionSuccessByDigest l)) l, ref)
    end.

(** [Ok (l, None)]: the outcome is not evidence. *)
Definition ObserveCompletionToolOutcome (o : CompletionToolOutcome) (l : EvidenceLedger)
    : result EvidenceError (EvidenceLedger * option CompletionEvidenceRef) :=
  if negb (OcExecuted o) || OcSynthetic o || OcDenied o ||
     equal_fold (trim_space (OcToolName o)) "ReportCompletion" then Ok (l, None)
  else
    toolName ← safeCompletionEvidenceToolName (OcToolName o);
    lr ← appendCompletionEvidence CompletionEvidenceSourceTool toolName (raw_bytes (OcInput o))
           (OcResult o) (negb (OcIsError o)) l;
    Ok (lr.1, Some lr.2).

Definition ResolveCompletionEvidence (l : EvidenceLedger) (runID evidenceDigest : string) : bool :=
  if String.eqb runID "" || negb (String.eqb runID (completionRunID l)) then false
  else default false (completionSuccessByDigest l !! evidenceDigest).

(** ** Changed files and verification commands *)

Definition verificationCommandSignals : list string :=
  ["go test"; "cargo test"; "cargo check"; "pytest"; "python -m pytest"; "npm test"; "npm run test";
   "pnpm test"; "pnpm run test"; "yarn test"; "bun test"; "mvn test"; "gradle test"; "rspec";
   "vitest"; "jest"; "playwright"; "cypress"; "eslint"; "lint"; "ruff"; "mypy"; "pyright";
   "tsc"; "typecheck"; "type-check"; "npm run build"; "pnpm build"; "yarn build"; "go vet";
   "validate"; "verify"; "json.tool"; "py_compile"].
Definition failedEvidenceSignals : list string :=
  ["failed"; "failure"; "error:"; "panic:"; "exit status"; "tests failed"; "build failed";
   "lint failed"; "compilation failed"; "compile error"; "fatal:"].

Definition IsVerificationCommand (command : string) : bool :=
  let lower := to_lower (trim_space command) in
  if String.eqb lower "" then false else containsAny lower verificationCommandSignals.

Definition inferEvidenceStatus (output : string) (isError : bool) : string :=
  if isError || containsAny (to_lower output) failedEvidenceSignals then "failed" else "passed".

Definition evidenceCommandFromInput (input : RawInput) : string :=
  trim_space (struct_string_field "command" (raw_value input)).

Definition evidencePathFromInput (input : RawInput) : string :=
  let file_path := struct_string_field "file_path" (raw_value input) in
  if negb (String.eqb (trim_space file_path) "") then file_path
  else struct_string_field "path" (raw_value input).

Definition isEditTool (toolName : string) : bool :=
  existsb (String.eqb toolName) ["Write"; "Edit"; "MultiEdit"].

(** [filepath.Ext]: from the last dot of the last element on. *)
Definition one_in (s : string) (l : list string) : bool := existsb (String.eqb s) l.

Definition changeKind (path : string) : string :=
  let lower := to_lower path in
  let ext := to_lower (filepath_ext lower) in
  let base := to_lower (filepath_base lower) in
  if one_in ext [".md"; ".mdx"; ".txt"; ".rst"] || has_prefix lower "docs/" || one_in base ["readme"; "readme.md"]
  then "docs"
  else if one_in ext [".go"; ".rs"; ".py"; ".js"; ".jsx"; ".ts"; ".tsx"; ".cs"; ".java"; ".kt"; ".swift"] then "code"
  else if one_in ext [".json"; ".yaml"; ".yml"; ".toml"; ".ini"; ".env"] then "config"
  else if contains lower "test" || contains lower "spec" then "test"
  else "asset".

(** From internal/agent/loop.go. *)
Definition truncateStr (s : string) (max : nat) : string :=
  if (strlen s <=? max)%nat then s else str_take max s +:+ "...".

Definition ObserveChangedFile (path : string) (l : EvidenceLedger) : EvidenceLedger :=
  let path := trim_space path in
  if String.eqb path "" || existsb (String.eqb path) (ChangedFiles l) then l
  else with_gate_state (StopBlocks l) (ChangedFiles l ++ [path]) (Records l) l.

Definition addRecord (record : EvidenceRecord) (l : EvidenceLedger) : EvidenceLedger :=
  with_gate_state (StopBlocks l) (ChangedFiles l) (Records l ++ [record]) l.

Definition ObserveToolResult (toolName : string) (input : RawInput) (output : string) (isError : bool)
    (l : EvidenceLedger) : EvidenceLedger :=
  let l := if isEditTool toolName && negb isError then
             let path := evidencePathFromInput input in
             if String.eqb path "" then l else ObserveChangedFile path l
           else l in
  if negb (String.eqb toolName "Bash") then l
  else
    let command := evidenceCommandFromInput input in
    if String.eqb command "" || negb (IsVerificationCommand command) then l
    else addRecord {| RecSource := "tool"; RecCommand := command;
                      RecStatus := inferEvidenceStatus output isError;
                      RecSummary := truncateStr (trim_space output) 600 |} l.

(** The error of [appendCompletionEvidence] is dropped. *)
Definition ObserveAutoVerify (output : string) (failed ran : bool) (l : EvidenceLedger) : EvidenceLedger :=
  if negb ran then l
  else
    let l := addRecord {| RecSource := "auto-verify"; RecCommand := "";
                          RecStatus := if failed then "failed" else "passed";
                          RecSummary := truncateStr (trim_space output) 600 |} l in
    match appendCompletionEvidence CompletionEvidenceSourceAutoVerify CompletionEvidenceSourceAutoVerify
            "" output (negb failed) l with
    | Ok (l', _) => l'
    | Err _ => l
    end.

(** ** The stop gate *)

Definition has_status (status : string) (records : list EvidenceRecord) : bool :=
  existsb (λ r, String.eqb (RecStatus r) status) records.

Definition hasSuccessfulVerificationLocked (l : EvidenceLedger) : bool := has_status "passed" (Records l).

Definition docsOnlyLocked (l : EvidenceLedger) : bool :=
  (0 <? length (ChangedFiles l))%nat && forallb (λ p, String.eqb (changeKind p) "docs") (ChangedFiles l).

Definition evidenceTerminalState (decision status : string) (records : list EvidenceRecord) : string :=
  if String.eqb decision EvidenceGateBlock then EvidenceTerminalBlocked
  else
    let hasPassed := String.eqb status "passed" || has_status "passed" records in
    let hasFailed := String.eqb status "failed" || has_status "failed" records in
    if (String.eqb decision "" || String.eqb decision EvidenceGateAllow) && hasPassed && negb hasFailed
    then EvidenceTerminalVerified
    else if hasPassed then EvidenceTerminalPartiallyVerified
    else EvidenceTerminalUnverified.

Definition gateLocked (decision summary : string) (l : EvidenceLedger) : EvidenceGateResult :=
  {| GateDecision := decision; GateTerminalState := evidenceTerminalState decision "" (Records l);
     GateMode := Mode l; GatePolicy := Policy l; GateSummary := summary; GateRisks := Risks l |}.

Definition Evaluate (l : EvidenceLedger) : EvidenceGateResult :=
  if String.eqb (Policy l) EvidencePolicyOff then gateLocked EvidenceGateAllow "evidence policy disabled" l
  else if String.eqb (Mode l) EvidenceModeQuick
  then gateLocked EvidenceGateAllow "quick task does not require completion evidence" l
  else if (length (ChangedFiles l) =? 0)%nat then gateLocked EvidenceGateAllow "no file changes observed" l
  else if docsOnlyLocked l then gateLocked EvidenceGateAllow "docs-only change" l
  else if hasSuccessfulVerificationLocked l
  then gateLocked EvidenceGateAllow "successful verification evidence recorded" l
  else if negb (String.eqb (Mode l) EvidenceModeDeep)
  then gateLocked EvidenceGateWarn "changed files without successful verification evidence" l
  else if String.eqb (Policy l) EvidencePolicyBlock then
    if MaxStopBlocks l <=? StopBlocks l
    then gateLocked EvidenceGateWarn "evidence block budget exhausted; completion allowed with warning" l
    else gateLocked EvidenceGateBlock "deep change requires successful verification evidence" l
  else if String.eqb (Policy l) EvidencePolicyAdvisory
  then gateLocked EvidenceGateWarn "deep change has no successful verification evidence" l
  else gateLocked EvidenceGateWouldBlock "deep change would require verification evidence in block mode" l.

Definition MarkStopBlock (l : EvidenceLedger) : EvidenceLedger :=
  with_gate_state (wrap64 (StopBlocks l + 1)) (ChangedFiles l) (Records l) l.

Definition no_record : EvidenceRecord :=
  {| RecSource := ""; RecCommand := ""; RecStatus := ""; RecSummary := "" |}.

(** The first passed record, or else the first failed one. *)
Fixpoint best_record (records : list EvidenceRecord) (failed : EvidenceRecord) : EvidenceRecord :=
  match records with
  | [] => failed
  | r :: records' =>
      if String.eqb (RecStatus r) "passed" then r
      else best_record records'
             (if String.eqb (RecStatus failed) "" && String.eqb (RecStatus r) "failed" then r else failed)
  end.
Definition bestEvidenceRecordLocked (records : list EvidenceRecord) : EvidenceRecord :=
  best_record records no_record.

Record ReceiptVerification := {
  VrStatus : string;
  VrTerminalState : string;
  VrSource : string;
  VrCommand : string;
  VrCommandDigest : string;
  VrSummary : string;
  VrGate : string;
  VrMode : string;
  VrEvidence : list EvidenceRecord;
}.

Definition ApplyToReceipt (l : EvidenceLedger) (v : ReceiptVerification) : ReceiptVerification :=
  let gate := Evaluate l in
  let best := bestEvidenceRecordLocked (Records l) in
  let adopt := (String.eqb (VrStatus v) "" || String.eqb (VrStatus v) "not-run") &&
               negb (String.eqb (RecStatus best) "") in
  let status := if adopt then RecStatus best else VrStatus v in
  {| VrStatus := status;
     VrTerminalState := evidenceTerminalState (GateDecision gate) status (Records l);
     VrSource := if adopt then RecSource best else VrSource v;
     VrCommand := if String.eqb (VrCommand v) "" then RecCommand best else VrCommand v;
     VrCommandDigest := VrCommandDigest v;
     VrSummary := if String.eqb (VrSummary v) "" then GateSummary gate else VrSummary v;
     VrGate := GateDecision gate;
     VrMode := GateMode gate;
     VrEvidence := if (0 <? length (Records l))%nat then Records l else VrEvidence v |}.

(** ** A run of the ledger *)

Inductive LedgerOp :=
| OpBind (runID : string)
| OpOutcome (o : CompletionToolOutcome)
| OpToolResult (toolName : string) (input : RawInput) (output : string) (isError : bool)
| OpChanged (path : string)
| OpAutoVerify (output : string) (failed ran : bool)
| OpStopBlock.

(** The ledger an operation leaves; one that fails leaves it unchanged. *)
Definition perform (op : LedgerOp) (l : EvidenceLedger) : EvidenceLedger :=
  match op with
  | OpBind runID => match BindCompletionRun runID l with Ok l' => l' | Err _ => l end
  | OpOutcome o => match ObserveCompletionToolOutcome o l with Ok (l', _) => l' | Err _ => l end
  | OpToolResult toolName input output isError => ObserveToolResult toolName input output isError l
  | OpChanged path => ObserveChangedFile path l
  | OpAutoVerify output failed ran => ObserveAutoVerify output failed ran l
  | OpStopBlock => MarkStopBlock l
  end.

(** A ledger with the operations performed on it. *)
Record LedgerRun := { ledger : EvidenceLedger; performed : list LedgerOp }.

Inductive ledger_step : LedgerRun → LedgerRun → Prop :=
| ledger_perform op l ops :
    ledger_step {| ledger := l; performed := ops |} {| ledger := perform op l; performed := ops ++ [op] |}.

(** What an operation may do to the completion evidence. *)
Inductive completion_change (l : EvidenceLedger) : EvidenceLedger → Prop :=
| change_none l' :
    completionRunID l' = completionRunID l → completionRefs l' = completionRefs l →
    completionSuccessByDigest l' = completionSuccessByDigest l → completion_change l l'
| change_bind run l' :
    completionRunID l = "" → run ≠ "" → completionRunID l' = run → completionRefs l' = [] →
    completionSuccessByDigest l' = ∅ → completion_change l l'
| change_append ref l' :
    completionRunID l ≠ "" → completionRunID l' = completionRunID l →
    completionRefs l' = completionRefs l ++ [ref] →
    completionSuccessByDigest l' = <[RefDigest ref := RefSucceeded ref]> (completionSuccessByDigest l) →
    completionSuccessByDigest l !! RefDigest ref = None →
    RefSequence ref = Z.of_nat (length (completionRefs l)) + 1 →
    (∃ i, RefDigest ref = canonicalCompletionEvidenceDigest i) →
    Z.of_nat (length (completionRefs l)) < maxCompletionEvidenceRefs → completion_change l l'.

Lemma append_change source toolName input output ok l l' ref :
  appendCompletionEvidence source toolName input output ok l = Ok (l', ref) →
  RefSource ref = source ∧ RefToolName ref = toolName ∧ RefSucceeded ref = ok ∧
  completionRefs l' = completionRefs l ++ [ref] ∧ completion_change l l'.
Proof.
  unfold appendCompletionEvidence. intros H. case_match; [done|].
  destruct (String.eqb_spec (completionRunID l) "") as [|Hrun]; [done|].
  destruct (Z.leb_spec maxCompletionEvidenceRefs (Z.of_nat (length (completionRefs l)))); [done|].
  case_match eqn:Hd; simplify_eq/=. split_and!; [done..|]. eapply change_append; eauto.
Qed.

Lemma gate_state_change b f r l l' :
  completion_change (with_gate_state b f r l) l' ↔ completion_change l l'.
Proof.
  split; intros H; inversion H; subst; simpl in *.
  all: first [by apply change_none|by eapply change_bind|by eapply change_append; eauto].
Qed.

(** Why a reference is in the ledger. *)
Definition proved_by (ops : list LedgerOp) (ref : CompletionEvidenceRef) : Prop :=
  (RefSource ref = CompletionEvidenceSourceTool ∧
   ∃ o, OpOutcome o ∈ ops ∧ OcExecuted o = true ∧ OcSynthetic o = false ∧ OcDenied o = false ∧
        equal_fold (trim_space (OcToolName o)) "ReportCompletion" = false ∧
        RefToolName ref = OcToolName o ∧ RefSucceeded ref = negb (OcIsError o)) ∨
  (RefSource ref = CompletionEvidenceSourceAutoVerify ∧
   ∃ output failed, OpAutoVerify output failed true ∈ ops ∧ RefSucceeded ref = negb failed).

Lemma gate_state_same ops b f r l :
  completion_change l (with_gate_state b f r l) ∧
  ∀ ref, ref ∈ completionRefs (with_gate_state b f r l) → ref ∈ completionRefs l ∨ proved_by ops ref.
Proof. split; [by apply change_none|auto]. Qed.

Lemma change_refl l : completion_change l l.
Proof. by apply change_none. Qed.
#[local] Hint Resolve change_refl : core.

Lemma tool_result_same toolName input output isError l :
  ∃ f r, ObserveToolResult toolName input output isError l = with_gate_state (StopBlocks l) f r l.
Proof.
  assert (Hself : l = with_gate_state (StopBlocks l) (ChangedFiles l) (Records l) l) by (by destruct l).
  unfold ObserveToolResult, ObserveChangedFile, addRecord. cbn zeta.
  repeat case_match; first [by eexists _, _|by exists (ChangedFiles l), (Records l)].
Qed.

Lemma safe_name n m : safeCompletionEvidenceToolName n = Ok m → m = n.
Proof. unfold safeCompletionEvidenceToolName. repeat case_match; congruence. Qed.

Lemma perform_change op l :
  completion_change l (perform op l) ∧
  ∀ ref, ref ∈ completionRefs (perform op l) → ref ∈ completionRefs l ∨ proved_by [op] ref.
Proof.
  destruct op as [run|o|tn input out err|path|out failed ran|]; simpl.
  - unfold BindCompletionRun. destruct (negb (validCompletionEvidenceRunID run)) eqn:Hv; [auto|].
    destruct (String.eqb_spec (completionRunID l) "") as [Hb|Hb]; cbn [negb];
      [|destruct (String.eqb (completionRunID l) run); auto].
    split; simpl.
    + apply (change_bind l run); try done. intros ->. by vm_compute in Hv.
    + intros ref Hin. by apply not_elem_of_nil in Hin.
  - unfold ObserveCompletionToolOutcome. destruct (_ || _) eqn:Hs; [auto|]. split_bools.
    destruct (safeCompletionEvidenceToolName (OcToolName o)) as [n|] eqn:Hn; [|auto].
    apply safe_name in Hn as ->. simpl. destruct (appendCompletionEvidence _ _ _ _ _ _) as [[l' ref]|] eqn:Ha; [|auto]. simpl.
    apply append_change in Ha as (Hsrc & Hname & Hok & Hrefs & Hc). split; [done|].
    intros r. rewrite Hrefs, elem_of_app, list_elem_of_singleton. intros [?| ->]; [auto|]. right; left.
    split; [done|]. exists o. rewrite list_elem_of_singleton. by split_and!.
  - destruct (tool_result_same tn input out err l) as (f & r & ->). apply gate_state_same.
  - unfold ObserveChangedFile. case_match; [auto|]. apply gate_state_same.
  - unfold ObserveAutoVerify. destruct ran; simpl; [|auto]. unfold addRecord.
    destruct (appendCompletionEvidence _ _ _ _ _ _) as [[l' ref]|] eqn:Ha; [|apply gate_state_same].
    apply append_change in Ha as (Hsrc & _ & Hok & Hrefs & Hc). rewrite gate_state_change in Hc.
    split; [done|]. intros r. rewrite Hrefs, elem_of_app, list_elem_of_singleton. intros [?| ->]; [auto|].
    right; right. split; [done|]. exists out, failed. by rewrite list_elem_of_singleton.
  - apply gate_state_same.
Qed.

Record ledger_ok (l : EvidenceLedger) : Prop := {
  ledger_unbound : completionRunID l = "" → completionRefs l = [];
  ledger_bounded : Z.of_nat (length (completionRefs l)) ≤ maxCompletionEvidenceRefs;
  ledger_sequence i ref : completionRefs l !! i = Some ref → RefSequence ref = Z.of_nat i + 1;
  ledger_distinct : NoDup (map RefDigest (completionRefs l));
  ledger_digest ref : ref ∈ completionRefs l → ∃ i, RefDigest ref = canonicalCompletionEvidenceDigest i;
  ledger_success d b : completionSuccessByDigest l !! d = Some b ↔
    ∃ ref, ref ∈ completionRefs l ∧ RefDigest ref = d ∧ RefSucceeded ref = b;
}.

Lemma ledger_ok_new env prompt policy blocks : ledger_ok (NewEvidenceLedger env prompt policy blocks).
Proof.
  unfold NewEvidenceLedger. destruct (ClassifyEvidenceMode prompt), (NormalizeEvidencePolicyConfig env policy blocks).
  split; simpl; try done; [constructor|intros ref Hin; by apply not_elem_of_nil in Hin|].
  intros d b. rewrite lookup_empty. split; [done|]. intros (ref & Hin & _). by apply not_elem_of_nil in Hin.
Qed.

Lemma ledger_ok_change l l' : ledger_ok l → completion_change l l' → ledger_ok l'.
Proof.
  intros [H1 H2 H3 H4 Hdg H5] Hc.
  destruct Hc as [l' Hr Hf Hs|run l' Hr Hne Hr' Hf Hs|ref l' Hr Hr' Hf Hs Hd Hq Hcan Hlt].
  - split; rewrite ?Hr, ?Hf, ?Hs; done.
  - split; rewrite ?Hf, ?Hs; try done; [constructor|intros ref Hin; by apply not_elem_of_nil in Hin|].
    intros d b. rewrite lookup_empty. split; [done|]. intros (ref & Hin & _). by apply not_elem_of_nil in Hin.
  - split; rewrite ?Hr', ?Hf, ?Hs; try done.
    + rewrite length_app. simpl. unfold maxCompletionEvidenceRefs in *. lia.
    + intros i r [Hi|[Hi Hr0]]%lookup_app_Some; [by apply H3|].
      apply list_lookup_singleton_Some in Hr0 as [Hz <-]. rewrite Hq. lia.
    + rewrite map_app. apply list.NoDup_app. split_and!; [done| |apply NoDup_singleton].
      intros d Hin Hd'. apply list_elem_of_singleton in Hd' as ->.
      apply list_elem_of_fmap in Hin as (r & He & Hin).
      assert (completionSuccessByDigest l !! RefDigest ref = Some (RefSucceeded r)) by (apply H5; eauto).
      congruence.
    + intros r [?|Hin]%elem_of_app; [by apply Hdg|]. by apply list_elem_of_singleton in Hin as ->.
    + intros d b. rewrite lookup_insert_Some, H5. setoid_rewrite elem_of_app.
      setoid_rewrite list_elem_of_singleton. split.
      * intros [[<- <-]|(_ & r & ? & ? & ?)]; eauto.
      * intros (r & [Hin| ->] & <- & <-); [|by left]. right. split; [|eauto].
        intros He. assert (completionSuccessByDigest l !! RefDigest ref = Some (RefSucceeded r)) by (apply H5; eauto).
        congruence.
Qed.

Lemma proved_by_mono ops ops' ref :
  (∀ op, op ∈ ops → op ∈ ops') → proved_by ops ref → proved_by ops' ref.
Proof.
  intros Hsub [[Hs (o & Ho & Hrest)]|[Hs (out & f & Ho & Hrest)]]; [left|right]; (split; [done|]).
  - exists o. auto.
  - exists out, f. auto.
Qed.

(** The invariant of a run: the ledger is well formed and everything it cites
    happened. *)
Record run_ok (r : LedgerRun) : Prop := {
  run_ledger : ledger_ok (ledger r);
  run_proved ref : ref ∈ completionRefs (ledger r) → proved_by (performed r) ref;
}.

Lemma run_ok_step r r' : run_ok r → ledger_step r r' → run_ok r'.
Proof.
  intros [Hok Hp] Hst. destruct Hst as [op l ops]. simpl in *. destruct (perform_change op l) as [Hc Hrefs].
  split; simpl; [by eapply ledger_ok_change|]. intros ref [Hin|Hin]%Hrefs.
  - eapply proved_by_mono; [|by apply Hp]. intros o Ho. apply elem_of_app. by left.
  - eapply proved_by_mono; [|exact Hin]. intros o Ho. apply elem_of_app. by right.
Qed.

(** What is resolved stays resolved. *)
Lemma resolve_stable l l' run d :
  completion_change l l' → ResolveCompletionEvidence l run d = true →
  ResolveCompletionEvidence l' run d = true.
Proof.
  unfold ResolveCompletionEvidence. intros Hc.
  destruct (String.eqb_spec run "") as [|Hne]; [done|]. cbn [orb].
  destruct (String.eqb_spec run (completionRunID l)) as [Hrun|]; [|done]. cbn [negb]. intros Hs.
  destruct Hc as [l' Hr Hf Hs'|run' l' Hr Hne' Hr' Hf Hs'|ref l' Hr Hr' Hf Hs' Hd Hq Hlt].
  - by rewrite Hr, <-Hrun, String.eqb_refl, Hs'.
  - congruence.
  - rewrite Hr', <-Hrun, String.eqb_refl, Hs'. cbn [negb].
    rewrite lookup_insert_ne; [done|]. intros He. rewrite <-He, Hd in Hs. done.
Qed.

(** ** The interface to completion claims

    What [CompletionContract.ApplyClaims] needs of the store behind its
    [CompletionEvidenceResolver]: the store may change between two calls, but
    evidence it has confirmed for a run stays confirmed. *)
Class EvidenceStore (S : Type) := {
  es_resolve : S → string → string → bool;
  es_step : S → S → Prop;
  es_ok : S → Prop;
  es_preserved s s' : es_ok s → es_step s s' → es_ok s';
  es_stable s s' run d : es_ok s → es_step s s' → es_resolve s run d = true → es_resolve s' run d = true;
}.

#[export, refine] Instance ledger_store : EvidenceStore LedgerRun := {|
  es_resolve r := ResolveCompletionEvidence (ledger r);
  es_step := ledger_step;
  es_ok := run_ok;
|}.
Proof.
  - exact run_ok_step.
  - intros s s' run d _ Hst. destruct Hst as [op l ops]. simpl. apply resolve_stable, perform_change.
Defined.

(** ** Theorems *)

Definition new_run (env prompt policy : string) (blocks : Z) : LedgerRun :=
  {| ledger := NewEvidenceLedger env prompt policy blocks; performed := [] |}.

Lemma run_ok_reachable env prompt policy blocks r :
  rtc ledger_step (new_run env prompt policy blocks) r → run_ok r.
Proof.
  apply rtc_invariant; [intros a b; apply run_ok_step|]. split; [apply ledger_ok_new|].
  simpl. unfold NewEvidenceLedger.
  destruct (ClassifyEvidenceMode prompt), (NormalizeEvidencePolicyConfig env policy blocks).
  intros ref Hin. by apply not_elem_of_nil in Hin.
Qed.

Lemma resolve_iff l run d :
  ledger_ok l →
  ResolveCompletionEvidence l run d = true ↔
  run ≠ "" ∧ run = completionRunID l ∧
  ∃ ref, ref ∈ completionRefs l ∧ RefDigest ref = d ∧ RefSucceeded ref = true.
Proof.
  intros Hok. pose proof (ledger_success l Hok d) as H5. unfold ResolveCompletionEvidence.
  destruct (String.eqb_spec run "") as [|Hne]; [naive_solver|]. cbn [orb].
  destruct (String.eqb_spec run (completionRunID l)) as [->|Hne']; cbn [negb]; [|naive_solver].
  rewrite <-H5. destruct (completionSuccessByDigest l !! d) as [[]|]; naive_solver.
Qed.

(** C7: What the evidence ledger promises. In every run, the references are at most
    256, numbered from one and told apart by their digests; a digest resolves for a
    run exactly when the ledger is bound to that run and the digest is that of a
    successful reference, and then it does for ever; and every reference stands for
    something that happened: a tool outcome that was executed, neither synthetic nor
    denied and no completion report, or an automatic verification that ran. *)
Theorem evidence_ledger_sound env prompt policy blocks r r' :
  rtc ledger_step (new_run env prompt policy blocks) r → rtc ledger_step r r' →
  let refs := completionRefs (ledger r) in
  Z.of_nat (length refs) ≤ 256 ∧ NoDup (map RefDigest refs) ∧
  (∀ i ref, refs !! i = Some ref → RefSequence ref = Z.of_nat i + 1) ∧
  (∀ run d, ResolveCompletionEvidence (ledger r) run d = true ↔
     run ≠ "" ∧ run = completionRunID (ledger r) ∧
     ∃ ref, ref ∈ refs ∧ RefDigest ref = d ∧ RefSucceeded ref = true) ∧
  (∀ run d, ResolveCompletionEvidence (ledger r) run d = true →
     ResolveCompletionEvidence (ledger r') run d = true) ∧
  (∀ ref, ref ∈ refs → proved_by (performed r) ref).
Proof.
  intros Hr Hr' refs. pose proof (run_ok_reachable _ _ _ _ _ Hr) as Hok.
  pose proof Hok as [[H1 H2 H3 H4 _ H5] H6]. split_and!; [done|done|done| | |done].
  - intros run d. exact (resolve_iff _ run d (run_ledger _ Hok)).
  - intros run d Hres.
    apply (rtc_invariant ledger_step (λ a, run_ok a ∧ ResolveCompletionEvidence (ledger a) run d = true) r r');
      [|done|done].
    intros a b [Ha Hra] Hst. split; [by eapply run_ok_step|].
    destruct Hst as [op l ops]. by eapply resolve_stable; [apply perform_change|].
Qed.

(** The gate as a table. *)
Definition wants_evidence (l : EvidenceLedger) : bool :=
  negb (String.eqb (Policy l) EvidencePolicyOff) && String.eqb (Mode l) EvidenceModeDeep &&
  existsb (λ p, negb (String.eqb (changeKind p) "docs")) (ChangedFiles l) &&
  negb (has_status "passed" (Records l)).

Lemma docs_only_false l :
  (length (ChangedFiles l) =? 0)%nat = false →
  docsOnlyLocked l = negb (existsb (λ p, negb (String.eqb (changeKind p) "docs")) (ChangedFiles l)).
Proof.
  unfold docsOnlyLocked. intros Hn. destruct (ChangedFiles l) as [|f fs]; [done|]. cbn [length Nat.ltb Nat.leb andb].
  generalize (f :: fs). clear. induction l as [|p ps IH]; simpl; [done|]. rewrite IH, negb_orb, negb_involutive. done.
Qed.

Lemma Evaluate_block l :
  GateDecision (Evaluate l) = EvidenceGateBlock ↔
  Policy l = EvidencePolicyBlock ∧ wants_evidence l = true ∧ StopBlocks l < MaxStopBlocks l.
Proof.
  unfold Evaluate, wants_evidence, hasSuccessfulVerificationLocked.
  destruct (String.eqb_spec (Policy l) EvidencePolicyOff) as [->|]; cbn [negb andb]; [naive_solver|].
  destruct (String.eqb_spec (Mode l) EvidenceModeQuick) as [->|]; [naive_solver|].
  destruct (length (ChangedFiles l) =? 0)%nat eqn:Hn.
  { destruct (ChangedFiles l); [|done]. cbn [existsb]. rewrite andb_false_r. naive_solver. }
  rewrite (docs_only_false l Hn).
  destruct (existsb _ (ChangedFiles l)); cbn [negb]; rewrite ?andb_false_r; [|naive_solver].
  destruct (has_status "passed" (Records l)); cbn [negb]; rewrite ?andb_false_r; [naive_solver|].
  destruct (String.eqb (Mode l) EvidenceModeDeep); cbn [negb andb]; [|naive_solver].
  destruct (String.eqb_spec (Policy l) EvidencePolicyBlock) as [->|]; [|case_match; naive_solver].
  destruct (Z.leb_spec (MaxStopBlocks l) (StopBlocks l)); simpl; naive_solver lia.
Qed.

(** The run as the loop drives it: a stop is refused, and counted, only when the
    gate says so. *)
Inductive gated_step : LedgerRun → LedgerRun → Prop :=
| gated_perform op l ops :
    op ≠ OpStopBlock →
    gated_step {| ledger := l; performed := ops |} {| ledger := perform op l; performed := ops ++ [op] |}
| gated_block l ops :
    GateDecision (Evaluate l) = EvidenceGateBlock →
    gated_step {| ledger := l; performed := ops |}
               {| ledger := MarkStopBlock l; performed := ops ++ [OpStopBlock] |}.

Definition is_stop_block (op : LedgerOp) : bool := match op with OpStopBlock => true | _ => false end.

Lemma perform_settings op l :
  Policy (perform op l) = Policy l ∧ Mode (perform op l) = Mode l ∧
  MaxStopBlocks (perform op l) = MaxStopBlocks l ∧
  (op ≠ OpStopBlock → StopBlocks (perform op l) = StopBlocks l).
Proof.
  assert (Happ : ∀ src tn i o ok l l' r, appendCompletionEvidence src tn i o ok l = Ok (l', r) →
    Policy l' = Policy l ∧ Mode l' = Mode l ∧ MaxStopBlocks l' = MaxStopBlocks l ∧ StopBlocks l' = StopBlocks l).
  { unfold appendCompletionEvidence. intros. repeat case_match; simplify_eq/=; done. }
  destruct op as [run|o|tn input out err|path|out failed ran|]; simpl; try done.
  - unfold BindCompletionRun. repeat case_match; simplify_eq/=; done.
  - unfold ObserveCompletionToolOutcome. destruct (_ || _); [done|].
    destruct (safeCompletionEvidenceToolName _); [|done]. simpl.
    destruct (appendCompletionEvidence _ _ _ _ _ _) as [[l' ref]|] eqn:E; [|done]. simpl.
    destruct (Happ _ _ _ _ _ _ _ _ E) as (? & ? & ? & ?). done.
  - destruct (tool_result_same tn input out err l) as (f & r & ->). done.
  - unfold ObserveChangedFile. case_match; done.
  - unfold ObserveAutoVerify. destruct ran; [|done]. simpl.
    destruct (appendCompletionEvidence _ _ _ _ _ _) as [[l' ref]|] eqn:E; [|done].
    destruct (Happ _ _ _ _ _ _ _ _ E) as (? & ? & ? & ?). done.
Qed.

Lemma gated_blocks r0 r :
  rtc gated_step r0 r →
  0 ≤ StopBlocks (ledger r0) ≤ MaxStopBlocks (ledger r0) → MaxStopBlocks (ledger r0) ≤ max_int64 →
  StopBlocks (ledger r0) = Z.of_nat (countb is_stop_block (performed r0)) →
  MaxStopBlocks (ledger r) = MaxStopBlocks (ledger r0) ∧ StopBlocks (ledger r) ≤ MaxStopBlocks (ledger r) ∧
  StopBlocks (ledger r) = Z.of_nat (countb is_stop_block (performed r)).
Proof.
  intros Hr H0 Hmax Hc.
  apply (rtc_invariant gated_step (λ a, MaxStopBlocks (ledger a) = MaxStopBlocks (ledger r0) ∧
    StopBlocks (ledger a) ≤ MaxStopBlocks (ledger a) ∧
    StopBlocks (ledger a) = Z.of_nat (countb is_stop_block (performed a))) r0 r); [|lia|done].
  intros a b (Ha1 & Ha2 & Ha3) Hst. destruct Hst as [op l ops Hne|l ops Hb]; simpl in *; rewrite countb_app; simpl.
  - destruct (perform_settings op l) as (_ & _ & -> & Hs). rewrite (Hs Hne).
    assert (is_stop_block op = false) as -> by (by destruct op). lia.
  - apply Evaluate_block in Hb as (_ & _ & Hlt). unfold MarkStopBlock. simpl.
    rewrite wrap64_id by (unfold min_int64, max_int64 in *; lia). lia.
Qed.

(** The stop gate. It refuses a stop exactly in block policy, for a deep task
    that changed a file which is not documentation, with no verification passed and
    the budget not spent; so a run is refused at most as often as its budget says,
    and may stop then. *)
Theorem evidence_gate_bounded env prompt policy blocks r :
  blocks ≤ max_int64 → rtc gated_step (new_run env prompt policy blocks) r →
  let l := ledger r in
  (GateDecision (Evaluate l) = EvidenceGateBlock ↔
     Policy l = EvidencePolicyBlock ∧ wants_evidence l = true ∧ StopBlocks l < MaxStopBlocks l) ∧
  MaxStopBlocks l = (if blocks <=? 0 then 2 else blocks) ∧
  Z.of_nat (countb is_stop_block (performed r)) ≤ MaxStopBlocks l ∧
  (Z.of_nat (countb is_stop_block (performed r)) = MaxStopBlocks l →
     GateDecision (Evaluate l) ≠ EvidenceGateBlock).
Proof.
  intros Hb Hr l.
  assert (Hnew : ledger (new_run env prompt policy blocks) = NewEvidenceLedger env prompt policy blocks ∧
    StopBlocks (NewEvidenceLedger env prompt policy blocks) = 0 ∧
    MaxStopBlocks (NewEvidenceLedger env prompt policy blocks) = (if blocks <=? 0 then 2 else blocks)).
  { split; [done|]. unfold NewEvidenceLedger. by destruct (ClassifyEvidenceMode prompt). }
  destruct Hnew as (He & H0 & Hm).
  destruct (gated_blocks _ _ Hr) as (H1 & H2 & H3).
  - rewrite He, H0, Hm. destruct (Z.leb_spec blocks 0); lia.
  - rewrite He, Hm. unfold max_int64 in *. destruct (Z.leb_spec blocks 0); lia.
  - by rewrite He, H0.
  - rewrite He, Hm in H1. subst l. rewrite <-H3. split_and!; [apply Evaluate_block|done|done|].
    intros Hspent [_ [_ Hlt]]%Evaluate_block. lia.
Qed.

(** ** Concrete runs *)

Lemma acts_run ops l done_ :
  rtc ledger_step {| ledger := l; performed := done_ |}
    {| ledger := fold_left (λ l op, perform op l) ops l; performed := done_ ++ ops |}.
Proof.
  revert l done_. induction ops as [|op ops IH]; intros l done_; simpl; [by rewrite app_nil_r|].
  eapply rtc_l; [apply ledger_perform|]. specialize (IH (perform op l) (done_ ++ [op])).
  by rewrite <-app_assoc in IH.
Qed.

Definition ex_input : RawInput :=
  {| raw_bytes := "{}"; raw_value := Some (JObject [("file_path", JString "main.go")]) |}.
Definition ex_outcome : CompletionToolOutcome :=
  {| OcToolName := "Bash"; OcInput := ex_input; OcResult := "ok"; OcIsError := false;
     OcExecuted := true; OcSynthetic := false; OcDenied := false |}.
Definition ex_ledger_ops : list LedgerOp := [OpBind "run-1"; OpOutcome ex_outcome].
Definition ex_ledger_run : LedgerRun :=
  {| ledger := fold_left (λ l op, perform op l) ex_ledger_ops (NewEvidenceLedger "" "fix it" "" 0);
     performed := ex_ledger_ops |}.
Definition ex_digest : string :=
  default "" (RefDigest <$> head (completionRefs (ledger ex_ledger_run))).

Lemma ex_ledger_reachable : rtc ledger_step (new_run "" "fix it" "" 0) ex_ledger_run.
Proof. apply (acts_run ex_ledger_ops _ []). Qed.

Lemma evidence_ledger_sound_witness :
  ResolveCompletionEvidence (ledger ex_ledger_run) "run-1" ex_digest = true ∧
  proved_by ex_ledger_ops
    {| RefDigest := ex_digest; RefSequence := 1; RefSource := "tool"; RefToolName := "Bash"; RefSucceeded := true |}.
Proof.
  split; [vm_compute; reflexivity|].
  destruct (evidence_ledger_sound "" "fix it" "" 0 ex_ledger_run ex_ledger_run)
    as (_ & _ & _ & _ & _ & H); [apply ex_ledger_reachable|constructor|].
  apply H. vm_compute. left.
Defined.

(** A deep task in block policy changes a file: the first stop is refused. *)
Definition ex_gated : LedgerRun :=
  {| ledger := perform (OpChanged "main.go") (NewEvidenceLedger "" "database migration" "block" 1);
     performed := [OpChanged "main.go"] |}.

Lemma evidence_gate_bounded_witness :
  GateDecision (Evaluate (ledger ex_gated)) = EvidenceGateBlock.
Proof.
  destruct (evidence_gate_bounded "" "database migration" "block" 1 ex_gated) as (H & _).
  - vm_compute. discriminate.
  - eapply rtc_l; [apply (gated_perform (OpChanged "main.go") _ []); discriminate|constructor].
  - apply H. split_and!; vm_compute; reflexivity.
Defined.

(** *** What modelling showed *)

(** The summary of a passing test run names the failures it did not have, and is
    recorded as failed. *)
Theorem passing_output_recorded_as_failed :
  inferEvidenceStatus "test result: ok. 12 passed; 0 failed; 0 ignored" false = "failed".
Proof. vm_compute. reflexivity. Qed.

(** Any command that mentions a check counts as one, so that printing a word
    satisfies the gate. *)
Theorem mentioning_a_check_opens_the_gate :
  let echo := {| raw_bytes := ""; raw_value := Some (JObject [("command", JString "echo lint")]) |} in
  let l := perform (OpToolResult "Bash" echo "lint" false) (ledger ex_gated) in
  GateDecision (Evaluate l) = EvidenceGateAllow ∧ GateTerminalState (Evaluate l) = EvidenceTerminalVerified.
Proof. split; vm_compute; reflexivity. Qed.

(** The ledger holds 256 references; the outcome of the next tool is an error. *)
Theorem evidence_limit_is_an_error o l :
  ledger_ok l → completionRunID l ≠ "" → length (completionRefs l) = 256%nat →
  OcExecuted o = true → OcSynthetic o = false → OcDenied o = false →
  equal_fold (trim_space (OcToolName o)) "ReportCompletion" = false →
  ¬ ∃ r, ObserveCompletionToolOutcome o l = Ok r.
Proof.
  intros _ Hrun Hlen H1 H2 H3 H4 [r Hr]. unfold ObserveCompletionToolOutcome in Hr.
  rewrite H1, H2, H3, H4 in Hr. cbn [negb orb] in Hr.
  apply result_bind_ok in Hr as (n & _ & Hr). apply result_bind_ok in Hr as (x & Hr & _).
  unfold appendCompletionEvidence in Hr. rewrite Hlen in Hr. repeat case_match; done.
Qed.
