(* ===== verification/Completion.v ===== *)
(** * Completion contracts: internal/agent/completion_contract.go, plan_anchor.go

    A strict run owns a contract: the criteria of its plan anchor's definition of
    done, each pending, satisfied or blocked, under a revision.  [ApplyClaims] is its
    only mutation.  It validates a batch of claims under the read lock, asks the
    evidence resolver about every cited digest without a lock, and commits under the
    write lock when the revision is still the expected one; [claim_step] models the
    calls in flight with these three phases interleaved, against a store that changes
    meanwhile ([EvidenceStore]).

    [redactSensitiveString] is a chain of replacements by regular expressions, whose
    engine is not modelled: it is the argument [redact].  The JSON forms of a
    snapshot are not modelled. *)

From S2P Require Export Evidence.

Local Open Scope string_scope.
Local Open Scope list_scope.
Local Open Scope Z_scope.

(** ** Plan anchors *)

Inductive AnchorError := AnchorObjectiveRequired | AnchorRevisionNegative | AnchorDoneRequired | AnchorUnresolved
| AnchorInvalidMode.

Record PlanAnchorSpec := {
  SpObjective : string;
  SpCurrentStep : string;
  SpRemainingSteps : list string;
  SpDefinitionOfDone : list string;
  SpRevision : Z;
}.

Record PlanAnchor := {
  objective : string;
  currentStep : string;
  remainingSteps : list string;
  definitionOfDone : list string;
  anchorRevision : Z;
}.

Definition normalizeAnchorText (value : string) : string := str_join " " (fields value).

Fixpoint normalize_items (items : list string) (seen : gset string) : list string :=
  match items with
  | [] => []
  | item :: items' =>
      let item := normalizeAnchorText item in
      if String.eqb item "" || bool_decide (item ∈ seen) then normalize_items items' seen
      else item :: normalize_items items' ({[item]} ∪ seen)
  end.
Definition normalizeAnchorItems (items : list string) : list string := normalize_items items ∅.

Definition NewPlanAnchor (spec : PlanAnchorSpec) : result AnchorError PlanAnchor :=
  let objective := normalizeAnchorText (SpObjective spec) in
  if String.eqb objective "" then Err AnchorObjectiveRequired
  else if SpRevision spec <? 0 then Err AnchorRevisionNegative
  else
    let done_ := normalizeAnchorItems (SpDefinitionOfDone spec) in
    match done_ with
    | [] => Err AnchorDoneRequired
    | _ => Ok {| objective := objective; currentStep := normalizeAnchorText (SpCurrentStep spec);
                 remainingSteps := normalizeAnchorItems (SpRemainingSteps spec);
                 definitionOfDone := done_; anchorRevision := SpRevision spec |}
    end.

(** [PlanAnchor.Valid]. *)
Definition anchor_valid (a : PlanAnchor) : bool :=
  negb (String.eqb (objective a) "") && (0 <? length (definitionOfDone a))%nat && (0 <=? anchorRevision a).

Definition WithProgress (currentStep : string) (remainingSteps : list string) (a : PlanAnchor)
    : result AnchorError PlanAnchor :=
  if negb (anchor_valid a) then Err AnchorUnresolved
  else Ok {| objective := objective a; currentStep := normalizeAnchorText currentStep;
             remainingSteps := normalizeAnchorItems remainingSteps;
             definitionOfDone := definitionOfDone a;
             anchorRevision := wrap64 (anchorRevision a + 1) |}.

(** [strings.NewReplacer] for one-byte patterns. *)
Fixpoint escapeAnchorText (value : string) : string :=
  match value with
  | "" => ""
  | String "&" v => "&amp;" +:+ escapeAnchorText v
  | String "<" v => "&lt;" +:+ escapeAnchorText v
  | String ">" v => "&gt;" +:+ escapeAnchorText v
  | String c v => String c (escapeAnchorText v)
  end.

Definition newline : string := String "010" "".
Definition writeAnchorLine (label value : string) : string :=
  label +:+ ": " +:+ escapeAnchorText value +:+ newline.
Definition writeAnchorList (label : string) (items : list string) : string :=
  label +:+ ":" +:+ newline +:+
  String.concat "" (map (λ item, "- " +:+ escapeAnchorText item +:+ newline) items).

(** [PlanAnchor.Render]; the modes are those of internal/harness/profile.go. *)
Definition Render (mode : string) (a : PlanAnchor) : result AnchorError string :=
  if String.eqb mode "off" then Ok ""
  else if negb (String.eqb mode "compact" || String.eqb mode "strict") then Err AnchorInvalidMode
  else if negb (anchor_valid a) then Err AnchorUnresolved
  else Ok ("<plan-anchor revision=" +:+ dquote +:+ pretty (anchorRevision a) +:+ dquote +:+ ">" +:+ newline +:+
           writeAnchorLine "Objective" (objective a) +:+
           (if String.eqb (currentStep a) "" then "" else writeAnchorLine "Current step" (currentStep a)) +:+
           writeAnchorList "Remaining steps" (remainingSteps a) +:+
           writeAnchorList "Definition of Done" (definitionOfDone a) +:+
           (if String.eqb mode "strict" then
              writeAnchorLine "Completion rule"
                "Report done only after the configured verification and evidence gates pass."
            else "") +:+
           "</plan-anchor>").

(** ** Contract data *)

Definition maxCompletionCriteria : Z := 256.
Definition maxCompletionCriterionTextBytes : Z := 4 * 1024.
Definition maxCompletionCriterionIDBytes : Z := 96.
Definition maxCompletionSummaryBytes : Z := 1024.

Definition CompletionClaimPending : string := "pending".
Definition CompletionClaimSatisfied : string := "satisfied".
Definition CompletionClaimBlocked : string := "blocked".
Definition CompletionStatusIncomplete : string := "incomplete".
Definition CompletionStatusComplete : string := "complete".
Definition CompletionStatusBlocked : string := "blocked".

Inductive CompletionContractErrorCode :=
| CompletionErrorInvalidContract | CompletionErrorInvalidField | CompletionErrorFieldTooLarge
| CompletionErrorUnknownCriterion | CompletionErrorDuplicateCriterion | CompletionErrorDuplicateClaim
| CompletionErrorConflictingClaim | CompletionErrorInvalidClaimState | CompletionErrorInvalidEvidence
| CompletionErrorEvidenceRequired | CompletionErrorEvidenceResolver | CompletionErrorEvidenceMismatch
| CompletionErrorStaleRevision | CompletionErrorRevisionExhausted | CompletionErrorEmptyClaims.

Record CompletionContractError := {
  Code : CompletionContractErrorCode;
  Field : string;
  ErrCriterionID : string;
}.
Definition completionContractError (code : CompletionContractErrorCode) (field criterionID : string)
    : CompletionContractError := {| Code := code; Field := field; ErrCriterionID := criterionID |}.

Record CompletionContractSpec := {
  SpecRunID : string;
  SpecPlanAnchor : PlanAnchor;
  SpecEvidenceNotRequired : list string;
}.

Record CompletionClaim := {
  ClCriterionID : string;
  ClState : string;
  ClEvidenceDigest : string;
  ClSummary : string;
  ClAssertion : string;
}.

Record completionCriterion := {
  cr_id : string;
  cr_text : string;
  evidenceRequired : bool;
  cr_state : string;
  cr_digest : string;
  cr_summary : string;
  cr_assertion : string;
  claimRevision : Z;
}.

Record CompletionContract := {
  runID : string;
  planRevision : Z;
  revision : Z;
  criteria : list completionCriterion;
  criterionIdx : gmap string nat;
}.

Record preparedCompletionClaim := {
  criterionIndex : nat;
  pc_id : string;
  pc_state : string;
  pc_digest : string;
  pc_summary : string;
  pc_assertion : string;
}.

(** ** Identifiers *)

Definition validLowerSHA256 (value prefix : string) : bool :=
  (slen value =? slen prefix + 64) && has_prefix value prefix &&
  hex_ok (str_drop (strlen prefix) value) && String.eqb value (to_lower value).
Definition validCompletionEvidenceDigest (value : string) : bool := validLowerSHA256 value "sha256:".
Definition validCompletionCriterionID (value : string) : bool := validLowerSHA256 value "criterion:sha256:".

Definition CompletionCriterionID (text : string) : result CompletionContractError string :=
  if negb (ValidString text) || String.eqb (trim_space text) ""
  then Err (completionContractError CompletionErrorInvalidField "criterionText" "")
  else if maxCompletionCriterionTextBytes <? slen text
  then Err (completionContractError CompletionErrorFieldTooLarge "criterionText" "")
  else
    let normalized := normalizeAnchorText text in
    if String.eqb normalized ""
    then Err (completionContractError CompletionErrorInvalidField "criterionText" "")
    else Ok ("criterion:sha256:" +:+ sha256_hex normalized).

(** ** Construction *)

Fixpoint optional_texts (known : gset string) (texts : list string) (optional : gset string)
    : result CompletionContractError (gset string) :=
  match texts with
  | [] => Ok optional
  | text :: texts' =>
      if negb (ValidString text) || String.eqb (trim_space text) ""
      then Err (completionContractError CompletionErrorInvalidField "evidenceNotRequiredCriteria" "")
      else if maxCompletionCriterionTextBytes <? slen text
      then Err (completionContractError CompletionErrorFieldTooLarge "evidenceNotRequiredCriteria" "")
      else
        let text := normalizeAnchorText text in
        if negb (bool_decide (text ∈ known))
        then Err (completionContractError CompletionErrorUnknownCriterion "evidenceNotRequiredCriteria" "")
        else if bool_decide (text ∈ optional)
        then Err (completionContractError CompletionErrorDuplicateCriterion "evidenceNotRequiredCriteria" "")
        else optional_texts known texts' ({[text]} ∪ optional)
  end.

Definition new_criterion (optional : gset string) (id text : string) : completionCriterion :=
  {| cr_id := id; cr_text := text; evidenceRequired := negb (bool_decide (text ∈ optional));
     cr_state := CompletionClaimPending; cr_digest := ""; cr_summary := ""; cr_assertion := "";
     claimRevision := 0 |}.

Fixpoint add_criteria (optional : gset string) (texts : list string)
    (criteria : list completionCriterion) (idx : gmap string nat)
    : result CompletionContractError (list completionCriterion * gmap string nat) :=
  match texts with
  | [] => Ok (criteria, idx)
  | text :: texts' =>
      if negb (ValidString text) || String.eqb (trim_space text) ""
      then Err (completionContractError CompletionErrorInvalidField "criterionText" "")
      else if maxCompletionCriterionTextBytes <? slen text
      then Err (completionContractError CompletionErrorFieldTooLarge "criterionText" "")
      else
        id ← CompletionCriterionID text;
        match idx !! id with
        | Some existing =>
            let other := default "" (cr_text <$> criteria !! existing) in
            Err (completionContractError
                   (if String.eqb other text then CompletionErrorDuplicateCriterion
                    else CompletionErrorInvalidContract) "definitionOfDone" id)
        | None =>
            add_criteria optional texts' (criteria ++ [new_criterion optional id text])
              (<[id := length criteria]> idx)
        end
  end.

Definition NewCompletionContract (spec : CompletionContractSpec)
    : result CompletionContractError CompletionContract :=
  let run := trim_space (SpecRunID spec) in
  if String.eqb run "" || negb (ValidString run) || containsCompletionControl run
  then Err (completionContractError CompletionErrorInvalidField "runId" "")
  else if maxCompletionRunIDBytes <? slen run
  then Err (completionContractError CompletionErrorFieldTooLarge "runId" "")
  else if negb (anchor_valid (SpecPlanAnchor spec))
  then Err (completionContractError CompletionErrorInvalidContract "planAnchor" "")
  else
    let done_ := definitionOfDone (SpecPlanAnchor spec) in
    if (length done_ =? 0)%nat
    then Err (completionContractError CompletionErrorInvalidContract "definitionOfDone" "")
    else if maxCompletionCriteria <? Z.of_nat (length done_)
    then Err (completionContractError CompletionErrorFieldTooLarge "definitionOfDone" "")
    else
      optional ← optional_texts (list_to_set done_) (SpecEvidenceNotRequired spec) ∅;
      ci ← add_criteria optional done_ [] ∅;
      Ok {| runID := run; planRevision := anchorRevision (SpecPlanAnchor spec); revision := 0;
            criteria := ci.1; criterionIdx := ci.2 |}.

(** ** Identifiers and digests *)

Lemma validLowerSHA256_hex prefix s :
  str_all lower_graph prefix = true → validLowerSHA256 (prefix +:+ sha256_hex s) prefix = true.
Proof.
  intros Hp. destruct (sha256_hex_lower s) as [Hh Hlen]. unfold validLowerSHA256.
  generalize dependent (sha256_hex s). intros h Hh Hlen.
  rewrite !andb_true_iff. split_and!.
  - unfold slen. rewrite strlen_app, Hlen. apply Z.eqb_eq. lia.
  - unfold has_prefix. apply prefix_spec. by eexists.
  - rewrite str_drop_app. unfold hex_ok. rewrite Hlen, str_all_existsb. simpl.
    rewrite (str_all_impl lower_hex is_hex_digit); [done|apply lower_hex_is_hex|done].
  - rewrite to_lower_lower, String.eqb_refl; [done|]. rewrite str_all_app, Hp. simpl.
    apply (str_all_impl lower_hex); [apply lower_hex_lower_graph|done].
Qed.

Lemma criterion_id_shape text id :
  CompletionCriterionID text = Ok id → ∃ s, id = "criterion:sha256:" +:+ sha256_hex s.
Proof. unfold CompletionCriterionID. intros H. repeat case_match; simplify_eq. by eexists. Qed.

Lemma hex_id_graph s : str_all graph ("criterion:sha256:" +:+ sha256_hex s) = true.
Proof.
  rewrite str_all_app. cbn [str_all]. apply andb_true_intro. split; [reflexivity|].
  apply (str_all_impl lower_hex); [apply lower_hex_graph|apply sha256_hex_lower].
Qed.

(** An identifier passes the checks a claim puts it to. *)
Lemma criterion_id_accepted text id :
  CompletionCriterionID text = Ok id →
  id ≠ "" ∧ trim_space id = id ∧ ValidString id = true ∧ containsCompletionControl id = false ∧
  slen id ≤ maxCompletionCriterionIDBytes ∧ validCompletionCriterionID id = true.
Proof.
  intros (s & ->)%criterion_id_shape. pose proof (hex_id_graph s) as Hg.
  destruct (sha256_hex_lower s) as [_ Hlen]. pose proof (validLowerSHA256_hex "criterion:sha256:" s eq_refl) as Hv.
  generalize dependent (sha256_hex s). intros h Hg Hlen Hv. split_and!.
  - done.
  - by apply graph_trimmed.
  - by apply ValidString_graph.
  - unfold containsCompletionControl. rewrite runes_of_graph by done. by apply no_control_graph.
  - unfold slen. rewrite strlen_app, Hlen. by vm_compute.
  - done.
Qed.

Lemma ledger_digest_valid i : validCompletionEvidenceDigest (canonicalCompletionEvidenceDigest i) = true.
Proof. unfold canonicalCompletionEvidenceDigest, completionEvidenceSHA256. apply validLowerSHA256_hex. reflexivity. Qed.

Lemma ledger_digest_trimmed i :
  trim_space (canonicalCompletionEvidenceDigest i) = canonicalCompletionEvidenceDigest i.
Proof.
  apply graph_trimmed. unfold canonicalCompletionEvidenceDigest, completionEvidenceSHA256.
  rewrite str_all_app. cbn [str_all]. apply andb_true_intro. split; [reflexivity|].
  apply (str_all_impl lower_hex); [apply lower_hex_graph|apply sha256_hex_lower].
Qed.

(** ** What construction fixes *)

Lemma optional_texts_ok known texts optional optional' :
  optional_texts known texts optional = Ok optional' →
  ∀ t, t ∈ optional' ↔ t ∈ optional ∨ t ∈ map normalizeAnchorText texts.
Proof.
  revert optional. induction texts as [|text texts IH]; simpl; intros optional H t.
  { simplify_eq. rewrite elem_of_nil. naive_solver. }
  repeat (case_match; [discriminate|]). rewrite (IH _ H t), elem_of_cons. set_solver.
Qed.

Lemma add_criteria_texts optional texts (crs : list completionCriterion) idx crs' idx' :
  add_criteria optional texts crs idx = Ok (crs', idx') →
  map (λ cr, (cr_text cr, evidenceRequired cr)) crs' =
  map (λ cr, (cr_text cr, evidenceRequired cr)) crs ++ map (λ t, (t, negb (bool_decide (t ∈ optional)))) texts.
Proof.
  revert crs idx. induction texts as [|text texts IH]; simpl; intros crs idx H.
  { simplify_eq. by rewrite app_nil_r. }
  repeat (case_match; [discriminate|]). apply result_bind_ok in H as (id & _ & H).
  destruct (idx !! id); [done|]. apply IH in H as ->. rewrite map_app, <-app_assoc. done.
Qed.

(** A contract has the criteria of its anchor, in order, and requires evidence for
    all but the listed ones. *)
Lemma NewCompletionContract_criteria spec c :
  NewCompletionContract spec = Ok c →
  ∃ required : string → bool,
    (∀ t, required t = true ↔ t ∉ map normalizeAnchorText (SpecEvidenceNotRequired spec)) ∧
    map (λ cr, (cr_text cr, evidenceRequired cr)) (criteria c) =
      map (λ t, (t, required t)) (definitionOfDone (SpecPlanAnchor spec)).
Proof.
  unfold NewCompletionContract. intros H. repeat (case_match; [discriminate|]).
  apply result_bind_ok in H as (optional & Ho & H). apply result_bind_ok in H as ([crs idx] & Ha & H). simplify_eq/=.
  exists (λ t, negb (bool_decide (t ∈ optional))). split.
  - intros t. rewrite negb_true_iff, bool_decide_eq_false, (optional_texts_ok _ _ _ _ Ho t). set_solver.
  - by apply add_criteria_texts in Ha.
Qed.

(** ** Claims *)

Section redacted.
Context (redact : string → string).

Definition completionReceiptText (value : string) (limit : Z) : string :=
  let value := redact value in
  if (limit <=? 0) || (slen value <=? limit) then value
  else valid_prefix (Z.to_nat limit) value.

Definition known_state (state : string) : bool :=
  existsb (String.eqb state) [CompletionClaimPending; CompletionClaimSatisfied; CompletionClaimBlocked].

(** The claim's fields fit its state; the error names the field and the criterion. *)
Definition check_claim_state (required : bool) (state digest summary assertion id : string)
    : result CompletionContractError unit :=
  let set s := negb (String.eqb s "") in
  let err code field := Err (completionContractError code field id) in
  if String.eqb state CompletionClaimPending then
    if set digest || set summary || set assertion then err CompletionErrorInvalidField "pendingClaim" else Ok tt
  else if String.eqb state CompletionClaimBlocked then
    if set digest || negb (set summary) || set assertion
    then err CompletionErrorInvalidField "blockedClaim" else Ok tt
  else if String.eqb state CompletionClaimSatisfied then
    if required && negb (set digest) then err CompletionErrorEvidenceRequired "evidenceDigest"
    else if required && set assertion then err CompletionErrorInvalidField "assertion"
    else if negb required && negb (set digest) && negb (set assertion)
    then err CompletionErrorInvalidField "assertion"
    else if negb required && negb (set digest) && set summary then err CompletionErrorInvalidField "summary"
    else if set digest && set assertion then err CompletionErrorInvalidField "assertion"
    else Ok tt
  else Ok tt.

Definition prepareClaimLocked (c : CompletionContract) (claim : CompletionClaim)
    : result CompletionContractError preparedCompletionClaim :=
  let id := trim_space (ClCriterionID claim) in
  if String.eqb id "" || negb (String.eqb id (ClCriterionID claim)) || negb (ValidString id) ||
     containsCompletionControl id
  then Err (completionContractError CompletionErrorInvalidField "criterionId" "")
  else if maxCompletionCriterionIDBytes <? slen id
  then Err (completionContractError CompletionErrorFieldTooLarge "criterionId" "")
  else if negb (validCompletionCriterionID id)
  then Err (completionContractError CompletionErrorInvalidField "criterionId" "")
  else match criterionIdx c !! id with
  | None => Err (completionContractError CompletionErrorUnknownCriterion "criterionId" id)
  | Some index =>
      match criteria c !! index with
      | None => Err (completionContractError CompletionErrorInvalidContract "contract" "")
      | Some criterion =>
          let state := ClState claim in
          let digest := trim_space (ClEvidenceDigest claim) in
          if negb (known_state state)
          then Err (completionContractError CompletionErrorInvalidClaimState "state" id)
          else if negb (String.eqb digest (ClEvidenceDigest claim))
          then Err (completionContractError CompletionErrorInvalidEvidence "evidenceDigest" id)
          else if negb (String.eqb digest "") && negb (validCompletionEvidenceDigest digest)
          then Err (completionContractError CompletionErrorInvalidEvidence "evidenceDigest" id)
          else if negb (ValidString (ClSummary claim))
          then Err (completionContractError CompletionErrorInvalidField "summary" id)
          else if maxCompletionSummaryBytes <? slen (ClSummary claim)
          then Err (completionContractError CompletionErrorFieldTooLarge "summary" id)
          else if negb (ValidString (ClAssertion claim))
          then Err (completionContractError CompletionErrorInvalidField "assertion" id)
          else if maxCompletionSummaryBytes <? slen (ClAssertion claim)
          then Err (completionContractError CompletionErrorFieldTooLarge "assertion" id)
          else
            let summary := completionReceiptText (trim_space (ClSummary claim)) maxCompletionSummaryBytes in
            let assertion := completionReceiptText (trim_space (ClAssertion claim)) maxCompletionSummaryBytes in
            _ ← check_claim_state (evidenceRequired criterion) state digest summary assertion id;
            if String.eqb state (cr_state criterion) then
              Err (completionContractError
                (if negb (String.eqb (cr_digest criterion) digest) ||
                    negb (String.eqb (cr_summary criterion) summary) ||
                    negb (String.eqb (cr_assertion criterion) assertion)
                 then CompletionErrorConflictingClaim else CompletionErrorDuplicateClaim) "claim" id)
            else Ok {| criterionIndex := index; pc_id := id; pc_state := state; pc_digest := digest;
                       pc_summary := summary; pc_assertion := assertion |}
      end
  end.

Definition samePreparedCompletionClaim (l r : preparedCompletionClaim) : bool :=
  String.eqb (pc_id l) (pc_id r) && String.eqb (pc_state l) (pc_state r) &&
  String.eqb (pc_digest l) (pc_digest r) && String.eqb (pc_summary l) (pc_summary r) &&
  String.eqb (pc_assertion l) (pc_assertion r).

Fixpoint prepare_claims (c : CompletionContract) (claims : list CompletionClaim)
    (seen : gmap string preparedCompletionClaim)
    : result CompletionContractError (list preparedCompletionClaim) :=
  match claims with
  | [] => Ok []
  | claim :: claims' =>
      item ← prepareClaimLocked c claim;
      match seen !! pc_id item with
      | Some previous =>
          Err (completionContractError
                 (if samePreparedCompletionClaim previous item then CompletionErrorDuplicateClaim
                  else CompletionErrorConflictingClaim) "claims" (pc_id item))
      | None =>
          rest ← prepare_claims c claims' (<[pc_id item := item]> seen);
          Ok (item :: rest)
      end
  end.

Definition prepareClaimsLocked (c : CompletionContract) (claims : list CompletionClaim)
    : result CompletionContractError (list preparedCompletionClaim) :=
  if (length claims =? 0)%nat then Err (completionContractError CompletionErrorEmptyClaims "claims" "")
  else if maxCompletionCriteria <? Z.of_nat (length claims)
  then Err (completionContractError CompletionErrorFieldTooLarge "claims" "")
  else prepare_claims c claims ∅.

(** The first phase, under the read lock. *)
Definition begin_claims (expectedRevision : Z) (claims : list CompletionClaim) (c : CompletionContract)
    : result CompletionContractError (list preparedCompletionClaim) :=
  if negb (expectedRevision =? revision c)
  then Err (completionContractError CompletionErrorStaleRevision "expectedRevision" "")
  else if revision c =? max_uint64
  then Err (completionContractError CompletionErrorRevisionExhausted "revision" "")
  else prepareClaimsLocked c claims.

(** A claim the resolver is asked about. *)
Definition cites_evidence (claim : preparedCompletionClaim) : bool :=
  String.eqb (pc_state claim) CompletionClaimSatisfied && negb (String.eqb (pc_digest claim) "").

(** What the resolver answers: an error, or whether the digest is known. *)
Abbreviation resolver := (string → string → result unit bool) (only parsing).

Definition resolve_claim (resolveEvidence : option resolver) (run : string) (claim : preparedCompletionClaim)
    : result CompletionContractError unit :=
  let err code := Err (completionContractError code "evidenceDigest" (pc_id claim)) in
  if negb (cites_evidence claim) then Ok tt
  else match resolveEvidence with
  | None => err CompletionErrorEvidenceResolver
  | Some resolve =>
      match resolve run (pc_digest claim) with
      | Err _ => err CompletionErrorEvidenceResolver
      | Ok found => if found then Ok tt else err CompletionErrorEvidenceMismatch
      end
  end.

Fixpoint resolve_claims (resolveEvidence : option resolver) (run : string)
    (prepared : list preparedCompletionClaim) : result CompletionContractError unit :=
  match prepared with
  | [] => Ok tt
  | claim :: prepared' =>
      _ ← resolve_claim resolveEvidence run claim;
      resolve_claims resolveEvidence run prepared'
  end.

Definition claim_criterion (next : Z) (claim : preparedCompletionClaim) (cr : completionCriterion)
    : completionCriterion :=
  {| cr_id := cr_id cr; cr_text := cr_text cr; evidenceRequired := evidenceRequired cr;
     cr_state := pc_state claim; cr_digest := pc_digest claim; cr_summary := pc_summary claim;
     cr_assertion := pc_assertion claim; claimRevision := next |}.

(** The last phase, under the write lock. *)
Definition commit_claims (expectedRevision : Z) (prepared : list preparedCompletionClaim)
    (c : CompletionContract) : result CompletionContractError CompletionContract :=
  if negb (revision c =? expectedRevision)
  then Err (completionContractError CompletionErrorStaleRevision "expectedRevision" "")
  else
    let next := wrap_u64 (revision c + 1) in
    Ok {| runID := runID c; planRevision := planRevision c; revision := next;
          criteria := fold_left (λ crs claim, alter (claim_criterion next claim) (criterionIndex claim) crs)
                        prepared (criteria c);
          criterionIdx := criterionIdx c |}.

(** [ApplyClaims] when nothing happens meanwhile; [None] is the nil contract. *)
Definition ApplyClaims (expectedRevision : Z) (claims : list CompletionClaim)
    (resolveEvidence : option resolver) (c : option CompletionContract)
    : result CompletionContractError CompletionContract :=
  match c with
  | None => Err (completionContractError CompletionErrorInvalidContract "contract" "")
  | Some c =>
      prepared ← begin_claims expectedRevision claims c;
      _ ← resolve_claims resolveEvidence (runID c) prepared;
      commit_claims expectedRevision prepared c
  end.

(** ** Status and snapshots *)

Fixpoint status_loop (crs : list completionCriterion) (allSatisfied : bool) : string :=
  match crs with
  | [] => if allSatisfied then CompletionStatusComplete else CompletionStatusIncomplete
  | cr :: crs' =>
      if String.eqb (cr_state cr) CompletionClaimBlocked then CompletionStatusBlocked
      else status_loop crs' (allSatisfied && String.eqb (cr_state cr) CompletionClaimSatisfied)
  end.
Definition completionStatusLocked (crs : list completionCriterion) : string :=
  match crs with [] => CompletionStatusIncomplete | _ => status_loop crs true end.

Definition Status (c : option CompletionContract) : string :=
  match c with Some c => completionStatusLocked (criteria c) | None => CompletionStatusIncomplete end.
Definition Revision (c : option CompletionContract) : Z := match c with Some c => revision c | None => 0 end.
Definition CriterionText (id : string) (c : option CompletionContract) : option string :=
  c ← c; index ← criterionIdx c !! id; cr_text <$> criteria c !! index.

Record CompletionContractSnapshot := {
  SnVersion : Z;
  SnRunID : string;
  SnPlanRevision : Z;
  SnRevision : Z;
  SnStatus : string;
  SnCriteria : list completionCriterion;
}.

(** A criterion's snapshot has its fields, the text redacted. *)
Definition criterion_snapshot (cr : completionCriterion) : completionCriterion :=
  {| cr_id := cr_id cr; cr_text := completionReceiptText (cr_text cr) maxCompletionCriterionTextBytes;
     evidenceRequired := evidenceRequired cr; cr_state := cr_state cr; cr_digest := cr_digest cr;
     cr_summary := cr_summary cr; cr_assertion := cr_assertion cr; claimRevision := claimRevision cr |}.

Definition Snapshot (c : option CompletionContract)
    : result CompletionContractError CompletionContractSnapshot :=
  let invalid := Err (completionContractError CompletionErrorInvalidContract "contract" "") in
  match c with
  | None => invalid
  | Some c =>
      if String.eqb (runID c) "" || (length (criteria c) =? 0)%nat ||
         negb (size (criterionIdx c) =? length (criteria c))%nat then invalid
      else Ok {| SnVersion := 1; SnRunID := completionReceiptText (runID c) maxCompletionRunIDBytes;
                 SnPlanRevision := planRevision c; SnRevision := revision c;
                 SnStatus := completionStatusLocked (criteria c);
                 SnCriteria := map criterion_snapshot (criteria c) |}
  end.

(** ** What a claim may become *)

(** The fields of a criterion fit its state. *)
Definition criterion_ok (cr : completionCriterion) : Prop :=
  known_state (cr_state cr) = true ∧
  (cr_digest cr = "" ∨ validCompletionEvidenceDigest (cr_digest cr) = true) ∧
  check_claim_state (evidenceRequired cr) (cr_state cr) (cr_digest cr) (cr_summary cr) (cr_assertion cr)
    (cr_id cr) = Ok tt.

Record contract_ok (c : CompletionContract) : Prop := {
  ok_run : runID c ≠ "";
  ok_count : (1 ≤ length (criteria c) ≤ 256)%nat;
  ok_size : size (criterionIdx c) = length (criteria c);
  ok_index id i : criterionIdx c !! id = Some i ↔ cr_id <$> criteria c !! i = Some id;
  ok_id i cr : criteria c !! i = Some cr → CompletionCriterionID (cr_text cr) = Ok (cr_id cr);
  ok_criterion i cr : criteria c !! i = Some cr → criterion_ok cr;
  ok_claimed i cr : criteria c !! i = Some cr → 0 ≤ claimRevision cr ≤ revision c;
  ok_revision : 0 ≤ revision c ≤ max_uint64;
}.

Lemma check_claim_state_id required state digest summary assertion id id' :
  check_claim_state required state digest summary assertion id = Ok tt →
  check_claim_state required state digest summary assertion id' = Ok tt.
Proof. unfold check_claim_state. intros H. repeat case_match; done. Qed.

(** What a prepared claim stands for. *)
Record prepared_ok (c : CompletionContract) (claim : CompletionClaim) (p : preparedCompletionClaim) : Prop := {
  pr_id : pc_id p = ClCriterionID claim;
  pr_valid : validCompletionCriterionID (pc_id p) = true;
  pr_index : criterionIdx c !! pc_id p = Some (criterionIndex p);
  pr_state : pc_state p = ClState claim ∧ known_state (pc_state p) = true;
  pr_digest : pc_digest p = ClEvidenceDigest claim ∧
    (pc_digest p = "" ∨ validCompletionEvidenceDigest (pc_digest p) = true);
  pr_criterion : ∃ cr, criteria c !! criterionIndex p = Some cr ∧ cr_state cr ≠ pc_state p ∧
    check_claim_state (evidenceRequired cr) (pc_state p) (pc_digest p) (pc_summary p) (pc_assertion p)
      (pc_id p) = Ok tt;
}.

Lemma prepareClaimLocked_ok c claim p : prepareClaimLocked c claim = Ok p → prepared_ok c claim p.
Proof.
  unfold prepareClaimLocked. intros H. repeat (case_match; [discriminate|]).
  destruct (criterionIdx c !! _) as [index|] eqn:Hi; [|done].
  destruct (criteria c !! index) as [cr|] eqn:Hc; [|done].
  repeat (case_match; [discriminate|]). apply result_bind_ok in H as ([] & Hck & H).
  destruct (String.eqb_spec (ClState claim) (cr_state cr)) as [|Hne]; [done|].
  simplify_eq/=. split_bools. split; simpl; try done.
  - split; [done|]. destruct (String.eqb_spec (trim_space (ClEvidenceDigest claim)) "") as [->|Hd]; [by left|].
    right. match goal with H : negb _ && _ = false |- _ => apply andb_false_iff in H as [H|H] end; split_bools; done.
  - exists cr. by split_and!.
Qed.

Lemma prepare_claims_ok c claims seen prepared :
  prepare_claims c claims seen = Ok prepared →
  Forall2 (prepared_ok c) claims prepared ∧ NoDup (map pc_id prepared) ∧
  ∀ p, p ∈ prepared → seen !! pc_id p = None.
Proof.
  revert seen prepared. induction claims as [|claim claims IH]; simpl; intros seen prepared H.
  { simplify_eq. split_and!; [constructor..|]. intros p Hp. by apply not_elem_of_nil in Hp. }
  apply result_bind_ok in H as (p & Hp & H). destruct (seen !! pc_id p) eqn:Hs; [done|].
  apply result_bind_ok in H as (rest & Hr & H). simplify_eq.
  destruct (IH _ _ Hr) as (H1 & H2 & H3). split_and!.
  - constructor; [by apply prepareClaimLocked_ok|done].
  - simpl. apply list.NoDup_cons. split; [|done]. intros Hin. apply list_elem_of_fmap in Hin as (q & Hq & Hin).
    specialize (H3 q Hin). rewrite <-Hq, lookup_insert_eq in H3. done.
  - intros q [->|Hq]%elem_of_cons; [done|]. specialize (H3 q Hq). by apply lookup_insert_None in H3 as [? _].
Qed.

Lemma begin_claims_ok e claims c prepared :
  begin_claims e claims c = Ok prepared →
  e = revision c ∧ revision c ≠ max_uint64 ∧ claims ≠ [] ∧
  Forall2 (prepared_ok c) claims prepared ∧ NoDup (map pc_id prepared).
Proof.
  unfold begin_claims, prepareClaimsLocked. intros H. destruct (Z.eqb_spec e (revision c)); [|done].
  destruct (Z.eqb_spec (revision c) max_uint64); [done|]. cbn [negb] in H.
  destruct claims as [|claim claims]; [done|]. case_match; [done|]. case_match; [done|].
  destruct (prepare_claims_ok _ _ _ _ H) as (? & ? & _). done.
Qed.

(** The indexes of prepared claims are as distinct as their identifiers. *)
Lemma prepared_indexes c claims prepared :
  contract_ok c → Forall2 (prepared_ok c) claims prepared → NoDup (map pc_id prepared) →
  NoDup (map criterionIndex prepared).
Proof.
  intros Hok. induction 1 as [|claim p claims prepared Hp Hps IH]; simpl; [intros _; constructor|].
  intros [Hn Hnd]%list.NoDup_cons. apply list.NoDup_cons. split; [|auto]. intros Hin. apply Hn.
  apply list_elem_of_fmap in Hin as (q & Hq & Hin). apply list_elem_of_fmap. exists q. split; [|done].
  apply list_elem_of_lookup in Hin as (j & Hj). destruct (Forall2_lookup_r _ _ _ _ _ Hps Hj) as (claim' & _ & Hq').
  pose proof (pr_index _ _ _ Hp) as H1. pose proof (pr_index _ _ _ Hq') as H2.
  apply (ok_index c Hok) in H1, H2. congruence.
Qed.

Abbreviation commit_criteria next prepared cs :=
  (fold_left (λ crs claim, alter (claim_criterion next claim) (criterionIndex claim) crs) prepared cs)
  (only parsing).

Lemma commit_other next (prepared : list preparedCompletionClaim) (crs : list completionCriterion) (i : nat) :
  i ∉ map criterionIndex prepared → commit_criteria next prepared crs !! i = crs !! i.
Proof.
  revert crs. induction prepared as [|p prepared IH]; simpl; intros crs Hi; [done|].
  apply not_elem_of_cons in Hi as [Hne Hi]. rewrite IH by done. by apply list_lookup_alter_ne.
Qed.

Lemma commit_claimed next (prepared : list preparedCompletionClaim) (crs : list completionCriterion) p :
  NoDup (map criterionIndex prepared) → p ∈ prepared →
  commit_criteria next prepared crs !! criterionIndex p =
    (claim_criterion next p <$> crs !! criterionIndex p).
Proof.
  revert crs. induction prepared as [|q prepared IH]; simpl; intros crs Hnd Hp; [by apply not_elem_of_nil in Hp|].
  apply list.NoDup_cons in Hnd as [Hn Hnd]. apply elem_of_cons in Hp as [->|Hp].
  - rewrite commit_other by done. apply list_lookup_alter_eq.
  - rewrite IH, list_lookup_alter_ne by (try done; intros He; apply Hn, list_elem_of_fmap; by eexists). done.
Qed.

Lemma commit_length next (prepared : list preparedCompletionClaim) (crs : list completionCriterion) :
  length (commit_criteria next prepared crs) = length crs.
Proof.
  revert crs. induction prepared as [|p prepared IH]; simpl; intros crs; [done|]. by rewrite IH, length_alter.
Qed.

(** Each criterion is either claimed by exactly one prepared claim or untouched. *)
Lemma commit_cases next (prepared : list preparedCompletionClaim) (crs : list completionCriterion) (i : nat) :
  NoDup (map criterionIndex prepared) →
  (i ∉ map criterionIndex prepared ∧ commit_criteria next prepared crs !! i = crs !! i) ∨
  ∃ p, p ∈ prepared ∧ criterionIndex p = i ∧
       commit_criteria next prepared crs !! i = (claim_criterion next p <$> crs !! i).
Proof.
  intros Hnd. destruct (decide (i ∈ map criterionIndex prepared)) as [Hin|Hn].
  - right. apply list_elem_of_fmap in Hin as (p & -> & Hp). exists p. split_and!; [done..|].
    by apply commit_claimed.
  - left. split; [done|]. by apply commit_other.
Qed.

Lemma criterion_id_same next p cr : cr_id (claim_criterion next p cr) = cr_id cr.
Proof. done. Qed.

Lemma commit_lookup_id next (prepared : list preparedCompletionClaim) (crs : list completionCriterion) (i : nat) :
  NoDup (map criterionIndex prepared) →
  (cr_id <$> commit_criteria next prepared crs !! i) = (cr_id <$> crs !! i).
Proof.
  intros Hnd. destruct (commit_cases next prepared crs i Hnd) as [[_ ->]|(p & _ & _ & ->)]; [done|].
  by destruct (crs !! i).
Qed.

Lemma commit_ok e claims prepared c c' :
  contract_ok c → begin_claims e claims c = Ok prepared → commit_claims e prepared c = Ok c' →
  contract_ok c' ∧ revision c' = revision c + 1 ∧ runID c' = runID c ∧
  criteria c' = commit_criteria (revision c') prepared (criteria c).
Proof.
  intros Hok Hb H. apply begin_claims_ok in Hb as (-> & Hmax & _ & Hps & Hnd).
  pose proof (prepared_indexes _ _ _ Hok Hps Hnd) as Hix. pose proof (ok_revision _ Hok) as Hrev.
  unfold commit_claims in H. rewrite Z.eqb_refl in H. cbn [negb] in H.
  rewrite wrap_u64_id in H by lia. injection H as <-. simpl. split_and!; [|done..].
  assert (Hcases : ∀ i cr', commit_criteria (revision c + 1) prepared (criteria c) !! i = Some cr' →
    criteria c !! i = Some cr' ∨ ∃ claim p cr, prepared_ok c claim p ∧ criterionIndex p = i ∧
      criteria c !! i = Some cr ∧ cr' = claim_criterion (revision c + 1) p cr).
  { intros i cr' Hi. destruct (commit_cases (revision c + 1) prepared (criteria c) i Hix)
      as [[_ He]|(p & Hp & Hpi & He)]; rewrite He in Hi; [by left|]. right.
    apply fmap_Some in Hi as (cr & Hcr & ->). apply list_elem_of_lookup in Hp as (j & Hj).
    destruct (Forall2_lookup_r _ _ _ _ _ Hps Hj) as (claim & _ & Hp). eauto 8. }
  split; simpl.
  - apply Hok.
  - rewrite commit_length. apply Hok.
  - rewrite commit_length. apply Hok.
  - intros id i. rewrite commit_lookup_id by done. apply Hok.
  - intros i cr' [Hi|(claim & p & cr & _ & _ & Hi & ->)]%Hcases; [by apply (ok_id c Hok i)|].
    apply (ok_id c Hok i cr Hi).
  - intros i cr' [Hi|(claim & p & cr & Hp & <- & Hi & ->)]%Hcases; [by apply (ok_criterion c Hok i)|].
    destruct Hp as [_ _ _ [_ Hk] [_ Hd] (cr0 & Hi0 & _ & Hck)]. rewrite Hi in Hi0. simplify_eq.
    split_and!; [done|done|]. by eapply check_claim_state_id.
  - intros i cr' [Hi|(claim & p & cr & Hp & <- & Hi & ->)]%Hcases; simpl; [|lia].
    pose proof (ok_claimed c Hok i _ Hi). lia.
  - lia.
Qed.

Lemma status_loop_spec (crs : list completionCriterion) b :
  (status_loop crs b = CompletionStatusComplete ↔
     b = true ∧ ∀ cr, cr ∈ crs → cr_state cr = CompletionClaimSatisfied) ∧
  (status_loop crs b = CompletionStatusBlocked ↔
     ∃ cr, cr ∈ crs ∧ cr_state cr = CompletionClaimBlocked).
Proof.
  revert b. induction crs as [|cr crs IH]; intros b; simpl.
  { setoid_rewrite elem_of_nil. destruct b; naive_solver. }
  setoid_rewrite elem_of_cons. destruct (String.eqb_spec (cr_state cr) CompletionClaimBlocked) as [Hb|Hb].
  - split; [|naive_solver]. split; [done|]. intros [_ Hall]. specialize (Hall cr (or_introl eq_refl)).
    rewrite Hb in Hall. done.
  - destruct (IH (b && String.eqb (cr_state cr) CompletionClaimSatisfied)) as [-> ->]. split.
    + rewrite andb_true_iff, String.eqb_eq. naive_solver.
    + naive_solver.
Qed.

(** [Status], read off the criteria. *)
Lemma Status_spec c :
  (Status (Some c) = CompletionStatusComplete ↔
     criteria c ≠ [] ∧ ∀ cr, cr ∈ criteria c → cr_state cr = CompletionClaimSatisfied) ∧
  (Status (Some c) = CompletionStatusBlocked ↔
     ∃ cr, cr ∈ criteria c ∧ cr_state cr = CompletionClaimBlocked).
Proof.
  unfold Status, completionStatusLocked. destruct (criteria c) as [|cr crs].
  { setoid_rewrite elem_of_nil. naive_solver. }
  destruct (status_loop_spec (cr :: crs) true) as [-> ->]. naive_solver.
Qed.

Lemma Status_cases c :
  Status (Some c) ≠ CompletionStatusComplete → Status (Some c) ≠ CompletionStatusBlocked →
  Status (Some c) = CompletionStatusIncomplete.
Proof.
  unfold Status, completionStatusLocked. destruct (criteria c) as [|cr crs]; [done|].
  generalize true, (cr :: crs). intros b l. revert b. induction l as [|x l IH]; intros b; simpl.
  - by destruct b.
  - case_match; [done|]. apply IH.
Qed.

Lemma add_criteria_ok optional texts (crs : list completionCriterion) idx crs' idx' :
  add_criteria optional texts crs idx = Ok (crs', idx') →
  size idx = length crs →
  (∀ id (i : nat), idx !! id = Some i ↔ (cr_id <$> crs !! i) = Some id) →
  (∀ (i : nat) cr, crs !! i = Some cr → CompletionCriterionID (cr_text cr) = Ok (cr_id cr)) →
  (∀ (i : nat) cr, crs !! i = Some cr → criterion_ok cr ∧ cr_state cr = CompletionClaimPending ∧ claimRevision cr = 0) →
  length crs' = (length crs + length texts)%nat ∧ size idx' = length crs' ∧
  (∀ id (i : nat), idx' !! id = Some i ↔ (cr_id <$> crs' !! i) = Some id) ∧
  (∀ (i : nat) cr, crs' !! i = Some cr → CompletionCriterionID (cr_text cr) = Ok (cr_id cr)) ∧
  (∀ (i : nat) cr, crs' !! i = Some cr → criterion_ok cr ∧ cr_state cr = CompletionClaimPending ∧ claimRevision cr = 0).
Proof.
  revert crs idx. induction texts as [|text texts IH]; simpl; intros crs idx H Hsz Hix Hid Hcr.
  { simplify_eq. split_and!; [lia|done..]. }
  repeat (case_match; [discriminate|]). apply result_bind_ok in H as (id & Hti & H).
  destruct (idx !! id) eqn:Hno; [done|].
  apply IH in H as (L1 & L2 & L3 & L4 & L5).
  - split_and!; [|done..]. rewrite L1, length_app. simpl. lia.
  - rewrite map_size_insert_None, length_app by done. simpl. lia.
  - intros id' i. rewrite lookup_insert_Some, Hix. destruct (Nat.lt_trichotomy i (length crs)) as [Hi|[->|Hi]].
    + rewrite lookup_app_l by done. split; [intros [[<- ?]|[_ ?]]; [lia|done]|]. intros He. right.
      split; [|done]. intros <-. apply Hix in He. congruence.
    + rewrite list_lookup_middle by done. rewrite (lookup_ge_None_2 crs) by lia. simpl.
      split; [intros [[-> _]|[_ ?]]; done|]. intros [= ->]. by left.
    + rewrite lookup_app_r by lia. rewrite (lookup_ge_None_2 crs) by lia.
      destruct (i - length crs)%nat as [|k] eqn:Ek; [lia|]. simpl.
      split; [intros [[_ ?]|[_ ?]]; [lia|done]|done].
  - intros i cr [Hi|[_ Hi]]%lookup_app_Some; [by apply (Hid i)|].
    apply list_lookup_singleton_Some in Hi as [_ <-]. done.
  - intros i cr [Hi|[_ Hi]]%lookup_app_Some; [by apply (Hcr i)|].
    apply list_lookup_singleton_Some in Hi as [_ <-]. split; [|done]. split_and!; [done|by left|done].
Qed.

Lemma NewCompletionContract_ok spec c :
  NewCompletionContract spec = Ok c →
  contract_ok c ∧ revision c = 0 ∧
  ∀ i cr, criteria c !! i = Some cr → cr_state cr = CompletionClaimPending.
Proof.
  unfold NewCompletionContract. intros H.
  destruct (String.eqb_spec (trim_space (SpecRunID spec)) "") as [|Hrun]; [done|].
  repeat (case_match; [discriminate|]). apply result_bind_ok in H as (optional & _ & H).
  apply result_bind_ok in H as ([crs idx] & Ha & H). simplify_eq/=.
  apply add_criteria_ok in Ha as (L1 & L2 & L3 & L4 & L5).
  - split.
    + assert (Hlen : (1 ≤ length crs ≤ 256)%nat).
      { rewrite L1. simpl. unfold maxCompletionCriteria in *.
        match goal with H : (length _ =? 0)%nat = false |- _ => apply Nat.eqb_neq in H end.
        match goal with H : (256 <? _) = false |- _ => apply Z.ltb_ge in H end. lia. }
      split; simpl; try done.
      * intros i cr Hi. by apply (L5 i).
      * intros i cr Hi. destruct (L5 i cr Hi) as (_ & _ & ->). lia.
    + split; [done|]. intros i cr Hi. by apply (L5 i).
  - by rewrite map_size_empty.
  - intros id i. rewrite lookup_empty, lookup_nil. done.
  - intros i cr. by rewrite lookup_nil.
  - intros i cr. by rewrite lookup_nil.
Qed.

(** ** Calls in flight *)

Section calls.
Context {S : Type} `{EvidenceStore S}.

(** Where a call of [ApplyClaims] is: not begun, outside the lock with claims still
    to resolve, or returned. *)
Inductive CallState :=
| Beginning
| Resolving (prepared todo : list preparedCompletionClaim)
| Returned (answer : result CompletionContractError unit).

Record ClaimCall := {
  ca_expected : Z;
  ca_claims : list CompletionClaim;
  ca_state : CallState;
}.

Record ClaimSystem := {
  sy_contract : CompletionContract;
  sy_store : S;
  sy_calls : list ClaimCall;
}.

Definition call_at (e : Z) (claims : list CompletionClaim) (st : CallState) : ClaimCall :=
  {| ca_expected := e; ca_claims := claims; ca_state := st |}.

(** A resolver may fail and may miss evidence, but confirms only what the store holds. *)
Definition faithful (s : S) (resolve : option resolver) : Prop :=
  match resolve with
  | None => True
  | Some f => ∀ run d, f run d = Ok true → es_resolve s run d = true
  end.
Definition honest (s : S) : option resolver := Some (λ run d, Ok (es_resolve s run d)).

(** The first phase of a call, its confirmation of one claim, and its last phase. *)
Definition after_begin (e : Z) (claims : list CompletionClaim) (c : CompletionContract) : CallState :=
  match begin_claims e claims c with
  | Ok prepared => Resolving prepared prepared
  | Err err => Returned (Err err)
  end.
Definition after_resolve (resolve : option resolver) (run : string)
    (prepared : list preparedCompletionClaim) (claim : preparedCompletionClaim)
    (todo : list preparedCompletionClaim) : CallState :=
  match resolve_claim resolve run claim with
  | Ok _ => Resolving prepared todo
  | Err err => Returned (Err err)
  end.
Definition after_commit (e : Z) (prepared : list preparedCompletionClaim) (c : CompletionContract)
    : CompletionContract * CallState :=
  match commit_claims e prepared c with
  | Ok c' => (c', Returned (Ok tt))
  | Err err => (c, Returned (Err err))
  end.

Inductive claim_step : ClaimSystem → ClaimSystem → Prop :=
| claim_store c s s' calls :
    es_step s s' → claim_step (Build_ClaimSystem c s calls) (Build_ClaimSystem c s' calls)
| claim_issue c s calls e claims :
    claim_step (Build_ClaimSystem c s calls) (Build_ClaimSystem c s (calls ++ [call_at e claims Beginning]))
| claim_begin c s calls i e claims :
    calls !! i = Some (call_at e claims Beginning) →
    claim_step (Build_ClaimSystem c s calls)
      (Build_ClaimSystem c s (<[i := call_at e claims (after_begin e claims c)]> calls))
| claim_resolve c s calls i e claims prepared claim todo resolve :
    calls !! i = Some (call_at e claims (Resolving prepared (claim :: todo))) → faithful s resolve →
    claim_step (Build_ClaimSystem c s calls)
      (Build_ClaimSystem c s
        (<[i := call_at e claims (after_resolve resolve (runID c) prepared claim todo)]> calls))
| claim_commit c s calls i e claims prepared :
    calls !! i = Some (call_at e claims (Resolving prepared [])) →
    claim_step (Build_ClaimSystem c s calls)
      (Build_ClaimSystem (after_commit e prepared c).1 s
        (<[i := call_at e claims (after_commit e prepared c).2]> calls)).

(** The specification: a call takes effect at one instant, all of it or nothing,
    against the store of that instant. *)
Record AtomicCall := {
  at_expected : Z;
  at_claims : list CompletionClaim;
  at_answer : option (result CompletionContractError unit);
}.
Record AtomicSystem := {
  at_contract : CompletionContract;
  at_store : S;
  at_calls : list AtomicCall;
}.

Inductive atomic_step : AtomicSystem → AtomicSystem → Prop :=
| atomic_store c s s' calls :
    es_step s s' → atomic_step (Build_AtomicSystem c s calls) (Build_AtomicSystem c s' calls)
| atomic_issue c s calls e claims :
    atomic_step (Build_AtomicSystem c s calls) (Build_AtomicSystem c s (calls ++ [Build_AtomicCall e claims None]))
| atomic_fail c s calls i e claims err :
    calls !! i = Some (Build_AtomicCall e claims None) →
    atomic_step (Build_AtomicSystem c s calls)
      (Build_AtomicSystem c s (<[i := Build_AtomicCall e claims (Some (Err err))]> calls))
| atomic_apply c c' s calls i e claims :
    calls !! i = Some (Build_AtomicCall e claims None) →
    ApplyClaims e claims (honest s) (Some c) = Ok c' →
    atomic_step (Build_AtomicSystem c s calls)
      (Build_AtomicSystem c' s (<[i := Build_AtomicCall e claims (Some (Ok tt))]> calls)).

Definition answer_of (st : CallState) : option (result CompletionContractError unit) :=
  match st with Returned r => Some r | _ => None end.
Definition abstract_call (k : ClaimCall) : AtomicCall :=
  Build_AtomicCall (ca_expected k) (ca_claims k) (answer_of (ca_state k)).
Definition abstract_system (x : ClaimSystem) : AtomicSystem :=
  Build_AtomicSystem (sy_contract x) (sy_store x) (map abstract_call (sy_calls x)).

(** *** The invariant *)

Definition confirmed (s : S) (run : string) (p : preparedCompletionClaim) : Prop :=
  cites_evidence p = true → es_resolve s run (pc_digest p) = true.

Definition call_ok (c : CompletionContract) (s : S) (k : ClaimCall) : Prop :=
  match ca_state k with
  | Beginning | Returned (Err _) => True
  | Resolving prepared todo =>
      ca_expected k ≤ revision c ∧
      (ca_expected k = revision c → begin_claims (ca_expected k) (ca_claims k) c = Ok prepared) ∧
      ∃ done_, prepared = done_ ++ todo ∧ Forall (confirmed s (runID c)) done_
  | Returned (Ok _) => ca_expected k < revision c
  end.

(** A criterion that cites evidence cites some that the store confirms. *)
Definition evidence_held (s : S) (run : string) (cr : completionCriterion) : Prop :=
  cr_state cr = CompletionClaimSatisfied → cr_digest cr ≠ "" → es_resolve s run (cr_digest cr) = true.

Definition succeeded (k : ClaimCall) : bool :=
  match ca_state k with Returned (Ok _) => true | _ => false end.

Record system_ok (x : ClaimSystem) : Prop := {
  sys_contract : contract_ok (sy_contract x);
  sys_store : es_ok (sy_store x);
  sys_evidence : Forall (evidence_held (sy_store x) (runID (sy_contract x))) (criteria (sy_contract x));
  sys_calls i k : sy_calls x !! i = Some k → call_ok (sy_contract x) (sy_store x) k;
  sys_winner i j k k' : sy_calls x !! i = Some k → sy_calls x !! j = Some k' →
    succeeded k = true → succeeded k' = true → ca_expected k = ca_expected k' → i = j;
  sys_revision : revision (sy_contract x) = Z.of_nat (countb succeeded (sy_calls x));
}.

Lemma confirmed_store s s' run p :
  es_ok s → es_step s s' → confirmed s run p → confirmed s' run p.
Proof. unfold confirmed. intros Hok Hst Hc Hp. eapply es_stable; eauto. Qed.

Lemma call_ok_store c s s' k : es_ok s → es_step s s' → call_ok c s k → call_ok c s' k.
Proof.
  unfold call_ok. intros Hok Hst Hk. destruct (ca_state k) as [|prepared todo|[]]; try done.
  destruct Hk as (H1 & H2 & done_ & H3 & H4). split_and!; [done..|]. exists done_. split; [done|].
  revert H4. apply List.Forall_impl. intros p. by apply confirmed_store.
Qed.

Lemma call_ok_revision c c' s k :
  runID c' = runID c → revision c < revision c' → call_ok c s k → call_ok c' s k.
Proof.
  unfold call_ok. intros Hr Hlt Hk. destruct (ca_state k) as [|prepared todo|[]]; try done; [|lia].
  destruct Hk as (H1 & H2 & H3). rewrite Hr. split_and!; [lia| |done]. lia.
Qed.

(** A call that does not succeed moves on. *)
Lemma system_ok_call c s calls i k k' :
  system_ok (Build_ClaimSystem c s calls) → calls !! i = Some k → succeeded k = false → succeeded k' = false →
  call_ok c s k' → system_ok (Build_ClaimSystem c s (<[i := k']> calls)).
Proof.
  intros [H1 H2 H3 H4 H5 H6] Hi Hk Hk' Hok. simpl in *.
  assert (Hlook : ∀ j x, <[i := k']> calls !! j = Some x → calls !! j = Some x ∨ x = k').
  { intros j x Hj. destruct (decide (i = j)) as [->|Hne]; [|rewrite list_lookup_insert_ne in Hj by done; by left].
    rewrite list_lookup_insert_eq in Hj by (by eapply lookup_lt_Some). right. congruence. }
  split; simpl; try done.
  - intros j x Hj. destruct (Hlook j x Hj) as [Hj'| ->]; [by apply (H4 j)|done].
  - intros j1 j2 k1 k2 Hj1 Hj2 Hs1 Hs2. destruct (Hlook _ _ Hj1) as [Hj1'| ->]; [|congruence].
    destruct (Hlook _ _ Hj2) as [Hj2'| ->]; [|congruence]. by apply (H5 j1 j2 k1 k2).
  - rewrite H6. f_equal. pose proof (countb_insert succeeded calls i k k' Hi) as Hc.
    rewrite Hk, Hk' in Hc. lia.
Qed.

Lemma honest_resolves s run prepared :
  Forall (confirmed s run) prepared → resolve_claims (honest s) run prepared = Ok tt.
Proof.
  induction 1 as [|p prepared Hp _ IH]; simpl; [done|]. unfold resolve_claim.
  destruct (cites_evidence p) eqn:Hc; simpl; [|done]. by rewrite (Hp Hc).
Qed.

Lemma resolve_claims_confirmed resolve run prepared p :
  resolve_claims resolve run prepared = Ok tt → p ∈ prepared →
  pc_state p = CompletionClaimSatisfied → pc_digest p ≠ "" →
  ∃ f, resolve = Some f ∧ f run (pc_digest p) = Ok true.
Proof.
  induction prepared as [|q prepared IH]; simpl; intros Hres Hin Hst Hd; [by apply not_elem_of_nil in Hin|].
  apply result_bind_ok in Hres as ([] & Hq & Hres). apply elem_of_cons in Hin as [->|Hin]; [|by apply IH].
  unfold resolve_claim, cites_evidence in Hq. rewrite Hst, String.eqb_refl in Hq.
  destruct (String.eqb_spec (pc_digest q) ""); [done|]. simpl in Hq. destruct resolve as [f|]; [|done].
  exists f. split; [done|]. destruct (f run (pc_digest q)) as [[]|]; done.
Qed.

(** A commit is a whole [ApplyClaims] at that instant. *)
Lemma commit_atomic c s e claims prepared c' :
  call_ok c s (call_at e claims (Resolving prepared [])) → commit_claims e prepared c = Ok c' →
  begin_claims e claims c = Ok prepared ∧ ApplyClaims e claims (honest s) (Some c) = Ok c'.
Proof.
  intros (_ & Hb & done_ & -> & Hd) Hc. simpl in *. rewrite app_nil_r in *.
  assert (He : e = revision c).
  { unfold commit_claims in Hc. by destruct (Z.eqb_spec (revision c) e). }
  rewrite (Hb He). simpl. by rewrite honest_resolves.
Qed.

Lemma commit_evidence c s e claims prepared c' :
  contract_ok c → begin_claims e claims c = Ok prepared → commit_claims e prepared c = Ok c' →
  Forall (confirmed s (runID c)) prepared → Forall (evidence_held s (runID c)) (criteria c) →
  Forall (evidence_held s (runID c')) (criteria c').
Proof.
  intros Hok Hb Hc Hp Hev. destruct (commit_ok _ _ _ _ _ Hok Hb Hc) as (_ & _ & -> & ->).
  apply begin_claims_ok in Hb as (_ & _ & _ & Hps & Hnd). apply Forall_lookup. intros i cr Hi.
  destruct (commit_cases (revision c') prepared (criteria c) i (prepared_indexes _ _ _ Hok Hps Hnd))
    as [[_ He]|(p & Hin & _ & He)]; rewrite He in Hi.
  - by apply (Forall_lookup_1 _ _ _ _ Hev Hi).
  - apply fmap_Some in Hi as (cr0 & _ & ->). rewrite Forall_elem in Hp. specialize (Hp p Hin).
    intros Hst Hd. apply Hp. unfold cites_evidence. simpl in *. rewrite Hst, String.eqb_refl.
    by destruct (String.eqb_spec (pc_digest p) "").
Qed.

Lemma system_ok_commit c s calls i e claims prepared c' :
  system_ok (Build_ClaimSystem c s calls) →
  calls !! i = Some (call_at e claims (Resolving prepared [])) → commit_claims e prepared c = Ok c' →
  system_ok (Build_ClaimSystem c' s (<[i := call_at e claims (Returned (Ok tt))]> calls)).
Proof.
  intros [H1 H2 H3 H4 H5 H6] Hi Hc. simpl in *. pose proof (H4 i _ Hi) as Hk.
  destruct (commit_atomic _ _ _ _ _ _ Hk Hc) as [Hb _]. destruct (commit_ok _ _ _ _ _ H1 Hb Hc) as (Hok & Hrev & Hrun & _).
  pose proof (begin_claims_ok _ _ _ _ Hb) as (-> & _).
  destruct Hk as (_ & _ & done_ & Hd & Hconf). rewrite app_nil_r in Hd. subst done_.
  assert (Hlook : ∀ j x, <[i := call_at (revision c) claims (Returned (Ok tt))]> calls !! j = Some x →
    (j ≠ i ∧ calls !! j = Some x) ∨ (j = i ∧ x = call_at (revision c) claims (Returned (Ok tt)))).
  { intros j x [(-> & -> & _)|[? ?]]%list_lookup_insert_Some; auto. }
  assert (Hold : ∀ j x, calls !! j = Some x → succeeded x = true → ca_expected x < revision c).
  { intros j x Hj Hs. specialize (H4 j x Hj). unfold call_ok, succeeded in *.
    destruct (ca_state x) as [| |[]]; done. }
  split; simpl; try done.
  - by apply (commit_evidence c s (revision c) claims prepared c').
  - intros j x [[_ Hj]|[_ ->]]%Hlook; [|unfold call_ok; simpl; lia].
    apply (call_ok_revision c); [done|lia|by apply (H4 j)].
  - intros j1 j2 k1 k2 Hj1 Hj2 Hs1 Hs2 He.
    destruct (Hlook _ _ Hj1) as [[Hn1 Hj1']|[-> ->]], (Hlook _ _ Hj2) as [[Hn2 Hj2']|[-> ->]]; [|..|done].
    + by apply (H5 j1 j2 k1 k2).
    + specialize (Hold _ _ Hj1' Hs1). simpl in He. lia.
    + specialize (Hold _ _ Hj2' Hs2). simpl in He. lia.
  - pose proof (countb_insert succeeded calls i _ (call_at (revision c) claims (Returned (Ok tt))) Hi) as Hcnt.
    simpl in Hcnt. lia.
Qed.

Lemma abstract_insert calls i k :
  map abstract_call (<[i := k]> calls) = <[i := abstract_call k]> (map abstract_call calls).
Proof. apply list_fmap_insert. Qed.

Lemma abstract_same calls i k k' :
  calls !! i = Some k → abstract_call k' = abstract_call k →
  map abstract_call (<[i := k']> calls) = map abstract_call calls.
Proof.
  intros Hi He. rewrite abstract_insert, He. apply list_insert_id. by apply list_lookup_fmap_Some; exists k.
Qed.

(** Every step keeps the invariant and is a step of the specification, or none. *)
Lemma claim_step_simulates x y :
  system_ok x → claim_step x y →
  system_ok y ∧ (abstract_system y = abstract_system x ∨ atomic_step (abstract_system x) (abstract_system y)).
Proof.
  intros Hok Hst. destruct Hst as [c s s' calls Hs|c s calls e claims|c s calls i e claims Hi
    |c s calls i e claims prepared claim todo resolve Hi Hf|c s calls i e claims prepared Hi].
  - split; [|right; by apply atomic_store]. destruct Hok as [H1 H2 H3 H4 H5 H6]. simpl in *.
    split; simpl; try done; [by eapply es_preserved| |].
    + revert H3. apply List.Forall_impl. intros cr Hcr Hsat Hd. eapply es_stable; eauto.
    + intros i k Hi. eapply call_ok_store; eauto.
  - split; [|right; unfold abstract_system; simpl; rewrite map_app; by apply atomic_issue].
    destruct Hok as [H1 H2 H3 H4 H5 H6]. simpl in *.
    assert (Hlook : ∀ j k, (calls ++ [call_at e claims Beginning]) !! j = Some k →
      calls !! j = Some k ∨ k = call_at e claims Beginning).
    { intros j k [?|[_ Hj]]%lookup_app_Some; [by left|]. apply list_lookup_singleton_Some in Hj as [_ <-]. by right. }
    split; simpl; try done.
    + intros j k [Hj| ->]%Hlook; [by apply (H4 j)|done].
    + intros j1 j2 k1 k2 Hj1 Hj2 Hs1 Hs2. destruct (Hlook _ _ Hj1) as [Hj1'| ->]; [|done].
      destruct (Hlook _ _ Hj2) as [Hj2'| ->]; [|done]. by apply (H5 j1 j2 k1 k2).
    + rewrite countb_app. simpl. lia.
  - unfold after_begin. destruct (begin_claims e claims c) as [prepared|err] eqn:Hb.
    + split; [|left; unfold abstract_system; simpl; by rewrite (abstract_same _ _ _ _ Hi)].
      eapply system_ok_call; [done|exact Hi|done|done|]. pose proof (begin_claims_ok _ _ _ _ Hb) as (-> & _).
      split_and!; simpl; [lia|done|]. exists []. split; [done|constructor].
    + split; [by eapply system_ok_call|]. right. unfold abstract_system. simpl. rewrite abstract_insert.
      apply atomic_fail. by apply list_lookup_fmap_Some; exists (call_at e claims Beginning).
  - pose proof (sys_calls _ Hok i _ Hi) as (Hle & Hb & done_ & Hp & Hd). simpl in *.
    unfold after_resolve. destruct (resolve_claim resolve (runID c) claim) as [[]|err] eqn:Hr.
    + split; [|left; unfold abstract_system; simpl; by rewrite (abstract_same _ _ _ _ Hi)].
      eapply system_ok_call; [done|exact Hi|done|done|]. split_and!; simpl; [done|done|].
      exists (done_ ++ [claim]). split; [by rewrite <-app_assoc|]. apply Forall_app. split; [done|].
      constructor; [|constructor]. intros Hc. unfold resolve_claim in Hr. rewrite Hc in Hr. simpl in Hr.
      destruct resolve as [f|]; [|done]. destruct (f (runID c) (pc_digest claim)) as [[]|] eqn:Hfd; try done.
      by apply Hf.
    + split; [by eapply system_ok_call|]. right. unfold abstract_system. simpl. rewrite abstract_insert.
      apply atomic_fail. by eapply list_lookup_fmap_Some; eexists; split; [|exact Hi].
  - pose proof (sys_calls _ Hok i _ Hi) as Hk. unfold after_commit.
    destruct (commit_claims e prepared c) as [c'|err] eqn:Hc; simpl.
    + split; [by eapply system_ok_commit|]. right. unfold abstract_system. simpl. rewrite abstract_insert.
      apply atomic_apply; [by eapply list_lookup_fmap_Some; eexists; split; [|exact Hi]|].
      by eapply (commit_atomic c s e claims).
    + split; [by eapply system_ok_call|]. right. unfold abstract_system. simpl. rewrite abstract_insert.
      apply atomic_fail. by eapply list_lookup_fmap_Some; eexists; split; [|exact Hi].
Qed.

Definition claim_start (c : CompletionContract) (s : S) : ClaimSystem := Build_ClaimSystem c s [].

Lemma system_ok_start spec c s :
  NewCompletionContract spec = Ok c → es_ok s → system_ok (claim_start c s).
Proof.
  intros Hn Hs. destruct (NewCompletionContract_ok spec c Hn) as (Hok & Hr & Hp).
  split; simpl; try done. apply Forall_lookup. intros i cr Hi Hsat.
  by rewrite (Hp i cr Hi) in Hsat.
Qed.

Lemma claims_reachable spec c s x :
  NewCompletionContract spec = Ok c → es_ok s → rtc claim_step (claim_start c s) x → system_ok x.
Proof.
  intros Hn Hs. apply rtc_invariant; [intros a b Ha Hab; by apply (claim_step_simulates a b)|].
  by eapply system_ok_start.
Qed.

Definition frozen (cr : completionCriterion) : string * string * bool :=
  (cr_id cr, cr_text cr, evidenceRequired cr).

Lemma commit_frozen e claims prepared c c' :
  contract_ok c → begin_claims e claims c = Ok prepared → commit_claims e prepared c = Ok c' →
  map frozen (criteria c') = map frozen (criteria c).
Proof.
  intros Hok Hb Hc. destruct (commit_ok _ _ _ _ _ Hok Hb Hc) as (_ & _ & _ & ->).
  apply begin_claims_ok in Hb as (_ & _ & _ & Hps & Hnd).
  apply list_eq. intros i. rewrite !list_lookup_fmap.
  destruct (commit_cases (revision c') prepared (criteria c) i (prepared_indexes _ _ _ Hok Hps Hnd))
    as [[_ ->]|(p & _ & _ & ->)]; [done|]. by destruct (criteria c !! i).
Qed.

Lemma claim_step_frozen x y :
  system_ok x → claim_step x y →
  map frozen (criteria (sy_contract y)) = map frozen (criteria (sy_contract x)) ∧
  runID (sy_contract y) = runID (sy_contract x).
Proof.
  intros Hok Hst. destruct Hst as [| | | |c s calls i e claims prepared Hi]; try done. simpl.
  unfold after_commit. destruct (commit_claims e prepared c) as [c'|err] eqn:Hc; [|done]. simpl.
  destruct (commit_atomic _ _ _ _ _ _ (sys_calls _ Hok i _ Hi) Hc) as [Hb _].
  split; [by eapply commit_frozen; [apply Hok|..]|]. by apply (commit_ok e claims prepared); [apply Hok|..].
Qed.

Lemma reachable_frozen spec c s x :
  NewCompletionContract spec = Ok c → es_ok s → rtc claim_step (claim_start c s) x →
  map frozen (criteria (sy_contract x)) = map frozen (criteria c) ∧ runID (sy_contract x) = runID c.
Proof.
  intros Hn Hs Hr. apply (rtc_invariant claim_step (λ x, system_ok x ∧
    map frozen (criteria (sy_contract x)) = map frozen (criteria c) ∧ runID (sy_contract x) = runID c)
    (claim_start c s)); [|split_and!; [by eapply system_ok_start|done..]|done].
  intros a b (Ha & <- & <-) Hab. split; [by apply (claim_step_simulates a b)|by apply claim_step_frozen].
Qed.

(** C25: concurrent calls of [ApplyClaims] are linearizable. Whatever way their phases
    interleave with each other and with changes of the evidence store, every call takes
    effect at one instant, as a whole and against the store of that instant, or not at
    all; the revision counts the calls that succeeded, and of the calls that expected
    one revision at most one did. *)
Theorem claims_linearizable spec c s x :
  NewCompletionContract spec = Ok c → es_ok s → rtc claim_step (claim_start c s) x →
  rtc atomic_step (abstract_system (claim_start c s)) (abstract_system x) ∧
  revision (sy_contract x) = Z.of_nat (countb succeeded (sy_calls x)) ∧
  (∀ i j k k', sy_calls x !! i = Some k → sy_calls x !! j = Some k' → succeeded k = true →
     succeeded k' = true → ca_expected k = ca_expected k' → i = j).
Proof.
  intros Hn Hs Hr. split.
  - apply (rtc_simulation claim_step atomic_step abstract_system system_ok); [|by eapply system_ok_start|done].
    exact claim_step_simulates.
  - pose proof (claims_reachable _ _ _ _ Hn Hs Hr) as Hok. split; [apply Hok|]. exact (sys_winner _ Hok).
Qed.
End calls.

(** What [ApplyClaims] does when it succeeds, for any resolver: the caller expected
    the current revision, which grows by one; no criterion is claimed twice; every
    claimed criterion takes the state and the digest of its claim, a state it did not
    have, and the new revision; a digest it is satisfied by was confirmed; and nothing
    else changes. *)
Theorem apply_claims_exact resolve e claims c c' :
  contract_ok c → ApplyClaims e claims resolve (Some c) = Ok c' →
  contract_ok c' ∧ e = revision c ∧ revision c' = revision c + 1 ∧ NoDup (map ClCriterionID claims) ∧
  map frozen (criteria c') = map frozen (criteria c) ∧
  (∀ claim, claim ∈ claims → ∃ i cr cr', criteria c !! i = Some cr ∧ criteria c' !! i = Some cr' ∧
     cr_id cr = ClCriterionID claim ∧ cr_state cr' = ClState claim ∧ cr_state cr ≠ cr_state cr' ∧
     cr_digest cr' = ClEvidenceDigest claim ∧ claimRevision cr' = revision c' ∧
     (cr_state cr' = CompletionClaimSatisfied → cr_digest cr' ≠ "" →
        ∃ f, resolve = Some f ∧ f (runID c) (cr_digest cr') = Ok true)) ∧
  (∀ i cr, criteria c !! i = Some cr → cr_id cr ∉ map ClCriterionID claims → criteria c' !! i = Some cr).
Proof.
  intros Hok Ha. unfold ApplyClaims in Ha. apply result_bind_ok in Ha as (prepared & Hb & Ha).
  apply result_bind_ok in Ha as ([] & Hres & Hc).
  destruct (commit_ok _ _ _ _ _ Hok Hb Hc) as (Hok' & Hrev & Hrun & Hcrs).
  pose proof (commit_frozen _ _ _ _ _ Hok Hb Hc) as Hfr.
  apply begin_claims_ok in Hb as (-> & _ & _ & Hps & Hnd).
  pose proof (prepared_indexes _ _ _ Hok Hps Hnd) as Hix.
  assert (Hids : map pc_id prepared = map ClCriterionID claims).
  { clear -Hps. induction Hps as [|claim p claims prepared [Hp _ _ _ _ _] _ IH]; simpl; [done|]. by rewrite Hp, IH. }
  split_and!; [done|done|done|by rewrite <-Hids|done|..].
  - intros claim Hin. apply list_elem_of_lookup in Hin as (j & Hj).
    destruct (Forall2_lookup_l _ _ _ _ _ Hps Hj) as (p & Hp & [P1 P2 P3 [P4 _] [P5 _] (cr & P6 & P7 & _)]).
    apply list_elem_of_lookup_2 in Hp. exists (criterionIndex p), cr, (claim_criterion (revision c') p cr).
    split_and!; simpl; try done.
    + rewrite Hcrs, commit_claimed by done. by rewrite P6.
    + apply (ok_index c Hok) in P3. rewrite P6 in P3. simplify_eq/=. congruence.
    + intros Hsat Hd. by apply (resolve_claims_confirmed resolve (runID c) prepared p).
  - intros i cr Hi Hn. rewrite Hcrs, commit_other; [done|]. intros Hin. apply Hn. rewrite <-Hids.
    apply list_elem_of_fmap in Hin as (p & -> & Hp). apply list_elem_of_fmap. exists p. split; [|done].
    apply list_elem_of_lookup in Hp as (j & Hj). destruct (Forall2_lookup_r _ _ _ _ _ Hps Hj) as (claim & _ & Hp).
    pose proof (pr_index _ _ _ Hp) as Hpi. apply (ok_index c Hok) in Hpi. rewrite Hi in Hpi. by simplify_eq/=.
Qed.

(** C24: a run completes only on evidence. When the contract of a run is complete, every
    item of the definition of done that was not declared to need none is backed by the
    outcome of a tool call or a verification that was executed and succeeded in that
    run, whatever calls of [ApplyClaims] were made in whatever order. *)
Theorem completion_requires_evidence spec c env prompt policy blocks x :
  NewCompletionContract spec = Ok c →
  rtc claim_step (claim_start c (new_run env prompt policy blocks)) x →
  Status (Some (sy_contract x)) = CompletionStatusComplete →
  let l := ledger (sy_store x) in
  ∀ text, text ∈ definitionOfDone (SpecPlanAnchor spec) →
    text ∉ map normalizeAnchorText (SpecEvidenceNotRequired spec) →
    ∃ cr ref, cr ∈ criteria (sy_contract x) ∧ cr_text cr = text ∧ cr_digest cr = RefDigest ref ∧
      completionRunID l = runID c ∧ ref ∈ completionRefs l ∧ RefSucceeded ref = true ∧
      proved_by (performed (sy_store x)) ref.
Proof.
  intros Hn Hr Hst l text Htext Hreq.
  assert (Hrun : es_ok (new_run env prompt policy blocks)) by (apply (run_ok_reachable env prompt policy blocks); constructor).
  pose proof (claims_reachable _ _ _ _ Hn Hrun Hr) as Hok.
  destruct (reachable_frozen _ _ _ _ Hn Hrun Hr) as [Hfr Hid].
  destruct (NewCompletionContract_criteria spec c Hn) as (required & Hq & Hcr).
  assert (Hin : (text, required text) ∈ map (λ cr, (cr_text cr, evidenceRequired cr)) (criteria (sy_contract x))).
  { assert (Hmap : ∀ crs, map (λ cr, (cr_text cr, evidenceRequired cr)) crs = map (λ f, (f.1.2, f.2)) (map frozen crs)).
    { intros crs. by rewrite map_map. }
    rewrite Hmap, Hfr, <-Hmap, Hcr. apply list_elem_of_fmap. by exists text. }
  apply list_elem_of_fmap in Hin as (cr & [= -> Hreq'] & Hin).
  apply Status_spec in Hst as [_ Hsat]. specialize (Hsat cr Hin).
  rewrite <-Hq, Hreq' in Hreq. apply list_elem_of_lookup in Hin as Hi. destruct Hi as (i & Hi).
  destruct (ok_criterion _ (sys_contract _ Hok) i cr Hi) as (_ & _ & Hck).
  assert (Hd : cr_digest cr ≠ "").
  { intros He. unfold check_claim_state in Hck. rewrite Hsat, Hreq, He in Hck. done. }
  pose proof (sys_evidence _ Hok) as Hev. rewrite Forall_elem in Hev. specialize (Hev cr Hin Hsat Hd). simpl in Hev.
  destruct (sys_store _ Hok) as [Hl Hp]. apply resolve_iff in Hev as (_ & Hb & ref & Href & Hdr & Hs); [|done].
  exists cr, ref. subst l. rewrite <-Hb, Hid. split_and!; try done. by apply Hp.
Qed.

Definition evidence_claim (cr : completionCriterion) (ref : CompletionEvidenceRef) : CompletionClaim :=
  {| ClCriterionID := cr_id cr; ClState := CompletionClaimSatisfied; ClEvidenceDigest := RefDigest ref;
     ClSummary := ""; ClAssertion := "" |}.

Lemma prepare_evidence_claim c (i : nat) cr ref input :
  redact "" = "" → contract_ok c → criteria c !! i = Some cr → cr_state cr ≠ CompletionClaimSatisfied →
  RefDigest ref = canonicalCompletionEvidenceDigest input →
  prepareClaimLocked c (evidence_claim cr ref) =
    Ok {| criterionIndex := i; pc_id := cr_id cr; pc_state := CompletionClaimSatisfied;
          pc_digest := RefDigest ref; pc_summary := ""; pc_assertion := "" |}.
Proof.
  intros Hred Hok Hi Hst Hd.
  destruct (criterion_id_accepted _ _ (ok_id c Hok i cr Hi)) as (I1 & I2 & I3 & I4 & I5 & I6).
  assert (Hix : criterionIdx c !! cr_id cr = Some i) by (apply (ok_index c Hok); by rewrite Hi).
  pose proof (ledger_digest_valid input) as D1. pose proof (ledger_digest_trimmed input) as D2.
  rewrite <-Hd in D1, D2. assert (D3 : RefDigest ref ≠ "") by (intros He; by rewrite He in D1).
  assert (Htext : completionReceiptText (trim_space "") maxCompletionSummaryBytes = "").
  { unfold completionReceiptText. by rewrite trim_space_empty, Hred. }
  unfold prepareClaimLocked. cbn [evidence_claim ClCriterionID ClState ClEvidenceDigest ClSummary ClAssertion].
  rewrite I2, I3, I4, I6, (proj2 (String.eqb_neq _ _) I1), String.eqb_refl, (proj2 (Z.ltb_ge _ _) I5).
  cbn [negb orb]. rewrite Hix, Hi, D2, D1, String.eqb_refl, (proj2 (String.eqb_neq _ _) D3), Htext.
  unfold check_claim_state. rewrite (proj2 (String.eqb_neq _ _) D3).
  destruct (String.eqb_spec CompletionClaimSatisfied (cr_state cr)) as [He|]; [by rewrite <-He in Hst|].
  by destruct (evidenceRequired cr).
Qed.

(** Evidence closes a criterion. In every reachable state, a criterion that is not
    satisfied yet can be: the claim that cites a successful reference of the run's
    ledger is accepted, unless the revisions are exhausted. *)
Theorem evidence_closes_criterion spec c env prompt policy blocks x (i : nat) cr ref :
  redact "" = "" → NewCompletionContract spec = Ok c →
  rtc claim_step (claim_start c (new_run env prompt policy blocks)) x →
  criteria (sy_contract x) !! i = Some cr → cr_state cr ≠ CompletionClaimSatisfied →
  ref ∈ completionRefs (ledger (sy_store x)) → RefSucceeded ref = true →
  completionRunID (ledger (sy_store x)) = runID c → revision (sy_contract x) ≠ max_uint64 →
  ∃ c', ApplyClaims (revision (sy_contract x)) [evidence_claim cr ref] (honest (sy_store x))
          (Some (sy_contract x)) = Ok c' ∧
        ∃ cr', criteria c' !! i = Some cr' ∧ cr_state cr' = CompletionClaimSatisfied ∧
               cr_digest cr' = RefDigest ref.
Proof.
  intros Hred Hn Hr Hi Hst Hin Hs Hrun Hmax.
  assert (Hst0 : es_ok (new_run env prompt policy blocks)) by (apply (run_ok_reachable env prompt policy blocks); constructor).
  pose proof (claims_reachable _ _ _ _ Hn Hst0 Hr) as Hok.
  destruct (reachable_frozen _ _ _ _ Hn Hst0 Hr) as [_ Hid].
  pose proof (sys_contract _ Hok) as Hc. destruct (sys_store _ Hok) as [Hl _].
  destruct (ledger_digest _ Hl ref Hin) as [input Hd].
  pose proof (prepare_evidence_claim _ i cr ref input Hred Hc Hi Hst Hd) as Hp.
  assert (Hres : ResolveCompletionEvidence (ledger (sy_store x)) (runID (sy_contract x)) (RefDigest ref) = true).
  { apply resolve_iff; [done|]. split_and!; [apply Hc|congruence|]. by exists ref. }
  unfold ApplyClaims, begin_claims, prepareClaimsLocked, commit_claims. rewrite !Z.eqb_refl.
  rewrite (proj2 (Z.eqb_neq _ _) Hmax). cbn [negb length Nat.eqb prepare_claims].
  change (maxCompletionCriteria <? Z.of_nat 1) with false. cbn iota. rewrite Hp. cbn [mbind result_bind].
  cbn [pc_id]. rewrite lookup_empty. cbn -[String.eqb ResolveCompletionEvidence alter list_alter].
  unfold resolve_claim, cites_evidence. cbn -[String.eqb ResolveCompletionEvidence alter list_alter]. rewrite Hres.
  destruct (String.eqb_spec (RefDigest ref) ""); cbn -[alter list_alter]; eexists; (split; [done|]);
    cbn [criteria fold_left criterionIndex]; rewrite list_lookup_alter_eq, Hi; by eexists.
Qed.
End redacted.

(** ** A run to completion *)

Definition ex_anchor : PlanAnchor :=
  {| objective := "ship"; currentStep := ""; remainingSteps := []; definitionOfDone := ["tests pass"];
     anchorRevision := 0 |}.
Definition ex_contract_spec : CompletionContractSpec :=
  {| SpecRunID := "run-1"; SpecPlanAnchor := ex_anchor; SpecEvidenceNotRequired := [] |}.
Definition ex_criterion : completionCriterion :=
  new_criterion ∅ ("criterion:sha256:" +:+ sha256_hex "tests pass") "tests pass".
Definition ex_contract : CompletionContract :=
  {| runID := "run-1"; planRevision := 0; revision := 0; criteria := [ex_criterion];
     criterionIdx := {[cr_id ex_criterion := 0%nat]} |}.
Definition ex_ref : CompletionEvidenceRef :=
  {| RefDigest := ex_digest; RefSequence := 1; RefSource := "tool"; RefToolName := "Bash"; RefSucceeded := true |}.
Definition ex_claim : CompletionClaim := evidence_claim ex_criterion ex_ref.
Definition same (s : string) : string := s.
Definition ex_pc : preparedCompletionClaim :=
  {| criterionIndex := 0; pc_id := cr_id ex_criterion; pc_state := "satisfied"; pc_digest := ex_digest;
     pc_summary := ""; pc_assertion := "" |}.
Definition ex_prepared : list preparedCompletionClaim := [ex_pc].

Lemma ex_contract_new : NewCompletionContract ex_contract_spec = Ok ex_contract.
Proof. vm_compute. reflexivity. Qed.
Lemma ex_prepares : begin_claims same 0 [ex_claim] ex_contract = Ok ex_prepared.
Proof. vm_compute. reflexivity. Qed.
Lemma ex_resolves :
  after_resolve (honest ex_ledger_run) (runID ex_contract) ex_prepared ex_pc [] = Resolving ex_prepared [].
Proof. vm_compute. reflexivity. Qed.

(** The evidence is there and the claim is made. *)
Definition ex_before : ClaimSystem :=
  Build_ClaimSystem ex_contract ex_ledger_run [call_at 0 [ex_claim] Beginning].
Definition ex_after : ClaimSystem :=
  Build_ClaimSystem (after_commit 0 ex_prepared ex_contract).1 ex_ledger_run
    [call_at 0 [ex_claim] (after_commit 0 ex_prepared ex_contract).2].
Definition ex_start : ClaimSystem := claim_start ex_contract (new_run "" "fix it" "" 0).

Lemma ex_recorded : rtc (claim_step same) ex_start (Build_ClaimSystem ex_contract ex_ledger_run []).
Proof.
  apply (rtc_congruence (R := ledger_step) (λ s, Build_ClaimSystem ex_contract s [])); [|apply ex_ledger_reachable].
  intros s s' Hs. by apply claim_store.
Qed.

Lemma ex_applied :
  ApplyClaims same 0 [ex_claim] (honest ex_ledger_run) (Some ex_contract) =
    Ok (after_commit 0 ex_prepared ex_contract).1.
Proof. vm_compute. reflexivity. Qed.

Lemma ex_claimed : rtc (claim_step same) ex_start ex_before.
Proof. eapply rtc_r; [apply ex_recorded|]. apply (claim_issue same ex_contract ex_ledger_run [] 0 [ex_claim]). Qed.

(** A call with one claim, alone. *)
Lemma one_call_commits {St} `{EvidenceStore St} redact c (s : St) e claims p :
  begin_claims redact e claims c = Ok [p] →
  after_resolve (honest s) (runID c) [p] p [] = Resolving [p] [] →
  rtc (claim_step redact) (Build_ClaimSystem c s [call_at e claims Beginning])
    (Build_ClaimSystem (after_commit e [p] c).1 s [call_at e claims (after_commit e [p] c).2]).
Proof.
  intros Hb Hr.
  pose proof (claim_begin redact c s [call_at e claims Beginning] 0 e claims eq_refl) as S1.
  unfold after_begin in S1. rewrite Hb in S1. eapply rtc_l; [exact S1|]. clear S1.
  pose proof (claim_resolve redact c s [call_at e claims (Resolving [p] [p])] 0 e claims [p] p [] (honest s) eq_refl) as S2.
  rewrite Hr in S2. eapply rtc_l; [apply S2|clear S2].
  - intros run d Hd. injection Hd. auto.
  - apply rtc_once. exact (claim_commit redact c s [call_at e claims (Resolving [p] [])] 0 e claims [p] eq_refl).
Qed.

Lemma ex_completed : rtc (claim_step same) ex_start ex_after.
Proof.
  transitivity ex_before; [apply ex_claimed|].
  exact (one_call_commits same ex_contract ex_ledger_run 0 [ex_claim] ex_pc ex_prepares ex_resolves).
Qed.

Lemma claims_linearizable_witness :
  rtc (atomic_step same) (abstract_system ex_start) (abstract_system ex_after) ∧
  revision (sy_contract ex_after) = 1.
Proof.
  destruct (claims_linearizable same ex_contract_spec ex_contract (new_run "" "fix it" "" 0) ex_after)
    as (H1 & H2 & _).
  - apply ex_contract_new.
  - apply (run_ok_reachable "" "fix it" "" 0). constructor.
  - apply ex_completed.
  - split; [exact H1|exact H2].
Defined.

Lemma ex_contract_ok : contract_ok ex_contract.
Proof. by apply (NewCompletionContract_ok ex_contract_spec). Qed.

Lemma apply_claims_exact_witness :
  ∃ c', ApplyClaims same 0 [ex_claim] (honest ex_ledger_run) (Some ex_contract) = Ok c' ∧ revision c' = 1.
Proof.
  eexists (after_commit 0 ex_prepared ex_contract).1. split; [exact ex_applied|].
  apply (apply_claims_exact same (honest ex_ledger_run) 0 [ex_claim] ex_contract);
    [exact ex_contract_ok|exact ex_applied].
Defined.

Lemma completion_requires_evidence_witness :
  Status (Some (sy_contract ex_after)) = CompletionStatusComplete ∧
  ∃ cr ref, cr ∈ criteria (sy_contract ex_after) ∧ cr_digest cr = RefDigest ref ∧
    proved_by (performed (sy_store ex_after)) ref.
Proof.
  assert (Hst : Status (Some (sy_contract ex_after)) = CompletionStatusComplete) by reflexivity.
  split; [exact Hst|].
  destruct (completion_requires_evidence same ex_contract_spec ex_contract "" "fix it" "" 0 ex_after)
    with (text := "tests pass") as (cr & ref & H1 & _ & H2 & _ & _ & _ & H3).
  - apply ex_contract_new.
  - apply ex_completed.
  - exact Hst.
  - left.
  - apply not_elem_of_nil.
  - exists cr, ref. split; [exact H1|]. split; [exact H2|exact H3].
Defined.

Lemma evidence_closes_criterion_witness :
  ∃ c', ApplyClaims same 0 [ex_claim] (honest ex_ledger_run) (Some ex_contract) = Ok c'.
Proof.
  destruct (evidence_closes_criterion same ex_contract_spec ex_contract "" "fix it" "" 0 ex_before 0%nat
    ex_criterion ex_ref) as (c' & H & _).
  - reflexivity.
  - apply ex_contract_new.
  - apply ex_claimed.
  - reflexivity.
  - vm_compute. discriminate.
  - vm_compute. left.
  - reflexivity.
  - vm_compute. reflexivity.
  - vm_compute. discriminate.
  - exists c'. exact H.
Defined.
