(* ===== verification/GoFloat.v ===== *)
(** * Go's [float64]

    IEEE 754 binary64 as the Standard Library specifies it ([SpecFloat]), which is what
    Go computes on machines that do not fuse a multiplication with an addition.  The
    order of the numbers that are not NaN is lexicographic in a key of integers, so that
    comparators over floats are strict weak orders. *)

From Stdlib Require Export SpecFloat.
From stdpp Require Export pretty.
From S2P Require Export Prelude GoLib.
Open Scope Z_scope.

(** ** Operations *)

Definition f64 : Type := spec_float.

Definition fadd : f64 → f64 → f64 := SFadd 53 1024.
Definition fsub : f64 → f64 → f64 := SFsub 53 1024.
Definition fmul : f64 → f64 → f64 := SFmul 53 1024.
Definition fdiv : f64 → f64 → f64 := SFdiv 53 1024.
Definition feqb : f64 → f64 → bool := SFeqb.
Definition fltb : f64 → f64 → bool := SFltb.
Definition fleb : f64 → f64 → bool := SFleb.

(** The conversion [float64(z)] of an integer, and a constant [n/d] of the source. *)
Definition f_of_Z (z : Z) : f64 := binary_normalize 53 1024 z 0 false.
Definition f_ratio (n d : Z) : f64 := fdiv (f_of_Z n) (f_of_Z d).

Definition f_zero : f64 := S754_zero false.
Definition f_one : f64 := f_of_Z 1.

Definition is_nan (x : f64) : bool := match x with S754_nan => true | _ => false end.
Definition is_finite (x : f64) : bool :=
  match x with S754_zero _ | S754_finite _ _ _ => true | _ => false end.

#[export] Instance f64_eq_dec : EqDecision f64.
Proof. solve_decision. Defined.

(** The verb [%.0f] of package fmt: rounded to an integer, halves to even. *)
Definition round_even (m e : Z) : Z :=
  if 0 <=? e then m * 2 ^ e
  else
    let d := 2 ^ (- e) in
    let q := m / d in
    let r := m mod d in
    if 2 * r <? d then q else if d <? 2 * r then q + 1 else if Z.even q then q else q + 1.

Definition format_0f (x : f64) : string :=
  match x with
  | S754_nan => "NaN"
  | S754_infinity false => "+Inf"
  | S754_infinity true => "-Inf"
  | S754_zero s => if s then "-0" else "0"
  | S754_finite s m e => (if s then "-" else "") +:+ pretty (Z.to_N (round_even (Zpos m) e))
  end.

Example format_0f_ex :
  map format_0f [f_of_Z 25; f_ratio 5 2; f_ratio 7 2; f_ratio (-1) 3; fmul (f_ratio 1 4) (f_of_Z 100)] =
  ["25"; "2"; "4"; "-0"; "25"]%string.
Proof. vm_compute. reflexivity. Qed.

(** ** The order of the numbers *)

Definition key_class (x : f64) : Z :=
  match x with
  | S754_infinity true => -2
  | S754_finite true _ _ => -1
  | S754_zero _ => 0
  | S754_finite false _ _ => 1
  | S754_infinity false => 2
  | S754_nan => 3
  end.
Definition key_exponent (x : f64) : Z :=
  match x with S754_finite s _ e => if s then - e else e | _ => 0 end.
Definition key_mantissa (x : f64) : Z :=
  match x with S754_finite s m _ => if s then - Zpos m else Zpos m | _ => 0 end.

(** [f_less f x y] is [f x < f y] where neither is NaN. *)
Definition f_less {A} (f : A → f64) : A → A → bool :=
  less_then (less_by (λ x, key_class (f x)))
    (less_then (less_by (λ x, key_exponent (f x))) (less_by (λ x, key_mantissa (f x)))).
Definition f_more {A} (f : A → f64) (x y : A) : bool := f_less f y x.

#[export] Instance f_less_sw {A} (f : A → f64) : StrictWeak (f_less f).
Proof. apply _. Qed.
#[export] Instance f_more_sw {A} (f : A → f64) : StrictWeak (f_more f).
Proof.
  unfold f_more. split; [intros x y; apply sw_asym|].
  intros x y z H. destruct (sw_neg z y x H); auto.
Qed.

Lemma f_less_spec {A} (f : A → f64) x y :
  f_less f x y = true ↔
  key_class (f x) < key_class (f y) ∨
  (key_class (f x) = key_class (f y) ∧
   (key_exponent (f x) < key_exponent (f y) ∨
    (key_exponent (f x) = key_exponent (f y) ∧ key_mantissa (f x) < key_mantissa (f y)))).
Proof. unfold f_less, less_then, less_by. lia. Qed.

Lemma compare_keys x y :
  is_nan x = false → is_nan y = false →
  SFcompare x y =
    Some (if f_less id x y then Lt else if f_less id y x then Gt else Eq).
Proof.
  intros Hx Hy.
  assert (Hpos : ∀ m1 m2 : positive, Pos.compare_cont Eq m1 m2 = Z.compare (Zpos m1) (Zpos m2)) by done.
  destruct x as [[]|[]| |[] m1 e1], y as [[]|[]| |[] m2 e2]; try done; unfold SFcompare;
    rewrite Hpos; f_equal; unfold f_less, less_then, less_by; cbn -[Z.opp Z.ltb];
    destruct (Z.compare_spec e1 e2);
    repeat match goal with |- context [Pos.compare ?a ?b] => destruct (Pos.compare_spec a b); subst end;
    repeat case_match; lia || done.
Qed.

Lemma fltb_less {A} (f : A → f64) x y :
  is_nan (f x) = false → is_nan (f y) = false → fltb (f x) (f y) = f_less f x y.
Proof.
  intros Hx Hy. unfold fltb, SFltb. rewrite compare_keys by done.
  change (f_less id (f x) (f y)) with (f_less f x y).
  destruct (f_less f x y); [done|]. by destruct (f_less id (f y) (f x)).
Qed.

Lemma feqb_less {A} (f : A → f64) x y :
  is_nan (f x) = false → is_nan (f y) = false →
  feqb (f x) (f y) = negb (f_less f x y) && negb (f_less f y x).
Proof.
  intros Hx Hy. unfold feqb, SFeqb. rewrite compare_keys by done.
  change (f_less id (f x) (f y)) with (f_less f x y).
  change (f_less id (f y) (f x)) with (f_less f y x).
  destruct (f_less f x y) eqn:E; [done|]. by destruct (f_less f y x).
Qed.

Lemma fleb_less {A} (f : A → f64) x y :
  is_nan (f x) = false → is_nan (f y) = false → fleb (f x) (f y) = negb (f_less f y x).
Proof.
  intros Hx Hy. unfold fleb, SFleb. rewrite compare_keys by done.
  change (f_less id (f x) (f y)) with (f_less f x y).
  change (f_less id (f y) (f x)) with (f_less f y x).
  destruct (f_less f x y) eqn:E.
  - by rewrite (sw_asym _ _ E).
  - by destruct (f_less f y x).
Qed.

(** ** Where NaN cannot come from *)

Lemma iter_pos_inv {A} (f : A → A) (P : A → Prop) n x :
  (∀ x, P x → P (f x)) → P x → P (SpecFloat.iter_pos f n x).
Proof. intros Hf. revert x. induction n as [n IH|n IH|]; intros x Hx; simpl; auto. Qed.

Lemma shr_nonneg mrs e n : 0 ≤ shr_m mrs → 0 ≤ shr_m (shr mrs e n).1.
Proof.
  intros H. destruct n as [|p|p]; simpl; [done| |done].
  apply (iter_pos_inv shr_1 (λ r, 0 ≤ shr_m r)); [|done].
  intros [m r s] Hm. simpl in *. destruct m as [|[]|]; simpl; lia.
Qed.

Lemma shr_fexp_nonneg m e l : 0 ≤ m → 0 ≤ shr_m (shr_fexp 53 1024 m e l).1.
Proof. intros H. apply shr_nonneg. by destruct l as [|[]]. Qed.

(** Rounding a mantissa gives a number with the sign asked for. *)
Definition signed (s : bool) (x : f64) : Prop :=
  match x with
  | S754_zero s' | S754_infinity s' | S754_finite s' _ _ => s' = s
  | S754_nan => False
  end.

Lemma signed_not_nan s x : signed s x → is_nan x = false.
Proof. by destruct x. Qed.

Lemma round_aux_signed s m e l : 0 ≤ m → signed s (binary_round_aux 53 1024 s m e l).
Proof.
  intros H. unfold binary_round_aux. pose proof (shr_fexp_nonneg m e l H) as H1.
  destruct (shr_fexp 53 1024 m e l) as [mrs e1]. simpl in H1.
  set (m1 := round_nearest_even (shr_m mrs) (loc_of_shr_record mrs)).
  assert (0 ≤ m1) as H2.
  { subst m1. unfold round_nearest_even. repeat case_match; lia. }
  pose proof (shr_fexp_nonneg m1 e1 loc_Exact H2) as H3.
  destruct (shr_fexp 53 1024 m1 e1 loc_Exact) as [mrs2 e2]. simpl in H3.
  destruct (shr_m mrs2); simpl; [done| |lia]. by destruct (_ <=? _).
Qed.

Lemma round_signed s m e : signed s (binary_round 53 1024 s m e).
Proof.
  unfold binary_round. destruct (shl_align _ _ _) as [mz ez]. by apply round_aux_signed.
Qed.

Lemma normalize_not_nan m e s : is_nan (binary_normalize 53 1024 m e s) = false.
Proof. destruct m; [done| |]; eapply signed_not_nan, round_signed. Qed.

Lemma f_of_Z_not_nan z : is_nan (f_of_Z z) = false.
Proof. apply normalize_not_nan. Qed.

Lemma fsub_not_nan x y : is_finite x = true → is_nan y = false → is_nan (fsub x y) = false.
Proof.
  destruct x as [[]|[]| |[] m1 e1], y as [[]|[]| |[] m2 e2]; try done; intros _ _; apply normalize_not_nan.
Qed.

(** The quotient of two finite numbers, and of a finite number and an infinity. *)
Lemma fdiv_not_nan x y :
  is_finite x = true → is_nan y = false → fltb f_zero y = true → is_nan (fdiv x y) = false.
Proof.
  destruct x as [sx|sx| |sx m1 e1], y as [sy|sy| |sy m2 e2]; try done; intros _ _ _; simpl.
  unfold fdiv, SFdiv. destruct (SFdiv_core_binary 53 1024 (Zpos m1) e1 (Zpos m2) e2) as [[mz ez] lz] eqn:E.
  eapply signed_not_nan, round_aux_signed.
  unfold SFdiv_core_binary in E.
  set (s := e1 - e2 - _) in E.
  set (m' := match s with Z0 => Zpos m1 | Zpos _ => Z.shiftl (Zpos m1) s | Zneg _ => 0 end) in E.
  assert (0 ≤ m') by (subst m'; destruct s; [lia| |lia]; by apply Z.shiftl_nonneg).
  pose proof (Z.div_pos m' (Zpos m2) ltac:(done) ltac:(done)) as Hq. unfold Z.div in Hq.
  destruct (Z.div_eucl m' (Zpos m2)) as [q r]. by injection E as <- _ _.
Qed.

(** A product of numbers of the same sign, one of them finite and the other not zero. *)
Lemma fmul_signed x y :
  signed false x → signed false y → is_finite x = true → is_finite y = true →
  signed false (fmul x y).
Proof.
  destruct x as [sx|sx| |sx m1 e1], y as [sy|sy| |sy m2 e2]; try done; simpl; intros -> -> _ _; try done.
  by apply round_aux_signed.
Qed.
