(* ===== verification/RuntimePlane.v ===== *)
(** * The runtime plane: which account serves a request

    runtimeplane/: groups of models and providers, quota windows and account states, the
    pure scheduler [SelectAccount] with its gates, scores and sticky choice, the leases
    that bind a session to an account, the resolution of a request's model, and
    server/runtime_target.go, which puts them together for one request. *)

From stdpp Require Import sorting.
From S2P Require Import Prelude Prog GoLib GoFloat.
Open Scope Z_scope.

(** ** Groups (types.go, model_group.go, provider_group.go) *)

Definition ProviderGroup : Type := string.
Definition GroupDefault : ProviderGroup := "default".
Definition GroupClaude : ProviderGroup := "claude".
Definition GroupCodex : ProviderGroup := "codex".
Definition GroupLocal : ProviderGroup := "local".

Definition ClassifyModelGroup (model : string) : ProviderGroup :=
  let value := to_lower (trim_space model) in
  if String.eqb value "" then GroupDefault
  else if has_prefix value "claude-" || String.eqb value "opus" || String.eqb value "sonnet"
          || String.eqb value "haiku" then GroupClaude
  else if has_prefix value "gpt-" || has_prefix value "codex" || has_prefix value "o1"
          || has_prefix value "o3" || has_prefix value "o4" then GroupCodex
  else if contains value "qwen" || contains value "llama" || contains value "mistral"
          || contains value "ollama" then GroupLocal
  else GroupDefault.

Definition ClassifyProviderGroup (provider : string) : ProviderGroup :=
  let value := to_lower (trim_space provider) in
  if String.eqb value "" then GroupDefault
  else if String.eqb value "anthropic" || String.eqb value "claude" || has_prefix value "claude-"
    then GroupClaude
  else if String.eqb value "openai" || String.eqb value "codex" || has_prefix value "openai-"
          || has_prefix value "codex-" then GroupCodex
  else if String.eqb value "ollama" || String.eqb value "sglang" || has_prefix value "ollama-"
          || has_prefix value "sglang-" then GroupLocal
  else GroupDefault.

(** ** Data (types.go) *)

Record QuotaWindow := { Used : f64; Limit : f64; ResetAt : time }.

(** The zero [QuotaWindow{}]. *)
Definition no_window : QuotaWindow := {| Used := f_zero; Limit := f_zero; ResetAt := time_zero |}.

Definition Utilization (w : QuotaWindow) : f64 :=
  if fleb (Limit w) f_zero then f_zero else fdiv (Used w) (Limit w).

Definition clamp01 (v : f64) : f64 :=
  if fltb v f_zero then f_zero else if fltb f_one v then f_one else v.

Definition Headroom (maxUtilization : f64) (w : QuotaWindow) : f64 :=
  clamp01 (fsub maxUtilization (Utilization w)).

Definition AccountStatus : Type := string.
Definition AccountHealthy : AccountStatus := "healthy".
Definition AccountUnhealthy : AccountStatus := "unhealthy".

Record AccountState := {
  AcID : string;
  AcDisplayName : string;
  AcProvider : string;
  AcGroup : ProviderGroup;
  AcStatus : AccountStatus;
  AcFiveHour : QuotaWindow;
  AcSevenDay : QuotaWindow;
  AcRateLimit : QuotaWindow;
  AcCooldownUntil : time;
  AcObservedAt : time;
  AcAllowStale : bool;
}.

Record AgentLease := {
  LeID : string;
  LeSessionID : string;
  LeAgentID : string;
  LeAccountID : string;
  LeProvider : string;
  LeModel : string;
  LeGroup : ProviderGroup;
  LeCreatedAt : time;
  LeLastReevalAt : time;
  LeExpiresAt : time;
}.

Definition NewAgentLease (id sessionID agentID : string) (account : AccountState) (model : string)
    (now : time) (ttl : duration) : AgentLease :=
  {| LeID := id; LeSessionID := sessionID; LeAgentID := agentID; LeAccountID := AcID account;
     LeProvider := AcProvider account; LeModel := model; LeGroup := AcGroup account;
     LeCreatedAt := now; LeLastReevalAt := now;
     LeExpiresAt := if 0 <? ttl then time_add now ttl else time_zero |}.

Definition NeedsReeval (now : time) (interval : duration) (l : AgentLease) : bool :=
  if (interval <=? 0) || is_zero (LeLastReevalAt l) then true
  else interval <=? time_sub now (LeLastReevalAt l).

(** ** The scheduler (scheduler.go) *)

Definition defaultFiveHourMax : f64 := f_ratio 90 100.
Definition defaultSevenDayMax : f64 := f_ratio 99 100.
Definition defaultUrgencyMax : f64 := f_of_Z 4.
Definition defaultSwitchMargin : f64 := f_ratio 25 100.
Definition defaultStaleAfter : duration := 15 * minute.
Definition sevenDayPeriod : duration := 7 * 24 * hour.
Definition DecisionStay : string := "stay".
Definition DecisionSwitch : string := "switch".
Definition DecisionNone : string := "none".

Record SchedulerParams := {
  FiveHourMax : f64;
  SevenDayMax : f64;
  UrgencyMax : f64;
  SwitchMargin : f64;
  StaleAfter : duration;
}.

(** [SchedulerParams{}]. *)
Definition no_params : SchedulerParams :=
  {| FiveHourMax := f_zero; SevenDayMax := f_zero; UrgencyMax := f_zero; SwitchMargin := f_zero;
     StaleAfter := 0 |}.

Definition SchedulerParams_Normalized (p : SchedulerParams) : SchedulerParams :=
  let or_default v d := if fleb v f_zero then d else v in
  {| FiveHourMax := or_default (FiveHourMax p) defaultFiveHourMax;
     SevenDayMax := or_default (SevenDayMax p) defaultSevenDayMax;
     UrgencyMax := or_default (UrgencyMax p) defaultUrgencyMax;
     SwitchMargin :=
       let m := if fltb (SwitchMargin p) f_zero then defaultSwitchMargin else SwitchMargin p in
       if feqb m f_zero then defaultSwitchMargin else m;
     StaleAfter := if StaleAfter p <=? 0 then defaultStaleAfter else StaleAfter p |}.

Record SelectionDecision := {
  DeAction : string;
  DeAccountID : string;
  DeScore : f64;
  DeReason : string;
}.

Definition urgency (resetAt now : time) (max : f64) : f64 :=
  if is_zero resetAt then f_one
  else if time_before resetAt now || (resetAt =? now) then max
  else
    let remaining := time_sub resetAt now in
    if sevenDayPeriod <=? remaining then f_one
    else
      let ratio := fsub f_one (fdiv (f_of_Z remaining) (f_of_Z sevenDayPeriod)) in
      let value := fadd f_one (fmul ratio (fsub max f_one)) in
      if fltb max value then max else if fltb value f_one then f_one else value.

Definition AccountScore (account : AccountState) (now : time) (params0 : SchedulerParams) : f64 :=
  let params := SchedulerParams_Normalized params0 in
  let five := Headroom (FiveHourMax params) (AcFiveHour account) in
  let limited :=
    if fltb f_zero (Limit (AcRateLimit account)) then
      let rateHeadroom := Headroom (FiveHourMax params) (AcRateLimit account) in
      if fltb rateHeadroom five then rateHeadroom else five
    else five in
  let sevenHeadroom := Headroom (SevenDayMax params) (AcSevenDay account) in
  let servableNow := if fltb sevenHeadroom limited then sevenHeadroom else limited in
  fmul servableNow (urgency (ResetAt (AcSevenDay account)) now (UrgencyMax params)).

Record scoredAccount := { account : AccountState; score : f64 }.

Definition rankLess (a b : scoredAccount) : bool :=
  if negb (feqb (score a) (score b)) then fltb (score b) (score a)
  else
    let aFive := Utilization (AcFiveHour (account a)) in
    let bFive := Utilization (AcFiveHour (account b)) in
    if negb (feqb aFive bFive) then fltb aFive bFive
    else
      let aReset := ResetAt (AcSevenDay (account a)) in
      let bReset := ResetAt (AcSevenDay (account b)) in
      if negb (aReset =? bReset) then
        if is_zero aReset then false
        else if is_zero bReset then true
        else time_before aReset bReset
      else String.ltb (AcID (account a)) (AcID (account b)).

Definition ineligibleReason (account : AccountState) (now : time) (params : SchedulerParams) : string :=
  if String.eqb (AcID account) "" then "missing account id"
  else if String.eqb (AcStatus account) AccountUnhealthy then "auth unhealthy"
  else if negb (is_zero (AcCooldownUntil account)) && time_after (AcCooldownUntil account) now
    then "cooldown"
  else if fltb (FiveHourMax params) (Utilization (AcFiveHour account)) then "5h quota gated"
  else if fltb f_zero (Limit (AcRateLimit account))
          && fltb (FiveHourMax params) (Utilization (AcRateLimit account)) then "rate limit gated"
  else if fltb (SevenDayMax params) (Utilization (AcSevenDay account)) then "7d quota gated"
  else if negb (AcAllowStale account) && negb (is_zero (AcObservedAt account))
          && (StaleAfter params <? time_sub now (AcObservedAt account)) then "usage stale"
  else "".

Definition Eligible (account : AccountState) (now : time) (params : SchedulerParams) : bool :=
  String.eqb (ineligibleReason account now (SchedulerParams_Normalized params)) "".

(** The group filter of both loops. *)
Definition outside_group (group : ProviderGroup) (account : AccountState) : bool :=
  negb (String.eqb group "") && negb (String.eqb group GroupDefault)
  && negb (String.eqb (AcGroup account) group).

(** The loop of [staleRotation] that looks for the current account: the element after the
    first one with the id, cyclically. *)
Definition rotation_next (stale : list AccountState) (currentID : string) (first : AccountState) :
    AccountState :=
  match find_index (λ a, String.eqb (AcID a) currentID) stale with
  | Some i => default first (stale !! (S i mod length stale)%nat)
  | None => first
  end.

Definition staleRotation (accounts : list AccountState) (currentID : string) (group : ProviderGroup)
    (now : time) (params : SchedulerParams) : SelectionDecision :=
  let stale := List.filter (λ a, negb (outside_group group a)
      && String.eqb (ineligibleReason a now params) "usage stale") accounts in
  match stable_sort (less_str AcID) stale with
  | [] => {| DeAction := DecisionNone; DeAccountID := ""; DeScore := f_zero;
             DeReason := "no eligible account" |}
  | (first :: _) as stale =>
      let next := rotation_next stale currentID first in
      if String.eqb (AcID next) currentID then
        {| DeAction := DecisionStay; DeAccountID := currentID; DeScore := f_zero;
           DeReason := "all usable accounts stale; only unknown-usage candidate" |}
      else
        {| DeAction := DecisionSwitch; DeAccountID := AcID next; DeScore := f_zero;
           DeReason := "all usable accounts stale; rotating unknown-usage accounts" |}
  end.

(** The first loop of [SelectAccount]. *)
Definition candidates (accounts : list AccountState) (group : ProviderGroup) (now : time)
    (params : SchedulerParams) : list scoredAccount :=
  map (λ a, {| account := a; score := AccountScore a now params |})
    (List.filter (λ a, negb (outside_group group a)
       && String.eqb (ineligibleReason a now params) "") accounts).

Definition sticky_reason (params : SchedulerParams) : string :=
  "sticky current within " +:+ format_0f (fmul (SwitchMargin params) (f_of_Z 100)) +:+ "% switch margin".

Definition SelectAccount (accounts : list AccountState) (currentID : string) (group : ProviderGroup)
    (now : time) (params0 : SchedulerParams) : SelectionDecision :=
  let params := SchedulerParams_Normalized params0 in
  match stable_sort rankLess (candidates accounts group now params) with
  | [] => staleRotation accounts currentID group now params
  | (best :: _) as ranked =>
      let switch :=
        {| DeAction := DecisionSwitch; DeAccountID := AcID (account best); DeScore := score best;
           DeReason := "highest usable burst multiplied by quota perishability" |} in
      if String.eqb currentID "" then switch
      else
        match List.find (λ c, String.eqb (AcID (account c)) currentID) ranked with
        | None => switch
        | Some candidate =>
            if String.eqb (AcID (account best)) currentID then
              {| DeAction := DecisionStay; DeAccountID := currentID; DeScore := score candidate;
                 DeReason := "current account remains highest ranked" |}
            else
              let threshold := fmul (score candidate) (fadd f_one (SwitchMargin params)) in
              if fleb (score best) threshold then
                {| DeAction := DecisionStay; DeAccountID := currentID; DeScore := score candidate;
                   DeReason := sticky_reason params |}
              else switch
        end
  end.

(** ** Numbers

    The scheduler compares floats.  Where no quota window holds a NaN or an infinite
    usage, no score is NaN and the ranking is a strict weak order. *)

Definition window_numbers (w : QuotaWindow) : bool :=
  is_finite (Used w) && negb (is_nan (Limit w)).
Definition account_numbers (a : AccountState) : bool :=
  window_numbers (AcFiveHour a) && window_numbers (AcSevenDay a) && window_numbers (AcRateLimit a).
Definition params_numbers (params : SchedulerParams) : bool :=
  let p := SchedulerParams_Normalized params in
  is_finite (FiveHourMax p) && is_finite (SevenDayMax p) && is_finite (UrgencyMax p)
  && is_finite (fsub (UrgencyMax p) f_one) && negb (feqb (fsub (UrgencyMax p) f_one) f_zero)
  && fleb f_one (UrgencyMax p).

Lemma finite_not_nan x : is_finite x = true → is_nan x = false.
Proof. by destruct x. Qed.
#[local] Hint Resolve finite_not_nan : core.

Lemma Utilization_not_nan w : window_numbers w = true → is_nan (Utilization w) = false.
Proof.
  unfold window_numbers, Utilization. intros H. split_bools.
  destruct (fleb (Limit w) f_zero) eqn:E; [done|]. apply fdiv_not_nan; [done..|].
  pose proof (fleb_less id (Limit w) f_zero ltac:(done) eq_refl) as A.
  pose proof (fltb_less id f_zero (Limit w) eq_refl ltac:(done)) as B. unfold id in A, B.
  rewrite B. rewrite A in E. by apply negb_false_iff.
Qed.

(** What is between two finite numbers is finite. *)
Lemma between_finite lo hi x :
  is_finite lo = true → is_finite hi = true → is_nan x = false →
  fltb x lo = false → fltb hi x = false → is_finite x = true.
Proof. by destruct lo as [[]|[]| |[]], hi as [[]|[]| |[]], x as [[]|[]| |[]]. Qed.

Lemma clamp01_finite v : is_nan v = false → is_finite (clamp01 v) = true.
Proof.
  intros H. unfold clamp01. destruct (fltb v f_zero) eqn:E1; [done|].
  destruct (fltb f_one v) eqn:E2; [done|]. by apply (between_finite f_zero f_one).
Qed.

Lemma Headroom_finite m w :
  is_finite m = true → window_numbers w = true → is_finite (Headroom m w) = true.
Proof. intros Hm Hw. apply clamp01_finite, fsub_not_nan; [done|]. by apply Utilization_not_nan. Qed.

Lemma fmul_finite_not_nan x y :
  is_finite x = true → is_finite y = true → is_nan (fmul x y) = false.
Proof.
  destruct x as [| | |sx mx ex], y as [| | |sy my ey]; try done. intros _ _.
  eapply signed_not_nan. by apply round_aux_signed.
Qed.

Lemma fmul_nonzero_not_nan x y :
  is_nan x = false → is_finite y = true → feqb y f_zero = false → is_nan (fmul x y) = false.
Proof.
  destruct x as [| | |sx mx ex], y as [| | |sy my ey]; try done. intros _ _ _.
  eapply signed_not_nan. by apply round_aux_signed.
Qed.

Lemma fadd_not_nan x y : is_finite x = true → is_nan y = false → is_nan (fadd x y) = false.
Proof.
  destruct x as [[]| | |sx mx ex], y as [[]|[]| |sy my ey]; try done; intros _ _;
    apply normalize_not_nan.
Qed.

Lemma fdiv_period_not_nan z : is_nan (fdiv (f_of_Z z) (f_of_Z sevenDayPeriod)) = false.
Proof.
  assert (Hp : is_finite (f_of_Z sevenDayPeriod) = true ∧ fltb f_zero (f_of_Z sevenDayPeriod) = true)
    by (vm_compute; done). destruct Hp as [Hf Hp].
  destruct (is_finite (f_of_Z z)) eqn:E; [by apply fdiv_not_nan; [|apply finite_not_nan|]|].
  pose proof (f_of_Z_not_nan z). by destruct (f_of_Z z).
Qed.

Lemma urgency_finite resetAt now max :
  is_finite max = true → is_finite (fsub max f_one) = true →
  feqb (fsub max f_one) f_zero = false → is_finite (urgency resetAt now max) = true.
Proof.
  intros Hm Hf Hz. unfold urgency. case_match; [done|]. case_match; [done|]. case_match; [done|].
  set (value := fadd _ _).
  assert (is_nan value = false) as Hn.
  { apply fadd_not_nan; [done|]. apply fmul_nonzero_not_nan; [|done..].
    apply fsub_not_nan; [done|]. apply fdiv_period_not_nan. }
  destruct (fltb max value) eqn:E1; [done|]. destruct (fltb value f_one) eqn:E2; [done|].
  by apply (between_finite f_one max).
Qed.

Lemma Headroom_min_finite (b : bool) x y :
  is_finite x = true → is_finite y = true → is_finite (if b then x else y) = true.
Proof. by destruct b. Qed.

Lemma AccountScore_not_nan a now params :
  params_numbers params = true → account_numbers a = true →
  is_nan (AccountScore a now params) = false.
Proof.
  unfold params_numbers, account_numbers. intros Hp Ha. split_bools. unfold AccountScore.
  apply fmul_finite_not_nan; [|by apply urgency_finite].
  apply Headroom_min_finite; [by apply Headroom_finite|].
  destruct (fltb f_zero (Limit (AcRateLimit a))); [apply Headroom_min_finite|]; by apply Headroom_finite.
Qed.

(** ** Sorting under a total order *)

Lemma insert_stable_ext {A} (less less' : A → A → bool) x l :
  (∀ y, y ∈ l → less y x = less' y x) → insert_stable less x l = insert_stable less' x l.
Proof.
  induction l as [|y l IH]; intros H; simpl; [done|].
  rewrite (H y) by left. rewrite IH; [done|]. intros z Hz. apply H. by right.
Qed.

Lemma stable_sort_ext {A} (less less' : A → A → bool) l :
  (∀ x y, x ∈ l → y ∈ l → less x y = less' x y) → stable_sort less l = stable_sort less' l.
Proof.
  induction l as [|x l IH]; intros H; simpl; [done|].
  rewrite IH by (intros y z Hy Hz; apply H; by right). apply insert_stable_ext.
  intros y Hy. rewrite elem_of_stable_sort in Hy. apply H; [by right|left].
Qed.

Lemma filter_perm {A} (f : A → bool) l l' : l ≡ₚ l' → List.filter f l ≡ₚ List.filter f l'.
Proof.
  induction 1 as [|x l l' _ IH|x y l|l1 l2 l3 _ IH1 _ IH2]; simpl; [done| | |by rewrite IH1].
  - destruct (f x); [by rewrite IH|done].
  - destruct (f x), (f y); [by apply Permutation_swap|done..].
Qed.

(** ** The ranking *)

Definition unknown_last (t : time) : Z := if is_zero t then 1 else 0.

(** The order [rankLess] decides: score, then the lower 5h utilization, then the earlier
    7d reset with unknown resets last, then the id. *)
Definition rank_order : scoredAccount → scoredAccount → bool :=
  less_then (f_more score)
    (less_then (f_less (λ c, Utilization (AcFiveHour (account c))))
       (less_then (less_by (λ c, unknown_last (ResetAt (AcSevenDay (account c)))))
          (less_then (less_by (λ c, ResetAt (AcSevenDay (account c))))
             (less_str (λ c, AcID (account c)))))).

Definition candidate_numbers (c : scoredAccount) : Prop :=
  is_nan (score c) = false ∧ is_nan (Utilization (AcFiveHour (account c))) = false.

#[export] Instance rank_order_sw : StrictWeak rank_order.
Proof. apply _. Qed.

Lemma rankLess_order a b :
  candidate_numbers a → candidate_numbers b → rankLess a b = rank_order a b.
Proof.
  intros [Ha1 Ha2] [Hb1 Hb2]. unfold rankLess, rank_order, less_then at 1.
  rewrite (feqb_less score), (fltb_less score) by done. unfold f_more.
  destruct (f_less score a b) eqn:E1; simpl.
  { by rewrite (sw_asym _ _ E1). }
  destruct (f_less score b a) eqn:E2; simpl; [done|].
  set (five c := Utilization (AcFiveHour (account c))).
  change (Utilization (AcFiveHour (account a))) with (five a).
  change (Utilization (AcFiveHour (account b))) with (five b).
  rewrite (feqb_less five), (fltb_less five) by done. unfold less_then at 1.
  destruct (f_less five a b) eqn:E3; simpl; [done|].
  destruct (f_less five b a) eqn:E4; simpl; [done|].
  unfold less_then, less_by, less_str, unknown_last, is_zero, time_before.
  generalize (String.ltb (AcID (account a)) (AcID (account b))) as ids; intros ids.
  set (ra := ResetAt _). set (rb := ResetAt _). repeat case_match; destruct ids; lia.
Qed.

(** Candidates with different ids never tie. *)
Lemma rank_order_total a b :
  rank_order a b = false → rank_order b a = false → AcID (account a) = AcID (account b).
Proof.
  assert (H : ∀ l1 l2 : scoredAccount → scoredAccount → bool,
    less_then l1 l2 a b = false → less_then l1 l2 b a = false → l2 a b = false ∧ l2 b a = false).
  { intros l1 l2. unfold less_then. destruct (l1 a b), (l1 b a); naive_solver. }
  unfold rank_order. intros H1 H2. do 4 (destruct (H _ _ H1 H2) as [H1' H2']; clear H1 H2; rename H1' into H1, H2' into H2).
  by apply ltb_trichotomy.
Qed.

(** ** What the scheduler decides

    [passes_gates] is everything but the age of the observation; an account that passes
    is [fresh] or stale. *)

Definition passes_gates (now : time) (p : SchedulerParams) (a : AccountState) : Prop :=
  AcID a ≠ ""%string ∧ AcStatus a ≠ AccountUnhealthy ∧
  (AcCooldownUntil a ≤ now ∨ AcCooldownUntil a = time_zero) ∧
  fltb (FiveHourMax p) (Utilization (AcFiveHour a)) = false ∧
  (fltb f_zero (Limit (AcRateLimit a)) = true →
   fltb (FiveHourMax p) (Utilization (AcRateLimit a)) = false) ∧
  fltb (SevenDayMax p) (Utilization (AcSevenDay a)) = false.

Definition fresh (now : time) (p : SchedulerParams) (a : AccountState) : Prop :=
  AcAllowStale a = true ∨ AcObservedAt a = time_zero ∨ time_sub now (AcObservedAt a) ≤ StaleAfter p.

Definition serves (group : ProviderGroup) (a : AccountState) : Prop :=
  group = ""%string ∨ group = GroupDefault ∨ AcGroup a = group.

Lemma outside_group_spec group a : outside_group group a = false ↔ serves group a.
Proof.
  unfold outside_group, serves.
  rewrite !andb_false_iff, !negb_false_iff, !String.eqb_eq. tauto.
Qed.

Lemma reason_spec now p a :
  (ineligibleReason a now p = ""%string ↔ passes_gates now p a ∧ fresh now p a) ∧
  (ineligibleReason a now p = "usage stale"%string ↔ passes_gates now p a ∧ ¬ fresh now p a).
Proof.
  unfold ineligibleReason, passes_gates, fresh, is_zero, time_after.
  destruct (String.eqb_spec (AcID a) "") as [?|?]; [split; split; naive_solver|].
  destruct (String.eqb_spec (AcStatus a) AccountUnhealthy) as [?|?]; [split; split; naive_solver|].
  destruct (Z.eqb_spec (AcCooldownUntil a) time_zero), (Z.ltb_spec now (AcCooldownUntil a)); cbn [negb andb];
    try (split; (split; [done|intuition lia]));
    destruct (fltb (FiveHourMax p) (Utilization (AcFiveHour a))); try (split; (split; [done|intuition done]));
    destruct (fltb f_zero (Limit (AcRateLimit a))), (fltb (FiveHourMax p) (Utilization (AcRateLimit a)));
    cbn [andb]; try (split; (split; [done|intuition done]));
    destruct (fltb (SevenDayMax p) (Utilization (AcSevenDay a))); try (split; (split; [done|intuition done]));
    destruct (AcAllowStale a), (Z.eqb_spec (AcObservedAt a) time_zero),
      (Z.ltb_spec (StaleAfter p) (time_sub now (AcObservedAt a))); cbn [negb andb];
    split; (split; [intros ?; try done|intros ?; try done; exfalso]); intuition (done || lia).
Qed.

Lemma StronglySorted_lookup {A} (R : A → A → Prop) l :
  StronglySorted R l → ∀ i j x y, l !! i = Some x → l !! j = Some y → (i < j)%nat → R x y.
Proof.
  induction 1 as [|z l Hl IH Hz]; intros i j x y Hi Hj Hij; [done|].
  destruct j as [|j]; [lia|]. destruct i as [|i]; simpl in *.
  - injection Hi as <-. rewrite Forall_elem in Hz. apply Hz. by apply list_elem_of_lookup_2 in Hj.
  - eapply IH; [exact Hi|exact Hj|lia].
Qed.

Lemma Normalized_idempotent p :
  SchedulerParams_Normalized (SchedulerParams_Normalized p) = SchedulerParams_Normalized p.
Proof.
  assert (D : ∀ v d, fleb d f_zero = false →
    (if fleb (if fleb v f_zero then d else v) f_zero then d else if fleb v f_zero then d else v) =
    if fleb v f_zero then d else v).
  { intros v d Hd. destruct (fleb v f_zero) eqn:E; [by rewrite Hd|by rewrite E]. }
  assert (fltb defaultSwitchMargin f_zero = false ∧ feqb defaultSwitchMargin f_zero = false) as [M1 M2]
    by (vm_compute; done).
  unfold SchedulerParams_Normalized; cbn [FiveHourMax SevenDayMax UrgencyMax SwitchMargin StaleAfter].
  f_equal; [by apply D|by apply D|by apply D| |].
  - destruct (fltb (SwitchMargin p) f_zero) eqn:E1; rewrite ?M1, ?M2, ?M1, ?M2; [done|].
    destruct (feqb (SwitchMargin p) f_zero) eqn:E2; rewrite ?M1, ?M2; [done|]. by rewrite E1, E2.
  - destruct (Z.leb_spec (StaleAfter p) 0); [done|]. by destruct (Z.leb_spec (StaleAfter p) 0); [lia|].
Qed.

Section selection.
Context (accounts : list AccountState) (currentID : string) (group : ProviderGroup) (now : time).
Context (params : SchedulerParams).

Definition usable (a : AccountState) : Prop :=
  a ∈ accounts ∧ serves group a ∧ passes_gates now params a ∧ fresh now params a.
Definition only_stale (a : AccountState) : Prop :=
  a ∈ accounts ∧ serves group a ∧ passes_gates now params a ∧ ¬ fresh now params a.

Definition scored (a : AccountState) : scoredAccount :=
  {| account := a; score := AccountScore a now params |}.

(** No usable account ranks before [a]. *)
Definition highest_ranked (a : AccountState) : Prop :=
  usable a ∧ ∀ b, usable b → rank_order (scored b) (scored a) = false.

Definition threshold (a : AccountState) : f64 :=
  fmul (score (scored a)) (fadd f_one (SwitchMargin params)).

(** The cyclic successor of the current account among the stale ones, in the order of
    ids; the first one when the current account is not among them. *)
Definition next_in_rotation (next : AccountState) : Prop :=
  only_stale next ∧
  ((∃ cur, only_stale cur ∧ AcID cur = currentID ∧ String.ltb currentID (AcID next) = true ∧
      ∀ b, only_stale b → String.ltb currentID (AcID b) = true → String.ltb (AcID b) (AcID next) = false) ∨
   ((∀ b, only_stale b → String.ltb (AcID b) (AcID next) = false) ∧
    ((∀ cur, only_stale cur → AcID cur ≠ currentID) ∨
     (∀ b, only_stale b → String.ltb currentID (AcID b) = false)))).

Inductive decided : SelectionDecision → Prop :=
| decided_switch best reason :
    highest_ranked best → AcID best ≠ currentID →
    (∀ cur, usable cur → AcID cur = currentID → fleb (score (scored best)) (threshold cur) = false) →
    decided {| DeAction := DecisionSwitch; DeAccountID := AcID best; DeScore := score (scored best);
               DeReason := reason |}
| decided_stay best cur reason :
    highest_ranked best → usable cur → AcID cur = currentID →
    AcID best = currentID ∨ fleb (score (scored best)) (threshold cur) = true →
    decided {| DeAction := DecisionStay; DeAccountID := currentID; DeScore := score (scored cur);
               DeReason := reason |}
| decided_rotation next reason :
    (∀ a, ¬ usable a) → next_in_rotation next →
    decided {| DeAction := if String.eqb (AcID next) currentID then DecisionStay else DecisionSwitch;
               DeAccountID := AcID next; DeScore := f_zero; DeReason := reason |}
| decided_none reason :
    (∀ a, ¬ usable a) → (∀ a, ¬ only_stale a) →
    decided {| DeAction := DecisionNone; DeAccountID := ""; DeScore := f_zero; DeReason := reason |}.

Lemma elem_of_candidates c :
  c ∈ candidates accounts group now params ↔ ∃ a, c = scored a ∧ usable a.
Proof.
  unfold candidates, usable. rewrite list_elem_of_In, in_map_iff. split.
  - intros (a & <- & [Ha%list_elem_of_In Hf]%filter_In). exists a. split_bools.
    by rewrite <- outside_group_spec, <- (proj1 (reason_spec now params a)).
  - intros (a & -> & Ha & Hg & Hr). exists a. split; [done|]. apply filter_In.
    split; [by apply list_elem_of_In|]. apply outside_group_spec in Hg as ->.
    by apply reason_spec in Hr as ->.
Qed.

Lemma elem_of_stale a :
  a ∈ List.filter (λ a, negb (outside_group group a)
        && String.eqb (ineligibleReason a now params) "usage stale") accounts ↔ only_stale a.
Proof.
  unfold only_stale. rewrite list_elem_of_In, filter_In, <- list_elem_of_In, andb_true_iff, negb_true_iff,
    outside_group_spec, String.eqb_eq, (proj2 (reason_spec now params a)). tauto.
Qed.

Hypothesis ids : NoDup (AcID <$> accounts).

Lemma same_id a b : a ∈ accounts → b ∈ accounts → AcID a = AcID b → a = b.
Proof.
  intros [i Hi]%list_elem_of_lookup [j Hj]%list_elem_of_lookup E.
  assert (i = j) as ->; [|congruence].
  eapply NoDup_lookup; [exact ids| |]; rewrite list_lookup_fmap; [by rewrite Hi|]. by rewrite Hj, E.
Qed.

(** The stale accounts in the order of their ids. *)
Let stale : list AccountState :=
  List.filter (λ a, negb (outside_group group a)
    && String.eqb (ineligibleReason a now params) "usage stale") accounts.
Let by_id : list AccountState := stable_sort (less_str AcID) stale.

Lemma elem_of_by_id a : (∃ i, by_id !! i = Some a) ↔ only_stale a.
Proof.
  rewrite <- list_elem_of_lookup. unfold by_id. rewrite elem_of_stable_sort. apply elem_of_stale.
Qed.

Lemma by_id_le i j a b :
  by_id !! i = Some a → by_id !! j = Some b → (i ≤ j)%nat → String.ltb (AcID b) (AcID a) = false.
Proof.
  intros Hi Hj Hij. destruct (decide (i = j)) as [->|].
  - assert (a = b) as -> by congruence. apply ltb_irrefl.
  - apply (StronglySorted_lookup _ by_id (stable_sort_ordered (less_str AcID) stale) i j a b); [done..|lia].
Qed.

Lemma by_id_lt i j a b :
  by_id !! i = Some a → by_id !! j = Some b → (i < j)%nat → String.ltb (AcID a) (AcID b) = true.
Proof.
  intros Hi Hj Hij. destruct (String.ltb (AcID a) (AcID b)) eqn:E; [done|].
  pose proof (by_id_le i j a b Hi Hj ltac:(lia)) as E2.
  assert (a = b) as <-.
  { apply same_id; [apply elem_of_by_id; eauto|apply elem_of_by_id; eauto|]. by apply ltb_trichotomy. }
  assert (NoDup by_id) as Hn.
  { unfold by_id. rewrite stable_sort_perm. apply NoDup_ListNoDup, List.NoDup_filter, NoDup_ListNoDup.
    by eapply NoDup_fmap_1. }
  pose proof (NoDup_lookup by_id i j a Hn Hi Hj). lia.
Qed.

(** A later account of a sorted list is not smaller than an earlier one, and conversely. *)
Lemma by_id_index i j a b :
  by_id !! i = Some a → by_id !! j = Some b → String.ltb (AcID a) (AcID b) = true → (i < j)%nat.
Proof.
  intros Hi Hj H. destruct (decide (i < j)%nat); [done|].
  rewrite (by_id_le j i b a) in H; [done|done|done|lia].
Qed.

Lemma rotation_next_spec first rest :
  by_id = first :: rest → next_in_rotation (rotation_next by_id currentID first).
Proof.
  intros Hf. assert (H0 : by_id !! 0%nat = Some first) by (by rewrite Hf).
  assert (Hleast : ∀ b, only_stale b → String.ltb (AcID b) (AcID first) = false).
  { intros b [j Hj]%elem_of_by_id. apply (by_id_le 0 j); [done..|lia]. }
  unfold rotation_next, next_in_rotation. destruct (find_index _ by_id) as [i|] eqn:E.
  - apply find_index_Some in E as (cur & Hi & Hc%String.eqb_eq & _).
    pose proof (lookup_lt_Some _ _ _ Hi) as Hlt.
    destruct (decide (S i = length by_id)) as [El|Hl].
    + rewrite El, Nat.Div0.mod_same, H0. split; [apply elem_of_by_id; eauto|]. right.
      split; [done|right]. intros b [j Hj]%elem_of_by_id. rewrite <- Hc.
      apply (by_id_le j i b cur); [done..|]. apply lookup_lt_Some in Hj. lia.
    + rewrite Nat.mod_small by lia.
      destruct (lookup_lt_is_Some_2 by_id (S i)) as [nxt Hn]; [lia|]. rewrite Hn. simpl.
      split; [apply elem_of_by_id; eauto|]. left. exists cur.
      split; [apply elem_of_by_id; eauto|]. split; [done|]. rewrite <- Hc.
      split; [apply (by_id_lt i (S i)); [done..|lia]|].
      intros b [j Hj]%elem_of_by_id Hb. pose proof (by_id_index i j _ _ Hi Hj Hb).
      apply (by_id_le (S i) j); [done..|lia].
  - split; [apply elem_of_by_id; eauto|]. right. split; [done|left].
    intros cur [j Hj]%elem_of_by_id Hc. rewrite find_index_None in E.
    assert (cur ∈ by_id) as Hin by (apply list_elem_of_lookup; eauto).
    apply E in Hin. rewrite Hc, String.eqb_refl in Hin. done.
Qed.

Lemma staleRotation_decided :
  (∀ a, ¬ usable a) → decided (staleRotation accounts currentID group now params).
Proof.
  intros Hu. unfold staleRotation. change (stable_sort _ _) with by_id.
  destruct by_id as [|first rest] eqn:E.
  - apply decided_none; [done|]. intros a [j Hj]%elem_of_by_id. by rewrite E in Hj.
  - rewrite <- E. pose proof (rotation_next_spec _ _ E) as Hn.
    set (next := rotation_next by_id currentID first) in *.
    destruct (String.eqb (AcID next) currentID) eqn:Ec.
    + pose proof (decided_rotation next "all usable accounts stale; only unknown-usage candidate" Hu Hn) as D.
      rewrite Ec in D. apply String.eqb_eq in Ec. by rewrite Ec in D.
    + pose proof (decided_rotation next "all usable accounts stale; rotating unknown-usage accounts" Hu Hn) as D.
      by rewrite Ec in D.
Qed.

Hypothesis numbers : ∀ a, a ∈ accounts → candidate_numbers (scored a).

Let ranked : list scoredAccount := stable_sort rankLess (candidates accounts group now params).

Lemma ranked_rank_order : ranked = stable_sort rank_order (candidates accounts group now params).
Proof.
  apply stable_sort_ext. intros x y (a & -> & Ha & _)%elem_of_candidates (b & -> & Hb & _)%elem_of_candidates.
  apply rankLess_order; by apply numbers.
Qed.

Lemma ranked_nil : ranked = [] → ∀ a, ¬ usable a.
Proof.
  rewrite ranked_rank_order. intros H%stable_sort_nil a Ha.
  assert (scored a ∈ candidates accounts group now params) as Hc by (apply elem_of_candidates; eauto).
  rewrite H in Hc. by apply elem_of_nil in Hc.
Qed.

Lemma ranked_head best rest : ranked = best :: rest → ∃ a, best = scored a ∧ highest_ranked a.
Proof.
  rewrite ranked_rank_order. intros H. apply stable_sort_head in H as [Hin Hmin]; [|apply _].
  apply elem_of_candidates in Hin as (a & -> & Ha). exists a. split; [done|]. split; [done|].
  intros b Hb. apply Hmin. apply elem_of_candidates. eauto.
Qed.

Lemma elem_of_ranked c : c ∈ ranked ↔ ∃ a, c = scored a ∧ usable a.
Proof. unfold ranked. by rewrite elem_of_stable_sort, elem_of_candidates. Qed.

Lemma find_current c :
  List.find (λ c, String.eqb (AcID (account c)) currentID) ranked = Some c →
  ∃ a, c = scored a ∧ usable a ∧ AcID a = currentID.
Proof.
  intros [Hin%list_elem_of_In Hc%String.eqb_eq]%find_some.
  apply elem_of_ranked in Hin as (a & -> & Ha). eauto.
Qed.

Lemma find_no_current :
  List.find (λ c, String.eqb (AcID (account c)) currentID) ranked = None →
  ∀ a, usable a → AcID a ≠ currentID.
Proof.
  intros H a Ha Hc. assert (scored a ∈ ranked) as Hin by (apply elem_of_ranked; eauto).
  apply list_elem_of_In in Hin. apply (find_none _ _ H) in Hin. simpl in Hin.
  by rewrite Hc, String.eqb_refl in Hin.
Qed.

Lemma select_decided : SchedulerParams_Normalized params = params →
  decided (SelectAccount accounts currentID group now params).
Proof.
  intros Hnorm. unfold SelectAccount. rewrite Hnorm. change (stable_sort rankLess _) with ranked.
  destruct ranked as [|b rest] eqn:E.
  { apply staleRotation_decided. by apply ranked_nil. }
  rewrite <- E. destruct (ranked_head _ _ E) as (best & -> & Hbest).
  assert (Hid : AcID best ≠ ""%string) by apply Hbest.
  destruct (String.eqb_spec currentID "") as [He|Hne].
  { apply decided_switch; [done|congruence|]. intros cur (_ & _ & [Hg _] & _) Hc. congruence. }
  destruct (List.find _ ranked) as [c|] eqn:F.
  - apply find_current in F as (cur & -> & Hcur & Hc). simpl.
    destruct (String.eqb_spec (AcID best) currentID) as [Hb|Hb].
    { eapply decided_stay; eauto. }
    destruct (fleb _ _) eqn:L.
    { eapply decided_stay; eauto. }
    apply decided_switch; [done|done|]. intros cur' Hcur' Hc'.
    assert (cur' = cur) as -> by (apply same_id; [apply Hcur'|apply Hcur|congruence]). done.
  - pose proof (find_no_current F) as Hn. apply decided_switch; [done| |].
    + apply Hn, Hbest.
    + intros cur Hcur Hc. by destruct (Hn cur Hcur).
Qed.
End selection.

Lemma account_candidate_numbers a now params :
  params_numbers params = true → account_numbers a = true →
  candidate_numbers (scored now (SchedulerParams_Normalized params) a).
Proof.
  intros Hp Ha. split; simpl.
  - unfold AccountScore. rewrite Normalized_idempotent. by apply AccountScore_not_nan.
  - unfold account_numbers in Ha. split_bools. by apply Utilization_not_nan.
Qed.

Lemma SelectAccount_normalized accounts currentID group now params :
  SelectAccount accounts currentID group now (SchedulerParams_Normalized params) =
  SelectAccount accounts currentID group now params.
Proof. unfold SelectAccount. by rewrite Normalized_idempotent. Qed.

(** C32: What the scheduler decides, whatever the clock, among accounts with distinct ids whose
    windows have finite usage and limits that are numbers (not NaN), with finite gates and an
    urgency bound above 1, as normalized (a usage that is not finite makes the quota ceilings
    meaningless, see [nan_passes_gates]).  While an account of the group is usable (healthy, off cooldown, under every quota ceiling and
    freshly observed) it takes the highest ranked one, except that it stays on a usable
    current account whose score is within the switch margin; when all that could be used
    have stale observations it goes round them in the order of their ids; otherwise it
    chooses nothing. *)
Theorem selection_exact accounts currentID group now params :
  NoDup (AcID <$> accounts) → params_numbers params = true →
  forallb account_numbers accounts = true →
  decided accounts currentID group now (SchedulerParams_Normalized params)
    (SelectAccount accounts currentID group now params).
Proof.
  intros Hn Hp Ha. rewrite <- SelectAccount_normalized. apply select_decided; [done| |].
  - intros a Hin. apply account_candidate_numbers; [done|]. by apply (forallb_elem _ accounts).
  - apply Normalized_idempotent.
Qed.

(** The choice does not depend on the order of the accounts. *)
Theorem selection_order_independent accounts accounts' currentID group now params :
  NoDup (AcID <$> accounts) → params_numbers params = true →
  forallb account_numbers accounts = true → accounts ≡ₚ accounts' →
  SelectAccount accounts currentID group now params = SelectAccount accounts' currentID group now params.
Proof.
  intros Hn Hp Ha Hperm. set (p := SchedulerParams_Normalized params).
  assert (Hnum : ∀ a, a ∈ accounts → candidate_numbers (scored now p a)).
  { intros a Hin. apply account_candidate_numbers; [done|]. by apply (forallb_elem _ accounts). }
  assert (Hn' : NoDup (AcID <$> accounts')) by by rewrite <- Hperm.
  assert (Hc : stable_sort rankLess (candidates accounts group now p) =
               stable_sort rankLess (candidates accounts' group now p)).
  { rewrite (ranked_rank_order accounts group now p Hnum), (ranked_rank_order accounts' group now p)
      by (intros a Hin; apply Hnum; by rewrite Hperm).
    apply (stable_sort_unique _); [|].
    - intros x y (a & -> & Hu)%elem_of_candidates (b & -> & Hv)%elem_of_candidates H1 H2.
      f_equal. apply (same_id accounts); [done|apply Hu|apply Hv|]. by apply (rank_order_total _ _ H1 H2).
    - unfold candidates. apply Permutation_map. by apply filter_perm. }
  assert (Hs : ∀ f, stable_sort (less_str AcID) (List.filter f accounts) =
                    stable_sort (less_str AcID) (List.filter f accounts')).
  { intros f. apply (stable_sort_unique _); [|by apply filter_perm].
    intros x y [Hx _]%list_elem_of_In%filter_In [Hy _]%list_elem_of_In%filter_In H1 H2.
    apply (same_id accounts); [done|by apply list_elem_of_In..|]. by apply ltb_trichotomy. }
  unfold SelectAccount. cbv zeta. fold p. rewrite Hc. unfold staleRotation. by rewrite Hs.
Qed.

(** ** Leases (lease_store.go)

    The map of leases under its lock.  [Current] takes the lock twice, once to read and
    once to drop an expired lease; others may come in between. *)

Definition LeaseStore : Type := gmap string AgentLease.
Definition DefaultLeaseTTL : duration := 5 * hour.
Definition DefaultLeaseReevalInterval : duration := minute.

Definition leaseKey (sessionID : string) (group : ProviderGroup) : string :=
  group +:+ String "000" sessionID.

Definition leaseExpired (lease : AgentLease) (now : time) : bool :=
  negb (is_zero (LeExpiresAt lease)) && negb (time_after (LeExpiresAt lease) now).

Definition Current (sessionID : string) (group : ProviderGroup) (now : time) :
    Prog LeaseStore (option AgentLease) :=
  if String.eqb sessionID "" || String.eqb group "" then mret None
  else
    lease ← ask (λ s, s !! leaseKey sessionID group);
    match lease with
    | None => mret None
    | Some lease =>
        if leaseExpired lease now then
          put (delete (leaseKey sessionID group)) ≫= λ _, mret None
        else mret (Some lease)
    end.

(** The lease [Upsert] stores, under its key; nothing when a name is missing. *)
Definition new_lease (sessionID agentID : string) (account : AccountState) (model : string)
    (now : time) (ttl : duration) : option (string * AgentLease) :=
  if String.eqb sessionID "" || String.eqb (AcID account) "" then None
  else
    let group := if String.eqb (AcGroup account) "" then ClassifyProviderGroup (AcProvider account)
                 else AcGroup account in
    let account :=
      {| AcID := AcID account; AcDisplayName := AcDisplayName account; AcProvider := AcProvider account;
         AcGroup := group; AcStatus := AcStatus account; AcFiveHour := AcFiveHour account;
         AcSevenDay := AcSevenDay account; AcRateLimit := AcRateLimit account;
         AcCooldownUntil := AcCooldownUntil account; AcObservedAt := AcObservedAt account;
         AcAllowStale := AcAllowStale account |} in
    let ttl := if ttl <=? 0 then DefaultLeaseTTL else ttl in
    Some (leaseKey sessionID group,
          NewAgentLease ("lease:" +:+ group +:+ ":" +:+ sessionID) sessionID agentID account model now ttl).

Definition Upsert (sessionID agentID : string) (account : AccountState) (model : string)
    (now : time) (ttl : duration) : Prog LeaseStore (option AgentLease) :=
  match new_lease sessionID agentID account model now ttl with
  | None => mret None
  | Some (key, lease) => put (insert key lease) ≫= λ _, mret (Some lease)
  end.

Definition lease_less : AgentLease → AgentLease → bool :=
  less_then (less_str LeGroup) (less_then (less_str LeSessionID) (less_str LeID)).

Definition Snapshot (now : time) (s : LeaseStore) : list AgentLease :=
  stable_sort lease_less (List.filter (λ l, negb (leaseExpired l now)) (map_to_list s).*2).
Definition Count (now : time) (s : LeaseStore) : nat := length (Snapshot now s).

(** ** The target of a request (resolver.go) *)

Record RuntimeTarget := { RtProvider : string; RtModel : string; RtGroup : ProviderGroup }.

Definition ResolveModelTarget (requestedModel fallbackProvider fallbackModel : string) : RuntimeTarget :=
  let requested := trim_space requestedModel in
  let model := if String.eqb requested "" then trim_space fallbackModel else requested in
  let modelGroup := ClassifyModelGroup model in
  let fallbackProvider := trim_space fallbackProvider in
  let fallbackGroup := ClassifyProviderGroup fallbackProvider in
  let own group provider := if String.eqb fallbackGroup group then fallbackProvider else provider in
  {| RtProvider :=
       if String.eqb modelGroup GroupClaude then own GroupClaude "anthropic"%string
       else if String.eqb modelGroup GroupCodex then own GroupCodex "openai"%string
       else if String.eqb modelGroup GroupLocal then own GroupLocal "ollama"%string
       else fallbackProvider;
     RtModel := model;
     RtGroup := if String.eqb modelGroup GroupDefault then fallbackGroup else modelGroup |}.

Definition explicitModelOverridesRouter (requestedModel : string) : bool :=
  let requestedModel := trim_space requestedModel in
  if String.eqb requestedModel "" then false
  else negb (String.eqb (ClassifyModelGroup requestedModel) GroupDefault).

(** ** The accounts of a configuration (server/runtime_api.go)

    [display] gives the display name of a configured provider; it is shown, not decided
    with. *)

Definition runtimeAccountFromProvider (providerName displayName : string) (now : time) : AccountState :=
  {| AcID := "provider:" +:+ providerName; AcDisplayName := displayName; AcProvider := providerName;
     AcGroup := ClassifyProviderGroup providerName; AcStatus := AccountHealthy;
     AcFiveHour := no_window; AcSevenDay := no_window; AcRateLimit := no_window;
     AcCooldownUntil := time_zero; AcObservedAt := now; AcAllowStale := true |}.

Definition account_less : AccountState → AccountState → bool :=
  less_then (less_str AcGroup) (less_str AcID).

(** [providers] are the keys of [cfg.Providers], in the order the map was ranged over. *)
Definition runtimeAccountsFromConfig (providers : list string) (display : string → string)
    (activeProviderName activeProviderDisplayName : string) (now : time) : list AccountState :=
  let names := stable_sort (less_str id) (List.filter (λ n, negb (String.eqb n "")) providers) in
  let accounts := map (λ n, runtimeAccountFromProvider n (display n) now) names in
  let accounts :=
    if negb (String.eqb activeProviderName "") && negb (existsb (String.eqb activeProviderName) names)
    then accounts ++ [runtimeAccountFromProvider activeProviderName activeProviderDisplayName now]
    else accounts in
  stable_sort account_less accounts.

Definition runtimeCurrentAccountID (accounts : list AccountState) (providerName : string) : string :=
  if String.eqb providerName "" then ""
  else
    let want := "provider:" +:+ providerName in
    if existsb (λ a, String.eqb (AcID a) want) accounts then want else "".

Definition runtimeAccountByID (accounts : list AccountState) (accountID : string) : option AccountState :=
  List.find (λ a, String.eqb (AcID a) accountID) accounts.

(** ** One request (server/runtime_target.go)

    [accounts] are those of the configuration with the telemetry merged in. *)

Definition selectDirectRuntimeProviderName (accounts : list AccountState) (target : RuntimeTarget)
    (now : time) (sessionID : string) : Prog LeaseStore (string * SelectionDecision) :=
  if String.eqb (RtGroup target) "" || String.eqb (RtGroup target) GroupDefault then
    mret (RtProvider target,
          {| DeAction := DecisionStay; DeAccountID := runtimeCurrentAccountID accounts (RtProvider target);
             DeScore := f_zero; DeReason := "default group stays on resolved provider" |})
  else
    lease ← Current sessionID (RtGroup target) now;
    let current := match lease with
                   | Some l => LeAccountID l
                   | None => runtimeCurrentAccountID accounts (RtProvider target)
                   end in
    let pinned :=
      match lease with
      | None => None
      | Some l =>
          if NeedsReeval now DefaultLeaseReevalInterval l then None
          else
            match runtimeAccountByID accounts (LeAccountID l) with
            | None => None
            | Some a =>
                if Eligible a now no_params then
                  let leasedProvider := trim_prefix (LeAccountID l) "provider:" in
                  if String.eqb leasedProvider "" then None
                  else Some (leasedProvider,
                    {| DeAction := DecisionStay; DeAccountID := LeAccountID l; DeScore := f_zero;
                       DeReason := "leased account inside re-eval interval" |})
                else None
            end
      end in
    match pinned with
    | Some r => mret r
    | None =>
        let selection := SelectAccount accounts current (RtGroup target) now no_params in
        if String.eqb (DeAccountID selection) "" then mret (RtProvider target, selection)
        else
          (match runtimeAccountByID accounts (DeAccountID selection) with
           | Some a => Upsert sessionID "" a (RtModel target) now DefaultLeaseTTL
           | None => mret None
           end) ≫= λ _,
          let selectedProvider := trim_prefix (DeAccountID selection) "provider:" in
          mret (if String.eqb selectedProvider "" then RtProvider target else selectedProvider, selection)
    end.

(** ** No choice passes a gate it should not

    This needs no assumption about the numbers: whatever the comparisons of NaN do to the
    ranking, only candidates are ranked. *)

Lemma SelectAccount_gated accounts currentID group now params :
  let p := SchedulerParams_Normalized params in
  let d := SelectAccount accounts currentID group now params in
  DeAccountID d = ""%string ∨
  ∃ a, AcID a = DeAccountID d ∧
    (usable accounts group now p a ∨
     only_stale accounts group now p a ∧ ∀ b, ¬ usable accounts group now p b).
Proof.
  intros p d. subst d. unfold SelectAccount. cbv zeta. fold p.
  destruct (stable_sort rankLess _) as [|best rest] eqn:E.
  - assert (Hu : ∀ b, ¬ usable accounts group now p b).
    { intros b Hb. apply stable_sort_nil in E.
      assert (scored now p b ∈ candidates accounts group now p) as Hin by (apply elem_of_candidates; eauto).
      rewrite E in Hin. by apply elem_of_nil in Hin. }
    unfold staleRotation. destruct (stable_sort (less_str AcID) _) as [|first rest] eqn:Es; [by left|right].
    set (next := rotation_next (first :: rest) currentID first).
    assert (next ∈ first :: rest) as Hn.
    { subst next. unfold rotation_next. destruct (find_index _ _); [|left].
      destruct (_ !! _) eqn:El; [|left]. by apply list_elem_of_lookup_2 in El. }
    rewrite <- Es, elem_of_stable_sort in Hn.
    apply elem_of_stale in Hn. exists next. split; [|by right].
    by destruct (String.eqb_spec (AcID next) currentID) as [He|].
  - right. assert (Hr : ∀ c, c ∈ best :: rest → ∃ a, c = scored now p a ∧ usable accounts group now p a).
    { intros c Hc. rewrite <- E, elem_of_stable_sort in Hc. by apply elem_of_candidates. }
    destruct (Hr best) as (a & -> & Ha); [left|].
    destruct (String.eqb currentID ""); [eauto|].
    destruct (List.find _ _) as [c|] eqn:F; [|eauto].
    apply find_some in F as [Hc%list_elem_of_In Hid%String.eqb_eq].
    apply Hr in Hc as (b & -> & Hb). destruct (String.eqb _ _); [eauto|].
    destruct (fleb _ _); eauto.
Qed.

(** The account a request ends up with, whatever others do to the leases meanwhile. *)
Definition gated_choice (accounts : list AccountState) (now : time) (r : string * SelectionDecision) : Prop :=
  DeAccountID (snd r) = ""%string ∨
  ∃ a, a ∈ accounts ∧ AcID a = DeAccountID (snd r) ∧
    passes_gates now (SchedulerParams_Normalized no_params) a.

Lemma wp_Current sessionID group now s (Q : option AgentLease → LeaseStore → Prop) :
  (∀ l s, Q l s) → wp (λ _ _, True) (λ _ _, True) (Current sessionID group now) Q s.
Proof.
  intros HQ. unfold Current. destruct (_ || _); [apply HQ|].
  intros s0 _. split; [done|]. simpl. destruct (s0 !! _) as [l|]; simpl; [|apply HQ].
  destruct (leaseExpired l now); simpl; [|apply HQ]. intros s1 _. split; [done|apply HQ].
Qed.

Lemma selectDirect_gated accounts target now sessionID s :
  RtGroup target ≠ ""%string → RtGroup target ≠ GroupDefault →
  wp (λ _ _, True) (λ _ _, True) (selectDirectRuntimeProviderName accounts target now sessionID)
    (λ r _, gated_choice accounts now r) s.
Proof.
  intros H1 H2. unfold selectDirectRuntimeProviderName.
  apply String.eqb_neq in H1 as ->. apply String.eqb_neq in H2 as ->. simpl orb. cbn iota.
  apply wp_bind, wp_Current. intros lease s1.
  destruct (match lease with Some _ => _ | None => None end) as [r|] eqn:E.
  - destruct lease as [l|]; [|done]. case_guards. right.
    match goal with H : runtimeAccountByID _ _ = Some ?a |- _ => exists a; unfold runtimeAccountByID in H;
      apply find_some in H as [Hin%list_elem_of_In Hid%String.eqb_eq] end.
    split; [done|]. split; [done|].
    match goal with H : Eligible _ _ _ = true |- _ => unfold Eligible in H; apply String.eqb_eq, reason_spec in H end.
    naive_solver.
  - set (c := match lease with Some l => LeAccountID l | None => _ end).
    pose proof (SelectAccount_gated accounts c (RtGroup target) now no_params) as G.
    cbv zeta in G |- *. destruct (SelectAccount _ _ _ _ _) as [action id sc reason]. simpl in G |- *.
    assert (Hg : ∀ name, gated_choice accounts now (name, {| DeAction := action; DeAccountID := id; DeScore := sc; DeReason := reason |})).
    { intros name. destruct G as [->|(a & Ha & Hu)]; [by left|right]. exists a. unfold usable, only_stale in Hu. naive_solver. }
    destruct (String.eqb id ""); [apply Hg|].
    apply wp_bind. destruct (runtimeAccountByID _ _) as [a|]; [|apply Hg].
    unfold Upsert. destruct (new_lease _ _ _ _ _ _) as [[k l]|]; [|apply Hg].
    intros s2 _. split; [done|apply Hg].
Qed.

(** ** The rotation reaches every account

    While no account is usable, a request whose current account is the last choice is sent
    to the next stale account. *)

Section rotation.
Context (accounts : list AccountState) (group : ProviderGroup) (now : time) (params : SchedulerParams).
Let p : SchedulerParams := SchedulerParams_Normalized params.
Hypothesis ids : NoDup (AcID <$> accounts).
Hypothesis none_usable : ∀ a, ¬ usable accounts group now p a.

(** The account chosen after [currentID]. *)
Definition next_choice (currentID : string) : string :=
  DeAccountID (SelectAccount accounts currentID group now params).

Let rotation : list AccountState :=
  stable_sort (less_str AcID) (List.filter (λ a, negb (outside_group group a)
    && String.eqb (ineligibleReason a now p) "usage stale") accounts).

Lemma rotation_elem a : a ∈ rotation ↔ only_stale accounts group now p a.
Proof. unfold rotation. rewrite elem_of_stable_sort. apply elem_of_stale. Qed.

Lemma next_choice_rotation currentID first rest :
  rotation = first :: rest → next_choice currentID = AcID (rotation_next rotation currentID first).
Proof.
  intros Hr. unfold next_choice, SelectAccount. cbv zeta. fold p.
  destruct (stable_sort rankLess _) as [|best l] eqn:E.
  - unfold staleRotation. change (stable_sort (less_str AcID) _) with rotation. rewrite Hr.
    by destruct (String.eqb_spec (AcID (rotation_next (first :: rest) currentID first)) currentID) as [He|].
  - assert (best ∈ candidates accounts group now p) as Hin.
    { apply (elem_of_stable_sort rankLess). rewrite E. left. }
    apply elem_of_candidates in Hin as (a & _ & Ha). by destruct (none_usable a).
Qed.

Lemma rotation_index i j a b : rotation !! i = Some a → rotation !! j = Some b → AcID a = AcID b → i = j.
Proof.
  intros Hi Hj Hab. apply (NoDup_lookup rotation i j a); [|done|].
  - unfold rotation. rewrite stable_sort_perm. apply NoDup_ListNoDup, List.NoDup_filter, NoDup_ListNoDup.
    by eapply NoDup_fmap_1.
  - rewrite Hj. f_equal. symmetry. apply (same_id accounts); [done| | |done].
    + apply (rotation_elem a). by eapply list_elem_of_lookup_2.
    + apply (rotation_elem b). by eapply list_elem_of_lookup_2.
Qed.

(** From any position the choice moves one place on, cyclically. *)
Lemma next_choice_step i a :
  rotation !! i = Some a →
  ∃ b, rotation !! (S i mod length rotation)%nat = Some b ∧ next_choice (AcID a) = AcID b.
Proof.
  intros Hi. pose proof (lookup_lt_Some _ _ _ Hi) as Hlt.
  destruct (lookup_lt_is_Some_2 rotation (S i mod length rotation)%nat) as [b Hb].
  { apply Nat.mod_upper_bound. lia. }
  exists b. split; [done|]. destruct rotation as [|first rest] eqn:E; [simpl in Hlt; lia|].
  rewrite (next_choice_rotation (AcID a) first rest E). f_equal. rewrite E.
  unfold rotation_next. destruct (find_index _ _) as [k|] eqn:F.
  - apply find_index_Some in F as (c & Hk & Hc%String.eqb_eq & _). rewrite <- E in Hi, Hk.
    rewrite (rotation_index k i c a) by done. by rewrite Hb.
  - rewrite find_index_None in F. apply list_elem_of_lookup_2 in Hi. apply F in Hi.
    by rewrite String.eqb_refl in Hi.
Qed.

Lemma next_choice_iter k i a :
  rotation !! i = Some a →
  ∃ b, rotation !! ((i + k) mod length rotation)%nat = Some b ∧ Nat.iter k next_choice (AcID a) = AcID b.
Proof.
  intros Hi. pose proof (lookup_lt_Some _ _ _ Hi) as Hlt.
  induction k as [|k (b & Hb & Hk)]; simpl.
  - exists a. by rewrite Nat.add_0_r, Nat.mod_small.
  - destruct (next_choice_step _ b Hb) as (c & Hc & Hn). exists c. split; [|by rewrite Hk].
    rewrite <- Hc. f_equal. rewrite Nat.add_succ_r, <- Nat.add_1_l, <- (Nat.add_1_l (_ mod _)).
    by rewrite Nat.Div0.add_mod_idemp_r.
Qed.

Lemma rotation_reaches a currentID :
  only_stale accounts group now p a →
  ∃ k, (1 ≤ k ≤ length accounts)%nat ∧ Nat.iter k next_choice currentID = AcID a.
Proof.
  intros Ha. pose proof Ha as [j Hj]%rotation_elem%list_elem_of_lookup.
  pose proof (lookup_lt_Some _ _ _ Hj) as Hlt.
  assert (length rotation ≤ length accounts)%nat as Hlen.
  { unfold rotation. rewrite stable_sort_perm. apply filter_length_le. }
  destruct rotation as [|first rest] eqn:E; [simpl in Hlt; lia|]. rewrite <- E in *.
  set (b := rotation_next rotation currentID first).
  assert (∃ i, rotation !! i = Some b) as [i Hi].
  { apply list_elem_of_lookup, rotation_elem.
    by apply (rotation_next_spec accounts currentID group now p ids first rest). }
  pose proof (lookup_lt_Some _ _ _ Hi) as Hilt.
  pose (k := (if decide (i ≤ j)%nat then j - i else length rotation - i + j)%nat).
  assert (Hk : ((i + k) mod length rotation)%nat = j ∧ (S k ≤ length rotation)%nat).
  { subst k. destruct (decide _).
    - rewrite Nat.mod_small by lia. lia.
    - replace (i + (length rotation - i + j))%nat with (j + 1 * length rotation)%nat by lia.
      rewrite Nat.Div0.mod_add, Nat.mod_small by done. lia. }
  destruct Hk as [Hk Hkn]. destruct (next_choice_iter k i b Hi) as (c & Hc & Hit).
  rewrite Hk, Hj in Hc. injection Hc as <-. exists (S k). split; [lia|].
  rewrite Nat.iter_succ_r, (next_choice_rotation currentID first rest) by done. exact Hit.
Qed.
End rotation.

(** No account is pinned while all are stale.  As long as the accounts of a group that
    could be used have stale observations only, repeated requests go round all of them:
    from whatever current account, each is chosen after at most as many requests as there
    are accounts. *)
Theorem rotation_visits_all accounts currentID group now params a :
  NoDup (AcID <$> accounts) →
  (∀ b, ¬ usable accounts group now (SchedulerParams_Normalized params) b) →
  only_stale accounts group now (SchedulerParams_Normalized params) a →
  ∃ k, (1 ≤ k ≤ length accounts)%nat ∧
    Nat.iter k (next_choice accounts group now params) currentID = AcID a.
Proof. intros Hn Hu Ha. by apply rotation_reaches. Qed.

(** ** Runs *)

Definition ex_now : time := 1000 * hour.
Definition ex_window (used : Z) (resetIn : duration) : QuotaWindow :=
  {| Used := f_ratio used 100; Limit := f_one; ResetAt := ex_now + resetIn |}.
Definition ex_account (id : string) (five seven : Z) (resetIn : duration) (observed : time) : AccountState :=
  {| AcID := id; AcDisplayName := ""; AcProvider := "anthropic"; AcGroup := GroupClaude;
     AcStatus := AccountHealthy; AcFiveHour := ex_window five (5 * hour);
     AcSevenDay := ex_window seven resetIn; AcRateLimit := no_window; AcCooldownUntil := time_zero;
     AcObservedAt := observed; AcAllowStale := false |}.

(** An account whose weekly quota is about to reset is used first; the current one is kept
    within the switch margin; an exhausted one is gated. *)
Definition ex_accounts : list AccountState :=
  [ex_account "fresh-week" 10 20 (6 * 24 * hour) ex_now;
   ex_account "expires-soon" 10 40 (2 * hour) ex_now;
   ex_account "expires-later" 10 40 (20 * hour) ex_now;
   ex_account "exhausted" 95 10 (2 * hour) ex_now].

Example ex_selection :
  map (λ current, let d := SelectAccount ex_accounts current GroupClaude ex_now no_params in
                  (DeAction d, DeAccountID d, DeReason d))
    [""; "expires-later"; "fresh-week"]%string =
  [("switch", "expires-soon", "highest usable burst multiplied by quota perishability");
   ("stay", "expires-later", "sticky current within 25% switch margin");
   ("switch", "expires-soon", "highest usable burst multiplied by quota perishability")]%string.
Proof. vm_compute. reflexivity. Qed.

Lemma selection_exact_witness :
  decided ex_accounts "fresh-week" GroupClaude ex_now (SchedulerParams_Normalized no_params)
    (SelectAccount ex_accounts "fresh-week" GroupClaude ex_now no_params).
Proof.
  apply (selection_exact ex_accounts "fresh-week" GroupClaude ex_now no_params);
    [apply (bool_decide_unpack _); vm_compute; exact I|vm_compute; reflexivity..].
Defined.

Definition ex_stale : list AccountState :=
  [ex_account "b" 10 20 hour (ex_now - hour); ex_account "a" 10 20 hour (ex_now - hour);
   ex_account "c" 10 20 hour (ex_now - hour)].

Lemma ex_stale_scope :
  (∀ b, ¬ usable ex_stale GroupClaude ex_now (SchedulerParams_Normalized no_params) b) ∧
  ∀ b, b ∈ ex_stale → only_stale ex_stale GroupClaude ex_now (SchedulerParams_Normalized no_params) b.
Proof.
  assert (H : forallb (λ b, String.eqb (ineligibleReason b ex_now (SchedulerParams_Normalized no_params)) "usage stale"
                            && String.eqb (AcGroup b) GroupClaude) ex_stale = true) by (vm_compute; reflexivity).
  rewrite forallb_elem in H. split.
  - intros b (Hb & _ & Hg & Hf). specialize (H b Hb). split_bools. apply reason_spec in H. naive_solver.
  - intros b Hb. specialize (H b Hb). split_bools. apply reason_spec in H.
    split; [done|]. split; [by right; right|]. naive_solver.
Qed.

Lemma rotation_visits_all_witness :
  ∃ k, (1 ≤ k ≤ 3)%nat ∧ Nat.iter k (next_choice ex_stale GroupClaude ex_now no_params) "c" = "b"%string.
Proof.
  apply (rotation_visits_all ex_stale "c" GroupClaude ex_now no_params (ex_account "b" 10 20 hour (ex_now - hour)));
    [apply (bool_decide_unpack _); vm_compute; exact I|apply ex_stale_scope|apply ex_stale_scope; left].
Defined.

Example ex_rotation :
  map (next_choice ex_stale GroupClaude ex_now no_params) ["a"; "b"; "c"; ""]%string = ["b"; "c"; "a"; "a"]%string.
Proof. vm_compute. reflexivity. Qed.

Example ex_targets :
  map (λ t, let r := ResolveModelTarget (fst (fst t)) (snd (fst t)) (snd t) in (RtProvider r, RtModel r, RtGroup r))
    [("gpt-5.5", "anthropic", "claude-sonnet-4"); ("gpt-5.5-codex", "openai-work", "gpt-5.5");
     ("custom-model", "anthropic", ""); (" claude-sonnet-4-6 ", "openai", ""); ("qwen3:14b", "anthropic", "")]%string =
  [("openai", "gpt-5.5", "codex"); ("openai-work", "gpt-5.5-codex", "codex");
   ("anthropic", "custom-model", "claude"); ("anthropic", "claude-sonnet-4-6", "claude");
   ("ollama", "qwen3:14b", "local")]%string.
Proof. vm_compute. reflexivity. Qed.

(** ** What modelling showed *)

(** A window with an infinite limit has NaN as its utilization, and every comparison with
    NaN is false: the account passes all quota gates. *)
Example nan_passes_gates :
  let w := {| Used := S754_infinity false; Limit := S754_infinity false; ResetAt := time_zero |} in
  let a := {| AcID := "a"; AcDisplayName := ""; AcProvider := "openai"; AcGroup := GroupCodex;
              AcStatus := AccountHealthy; AcFiveHour := w; AcSevenDay := w; AcRateLimit := w;
              AcCooldownUntil := time_zero; AcObservedAt := ex_now; AcAllowStale := false |} in
  Utilization w = S754_nan ∧ Eligible a ex_now no_params = true.
Proof. vm_compute. done. Qed.

(** The gates do not look at the reset time of a window: an account whose rate limit was
    nearly used up stays gated after the limit has reset, however late. *)
Lemma rate_limit_gate_ignores_reset a p now now' :
  ineligibleReason a now p = "rate limit gated"%string → AcCooldownUntil a ≤ now' →
  ineligibleReason a now' p = "rate limit gated"%string.
Proof.
  unfold ineligibleReason, time_after. intros H Hc.
  destruct (String.eqb (AcID a) ""); [done|]. destruct (String.eqb (AcStatus a) _); [done|].
  destruct (_ && (now <? _)) in H; [done|]. replace (now' <? AcCooldownUntil a) with false by lia.
  rewrite andb_false_r. destruct (fltb _ _); [done|]. destruct (_ && _); [done|].
  destruct (fltb _ _) in H; [done|]. by destruct (_ && _) in H.
Qed.

(** [Current] reads under one lock and drops under another: a lease stored in between is
    dropped although it is fresh. *)
Example fresh_lease_dropped :
  let a := ex_account "a" 10 20 hour ex_now in
  let upserts (s s' : LeaseStore) := s' = s ∨ s' = (run (Upsert "s" "" a "m" ex_now hour) s).1 in
  let expired := (run (Upsert "s" "" a "m" (ex_now - 2 * hour) hour) ∅).1 in
  runs upserts (Current "s" GroupClaude ex_now) expired ∅ None ∧
  (run (Current "s" GroupClaude ex_now) (run (Upsert "s" "" a "m" ex_now hour) expired).1).2 ≠ None.
Proof.
  cbv zeta. split.
  - exists (run (Upsert "s" "" (ex_account "a" 10 20 hour ex_now) "m" (ex_now - 2 * hour) hour) (∅ : LeaseStore)).1.
    split; [by left|].
    exists (run (Upsert "s" "" (ex_account "a" 10 20 hour ex_now) "m" ex_now hour)
             (run (Upsert "s" "" (ex_account "a" 10 20 hour ex_now) "m" (ex_now - 2 * hour) hour) (∅ : LeaseStore)).1).1.
    split; [by right|]. by vm_compute.
  - by vm_compute.
Qed.
