(* ===== verification/Telemetry.v ===== *)
(** * Live telemetry of accounts

    runtimeplane/telemetry.go: the store of what the proxy observed of each provider, its
    records (usage, success, failure, responses, quota snapshots), and [Merge], which puts
    them into the accounts the scheduler of [RuntimePlane] ranks.  Ends with the path of a
    request through telemetry, leases and scheduler. *)

From S2P Require Import Prelude Prog GoLib GoFloat RuntimePlane.
Open Scope Z_scope.

(** ** State *)

Definition telemetryFiveHourWindow : duration := 5 * hour.
Definition telemetrySevenDayWindow : duration := 7 * 24 * hour.
Definition transientRecoverySuccesses : Z := 2.
Definition transientAvoidLadder : list duration :=
  [30 * second; 2 * minute; 10 * minute; 30 * minute].

Record usageSample := { SampleAt : time; Units : f64 }.

Record telemetryAccount := {
  TeID : string;
  TeProvider : string;
  TeGroup : ProviderGroup;
  TeStatus : AccountStatus;
  TeObservedAt : time;
  SnapshotAt : time;
  QuotaCooldownUntil : time;
  SoftAvoidUntil : time;
  TransientLevel : Z;
  SuccessStreak : Z;
  TeFiveHour : QuotaWindow;
  TeSevenDay : QuotaWindow;
  TeRateLimit : QuotaWindow;
  Samples : list usageSample;
}.

(** [TelemetryStore.accounts]; every method below runs under its lock. *)
Abbreviation TelemetryStore := (gmap string telemetryAccount) (only parsing).

(** Updates of single fields. *)
Definition with_identity (id provider : string) (group : ProviderGroup) (a : telemetryAccount) : telemetryAccount :=
  {| TeID := id; TeProvider := provider; TeGroup := group; TeStatus := TeStatus a;
     TeObservedAt := TeObservedAt a; SnapshotAt := SnapshotAt a; QuotaCooldownUntil := QuotaCooldownUntil a;
     SoftAvoidUntil := SoftAvoidUntil a; TransientLevel := TransientLevel a; SuccessStreak := SuccessStreak a;
     TeFiveHour := TeFiveHour a; TeSevenDay := TeSevenDay a; TeRateLimit := TeRateLimit a; Samples := Samples a |}.
Definition with_status (status : AccountStatus) (a : telemetryAccount) : telemetryAccount :=
  {| TeID := TeID a; TeProvider := TeProvider a; TeGroup := TeGroup a; TeStatus := status;
     TeObservedAt := TeObservedAt a; SnapshotAt := SnapshotAt a; QuotaCooldownUntil := QuotaCooldownUntil a;
     SoftAvoidUntil := SoftAvoidUntil a; TransientLevel := TransientLevel a; SuccessStreak := SuccessStreak a;
     TeFiveHour := TeFiveHour a; TeSevenDay := TeSevenDay a; TeRateLimit := TeRateLimit a; Samples := Samples a |}.
Definition with_times (observed snapshot cooldown : time) (a : telemetryAccount) : telemetryAccount :=
  {| TeID := TeID a; TeProvider := TeProvider a; TeGroup := TeGroup a; TeStatus := TeStatus a;
     TeObservedAt := observed; SnapshotAt := snapshot; QuotaCooldownUntil := cooldown;
     SoftAvoidUntil := SoftAvoidUntil a; TransientLevel := TransientLevel a; SuccessStreak := SuccessStreak a;
     TeFiveHour := TeFiveHour a; TeSevenDay := TeSevenDay a; TeRateLimit := TeRateLimit a; Samples := Samples a |}.
Definition with_recovery (soft : time) (level streak : Z) (a : telemetryAccount) : telemetryAccount :=
  {| TeID := TeID a; TeProvider := TeProvider a; TeGroup := TeGroup a; TeStatus := TeStatus a;
     TeObservedAt := TeObservedAt a; SnapshotAt := SnapshotAt a; QuotaCooldownUntil := QuotaCooldownUntil a;
     SoftAvoidUntil := soft; TransientLevel := level; SuccessStreak := streak;
     TeFiveHour := TeFiveHour a; TeSevenDay := TeSevenDay a; TeRateLimit := TeRateLimit a; Samples := Samples a |}.
Definition with_windows (five seven rate : QuotaWindow) (a : telemetryAccount) : telemetryAccount :=
  {| TeID := TeID a; TeProvider := TeProvider a; TeGroup := TeGroup a; TeStatus := TeStatus a;
     TeObservedAt := TeObservedAt a; SnapshotAt := SnapshotAt a; QuotaCooldownUntil := QuotaCooldownUntil a;
     SoftAvoidUntil := SoftAvoidUntil a; TransientLevel := TransientLevel a; SuccessStreak := SuccessStreak a;
     TeFiveHour := five; TeSevenDay := seven; TeRateLimit := rate; Samples := Samples a |}.
Definition with_samples (samples : list usageSample) (a : telemetryAccount) : telemetryAccount :=
  {| TeID := TeID a; TeProvider := TeProvider a; TeGroup := TeGroup a; TeStatus := TeStatus a;
     TeObservedAt := TeObservedAt a; SnapshotAt := SnapshotAt a; QuotaCooldownUntil := QuotaCooldownUntil a;
     SoftAvoidUntil := SoftAvoidUntil a; TransientLevel := TransientLevel a; SuccessStreak := SuccessStreak a;
     TeFiveHour := TeFiveHour a; TeSevenDay := TeSevenDay a; TeRateLimit := TeRateLimit a; Samples := samples |}.

(** ** Helpers *)

Definition maxTime (a b : time) : time := if time_after a b then a else b.

Definition firstNonEmpty (a b : string) : string := if String.eqb a "" then b else a.

Definition telemetryStatus (status : AccountStatus) : AccountStatus :=
  if String.eqb status "" then AccountHealthy else status.

Definition since (cutoff : time) (s : usageSample) : bool :=
  time_after (SampleAt s) cutoff || (SampleAt s =? cutoff).

Definition pruneUsageSamples (samples : list usageSample) (now : time) : list usageSample :=
  List.filter (since (time_add now (- telemetrySevenDayWindow))) samples.

(** The sums of the loop, in the order of the samples. *)
Definition telemetryUsage (samples : list usageSample) (now : time) : f64 * f64 :=
  let total cutoff :=
    fold_left (λ used s, if since cutoff s then fadd used (Units s) else used) samples f_zero in
  (total (time_add now (- telemetryFiveHourWindow)), total (time_add now (- telemetrySevenDayWindow))).

Definition applyFailureState (statusCode : Z) (now : time) (a : telemetryAccount) : telemetryAccount :=
  if (statusCode =? 401) || (statusCode =? 403) then
    with_recovery (SoftAvoidUntil a) (TransientLevel a) 0 (with_status AccountUnhealthy a)
  else if statusCode =? 429 then
    let a := with_recovery (SoftAvoidUntil a) (TransientLevel a) 0 (with_status AccountHealthy a) in
    with_times (TeObservedAt a) (SnapshotAt a)
      (maxTime (QuotaCooldownUntil a) (time_add now (5 * minute))) a
  else if 500 <=? statusCode then
    let level := if TransientLevel a <? Z.of_nat (length transientAvoidLadder)
                 then TransientLevel a + 1 else TransientLevel a in
    let avoid := default 0 (transientAvoidLadder !! Z.to_nat (level - 1)) in
    with_recovery (maxTime (SoftAvoidUntil a) (time_add now avoid)) level 0 (with_status AccountHealthy a)
  else a.

Definition applySuccessState (a : telemetryAccount) : telemetryAccount :=
  let a := with_status AccountHealthy a in
  if TransientLevel a =? 0 then a
  else
    let streak := SuccessStreak a + 1 in
    if (TransientLevel a <=? 1) || (transientRecoverySuccesses <=? streak)
    then with_recovery time_zero 0 0 a
    else with_recovery (SoftAvoidUntil a) (TransientLevel a) streak a.

(** ** Records *)

Definition account_key (provider : string) : string := "provider:" +:+ provider.

(** The account [ensureAccountLocked] returns; the caller changes it in place. *)
Definition ensureAccountLocked (provider : string) (group : ProviderGroup) (now : time)
    (s : TelemetryStore) : telemetryAccount :=
  let a := default
    {| TeID := account_key provider; TeProvider := provider; TeGroup := group; TeStatus := AccountHealthy;
       TeObservedAt := now; SnapshotAt := time_zero; QuotaCooldownUntil := time_zero;
       SoftAvoidUntil := time_zero; TransientLevel := 0; SuccessStreak := 0;
       TeFiveHour := no_window; TeSevenDay := no_window; TeRateLimit := no_window; Samples := [] |}
    (s !! account_key provider) in
  let group :=
    if negb (String.eqb group "") && negb (String.eqb group GroupDefault) then group
    else if String.eqb (TeGroup a) "" then ClassifyProviderGroup provider else TeGroup a in
  with_identity (TeID a) (if String.eqb (TeProvider a) "" then provider else TeProvider a) group a.

(** A record: take the account, apply the change, leave it in the map. *)
Definition record (provider : string) (group : ProviderGroup) (now : time)
    (change : telemetryAccount → telemetryAccount) (s : TelemetryStore) : TelemetryStore :=
  if String.eqb provider "" then s
  else <[account_key provider := change (ensureAccountLocked provider group now s)]> s.

Definition observed (now : time) (a : telemetryAccount) : telemetryAccount :=
  with_samples (pruneUsageSamples (Samples a) now) (with_times now (SnapshotAt a) (QuotaCooldownUntil a) a).

Definition RecordUsage (provider : string) (group : ProviderGroup) (inputTokens outputTokens : Z)
    (now : time) : TelemetryStore → TelemetryStore :=
  let units0 := f_of_Z (wrap64 (inputTokens + outputTokens)) in
  let units := if fltb units0 f_zero then f_zero else units0 in
  record provider group now (λ a,
    let a := with_times now (SnapshotAt a) (QuotaCooldownUntil a) (with_status AccountHealthy a) in
    let samples := if fltb f_zero units then Samples a ++ [{| SampleAt := now; Units := units |}]
                   else Samples a in
    with_samples (pruneUsageSamples samples now) a).

Definition RecordSuccess (provider : string) (group : ProviderGroup) (now : time) :
    TelemetryStore → TelemetryStore :=
  record provider group now (λ a, applySuccessState (observed now a)).

Definition RecordFailure (provider : string) (group : ProviderGroup) (statusCode : Z) (now : time) :
    TelemetryStore → TelemetryStore :=
  record provider group now (λ a, applyFailureState statusCode now (observed now a)).

(** What [ParseHeaderQuota] reads from the headers of a response. *)
Record HeaderQuotaObservation := { ObRateLimit : QuotaWindow; ObCooldownUntil : time }.

Definition RecordResponse (provider : string) (group : ProviderGroup) (statusCode : Z)
    (observation : HeaderQuotaObservation) (now : time) : TelemetryStore → TelemetryStore :=
  record provider group now (λ a,
    let a := observed now a in
    let a := if fltb f_zero (Limit (ObRateLimit observation))
             then with_windows (TeFiveHour a) (TeSevenDay a) (ObRateLimit observation) a else a in
    let a := if time_after (ObCooldownUntil observation) now
             then with_times (TeObservedAt a) (SnapshotAt a)
                    (maxTime (QuotaCooldownUntil a) (ObCooldownUntil observation)) a
             else a in
    applyFailureState statusCode now a).

Definition RecordAccountSnapshot (account : AccountState) (now : time) (s : TelemetryStore) :
    TelemetryStore :=
  let provider := AcProvider account in
  if String.eqb provider "" then s
  else
    let id := if String.eqb (AcID account) "" then account_key provider else AcID account in
    let group := if String.eqb (AcGroup account) "" then ClassifyProviderGroup provider else AcGroup account in
    let status := if String.eqb (AcStatus account) "" then AccountHealthy else AcStatus account in
    let observedAt := if is_zero (AcObservedAt account) then now else AcObservedAt account in
    let stored := ensureAccountLocked provider group observedAt s in
    let stored :=
      if time_before observedAt (SnapshotAt stored) then stored
      else
        with_samples (pruneUsageSamples (Samples stored) now)
          (with_windows (AcFiveHour account) (AcSevenDay account) (AcRateLimit account)
             (with_times (maxTime (TeObservedAt stored) observedAt) observedAt
                (maxTime (QuotaCooldownUntil stored) (AcCooldownUntil account))
                (with_status
                   (if String.eqb status AccountUnhealthy || negb (String.eqb (TeStatus stored) AccountUnhealthy)
                    then status else TeStatus stored)
                   (with_identity id provider group stored)))) in
    <[account_key provider := stored]> s.

Definition HasData (s : TelemetryStore) : bool := negb (Nat.eqb (size s) 0).

(** ** Merge *)

(** The quota windows of an account, or its own usage when it has no limits. *)
Definition window_or_usage (w : QuotaWindow) (used : f64) : QuotaWindow :=
  if fleb (Limit w) f_zero && fleb (Used w) f_zero
  then {| Used := used; Limit := f_zero; ResetAt := time_zero |} else w.

Definition has_window (w : QuotaWindow) : bool := fltb f_zero (Limit w) || fltb f_zero (Used w).

(** The account an observed one without configuration starts from. *)
Definition unconfigured (t : telemetryAccount) (five seven : QuotaWindow) : AccountState :=
  {| AcID := TeID t; AcDisplayName := ""; AcProvider := TeProvider t; AcGroup := TeGroup t;
     AcStatus := telemetryStatus (TeStatus t); AcFiveHour := five; AcSevenDay := seven;
     AcRateLimit := TeRateLimit t; AcCooldownUntil := time_zero; AcObservedAt := TeObservedAt t;
     AcAllowStale := true |}.

(** What [Merge] makes of one account with the telemetry of its id. *)
Definition merge_account (now : time) (t : telemetryAccount) (five seven : QuotaWindow)
    (a : AccountState) : AccountState :=
  let effectiveCooldown := maxTime (QuotaCooldownUntil t) (SoftAvoidUntil t) in
  {| AcID := AcID a; AcDisplayName := AcDisplayName a;
     AcProvider := firstNonEmpty (AcProvider a) (TeProvider t);
     AcGroup := if String.eqb (AcGroup a) "" || String.eqb (AcGroup a) GroupDefault
                then TeGroup t else AcGroup a;
     AcStatus := telemetryStatus (TeStatus t);
     AcFiveHour := if has_window five then five else AcFiveHour a;
     AcSevenDay := if has_window seven then seven else AcSevenDay a;
     AcRateLimit := if fltb f_zero (Limit (TeRateLimit t)) then TeRateLimit t else AcRateLimit a;
     AcCooldownUntil :=
       if time_after effectiveCooldown now then maxTime (AcCooldownUntil a) effectiveCooldown
       else if negb (is_zero (AcCooldownUntil a)) && negb (time_after (AcCooldownUntil a) now)
         then time_zero else AcCooldownUntil a;
     AcObservedAt := if time_after (TeObservedAt t) (AcObservedAt a) then TeObservedAt t else AcObservedAt a;
     AcAllowStale := AcAllowStale a |}.

(** One iteration over [s.accounts]; [byID] maps an id to its index in [out]. *)
Definition merge_step (now : time) (st : list AccountState * gmap string nat) (t : telemetryAccount) :
    list AccountState * gmap string nat :=
  let '(out, byID) := st in
  let '(fiveUsed, sevenUsed) := telemetryUsage (Samples t) now in
  let five := window_or_usage (TeFiveHour t) fiveUsed in
  let seven := window_or_usage (TeSevenDay t) sevenUsed in
  let '(out, byID, idx) :=
    match byID !! TeID t with
    | Some idx => (out, byID, idx)
    | None => (out ++ [unconfigured t five seven], <[TeID t := length out]> byID, length out)
    end in
  (alter (merge_account now t five seven) idx out, byID).

(** [observations] are the accounts of the store in the order the map was ranged over. *)
Definition Merge (observations : list telemetryAccount) (accounts : list AccountState) (now : time) :
    list AccountState :=
  let byID := fold_left (λ m p, <[AcID (snd p) := fst p]> m) (imap pair accounts) ∅ in
  stable_sort account_less (fst (fold_left (merge_step now) observations (accounts, byID))).

(** ** Histories

    What the proxy and the quota collectors record, in the order in which the calls took
    the lock; their times need not be ordered. *)

Inductive Observation :=
| Usage (provider : string) (group : ProviderGroup) (inputTokens outputTokens : Z) (now : time)
| Success (provider : string) (group : ProviderGroup) (now : time)
| Failure (provider : string) (group : ProviderGroup) (statusCode : Z) (now : time)
| Response (provider : string) (group : ProviderGroup) (statusCode : Z)
    (observation : HeaderQuotaObservation) (now : time)
| Quota (account : AccountState) (now : time).

Definition observe (o : Observation) : TelemetryStore → TelemetryStore :=
  match o with
  | Usage p g i o now => RecordUsage p g i o now
  | Success p g now => RecordSuccess p g now
  | Failure p g code now => RecordFailure p g code now
  | Response p g code obs now => RecordResponse p g code obs now
  | Quota a now => RecordAccountSnapshot a now
  end.

Definition telemetry (h : list Observation) : TelemetryStore := fold_left (λ s o, observe o s) h ∅.

Definition about (o : Observation) : string :=
  match o with
  | Usage p _ _ _ _ | Success p _ _ | Failure p _ _ _ | Response p _ _ _ _ => p
  | Quota a _ => AcProvider a
  end.

(** The change an observation makes to the account of its provider. *)
Definition change (o : Observation) (s : TelemetryStore) : telemetryAccount :=
  default (ensureAccountLocked (about o) "" 0 s) (observe o s !! account_key (about o)).

Lemma observe_lookup o s k :
  observe o s !! k =
    if decide (about o ≠ ""%string ∧ k = account_key (about o)) then Some (change o s) else s !! k.
Proof.
  assert (H : ∀ p v, (if decide (p ≠ ""%string ∧ k = account_key p)
      then Some (default (ensureAccountLocked p "" 0 s)
             ((if String.eqb p "" then s else <[account_key p := v]> s) !! account_key p))
      else s !! k) = (if String.eqb p "" then s else <[account_key p := v]> s) !! k).
  { intros p v. destruct (String.eqb_spec p ""); destruct (decide _) as [[? ?]|Hn]; subst; try done.
    - by rewrite !lookup_insert_eq.
    - rewrite lookup_insert_ne; [done|]. naive_solver. }
  unfold change. destruct o; symmetry; apply H.
Qed.

(** ** What no observation undoes *)

(** The status codes of a failure that say the account is fine. *)
Definition clears (o : Observation) : bool :=
  match o with
  | Usage _ _ _ _ _ | Success _ _ _ => true
  | Failure _ _ code _ | Response _ _ code _ _ => (code =? 429) || (500 <=? code)
  | Quota _ _ => false
  end.

(** A snapshot that does not rename the account. *)
Definition standard_id (o : Observation) : bool :=
  match o with
  | Quota a _ => String.eqb (AcID a) "" || String.eqb (AcID a) (account_key (AcProvider a))
  | _ => true
  end.

Lemma maxTime_spec a b : maxTime a b = Z.max a b.
Proof. unfold maxTime, time_after. destruct (Z.ltb_spec b a); lia. Qed.

(** The account an observation starts from is the stored one, up to its names. *)
Lemma ensure_stored p g now s a :
  s !! account_key p = Some a →
  let e := ensureAccountLocked p g now s in
  TeID e = TeID a ∧ TeStatus e = TeStatus a ∧ QuotaCooldownUntil e = QuotaCooldownUntil a ∧
  TransientLevel e = TransientLevel a ∧ SuccessStreak e = SuccessStreak a.
Proof. intros H. unfold ensureAccountLocked. by rewrite H. Qed.

Definition keeps (o : Observation) (e a : telemetryAccount) : Prop :=
  QuotaCooldownUntil e ≤ QuotaCooldownUntil a ∧
  (clears o = false → TeStatus e = AccountUnhealthy → TeStatus a = AccountUnhealthy) ∧
  (standard_id o = true → TeID e = account_key (about o) → TeID a = account_key (about o)) ∧
  (0 ≤ TransientLevel e ≤ 4 → 0 ≤ TransientLevel a ≤ 4).

Lemma failure_keeps o code now e a0 :
  (clears o = false → (code =? 429) || (500 <=? code) = false) →
  keeps o e a0 → keeps o e (applyFailureState code now a0).
Proof.
  unfold keeps, applyFailureState. intros Hc (H1 & H2 & H3 & H4).
  destruct ((code =? 401) || (code =? 403)) eqn:E1; simpl.
  { split_and!; [done|done|done|done]. }
  destruct (code =? 429) eqn:E2; simpl.
  { rewrite maxTime_spec. split_and!; [lia| |done|done]. intros Hcl. by specialize (Hc Hcl). }
  destruct (500 <=? code) eqn:E3; simpl; [|done].
  split_and!; [done| |done|].
  - intros Hcl. specialize (Hc Hcl). lia.
  - intros H. specialize (H4 H). destruct (TransientLevel a0 <? _) eqn:El; change (Z.of_nat 4) with 4 in El; lia.
Qed.

Lemma success_keeps o now e a0 :
  clears o = true → keeps o e a0 → keeps o e (applySuccessState (observed now a0)).
Proof.
  unfold keeps, applySuccessState. intros Hc (H1 & H2 & H3 & H4). rewrite Hc. simpl.
  destruct (TransientLevel a0 =? 0); simpl; [split_and!; done|].
  destruct ((TransientLevel a0 <=? 1) || _); simpl; (split_and!; [done|done|done|]); [lia|done].
Qed.

#[local] Instance keeps_preorder o : PreOrder (keeps o).
Proof.
  split; [by intros e|]. intros e1 e2 e3 (A1 & A2 & A3 & A4) (B1 & B2 & B3 & B4).
  split_and!; [lia|auto|auto|auto].
Qed.

(** An observation changes the account [ensureAccountLocked] hands out. *)
Lemma change_from o s :
  about o ≠ ""%string →
  ∃ g now, keeps o (ensureAccountLocked (about o) g now s) (change o s).
Proof.
  intros Hp. unfold change.
  assert (R : ∀ p g now f, p ≠ ""%string →
    record p g now f s !! account_key p = Some (f (ensureAccountLocked p g now s))).
  { intros p g now f ?. unfold record. destruct (String.eqb_spec p ""); [done|]. by rewrite lookup_insert_eq. }
  destruct o as [p g i out now|p g now|p g code now|p g code obs now|acc now]; simpl in *;
    [exists g, now..|].
  - unfold RecordUsage. by rewrite R.
  - unfold RecordSuccess. rewrite R by done. by apply success_keeps.
  - unfold RecordFailure. rewrite R by done. by apply failure_keeps.
  - unfold RecordResponse. rewrite R by done. apply failure_keeps; [done|].
    set (e := ensureAccountLocked p g now s). unfold keeps.
    destruct (fltb _ _), (time_after _ _); simpl; rewrite ?maxTime_spec; (split_and!; [lia|done|done|done]).
  - unfold RecordAccountSnapshot. destruct (String.eqb_spec (AcProvider acc) ""); [done|].
    rewrite lookup_insert_eq. cbn [from_option id]. set (now' := if is_zero _ then now else _).
    exists (if String.eqb (AcGroup acc) "" then ClassifyProviderGroup (AcProvider acc) else AcGroup acc), now'.
    set (e := ensureAccountLocked _ _ now' s). destruct (time_before _ _); [done|]. unfold keeps. simpl.
    rewrite maxTime_spec. split_and!; [lia| | |done].
    + intros _ ->. rewrite String.eqb_refl. cbn [negb]. rewrite orb_false_r.
      destruct (String.eqb _ AccountUnhealthy) eqn:Es; [by apply String.eqb_eq in Es|done].
    + intros Hs _. destruct (String.eqb_spec (AcID acc) ""); [done|]. simpl in Hs. by apply String.eqb_eq.
Qed.

Lemma change_keeps o s a :
  about o ≠ ""%string → s !! account_key (about o) = Some a → keeps o a (change o s).
Proof.
  intros Hp Ha. destruct (change_from o s Hp) as (g & now & K). etrans; [|exact K].
  destruct (ensure_stored (about o) g now s a Ha) as (E1 & E2 & E3 & E4 & _).
  unfold keeps. rewrite E1, E2, E3, E4. by split_and!.
Qed.

(** A new account starts with the standard id and level 0. *)
Lemma ensure_new p g now s :
  s !! account_key p = None →
  let e := ensureAccountLocked p g now s in
  TeID e = account_key p ∧ TransientLevel e = 0.
Proof. intros H. unfold ensureAccountLocked. by rewrite H. Qed.

(** What every store of a history without renaming snapshots looks like. *)
Definition store_ok (s : TelemetryStore) : Prop :=
  ∀ k a, s !! k = Some a → TeID a = k ∧ k ≠ ""%string ∧ 0 ≤ TransientLevel a ≤ 4.

Lemma account_key_inj p q : account_key p = account_key q → p = q.
Proof. by intros [= ?]. Qed.

Lemma account_key_nonempty p : account_key p ≠ ""%string.
Proof. done. Qed.

(** The account an observation creates. *)
Lemma change_new o s :
  about o ≠ ""%string → standard_id o = true → s !! account_key (about o) = None →
  TeID (change o s) = account_key (about o) ∧ 0 ≤ TransientLevel (change o s) ≤ 4.
Proof.
  intros Hp Hs Hn. destruct (change_from o s Hp) as (g & now & K).
  destruct (ensure_new (about o) g now s Hn) as [E1 E2].
  destruct K as (_ & _ & K3 & K4). split; [by apply K3|]. apply K4. lia.
Qed.

Lemma observe_ok o s : standard_id o = true → store_ok s → store_ok (observe o s).
Proof.
  intros Hs Hok k a. rewrite observe_lookup. destruct (decide _) as [[Hp ->]|Hn]; [|by apply Hok].
  intros [= <-]. destruct (s !! account_key (about o)) as [b|] eqn:Hb.
  - destruct (Hok _ _ Hb) as (Hid & _ & Hl). destruct (change_keeps o s b Hp Hb) as (_ & _ & K3 & K4). auto.
  - destruct (change_new o s Hp Hs Hb) as [K3 K4]. auto.
Qed.

Lemma history_ok h s :
  Forall (λ o, standard_id o = true) h → store_ok s → store_ok (fold_left (λ s o, observe o s) h s).
Proof. intros H. revert s. induction H as [|o h Ho _ IH]; intros s Hs; simpl; [done|]. by apply IH, observe_ok. Qed.

(** Along a history the cooldown of an account only grows, and it stays unhealthy until
    an observation clears it. *)
Lemma history_keeps h s k a :
  s !! k = Some a →
  ∃ a', fold_left (λ s o, observe o s) h s !! k = Some a' ∧
    QuotaCooldownUntil a ≤ QuotaCooldownUntil a' ∧
    (Forall (λ o, account_key (about o) = k → clears o = false) h →
     TeStatus a = AccountUnhealthy → TeStatus a' = AccountUnhealthy).
Proof.
  revert s a. induction h as [|o h IH]; intros s a Ha; simpl; [by exists a|].
  assert (∃ b, observe o s !! k = Some b ∧ QuotaCooldownUntil a ≤ QuotaCooldownUntil b ∧
    ((account_key (about o) = k → clears o = false) → TeStatus a = AccountUnhealthy → TeStatus b = AccountUnhealthy))
    as (b & Hb & Hq & Hu).
  { rewrite observe_lookup. destruct (decide _) as [[Hp ->]|Hn]; [|by exists a].
    destruct (change_keeps o s a Hp Ha) as (K1 & K2 & _). eexists. split; [done|]. auto. }
  destruct (IH _ b Hb) as (a' & Ha' & Hq' & Hu'). exists a'. split; [done|]. split; [lia|].
  intros [Ho Hh]%Forall_cons_1 Hs. auto.
Qed.

(** ** Refusals *)

Definition status_of (o : Observation) : option (Z * time) :=
  match o with
  | Failure _ _ code now | Response _ _ code _ now => Some (code, now)
  | _ => None
  end.

Lemma refusal_recorded o code t s :
  about o ≠ ""%string → status_of o = Some (code, t) →
  ∃ a, observe o s !! account_key (about o) = Some a ∧
    (code = 429 → t + 5 * minute ≤ QuotaCooldownUntil a) ∧
    (code = 401 ∨ code = 403 → TeStatus a = AccountUnhealthy).
Proof.
  intros Hp Ho. rewrite observe_lookup, decide_True by done. eexists. split; [done|].
  assert (R : ∀ p g now f, p ≠ ""%string →
    record p g now f s !! account_key p = Some (f (ensureAccountLocked p g now s))).
  { intros p g now f ?. unfold record. destruct (String.eqb_spec p ""); [done|]. by rewrite lookup_insert_eq. }
  assert (F : ∀ a, (code = 429 → t + 5 * minute ≤ QuotaCooldownUntil (applyFailureState code t a)) ∧
    (code = 401 ∨ code = 403 → TeStatus (applyFailureState code t a) = AccountUnhealthy)).
  { intros a. unfold applyFailureState. split; [intros ->|intros [->| ->]]; simpl; [|done..].
    rewrite maxTime_spec. unfold time_add. lia. }
  unfold change. destruct o as [|p g now|p g c now|p g c obs now|]; simplify_eq/=.
  - unfold RecordFailure. rewrite R by done. apply F.
  - unfold RecordResponse. rewrite R by done. apply F.
Qed.

(** ** What a merge shows of a blocked account *)

Section merge.
Context (now : time).

(** The account shows the cooldown and the health of its telemetry. *)
Definition shows (t : telemetryAccount) (a : AccountState) : Prop :=
  (now < QuotaCooldownUntil t → now < AcCooldownUntil a) ∧
  (TeStatus t = AccountUnhealthy → AcStatus a = AccountUnhealthy).

Lemma merge_account_shows t five seven a : shows t (merge_account now t five seven a).
Proof.
  unfold shows, merge_account, time_after. simpl. rewrite !maxTime_spec. split.
  - intros H. destruct (Z.ltb_spec now (Z.max (QuotaCooldownUntil t) (SoftAvoidUntil t))); lia.
  - by intros ->.
Qed.

Definition indexed (out : list AccountState) (byID : gmap string nat) : Prop :=
  NoDup (AcID <$> out) ∧ ∀ id i, byID !! id = Some i ↔ ∃ a, out !! i = Some a ∧ AcID a = id.

Lemma alter_ids f i (out : list AccountState) :
  (∀ a, AcID (f a) = AcID a) → AcID <$> alter f i out = AcID <$> out.
Proof.
  intros H. apply list_eq. intros j. rewrite !list_lookup_fmap, list_lookup_alter.
  destruct (decide (i = j)) as [->|]; [|done]. destruct (out !! j); simpl; by rewrite ?H.
Qed.

Lemma indexed_alter f i out byID :
  (∀ a, AcID (f a) = AcID a) → indexed out byID → indexed (alter f i out) byID.
Proof.
  intros Hf [Hn Hb]. split; [by rewrite alter_ids|]. intros id j. rewrite Hb.
  rewrite list_lookup_alter. destruct (decide (i = j)) as [->|]; [|done].
  destruct (out !! j) as [a|]; simpl; [|naive_solver].
  split; intros (b & [= <-] & <-); eexists; (split; [done|]); by rewrite Hf.
Qed.

Lemma indexed_app out byID a :
  indexed out byID → byID !! AcID a = None → indexed (out ++ [a]) (<[AcID a := length out]> byID).
Proof.
  intros [Hn Hb] Ha.
  assert (Hnew : ∀ i b, out !! i = Some b → AcID b ≠ AcID a).
  { intros i b Hi E. assert (byID !! AcID a = Some i) by (apply Hb; eauto). congruence. }
  split.
  - rewrite fmap_app. apply list.NoDup_app. split_and!; [done| |apply NoDup_singleton].
    intros id (b & -> & [i Hi]%list_elem_of_lookup)%list_elem_of_fmap E%list_elem_of_singleton.
    by destruct (Hnew i b).
  - intros id i. rewrite lookup_insert. destruct (decide (AcID a = id)) as [<-|Hne].
    + split.
      * intros [= <-]. exists a. by rewrite lookup_app_r, Nat.sub_diag by lia.
      * intros (b & Hi & E). destruct (decide (i < length out)%nat).
        { rewrite lookup_app_l in Hi by done. by destruct (Hnew i b). }
        rewrite lookup_app_r in Hi by lia. apply list_lookup_singleton_Some in Hi as [Hi _]. f_equal. lia.
    + rewrite Hb. split; intros (b & Hi & E); exists b; (split; [|done]).
      * by apply lookup_app_l_Some.
      * apply lookup_app_Some in Hi as [Hi|[_ Hi]]; [done|].
        apply list_lookup_singleton_Some in Hi as [_ ->]. done.
Qed.

(** After a step the accounts with the id of [t] show it, and the others are as before. *)
Lemma merge_step_spec out byID t :
  indexed out byID →
  let '(out', byID') := merge_step now (out, byID) t in
  indexed out' byID' ∧
  (∀ a, a ∈ out' → AcID a = TeID t → shows t a) ∧
  (∃ a, a ∈ out' ∧ AcID a = TeID t) ∧
  (∀ a, AcID a ≠ TeID t → a ∈ out' ↔ a ∈ out).
Proof.
  intros Hi. unfold merge_step. destruct (telemetryUsage (Samples t) now) as [fiveUsed sevenUsed].
  set (five := window_or_usage _ fiveUsed). set (seven := window_or_usage _ sevenUsed).
  set (f := merge_account now t five seven).
  assert (Hf : ∀ a, AcID (f a) = AcID a) by done.
  assert (H : ∀ out1 byID1 idx, indexed out1 byID1 → byID1 !! TeID t = Some idx →
    (∀ a, AcID a ≠ TeID t → a ∈ out1 ↔ a ∈ out) →
    indexed (alter f idx out1) byID1 ∧
    (∀ a, a ∈ alter f idx out1 → AcID a = TeID t → shows t a) ∧
    (∃ a, a ∈ alter f idx out1 ∧ AcID a = TeID t) ∧
    (∀ a, AcID a ≠ TeID t → a ∈ alter f idx out1 ↔ a ∈ out)).
  { intros out1 byID1 idx H1 Hidx Hout. destruct (proj1 (proj2 H1 _ _) Hidx) as (b & Hb & Eb).
    assert (Hat : ∀ j a, alter f idx out1 !! j = Some a → AcID a = TeID t → a = f b).
    { intros j a Hj Ha. assert (j = idx) as ->.
      { pose proof (indexed_alter f idx _ _ Hf H1) as [_ H2].
        assert (byID1 !! TeID t = Some j) by (apply H2; eauto). congruence. }
      rewrite list_lookup_alter_eq, Hb in Hj. simpl in Hj. congruence. }
    split; [by apply indexed_alter|]. split; [|split].
    - intros a [j Hj]%list_elem_of_lookup Ha. rewrite (Hat j a) by done. apply merge_account_shows.
    - exists (f b). split; [|by rewrite Hf]. apply list_elem_of_lookup. exists idx.
      by rewrite list_lookup_alter_eq, Hb.
    - intros a Ha. rewrite <- Hout by done. rewrite !list_elem_of_lookup. split; intros [j Hj]; exists j.
      + rewrite list_lookup_alter in Hj. destruct (decide (idx = j)) as [->|]; [|done].
        rewrite Hb in Hj. simpl in Hj. injection Hj as <-. by rewrite Hf in Ha.
      + rewrite list_lookup_alter. destruct (decide (idx = j)) as [->|]; [|done].
        rewrite Hb in Hj. injection Hj as <-. done. }
  destruct (byID !! TeID t) as [idx|] eqn:E; [by apply H|].
  apply H; [by apply (indexed_app out byID (unconfigured t five seven))|by rewrite lookup_insert_eq|].
  intros a Ha. rewrite elem_of_app, list_elem_of_singleton. split; [|by left].
  intros [Hin| ->]; [done|]. done.
Qed.

Lemma merge_fold ts out byID :
  NoDup (TeID <$> ts) → indexed out byID →
  let out' := fst (fold_left (merge_step now) ts (out, byID)) in
  (∀ t a, t ∈ ts → a ∈ out' → AcID a = TeID t → shows t a) ∧
  (∀ a, (∀ t, t ∈ ts → AcID a ≠ TeID t) → a ∈ out' ↔ a ∈ out).
Proof.
  revert out byID. induction ts as [|t ts IH]; intros out byID Hn Hi; cbn [fold_left fst].
  { split; [intros t a Ht; by apply elem_of_nil in Ht|done]. }
  rewrite fmap_cons in Hn. apply list.NoDup_cons in Hn as [Ht Hn].
  pose proof (merge_step_spec out byID t Hi) as H.
  destruct (merge_step now (out, byID) t) as [out1 byID1].
  destruct H as (Hi1 & Hs & _ & Ho). destruct (IH _ _ Hn Hi1) as [IH1 IH2]. split.
  - intros t' a Ht' Ha E. apply elem_of_cons in Ht' as [->|Ht']; [|by apply (IH1 t' a)].
    apply Hs; [|done]. apply IH2; [|done]. intros t' Ht' E'. apply Ht. rewrite <- E, E'.
    by apply list_elem_of_fmap_2.
  - intros a Ha. rewrite IH2 by (intros t' Ht'; apply Ha; by right). apply Ho, Ha. left.
Qed.

Lemma index_accounts (accounts : list AccountState) n (m : gmap string nat) (out : list AccountState) :
  n = length out → indexed out m → NoDup (AcID <$> out ++ accounts) →
  indexed (out ++ accounts)
    (fold_left (λ m p, <[AcID (snd p) := fst p]> m) (imap (λ i a, ((n + i)%nat, a)) accounts) m).
Proof.
  revert n m out. induction accounts as [|a l IH]; intros n m out -> Hi Hn; simpl; [by rewrite app_nil_r|].
  rewrite Nat.add_0_r. assert (Ea : out ++ a :: l = (out ++ [a]) ++ l) by (by rewrite <- app_assoc).
  rewrite Ea in Hn |- *.
  rewrite (imap_ext _ (λ i a, ((S (length out) + i)%nat, a))) by (intros; simpl; f_equal; lia).
  apply IH; [rewrite length_app; simpl; lia| |done].
  apply indexed_app; [done|]. rewrite fmap_app in Hn. apply list.NoDup_app in Hn as (Hn & _ & _).
  rewrite fmap_app in Hn. apply list.NoDup_app in Hn as (_ & Hd & _).
  destruct (m !! AcID a) as [j|] eqn:E; [|done]. apply Hi in E as (b & Hb & E).
  destruct (Hd (AcID b)); [apply list_elem_of_fmap_2; by eapply list_elem_of_lookup_2|].
  rewrite E. simpl. left.
Qed.

Lemma Merge_shows ts accounts t a :
  NoDup (TeID <$> ts) → NoDup (AcID <$> accounts) →
  t ∈ ts → a ∈ Merge ts accounts now → AcID a = TeID t → shows t a.
Proof.
  intros Ht Hn Hin Ha E. unfold Merge in Ha. rewrite elem_of_stable_sort in Ha.
  assert (Hi : indexed accounts (fold_left (λ m p, <[AcID (snd p) := fst p]> m) (imap pair accounts) ∅)).
  { apply (index_accounts accounts 0 ∅ []); [done| |done]. split; [constructor|].
    intros id i. rewrite lookup_empty. split; [done|]. by intros (b & Hb & _). }
  by apply (proj1 (merge_fold ts _ _ Ht Hi) t a).
Qed.
End merge.

Lemma observations_ids s ts :
  store_ok s → ts ≡ₚ (map_to_list s).*2 → NoDup (TeID <$> ts) ∧ ∀ k a, s !! k = Some a → a ∈ ts.
Proof.
  intros Hok Hp. split.
  - rewrite Hp. rewrite <- list_fmap_compose.
    rewrite (list_fmap_ext _ fst).
    + apply NoDup_fst_map_to_list.
    + intros i [k a] Hi%list_elem_of_lookup_2%elem_of_map_to_list. by apply Hok in Hi as [? _].
  - intros k a Ha%elem_of_map_to_list. rewrite Hp. by apply (list_elem_of_fmap_2 snd) in Ha.
Qed.

(** C31: An account that refused a request is left alone.  Whatever was recorded before and
    after (by any interleaving of requests and collectors, with clocks in any order, as long
    as snapshots do not rename accounts), from a 429 of a provider on no request that the
    scheduler places within the next five minutes gets its account, and from a 401 or 403 on
    none does before a call of it clears the refusal; leases do not help, whatever others do
    to them. *)
Theorem refused_account_not_chosen h1 o h2 code t accounts ts target now session :
  let s := telemetry (h1 ++ o :: h2) in
  about o ≠ ""%string → status_of o = Some (code, t) →
  Forall (λ o, standard_id o = true) (h1 ++ o :: h2) →
  (code = 429 ∧ now < t + 5 * minute ∨
   (code = 401 ∨ code = 403) ∧ Forall (λ o', about o' = about o → clears o' = false) h2) →
  NoDup (AcID <$> accounts) → ts ≡ₚ (map_to_list s).*2 →
  RtGroup target ≠ ""%string → RtGroup target ≠ GroupDefault → time_zero ≤ now →
  ∀ interfere leases leases' name d,
    runs interfere (selectDirectRuntimeProviderName (Merge ts accounts now) target now session)
      leases leases' (name, d) →
    DeAccountID d ≠ account_key (about o).
Proof.
  intros s Hp Ho Hstd Hwhen Hn Hts Hg1 Hg2 Hnow0 interfere leases leases' name d Hrun Hid.
  assert (Hok : store_ok s) by (by apply history_ok; [|intros k a; rewrite lookup_empty]).
  destruct (refusal_recorded o code t (telemetry h1) Hp Ho) as (a & Ha & H429 & Hauth).
  destruct (history_keeps h2 _ _ a Ha) as (a' & Ha' & Hcool & Hstatus).
  assert (Hs : s !! account_key (about o) = Some a').
  { rewrite <- Ha'. unfold s, telemetry. by rewrite fold_left_app. }
  destruct (observations_ids s ts Hok Hts) as [Hids Hall].
  assert (Hw : gated_choice (Merge ts accounts now) now (name, d)).
  { exact (wp_runs interfere _ _ _ _ leases leases' (name, d) (λ _ _ _, I)
      (selectDirect_gated (Merge ts accounts now) target now session leases Hg1 Hg2) Hrun). }
  destruct Hw as [He|(b & Hb & Eb & Hgate)]; simpl in *; [by rewrite He in Hid|].
  rewrite Hid in Eb. destruct (Hok _ _ Hs) as (Eid & _ & _).
  destruct (Merge_shows now ts accounts a' b Hids Hn (Hall _ _ Hs) Hb) as [Hc Hu]; [congruence|].
  destruct Hgate as (_ & Hst & Hcd & _).
  destruct Hwhen as [[-> Hnow]|[Hcode Hclear]].
  - specialize (H429 eq_refl). specialize (Hc ltac:(lia)). unfold time_zero in *. lia.
  - apply Hst, Hu, Hstatus; [|by apply Hauth]. eapply Forall_impl; [|exact Hclear].
    intros o' H' E. by apply H', account_key_inj.
Qed.

(** The accounts of a configuration have different ids. *)
Lemma config_accounts_distinct providers display active activeDisplay now :
  NoDup providers → NoDup (AcID <$> runtimeAccountsFromConfig providers display active activeDisplay now).
Proof.
  intros Hn. unfold runtimeAccountsFromConfig.
  set (names := stable_sort (less_str id) _).
  assert (Hnames : NoDup names).
  { unfold names. rewrite stable_sort_perm. by apply NoDup_ListNoDup, List.NoDup_filter, NoDup_ListNoDup. }
  assert (Hids : ∀ l (f : string → AccountState), NoDup l → (∀ n, AcID (f n) = account_key n) →
            NoDup (AcID <$> map f l)).
  { intros l f Hl Hf.
    induction Hl as [|n l Hnl _ IH]; simpl; [constructor|]. constructor; [|done].
    rewrite Hf. intros (a & Ea & (m & <- & Hm)%list_elem_of_In%in_map_iff)%list_elem_of_fmap.
    rewrite Hf in Ea. apply account_key_inj in Ea as ->. by apply Hnl, list_elem_of_In. }
  destruct (negb _ && _) eqn:E.
  - rewrite stable_sort_perm, fmap_app. apply list.NoDup_app. split_and!; [by apply Hids| |apply NoDup_singleton].
    intros id (a & -> & (n & <- & Hin)%list_elem_of_In%in_map_iff)%list_elem_of_fmap Ea%list_elem_of_singleton.
    simpl in Ea. apply account_key_inj in Ea as ->. split_bools.
    rewrite existsb_none in H0. apply list_elem_of_In in Hin. apply H0 in Hin.
    by rewrite String.eqb_refl in Hin.
  - rewrite stable_sort_perm. by apply Hids.
Qed.

(** ** Runs *)

Definition ex_history : list Observation :=
  [Usage "anthropic" GroupClaude 1000 200 (ex_now - hour);
   Failure "claude-work" GroupClaude 503 (ex_now - 20 * minute);
   Success "claude-work" GroupClaude (ex_now - 10 * minute)].

Definition ex_config : list AccountState :=
  runtimeAccountsFromConfig ["openai"; "claude-work"; "anthropic"] id "anthropic" "Anthropic" ex_now.

Definition ex_request (h : list Observation) (now : time) : string * SelectionDecision :=
  (run (selectDirectRuntimeProviderName (Merge (map_to_list (telemetry h)).*2 ex_config now)
          (ResolveModelTarget "claude-opus-4" "anthropic" "") now "session") ∅).2.

(** A request stays on its provider; after a 429 of it the other account of the group takes
    over, and when the cooldown is over the ranking decides again. *)
Example ex_requests :
  map (λ r, (fst r, DeAction (snd r)))
    [ex_request ex_history ex_now;
     ex_request (ex_history ++ [Failure "anthropic" GroupClaude 429 ex_now]) (ex_now + minute);
     ex_request (ex_history ++ [Failure "anthropic" GroupClaude 429 ex_now]) (ex_now + 6 * minute);
     ex_request (ex_history ++ [Failure "anthropic" GroupClaude 401 ex_now; Failure "claude-work" GroupClaude 429 ex_now])
       (ex_now + minute)] =
  [("anthropic", "stay"); ("claude-work", "switch"); ("anthropic", "stay"); ("anthropic", "none")]%string.
Proof. vm_compute. reflexivity. Qed.

Lemma refused_account_not_chosen_witness :
  DeAccountID (snd (ex_request (ex_history ++ Failure "anthropic" GroupClaude 429 ex_now ::
                                [Success "anthropic" GroupClaude (ex_now + second)]) (ex_now + minute)))
    ≠ "provider:anthropic"%string.
Proof.
  unfold ex_request.
  set (r := (run _ _).2).
  apply (refused_account_not_chosen ex_history (Failure "anthropic" GroupClaude 429 ex_now)
           [Success "anthropic" GroupClaude (ex_now + second)] 429 ex_now ex_config
           ((map_to_list (telemetry (ex_history ++ Failure "anthropic" GroupClaude 429 ex_now ::
                                [Success "anthropic" GroupClaude (ex_now + second)]))).*2)
           (ResolveModelTarget "claude-opus-4" "anthropic" "") (ex_now + minute) "session")
    with (interfere := λ s s', s = s') (leases := ∅) (name := fst r)
         (leases' := (run (selectDirectRuntimeProviderName
            (Merge (map_to_list (telemetry (ex_history ++ Failure "anthropic" GroupClaude 429 ex_now ::
                [Success "anthropic" GroupClaude (ex_now + second)]))).*2 ex_config (ex_now + minute))
            (ResolveModelTarget "claude-opus-4" "anthropic" "") (ex_now + minute) "session") ∅).1).
  - done.
  - done.
  - repeat constructor.
  - left. split; [done|]. vm_compute. done.
  - apply (bool_decide_unpack _). vm_compute. exact I.
  - done.
  - vm_compute. done.
  - vm_compute. done.
  - vm_compute. done.
  - rewrite <- surjective_pairing. subst r. apply runs_run. done.
Defined.

(** ** What modelling showed *)

(** A quota snapshot whose account has an id of its own renames the telemetry of its
    provider.  The configured account keeps the standard id, so that a 429 no longer
    reaches it: it is chosen within its cooldown.  And the request may be sent to the id
    as if it were a provider. *)
Definition renaming_snapshot : Observation :=
  Quota {| AcID := "acct-1"; AcDisplayName := ""; AcProvider := "anthropic"; AcGroup := GroupClaude;
           AcStatus := AccountHealthy; AcFiveHour := no_window; AcSevenDay := no_window;
           AcRateLimit := no_window; AcCooldownUntil := time_zero; AcObservedAt := ex_now;
           AcAllowStale := false |} ex_now.

Example renamed_account_escapes_cooldown :
  fst (ex_request [renaming_snapshot; Failure "anthropic" GroupClaude 429 ex_now] (ex_now + minute)) = "anthropic"%string ∧
  fst (ex_request [renaming_snapshot; Failure "claude-work" GroupClaude 429 ex_now;
                   Response "anthropic" GroupClaude 200
                     {| ObRateLimit := no_window; ObCooldownUntil := time_zero |} ex_now] (ex_now + minute)) ≠ "claude-work"%string.
Proof. vm_compute. done. Qed.

(** "Only a live success clears an unhealthy account": so do a 429 and a 503. *)
Example failures_clear_unhealthy :
  map (λ code, TeStatus <$> telemetry [Failure "anthropic" GroupClaude 401 ex_now;
                                       Failure "anthropic" GroupClaude code (ex_now + second)]
                              !! account_key "anthropic") [400; 429; 503] =
  [Some AccountUnhealthy; Some AccountHealthy; Some AccountHealthy].
Proof. vm_compute. reflexivity. Qed.
