(* ===== verification/Cron.v ===== *)
(** * Cron expressions

    kairos/cron.go: the parser of cron expressions, the calendar they are matched against,
    and when a scheduled task is due.  What an expression matches is proved to be what its
    fields say. *)

From stdpp Require Import pretty.
From S2P Require Import Prelude GoLib GoPath.
Open Scope Z_scope.

(** ** The calendar

    The fields of a [time.Time] in its location: days since 1 January of year 1, a Monday,
    in cycles of 400, 100, 4 and 1 years.  [offset] is the zone offset of the location. *)

Definition days_before_month : list Z := [0; 31; 59; 90; 120; 151; 181; 212; 243; 273; 304; 334].

(** The month of a day of a year, and its day, counted from 0. *)
Fixpoint month_of (months : list Z) (leap : bool) (month : Z) (yday : Z) : Z * Z :=
  match months with
  | [] => (month, yday)
  | start :: later =>
      match later with
      | [] => (month, yday - start - (if leap && (2 <? month) then 1 else 0))
      | next :: _ =>
          let extra m := if leap && (2 <? m) then 1 else 0 in
          if yday <? next + extra (month + 1) then (month, yday - start - extra month)
          else month_of later leap (month + 1) yday
      end
  end.

Definition year_day (days : Z) : bool * Z :=
  let d := days mod 146097 in
  let n100 := Z.min 3 (d / 36524) in
  let d := d - n100 * 36524 in
  let n4 := d / 1461 in
  let d := d mod 1461 in
  let n1 := Z.min 3 (d / 365) in
  ((n1 =? 3) && (negb (n4 =? 24) || (n100 =? 3)), d - n1 * 365).

Definition day : duration := 24 * hour.

Section location.
Context (offset : time → duration).
Definition local (t : time) : Z := t + offset t.
Definition Minute (t : time) : Z := local t / minute mod 60.
Definition Hour (t : time) : Z := local t / hour mod 24.
Definition Month (t : time) : Z :=
  let '(leap, yday) := year_day (local t / day) in fst (month_of days_before_month leap 1 yday).
Definition Day (t : time) : Z :=
  let '(leap, yday) := year_day (local t / day) in snd (month_of days_before_month leap 1 yday) + 1.
Definition Weekday (t : time) : Z := (local t / day + 1) mod 7.
End location.

(** [t.Truncate(time.Minute)]: since the zero time, whatever the location. *)
Definition truncate_minute (t : time) : time := t - t mod minute.

(** ** Parsing *)

Record CronExpr := {
  Minutes : list Z;
  Hours : list Z;
  Days : list Z;
  Months : list Z;
  Weekdays : list Z;
}.

Inductive CronError := EmptyExpression | FieldCount (n : nat) | BadField (name field : string) | BadEvery (d : string).

Definition makeRange (min max : Z) : list Z := seqZ min (max - min + 1).

Definition contains (slice : list Z) (val : Z) : bool := existsb (λ v, v =? val) slice.

(** [for i := min; i <= max; i += step]: the counter is an [int] that wraps around. *)
Fixpoint steps (fuel : nat) (i max step : Z) : list Z :=
  match fuel with
  | O => []
  | S fuel' => if i <=? max then i :: steps fuel' (wrap64 (i + step)) max step else []
  end.
(** Fields have at most 60 values. *)
Definition step_fuel : nat := 64.

(** [strings.SplitN(field, "-", 2)] of a field with a dash. *)
Fixpoint cut (c : ascii) (s : string) : option (string * string) :=
  match s with
  | ""%string => None
  | String a s' =>
      if Ascii.eqb a c then Some (""%string, s')
      else match cut c s' with Some (x, y) => Some (String a x, y) | None => None end
  end.

Definition in_range (min max v : Z) : bool := (min <=? v) && (v <=? max).

(** A value of a comma-separated list, and the loop over them. *)
Fixpoint parse_values (parts : list string) (min max : Z) : option (list Z) :=
  match parts with
  | [] => Some []
  | part :: rest =>
      v ← atoi (trim_space part);
      if in_range min max v then vs ← parse_values rest min max; Some (v :: vs) else None
  end.

Definition parseField (field : string) (min max : Z) : option (list Z) :=
  if String.eqb field "*" then Some (makeRange min max)
  else if has_prefix field "*/" then
    step ← atoi (str_drop 2 field);
    if step <=? 0 then None else Some (steps step_fuel min max step)
  else if str_elem "," field then parse_values (split_on "," field) min max
  else
    match cut "-" field with
    | Some (a, b) =>
        match atoi a, atoi b with
        | Some start, Some stop =>
            if (start <? min) || (max <? stop) || (stop <? start) then None
            else Some (makeRange start stop)
        | _, _ => None
        end
    | None => v ← atoi field; if in_range min max v then Some [v] else None
    end.

Definition every (minutes hours : list Z) : CronExpr :=
  {| Minutes := minutes; Hours := hours; Days := makeRange 1 31; Months := makeRange 1 12;
     Weekdays := makeRange 0 6 |}.

Definition parseEvery (duration0 : string) : result CronError CronExpr :=
  let duration := trim_space duration0 in
  let count := match atoi (str_take (strlen duration - 1) duration) with
               | Some n => if n <=? 0 then None else Some n
               | None => None
               end in
  if has_suffix duration "m" then
    match count with
    | None => Err (BadEvery duration)
    | Some mins => Ok (every (steps step_fuel 0 59 mins) (makeRange 0 23))
    end
  else if has_suffix duration "h" then
    match count with
    | None => Err (BadEvery duration)
    | Some hours => Ok (every [0] (steps step_fuel 0 23 hours))
    end
  else Err (BadEvery duration).

Definition preset (expr : string) : string :=
  if String.eqb expr "@hourly" then "0 * * * *"
  else if String.eqb expr "@daily" || String.eqb expr "@midnight" then "0 0 * * *"
  else if String.eqb expr "@weekly" then "0 0 * * 0"
  else if String.eqb expr "@monthly" then "0 0 1 * *"
  else expr.

Definition or_bad (name field : string) (o : option (list Z)) : result CronError (list Z) :=
  match o with Some l => Ok l | None => Err (BadField name field) end.

Definition ParseCron (expr0 : string) : result CronError CronExpr :=
  let expr := trim_space expr0 in
  if String.eqb expr "" then Err EmptyExpression
  else
    let expr := preset expr in
    if has_prefix expr "@every " then parseEvery (str_drop 7 expr)
    else
      match fields expr with
      | [f1; f2; f3; f4; f5] =>
          minutes ← or_bad "minute" f1 (parseField f1 0 59);
          hours ← or_bad "hour" f2 (parseField f2 0 23);
          days ← or_bad "day" f3 (parseField f3 1 31);
          months ← or_bad "month" f4 (parseField f4 1 12);
          weekdays ← or_bad "weekday" f5 (parseField f5 0 6);
          Ok {| Minutes := minutes; Hours := hours; Days := days; Months := months; Weekdays := weekdays |}
      | fs => Err (FieldCount (length fs))
      end.

Definition Matches (offset : time → duration) (t : time) (c : CronExpr) : bool :=
  contains (Minutes c) (Minute offset t) && contains (Hours c) (Hour offset t)
  && contains (Days c) (Day offset t) && contains (Months c) (Month offset t)
  && contains (Weekdays c) (Weekday offset t).

Definition IsDue (offset : time → duration) (cronExpr : string) (lastRun now : time) : bool :=
  if String.eqb cronExpr "" then is_zero lastRun
  else
    match ParseCron cronExpr with
    | Err _ => false
    | Ok cron =>
        if negb (Matches offset now cron) then false
        else if negb (is_zero lastRun) && (truncate_minute lastRun =? truncate_minute now) then false
        else true
    end.

Definition utc (t : time) : duration := 0.
(** 2026-07-04 01:30 UTC, a Saturday; 2024-02-29 23:59, a Thursday; 2000-12-31. *)
Definition ex_date (days minutes : Z) : time := days * day + minutes * minute.
Example calendar_ex :
  map (λ t, (Month utc t, Day utc t, Weekday utc t, Hour utc t, Minute utc t))
    [ex_date 739800 90; ex_date 738944 1439; ex_date 730484 0; ex_date 0 0] =
  [(7, 4, 6, 1, 30); (2, 29, 4, 23, 59); (12, 31, 0, 0, 0); (1, 1, 1, 0, 0)].
Proof. vm_compute. reflexivity. Qed.

(** ** The calendar stays in its ranges *)

Lemma year_day_range days : 0 ≤ snd (year_day days) ≤ 365.
Proof.
  unfold year_day. simpl. set (d := days mod 146097).
  assert (0 ≤ d < 146097) by (apply Z.mod_pos_bound; lia).
  pose proof (Z.div_mod d 36524 ltac:(lia)). pose proof (Z.mod_pos_bound d 36524 ltac:(lia)).
  set (e := d - Z.min 3 (d / 36524) * 36524).
  assert (0 ≤ e ≤ 36524) by lia.
  pose proof (Z.mod_pos_bound e 1461 ltac:(lia)).
  pose proof (Z.div_mod (e mod 1461) 365 ltac:(lia)). pose proof (Z.mod_pos_bound (e mod 1461) 365 ltac:(lia)).
  lia.
Qed.

(** All 732 days of common and leap years, by computation. *)
Lemma month_of_range leap yday :
  0 ≤ yday ≤ 365 →
  1 ≤ fst (month_of days_before_month leap 1 yday) ≤ 12 ∧
  0 ≤ snd (month_of days_before_month leap 1 yday) ≤ 30 + (if (yday =? 365) && negb leap then 1 else 0).
Proof.
  assert (H : forallb (λ leap, forallb (λ y,
    let r := month_of days_before_month leap 1 y in
    (1 <=? fst r) && (fst r <=? 12) && (0 <=? snd r)
    && (snd r <=? 30 + (if (y =? 365) && negb leap then 1 else 0))) (seqZ 0 366)) [true; false] = true)
    by (vm_compute; reflexivity).
  intros Hy. rewrite forallb_elem in H.
  assert (Hl : leap ∈ [true; false]) by (destruct leap; [left|right; left]).
  specialize (H leap Hl). rewrite forallb_elem in H.
  specialize (H yday ltac:(apply elem_of_seqZ; lia)). cbv zeta in H. split_bools.
  by rewrite <- !Z.leb_le.
Qed.

Lemma last_year f :
  0 ≤ f < 1461 → f - Z.min 3 (f / 365) * 365 = 365 → Z.min 3 (f / 365) = 3 ∧ f = 1460.
Proof.
  intros H E. pose proof (Z.div_mod f 365 ltac:(lia)). pose proof (Z.mod_pos_bound f 365 ltac:(lia)).
  destruct (Z.min_spec 3 (f / 365)) as [[? R]|[? R]]; rewrite R in *; lia.
Qed.

(** A common year has no 366th day. *)
Lemma year_day_common days : snd (year_day days) = 365 → fst (year_day days) = true.
Proof.
  unfold year_day. simpl. set (d := days mod 146097).
  assert (0 ≤ d < 146097) by (apply Z.mod_pos_bound; lia).
  pose proof (Z.div_mod d 36524 ltac:(lia)). pose proof (Z.mod_pos_bound d 36524 ltac:(lia)).
  set (n100 := Z.min 3 (d / 36524)) in *. set (e := d - n100 * 36524).
  assert (0 ≤ e ≤ 36524 ∧ (n100 ≠ 3 → e < 36524)) by lia.
  pose proof (Z.div_mod e 1461 ltac:(lia)). pose proof (Z.mod_pos_bound e 1461 ltac:(lia)).
  set (n4 := e / 1461) in *. set (f := e mod 1461) in *.
  intros Hy. destruct (last_year f) as [-> Hf]; [done|done|].
  simpl. destruct (Z.eqb_spec n4 24) as [E4|]; [|done]. simpl. apply Z.eqb_eq. lia.
Qed.

Section ranges.
Context (offset : time → duration) (t : time).
Lemma Minute_range : 0 ≤ Minute offset t ≤ 59.
Proof. unfold Minute. pose proof (Z.mod_pos_bound (local offset t / minute) 60). lia. Qed.
Lemma Hour_range : 0 ≤ Hour offset t ≤ 23.
Proof. unfold Hour. pose proof (Z.mod_pos_bound (local offset t / hour) 24). lia. Qed.
Lemma Weekday_range : 0 ≤ Weekday offset t ≤ 6.
Proof. unfold Weekday. pose proof (Z.mod_pos_bound (local offset t / day + 1) 7). lia. Qed.
Lemma date_range : 1 ≤ Month offset t ≤ 12 ∧ 1 ≤ Day offset t ≤ 31.
Proof.
  unfold Month, Day. pose proof (year_day_range (local offset t / day)) as R.
  pose proof (year_day_common (local offset t / day)) as C.
  destruct (year_day (local offset t / day)) as [leap yday]. cbn [fst snd] in R, C.
  destruct (month_of_range leap yday R) as [M D].
  assert ((yday =? 365) && negb leap = false) as E.
  { destruct (Z.eqb_spec yday 365); [|done]. by rewrite C. }
  rewrite E in D. lia.
Qed.
End ranges.

(** ** What a field means

    The comment of [CronExpr]: star, every N from the first value, a list, a range, one
    value. *)

Definition selects (min : Z) (field : string) (v : Z) : Prop :=
  if String.eqb field "*" then True
  else if has_prefix field "*/" then
    ∃ n, atoi (str_drop 2 field) = Some n ∧ (v - min) mod n = 0
  else if str_elem "," field then
    ∃ part, part ∈ split_on "," field ∧ atoi (trim_space part) = Some v
  else
    match cut "-" field with
    | Some (a, b) => ∃ start stop, atoi a = Some start ∧ atoi b = Some stop ∧ start ≤ v ≤ stop
    | None => atoi field = Some v
    end.

Lemma holds_value_spec l v : contains l v = true ↔ v ∈ l.
Proof.
  unfold contains. rewrite existsb_elem. split.
  - by intros (x & Hx & ->%Z.eqb_eq).
  - intros H. exists v. split; [done|]. apply Z.eqb_refl.
Qed.

Lemma makeRange_spec min max v : v ∈ makeRange min max ↔ min ≤ v ≤ max.
Proof. unfold makeRange. rewrite elem_of_seqZ. lia. Qed.

(** Every value a loop without wrap-around reaches. *)
Lemma steps_ge fuel i max step v :
  0 ≤ i → 0 < step → max + step ≤ max_int64 → v ∈ steps fuel i max step → i ≤ v.
Proof.
  unfold max_int64. revert i. induction fuel as [|fuel IH]; intros i Hi Hs Hm; simpl; [by intros ?%elem_of_nil|].
  destruct (Z.leb_spec i max); [|by intros ?%elem_of_nil]. rewrite wrap64_id by (unfold min_int64, max_int64; lia).
  intros [->|Hv]%elem_of_cons; [lia|]. apply IH in Hv; lia.
Qed.

Lemma steps_spec fuel i max step v :
  0 ≤ i → 0 < step → max + step ≤ max_int64 → i ≤ v ≤ max → v - i < Z.of_nat fuel →
  v ∈ steps fuel i max step ↔ (v - i) mod step = 0.
Proof.
  revert i. induction fuel as [|fuel IH]; intros i Hi Hs Hm Hv Hf; simpl; [lia|].
  destruct (Z.leb_spec i max); [|lia].
  rewrite wrap64_id by (unfold min_int64, max_int64 in *; lia). rewrite elem_of_cons.
  destruct (decide (v < i + step)).
  - rewrite Z.mod_small by lia. split; [|intros; left; lia].
    intros [->|Hin]; [lia|]. apply steps_ge in Hin; lia.
  - rewrite IH by lia. replace (v - i) with (v - (i + step) + 1 * step) by lia.
    rewrite Z.mod_add by lia. split; [|by right]. intros [->|?]; [lia|done].
Qed.

Lemma steps_more fuel i max step :
  steps (S fuel) i max step = if i <=? max then i :: steps fuel (wrap64 (i + step)) max step else [].
Proof. done. Qed.

(** A step so large that the counter may wrap around: the other values are outside. *)
Lemma steps_large min max step v :
  0 ≤ min ≤ 1 → max ≤ 59 → max_int64 - 59 < step ≤ max_int64 → min ≤ v ≤ max →
  v ∈ steps step_fuel min max step ↔ v = min.
Proof.
  intros Hmin Hmax Hstep Hv.
  assert (E : steps step_fuel min max step = min :: steps 63 (wrap64 (min + step)) max step).
  { unfold step_fuel. rewrite (steps_more 63). by destruct (Z.leb_spec min max); [|lia]. }
  rewrite E, elem_of_cons. split; [|by left]. intros [->|Hin]; [done|exfalso].
  destruct (decide (min + step ≤ max_int64)).
  - rewrite wrap64_id in Hin by (unfold min_int64, max_int64 in *; lia).
    rewrite (steps_more 62) in Hin. destruct (Z.leb_spec (min + step) max); [unfold max_int64 in *; lia|].
    by apply elem_of_nil in Hin.
  - assert (min = 1 ∧ step = max_int64) as [-> ->] by lia.
    replace (wrap64 (1 + max_int64)) with min_int64 in Hin by (vm_compute; reflexivity).
    rewrite (steps_more 62) in Hin. destruct (Z.leb_spec min_int64 max); [|unfold min_int64 in *; lia].
    apply elem_of_cons in Hin as [->|Hin]; [unfold min_int64 in *; lia|].
    replace (wrap64 (min_int64 + max_int64)) with (-1) in Hin by (vm_compute; reflexivity).
    rewrite (steps_more 61) in Hin. destruct (Z.leb_spec (-1) max); [|lia].
    apply elem_of_cons in Hin as [->|Hin]; [lia|].
    replace (wrap64 (-1 + max_int64)) with (max_int64 - 1) in Hin by (vm_compute; reflexivity).
    rewrite (steps_more 60) in Hin. destruct (Z.leb_spec (max_int64 - 1) max); [unfold max_int64 in *; lia|]. by apply elem_of_nil in Hin.
Qed.

#[local] Arguments steps : simpl never.

Lemma steps_exact min max step v :
  0 ≤ min ≤ 1 → max ≤ 59 → 0 < step ≤ max_int64 → min ≤ v ≤ max →
  v ∈ steps step_fuel min max step ↔ (v - min) mod step = 0.
Proof.
  intros Hmin Hmax Hs Hv. destruct (decide (step ≤ max_int64 - 59)).
  - apply steps_spec; unfold step_fuel; lia.
  - rewrite steps_large by lia. rewrite Z.mod_small by (unfold max_int64 in *; lia). lia.
Qed.

Lemma parse_values_spec parts min max l :
  parse_values parts min max = Some l →
  ∀ v, v ∈ l ↔ ∃ part, part ∈ parts ∧ atoi (trim_space part) = Some v.
Proof.
  revert l. induction parts as [|part parts IH]; intros l; simpl.
  { intros [= <-] v. split; [by intros ?%elem_of_nil|]. by intros (p & ?%elem_of_nil & _). }
  destruct (atoi (trim_space part)) as [n|] eqn:E; simpl; [|done].
  destruct (in_range min max n); [|done].
  destruct (parse_values parts min max) as [vs|]; simpl; [|done]. intros [= <-] v.
  rewrite elem_of_cons, (IH vs eq_refl). split.
  - intros [->|(p & Hp & Hv)]; [exists part; split; [left|done]|exists p; split; [by right|done]].
  - intros (p & [->|Hp]%elem_of_cons & Hv); [left; congruence|right; eauto].
Qed.

Lemma parseField_selects field min max l v :
  0 ≤ min ≤ 1 → max ≤ 59 → parseField field min max = Some l → min ≤ v ≤ max →
  v ∈ l ↔ selects min field v.
Proof.
  intros Hmin Hmax Hp Hv. unfold parseField in Hp. unfold selects.
  destruct (String.eqb field "*"). { injection Hp as <-. by rewrite makeRange_spec. }
  destruct (has_prefix field "*/").
  { destruct (atoi (str_drop 2 field)) as [n|] eqn:E; simpl in Hp; [|done].
    destruct (Z.leb_spec n 0); [done|]. injection Hp as <-. apply atoi_range in E as R.
    rewrite steps_exact by lia. naive_solver. }
  destruct (str_elem "," field). { by eapply parse_values_spec. }
  destruct (cut "-" field) as [[a b]|].
  - destruct (atoi a) as [lo|], (atoi b) as [hi|]; try done.
    destruct (_ || _ || _); [done|]. injection Hp as <-. rewrite makeRange_spec. naive_solver.
  - destruct (atoi field) as [n|]; simpl in Hp; [|done]. destruct (in_range min max n); [|done].
    injection Hp as <-. rewrite list_elem_of_singleton. naive_solver.
Qed.

(** C34: A cron expression means what its fields say.  When an expression of five fields is
    accepted, it matches an instant, in whatever location, exactly when each of its fields
    selects the corresponding field of the date there: every value, every N-th from the
    first, a listed one, one of a range, or the value itself. *)
Theorem cron_matches_exact offset expr c f1 f2 f3 f4 f5 t :
  ParseCron expr = Ok c →
  has_prefix (preset (trim_space expr)) "@every " = false →
  fields (preset (trim_space expr)) = [f1; f2; f3; f4; f5] →
  Matches offset t c = true ↔
    selects 0 f1 (Minute offset t) ∧ selects 0 f2 (Hour offset t) ∧ selects 1 f3 (Day offset t) ∧
    selects 1 f4 (Month offset t) ∧ selects 0 f5 (Weekday offset t).
Proof.
  intros Hp He Hf. unfold ParseCron in Hp. destruct (String.eqb _ ""); [done|].
  rewrite He, Hf in Hp. cbv zeta in Hp.
  destruct (parseField f1 0 59) as [l1|] eqn:P1; [|done].
  destruct (parseField f2 0 23) as [l2|] eqn:P2; [|done].
  destruct (parseField f3 1 31) as [l3|] eqn:P3; [|done].
  destruct (parseField f4 1 12) as [l4|] eqn:P4; [|done].
  destruct (parseField f5 0 6) as [l5|] eqn:P5; [|done].
  injection Hp as <-. unfold Matches. cbn [Minutes Hours Days Months Weekdays].
  pose proof (Minute_range offset t). pose proof (Hour_range offset t). pose proof (Weekday_range offset t).
  destruct (date_range offset t) as [? ?].
  rewrite !andb_true_iff, !holds_value_spec.
  rewrite (parseField_selects f1 0 59), (parseField_selects f2 0 23), (parseField_selects f3 1 31),
    (parseField_selects f4 1 12), (parseField_selects f5 0 6) by (done || lia).
  tauto.
Qed.

Lemma IsDue_spec offset e last now :
  IsDue offset e last now = true ↔
  (e = ""%string ∧ last = time_zero) ∨
  (e ≠ ""%string ∧ (∃ c, ParseCron e = Ok c ∧ Matches offset now c = true) ∧
   (last = time_zero ∨ truncate_minute last ≠ truncate_minute now)).
Proof.
  unfold IsDue, is_zero. destruct (String.eqb_spec e "") as [->|He].
  { rewrite Z.eqb_eq. naive_solver. }
  destruct (ParseCron e) as [c|err]; [|naive_solver].
  destruct (Matches offset now c) eqn:M; simpl; [|naive_solver].
  destruct (Z.eqb_spec last time_zero), (Z.eqb_spec (truncate_minute last) (truncate_minute now));
    simpl; naive_solver.
Qed.

Lemma truncate_mono a b : a ≤ b → truncate_minute a ≤ truncate_minute b.
Proof.
  intros H. unfold truncate_minute.
  assert (Hm : 0 < minute) by done. generalize dependent minute. intros m Hm.
  pose proof (Z.div_mod a m ltac:(lia)). pose proof (Z.div_mod b m ltac:(lia)).
  pose proof (Z.div_le_mono a b m Hm H). nia.
Qed.

Definition ex_matches (expr : string) (t : time) : bool :=
  match ParseCron expr with Ok c => Matches utc t c | Err _ => false end.

(** At 01:30 on Saturday 4 July 2026; and what the parser refuses. *)
Example ex_cron :
  map (λ e, ex_matches e (ex_date 739800 90))
    ["* * * * *"; "*/15 * * * *"; "30 1 4 7 6"; "0,30 1-3 * * *"; "0 * * * *"; "@every 30m"; "@hourly"]%string =
  [true; true; true; true; false; true; false] ∧
  forallb (λ e, negb (is_ok (ParseCron e))) [""; "* * * *"; "60 * * * *"; "* * * * 7"; "*/0 * * * *"; "1-5,7 * * * *"; "5-1 * * * *"; "@every 30s"]%string = true.
Proof. vm_compute. done. Qed.

Lemma cron_matches_exact_witness :
  Matches utc (ex_date 739800 90)
    {| Minutes := [0; 30]; Hours := [1; 2; 3]; Days := makeRange 1 31; Months := makeRange 1 12; Weekdays := [6] |} = true ↔
    selects 0 "0,30" (Minute utc (ex_date 739800 90)) ∧ selects 0 "1-3" (Hour utc (ex_date 739800 90)) ∧
    selects 1 "*" (Day utc (ex_date 739800 90)) ∧ selects 1 "*/1" (Month utc (ex_date 739800 90)) ∧
    selects 0 "6" (Weekday utc (ex_date 739800 90)).
Proof.
  apply (cron_matches_exact utc " 0,30 1-3 * */1 6 "); vm_compute; reflexivity.
Defined.

(** ** What modelling showed *)

(** "@every 90m" fires at every full hour, and "@every 45m" after 45 and 15 minutes in
    turn: the interval restarts with the hour. *)
Example every_restarts_each_hour :
  (∀ h, h ∈ seqZ 0 24 → ex_matches "@every 90m" (ex_date 739800 (60 * h)) = true) ∧
  List.filter (λ m, ex_matches "@every 45m" (ex_date 739800 m)) (seqZ 0 180) = [0; 45; 60; 105; 120; 165].
Proof.
  split; [|vm_compute; reflexivity]. intros h Hh.
  assert (F : forallb (λ h, ex_matches "@every 90m" (ex_date 739800 (60 * h))) (seqZ 0 24) = true) by (vm_compute; reflexivity).
  rewrite forallb_elem in F. by apply F.
Qed.

(** The counter of a step wraps around: days before the first. *)
Example step_overflows :
  parseField "*/9223372036854775807" 1 31 = Some [1; - 2 ^ 63; -1].
Proof. vm_compute. reflexivity. Qed.
