(* ===== verification/Kairos.v ===== *)
(** * KAIROS: the background daemon

    kairos/daemon.go: the daemon's tasks and log, and its tick loop as a program of atomic
    actions between which users change the daemon.  Which tasks a tick runs, and how often
    a scheduled task runs. *)

From stdpp Require Import sorting.
From S2P Require Import Prelude Prog GoLib Cron.
Open Scope Z_scope.

(** ** State *)

Definition StateIdle : string := "idle".
Definition StateSleeping : string := "sleeping".
Definition StateWorking : string := "working".

Record Task := {
  TaID : string;
  TaType : string;
  TaDescription : string;
  TaCommand : string;
  TaCronExpr : string;
  TaWorkstreamID : string;
  TaPlanID : string;
  TaPlanRevision : Z;
  TaStageID : string;
  TaCreatedAt : time;
  TaLastRun : time;
  TaEnabled : bool;
}.

Record LogEntry := { LoTime : time; LoAction : string; LoDetail : string }.

Record DaemonConfig := {
  CfEnabled : bool;
  TickInterval : duration;
  BlockingBudget : duration;
  CacheExpiry : duration;
  Autonomy : string;
}.

Definition DefaultDaemonConfig : DaemonConfig :=
  {| CfEnabled := false; TickInterval := 2 * minute; BlockingBudget := 15 * second;
     CacheExpiry := 5 * minute; Autonomy := "collaborative" |}.

Definition normalizeDaemonConfig (cfg : DaemonConfig) : DaemonConfig :=
  let defaults := DefaultDaemonConfig in
  {| CfEnabled := CfEnabled cfg;
     TickInterval := if TickInterval cfg <=? 0 then TickInterval defaults else TickInterval cfg;
     BlockingBudget := if BlockingBudget cfg <=? 0 then BlockingBudget defaults else BlockingBudget cfg;
     CacheExpiry := if CacheExpiry cfg <=? 0 then CacheExpiry defaults else CacheExpiry cfg;
     Autonomy := if String.eqb (trim_space (Autonomy cfg)) "" then Autonomy defaults else Autonomy cfg |}.

(** The daemon and the task files of its projects, by directory; the files are read and
    written under the daemon's lock.  [trace] is ghost: the runs of tasks, with the time of
    their tick, the projects that were opened, with the ids of their tasks, and the ids that
    were added, with whether they were in use. *)
Inductive KEvent :=
| EvRun (t : Task) (n : time)
| EvOpened (ids : list string)
| EvAdded (id : string) (in_use : bool).

Record Daemon := {
  config : DaemonConfig;
  state : string;
  tasks : list Task;
  logs : list LogEntry;
  workDir : string;
  baseDir : string;
  running : bool;
  files : gmap (string * string) (list Task);
  trace : list KEvent;
}.

Definition NewDaemon (cfg : DaemonConfig) : Daemon :=
  {| config := normalizeDaemonConfig cfg; state := StateIdle; tasks := []; logs := []; workDir := "";
     baseDir := ""; running := false; files := ∅; trace := [] |}.

Definition set_state (x : string) (d : Daemon) : Daemon :=
  {| config := config d; state := x; tasks := tasks d; logs := logs d; workDir := workDir d;
     baseDir := baseDir d; running := running d; files := files d; trace := trace d |}.
Definition set_tasks (ts : list Task) (d : Daemon) : Daemon :=
  {| config := config d; state := state d; tasks := ts; logs := logs d; workDir := workDir d;
     baseDir := baseDir d; running := running d; files := files d; trace := trace d |}.
Definition set_logs (l : list LogEntry) (d : Daemon) : Daemon :=
  {| config := config d; state := state d; tasks := tasks d; logs := l; workDir := workDir d;
     baseDir := baseDir d; running := running d; files := files d; trace := trace d |}.
Definition set_dirs (work base : string) (d : Daemon) : Daemon :=
  {| config := config d; state := state d; tasks := tasks d; logs := logs d; workDir := work;
     baseDir := base; running := running d; files := files d; trace := trace d |}.
Definition set_running (r : bool) (d : Daemon) : Daemon :=
  {| config := {| CfEnabled := r; TickInterval := TickInterval (config d);
                  BlockingBudget := BlockingBudget (config d); CacheExpiry := CacheExpiry (config d);
                  Autonomy := Autonomy (config d) |};
     state := state d; tasks := tasks d; logs := logs d; workDir := workDir d; baseDir := baseDir d;
     running := r; files := files d; trace := trace d |}.
Definition set_files (f : gmap (string * string) (list Task)) (d : Daemon) : Daemon :=
  {| config := config d; state := state d; tasks := tasks d; logs := logs d; workDir := workDir d;
     baseDir := baseDir d; running := running d; files := f; trace := trace d |}.
Definition add_event (e : KEvent) (d : Daemon) : Daemon :=
  {| config := config d; state := state d; tasks := tasks d; logs := logs d; workDir := workDir d;
     baseDir := baseDir d; running := running d; files := files d; trace := trace d ++ [e] |}.

Definition runs_in (tr : list KEvent) : list (Task * time) :=
  omap (λ e, match e with EvRun t n => Some (t, n) | _ => None end) tr.
Definition runs_of (d : Daemon) : list (Task * time) := runs_in (trace d).

(** ** Operations *)

Definition addLogLocked (now : time) (action detail : string) (d : Daemon) : Daemon :=
  let l := logs d ++ [{| LoTime := now; LoAction := action; LoDetail := detail |}] in
  set_logs (if (1000 <? length l)%nat then drop (length l - 500) l else l) d.

Definition GetLogs (limit : Z) (d : Daemon) : list LogEntry :=
  let n := Z.of_nat (length (logs d)) in
  let limit := if (limit <=? 0) || (n <? limit) then n else limit in
  drop (Z.to_nat (n - limit)) (logs d).

Definition projectDir (d : Daemon) : option (string * string) :=
  if String.eqb (workDir d) "" || String.eqb (baseDir d) "" then None else Some (baseDir d, workDir d).

Definition loadTasks (d : Daemon) : list Task :=
  match projectDir d with Some dir => default [] (files d !! dir) | None => [] end.

Definition saveTasks (d : Daemon) : Daemon :=
  match projectDir d with Some dir => set_files (<[dir := tasks d]> (files d)) d | None => d end.

Definition SetBaseDir (dir : string) (d : Daemon) : Daemon := set_dirs (workDir d) dir d.

Definition SwitchProject (dir : string) (d : Daemon) : Daemon :=
  let d := set_dirs dir (baseDir d) d in
  let d := set_tasks (loadTasks d) d in
  add_event (EvOpened (TaID <$> tasks d)) d.

Definition SetAutonomy (mode : string) (d : Daemon) : Daemon :=
  {| config := {| CfEnabled := CfEnabled (config d); TickInterval := TickInterval (config d);
                  BlockingBudget := BlockingBudget (config d); CacheExpiry := CacheExpiry (config d);
                  Autonomy := mode |};
     state := state d; tasks := tasks d; logs := logs d; workDir := workDir d; baseDir := baseDir d;
     running := running d; files := files d; trace := trace d |}.

Definition created (now : time) (t : Task) : Task :=
  {| TaID := TaID t; TaType := TaType t; TaDescription := TaDescription t; TaCommand := TaCommand t;
     TaCronExpr := TaCronExpr t; TaWorkstreamID := TaWorkstreamID t; TaPlanID := TaPlanID t;
     TaPlanRevision := TaPlanRevision t; TaStageID := TaStageID t; TaCreatedAt := now;
     TaLastRun := TaLastRun t; TaEnabled := true |}.

Definition AddTask (now : time) (t : Task) (d : Daemon) : Daemon :=
  addLogLocked now "task-added" (TaDescription t)
    (saveTasks (add_event (EvAdded (TaID t) (bool_decide (TaID t ∈ TaID <$> tasks d)))
      (set_tasks (tasks d ++ [created now t]) d))).

Definition RemoveTask (id : string) (d : Daemon) : Daemon :=
  match find_index (λ t, String.eqb (TaID t) id) (tasks d) with
  | Some i => saveTasks (set_tasks (delete i (tasks d)) d)
  | None => d
  end.

(** [Start] answers whether a new tick loop is started. *)
Definition Start (now : time) (d : Daemon) : Daemon * bool :=
  if running d then (d, false)
  else (addLogLocked now "daemon-start" "KAIROS daemon started" (set_running true d), true).

Definition Stop (now : time) (d : Daemon) : Daemon :=
  addLogLocked now "daemon-stop" "KAIROS daemon stopped" (set_state StateIdle (set_running false d)).

Definition activeTasks (d : Daemon) : list Task := List.filter TaEnabled (tasks d).

(** ** Ticks *)

Definition GitWatch : string := "git-watch".

Section ticks.
Context (offset : time → duration).
(** The clock read for a log entry, and [executeTask]: git probes, providers, traces and
    workstreams are outside. *)
Context (clock : Daemon → time).
Context (executeTask : Task → string → Prog Daemon unit).

Definition isTaskDue (t : Task) (now : time) (d : Daemon) : bool :=
  let elapsed := is_zero (TaLastRun t) || (TickInterval (config d) <? time_sub now (TaLastRun t)) in
  if String.eqb (TaType t) GitWatch then elapsed
  else if negb (String.eqb (TaCronExpr t) "") then IsDue offset (TaCronExpr t) (TaLastRun t) now
  else elapsed.

Definition ran (now : time) (t : Task) : Task :=
  {| TaID := TaID t; TaType := TaType t; TaDescription := TaDescription t; TaCommand := TaCommand t;
     TaCronExpr := TaCronExpr t; TaWorkstreamID := TaWorkstreamID t; TaPlanID := TaPlanID t;
     TaPlanRevision := TaPlanRevision t; TaStageID := TaStageID t; TaCreatedAt := TaCreatedAt t;
     TaLastRun := now; TaEnabled := TaEnabled t |}.

(** The update of the last run, for every task with the id. *)
Definition mark_run (id : string) (now : time) (d : Daemon) : Daemon :=
  set_tasks (map (λ t, if String.eqb (TaID t) id then ran now t else t) (tasks d)) d.

(** The body of the loop over the snapshot of the tasks. *)
Definition tick_task (now : time) (autonomy : string) (t : Task) : Prog Daemon unit :=
  due ← ask (isTaskDue t now);
  if due : bool then
    put (λ d, addLogLocked (clock d) "task-start" (TaDescription t) d) ≫= λ _,
    executeTask t autonomy ≫= λ _,
    put (λ d, add_event (EvRun t now) (mark_run (TaID t) now d))
  else mret tt.

(** The tick of a daemon that has tasks. *)
Definition work (now : time) (autonomy : string) (ts : list Task) : Prog Daemon unit :=
  put (set_state StateWorking) ≫= λ _,
  prog_each (tick_task now autonomy) ts ≫= λ _,
  put (set_state StateIdle).

Definition onTick (now : time) : Prog Daemon unit :=
  snapshot ← ask (λ d, (activeTasks d, Autonomy (config d)));
  match snapshot.1 with
  | [] => put (set_state StateSleeping)
  | ts => work now snapshot.2 ts
  end.

(** The ticks of one loop; when the daemon is stopped and started, the ticks of the loops one
    after the other (a loop that is still in a tick beside the next one is not modelled). *)
Definition tickLoop (nows : list time) : Prog Daemon unit :=
  prog_each onTick nows ≫= λ _, mret tt.
End ticks.

(** ** What others do meanwhile

    The requests of users that change the daemon, under its lock: any task may be added, under
    any id, and any project opened, at any time. *)

Inductive others : Daemon → Daemon → Prop :=
| others_add now t d : others d (AddTask now t d)
| others_remove id d : others d (RemoveTask id d)
| others_base dir d : others d (SetBaseDir dir d)
| others_switch dir d : others d (SwitchProject dir d)
| others_autonomy mode d : others d (SetAutonomy mode d)
| others_log now action detail d : others d (addLogLocked now action detail d)
| others_start now d : others d (Start now d).1
| others_stop now d : others d (Stop now d).

(** ** What happened to an id *)

Definition is_run (e : KEvent) : bool := match e with EvRun _ _ => true | _ => false end.

(** Opening a project or adding a task replaces the record of the last run. *)
Definition resets (id : string) (e : KEvent) : bool :=
  match e with EvOpened _ => true | EvAdded x _ => String.eqb x id | EvRun _ _ => false end.

Definition occurrences (id : string) (ids : list string) : nat := length (List.filter (String.eqb id) ids).
(** Afterwards two tasks may have the id: it was added while in use, or twice in a file. *)
Definition doubles (id : string) (e : KEvent) : bool :=
  match e with
  | EvOpened ids => (1 <? occurrences id ids)%nat
  | EvAdded x in_use => String.eqb x id && in_use
  | EvRun _ _ => false
  end.
Definition clean (id : string) (tr : list KEvent) : Prop := existsb (doubles id) tr = false.

(** The last run since the record was replaced. *)
Definition since_step (id : string) (acc : option time) (e : KEvent) : option time :=
  match e with
  | EvRun t n => if String.eqb (TaID t) id then Some n else acc
  | _ => if resets id e then None else acc
  end.
Definition last_since (id : string) (tr : list KEvent) : option time := fold_left (since_step id) tr None.

Lemma last_since_snoc id tr e : last_since id (tr ++ [e]) = since_step id (last_since id tr) e.
Proof. unfold last_since. by rewrite fold_left_app. Qed.

Lemma clean_app id tr tr' : clean id (tr ++ tr') → clean id tr ∧ clean id tr'.
Proof. unfold clean. rewrite existsb_app. apply orb_false_iff. Qed.

Lemma quiet_snoc es e : Forall (λ e, is_run e = false) (es ++ [e]) → Forall (λ e, is_run e = false) es ∧ is_run e = false.
Proof. intros [H1 H2]%Forall_app. split; [done|]. by inversion H2. Qed.

Lemma last_since_quiet id tr es m :
  Forall (λ e, is_run e = false) es → last_since id (tr ++ es) = Some m → last_since id tr = Some m.
Proof.
  induction es as [|e es IH] using rev_ind; [by rewrite app_nil_r|].
  intros [Hes He]%quiet_snoc. rewrite app_assoc, last_since_snoc.
  destruct e as [t n|ids|x b]; simpl in *; [done|done|]. destruct (String.eqb x id); [done|]. by apply IH.
Qed.

Lemma last_since_in id tr m : last_since id tr = Some m → ∃ t, EvRun t m ∈ tr.
Proof.
  induction tr as [|e tr IH] using rev_ind; [done|]. rewrite last_since_snoc.
  destruct e as [t n|ids|x b]; simpl; [|done|].
  - destruct (String.eqb _ _); [intros [= <-]; exists t; apply elem_of_app; right; left|].
    intros (u & Hu)%IH. exists u. apply elem_of_app. by left.
  - destruct (String.eqb _ _); [done|]. intros (u & Hu)%IH. exists u. apply elem_of_app. by left.
Qed.

Lemma runs_app tr tr' : runs_in (tr ++ tr') = runs_in tr ++ runs_in tr'.
Proof. apply omap_app. Qed.
Lemma runs_quiet es : Forall (λ e, is_run e = false) es → runs_in es = [].
Proof. induction 1 as [|[] es H _ IH]; simpl; [done|discriminate H|exact IH..]. Qed.
Lemma in_runs t n tr : (t, n) ∈ runs_in tr ↔ EvRun t n ∈ tr.
Proof.
  unfold runs_in. rewrite list_elem_of_omap. split.
  - intros ([]& He & [= -> ->]). done.
  - intros H. by exists (EvRun t n).
Qed.

(** ** The daemon's own record of its tasks *)

Definition in_step (tr : list KEvent) (t : Task) : Prop :=
  clean (TaID t) tr → ∀ m, last_since (TaID t) tr = Some m → TaLastRun t = m.
Definition single (id : string) (l : list Task) : Prop := (occurrences id (TaID <$> l) ≤ 1)%nat.

Record tasks_ok (d : Daemon) : Prop := {
  tk_single : ∀ id, clean id (trace d) → single id (tasks d);
  tk_in_step : ∀ t, t ∈ tasks d → in_step (trace d) t;
}.

(** What neither others nor a task under execution change. *)
Definition kept (d d' : Daemon) : Prop :=
  (∃ es, trace d' = trace d ++ es ∧ Forall (λ e, is_run e = false) es) ∧
  TickInterval (config d') = TickInterval (config d) ∧ (tasks_ok d → tasks_ok d').

#[export] Instance kept_preorder : PreOrder kept.
Proof.
  split.
  - intros d. split_and!; [|done|done]. exists []. by rewrite app_nil_r.
  - intros d1 d2 d3 ((es & A & A') & B & C) ((es' & E & E') & F & G). split_and!; [|congruence|auto].
    exists (es ++ es'). rewrite E, A, app_assoc. split; [done|by apply Forall_app].
Qed.

Lemma same_tasks_kept d d' :
  tasks d' = tasks d → trace d' = trace d → TickInterval (config d') = TickInterval (config d) → kept d d'.
Proof.
  intros Ht Hr Hc. split_and!; [exists []; by rewrite app_nil_r|done|].
  intros [H1 H2]. split; by rewrite ?Ht, Hr.
Qed.

Lemma saveTasks_kept d : kept d (saveTasks d).
Proof. apply same_tasks_kept; unfold saveTasks; by destruct (projectDir d). Qed.

Lemma filter_sublist {A} (f : A → bool) l l' :
  sublist l l' → (length (List.filter f l) ≤ length (List.filter f l'))%nat.
Proof. induction 1 as [|x l l' _ IH|x l l' _ IH]; simpl; [lia| |]; destruct (f x); simpl; lia. Qed.
Lemma single_sublist id l l' : sublist l l' → single id l' → single id l.
Proof.
  unfold single, occurrences. intros H. pose proof (filter_sublist (String.eqb id) (TaID <$> l) (TaID <$> l')).
  enough (sublist (TaID <$> l) (TaID <$> l')) by naive_solver lia. by apply fmap_sublist.
Qed.

Lemma occurrences_fresh id ids : id ∉ ids → occurrences id ids = 0%nat.
Proof.
  unfold occurrences. induction ids as [|x ids IH]; [done|]. intros [Hx Hids]%not_elem_of_cons. simpl.
  destruct (String.eqb_spec id x); [done|]. by apply IH.
Qed.
Lemma occurrences_app id l l' : occurrences id (l ++ l') = (occurrences id l + occurrences id l')%nat.
Proof. unfold occurrences. by rewrite List.filter_app, length_app. Qed.

Lemma add_ok now t d : tasks_ok d →
  tasks_ok (add_event (EvAdded (TaID t) (bool_decide (TaID t ∈ TaID <$> tasks d))) (set_tasks (tasks d ++ [created now t]) d)).
Proof.
  intros [H1 H2]. split; simpl.
  - intros id [Hc Hd]%clean_app. specialize (H1 id Hc). unfold single in *. rewrite fmap_app, occurrences_app.
    unfold clean in Hd. simpl in Hd. rewrite orb_false_r in Hd. unfold occurrences at 2. simpl. rewrite String.eqb_sym.
    destruct (String.eqb_spec (TaID t) id) as [<-|]; [|simpl; lia]. simpl in Hd. apply bool_decide_eq_false in Hd.
    rewrite occurrences_fresh by done. simpl. lia.
  - intros u [Hu|Hu%list_elem_of_singleton]%elem_of_app Hc m; rewrite last_since_snoc; simpl.
    + destruct (String.eqb (TaID t) (TaID u)); [done|]. apply clean_app in Hc as [Hc _]. by apply H2.
    + subst u. simpl. by rewrite String.eqb_refl.
Qed.

Lemma others_kept d d' : others d d' → kept d d'.
Proof.
  intros [now t d1|id d1|dir d1|dir d1|mode d1|now a x d1|now d1|now d1]; try (by apply same_tasks_kept).
  - unfold AddTask. match goal with |- kept _ (addLogLocked _ _ _ ?x) => transitivity x; [|by apply same_tasks_kept] end.
    etrans; [|apply saveTasks_kept]. split_and!; [by eexists; split; [reflexivity|repeat constructor]|done|]. apply add_ok.
  - unfold RemoveTask. destruct (find_index _ (tasks d1)) as [i|]; [|done].
    etrans; [|apply saveTasks_kept]. split_and!; [exists []; by rewrite app_nil_r|done|]. intros [H1 H2]. split; simpl.
    + intros x Hx. eapply single_sublist; [apply sublist_delete|by apply H1].
    + intros t Ht. apply H2. by eapply list_elem_of_delete_inv.
  - unfold SwitchProject. split_and!; [by eexists; split; [reflexivity|repeat constructor]|done|]. intros _. split; simpl.
    + intros id [_ Hd]%clean_app. unfold clean in Hd. simpl in Hd. rewrite orb_false_r in Hd. by apply Nat.ltb_ge in Hd.
    + intros t _ _ m. by rewrite last_since_snoc.
  - unfold Start. destruct (running d1); [reflexivity|by apply same_tasks_kept].
Qed.

Lemma rtc_others_kept d d' : rtc others d d' → kept d d'.
Proof. induction 1 as [|d1 d2 d3 H _ IH]; [done|]. etrans; [by apply others_kept|done]. Qed.

Lemma mark_run_ok t now d :
  tasks_ok d → tasks_ok (add_event (EvRun t now) (mark_run (TaID t) now d)).
Proof.
  intros [H1 H2].
  assert (Hid : ∀ u, TaID (if String.eqb (TaID u) (TaID t) then ran now u else u) = TaID u)
    by (intros u; by destruct (String.eqb _ _)).
  split; simpl.
  - intros id [Hc _]%clean_app. specialize (H1 id Hc). unfold single in *.
    replace (TaID <$> map _ (tasks d)) with (TaID <$> tasks d); [done|].
    clear H1 H2. induction (tasks d) as [|u l IH]; simpl; [done|].
    f_equal; [by rewrite Hid|exact IH].
  - intros u (v & <- & Hv%list_elem_of_In)%list_elem_of_In%in_map_iff Hc m. rewrite Hid in Hc |- *.
    rewrite last_since_snoc. simpl. destruct (String.eqb_spec (TaID v) (TaID t)) as [E|Hne].
    + rewrite <- E, String.eqb_refl. by intros [= <-].
    + destruct (String.eqb_spec (TaID t) (TaID v)); [congruence|]. apply clean_app in Hc as [Hc _]. by apply H2.
Qed.

(** ** Histories of a loop *)

(** Tasks scheduled by a cron expression. *)
Definition cron_task (t : Task) : Prop := TaType t ≠ GitWatch ∧ TaCronExpr t ≠ ""%string.

(** Runs in the order of their ticks, each due when it was run. *)
Inductive history_of (offset : time → duration) : list KEvent → Prop :=
| history_nil : history_of offset []
| history_quiet tr e : history_of offset tr → is_run e = false → history_of offset (tr ++ [e])
| history_run tr t n :
    history_of offset tr → 0 < n → (∀ u m, EvRun u m ∈ tr → m ≤ n) →
    (cron_task t → (∃ c, ParseCron (TaCronExpr t) = Ok c ∧ Matches offset n c = true) ∧
       (clean (TaID t) tr → ∀ m, last_since (TaID t) tr = Some m → truncate_minute m ≠ truncate_minute n)) →
    history_of offset (tr ++ [EvRun t n]).

Section histories.
Context (offset : time → duration).
Local Abbreviation history := (history_of offset).

Lemma history_app tr es : history tr → Forall (λ e, is_run e = false) es → history (tr ++ es).
Proof.
  intros H. induction es as [|e es IH] using rev_ind; [by rewrite app_nil_r|].
  intros [Hes He]%quiet_snoc. rewrite app_assoc. apply history_quiet; [by apply IH|done].
Qed.

Lemma elem_of_snoc {A} (x y : A) l : x ∈ l ++ [y] ↔ x ∈ l ∨ x = y.
Proof. by rewrite elem_of_app, list_elem_of_singleton. Qed.

Lemma history_pos tr t n : history tr → EvRun t n ∈ tr → 0 < n.
Proof.
  intros H. induction H as [|tr e H IH He|tr u m H IH Hm Hle _]; [by intros ?%elem_of_nil|..].
  - intros [Hr|<-]%elem_of_snoc; [by apply IH|done].
  - intros [Hr|[= -> ->]]%elem_of_snoc; [by apply IH|done].
Qed.

Lemma history_matches tr t n :
  history tr → EvRun t n ∈ tr → cron_task t →
  ∃ c, ParseCron (TaCronExpr t) = Ok c ∧ Matches offset n c = true.
Proof.
  intros H. induction H as [|tr e H IH He|tr u m H IH Hn Hle Hd]; [by intros ?%elem_of_nil|..].
  - intros [Hr|<-]%elem_of_snoc Hc; [by apply IH|done].
  - intros [Hr|[= -> ->]]%elem_of_snoc Hc; [by apply IH|by apply Hd].
Qed.

Lemma lookup_snoc {A} (l : list A) x i y : (l ++ [x]) !! i = Some y → l !! i = Some y ∨ i = length l ∧ x = y.
Proof.
  intros [H|[Hi H]]%lookup_app_Some; [by left|right]. apply list_lookup_singleton_Some in H as [Hz ->]. split; [lia|done].
Qed.

(** The last run is not before a run that nothing replaced the record of. *)
Lemma history_since tr i t n :
  history tr → tr !! i = Some (EvRun t n) → existsb (resets (TaID t)) (drop (S i) tr) = false →
  ∃ m, last_since (TaID t) tr = Some m ∧ n ≤ m.
Proof.
  intros H. induction H as [|tr e H IH He|tr u k H IH Hk Hle _]; [done|..].
  - intros [Hi|[_ ->]]%lookup_snoc; [|done]. assert (Hlt : (i < length tr)%nat) by (by eapply lookup_lt_Some).
    rewrite drop_app_le by lia. rewrite existsb_app. intros [Hr Hre]%orb_false_iff.
    destruct (IH Hi Hr) as (m & Hm & Hle'). exists m. split; [|done]. rewrite last_since_snoc.
    simpl in Hre. rewrite orb_false_r in Hre. destruct e; [done|discriminate Hre|]. simpl in Hre |- *. by rewrite Hre.
  - rewrite last_since_snoc. simpl. intros [Hi|[-> [= -> ->]]]%lookup_snoc Hr.
    + assert (Hlt : (i < length tr)%nat) by (by eapply lookup_lt_Some). rewrite drop_app_le, existsb_app in Hr by lia.
      apply orb_false_iff in Hr as [Hr _]. destruct (String.eqb (TaID u) (TaID t)).
      * exists k. split; [done|]. by apply (Hle t n), (list_elem_of_lookup_2 _ i).
      * by apply IH.
    + rewrite String.eqb_refl. exists n. split; [done|lia].
Qed.

Lemma history_once tr i j t1 n1 t2 n2 :
  history tr → (i < j)%nat → tr !! i = Some (EvRun t1 n1) → tr !! j = Some (EvRun t2 n2) →
  TaID t1 = TaID t2 → cron_task t2 →
  existsb (resets (TaID t2)) (drop (S i) (take j tr)) = false → clean (TaID t2) (take j tr) →
  truncate_minute n1 < truncate_minute n2.
Proof.
  intros H Hij. induction H as [|tr e H IH He|tr u k H IH Hk Hle Hd]; [done|..]; intros Hi [Hj|[-> E]]%lookup_snoc.
  - assert (Hlt : (j < length tr)%nat) by (by eapply lookup_lt_Some). rewrite lookup_app_l in Hi by lia.
    rewrite take_app_le by lia. by apply IH.
  - by subst e.
  - assert (Hlt : (j < length tr)%nat) by (by eapply lookup_lt_Some). rewrite lookup_app_l in Hi by lia.
    rewrite take_app_le by lia. by apply IH.
  - injection E as -> ->. rewrite lookup_app_l in Hi by lia. rewrite take_app_length. intros E Hc Hr Hcl.
    rewrite <- E in Hr. destruct (history_since tr i t1 n1 H Hi Hr) as (m & Hm & Hle1). rewrite E in Hm.
    pose proof (proj2 (Hd Hc) Hcl m Hm) as Hne.
    assert (m ≤ n2) by (apply last_since_in in Hm as (v & Hv); by apply (Hle v)).
    pose proof (truncate_mono n1 m Hle1). pose proof (truncate_mono m n2 ltac:(done)). lia.
Qed.
End histories.

Section one_loop.
Context (offset : time → duration) (clock : Daemon → time) (executeTask : Task → string → Prog Daemon unit).

(** Executing a task changes neither the tasks nor the runs. *)
Definition quiet : Prop := ∀ t autonomy d, wp (rtc others) kept (executeTask t autonomy) (λ _ _, True) d.
Context (Hquiet : quiet).
Let loose (_ _ : Daemon) : Prop := True.

Lemma isTaskDue_interval t now d d' :
  TickInterval (config d') = TickInterval (config d) → isTaskDue offset t now d' = isTaskDue offset t now d.
Proof. intros E. unfold isTaskDue. by rewrite E. Qed.

Lemma due_cron t now d :
  isTaskDue offset t now d = true → cron_task t →
  (∃ c, ParseCron (TaCronExpr t) = Ok c ∧ Matches offset now c = true) ∧
  (TaLastRun t = time_zero ∨ truncate_minute (TaLastRun t) ≠ truncate_minute now).
Proof.
  intros Hd [Hty He]. unfold isTaskDue in Hd. apply String.eqb_neq in Hty. rewrite Hty in Hd.
  destruct (String.eqb_spec (TaCronExpr t) ""); [done|]. simpl in Hd.
  apply IsDue_spec in Hd as [[? _]|(_ & Hm & Hl)]; done.
Qed.

(** The state of a loop whose runs so far were at ticks up to [now]. *)
Record good (now : time) (d : Daemon) : Prop := {
  gd_history : history_of offset (trace d);
  gd_tasks : tasks_ok d;
  gd_before : ∀ t n, EvRun t n ∈ trace d → n ≤ now;
}.

Lemma kept_good now d d' : kept d d' → good now d → good now d'.
Proof.
  intros ((es & Et & Hes) & _ & Hok) [H1 H2 H3]. split; [rewrite Et; by apply history_app|by apply Hok|].
  rewrite Et. intros t n [Hr|Hr]%elem_of_app; [by eapply H3|]. rewrite Forall_elem in Hes. by apply Hes in Hr.
Qed.
Lemma kept_runs d d' : kept d d' → runs_of d' = runs_of d.
Proof. intros ((es & Et & Hes) & _). unfold runs_of. by rewrite Et, runs_app, (runs_quiet es Hes), app_nil_r. Qed.
Lemma kept_in_step d d' t : kept d d' → in_step (trace d) t → in_step (trace d') t.
Proof.
  intros ((es & -> & Hes) & _) H [Hc _]%clean_app m Hm. apply H; [done|]. by eapply last_since_quiet.
Qed.
Lemma kept_clean d d' id : kept d d' → clean id (trace d') → clean id (trace d).
Proof. intros ((es & -> & _) & _) [Hc _]%clean_app. done. Qed.

Lemma wp_execute t autonomy d (Q : unit → Daemon → Prop) :
  (∀ d', kept d d' → Q tt d') → wp (rtc others) loose (executeTask t autonomy) Q d.
Proof.
  intros HQ. eapply (wp_weaken (rtc others) kept); [done|done|].
  eapply wp_mono; [|apply wp_keep; [apply _|done|apply rtc_others_kept|apply Hquiet]].
  intros [] d' [_ Hk]. by apply HQ.
Qed.

(** One task of a tick: run when due, at a state that only quiet changes lead to. *)
Definition ran_task (now : time) (t : Task) (d d' : Daemon) : Prop :=
  if isTaskDue offset t now d
  then ∃ d1, kept d d1 ∧ d' = add_event (EvRun t now) (mark_run (TaID t) now d1)
  else kept d d'.

Lemma wp_tick_task now autonomy t d :
  wp (rtc others) loose (tick_task offset clock executeTask now autonomy t) (λ _ d', ran_task now t d d') d.
Proof.
  intros d1 H1. split; [done|]. simpl. apply rtc_others_kept in H1. pose proof H1 as (_ & Hint & _).
  rewrite (isTaskDue_interval t now d d1 Hint). unfold ran_task. destruct (isTaskDue offset t now d); simpl; [|done].
  intros d2 H2. split; [done|]. apply wp_bind, wp_execute. intros d3 H3.
  intros d4 H4. split; [done|]. apply rtc_others_kept in H2, H4. exists d4. split; [|done].
  etrans; [exact H1|]. etrans; [exact H2|]. etrans; [|exact H4]. etrans; [|exact H3]. by apply same_tasks_kept.
Qed.

Lemma run_good now t d : 0 < now → isTaskDue offset t now d = true → in_step (trace d) t →
  good now d → good now (add_event (EvRun t now) (mark_run (TaID t) now d)).
Proof.
  intros Hn Hdue Hs [H1 H2 H3]. split; simpl.
  - apply history_run; [done|done|done|]. intros Hc. destruct (due_cron t now d Hdue Hc) as [Hm Hl]. split; [done|].
    intros Hcl m Hm'. specialize (Hs Hcl m Hm'). rewrite Hs in Hl. destruct Hl as [Hz|Hl]; [|done].
    apply last_since_in in Hm' as (v & Hv). apply (history_pos offset) in Hv; [|done]. unfold time_zero in Hz. lia.
  - by apply mark_run_ok.
  - intros u m [Hr|[= -> ->]]%elem_of_snoc; [by eapply H3|lia].
Qed.

Lemma single_lookup id l i j t u :
  single id l → l !! i = Some t → l !! j = Some u → TaID t = id → TaID u = id → i = j.
Proof.
  unfold single. revert i j. induction l as [|x l IH]; intros i j Hs Hi Hj Ht Hu; [done|].
  assert (Hpos : ∀ (k : nat) (v : Task), l !! k = Some v → TaID v = id → (1 ≤ occurrences id (TaID <$> l))%nat).
  { clear. intros k v Hk Hv. unfold occurrences.
    assert (H : In id (List.filter (String.eqb id) (TaID <$> l))).
    { apply filter_In. split; [|apply String.eqb_refl]. apply list_elem_of_In. rewrite <- Hv. apply list_elem_of_fmap_2.
      by eapply list_elem_of_lookup_2. }
    destruct (List.filter _ _); [done|simpl; lia]. }
  unfold occurrences in Hs. rewrite fmap_cons in Hs. simpl in Hs.
  destruct i as [|i], j as [|j]; simpl in Hi, Hj; [done| | |].
  - injection Hi as ->. rewrite Ht, String.eqb_refl in Hs. simpl in Hs. specialize (Hpos j u Hj Hu). unfold occurrences in Hpos. lia.
  - injection Hj as ->. rewrite Hu, String.eqb_refl in Hs. simpl in Hs. specialize (Hpos i t Hi Ht). unfold occurrences in Hpos. lia.
  - f_equal. apply IH; try done. unfold occurrences. destruct (String.eqb id (TaID x)); simpl in Hs; lia.
Qed.

(** The state within a tick that found the tasks of [d0]; [k] of them are dealt with. *)
Record ticking (now : time) (d0 : Daemon) (k : nat) (d : Daemon) : Prop := {
  tc_runs : runs_of d = runs_of d0 ++ map (λ t, (t, now)) (List.filter (λ t, isTaskDue offset t now d0) (take k (activeTasks d0)));
  tc_interval : TickInterval (config d) = TickInterval (config d0);
  tc_prefix : ∀ id, clean id (trace d) → clean id (trace d0);
  tc_good : good now d0 → good now d ∧ ∀ i t, (k ≤ i)%nat → activeTasks d0 !! i = Some t → in_step (trace d) t;
}.

Lemma ticking_kept now d0 k d d' : kept d d' → ticking now d0 k d → ticking now d0 k d'.
Proof.
  intros K [H1 H2 H3 H4]. pose proof K as (_ & Hi & _). split.
  - by rewrite (kept_runs _ _ K).
  - congruence.
  - intros id Hc. by apply H3, (kept_clean _ _ _ K).
  - intros Hg. destruct (H4 Hg) as [G1 G2]. split; [by eapply kept_good|]. intros i t Hle Ht. eapply kept_in_step; [exact K|]. by eapply G2.
Qed.

Lemma ticking_start now d0 : ticking now d0 0 d0.
Proof.
  split; [by rewrite app_nil_r|done|done|]. intros Hg. split; [done|]. intros i t _ Ht. apply (tk_in_step _ (gd_tasks _ _ Hg)).
  apply list_elem_of_lookup_2, list_elem_of_In, filter_In in Ht as [Ht _]. by apply list_elem_of_In.
Qed.

Lemma ticking_step now d0 k t d d' :
  0 < now → activeTasks d0 !! k = Some t → ticking now d0 k d → ran_task now t d d' → ticking now d0 (S k) d'.
Proof.
  intros Hn Hk Ht Hr. unfold ran_task in Hr. rewrite (isTaskDue_interval t now d0 d) in Hr by apply Ht.
  assert (Htake : List.filter (λ t, isTaskDue offset t now d0) (take (S k) (activeTasks d0)) =
    List.filter (λ t, isTaskDue offset t now d0) (take k (activeTasks d0)) ++ (if isTaskDue offset t now d0 then [t] else []))
    by (rewrite (take_S_r _ _ t Hk), List.filter_app; simpl; by destruct (isTaskDue offset t now d0)).
  destruct (isTaskDue offset t now d0) eqn:Hdue.
  - destruct Hr as (d1 & K & ->). apply (ticking_kept _ _ _ _ _ K) in Ht. destruct Ht as [H1 H2 H3 H4]. split.
    + unfold runs_of in *. simpl. rewrite runs_app, H1, Htake, map_app, app_assoc. done.
    + exact H2.
    + intros id [Hc _]%clean_app. by apply H3.
    + intros Hg. destruct (H4 Hg) as [G1 G2]. split.
      * apply run_good; [done| |by eapply G2|done]. by rewrite (isTaskDue_interval t now d0 d1).
      * intros i u Hle Hu [Hc _]%clean_app m. simpl. rewrite last_since_snoc. simpl.
        destruct (String.eqb_spec (TaID t) (TaID u)) as [E|]; [|apply (G2 i u); [lia|done|done]].
        exfalso. assert (k = i); [|lia]. apply (single_lookup (TaID u) (activeTasks d0) k i t u); try done.
        eapply single_sublist; [|apply (tk_single _ (gd_tasks _ _ Hg)), H3, Hc].
        unfold activeTasks. clear. induction (tasks d0) as [|x l IH]; simpl; [constructor|]. destruct (TaEnabled x); by constructor.
  - apply (ticking_kept _ _ _ _ _ Hr) in Ht. destruct Ht as [H1 H2 H3 H4]. split; [by rewrite H1, Htake, app_nil_r|done|done|].
    intros Hg. destruct (H4 Hg) as [G1 G2]. split; [done|]. intros i u Hle. apply G2. lia.
Qed.

(** What a tick ran: the due ones of the tasks it found, in their order. *)
Definition tick_ran (now : time) (d d' : Daemon) : Prop :=
  ∃ d0, rtc others d d0 ∧ ticking now d0 (length (activeTasks d0)) d'.

Lemma wp_work now autonomy d d0 :
  0 < now → rtc others d d0 →
  wp (rtc others) loose (work offset clock executeTask now autonomy (activeTasks d0))
    (λ _ d', tick_ran now d d') d0.
Proof.
  intros Hn H0 d1 H1. split; [done|].
  assert (K1 : kept d0 (set_state StateWorking d1)).
  { etrans; [by apply rtc_others_kept|]. by apply same_tasks_kept. }
  apply wp_bind. eapply wp_mono.
  2: { apply (wp_each _ _ _ (λ don _ s, ticking now d0 (length don) s)).
       - eapply ticking_kept; [exact K1|apply ticking_start].
       - intros don t rest ys s Hl Hr. eapply wp_mono; [|apply wp_tick_task].
         intros [] s' Hs. rewrite length_app, Nat.add_1_r. eapply ticking_step; [done| |exact Hr|exact Hs].
         rewrite Hl. by apply list_lookup_middle. }
  intros l d2 H2. intros d3 H3. split; [done|]. exists d0. split; [done|].
  eapply ticking_kept; [|exact H2]. etrans; [by apply rtc_others_kept|]. by apply same_tasks_kept.
Qed.

Lemma wp_onTick now d :
  0 < now → wp (rtc others) loose (onTick offset clock executeTask now) (λ _ d', tick_ran now d d') d.
Proof.
  intros Hn d0 H0. split; [done|]. cbn [fst snd].
  pose proof (wp_work now (Autonomy (config d0)) d d0 Hn H0) as W.
  destruct (activeTasks d0) as [|t0 ts0] eqn:E; [clear W|exact W].
  intros d1 H1. split; [done|]. exists d0. split; [done|]. rewrite E. simpl.
  eapply ticking_kept; [|apply ticking_start]. etrans; [by apply rtc_others_kept|]. by apply same_tasks_kept.
Qed.

Lemma tick_good now d d' : good now d → tick_ran now d d' → good now d'.
Proof. intros Hg (d0 & Ho & Ht). apply (tc_good _ _ _ _ Ht). eapply kept_good; [by apply rtc_others_kept|done]. Qed.

Lemma good_later now now' d : now ≤ now' → good now d → good now' d.
Proof. intros Hle [H1 H2 H3]. split; [done|done|]. intros t n Hr. specialize (H3 t n Hr). lia. Qed.

Lemma wp_loop nows now d :
  0 ≤ now → StronglySorted Z.le (now :: nows) → Forall (Z.lt 0) nows → good now d →
  wp (rtc others) loose (tickLoop offset clock executeTask nows) (λ _ d', ∃ n, good n d') d.
Proof.
  intros Hz Hs Hp Hg. apply wp_bind. eapply wp_mono; [|apply (wp_each _ _ _ (λ don _ s, good (default now (list.last don)) s))].
  - intros ys s Hgs. cbv beta in Hgs. change (∃ n, good n s). by exists (default now (list.last nows)).
  - exact Hg.
  - intros don n rest ys s Hl Hgs. eapply wp_mono; [|apply wp_onTick].
    + intros [] s' Ht. cbv beta. rewrite last_snoc. eapply tick_good; [|exact Ht]. eapply good_later; [|exact Hgs].
      rewrite Hl in Hs. destruct don as [|x don] using rev_ind; simpl.
      * apply StronglySorted_inv in Hs as [_ Hall]. rewrite Forall_elem in Hall. apply Hall. left.
      * rewrite last_snoc. simpl. rewrite <- app_assoc in Hs. change (now :: don ++ [x] ++ n :: rest) with ((now :: don) ++ x :: n :: rest) in Hs.
        apply StronglySorted_app_1_r in Hs. apply StronglySorted_inv in Hs as [_ Hall]. rewrite Forall_elem in Hall. apply Hall. left.
    + rewrite Forall_elem in Hp. apply Hp. rewrite Hl. apply elem_of_app. right. left.
Qed.
End one_loop.

(** A tick runs what is due, and nothing else.  Whatever others do to the daemon
    meanwhile, a tick runs exactly the enabled tasks that are due among those it found when
    it started, each once, in their order. *)
Theorem tick_runs_due offset clock executeTask now d d' :
  quiet executeTask → 0 < now →
  runs (rtc others) (onTick offset clock executeTask now) d d' tt →
  ∃ d0, rtc others d d0 ∧
    runs_of d' = runs_of d ++
      map (λ t, (t, now)) (List.filter (λ t, isTaskDue offset t now d0) (activeTasks d0)).
Proof.
  intros Hq Hn Hrun.
  destruct (wp_runs _ _ _ _ _ d d' tt (λ _ _ H, H) (wp_onTick offset clock executeTask Hq now d Hn) Hrun)
    as (d0 & Ho & [Hr _ _ _]). exists d0. split; [done|]. rewrite Hr, firstn_all. f_equal. apply kept_runs. by apply rtc_others_kept.
Qed.

(** C33: A scheduled task runs in the minutes of its expression, and once in each.  Let a new
    daemon tick in one loop, whose clock does not run backwards, while users add and remove
    tasks, under any ids, open projects and do whatever else the server lets them, in any
    interleaving; executing a task is taken not to change the list of tasks.  Every run of a
    task with a cron expression is at a tick that matches the expression.  And when such a task
    runs and its id ran before, the earlier run was in an earlier minute, unless between the two
    a project was opened or a task was added under that id (which replaces the record of the
    last run, see [last_run_not_saved]), or before the later one the id was given to two tasks
    at once, by adding it while it was in use or from a file that has it twice (see
    [shared_id_runs_twice]). *)
Theorem cron_once_per_minute offset clock executeTask nows d0 d d' :
  quiet executeTask → StronglySorted Z.le nows → Forall (Z.lt 0) nows →
  tasks d0 = [] → trace d0 = [] → rtc others d0 d →
  runs (rtc others) (tickLoop offset clock executeTask nows) d d' tt →
  (∀ t n, EvRun t n ∈ trace d' → cron_task t →
     ∃ c, ParseCron (TaCronExpr t) = Ok c ∧ Matches offset n c = true) ∧
  (∀ i j t1 n1 t2 n2, (i < j)%nat → trace d' !! i = Some (EvRun t1 n1) → trace d' !! j = Some (EvRun t2 n2) →
     TaID t1 = TaID t2 → cron_task t2 →
     truncate_minute n1 < truncate_minute n2 ∨
     (∃ k e, (i < k < j)%nat ∧ trace d' !! k = Some e ∧ resets (TaID t2) e = true) ∨
     (∃ k e, (k < j)%nat ∧ trace d' !! k = Some e ∧ doubles (TaID t2) e = true)).
Proof.
  intros Hq Hsorted Hpos Ht0 H0 Hd Hrun.
  assert (Hg : ∃ n, good offset n d').
  { eapply (wp_runs (rtc others) (rtc others) (λ _ _, True) _ (λ _ d', ∃ n, good offset n d')); [done| |exact Hrun].
    apply (wp_loop offset clock executeTask Hq nows 0); [done| |done|].
    - constructor; [done|]. eapply Forall_impl; [|exact Hpos]. intros x Hx. apply Z.lt_le_incl. exact Hx.
    - eapply kept_good; [by apply rtc_others_kept|]. split; rewrite ?H0; [constructor| |by intros ? ? ?%elem_of_nil].
      split; rewrite Ht0; [intros id _; unfold single, occurrences; simpl; lia|by intros ? ?%elem_of_nil]. }
  destruct Hg as (n & [Hh _ _]). split.
  - intros t m Hr Hc. by eapply history_matches.
  - intros i j t1 n1 t2 n2 Hij Hi Hj E Hc.
    destruct (existsb (resets (TaID t2)) (drop (S i) (take j (trace d')))) eqn:Hr.
    { right. left. apply existsb_exists in Hr as (e & Hin%list_elem_of_In & He). apply list_elem_of_lookup in Hin as [k Hk].
      rewrite lookup_drop in Hk. apply lookup_take_Some in Hk as [Hk Hlt]. exists (S i + k)%nat, e. split_and!; [lia|lia|done|done]. }
    destruct (existsb (doubles (TaID t2)) (take j (trace d'))) eqn:Hdb.
    { right. right. apply existsb_exists in Hdb as (e & Hin%list_elem_of_In & He). apply list_elem_of_lookup in Hin as [k Hk].
      apply lookup_take_Some in Hk as [Hk Hlt]. by exists k, e. }
    left. by eapply history_once.
Qed.

(** ** Concrete runs *)

Definition idle : Task → string → Prog Daemon unit := λ _ _, mret tt.
Lemma idle_quiet : quiet idle.
Proof. by intros t autonomy d. Qed.

Definition ex_task (id type cron : string) : Task :=
  {| TaID := id; TaType := type; TaDescription := id; TaCommand := ""; TaCronExpr := cron;
     TaWorkstreamID := ""; TaPlanID := ""; TaPlanRevision := 0; TaStageID := ""; TaCreatedAt := time_zero;
     TaLastRun := time_zero; TaEnabled := true |}.

Definition ex_start : time := ex_date 739800 90.

Definition ex_daemon : Daemon :=
  AddTask ex_start (ex_task "report" "custom" "*/2 * * * *")
    (AddTask ex_start (ex_task "git-watch" GitWatch "")
       (SwitchProject "/w" (SetBaseDir "/state" (NewDaemon DefaultDaemonConfig)))).

Definition ex_loop (nows : list time) (d : Daemon) : Daemon :=
  (run (tickLoop utc (λ _, ex_start) idle nows) d).1.

(** Four ticks, 40 seconds apart: the report runs at 01:30 and at 01:32. *)
Definition ex_ticks : list time := map (λ k, ex_start + k * (40 * second)) [0; 1; 2; 3].

Example ex_loop_runs :
  map (λ r, (TaID (fst r), (snd r - ex_start) / second)) (runs_of (ex_loop ex_ticks ex_daemon)) =
  [("git-watch", 0); ("report", 0); ("report", 120)]%string.
Proof. vm_compute. reflexivity. Qed.

Lemma ex_loop_run nows d : runs (rtc others) (tickLoop utc (λ _, ex_start) idle nows) d (ex_loop nows d) tt.
Proof.
  unfold ex_loop. pose proof (runs_run (rtc others) (tickLoop utc (λ _, ex_start) idle nows) d (λ _, rtc_refl _ _)) as H.
  by destruct (run (tickLoop utc (λ _, ex_start) idle nows) d) as [d' []].
Qed.

Definition ex_report : Task := created ex_start (ex_task "report" "custom" "*/2 * * * *").
Definition ex_watch : Task := created ex_start (ex_task "git-watch" GitWatch "").
Definition ex_trace : list KEvent :=
  [EvOpened []; EvAdded "git-watch" false; EvAdded "report" false; EvRun ex_watch ex_start;
   EvRun ex_report ex_start; EvRun (ran ex_start ex_report) (ex_start + 120 * second)].

Lemma ex_daemon_others : rtc others (NewDaemon DefaultDaemonConfig) ex_daemon.
Proof.
  eapply rtc_l; [apply (others_base "/state")|]. eapply rtc_l; [apply (others_switch "/w")|].
  eapply rtc_l; [apply (others_add ex_start (ex_task "git-watch" GitWatch ""))|].
  eapply rtc_l; [apply (others_add ex_start (ex_task "report" "custom" "*/2 * * * *"))|]. apply rtc_refl.
Qed.

Lemma cron_once_per_minute_witness :
  (∀ t n, EvRun t n ∈ trace (ex_loop ex_ticks ex_daemon) → cron_task t →
     ∃ c, ParseCron (TaCronExpr t) = Ok c ∧ Matches utc n c = true) ∧
  truncate_minute ex_start < truncate_minute (ex_start + 120 * second).
Proof.
  destruct (cron_once_per_minute utc (λ _, ex_start) idle ex_ticks (NewDaemon DefaultDaemonConfig) ex_daemon
    (ex_loop ex_ticks ex_daemon)) as [H1 H2].
  - exact idle_quiet.
  - repeat constructor; vm_compute; discriminate.
  - repeat constructor; vm_compute; reflexivity.
  - reflexivity.
  - reflexivity.
  - exact ex_daemon_others.
  - apply ex_loop_run.
  - split; [exact H1|].
    assert (E : trace (ex_loop ex_ticks ex_daemon) = ex_trace) by (vm_compute; reflexivity).
    destruct (H2 4%nat 5%nat ex_report ex_start (ran ex_start ex_report) (ex_start + 120 * second)) as [H|[(k & e & Hk & _)|(k & e & Hk & He & Hd)]];
      [lia|rewrite E; reflexivity|rewrite E; reflexivity|reflexivity|vm_compute; split; discriminate|exact H|lia|exfalso].
    rewrite E in He. do 5 (destruct k as [|k]; [vm_compute in He; injection He as <-; vm_compute in Hd; discriminate Hd|]). lia.
Defined.

Lemma tick_runs_due_witness :
  ∃ d0, rtc others ex_daemon d0 ∧
    runs_of (run (onTick utc (λ _, ex_start) idle ex_start) ex_daemon).1 = runs_of ex_daemon ++
      map (λ t, (t, ex_start)) (List.filter (λ t, isTaskDue utc t ex_start d0) (activeTasks d0)).
Proof.
  apply (tick_runs_due utc (λ _, ex_start) idle ex_start); [exact idle_quiet|vm_compute; reflexivity|].
  assert (E : (run (onTick utc (λ _, ex_start) idle ex_start) ex_daemon).2 = tt) by by destruct (_.2).
  rewrite <- E. apply runs_run. intros s. apply rtc_refl.
Defined.

(** ** What modelling showed *)

(** Ticks are two minutes apart by default, and an expression is compared with the minute
    of the tick: from an even minute on, a task of an odd minute never runs. *)
Theorem odd_minute_never_due d k last : IsDue utc "31 3 * * *" last (ex_date d 0 + k * (2 * minute)) = false.
Proof.
  unfold IsDue. change (String.eqb "31 3 * * *" "") with false. cbn iota.
  destruct (ParseCron "31 3 * * *") as [c|e] eqn:E; [|done].
  assert (Hc : Minutes c = [31]) by (vm_compute in E; by injection E as <-).
  clear E.   assert (M : Matches utc (ex_date d 0 + k * (2 * minute)) c = false); [|by rewrite M].
  unfold Matches. rewrite Hc.
  assert (Minute utc (ex_date d 0 + k * (2 * minute)) ≠ 31) as Hm.
  { unfold Minute, local, utc, ex_date. rewrite Z.mul_0_l, !Z.add_0_r.
    replace (d * day + k * (2 * minute)) with ((d * 1440 + k * 2) * minute)
      by (unfold day, hour; lia).
    rewrite Z.div_mul by done. pose proof (Z.div_mod (d * 1440 + k * 2) 60 ltac:(lia)). lia. }
  generalize dependent (Minute utc (ex_date d 0 + k * (2 * minute))). intros m Hm.
  assert (contains [31] m = false) as ->; [|done].
  unfold contains. cbn [existsb]. destruct (Z.eqb_spec 31 m); [congruence|done].
Qed.

(** A task without an expression "runs every tick", but not at the tick that is exactly
    one interval after its last run. *)
Example interval_task_skips_tick :
  map (λ k, isTaskDue utc (ran ex_start (ex_task "x" "custom" "")) (ex_start + k * (2 * minute)) ex_daemon) [1; 2] =
  [false; true].
Proof. vm_compute. reflexivity. Qed.

(** The last run is not written to the tasks file: when the project is opened again, as
    every start of the daemon does, a task runs a second time in its minute. *)
Example last_run_not_saved :
  map (λ r, (TaID (fst r), (snd r - ex_start) / second))
    (runs_of (ex_loop [ex_start + 10 * second] (SwitchProject "/w" (ex_loop [ex_start] ex_daemon)))) =
  [("git-watch", 0); ("report", 0); ("git-watch", 10); ("report", 10)]%string.
Proof. vm_compute. reflexivity. Qed.

(** Nothing keeps two tasks from having one id: both are found by a tick, and run. *)
Example shared_id_runs_twice :
  map (λ r, (TaID (fst r), (snd r - ex_start) / second))
    (runs_of (ex_loop [ex_start] (AddTask ex_start (ex_task "report" "custom" "*/2 * * * *") ex_daemon))) =
  [("git-watch", 0); ("report", 0); ("report", 0)]%string.
Proof. vm_compute. reflexivity. Qed.
