(* ===== verification/PlanObserver.v ===== *)
(** * KAIROS tasks bound to plans

    loadEligibleKAIROSPlanStage of kairos/daemon.go against the plans of [Plans].  A task
    may be bound to a stage of a plan.  It only observes: the stage and its tasks go into a
    prompt, if the plan is approved at the revision the task names and it is the stage's
    turn. *)

From S2P Require Import Prelude GoLib Kairos Plans.
Open Scope Z_scope.

Record kairosPlanStage := { KsID : string; KsName : string; KsKind : string; KsTaskIDs : list string }.
Record kairosPlanTask := {
  KtID : string;
  KtName : string;
  KtKind : string;
  KtStage : string;
  KtGoal : string;
  KtDescription : string;
  KtFiles : list string;
  KtAcceptanceCriteria : list string;
  KtOutputContract : string;
}.
Record kairosPlanDefinition := {
  KdObjective : string;
  KdVerifyCommand : string;
  KdStages : list kairosPlanStage;
  KdTasks : list kairosPlanTask;
}.

Definition hasPlanBinding (t : Task) : bool :=
  negb (String.eqb (trim_space (TaPlanID t)) "") || negb (TaPlanRevision t =? 0)
  || negb (String.eqb (trim_space (TaStageID t)) "").

Definition hasPartialPlanBinding (t : Task) : bool :=
  if negb (hasPlanBinding t) then false
  else String.eqb (trim_space (TaPlanID t)) "" || (TaPlanRevision t =? 0)
       || String.eqb (trim_space (TaStageID t)) "".

Inductive ObserveError :=
| PlanUnreadable (e : PlanError) | StaleRevision | NotApproved | StageNotEligible | AttemptLimit
| StageRunning (id : string) | UnknownStage | PrecedingIncomplete (id : string)
| BadDefinition | NoStageDefinition | TaskWithoutID | DuplicateTask (id : string)
| DuplicateStageTask (id : string) | UnknownTask (id : string) | ForeignTask (id : string).

Definition one_of (s : string) (l : list string) : bool := existsb (String.eqb s) l.

(** The loop over the plan's stages: the index of the stage named, if nothing forbids it. *)
Fixpoint stage_index (stageID : string) (i : nat) (found : option nat) (stages : list PlanStage) :
    result ObserveError (option nat) :=
  match stages with
  | [] => Ok found
  | st :: rest =>
      let named := String.eqb (StID st) stageID in
      _ ← guard_err (negb named || one_of (StStatus st) [PlanStageStatusPending; PlanStageStatusFailed])
            StageNotEligible;
      _ ← guard_err (negb named || negb (32 <=? length (StAttempts st))%nat) AttemptLimit;
      _ ← guard_err (negb (String.eqb (StStatus st) PlanStageStatusRunning)) (StageRunning (StID st));
      stage_index stageID (S i) (if named then Some i else found) rest
  end.

(** The loop over the stages before it. *)
Fixpoint preceding_completed (stages : list PlanStage) : result ObserveError unit :=
  match stages with
  | [] => Ok tt
  | st :: rest =>
      _ ← guard_err (String.eqb (StStatus st) PlanStageStatusCompleted) (PrecedingIncomplete (StID st));
      preceding_completed rest
  end.

(** [byID]. *)
Fixpoint tasks_by_id (acc : gmap string kairosPlanTask) (ts : list kairosPlanTask) :
    result ObserveError (gmap string kairosPlanTask) :=
  match ts with
  | [] => Ok acc
  | t :: rest =>
      _ ← guard_err (negb (String.eqb (KtID t) "")) TaskWithoutID;
      _ ← guard_err (bool_decide (acc !! KtID t = None)) (DuplicateTask (KtID t));
      tasks_by_id (<[KtID t := t]> acc) rest
  end.

(** The loop over the task ids of the stage. *)
Fixpoint selected_tasks (byID : gmap string kairosPlanTask) (stageID : string) (seen : list string)
    (ids : list string) : result ObserveError (list kairosPlanTask) :=
  match ids with
  | [] => Ok []
  | id :: rest =>
      _ ← guard_err (negb (one_of id seen)) (DuplicateStageTask id);
      match byID !! id with
      | None => Err (UnknownTask id)
      | Some t =>
          _ ← guard_err (String.eqb (KtStage t) "" || String.eqb (KtStage t) stageID) (ForeignTask id);
          ts ← selected_tasks byID stageID (id :: seen) rest;
          Ok (t :: ts)
      end
  end.

Definition kairosTasksForStage (definition : kairosPlanDefinition) (stage : kairosPlanStage) :
    result ObserveError (list kairosPlanTask) :=
  byID ← tasks_by_id ∅ (KdTasks definition);
  match KsTaskIDs stage with
  | [] => Ok (List.filter (λ t, String.eqb (KtStage t) (KsID stage)) (KdTasks definition))
  | ids => selected_tasks byID (KsID stage) [] ids
  end.

Section observer.
(** [json.Unmarshal] of a definition. *)
Context (decode : RawMessage → option kairosPlanDefinition).

(** What goes into the prompt; its JSON text and digest are left out. *)
Definition loadEligibleKAIROSPlanStage (t : Task) (store : PlanStore) :
    result ObserveError (Plan * kairosPlanStage * list kairosPlanTask) :=
  match GetPlan (TaWorkstreamID t) (TaPlanID t) store with
  | Err e => Err (PlanUnreadable e)
  | Ok plan =>
      _ ← guard_err (PlRevision plan =? TaPlanRevision t) StaleRevision;
      _ ← guard_err ((ApprovedRevision plan =? PlRevision plan)
            && one_of (PlStatus plan) [PlanStatusApproved; PlanStatusExecuting; PlanStatusFailed]) NotApproved;
      found ← stage_index (TaStageID t) 0 None (Stages plan);
      match found with
      | None => Err UnknownStage
      | Some i =>
          _ ← preceding_completed (take i (Stages plan));
          match decode (def_value (Definition0 plan)) with
          | None => Err BadDefinition
          | Some definition =>
              match List.find (λ s, String.eqb (KsID s) (TaStageID t)) (KdStages definition) with
              | None => Err NoStageDefinition
              | Some stage =>
                  selected ← kairosTasksForStage definition stage;
                  Ok (plan, stage, selected)
              end
          end
      end
  end.

Lemma one_of_list_spec s l : one_of s l = true ↔ s ∈ l.
Proof.
  unfold one_of. rewrite existsb_elem. split; [by intros (x & Hx & ->%String.eqb_eq)|].
  intros H. exists s. split; [done|]. apply String.eqb_refl.
Qed.

Lemma stage_index_ok stageID stages i found j :
  stage_index stageID i found stages = Ok (Some j) →
  (∀ st, st ∈ stages → StStatus st ≠ PlanStageStatusRunning) ∧
  (found = Some j ∨ ∃ k st, j = (i + k)%nat ∧ stages !! k = Some st ∧ StID st = stageID ∧
     StStatus st ∈ [PlanStageStatusPending; PlanStageStatusFailed] ∧ (length (StAttempts st) < 32)%nat).
Proof.
  revert i found. induction stages as [|st rest IH]; intros i found H; cbn [stage_index] in H.
  { injection H as ->. split; [by intros ? ?%elem_of_nil|by left]. }
  inv_result. apply IH in H as [Hrun Hj]. apply negb_true_iff, String.eqb_neq in H2.
  split.
  { intros s [->|Hs]%elem_of_cons; [done|by apply Hrun]. }
  destruct (String.eqb_spec (StID st) stageID) as [E|E]; cbn [negb orb] in *.
  - destruct Hj as [[= <-]|(k & s & -> & Hk & Hs)].
    + right. exists 0%nat, st. split_and!; [lia|done|done| |].
      * by apply one_of_list_spec.
      * apply negb_true_iff, Nat.leb_gt in H1. lia.
    + right. exists (S k), s. split; [lia|done].
  - destruct Hj as [->|(k & s & -> & Hk & Hs)]; [by left|].
    right. exists (S k), s. split; [lia|done].
Qed.

Lemma preceding_completed_ok stages :
  preceding_completed stages = Ok tt → ∀ st, st ∈ stages → StStatus st = PlanStageStatusCompleted.
Proof.
  induction stages as [|s rest IH]; intros H st Hst; [by apply elem_of_nil in Hst|]. simpl in H. inv_result.
  apply elem_of_cons in Hst as [->|Hst]; [by apply String.eqb_eq|by apply IH].
Qed.

Lemma tasks_by_id_ok ts acc m :
  tasks_by_id acc ts = Ok m → ∀ id t, m !! id = Some t → acc !! id = Some t ∨ (t ∈ ts ∧ KtID t = id).
Proof.
  revert acc. induction ts as [|u ts IH]; intros acc H id t Hm; simpl in H; inv_result; [by left|].
  apply (IH _ H) in Hm as [Hm|[Hin E]]; [|right; split; [by right|done]].
  rewrite lookup_insert in Hm. destruct (decide (KtID u = id)) as [<-|]; [|by left].
  injection Hm as ->. right. split; [left|done].
Qed.

Lemma selected_tasks_ok byID stageID ids seen ts :
  selected_tasks byID stageID seen ids = Ok ts →
  Forall2 (λ id t, byID !! id = Some t ∧ (KtStage t = ""%string ∨ KtStage t = stageID)) ids ts.
Proof.
  revert seen ts. induction ids as [|id ids IH]; intros seen ts H; simpl in H; inv_result; [constructor|].
  destruct (byID !! id) as [t|] eqn:E; [|done]. inv_result.
  constructor; [|by eapply IH]. split; [done|].
  match goal with H : _ || _ = true |- _ => apply orb_true_iff in H as [?%String.eqb_eq|?%String.eqb_eq] end; auto.
Qed.

(** A KAIROS task sees a stage only when it may: the plan is the stored one, at the
    revision the task names, which is approved; no stage is running, every stage before it
    is completed, the stage itself is waiting or failed with attempts left; and the tasks
    shown are tasks of the definition that do not belong to another stage. *)
Theorem observer_sees_approved_stage t store plan stage selected :
  loadEligibleKAIROSPlanStage t store = Ok (plan, stage, selected) →
  GetPlan (TaWorkstreamID t) (TaPlanID t) store = Ok plan ∧
  PlRevision plan = TaPlanRevision t ∧ ApprovedRevision plan = PlRevision plan ∧
  PlStatus plan ∈ [PlanStatusApproved; PlanStatusExecuting; PlanStatusFailed] ∧
  (∀ st, st ∈ Stages plan → StStatus st ≠ PlanStageStatusRunning) ∧
  (∃ i st, Stages plan !! i = Some st ∧ StID st = TaStageID t ∧
     StStatus st ∈ [PlanStageStatusPending; PlanStageStatusFailed] ∧ (length (StAttempts st) < 32)%nat ∧
     ∀ j before, (j < i)%nat → Stages plan !! j = Some before → StStatus before = PlanStageStatusCompleted) ∧
  ∃ definition, decode (def_value (Definition0 plan)) = Some definition ∧
    stage ∈ KdStages definition ∧ KsID stage = TaStageID t ∧
    ∀ u, u ∈ selected → u ∈ KdTasks definition ∧ (KtStage u = ""%string ∨ KtStage u = KsID stage).
Proof.
  unfold loadEligibleKAIROSPlanStage. destruct (GetPlan _ _ store) as [p|e]; [|done]. intros H.
  apply result_bind_ok in H as (u1 & G1%guard_err_ok & H).
  apply result_bind_ok in H as (u2 & G2%guard_err_ok & H).
  apply result_bind_ok in H as ([i|] & Hi & H); [|done].
  apply result_bind_ok in H as ([] & Hpre & H).
  destruct (decode (def_value (Definition0 p))) as [definition|] eqn:D; [|done].
  destruct (List.find _ (KdStages definition)) as [s|] eqn:F; [|done].
  apply result_bind_ok in H as (sel & Hsel & H). injection H as -> -> ->.
  apply Z.eqb_eq in G1. apply andb_true_iff in G2 as [G2%Z.eqb_eq G3%one_of_list_spec].
  apply stage_index_ok in Hi as [Hrun [?|(k & st & -> & Hst & Hid & Hstat & Hatt)]]; [done|].
  apply find_some in F as [Hin%list_elem_of_In Hsid%String.eqb_eq].
  split_and!; [done|done|done|done|done| |].
  - exists k, st. split_and!; [done|done|done|done|]. intros j b Hj Hb.
    apply (preceding_completed_ok _ Hpre). apply list_elem_of_lookup. exists j.
    by rewrite lookup_take_lt.
  - exists definition. split_and!; [done|done|done|].
    unfold kairosTasksForStage in Hsel. apply result_bind_ok in Hsel as (byID & Hby & Hsel).
    destruct (KsTaskIDs stage) as [|id ids].
    + injection Hsel as <-. intros u [Hu Es%String.eqb_eq]%list_elem_of_In%filter_In.
      split; [by apply list_elem_of_In|by right].
    + apply selected_tasks_ok in Hsel. intros u Hu.
      apply list_elem_of_lookup in Hu as [n Hn].
      eapply Forall2_lookup_r in Hsel as (id' & _ & Hl & Hs); [|exact Hn].
      split; [|done]. apply (tasks_by_id_ok _ _ _ Hby) in Hl as [Hl|[? _]]; [|done].
      by rewrite lookup_empty in Hl.
Qed.
End observer.

(** The plan of [Plans]' runs, whose first stage is completed. *)
Definition ex_definition : kairosPlanDefinition :=
  {| KdObjective := "ship"; KdVerifyCommand := "go test ./...";
     KdStages := [{| KsID := "build"; KsName := "Build"; KsKind := ""; KsTaskIDs := [] |};
                  {| KsID := "ship"; KsName := "Ship"; KsKind := ""; KsTaskIDs := ["t2"] |}];
     KdTasks := [{| KtID := "t1"; KtName := "one"; KtKind := ""; KtStage := "build"; KtGoal := "";
                    KtDescription := ""; KtFiles := []; KtAcceptanceCriteria := []; KtOutputContract := "" |};
                 {| KtID := "t2"; KtName := "two"; KtKind := ""; KtStage := ""; KtGoal := "";
                    KtDescription := ""; KtFiles := []; KtAcceptanceCriteria := []; KtOutputContract := "" |}] |}.
Definition ex_bound (revision : Z) (stage : string) : Task :=
  {| TaID := "watch"; TaType := "custom"; TaDescription := ""; TaCommand := ""; TaCronExpr := "";
     TaWorkstreamID := "ws"; TaPlanID := "p1"; TaPlanRevision := revision; TaStageID := stage;
     TaCreatedAt := time_zero; TaLastRun := time_zero; TaEnabled := true |}.
Definition ex_observe (store : PlanStore) (t : Task) : result ObserveError (list string) :=
  r ← loadEligibleKAIROSPlanStage (λ _, Some ex_definition) t store; Ok (map KtID r.2).

Example ex_observed :
  map (λ r, ex_observe (fst r) (snd r))
    [(ex_finished, ex_bound 1 "ship"); (ex_approved, ex_bound 1 "ship"); (ex_approved, ex_bound 1 "build");
     (ex_begun, ex_bound 1 "build"); (ex_approved, ex_bound 2 "build"); (ex_created, ex_bound 1 "build")] =
  [Ok ["t2"]; Err (PrecedingIncomplete "build"); Ok ["t1"]; Err StageNotEligible; Err StaleRevision; Err NotApproved]%string.
Proof. vm_compute. reflexivity. Qed.

Lemma observer_sees_approved_stage_witness :
  ∃ plan stage (selected : list kairosPlanTask),
    GetPlan "ws" "p1" ex_finished = Ok plan ∧ PlRevision plan = 1 ∧ ApprovedRevision plan = PlRevision plan ∧
    PlStatus plan ∈ [PlanStatusApproved; PlanStatusExecuting; PlanStatusFailed] ∧
    (∀ st, st ∈ Stages plan → StStatus st ≠ PlanStageStatusRunning) ∧
    (∃ i st, Stages plan !! i = Some st ∧ StID st = "ship"%string ∧
       StStatus st ∈ [PlanStageStatusPending; PlanStageStatusFailed] ∧ (length (StAttempts st) < 32)%nat ∧
       ∀ j before, (j < i)%nat → Stages plan !! j = Some before → StStatus before = PlanStageStatusCompleted) ∧
    ∃ definition, Some ex_definition = Some definition ∧
      stage ∈ KdStages definition ∧ KsID stage = "ship"%string ∧
      ∀ u, u ∈ selected → u ∈ KdTasks definition ∧ (KtStage u = ""%string ∨ KtStage u = KsID stage).
Proof.
  destruct (loadEligibleKAIROSPlanStage (λ _, Some ex_definition) (ex_bound 1 "ship") ex_finished)
    as [[[plan stage] selected]|e] eqn:E; [|vm_compute in E; discriminate E].
  exists plan, stage, selected.
  exact (observer_sees_approved_stage (λ _, Some ex_definition) (ex_bound 1 "ship") ex_finished plan stage selected E).
Defined.
