(* ===== verification/Records.v ===== *)
(** * Updating fields of records

    [s <| field := v |>] is the record [s] with one field changed, Go's assignment to a
    field of a struct.  A record type declares with [Eta] how it is rebuilt from its
    fields; the update of each field is derived from that. *)

From S2P Require Import Prelude.

Class Eta (R : Type) := rebuild : R → R.
Class Update {R T : Type} (field : R → T) := update : (T → T) → R → R.
#[global] Arguments update {R T} field {_} _ _ /.
#[global] Hint Mode Update + + ! : typeclass_instances.

(** Of [λ r, Build (f1 r) ... (fn r)], the occurrences of the field are replaced. *)
Ltac derive_update R field :=
  let e := constr:(rebuild : R → R) in
  let e := eval hnf in e in
  lazymatch eval pattern field in e with
  | ?build field =>
      let u := constr:(λ g (r : R), build (λ r', g (field r')) r) in
      let u := eval cbv beta in u in exact u
  end.
#[export] Hint Extern 1 (@Update ?R _ ?field) => derive_update R field : typeclass_instances.

Declare Scope record_scope.
Delimit Scope record_scope with record.
Notation "s <| field := v |>" := (update field (λ _, v) s)
  (at level 12, left associativity, field at next level) : record_scope.
Open Scope record_scope.
