(* ===== verification/SessionData.v ===== *)
(** * Sessions: their data and what makes a stored session valid

    agent/sessions.go: a session with its lifecycle, the marker of an interrupted run, the
    receipts of reconciliations and of agent requests, and the checks a session passes
    when it is loaded and before it is saved.  Last, what the JSON text of a session keeps
    of it. *)

From S2P Require Export Records GoLib ExecutionPolicy JsonText.
Local Open Scope string_scope.
Local Open Scope list_scope.
Local Open Scope Z_scope.

(** ** Data *)

Definition SessionLifecycleStatus : Type := string.
Definition SessionLifecycleActive : SessionLifecycleStatus := "active".
Definition SessionLifecycleInterrupted : SessionLifecycleStatus := "interrupted".
Definition SessionLifecycleClosed : SessionLifecycleStatus := "closed".
Definition SessionLifecycleRecoveryNeeded : SessionLifecycleStatus := "recovery-needed".

Definition SessionSideEffectState : Type := string.
Definition SessionSideEffectUnknown : SessionSideEffectState := "unknown".
Definition SessionSideEffectStarted : SessionSideEffectState := "started".
Definition SessionSideEffectMayHaveApplied : SessionSideEffectState := "may_have_applied".
Definition SessionSideEffectApplied : SessionSideEffectState := "applied".

Definition ReconciliationSideEffectJudgment : Type := string.
Definition ReconciliationJudgmentDigestEvaluated : ReconciliationSideEffectJudgment := "digest_evaluated".
Definition ReconciliationJudgmentUnknown : ReconciliationSideEffectJudgment := "unknown".

Definition associationSessionVersion : Z := 2.
Definition planRevisionSessionVersion : Z := 3.
Definition sessionImageVersion : Z := 4.
Definition currentSessionVersion : Z := 4.
Definition maxSessionImageBlobBytes : Z := 4 * 2 ^ 20.

Record SessionInterruption := {
  At : time;
  Reason : string;
  RunID : string;
  ToolName : string;
  ToolCallID : string;
  InputDigest : string;
  SideEffectState : SessionSideEffectState;
  Summary : string;
}.

Record SessionReconciliationReceipt := {
  RcVersion : Z;
  RcAt : time;
  RcRunID : string;
  RcEvidenceDigest : string;
  RcCheckpointStatus : string;
  RcSideEffectJudgment : ReconciliationSideEffectJudgment;
  RcFileCount : Z;
  RcMatchesPreimage : Z;
  RcMatchesPostimage : Z;
  RcDiverged : Z;
  RcPostimageUnrecorded : Z;
  RcUnavailable : Z;
  RcManualConfirmationRequired : bool;
  RcManualConfirmationAcknowledged : bool;
}.

(** agent/durable_run.go: what is kept of the [done] event of a run. *)
Record DurableRunTerminalMetadata := {
  TerminalState : string;
  CompletionStatus : string;
  CompletionRevision : Z;
  CompletionCriteria : Z;
  CompletionSatisfied : Z;
  CompletionBlocked : Z;
}.

Record AgentRequestReceipt := {
  ArID : string;
  ArDigest : string;
  ExpectedRevision : Z;
  CommittedRevision : Z;
  MessageCount : Z;
  ArTerminal : option DurableRunTerminalMetadata;
  ArKind : string;
}.

Record SessionImageReference := { ImDigest : string; MediaType : string; Size : Z }.

(** [ToolInput] is the decoded JSON of a tool's input. *)
Record SessionMessage := {
  Role : string;
  Content : string;
  Attachments : list SessionImageReference;
  MsgToolName : string;
  ToolInput : option json;
  ToolResult : string;
  IsError : bool;
  Timestamp : time;
}.

Record Session := {
  Version : Z;
  Revision : Z;
  ID : string;
  Title : string;
  Workspace : string;
  WorkstreamID : string;
  PlanID : string;
  PlanRevision : Z;
  StageID : string;
  ExecutionPolicy : option Snapshot;
  Messages : list SessionMessage;
  Provider : string;
  Model : string;
  CreatedAt : time;
  UpdatedAt : time;
  Turns : Z;
  ParentSessionID : string;
  ParentRevision : Z;
  LifecycleStatus : SessionLifecycleStatus;
  LastCommittedRevision : Z;
  ReconcileRequired : bool;
  Interruption : option SessionInterruption;
  LastReconciliation : option SessionReconciliationReceipt;
  LastRunTerminal : option DurableRunTerminalMetadata;
  LastAgentRequest : option AgentRequestReceipt;
}.

#[export] Instance eta_AgentRequestReceipt : Eta AgentRequestReceipt := λ r,
  Build_AgentRequestReceipt (ArID r) (ArDigest r) (ExpectedRevision r) (CommittedRevision r)
    (MessageCount r) (ArTerminal r) (ArKind r).
#[export] Instance eta_SessionMessage : Eta SessionMessage := λ m,
  Build_SessionMessage (Role m) (Content m) (Attachments m) (MsgToolName m) (ToolInput m)
    (ToolResult m) (IsError m) (Timestamp m).
#[export] Instance eta_Session : Eta Session := λ s,
  Build_Session (Version s) (Revision s) (ID s) (Title s) (Workspace s) (WorkstreamID s) (PlanID s)
    (PlanRevision s) (StageID s) (ExecutionPolicy s) (Messages s) (Provider s) (Model s)
    (CreatedAt s) (UpdatedAt s) (Turns s) (ParentSessionID s) (ParentRevision s)
    (LifecycleStatus s) (LastCommittedRevision s) (ReconcileRequired s) (Interruption s)
    (LastReconciliation s) (LastRunTerminal s) (LastAgentRequest s).

#[export] Instance SessionInterruption_eq_dec : EqDecision SessionInterruption.
Proof. solve_decision. Defined.
#[export] Instance DurableRunTerminalMetadata_eq_dec : EqDecision DurableRunTerminalMetadata.
Proof. solve_decision. Defined.
#[export] Instance SessionImageReference_eq_dec : EqDecision SessionImageReference.
Proof. solve_decision. Defined.

(** The sentinel errors of the store, with the place a sentinel is wrapped at where it
    matters. *)
Inductive SessionError :=
| ErrInvalidSessionID
| ErrSessionNotFound
| ErrSessionConflict (what : string)
| ErrSessionRevisionConflict (id : string) (expected current : Z)
| ErrSessionRevisionOverflow
| ErrSessionCorrupt (what : string)
| ErrSessionVersionUnsupported
| ErrSessionParentInvalid
| ErrSessionLifecycleInvalid (what : string)
| ErrSessionReconcileRequired (what : string)
| ErrSessionTerminalInvalid
| ErrSessionAssociationInvalid
| ErrSessionImageReferenceInvalid
| ErrAgentRequest
| ErrExecutionPolicy (e : PolicyError)
| ErrWorkspace
| ErrNotReconcilable
| ErrSessionIO (what : string).

(** ** Patterns *)

Definition lower_alnum27 (c : ascii) : bool :=
  let n := Z.of_nat (nat_of_ascii c) in byte_in 97 122 n || byte_in 50 55 n.
Definition is_decimal (c : ascii) : bool := byte_in 48 57 (Z.of_nat (nat_of_ascii c)).
Definition request_id_char (c : ascii) : bool :=
  let n := Z.of_nat (nat_of_ascii c) in
  byte_in 65 90 n || byte_in 97 122 n || byte_in 48 57 n || (n =? 95) || (n =? 45).

Definition opaqueSessionIDPattern (id : string) : bool :=
  has_prefix id "sess_" && (slen id =? 31) && str_all lower_alnum27 (str_drop 5 id).
Definition legacySessionIDPattern (id : string) : bool :=
  has_prefix id "sess_" && (slen id =? 20) && str_all is_decimal (str_take 8 (str_drop 5 id)) &&
  String.eqb (str_take 1 (str_drop 13 id)) "-" && str_all is_decimal (str_drop 14 id).
Definition sessionInputDigestPattern (d : string) : bool :=
  has_prefix d "sha256:" && (slen d =? 71) && str_all lower_hex (str_drop 7 d).
Definition agentRequestIDPattern (id : string) : bool :=
  (1 <=? slen id) && (slen id <=? 128) && str_all request_id_char id.

Definition ValidateSessionID (id : string) : result SessionError unit :=
  guard_err (opaqueSessionIDPattern id || legacySessionIDPattern id) ErrInvalidSessionID.

(** agent/checkpoint.go. *)
Definition isSHA256Revision (value : string) : bool :=
  (slen value =? 71) && has_prefix value "sha256:" && hex_ok (str_drop 7 value) &&
  String.eqb value (to_lower value).

(** ** Checks of the parts *)

Definition durableRunTerminalState (value : string) : string :=
  if existsb (String.eqb value) ["verified"; "partially-verified"; "unverified"; "blocked"] then value else "".
Definition validDurableRunCompletionCount (value : Z) : bool := (0 <=? value) && (value <=? 256).

Definition emptyTerminal : DurableRunTerminalMetadata := Build_DurableRunTerminalMetadata "" "" 0 0 0 0.

Definition ValidateDurableRunTerminalMetadata (value : DurableRunTerminalMetadata) : result SessionError unit :=
  let fails := ErrSessionTerminalInvalid in
  if bool_decide (value = emptyTerminal) then Err fails else
  if negb (String.eqb (TerminalState value) "") &&
     String.eqb (durableRunTerminalState (TerminalState value)) "" then Err fails else
  if String.eqb (CompletionStatus value) "" then
    guard_err ((CompletionRevision value =? 0) && (CompletionCriteria value =? 0) &&
               (CompletionSatisfied value =? 0) && (CompletionBlocked value =? 0)) fails
  else if String.eqb (TerminalState value) "" then Err fails
  else if negb (validDurableRunCompletionCount (CompletionCriteria value)) ||
          (CompletionCriteria value =? 0) ||
          negb (validDurableRunCompletionCount (CompletionSatisfied value)) ||
          negb (validDurableRunCompletionCount (CompletionBlocked value)) ||
          (CompletionCriteria value <? CompletionSatisfied value + CompletionBlocked value)
  then Err fails
  else if String.eqb (CompletionStatus value) "complete" then
    guard_err (negb (CompletionRevision value =? 0) &&
               (CompletionSatisfied value =? CompletionCriteria value) &&
               (CompletionBlocked value =? 0) &&
               negb (String.eqb (TerminalState value) "blocked")) fails
  else if String.eqb (CompletionStatus value) "incomplete" then
    guard_err ((CompletionSatisfied value <? CompletionCriteria value) &&
               (CompletionBlocked value =? 0) && String.eqb (TerminalState value) "blocked") fails
  else if String.eqb (CompletionStatus value) "blocked" then
    guard_err (negb (CompletionBlocked value =? 0) && String.eqb (TerminalState value) "blocked") fails
  else Err fails.

(** A check of what may be absent. *)
Definition check_optional {A} (check : A → result SessionError unit) (o : option A) : result SessionError unit :=
  match o with None => Ok tt | Some a => check a end.

Definition validateOptionalDurableRunTerminal : option DurableRunTerminalMetadata → result SessionError unit :=
  check_optional ValidateDurableRunTerminalMetadata.

Definition validateAgentRequestReceipt (receipt : option AgentRequestReceipt) (revision messageCount : Z)
    : result SessionError unit :=
  check_optional (λ r,
    _ ← guard_err (agentRequestIDPattern (ArID r) && sessionInputDigestPattern (ArDigest r) &&
          negb (ExpectedRevision r =? 0) && (ExpectedRevision r <? CommittedRevision r) &&
          (CommittedRevision r <=? revision) && (1 <=? MessageCount r) &&
          (MessageCount r <=? messageCount)) ErrAgentRequest;
    _ ← validateOptionalDurableRunTerminal (ArTerminal r);
    guard_err (existsb (String.eqb (ArKind r))
      [""; "completed"; "command"; "cancelled"; "context_blocked"; "max_iterations"; "max_cycles";
       "failed"; "no_terminal"]) ErrAgentRequest) receipt.

(** One attachment: its own fields, and that what was [seen] under its digest is the same. *)
Definition check_reference (seen : gmap string SessionImageReference) (reference : SessionImageReference)
    : result SessionError (gmap string SessionImageReference) :=
  _ ← guard_err (sessionInputDigestPattern (ImDigest reference) && (0 <? Size reference) &&
        (Size reference <=? maxSessionImageBlobBytes)) ErrSessionImageReferenceInvalid;
  _ ← guard_err (existsb (String.eqb (MediaType reference))
        ["image/png"; "image/jpeg"; "image/gif"; "image/webp"]) ErrSessionImageReferenceInvalid;
  match seen !! ImDigest reference with
  | Some previous =>
      if bool_decide (previous = reference) then Ok (<[ImDigest reference := reference]> seen)
      else Err ErrSessionImageReferenceInvalid
  | None => Ok (<[ImDigest reference := reference]> seen)
  end.
Fixpoint check_references (seen : gmap string SessionImageReference) (references : list SessionImageReference)
    : result SessionError (gmap string SessionImageReference) :=
  match references with
  | [] => Ok seen
  | r :: references' => seen' ← check_reference seen r; check_references seen' references'
  end.
Fixpoint check_messages (seen : gmap string SessionImageReference) (messages : list SessionMessage)
    : result SessionError unit :=
  match messages with
  | [] => Ok tt
  | m :: messages' =>
      match Attachments m with
      | [] => check_messages seen messages'
      | _ :: _ =>
          _ ← guard_err (String.eqb (Role m) "user" && (Z.of_nat (length (Attachments m)) <=? 8))
                ErrSessionImageReferenceInvalid;
          seen' ← check_references seen (Attachments m);
          check_messages seen' messages'
      end
  end.
Definition ValidateSessionImageReferences (messages : list SessionMessage) : result SessionError unit :=
  check_messages ∅ messages.

Definition sessionHasImageReferences (messages : list SessionMessage) : bool :=
  existsb (λ m, negb (bool_decide (Attachments m = []))) messages.

Definition validateSessionParentMetadata (sessionID parentID : string) (parentRevision : Z)
    : result SessionError unit :=
  if String.eqb parentID "" && (parentRevision =? 0) then Ok tt
  else if String.eqb parentID "" || (parentRevision =? 0) then Err ErrSessionParentInvalid
  else if negb (is_ok (ValidateSessionID parentID)) then Err ErrSessionParentInvalid
  else guard_err (negb (negb (String.eqb sessionID "") && String.eqb parentID sessionID)) ErrSessionParentInvalid.

Definition association_ok (value : string) : bool :=
  String.eqb value "" ||
  (String.eqb (trim_space value) value && (slen value <=? 256) &&
   negb (String.eqb value ".") && negb (String.eqb value "..") &&
   negb (contains_any value (byte_str [47; 92; 0; 9; 13; 10]%nat))).
Definition validateSessionAssociationIDs (sess : Session) : result SessionError unit :=
  guard_err (forallb association_ok [WorkstreamID sess; PlanID sess; StageID sess] &&
    negb (negb (String.eqb (StageID sess) "") && String.eqb (PlanID sess) "") &&
    negb (String.eqb (PlanID sess) "" && negb (PlanRevision sess =? 0))) ErrSessionAssociationInvalid.

Definition ValidateSessionInterruption (marker : SessionInterruption) : result SessionError unit :=
  if (1024 <? slen (Reason marker)) || (256 <? slen (RunID marker)) || (128 <? slen (ToolName marker)) ||
     (256 <? slen (ToolCallID marker)) || (1024 <? slen (Summary marker))
  then Err (ErrSessionLifecycleInvalid "interruption marker is too large") else
  if String.eqb (RunID marker) "" && String.eqb (InputDigest marker) "" &&
     String.eqb (SideEffectState marker) "" && String.eqb (Summary marker) "" then Ok tt else
  if String.eqb (trim_space (RunID marker)) "" || String.eqb (trim_space (ToolName marker)) "" ||
     String.eqb (trim_space (Summary marker)) ""
  then Err (ErrSessionLifecycleInvalid "structured interruption metadata is incomplete") else
  if negb (sessionInputDigestPattern (InputDigest marker))
  then Err (ErrSessionLifecycleInvalid "interruption input digest must be lowercase sha256") else
  guard_err (existsb (String.eqb (SideEffectState marker))
      [SessionSideEffectUnknown; SessionSideEffectStarted; SessionSideEffectMayHaveApplied; SessionSideEffectApplied])
    (ErrSessionLifecycleInvalid "invalid side effect state").

Definition ValidateSessionReconciliationReceipt (receipt : SessionReconciliationReceipt) : result SessionError unit :=
  let fails := ErrSessionLifecycleInvalid "reconciliation receipt" in
  let counts := [RcFileCount receipt; RcMatchesPreimage receipt; RcMatchesPostimage receipt;
                 RcDiverged receipt; RcPostimageUnrecorded receipt; RcUnavailable receipt] in
  _ ← guard_err ((RcVersion receipt =? 1) && negb (is_zero (RcAt receipt)) && (slen (RcRunID receipt) <=? 256) &&
        isSHA256Revision (RcEvidenceDigest receipt)) fails;
  _ ← guard_err (existsb (String.eqb (RcCheckpointStatus receipt)) ["available"; "unavailable"]) fails;
  _ ← guard_err (existsb (String.eqb (RcSideEffectJudgment receipt))
        [ReconciliationJudgmentDigestEvaluated; ReconciliationJudgmentUnknown]) fails;
  _ ← guard_err (forallb (λ count, (0 <=? count) && (count <=? 10000)) counts) fails;
  _ ← guard_err (RcMatchesPreimage receipt + RcMatchesPostimage receipt + RcDiverged receipt +
        RcPostimageUnrecorded receipt + RcUnavailable receipt =? RcFileCount receipt) fails;
  _ ← guard_err (negb (RcManualConfirmationAcknowledged receipt && negb (RcManualConfirmationRequired receipt))) fails;
  guard_err (negb (RcManualConfirmationRequired receipt && negb (RcManualConfirmationAcknowledged receipt))) fails.

(** ** The lifecycle of a session that was read *)

Definition lifecycle_fails {A} (what : string) : result SessionError A := Err (ErrSessionLifecycleInvalid what).

(** The [switch] over the status. *)
Definition check_status (sess : Session) : result SessionError unit :=
  let status := LifecycleStatus sess in
  if String.eqb status SessionLifecycleActive || String.eqb status SessionLifecycleClosed then
    if ReconcileRequired sess || negb (bool_decide (Interruption sess = None)) ||
       negb (LastCommittedRevision sess =? Revision sess)
    then lifecycle_fails "stable lifecycle metadata is inconsistent" else Ok tt
  else if String.eqb status SessionLifecycleInterrupted then
    match Interruption sess with
    | Some marker =>
        if negb (ReconcileRequired sess) || is_zero (At marker) ||
           (Revision sess <=? LastCommittedRevision sess)
        then lifecycle_fails "interrupted lifecycle metadata is inconsistent"
        else ValidateSessionInterruption marker
    | None => lifecycle_fails "interrupted lifecycle metadata is inconsistent"
    end
  else if String.eqb status SessionLifecycleRecoveryNeeded then
    if negb (ReconcileRequired sess)
    then lifecycle_fails "recovery-needed session must require reconciliation"
    else check_optional ValidateSessionInterruption (Interruption sess)
  else lifecycle_fails "unknown status".

Definition normalizeSessionLifecycle (sess : Session) : result SessionError Session :=
  if Version sess =? 0 then Ok (sess <| LifecycleStatus := SessionLifecycleActive |>)
  else if String.eqb (LifecycleStatus sess) "" then
    if negb (LastCommittedRevision sess =? 0) || ReconcileRequired sess ||
       negb (bool_decide (Interruption sess = None))
    then lifecycle_fails "lifecycle metadata is incomplete"
    else Ok (sess <| LifecycleStatus := SessionLifecycleActive |>
                  <| LastCommittedRevision := Revision sess |>)
  else if Revision sess <? LastCommittedRevision sess
  then lifecycle_fails "last committed revision exceeds current revision"
  else
    _ ← check_optional ValidateSessionReconciliationReceipt (LastReconciliation sess);
    _ ← check_status sess;
    Ok sess.

(** A session of version 0 has none of the fields later versions added. *)
Definition has_versioned_fields (sess : Session) : bool :=
  negb (Revision sess =? 0) || negb (String.eqb (ParentSessionID sess) "") ||
  negb (ParentRevision sess =? 0) || negb (String.eqb (LifecycleStatus sess) "") ||
  negb (LastCommittedRevision sess =? 0) || ReconcileRequired sess ||
  negb (bool_decide (Interruption sess = None)) || negb (bool_decide (LastRunTerminal sess = None)) ||
  (if LastAgentRequest sess then true else false) || (if ExecutionPolicy sess then true else false) ||
  negb (String.eqb (WorkstreamID sess) "") || negb (String.eqb (PlanID sess) "") ||
  negb (PlanRevision sess =? 0) || negb (String.eqb (StageID sess) "") ||
  sessionHasImageReferences (Messages sess).

Definition check_policy (policy : Snapshot) : result SessionError unit :=
  match ValidateSnapshot policy with Ok _ => Ok tt | Err e => Err (ErrExecutionPolicy e) end.
Definition corrupt_if {A} (r : result SessionError A) (what : string) : result SessionError A :=
  match r with Ok a => Ok a | Err _ => Err (ErrSessionCorrupt what) end.

(** The checks of [loadStoredSession] on a decoded session, up to its workspace:
    [expectedID] is empty when any id will do. *)
Definition check_decoded (sess : Session) (expectedID : string) : result SessionError Session :=
  let corrupt := ErrSessionCorrupt in
  _ ← (if Version sess =? 0
       then guard_err (negb (has_versioned_fields sess)) (corrupt "legacy session contains versioned fields")
       else guard_err (negb (Revision sess =? 0)) (corrupt "versioned session has revision zero"));
  _ ← guard_err (negb ((Version sess <? associationSessionVersion) &&
        (negb (String.eqb (WorkstreamID sess) "") || negb (String.eqb (PlanID sess) "") ||
         negb (String.eqb (StageID sess) "")))) (corrupt "association fields");
  _ ← guard_err (negb ((Version sess <? planRevisionSessionVersion) && negb (PlanRevision sess =? 0)))
        (corrupt "plan revision");
  _ ← corrupt_if (validateSessionAssociationIDs sess) "association ids";
  _ ← guard_err (negb (sessionHasImageReferences (Messages sess) && (Version sess <? sessionImageVersion)))
        (corrupt "image references");
  _ ← corrupt_if (ValidateSessionImageReferences (Messages sess)) "image references";
  _ ← corrupt_if (check_optional check_policy (ExecutionPolicy sess)) "execution policy";
  sess ← corrupt_if (normalizeSessionLifecycle sess) "lifecycle";
  _ ← corrupt_if (validateOptionalDurableRunTerminal (LastRunTerminal sess)) "terminal";
  _ ← corrupt_if (validateAgentRequestReceipt (LastAgentRequest sess) (Revision sess)
        (Z.of_nat (length (Messages sess)))) "agent request";
  _ ← corrupt_if (validateSessionParentMetadata (ID sess) (ParentSessionID sess) (ParentRevision sess)) "parent";
  _ ← corrupt_if (ValidateSessionID (ID sess)) "id";
  _ ← guard_err (negb (negb (String.eqb expectedID "") && negb (String.eqb (ID sess) expectedID)))
        (corrupt "mismatched id");
  _ ← guard_err (negb (String.eqb (trim_space (Workspace sess)) "")) (corrupt "no workspace");
  Ok sess.

(** ** What the JSON text of a session keeps

    [json.MarshalIndent] writes each byte that is not part of a valid UTF-8 sequence as
    U+FFFD, and fails on a time outside the years 0 to 9999 (of UTC here; the code's times
    are in UTC or local).  Everything else is read back as it was written; the input of a
    tool is a decoded JSON value already. *)

Definition replacement_character : list Z := [239; 191; 189].

Fixpoint coerce_bytes (fuel : nat) (bs : list Z) : list Z :=
  match fuel, bs with
  | O, _ | _, [] => []
  | S fuel', _ :: bs' =>
      match decode_rune bs with
      | Some (_, rest) => take (length bs - length rest) bs ++ coerce_bytes fuel' rest
      | None => replacement_character ++ coerce_bytes fuel' bs'
      end
  end.
Definition coerce_utf8 (s : string) : string :=
  byte_str (map Z.to_nat (coerce_bytes (strlen s) (bytes_of s))).

Definition written_interruption (m : SessionInterruption) : SessionInterruption :=
  {| At := At m; Reason := coerce_utf8 (Reason m); RunID := coerce_utf8 (RunID m);
     ToolName := coerce_utf8 (ToolName m); ToolCallID := coerce_utf8 (ToolCallID m);
     InputDigest := coerce_utf8 (InputDigest m); SideEffectState := coerce_utf8 (SideEffectState m);
     Summary := coerce_utf8 (Summary m) |}.
Definition written_receipt (r : SessionReconciliationReceipt) : SessionReconciliationReceipt :=
  {| RcVersion := RcVersion r; RcAt := RcAt r; RcRunID := coerce_utf8 (RcRunID r);
     RcEvidenceDigest := coerce_utf8 (RcEvidenceDigest r);
     RcCheckpointStatus := coerce_utf8 (RcCheckpointStatus r);
     RcSideEffectJudgment := coerce_utf8 (RcSideEffectJudgment r);
     RcFileCount := RcFileCount r; RcMatchesPreimage := RcMatchesPreimage r;
     RcMatchesPostimage := RcMatchesPostimage r; RcDiverged := RcDiverged r;
     RcPostimageUnrecorded := RcPostimageUnrecorded r; RcUnavailable := RcUnavailable r;
     RcManualConfirmationRequired := RcManualConfirmationRequired r;
     RcManualConfirmationAcknowledged := RcManualConfirmationAcknowledged r |}.
Definition written_terminal (t : DurableRunTerminalMetadata) : DurableRunTerminalMetadata :=
  {| TerminalState := coerce_utf8 (TerminalState t); CompletionStatus := coerce_utf8 (CompletionStatus t);
     CompletionRevision := CompletionRevision t; CompletionCriteria := CompletionCriteria t;
     CompletionSatisfied := CompletionSatisfied t; CompletionBlocked := CompletionBlocked t |}.
Definition written_request (r : AgentRequestReceipt) : AgentRequestReceipt :=
  {| ArID := coerce_utf8 (ArID r); ArDigest := coerce_utf8 (ArDigest r);
     ExpectedRevision := ExpectedRevision r; CommittedRevision := CommittedRevision r;
     MessageCount := MessageCount r; ArTerminal := written_terminal <$> ArTerminal r;
     ArKind := coerce_utf8 (ArKind r) |}.
Definition written_reference (i : SessionImageReference) : SessionImageReference :=
  {| ImDigest := coerce_utf8 (ImDigest i); MediaType := coerce_utf8 (MediaType i); Size := Size i |}.
Definition written_message (m : SessionMessage) : SessionMessage :=
  {| Role := coerce_utf8 (Role m); Content := coerce_utf8 (Content m);
     Attachments := map written_reference (Attachments m); MsgToolName := coerce_utf8 (MsgToolName m);
     ToolInput := ToolInput m; ToolResult := coerce_utf8 (ToolResult m); IsError := IsError m;
     Timestamp := Timestamp m |}.
Definition written_policy (p : Snapshot) : Snapshot :=
  {| SMode := coerce_utf8 (SMode p); SRevision := SRevision p; RuntimeCapabilities := RuntimeCapabilities p;
     ExecutionPolicy.ParentRevision := ExecutionPolicy.ParentRevision p;
     FullSelectionRevision := FullSelectionRevision p; SSource := coerce_utf8 (SSource p) |}.

Definition written (s : Session) : Session :=
  {| Version := Version s; Revision := Revision s; ID := coerce_utf8 (ID s); Title := coerce_utf8 (Title s);
     Workspace := coerce_utf8 (Workspace s); WorkstreamID := coerce_utf8 (WorkstreamID s);
     PlanID := coerce_utf8 (PlanID s); PlanRevision := PlanRevision s; StageID := coerce_utf8 (StageID s);
     ExecutionPolicy := written_policy <$> ExecutionPolicy s;
     Messages := map written_message (Messages s); Provider := coerce_utf8 (Provider s);
     Model := coerce_utf8 (Model s); CreatedAt := CreatedAt s; UpdatedAt := UpdatedAt s; Turns := Turns s;
     ParentSessionID := coerce_utf8 (ParentSessionID s); ParentRevision := ParentRevision s;
     LifecycleStatus := coerce_utf8 (LifecycleStatus s);
     LastCommittedRevision := LastCommittedRevision s; ReconcileRequired := ReconcileRequired s;
     Interruption := written_interruption <$> Interruption s;
     LastReconciliation := written_receipt <$> LastReconciliation s;
     LastRunTerminal := written_terminal <$> LastRunTerminal s;
     LastAgentRequest := written_request <$> LastAgentRequest s |}.

(** Nanoseconds of the 366 days of year 0, and up to the end of year 9999. *)
Definition time_encodes (t : time) : bool :=
  (- 366 * 86400 * second <=? t) && (t <? 3652059 * 86400 * second).
Definition session_times (s : Session) : list time :=
  CreatedAt s :: UpdatedAt s :: map Timestamp (Messages s) ++
  (if Interruption s is Some m then [At m] else []) ++
  (if LastReconciliation s is Some r then [RcAt r] else []).

(** The session that reading the text gives back. *)
Definition MarshalIndent (s : Session) : result SessionError Session :=
  if forallb time_encodes (session_times s) then Ok (written s) else Err (ErrSessionIO "encode session").

(** ** Lemmas *)

(** The texts of a session, except its title, which the store makes itself. *)
Definition interruption_texts (m : SessionInterruption) : list string :=
  [Reason m; RunID m; ToolName m; ToolCallID m; InputDigest m; SideEffectState m; Summary m].
Definition receipt_texts (r : SessionReconciliationReceipt) : list string :=
  [RcRunID r; RcEvidenceDigest r; RcCheckpointStatus r; RcSideEffectJudgment r].
Definition terminal_texts (t : DurableRunTerminalMetadata) : list string := [TerminalState t; CompletionStatus t].
Definition request_texts (r : AgentRequestReceipt) : list string :=
  [ArID r; ArDigest r; ArKind r] ++ from_option terminal_texts [] (ArTerminal r).
Definition message_texts (m : SessionMessage) : list string :=
  [Role m; Content m; MsgToolName m; ToolResult m] ++
  flat_map (λ i, [ImDigest i; MediaType i]) (Attachments m).
Definition session_texts (s : Session) : list string :=
  [ID s; Workspace s; WorkstreamID s; PlanID s; StageID s; Provider s; Model s; ParentSessionID s;
   LifecycleStatus s] ++
  from_option (λ p, [SMode p; SSource p]) [] (ExecutionPolicy s) ++
  flat_map message_texts (Messages s) ++
  from_option interruption_texts [] (Interruption s) ++
  from_option receipt_texts [] (LastReconciliation s) ++
  from_option terminal_texts [] (LastRunTerminal s) ++
  from_option request_texts [] (LastAgentRequest s).

Definition utf8 (s : string) : Prop := ValidString s = true.
Definition clean (s : Session) : Prop := Forall utf8 (session_texts s).

Lemma decode_rune_suffix bs r rest : decode_rune bs = Some (r, rest) → ∃ p, bs = p ++ rest ∧ p ≠ [].
Proof.
  destruct bs as [|a bs]; simpl; [done|]. case_match.
  { intros [= <- <-]. by exists [a]. }
  destruct bs as [|b bs]; [done|]. case_match.
  { intros [= <- <-]. by exists [a; b]. }
  destruct bs as [|c bs]; [done|]. case_match.
  { intros [= <- <-]. by exists [a; b; c]. }
  destruct bs as [|d bs]; [done|]. case_match; [|done].
  intros [= <- <-]. by exists [a; b; c; d].
Qed.

Lemma coerce_bytes_valid fuel bs : is_Some (runes_fuel fuel bs) → coerce_bytes fuel bs = bs.
Proof.
  revert bs. induction fuel as [|fuel IH]; intros [|b bs]; [done|by intros []|done|].
  cbn [runes_fuel coerce_bytes]. destruct (decode_rune (b :: bs)) as [[r rest]|] eqn:Hd; [|by intros []].
  cbn [mbind option_bind snd]. intros [? H]. rewrite IH.
  - destruct (decode_rune_suffix _ _ _ Hd) as (p & -> & _).
    by rewrite length_app, Nat.add_sub, take_app_length.
  - destruct (runes_fuel fuel rest); [eauto|done].
Qed.

Lemma byte_str_bytes s : byte_str (map Z.to_nat (bytes_of s)) = s.
Proof.
  unfold byte_str, bytes_of. induction s as [|c s IH]; [done|]. simpl. rewrite IH.
  by rewrite Nat2Z.id, ascii_nat_embedding.
Qed.

Lemma coerce_utf8_valid s : utf8 s → coerce_utf8 s = s.
Proof.
  unfold utf8, ValidString, coerce_utf8, runes_of. intros H%bool_decide_eq_true.
  rewrite coerce_bytes_valid by done. apply byte_str_bytes.
Qed.

(** Takes a record of valid texts apart and leaves each text alone. *)
Ltac fixed_texts :=
  repeat match goal with
  | H : Forall utf8 (_ :: _) |- _ => apply list.Forall_cons in H as [? H]
  | H : Forall utf8 (_ ++ _) |- _ => apply Forall_app in H as [? H]
  end; f_equal; auto using coerce_utf8_valid.

Lemma written_interruption_clean m : Forall utf8 (interruption_texts m) → written_interruption m = m.
Proof. destruct m; unfold interruption_texts, written_interruption; simpl; intros; fixed_texts. Qed.
Lemma written_receipt_clean r : Forall utf8 (receipt_texts r) → written_receipt r = r.
Proof. destruct r; unfold receipt_texts, written_receipt; simpl; intros; fixed_texts. Qed.
Lemma written_terminal_clean t : Forall utf8 (terminal_texts t) → written_terminal t = t.
Proof. destruct t; unfold terminal_texts, written_terminal; simpl; intros; fixed_texts. Qed.
Lemma written_policy_clean p : Forall utf8 [SMode p; SSource p] → written_policy p = p.
Proof. destruct p; unfold written_policy; simpl; intros; fixed_texts. Qed.

Lemma fmap_clean {A} (f : A → A) (texts : A → list string) (o : option A) :
  (∀ a, Forall utf8 (texts a) → f a = a) → Forall utf8 (from_option texts [] o) → f <$> o = o.
Proof. intros Hf. destruct o as [a|]; simpl; [intros H; by rewrite Hf|done]. Qed.
Lemma map_clean {A} (f : A → A) (texts : A → list string) (l : list A) :
  (∀ a, Forall utf8 (texts a) → f a = a) → Forall utf8 (flat_map texts l) → map f l = l.
Proof.
  intros Hf. induction l as [|a l IH]; simpl; [done|]. intros [Ha Hl]%Forall_app.
  by rewrite Hf, IH.
Qed.

Lemma written_request_clean r : Forall utf8 (request_texts r) → written_request r = r.
Proof.
  destruct r as [i d e c n t k]; unfold request_texts, written_request; simpl; intros H.
  fixed_texts. by apply (fmap_clean _ terminal_texts); [apply written_terminal_clean|].
Qed.
Lemma written_message_clean m : Forall utf8 (message_texts m) → written_message m = m.
Proof.
  destruct m as [r c a n i o e t]; unfold message_texts, written_message; simpl; intros H.
  fixed_texts. apply (map_clean _ (λ i, [ImDigest i; MediaType i])); [|done].
  intros [? ? ?]; unfold written_reference; simpl; intros; fixed_texts.
Qed.

Lemma written_clean s : clean s → written s = s <| Title := coerce_utf8 (Title s) |>.
Proof.
  unfold clean, session_texts. intros H.
  repeat match goal with
  | H : Forall utf8 (_ ++ _) |- _ => apply Forall_app in H as [? H]
  end.
  unfold written. destruct s; simpl in *. fixed_texts.
  - by apply (fmap_clean _ _ _ written_policy_clean).
  - by apply (map_clean _ _ _ written_message_clean).
  - by apply (fmap_clean _ _ _ written_interruption_clean).
  - by apply (fmap_clean _ _ _ written_receipt_clean).
  - by apply (fmap_clean _ _ _ written_terminal_clean).
  - by apply (fmap_clean _ _ _ written_request_clean).
Qed.
