(* ===== verification/Reconciliation.v ===== *)
(** * What an interrupted run left behind

    agent/checkpoint_reconciliation.go: the assessment of an interrupted session from its
    checkpoint, the states of the files the run recorded, and the receipt a user's
    acknowledgement becomes.  Reading the checkpoint and the files (agent/checkpoint.go) is
    the record [CheckpointDisk]; the decisions made on what was read are here. *)

From S2P Require Import Guards.
From S2P Require Export SessionData.
Local Open Scope string_scope.
Local Open Scope list_scope.
Local Open Scope Z_scope.

Definition ReconciliationFileStatus : Type := string.
Definition ReconciliationFileMatchesPreimage : ReconciliationFileStatus := "matches_preimage".
Definition ReconciliationFileMatchesPostimage : ReconciliationFileStatus := "matches_postimage".
Definition ReconciliationFileDiverged : ReconciliationFileStatus := "diverged".
Definition ReconciliationFilePostimageUnrecorded : ReconciliationFileStatus := "postimage_unrecorded".
Definition ReconciliationFileUnavailable : ReconciliationFileStatus := "unavailable".

Definition maxReconciliationFiles : Z := 256.
Definition maxReconciliationPathBytes : Z := 1024.

Record ReconciliationFileEvidence := {
  EvPath : string;
  EvStatus : ReconciliationFileStatus;
  EvPreimageDigest : string;
  EvPostimageDigest : string;
  EvCurrentDigest : string;
}.

(** agent/checkpoint.go: what a manifest records of a file before and after the run. *)
Record ckptFile := {
  Existed : bool;
  Backup : string;
  TargetPath : string;
  PreimageDigest : string;
  PreimageMode : option Z;
  PostimageDigest : string;
  PostimageExisted : bool;
  PostimageCaptured : bool;
}.
Record ckptManifest := {
  SessionRevision : Z;
  MfRunID : string;
  Generation : string;
  Files : gmap string ckptFile;
}.

Record SessionReconciliationAssessment := {
  AsSessionID : string;
  AsRevision : Z;
  AsRunID : string;
  AsToolName : string;
  EvidenceDigest : string;
  CheckpointStatus : string;
  SideEffectJudgment : ReconciliationSideEffectJudgment;
  RecordedExecutionState : SessionSideEffectState;
  ManualConfirmationRequired : bool;
  ManualConfirmationReason : string;
  AsFiles : list ReconciliationFileEvidence;
  MatchesPreimage : Z;
  MatchesPostimage : Z;
  Diverged : Z;
  PostimageUnrecorded : Z;
  Unavailable : Z;
}.

(** The reads of agent/checkpoint.go: the canonical workspace; the manifest of a session,
    [None] when it cannot be read or is not valid; the bytes of a backup; the file an entry
    is about, which may not exist. *)
Record CheckpointDisk := {
  canonicalWorkspace : string → option string;
  readManifestStrict : string → string → option (option ckptManifest);
  read_backup : string → option string;
  read_target : string → string → ckptFile → option (option string);
}.

Definition checkpointStateRevision (exists_ : bool) (data : string) : string :=
  artifactBytesRevision (if exists_ then data else "corelay-checkpoint-absent-v1").

Definition reconciliationToolIsFileOnly (name : string) : bool :=
  existsb (String.eqb (canonicalPermissionToolName (trim_space name))) ["Write"; "Edit"].

Section assessment.
Context (disk : CheckpointDisk).

(** The preimage of an entry is what the manifest says: absent, or a backup with its digest. *)
Definition preimage_intact (entry : ckptFile) : bool :=
  isSHA256Revision (PreimageDigest entry) &&
  (if Existed entry then
     match PreimageMode entry with Some mode => mode <=? 511 | None => false end &&
     negb (String.eqb (Backup entry) "") &&
     match read_backup disk (Backup entry) with
     | Some data => String.eqb (checkpointStateRevision true data) (PreimageDigest entry)
     | None => false
     end
   else String.eqb (Backup entry) "" &&
        String.eqb (PreimageDigest entry) (checkpointStateRevision false "") &&
        bool_decide (PreimageMode entry = None)).
Definition postimage_consistent (entry : ckptFile) : bool :=
  if PostimageCaptured entry then
    isSHA256Revision (PostimageDigest entry) &&
    (PostimageExisted entry || String.eqb (PostimageDigest entry) (checkpointStateRevision false ""))
  else String.eqb (PostimageDigest entry) "" && negb (PostimageExisted entry).

Definition assessCheckpointFile (workDir key : string) (entry : ckptFile) : ReconciliationFileEvidence :=
  let path := if String.eqb (TargetPath entry) "" then key else "<external file>" in
  let evidence status post current :=
    {| EvPath := path; EvStatus := status; EvPreimageDigest := PreimageDigest entry;
       EvPostimageDigest := post; EvCurrentDigest := current |} in
  if negb (preimage_intact entry) then evidence ReconciliationFileUnavailable "" "" else
  if negb (postimage_consistent entry) then evidence ReconciliationFileUnavailable "" "" else
  let post := if PostimageCaptured entry then PostimageDigest entry else "" in
  match read_target disk workDir key entry with
  | None => evidence ReconciliationFileUnavailable post ""
  | Some content =>
      let current := checkpointStateRevision (if content is Some _ then true else false) (default "" content) in
      evidence
        (if String.eqb current (PreimageDigest entry) then ReconciliationFileMatchesPreimage
         else if negb (PostimageCaptured entry) then ReconciliationFilePostimageUnrecorded
         else if String.eqb current (PostimageDigest entry) then ReconciliationFileMatchesPostimage
         else ReconciliationFileDiverged) post current
  end.

Definition assess_entry (workDir : string) (files : gmap string ckptFile) (key : string) : ReconciliationFileEvidence :=
  if maxReconciliationPathBytes <? slen key then
    {| EvPath := "<path-too-long>"; EvStatus := ReconciliationFileUnavailable; EvPreimageDigest := "";
       EvPostimageDigest := ""; EvCurrentDigest := "" |}
  else match files !! key with
       | Some entry => assessCheckpointFile workDir key entry
       | None => {| EvPath := key; EvStatus := ReconciliationFileUnavailable; EvPreimageDigest := "";
                    EvPostimageDigest := ""; EvCurrentDigest := "" |}
       end.
Definition sorted_keys (files : gmap string ckptFile) : list string :=
  stable_sort (less_str id) (elements (dom files)).

Definition count_status (status : ReconciliationFileStatus) (files : list ReconciliationFileEvidence) : Z :=
  Z.of_nat (length (filter (λ e, EvStatus e = status) files)).

(** The manifest is the checkpoint of this very run. *)
Definition manifest_of_run (session : Session) (marker : SessionInterruption) : option (string * ckptManifest) :=
  match canonicalWorkspace disk (Workspace session) with
  | Some work =>
      match readManifestStrict disk work (ID session) with
      | Some (Some m) =>
          if (Z.of_nat (size (Files m)) <=? maxReconciliationFiles) && negb (String.eqb (RunID marker) "") &&
             String.eqb (MfRunID m) (RunID marker) &&
             (SessionRevision m =? LastCommittedRevision session) &&
             String.eqb (Generation m) ("checkpoint_" +:+ RunID marker)
          then Some (work, m) else None
      | _ => None
      end
  | None => None
  end.

Definition missing_checkpoint : ReconciliationFileEvidence :=
  {| EvPath := "<checkpoint>"; EvStatus := ReconciliationFileUnavailable; EvPreimageDigest := "";
     EvPostimageDigest := ""; EvCurrentDigest := "" |}.

Definition manual_reason (toolName : string) (judgment : ReconciliationSideEffectJudgment)
    (files : list ReconciliationFileEvidence) : string :=
  if 0 <? count_status ReconciliationFileUnavailable files then
    "Checkpoint evidence is missing, stale, corrupt, or unreadable; inspect side effects before continuing."
  else if 0 <? count_status ReconciliationFilePostimageUnrecorded files then
    "A file changed before its postimage was durably recorded; inspect it before continuing."
  else if 0 <? count_status ReconciliationFileDiverged files then
    "Current files differ from both recorded checkpoint states; inspect them before continuing."
  else if String.eqb judgment ReconciliationJudgmentUnknown then
    "The interrupted tool cannot be assessed from file digests alone; confirm its external side effects manually."
  else if reconciliationToolIsFileOnly toolName then ""
  else "The interrupted tool is not limited to checkpointed file writes.".

Definition optional_member (name value : string) : list (string * string) :=
  if String.eqb value "" then [] else [(name, json_string value)].
Definition evidence_json (e : ReconciliationFileEvidence) : string :=
  json_object ([("path", json_string (EvPath e)); ("status", json_string (EvStatus e))] ++
    optional_member "preimageDigest" (EvPreimageDigest e) ++
    optional_member "postimageDigest" (EvPostimageDigest e) ++
    optional_member "currentDigest" (EvCurrentDigest e)).
Definition reconciliationEvidenceDigest (session : Session) (marker : SessionInterruption)
    (status : string) (judgment : ReconciliationSideEffectJudgment) (manual : bool)
    (files : list ReconciliationFileEvidence) : string :=
  "sha256:" +:+ sha256_hex (json_object (
    [("sessionId", json_string (ID session)); ("revision", pretty (Revision session))] ++
    optional_member "runId" (RunID marker) ++ optional_member "toolName" (ToolName marker) ++
    optional_member "toolCallId" (ToolCallID marker) ++ optional_member "inputDigest" (InputDigest marker) ++
    [("checkpointStatus", json_string status); ("sideEffectJudgment", json_string judgment);
     ("manualConfirmationRequired", if manual then "true" else "false");
     ("files", json_array (map evidence_json files))])).

Definition assessSessionReconciliationLocked (session : Session)
    : result SessionError SessionReconciliationAssessment :=
  match Interruption session with
  | Some marker =>
      if String.eqb (trim_space (ID session)) "" || negb (ReconcileRequired session)
      then Err ErrNotReconcilable else
      _ ← ValidateSessionInterruption marker;
      let checkpoint := manifest_of_run session marker in
      let status := if checkpoint is Some _ then "available" else "unavailable" in
      let judgment :=
        if checkpoint is Some _ then
          if reconciliationToolIsFileOnly (ToolName marker)
          then ReconciliationJudgmentDigestEvaluated else ReconciliationJudgmentUnknown
        else ReconciliationJudgmentUnknown in
      let files := match checkpoint with
        | Some (work, m) => map (assess_entry work (Files m)) (sorted_keys (Files m))
        | None => [missing_checkpoint]
        end in
      let reason := manual_reason (ToolName marker) judgment files in
      let manual := negb (String.eqb reason "") in
      Ok {| AsSessionID := ID session; AsRevision := Revision session; AsRunID := RunID marker;
            AsToolName := ToolName marker;
            EvidenceDigest := reconciliationEvidenceDigest session marker status judgment manual files;
            CheckpointStatus := status; SideEffectJudgment := judgment;
            RecordedExecutionState := SideEffectState marker;
            ManualConfirmationRequired := manual; ManualConfirmationReason := reason;
            AsFiles := files;
            MatchesPreimage := count_status ReconciliationFileMatchesPreimage files;
            MatchesPostimage := count_status ReconciliationFileMatchesPostimage files;
            Diverged := count_status ReconciliationFileDiverged files;
            PostimageUnrecorded := count_status ReconciliationFilePostimageUnrecorded files;
            Unavailable := count_status ReconciliationFileUnavailable files |}
  | None => Err ErrNotReconcilable
  end.
End assessment.

Definition NewSessionReconciliationReceipt (assessment : SessionReconciliationAssessment)
    (manualAcknowledged : bool) (at_ : time) : result SessionError SessionReconciliationReceipt :=
  if ManualConfirmationRequired assessment && negb manualAcknowledged
  then Err (ErrSessionIO "manual side-effect confirmation is required") else
  let receipt :=
    {| RcVersion := 1; RcAt := at_; RcRunID := AsRunID assessment;
       RcEvidenceDigest := EvidenceDigest assessment; RcCheckpointStatus := CheckpointStatus assessment;
       RcSideEffectJudgment := SideEffectJudgment assessment;
       RcFileCount := Z.of_nat (length (AsFiles assessment));
       RcMatchesPreimage := MatchesPreimage assessment; RcMatchesPostimage := MatchesPostimage assessment;
       RcDiverged := Diverged assessment; RcPostimageUnrecorded := PostimageUnrecorded assessment;
       RcUnavailable := Unavailable assessment;
       RcManualConfirmationRequired := ManualConfirmationRequired assessment;
       RcManualConfirmationAcknowledged := ManualConfirmationRequired assessment && manualAcknowledged |} in
  _ ← ValidateSessionReconciliationReceipt receipt;
  Ok receipt.

(** ** Lemmas *)

Lemma isSHA256Revision_hex s : isSHA256Revision ("sha256:" +:+ sha256_hex s) = true.
Proof.
  destruct (sha256_hex_lower s) as [Hh Hlen].
  assert (Hall : str_all lower_graph ("sha256:" +:+ sha256_hex s) = true).
  { rewrite str_all_app. cbn. apply (str_all_impl lower_hex); [|done].
    intros c Hc. destruct c as [[] [] [] [] [] [] [] []]; vm_compute in Hc |- *; congruence. }
  unfold isSHA256Revision. rewrite to_lower_lower by done. rewrite String.eqb_refl, andb_true_r.
  unfold slen. rewrite strlen_app, Hlen. cbn -[hex_ok sha256_hex]. unfold hex_ok. rewrite Hlen. cbn -[sha256_hex].
  rewrite str_all_existsb, negb_involutive. by apply (str_all_impl lower_hex); [apply lower_hex_is_hex|].
Qed.

Definition file_statuses : list ReconciliationFileStatus :=
  [ReconciliationFileMatchesPreimage; ReconciliationFileMatchesPostimage; ReconciliationFileDiverged;
   ReconciliationFilePostimageUnrecorded; ReconciliationFileUnavailable].

Lemma assess_entry_status disk work files key : EvStatus (assess_entry disk work files key) ∈ file_statuses.
Proof.
  unfold assess_entry, assessCheckpointFile. repeat case_match; simpl; unfold file_statuses;
    rewrite !elem_of_cons; auto 10.
Qed.

(** Every file is counted once. *)
Lemma count_statuses files :
  Forall (λ e, EvStatus e ∈ file_statuses) files →
  count_status ReconciliationFileMatchesPreimage files + count_status ReconciliationFileMatchesPostimage files +
  count_status ReconciliationFileDiverged files + count_status ReconciliationFilePostimageUnrecorded files +
  count_status ReconciliationFileUnavailable files = Z.of_nat (length files).
Proof.
  unfold count_status. induction 1 as [|e files He _ IH]; [done|].
  rewrite !filter_cons. unfold file_statuses in He. rewrite !elem_of_cons, elem_of_nil in He.
  destruct He as [E|[E|[E|[E|[E|[]]]]]]; rewrite E; repeat case_decide; try done; simpl length; lia.
Qed.

Lemma count_status_bound status files : 0 ≤ count_status status files ≤ Z.of_nat (length files).
Proof. unfold count_status. pose proof (length_filter (λ e, EvStatus e = status) files). lia. Qed.

Lemma count_status_zero status files :
  (0 <? count_status status files) = false → ∀ e, e ∈ files → EvStatus e ≠ status.
Proof.
  unfold count_status. intros H e He Hs. apply Z.ltb_ge in H.
  assert (Hin : e ∈ filter (λ e, EvStatus e = status) files) by by apply list_elem_of_filter.
  destruct (filter _ files); [by apply not_elem_of_nil in Hin|simpl in H; lia].
Qed.

Lemma length_sorted_keys (files : gmap string ckptFile) : length (sorted_keys files) = size files.
Proof. unfold sorted_keys. rewrite stable_sort_perm. by rewrite <-size_dom. Qed.

Lemma elem_of_sorted_keys key (files : gmap string ckptFile) : key ∈ sorted_keys files ↔ is_Some (files !! key).
Proof. unfold sorted_keys. rewrite elem_of_stable_sort, elem_of_elements, elem_of_dom. done. Qed.

Lemma manifest_of_run_ok disk session marker work m :
  manifest_of_run disk session marker = Some (work, m) →
  readManifestStrict disk work (ID session) = Some (Some m) ∧ Z.of_nat (size (Files m)) ≤ maxReconciliationFiles ∧
  MfRunID m = RunID marker ∧ SessionRevision m = LastCommittedRevision session.
Proof.
  unfold manifest_of_run. intros H. repeat case_match; simplify_eq.
  split_bools. rewrite Z.leb_le, Z.eqb_eq in *. done.
Qed.

Lemma interruption_run_id marker : ValidateSessionInterruption marker = Ok tt → slen (RunID marker) ≤ 256.
Proof.
  unfold ValidateSessionInterruption. destruct (_ || _) eqn:H; [done|]. intros _.
  split_bools. rewrite !Z.ltb_ge in *. lia.
Qed.

(** What an assessment is computed from. *)
Lemma assessment_ok disk session a :
  assessSessionReconciliationLocked disk session = Ok a →
  ∃ marker, Interruption session = Some marker ∧ ReconcileRequired session = true ∧
    ValidateSessionInterruption marker = Ok tt ∧ AsRunID a = RunID marker ∧ AsToolName a = ToolName marker ∧
    let files := AsFiles a in
    files = match manifest_of_run disk session marker with
            | Some (work, m) => map (assess_entry disk work (Files m)) (sorted_keys (Files m))
            | None => [missing_checkpoint]
            end ∧
    SideEffectJudgment a =
      (if manifest_of_run disk session marker is Some _ then
         if reconciliationToolIsFileOnly (ToolName marker)
         then ReconciliationJudgmentDigestEvaluated else ReconciliationJudgmentUnknown
       else ReconciliationJudgmentUnknown) ∧
    CheckpointStatus a = (if manifest_of_run disk session marker is Some _ then "available" else "unavailable") ∧
    ManualConfirmationRequired a =
      negb (String.eqb (manual_reason (ToolName marker) (SideEffectJudgment a) files) "") ∧
    (∃ text, EvidenceDigest a = "sha256:" +:+ sha256_hex text) ∧
    MatchesPreimage a = count_status ReconciliationFileMatchesPreimage files ∧
    MatchesPostimage a = count_status ReconciliationFileMatchesPostimage files ∧
    Diverged a = count_status ReconciliationFileDiverged files ∧
    PostimageUnrecorded a = count_status ReconciliationFilePostimageUnrecorded files ∧
    Unavailable a = count_status ReconciliationFileUnavailable files.
Proof.
  unfold assessSessionReconciliationLocked. destruct (Interruption session) as [marker|]; [|done].
  destruct (_ || _) eqn:E; [done|]. intros H. apply result_bind_ok in H as ([] & Hv & H).
  injection H as <-. split_bools. exists marker. cbn. split_and!; try done.
  unfold reconciliationEvidenceDigest. eauto.
Qed.

Lemma assessed_files disk session a :
  assessSessionReconciliationLocked disk session = Ok a →
  Forall (λ e, EvStatus e ∈ file_statuses) (AsFiles a) ∧ Z.of_nat (length (AsFiles a)) ≤ 256.
Proof.
  intros (marker & _ & _ & _ & _ & _ & -> & _)%assessment_ok.
  destruct (manifest_of_run disk session marker) as [[work m]|] eqn:Hm.
  - apply manifest_of_run_ok in Hm as (_ & Hs & _). split.
    + apply Forall_map, Forall_true. intros key. simpl. apply assess_entry_status.
    + rewrite length_map, length_sorted_keys. unfold maxReconciliationFiles in Hs. lia.
  - split; [|done]. by repeat constructor.
Qed.

(** ** Properties *)

(** The receipt of a fresh, acknowledged assessment is always valid, whatever is left of
    the checkpoint: a user who looks at an interrupted session can reconcile it. *)
Theorem fresh_receipt_valid disk session a at_ :
  assessSessionReconciliationLocked disk session = Ok a → at_ ≠ 0 →
  ∃ receipt, NewSessionReconciliationReceipt a true at_ = Ok receipt ∧
    RcRunID receipt = AsRunID a ∧ RcEvidenceDigest receipt = EvidenceDigest a.
Proof.
  intros Ha Hat. destruct (assessed_files _ _ _ Ha) as [Hst Hlen].
  apply assessment_ok in Ha as (marker & _ & _ & Hv & Hrun & _ & Hf & Hj & Hc & _ & (text & Hd) & E1 & E2 & E3 & E4 & E5).
  clear Hf. apply interruption_run_id in Hv.
  unfold NewSessionReconciliationReceipt. rewrite andb_false_r.
  assert (Hvalid : ∀ r, r = {| RcVersion := 1; RcAt := at_; RcRunID := AsRunID a;
       RcEvidenceDigest := EvidenceDigest a; RcCheckpointStatus := CheckpointStatus a;
       RcSideEffectJudgment := SideEffectJudgment a;
       RcFileCount := Z.of_nat (length (AsFiles a));
       RcMatchesPreimage := MatchesPreimage a; RcMatchesPostimage := MatchesPostimage a;
       RcDiverged := Diverged a; RcPostimageUnrecorded := PostimageUnrecorded a;
       RcUnavailable := Unavailable a;
       RcManualConfirmationRequired := ManualConfirmationRequired a;
       RcManualConfirmationAcknowledged := ManualConfirmationRequired a && true |} →
    ValidateSessionReconciliationReceipt r = Ok tt).
  { intros r ->. unfold ValidateSessionReconciliationReceipt. cbn -[isSHA256Revision slen existsb forallb].
    rewrite Hd, isSHA256Revision_hex, Hrun. rewrite (proj2 (Z.leb_le _ _) Hv).
    unfold is_zero, time_zero. rewrite (proj2 (Z.eqb_neq _ _) Hat). cbn -[existsb slen forallb].
    assert (existsb (String.eqb (CheckpointStatus a)) ["available"; "unavailable"] = true) as ->.
    { rewrite Hc. by case_match. }
    assert (existsb (String.eqb (SideEffectJudgment a))
              [ReconciliationJudgmentDigestEvaluated; ReconciliationJudgmentUnknown] = true) as ->.
    { rewrite Hj. by repeat case_match. }
    pose proof (count_statuses _ Hst) as Hsum. rewrite <-E1, <-E2, <-E3, <-E4, <-E5 in Hsum.
    pose proof (λ s, count_status_bound s (AsFiles a)) as Hb.
    pose proof (Hb ReconciliationFileMatchesPreimage) as B1. rewrite <-E1 in B1.
    pose proof (Hb ReconciliationFileMatchesPostimage) as B2. rewrite <-E2 in B2.
    pose proof (Hb ReconciliationFileDiverged) as B3. rewrite <-E3 in B3.
    pose proof (Hb ReconciliationFilePostimageUnrecorded) as B4. rewrite <-E4 in B4.
    pose proof (Hb ReconciliationFileUnavailable) as B5. rewrite <-E5 in B5.
    cbn [mbind result_bind guard_err forallb].
    rewrite !(proj2 (Z.leb_le 0 _)), !(proj2 (Z.leb_le _ 10000)), Hsum, Z.eqb_refl by lia.
    by destruct (ManualConfirmationRequired a). }
  rewrite (Hvalid _ eq_refl). eexists. split; [reflexivity|done].
Qed.

(** C14: No confirmation is asked only when the run was of a tool that just writes files, its
    own checkpoint is there, every file's preimage is intact, and every file is still as it
    was before the run or as the run left it. *)
Theorem automatic_reconciliation_sound disk session a :
  assessSessionReconciliationLocked disk session = Ok a → ManualConfirmationRequired a = false →
  reconciliationToolIsFileOnly (AsToolName a) = true ∧
  ∃ work m, readManifestStrict disk work (ID session) = Some (Some m) ∧
    MfRunID m = AsRunID a ∧ SessionRevision m = LastCommittedRevision session ∧
    ∀ key entry, Files m !! key = Some entry →
      preimage_intact disk entry = true ∧
      ∃ content, read_target disk work key entry = Some content ∧
        let current := checkpointStateRevision (if content is Some _ then true else false) (default "" content) in
        current = PreimageDigest entry ∨ (PostimageCaptured entry = true ∧ current = PostimageDigest entry).
Proof.
  intros (marker & _ & _ & _ & -> & -> & Hf & Hj & _ & Hm & _)%assessment_ok Hman.
  rewrite Hman in Hm. symmetry in Hm. apply negb_false_iff, String.eqb_eq in Hm.
  unfold manual_reason in Hm.
  destruct (0 <? count_status ReconciliationFileUnavailable _) eqn:Eu; [done|].
  destruct (0 <? count_status ReconciliationFilePostimageUnrecorded _) eqn:Er; [done|].
  destruct (0 <? count_status ReconciliationFileDiverged _) eqn:Ed; [done|].
  destruct (String.eqb (SideEffectJudgment a) _) eqn:Ej; [done|].
  destruct (reconciliationToolIsFileOnly (ToolName marker)) eqn:Et; [|done].
  split; [done|]. rewrite Hj in Ej.
  destruct (manifest_of_run disk session marker) as [[work m]|] eqn:Hmf; [|done].
  apply manifest_of_run_ok in Hmf as (Hread & _ & Hrun & Hrev).
  exists work, m. split_and!; [done..|]. intros key entry Hk.
  assert (Hin : assess_entry disk work (Files m) key ∈ AsFiles a).
  { rewrite Hf. apply list_elem_of_fmap_2, elem_of_sorted_keys. eauto. }
  pose proof (count_status_zero _ _ Eu _ Hin) as Nu. pose proof (count_status_zero _ _ Er _ Hin) as Nr.
  pose proof (count_status_zero _ _ Ed _ Hin) as Nd. clear -Nu Nr Nd Hk.
  unfold assess_entry in *. destruct (_ <? _); [done|]. rewrite Hk in *.
  unfold assessCheckpointFile in *. destruct (preimage_intact disk entry); [|done].
  split; [done|]. destruct (postimage_consistent entry); [|done]. cbn [negb] in *.
  destruct (read_target disk work key entry) as [content|]; [|done].
  exists content. split; [done|]. cbn [EvStatus] in *.
  destruct (String.eqb_spec (checkpointStateRevision (if content is Some _ then true else false) (default "" content))
    (PreimageDigest entry)); [by left|].
  destruct (PostimageCaptured entry); [|done]. cbn [negb] in *.
  destruct (String.eqb_spec (checkpointStateRevision (if content is Some _ then true else false) (default "" content))
    (PostimageDigest entry)); [by right|done].
Qed.

(** ** A concrete run *)

Definition ex_digest : string := "sha256:0000000000000000000000000000000000000000000000000000000000000000".
Definition ex_marker : SessionInterruption :=
  {| At := 5; Reason := "crash"; RunID := "run-1"; ToolName := "Write"; ToolCallID := "call-1";
     InputDigest := ex_digest; SideEffectState := SessionSideEffectStarted; Summary := "started" |}.
Definition ex_interrupted : Session :=
  {| Version := 4; Revision := 3; ID := "sess_aaaaaaaaaaaaaaaaaaaaaaaaaa"; Title := "T"; Workspace := "/work";
     WorkstreamID := ""; PlanID := ""; PlanRevision := 0; StageID := ""; ExecutionPolicy := None;
     Messages := []; Provider := "openai"; Model := "m"; CreatedAt := 1; UpdatedAt := 5; Turns := 0;
     ParentSessionID := ""; ParentRevision := 0; LifecycleStatus := SessionLifecycleInterrupted;
     LastCommittedRevision := 2; ReconcileRequired := true; Interruption := Some ex_marker;
     LastReconciliation := None; LastRunTerminal := None; LastAgentRequest := None |}.
Definition ex_entry : ckptFile :=
  {| Existed := false; Backup := ""; TargetPath := ""; PreimageDigest := checkpointStateRevision false "";
     PreimageMode := None; PostimageDigest := checkpointStateRevision true "new"; PostimageExisted := true;
     PostimageCaptured := true |}.
(** The file of the entry holds [content] now. *)
Definition ex_disk (content : option string) : CheckpointDisk :=
  {| canonicalWorkspace := Some;
     readManifestStrict := λ _ _, Some (Some {| SessionRevision := 2; MfRunID := "run-1";
       Generation := "checkpoint_run-1"; Files := {["a.go" := ex_entry]} |});
     read_backup := λ _, None; read_target := λ _ _ _, Some content |}.

Definition assessed (content : option string) : option (bool * list ReconciliationFileStatus) :=
  match assessSessionReconciliationLocked (ex_disk content) ex_interrupted with
  | Ok a => Some (ManualConfirmationRequired a, map EvStatus (AsFiles a))
  | Err _ => None
  end.
Example ex_assessments :
  assessed (Some "new") = Some (false, [ReconciliationFileMatchesPostimage]) ∧
  assessed None = Some (false, [ReconciliationFileMatchesPreimage]) ∧
  assessed (Some "other") = Some (true, [ReconciliationFileDiverged]).
Proof. vm_compute. done. Qed.

Definition the {A} (r : result SessionError A) (a : A) : A := match r with Ok x => x | Err _ => a end.
Definition no_assessment : SessionReconciliationAssessment :=
  Build_SessionReconciliationAssessment "" 0 "" "" "" "" "" "" true "" [] 0 0 0 0 0.
Definition ex_assessment (content : option string) : SessionReconciliationAssessment :=
  the (assessSessionReconciliationLocked (ex_disk content) ex_interrupted) no_assessment.

Lemma fresh_receipt_valid_witness :
  ∃ receipt, NewSessionReconciliationReceipt (ex_assessment (Some "other")) true 9 = Ok receipt ∧
    RcRunID receipt = AsRunID (ex_assessment (Some "other")) ∧
    RcEvidenceDigest receipt = EvidenceDigest (ex_assessment (Some "other")).
Proof. apply (fresh_receipt_valid (ex_disk (Some "other")) ex_interrupted); [vm_compute; reflexivity|lia]. Defined.

Lemma automatic_reconciliation_sound_witness :
  reconciliationToolIsFileOnly (AsToolName (ex_assessment (Some "new"))) = true.
Proof.
  apply (automatic_reconciliation_sound (ex_disk (Some "new")) ex_interrupted); vm_compute; reflexivity.
Defined.
