(* ===== verification/SessionStore.v ===== *)
(** * The session store

    agent/sessions.go: sessions as files, one per session, in a directory per workspace.
    Every operation runs under the lock of the store: it finds and loads the session,
    checks the caller's expected revision and the lifecycle, computes the next revision and
    replaces the file.  An operation is a function of the store and of what it meets outside
    ([Env]).  A session whose run was interrupted refuses everything but an explicit
    reconciliation, the commit of the very run that left the marker, and deletion. *)

From S2P Require Export Reconciliation.
Local Open Scope string_scope.
Local Open Scope list_scope.
Local Open Scope Z_scope.

(** ** State *)

(** What is in a session file: bytes that do not decode as a session, with the version
    their envelope has if that decodes, or a session. *)
Inductive FileContent := Garbled (envelope : option Z) | Decoded (s : Session).
(** A link or a directory is not regular. *)
Inductive StoredFile := Irregular | Regular (c : FileContent).

(** The directories in the order they are listed, and the file of a session in one. *)
Record SessionStore := {
  entries : list string;
  files : gmap (string * string) StoredFile;
  initErr : bool;
}.
#[export] Instance eta_SessionStore : Eta SessionStore := λ st,
  Build_SessionStore (entries st) (files st) (initErr st).

(** What an operation meets outside: the clock; the absolute path of a workspace with its
    links resolved; the working directory; the ids the generator makes; which system calls
    succeed; whether the images of a transcript are stored and whether the stored results of
    a parent can be copied (agent/session_memory.go); the checkpoint files. *)
Record Env := {
  now : time;
  resolve : string → option string;
  getwd : option string;
  generate : nat → option string;
  mkdirs : bool;
  writes : bool;
  removes : bool;
  rolls_back : bool;
  holds_images : Session → bool;
  clones_memory : Session → Session → bool;
  opens_memory : Session → bool;
  disk : CheckpointDisk;
}.

(** ** Workspaces *)

Definition canonicalWorkspacePath (env : Env) (workspace : string) : result SessionError string :=
  if String.eqb (trim_space workspace) "" then Err ErrWorkspace
  else match resolve env workspace with Some path => Ok path | None => Err ErrWorkspace end.
Definition storage_key (canonical : string) : string := "ws_" +:+ sha256_hex canonical.
Definition workspaceStorageKey (env : Env) (workspace : string) : result SessionError (string * string) :=
  canonical ← canonicalWorkspacePath env workspace;
  Ok (storage_key canonical, canonical).

Definition sameWorkspace (env : Env) (a b : string) : bool :=
  match workspaceStorageKey env a, workspaceStorageKey env b with
  | Ok (aKey, _), Ok (bKey, _) => String.eqb aKey bKey
  | _, _ => false
  end.

(** The name of the directory before digests were used. *)
Fixpoint legacyWorkspacePath (workspace : string) : string :=
  match workspace with
  | "" => ""
  | String c s =>
      if Ascii.eqb c ":" then legacyWorkspacePath s
      else if Ascii.eqb c "\" || Ascii.eqb c "/" then "--" +:+ legacyWorkspacePath s
      else String c (legacyWorkspacePath s)
  end.

Definition validateSessionWorkspacePath (env : Env) (dir workspace : string) : result SessionError unit :=
  '(key, _) ← workspaceStorageKey env workspace;
  guard_err (String.eqb dir key || String.eqb dir (legacyWorkspacePath workspace)) ErrWorkspace.

(** ** Finding and loading *)

Fixpoint find_in (files : gmap (string * string) StoredFile) (id : string) (dirs : list string)
    (found : option string) : result SessionError string :=
  match dirs with
  | [] => match found with Some dir => Ok dir | None => Err ErrSessionNotFound end
  | dir :: dirs' =>
      match files !! (dir, id) with
      | None => find_in files id dirs' found
      | Some Irregular => Err (ErrSessionIO "not a regular file")
      | Some (Regular _) =>
          match found with
          | Some _ => Err (ErrSessionConflict "duplicate session")
          | None => find_in files id dirs' (Some dir)
          end
      end
  end.
Definition findSessionPathLocked (st : SessionStore) (id : string) : result SessionError string :=
  _ ← ValidateSessionID id;
  if initErr st then Err (ErrSessionIO "initialize session store")
  else find_in (files st) id (entries st) None.

Definition supported (version : Z) : bool := (0 <=? version) && (version <=? currentSessionVersion).

Definition decode_stored (env : Env) (dir : string) (file : StoredFile) (expectedID : string)
    : result SessionError Session :=
  match file with
  | Irregular => Err (ErrSessionCorrupt "session file is not regular")
  | Regular (Garbled None) => Err (ErrSessionCorrupt "decode session envelope")
  | Regular (Garbled (Some version)) =>
      if supported version then Err (ErrSessionCorrupt "decode session") else Err ErrSessionVersionUnsupported
  | Regular (Decoded s) =>
      if negb (supported (Version s)) then Err ErrSessionVersionUnsupported else
      sess ← check_decoded s expectedID;
      _ ← corrupt_if (validateSessionWorkspacePath env dir (Workspace sess)) "workspace";
      Ok sess
  end.
Definition loadStoredSession (env : Env) (st : SessionStore) (dir id : string) : result SessionError Session :=
  match files st !! (dir, id) with
  | None => Err (ErrSessionIO "no such file")
  | Some file => decode_stored env dir file id
  end.

Definition getLocked (env : Env) (st : SessionStore) (id : string) : result SessionError Session :=
  dir ← findSessionPathLocked st id;
  loadStoredSession env st dir id.
Definition Get (env : Env) (st : SessionStore) (id : string) : result SessionError Session :=
  _ ← ValidateSessionID id;
  getLocked env st id.

(** [maxSessionIDAttempts] attempts at an id that no file has. *)
Fixpoint allocate_from (env : Env) (st : SessionStore) (attempt left : nat) : result SessionError string :=
  match left with
  | O => Err (ErrSessionConflict "unable to allocate a unique session id")
  | S left' =>
      match generate env attempt with
      | None => Err (ErrSessionIO "generate session id")
      | Some id =>
          _ ← ValidateSessionID id;
          match findSessionPathLocked st id with
          | Err ErrSessionNotFound => Ok id
          | Ok _ | Err (ErrSessionConflict _) => allocate_from env st (S attempt) left'
          | Err e => Err e
          end
      end
  end.
Definition allocateSessionIDLocked (env : Env) (st : SessionStore) : result SessionError string :=
  allocate_from env st 0 16.

(** ** Writing *)

Definition add_entry (dir : string) (st : SessionStore) : SessionStore :=
  if bool_decide (dir ∈ entries st) then st
  else st <| entries := stable_sort (less_str id) (dir :: entries st) |>.
Definition write_file (dir id : string) (data : Session) (st : SessionStore) : SessionStore :=
  st <| files := <[(dir, id) := Regular (Decoded data)]> (files st) |>.
Definition remove_file (dir id : string) (st : SessionStore) : SessionStore :=
  st <| files := delete (dir, id) (files st) |>.

(** [data] is what the text of [sess] is read back as. *)
Definition persistSessionLocked (env : Env) (sess data : Session) (existing : option string)
    (st : SessionStore) : SessionStore * result SessionError unit :=
  match workspaceStorageKey env (Workspace sess) with
  | Err e => (st, Err e)
  | Ok (dir, _) =>
      if negb (mkdirs env) then (st, Err (ErrSessionIO "create workspace directory")) else
      let st := add_entry dir st in
      match ValidateSessionID (ID sess) with
      | Err e => (st, Err e)
      | Ok _ =>
          if negb (writes env) then (st, Err (ErrSessionIO "write")) else
          let written := write_file dir (ID sess) data st in
          match existing with
          | None => (written, Ok tt)
          | Some old =>
              if String.eqb old dir then (written, Ok tt)
              else if removes env then (remove_file old (ID sess) written, Ok tt)
              else if rolls_back env then (remove_file dir (ID sess) written, Err (ErrSessionIO "remove legacy session"))
              else (written, Err (ErrSessionIO "remove legacy session"))
          end
      end
  end.

(** The end of every operation that writes: the session it made and the directory of the
    file it replaces. *)
Definition commit (env : Env) (st : SessionStore) (planned : result SessionError (Session * option string))
    : SessionStore * result SessionError Session :=
  match planned with
  | Err e => (st, Err e)
  | Ok (sess, existing) =>
      match MarshalIndent sess with
      | Err e => (st, Err e)
      | Ok data =>
          let '(st', r) := persistSessionLocked env sess data existing st in
          (st', _ ← r; Ok sess)
      end
  end.

(** ** Saving *)

Definition sameSessionInterruption (a b : option SessionInterruption) : bool := bool_decide (a = b).

(** One message of [preserveSessionImageReferences]: the attachments of the message it was. *)
Definition preserve_one (current previous : SessionMessage) : SessionMessage :=
  if negb (String.eqb (Role current) "user") || negb (String.eqb (Role previous) "user") ||
     negb (String.eqb (Content current) (Content previous)) ||
     negb (Timestamp current =? Timestamp previous) ||
     negb (bool_decide (Attachments current = [])) || bool_decide (Attachments previous = [])
  then current else current <| Attachments := Attachments previous |>.
Fixpoint preserveSessionImageReferences (candidate existing : list SessionMessage) : list SessionMessage :=
  match candidate, existing with
  | c :: candidate', e :: existing' => preserve_one c e :: preserveSessionImageReferences candidate' existing'
  | _, _ => candidate
  end.

Definition or_else (value other : string) : string := if String.eqb value "" then other else value.

(** What a caller leaves empty is kept from the file: workstream, plan and stage. *)
Definition merge_associations (candidate existing : Session) : Session :=
  let candidate := candidate <| WorkstreamID := or_else (WorkstreamID candidate) (WorkstreamID existing) |> in
  let sameWorkstream := String.eqb (WorkstreamID candidate) (WorkstreamID existing) in
  if String.eqb (PlanID candidate) "" && sameWorkstream then
    candidate <| PlanID := PlanID existing |> <| PlanRevision := PlanRevision existing |>
              <| StageID := or_else (StageID candidate) (StageID existing) |>
  else if sameWorkstream && String.eqb (PlanID candidate) (PlanID existing) then
    candidate <| PlanRevision := if PlanRevision candidate =? 0 then PlanRevision existing else PlanRevision candidate |>
              <| StageID := or_else (StageID candidate) (StageID existing) |>
  else candidate.

Definition check_expected (id : string) (expected : option Z) (current : Z) : result SessionError unit :=
  match expected with
  | Some e => guard_err (e =? current) (ErrSessionRevisionConflict id e current)
  | None => Ok tt
  end.

(** The case of an existing session. *)
Definition merge_existing (env : Env) (candidate existing : Session) (expected : option Z)
    : result SessionError Session :=
  _ ← check_expected (ID candidate) expected (Revision existing);
  _ ← guard_err (negb (Revision existing =? max_uint64)) ErrSessionRevisionOverflow;
  _ ← guard_err (negb (negb (String.eqb (Workspace candidate) "") &&
        negb (sameWorkspace env (Workspace candidate) (Workspace existing))))
        (ErrSessionConflict "session belongs to another workspace");
  let candidate :=
    merge_associations
      (candidate <| Messages := preserveSessionImageReferences (Messages candidate) (Messages existing) |>
                 <| Workspace := Workspace existing |>) existing in
  let candidate :=
    candidate <| Provider := or_else (Provider candidate) (Provider existing) |>
              <| Model := or_else (Model candidate) (Model existing) |>
              <| CreatedAt := if is_zero (CreatedAt candidate) then CreatedAt existing else CreatedAt candidate |> in
  if String.eqb (ParentSessionID candidate) "" && (ParentRevision candidate =? 0) then
    Ok (candidate <| ParentSessionID := ParentSessionID existing |> <| ParentRevision := ParentRevision existing |>)
  else if negb (String.eqb (ParentSessionID candidate) (ParentSessionID existing)) ||
          negb (ParentRevision candidate =? ParentRevision existing)
  then Err ErrSessionParentInvalid else Ok candidate.

Definition prepareInterruptedRunCommit (candidate : Session) (existing : option Session)
    (marker : SessionInterruption) : result SessionError Session :=
  match existing with
  | None => lifecycle_fails "interrupted run commit requires existing state"
  | Some existing =>
      if negb (String.eqb (LifecycleStatus existing) SessionLifecycleInterrupted) ||
         negb (ReconcileRequired existing) || bool_decide (Interruption existing = None)
      then lifecycle_fails "session is not guarded by an execution marker"
      else if negb (sameSessionInterruption (Interruption existing) (Some marker))
      then Err (ErrSessionReconcileRequired "interrupted run marker does not match")
      else Ok (candidate <| LifecycleStatus := SessionLifecycleActive |> <| ReconcileRequired := false |>
                         <| Interruption := None |>
                         <| LastCommittedRevision := LastCommittedRevision existing |>
                         <| LastReconciliation := LastReconciliation existing |>)
  end.

Definition prepareSessionLifecycleForSave (candidate : Session) (existing : option Session)
    : result SessionError Session :=
  match existing with
  | None =>
      if negb (String.eqb (LifecycleStatus candidate) "") &&
         negb (String.eqb (LifecycleStatus candidate) SessionLifecycleActive)
      then lifecycle_fails "new sessions must be active"
      else if ReconcileRequired candidate || negb (bool_decide (Interruption candidate = None))
      then lifecycle_fails "new session cannot start interrupted"
      else match LastReconciliation candidate with
           | Some _ => lifecycle_fails "new session cannot include a reconciliation receipt"
           | None => Ok (candidate <| LifecycleStatus := SessionLifecycleActive |> <| LastCommittedRevision := 0 |>)
           end
  | Some existing =>
      if ReconcileRequired existing then Err (ErrSessionReconcileRequired "session") else
      if String.eqb (LifecycleStatus existing) SessionLifecycleClosed
      then lifecycle_fails "closed session cannot be saved" else
      candidate ←
        (if String.eqb (LifecycleStatus candidate) "" then
           if ReconcileRequired candidate || negb (bool_decide (Interruption candidate = None))
           then lifecycle_fails "partial lifecycle update"
           else Ok (candidate <| LifecycleStatus := LifecycleStatus existing |>
                              <| ReconcileRequired := ReconcileRequired existing |>
                              <| Interruption := Interruption existing |>)
         else if negb (String.eqb (LifecycleStatus candidate) (LifecycleStatus existing)) ||
                 negb (Bool.eqb (ReconcileRequired candidate) (ReconcileRequired existing)) ||
                 negb (sameSessionInterruption (Interruption candidate) (Interruption existing))
         then lifecycle_fails "lifecycle transitions require the lifecycle API"
         else Ok candidate);
      Ok (candidate <| LastCommittedRevision := LastCommittedRevision existing |>
                    <| LastReconciliation := LastReconciliation existing |>)
  end.

(** The first user message, or a fixed title. *)
Fixpoint generated_title (messages : list SessionMessage) : string :=
  match messages with
  | [] => "New Chat"
  | m :: messages' =>
      if String.eqb (Role m) "user" && negb (String.eqb (Content m) "") then
        if 50 <? slen (Content m) then str_take 50 (Content m) +:+ "..." else Content m
      else generated_title messages'
  end.
Definition count_turns (messages : list SessionMessage) : Z :=
  Z.of_nat (length (List.filter (λ m, String.eqb (Role m) "user") messages)).

(** What [save] found: nothing, or a file and the session in it. *)
Definition find_existing (env : Env) (st : SessionStore) (id : string) (expected : option Z)
    : result SessionError (option (string * Session)) :=
  match findSessionPathLocked st id with
  | Ok dir => existing ← loadStoredSession env st dir id; Ok (Some (dir, existing))
  | Err ErrSessionNotFound => _ ← check_expected id expected 0; Ok None
  | Err e => Err e
  end.

(** A new session that names a parent must name its current revision, in its workspace. *)
Definition check_parent (env : Env) (st : SessionStore) (candidate : Session) : result SessionError unit :=
  match getLocked env st (ParentSessionID candidate) with
  | Ok parent =>
      guard_err ((Revision parent =? ParentRevision candidate) &&
                 sameWorkspace env (Workspace candidate) (Workspace parent)) ErrSessionParentInvalid
  | Err _ => Err ErrSessionParentInvalid
  end.

(** The fields of a run: receipts are made by [CommitAgentRun] alone. *)
Definition merge_run (candidate : Session) (existing : option Session) (receipt : option AgentRequestReceipt) : Session :=
  let candidate :=
    candidate <| LastRunTerminal := match LastRunTerminal candidate with
                   Some t => Some t | None => existing ≫= LastRunTerminal end |>
              <| ExecutionPolicy := match ExecutionPolicy candidate with
                   Some p => Some p | None => existing ≫= ExecutionPolicy end |> in
  match receipt with
  | None => candidate <| LastAgentRequest := existing ≫= LastAgentRequest |>
  | Some r => candidate <| LastAgentRequest := Some (r <| CommittedRevision := 0 |>) |>
  end.
Definition check_policy_of (candidate : Session) : result SessionError unit :=
  check_optional check_policy (ExecutionPolicy candidate).

(** The revision, the receipt's revision, and what depends on them. *)
Definition stamp_revision (candidate : Session) (existing : option Session) (receipt : option AgentRequestReceipt)
    : Session :=
  let revision := match existing with Some e => Revision e + 1 | None => 1 end in
  let candidate := candidate <| Version := currentSessionVersion |> <| Revision := revision |> in
  let candidate :=
    match receipt with
    | Some r => candidate <| LastAgentRequest := Some (r <| CommittedRevision := revision |>) |>
    | None => candidate
    end in
  candidate <| LastCommittedRevision := revision |>.

Definition stamp_times (env : Env) (candidate : Session) : Session :=
  candidate <| CreatedAt := if is_zero (CreatedAt candidate) then now env else CreatedAt candidate |>
            <| UpdatedAt := now env |>
            <| Title := if String.eqb (Title candidate) "" then generated_title (Messages candidate) else Title candidate |>
            <| Turns := count_turns (Messages candidate) |>.

Definition target_id (env : Env) (st : SessionStore) (sess : Session) : result SessionError string :=
  if String.eqb (ID sess) "" then allocateSessionIDLocked env st
  else _ ← ValidateSessionID (ID sess); Ok (ID sess).

(** The next revision of a session, given what is stored. *)
Definition save_candidate (env : Env) (candidate : Session) (existing : option Session) (expected : option Z)
    (marker : option SessionInterruption) (receipt : option AgentRequestReceipt) : result SessionError Session :=
  candidate ← (if existing is Some e then merge_existing env candidate e expected else Ok candidate);
  let candidate := merge_run candidate existing receipt in
  _ ← check_policy_of candidate;
  _ ← validateSessionAssociationIDs candidate;
  _ ← ValidateSessionImageReferences (Messages candidate);
  _ ← validateOptionalDurableRunTerminal (LastRunTerminal candidate);
  candidate ← (if marker is Some m then prepareInterruptedRunCommit candidate existing m
               else prepareSessionLifecycleForSave candidate existing);
  _ ← validateSessionParentMetadata (ID candidate) (ParentSessionID candidate) (ParentRevision candidate);
  let candidate := stamp_revision candidate existing receipt in
  _ ← validateAgentRequestReceipt (LastAgentRequest candidate) (Revision candidate)
        (Z.of_nat (length (Messages candidate)));
  Ok candidate.

(** Where it is stored, and what it refers to. *)
Definition place (env : Env) (st : SessionStore) (candidate : Session) (existing : option Session)
    : result SessionError Session :=
  workspace ← (if String.eqb (Workspace candidate) "" then
                 if getwd env is Some dir then Ok dir else Err ErrWorkspace
               else Ok (Workspace candidate));
  '(_, canonical) ← workspaceStorageKey env workspace;
  let candidate := candidate <| Workspace := canonical |> in
  _ ← guard_err (negb (sessionHasImageReferences (Messages candidate)) || holds_images env candidate)
        ErrSessionImageReferenceInvalid;
  _ ← (if existing is Some _ then Ok tt
       else if String.eqb (ParentSessionID candidate) "" then Ok tt else check_parent env st candidate);
  Ok candidate.

(** [save] up to the write. *)
Definition plan_save (env : Env) (st : SessionStore) (sess : Session) (expected : option Z)
    (marker : option SessionInterruption) (receipt : option AgentRequestReceipt)
    : result SessionError (Session * option string) :=
  _ ← guard_err (negb (initErr st)) (ErrSessionIO "initialize session store");
  id ← target_id env st sess;
  found ← find_existing env st id expected;
  candidate ← save_candidate env (sess <| ID := id |>) (snd <$> found) expected marker receipt;
  candidate ← place env st candidate (snd <$> found);
  Ok (stamp_times env candidate, fst <$> found).

Definition save (env : Env) (sess : Session) (expected : option Z) (marker : option SessionInterruption)
    (receipt : option AgentRequestReceipt) (st : SessionStore) : SessionStore * result SessionError Session :=
  commit env st (plan_save env st sess expected marker receipt).

Definition Save (env : Env) (sess : Session) := save env sess None None None.
Definition SaveExpected (env : Env) (sess : Session) (expectedRevision : Z) :=
  save env sess (Some expectedRevision) None None.

Definition check_commit_marker (marker : SessionInterruption) : result SessionError unit :=
  if String.eqb (trim_space (RunID marker)) ""
  then lifecycle_fails "interrupted run marker has no run id" else ValidateSessionInterruption marker.
Definition CommitInterruptedRun (env : Env) (sess : Session) (expectedRevision : Z)
    (marker : SessionInterruption) (st : SessionStore) : SessionStore * result SessionError Session :=
  match check_commit_marker marker with
  | Err e => (st, Err e)
  | Ok _ => save env sess (Some expectedRevision) (Some marker) None st
  end.
Definition CommitAgentRun (env : Env) (sess : Session) (expectedRevision : Z)
    (marker : option SessionInterruption) (receipt : AgentRequestReceipt) :=
  save env sess (Some expectedRevision) marker (Some receipt).

(** ** Lifecycle *)

(** [updateSessionLifecycle] up to the write. *)
Definition plan_lifecycle (env : Env) (st : SessionStore) (id : string) (expectedRevision : Z)
    (transition : Session → result SessionError Session) : result SessionError (Session * option string) :=
  _ ← ValidateSessionID id;
  _ ← guard_err (negb (initErr st)) (ErrSessionIO "initialize session store");
  dir ← findSessionPathLocked st id;
  sess ← loadStoredSession env st dir id;
  _ ← guard_err (negb (Version sess =? 0)) ErrSessionVersionUnsupported;
  _ ← guard_err (Revision sess =? expectedRevision) (ErrSessionRevisionConflict id expectedRevision (Revision sess));
  _ ← guard_err (negb (Revision sess =? max_uint64)) ErrSessionRevisionOverflow;
  sess' ← transition sess;
  let sess' := sess' <| Version := currentSessionVersion |> <| Revision := Revision sess' + 1 |> in
  let sess' := if ReconcileRequired sess' then sess' else sess' <| LastCommittedRevision := Revision sess' |> in
  sess' ← normalizeSessionLifecycle (sess' <| UpdatedAt := now env |>);
  Ok (sess', Some dir).

Definition interrupt (marker : SessionInterruption) (sess : Session) : result SessionError Session :=
  if String.eqb (LifecycleStatus sess) SessionLifecycleClosed
  then lifecycle_fails "closed session cannot be interrupted"
  else if ReconcileRequired sess then Err (ErrSessionReconcileRequired "session")
  else Ok (sess <| LifecycleStatus := SessionLifecycleInterrupted |>
                <| LastCommittedRevision := Revision sess |>
                <| ReconcileRequired := true |> <| Interruption := Some marker |>).
Definition marker_time (env : Env) (marker : SessionInterruption) : SessionInterruption :=
  {| At := if is_zero (At marker) then now env else At marker; Reason := Reason marker; RunID := RunID marker;
     ToolName := ToolName marker; ToolCallID := ToolCallID marker; InputDigest := InputDigest marker;
     SideEffectState := SideEffectState marker; Summary := Summary marker |}.
Definition plan_interrupt (env : Env) (st : SessionStore) (id : string) (expectedRevision : Z)
    (marker : SessionInterruption) : result SessionError (Session * option string) :=
  let marker := marker_time env marker in
  _ ← ValidateSessionInterruption marker;
  plan_lifecycle env st id expectedRevision (interrupt marker).
Definition MarkInterrupted (env : Env) (id : string) (expectedRevision : Z) (marker : SessionInterruption)
    (st : SessionStore) := commit env st (plan_interrupt env st id expectedRevision marker).

Definition replace_marker (expectedMarker nextMarker : SessionInterruption) (sess : Session)
    : result SessionError Session :=
  if negb (String.eqb (LifecycleStatus sess) SessionLifecycleInterrupted) ||
     negb (ReconcileRequired sess) || bool_decide (Interruption sess = None)
  then lifecycle_fails "session is not guarded by an execution marker"
  else if negb (sameSessionInterruption (Interruption sess) (Some expectedMarker))
  then Err (ErrSessionReconcileRequired "interrupted run marker does not match")
  else Ok (sess <| Interruption := Some nextMarker |>).
Definition next_time (expectedMarker nextMarker : SessionInterruption) : SessionInterruption :=
  {| At := if is_zero (At nextMarker) then At expectedMarker else At nextMarker; Reason := Reason nextMarker;
     RunID := RunID nextMarker; ToolName := ToolName nextMarker; ToolCallID := ToolCallID nextMarker;
     InputDigest := InputDigest nextMarker; SideEffectState := SideEffectState nextMarker;
     Summary := Summary nextMarker |}.
Definition plan_update (env : Env) (st : SessionStore) (id : string) (expectedRevision : Z)
    (expectedMarker nextMarker : SessionInterruption) : result SessionError (Session * option string) :=
  _ ← ValidateSessionInterruption expectedMarker;
  let nextMarker := next_time expectedMarker nextMarker in
  _ ← ValidateSessionInterruption nextMarker;
  if String.eqb (trim_space (RunID expectedMarker)) "" ||
     negb (String.eqb (RunID expectedMarker) (RunID nextMarker))
  then lifecycle_fails "interrupted run id does not match"
  else plan_lifecycle env st id expectedRevision (replace_marker expectedMarker nextMarker).
Definition UpdateInterruptedRun (env : Env) (id : string) (expectedRevision : Z)
    (expectedMarker nextMarker : SessionInterruption) (st : SessionStore) :=
  commit env st (plan_update env st id expectedRevision expectedMarker nextMarker).

(** A reconciliation without evidence is always refused. *)
Definition MarkReconciled (id : string) (expectedRevision : Z) : result SessionError Session :=
  Err (ErrSessionReconcileRequired "fresh reconciliation evidence receipt").

(** What the receipt says is what a fresh assessment finds. *)
Definition receipt_matches (assessment : SessionReconciliationAssessment) (receipt : SessionReconciliationReceipt) : bool :=
  String.eqb (EvidenceDigest assessment) (RcEvidenceDigest receipt) &&
  String.eqb (AsRunID assessment) (RcRunID receipt) &&
  String.eqb (CheckpointStatus assessment) (RcCheckpointStatus receipt) &&
  String.eqb (SideEffectJudgment assessment) (RcSideEffectJudgment receipt) &&
  (Z.of_nat (length (AsFiles assessment)) =? RcFileCount receipt) &&
  (MatchesPreimage assessment =? RcMatchesPreimage receipt) &&
  (MatchesPostimage assessment =? RcMatchesPostimage receipt) &&
  (Diverged assessment =? RcDiverged receipt) &&
  (PostimageUnrecorded assessment =? RcPostimageUnrecorded receipt) &&
  (Unavailable assessment =? RcUnavailable receipt) &&
  Bool.eqb (ManualConfirmationRequired assessment) (RcManualConfirmationRequired receipt).

Definition reconcile (env : Env) (expectedRunID : string) (receipt : SessionReconciliationReceipt) (sess : Session)
    : result SessionError Session :=
  match Interruption sess with
  | Some marker =>
      if negb (ReconcileRequired sess) ||
         (negb (String.eqb (LifecycleStatus sess) SessionLifecycleInterrupted) &&
          negb (String.eqb (LifecycleStatus sess) SessionLifecycleRecoveryNeeded))
      then lifecycle_fails "session is not awaiting reconciliation"
      else if negb (String.eqb (RunID marker) expectedRunID) || negb (String.eqb (RcRunID receipt) expectedRunID)
      then Err (ErrSessionReconcileRequired "interrupted run identity changed") else
      assessment ← assessSessionReconciliationLocked (disk env) sess;
      _ ← guard_err (receipt_matches assessment receipt)
            (ErrSessionReconcileRequired "reconciliation evidence changed before acknowledgement");
      _ ← guard_err (negb (ManualConfirmationRequired assessment && negb (RcManualConfirmationAcknowledged receipt)))
            (ErrSessionReconcileRequired "manual side-effect confirmation is required");
      Ok (sess <| LifecycleStatus := SessionLifecycleActive |> <| ReconcileRequired := false |>
               <| Interruption := None |> <| LastReconciliation := Some receipt |>)
  | None => lifecycle_fails "session is not awaiting reconciliation"
  end.
Definition plan_reconcile (env : Env) (st : SessionStore) (id : string) (expectedRevision : Z)
    (expectedRunID : string) (receipt : SessionReconciliationReceipt) : result SessionError (Session * option string) :=
  _ ← ValidateSessionReconciliationReceipt receipt;
  plan_lifecycle env st id expectedRevision (reconcile env expectedRunID receipt).
Definition MarkReconciledWithReceipt (env : Env) (id : string) (expectedRevision : Z) (expectedRunID : string)
    (receipt : SessionReconciliationReceipt) (st : SessionStore) :=
  commit env st (plan_reconcile env st id expectedRevision expectedRunID receipt).

Definition close (sess : Session) : result SessionError Session :=
  if ReconcileRequired sess then Err (ErrSessionReconcileRequired "session")
  else if negb (String.eqb (LifecycleStatus sess) SessionLifecycleActive)
  then lifecycle_fails "only an active session can be closed"
  else Ok (sess <| LifecycleStatus := SessionLifecycleClosed |> <| Interruption := None |>).
Definition Close (env : Env) (id : string) (expectedRevision : Z) (st : SessionStore) :=
  commit env st (plan_lifecycle env st id expectedRevision close).

(** ** Fork, rename, delete *)

Definition inherit_policy (parent : Session) : result SessionError (option Snapshot) :=
  match ExecutionPolicy parent with
  | None => Ok None
  | Some policy =>
      match ResolveChild policy "" zeroCapabilities with
      | Ok child => Ok (Some child)
      | Err e => Err (ErrExecutionPolicy e)
      end
  end.
(** The messages are copied through their JSON text. *)
Definition cloneSessionMessages (messages : list SessionMessage) : result SessionError (list SessionMessage) :=
  if forallb time_encodes (map Timestamp messages) then Ok (map written_message messages)
  else Err (ErrSessionIO "clone parent session").
Definition forked (env : Env) (parent : Session) (id workspace : string) (messages : list SessionMessage)
    (policy : option Snapshot) : Session :=
  {| Version := currentSessionVersion; Revision := 1; ID := id; Title := Title parent; Workspace := workspace;
     WorkstreamID := WorkstreamID parent; PlanID := PlanID parent; PlanRevision := PlanRevision parent;
     StageID := StageID parent; ExecutionPolicy := policy; Messages := messages; Provider := Provider parent;
     Model := Model parent; CreatedAt := now env; UpdatedAt := now env; Turns := Turns parent;
     ParentSessionID := ID parent; ParentRevision := Revision parent;
     LifecycleStatus := SessionLifecycleActive; LastCommittedRevision := 1; ReconcileRequired := false;
     Interruption := None; LastReconciliation := None; LastRunTerminal := LastRunTerminal parent;
     LastAgentRequest := None |}.
Definition plan_fork (env : Env) (st : SessionStore) (parentID : string) (expectedParentRevision : Z)
    : result SessionError (Session * option string) :=
  _ ← ValidateSessionID parentID;
  _ ← guard_err (negb (initErr st)) (ErrSessionIO "initialize session store");
  parent ← getLocked env st parentID;
  _ ← guard_err (negb (Version parent =? 0)) ErrSessionVersionUnsupported;
  _ ← guard_err (Revision parent =? expectedParentRevision)
        (ErrSessionRevisionConflict parentID expectedParentRevision (Revision parent));
  _ ← guard_err (negb (ReconcileRequired parent ||
        String.eqb (LifecycleStatus parent) SessionLifecycleInterrupted ||
        String.eqb (LifecycleStatus parent) SessionLifecycleRecoveryNeeded))
        (ErrSessionReconcileRequired "parent session");
  id ← allocateSessionIDLocked env st;
  messages ← cloneSessionMessages (Messages parent);
  policy ← inherit_policy parent;
  '(_, workspace) ← workspaceStorageKey env (Workspace parent);
  let child := forked env parent id workspace messages policy in
  _ ← MarshalIndent child;
  _ ← guard_err (clones_memory env parent child) (ErrSessionIO "clone forked tool results");
  Ok (child, None).
Definition Fork (env : Env) (parentID : string) (expectedParentRevision : Z) (st : SessionStore) :=
  commit env st (plan_fork env st parentID expectedParentRevision).

Definition plan_rename (env : Env) (st : SessionStore) (id title : string)
    : result SessionError (Session * option string) :=
  _ ← ValidateSessionID id;
  dir ← findSessionPathLocked st id;
  sess ← loadStoredSession env st dir id;
  _ ← guard_err (negb (Revision sess =? max_uint64)) ErrSessionRevisionOverflow;
  _ ← guard_err (negb (ReconcileRequired sess)) (ErrSessionReconcileRequired "session");
  '(_, canonical) ← workspaceStorageKey env (Workspace sess);
  Ok (sess <| Workspace := canonical |> <| Version := currentSessionVersion |>
           <| Revision := Revision sess + 1 |> <| LastCommittedRevision := Revision sess + 1 |>
           <| Title := title |> <| UpdatedAt := now env |>, Some dir).
Definition Rename (env : Env) (id title : string) (st : SessionStore) := commit env st (plan_rename env st id title).

(** The directory of the file to delete, when nothing stands against it. *)
Definition plan_delete (env : Env) (st : SessionStore) (id : string) (expectedRevision : option Z)
    : result SessionError (string * Session) :=
  _ ← ValidateSessionID id;
  dir ← findSessionPathLocked st id;
  sess ← loadStoredSession env st dir id;
  _ ← check_expected id expectedRevision (Revision sess);
  _ ← guard_err (opens_memory env sess) (ErrSessionIO "open durable tool result store");
  Ok (dir, sess).
(** The counts of what is cleaned up after the removal are not modelled. *)
Definition deleteSession (env : Env) (id : string) (expectedRevision : option Z) (st : SessionStore)
    : SessionStore * result SessionError Session :=
  match plan_delete env st id expectedRevision with
  | Err e => (st, Err e)
  | Ok (dir, sess) =>
      if removes env then (remove_file dir id st, Ok sess) else (st, Err (ErrSessionIO "delete session"))
  end.

(** ** Calls and histories *)

Inductive Call :=
| CallSave (sess : Session) (expected : option Z)
| CallCommitInterruptedRun (sess : Session) (expected : Z) (marker : SessionInterruption)
| CallCommitAgentRun (sess : Session) (expected : Z) (marker : option SessionInterruption) (receipt : AgentRequestReceipt)
| CallMarkInterrupted (id : string) (expected : Z) (marker : SessionInterruption)
| CallUpdateInterruptedRun (id : string) (expected : Z) (old new : SessionInterruption)
| CallMarkReconciled (id : string) (expected : Z) (runID : string) (receipt : SessionReconciliationReceipt)
| CallClose (id : string) (expected : Z)
| CallFork (parent : string) (expected : Z)
| CallRename (id title : string)
| CallDelete (id : string) (expected : option Z).

(** What a call would write, before the write. *)
Definition planned (env : Env) (c : Call) (st : SessionStore) : result SessionError (Session * option string) :=
  match c with
  | CallSave s expected => plan_save env st s expected None None
  | CallCommitInterruptedRun s expected m =>
      _ ← check_commit_marker m; plan_save env st s (Some expected) (Some m) None
  | CallCommitAgentRun s expected m r => plan_save env st s (Some expected) m (Some r)
  | CallMarkInterrupted id expected m => plan_interrupt env st id expected m
  | CallUpdateInterruptedRun id expected m m' => plan_update env st id expected m m'
  | CallMarkReconciled id expected run r => plan_reconcile env st id expected run r
  | CallClose id expected => plan_lifecycle env st id expected close
  | CallFork parent expected => plan_fork env st parent expected
  | CallRename id title => plan_rename env st id title
  | CallDelete _ _ => Err ErrSessionNotFound
  end.
Definition call (env : Env) (c : Call) (st : SessionStore) : SessionStore * result SessionError Session :=
  match c with
  | CallSave s expected => save env s expected None None st
  | CallCommitInterruptedRun s expected m => CommitInterruptedRun env s expected m st
  | CallCommitAgentRun s expected m r => CommitAgentRun env s expected m r st
  | CallMarkInterrupted id expected m => MarkInterrupted env id expected m st
  | CallUpdateInterruptedRun id expected m m' => UpdateInterruptedRun env id expected m m' st
  | CallMarkReconciled id expected run r => MarkReconciledWithReceipt env id expected run r st
  | CallClose id expected => Close env id expected st
  | CallFork parent expected => Fork env parent expected st
  | CallRename id title => Rename env id title st
  | CallDelete id expected => deleteSession env id expected st
  end.
Definition run (st : SessionStore) (history : list (Env * Call)) : SessionStore :=
  fold_left (λ st ec, (call ec.1 ec.2 st).1) history st.

(** ** Lemmas: finding a session *)

Record store_wf (st : SessionStore) : Prop := {
  wf_nodup : NoDup (entries st);
  wf_listed dir id f : files st !! (dir, id) = Some f → dir ∈ entries st;
}.

(** The only file of a session. *)
Definition sole_file (st : SessionStore) (id dir : string) (f : StoredFile) : Prop :=
  files st !! (dir, id) = Some f ∧ ∀ d, d ≠ dir → files st !! (d, id) = None.
Definition no_file (st : SessionStore) (id : string) : Prop := ∀ d, files st !! (d, id) = None.

Lemma find_in_found fs id dirs d dir :
  find_in fs id dirs (Some d) = Ok dir ↔ dir = d ∧ ∀ d', d' ∈ dirs → fs !! (d', id) = None.
Proof.
  induction dirs as [|d' dirs IH]; simpl.
  { split; [intros [= ->]; split; [done|]; intros ? []%elem_of_nil|by intros [-> _]]. }
  destruct (fs !! (d', id)) as [[|c]|] eqn:E; [split; [done|]|split; [done|]|].
  - intros [_ H]. rewrite H in E; [done|left].
  - intros [_ H]. rewrite H in E; [done|left].
  - rewrite IH. split; intros [-> H]; (split; [done|]).
    + intros x [->|Hx]%elem_of_cons; auto.
    + intros x Hx. apply H. by right.
Qed.

Lemma find_in_ok fs id dirs dir :
  NoDup dirs →
  find_in fs id dirs None = Ok dir ↔
  dir ∈ dirs ∧ (∃ c, fs !! (dir, id) = Some (Regular c)) ∧
  ∀ d, d ∈ dirs → d ≠ dir → fs !! (d, id) = None.
Proof.
  induction dirs as [|d' dirs IH]; intros Hnd; simpl.
  { split; [done|]. by intros [[]%elem_of_nil _]. }
  apply list.NoDup_cons in Hnd as [Hni Hnd]. specialize (IH Hnd).
  destruct (fs !! (d', id)) as [[|c]|] eqn:E.
  - split; [done|]. intros (Hin & [c Hc] & Hall). apply elem_of_cons in Hin as [->|Hin]; [congruence|].
    rewrite Hall in E; [done|left|]. intros ->. done.
  - rewrite find_in_found. split.
    + intros [-> H]. split_and!; [left|eauto|]. intros d [->|Hd]%elem_of_cons Hne; [done|auto].
    + intros (Hin & _ & Hall).
      assert (dir = d') as ->.
      { destruct (decide (dir = d')) as [|Hne]; [done|]. rewrite (Hall d') in E; [done|left|done]. }
      split; [done|]. intros d Hd. apply Hall; [by right|]. intros ->. done.
  - rewrite IH. split; intros (Hin & Hc & Hall).
    + split_and!; [by right|done|]. intros d [->|Hd]%elem_of_cons Hne; auto.
    + apply elem_of_cons in Hin as [->|Hin]; [destruct Hc; congruence|].
      split_and!; [done..|]. intros d Hd. apply Hall. by right.
Qed.

Lemma find_in_none fs id dirs :
  find_in fs id dirs None = Err ErrSessionNotFound ↔ ∀ d, d ∈ dirs → fs !! (d, id) = None.
Proof.
  assert (Hs : ∀ dirs d, find_in fs id dirs (Some d) ≠ Err ErrSessionNotFound).
  { clear dirs. induction dirs as [|d' dirs IH]; intros d; simpl; [done|]. case_match; [|done]. by case_match. }
  induction dirs as [|d' dirs IH]; simpl.
  { split; [|done]. intros _ d []%elem_of_nil. }
  destruct (fs !! (d', id)) as [[|c]|] eqn:E.
  - split; [done|]. intros H. rewrite H in E; [done|left].
  - split; [by intros ?%Hs|]. intros H. rewrite H in E; [done|left].
  - rewrite IH. split; intros H d; [intros [->|Hd]%elem_of_cons; auto|intros Hd; apply H; by right].
Qed.

Lemma find_ok st id dir :
  store_wf st →
  findSessionPathLocked st id = Ok dir ↔
  ValidateSessionID id = Ok tt ∧ initErr st = false ∧ ∃ c, sole_file st id dir (Regular c).
Proof.
  intros [Hnd Hl]. unfold findSessionPathLocked, sole_file.
  destruct (ValidateSessionID id) as [[]|e]; simpl; [|naive_solver].
  destruct (initErr st); [naive_solver|]. rewrite find_in_ok by done. split.
  - intros (Hin & [c Hc] & Hall). split_and!; [done..|]. exists c. split; [done|]. intros d Hd.
    destruct (files st !! (d, id)) as [f|] eqn:E; [|done]. rewrite <-E. eauto.
  - intros (_ & _ & c & Hc & Hall). split_and!; eauto.
Qed.

Lemma find_none st id :
  store_wf st →
  findSessionPathLocked st id = Err ErrSessionNotFound ↔
  ValidateSessionID id = Ok tt ∧ initErr st = false ∧ no_file st id.
Proof.
  intros [Hnd Hl]. unfold findSessionPathLocked, no_file.
  destruct (ValidateSessionID id) as [[]|e] eqn:E; simpl.
  - destruct (initErr st); [naive_solver|]. rewrite find_in_none. split; [|naive_solver].
    intros H. split_and!; [done..|]. intros d.
    destruct (files st !! (d, id)) as [f|] eqn:Ef; [|done]. rewrite <-Ef. eauto.
  - split; [|naive_solver]. intros [= ->]. unfold ValidateSessionID in E. apply guard_err_err in E as [_ E]. done.
Qed.

Lemma load_ok env st dir id s :
  loadStoredSession env st dir id = Ok s ↔
  ∃ raw, files st !! (dir, id) = Some (Regular (Decoded raw)) ∧ supported (Version raw) = true ∧
    check_decoded raw id = Ok s ∧ validateSessionWorkspacePath env dir (Workspace s) = Ok tt.
Proof.
  unfold loadStoredSession, decode_stored.
  destruct (files st !! (dir, id)) as [[|[[v|]|raw]]|].
  1-3, 5: split; [try case_match; done|intros (? & [=] & _)].
  split.
  - intros H. exists raw. destruct (supported (Version raw)); [|done].
    cbn [negb] in H. apply result_bind_ok in H as (s' & Hc & H).
    destruct (validateSessionWorkspacePath env dir (Workspace s')) as [[]|e] eqn:Ew; [|done].
    injection H as <-. done.
  - intros (raw' & [= <-] & -> & -> & Hw). cbn [negb mbind result_bind]. by rewrite Hw.
Qed.

(** ** Lemmas: writing *)

(** What the plan of a write says of the file it replaces. *)
Definition replaces (st : SessionStore) (id : string) (existing : option string) : Prop :=
  match existing with
  | Some dir => ∃ c, sole_file st id dir (Regular c)
  | None => no_file st id
  end.

Lemma add_entry_wf dir st : store_wf st → store_wf (add_entry dir st) ∧ dir ∈ entries (add_entry dir st) ∧
  files (add_entry dir st) = files st ∧ initErr (add_entry dir st) = initErr st ∧
  ∀ d, d ∈ entries st → d ∈ entries (add_entry dir st).
Proof.
  intros [Hnd Hl]. unfold add_entry. case_bool_decide as Hin; [by split_and!|].
  remember (dir :: entries st) as l eqn:El. simpl. split_and!; try done.
  - split; simpl.
    + rewrite stable_sort_perm, El. by constructor.
    + intros d id f Hf. rewrite elem_of_stable_sort, El. right. eauto.
  - rewrite elem_of_stable_sort, El. left.
  - intros d Hd. rewrite elem_of_stable_sort, El. by right.
Qed.

Lemma write_file_wf dir id data st : store_wf st → dir ∈ entries st → store_wf (write_file dir id data st).
Proof.
  intros [Hnd Hl] Hin. split; simpl; [done|]. intros d id' f.
  destruct (decide ((dir, id) = (d, id'))) as [[= <- <-]|Hne]; [done|]. rewrite lookup_insert_ne by done. eauto.
Qed.

Lemma remove_file_wf dir id st : store_wf st → store_wf (remove_file dir id st).
Proof.
  intros [Hnd Hl]. split; simpl; [done|]. intros d id' f Hf%lookup_delete_Some. naive_solver.
Qed.

(** Every outcome of a write. *)
Lemma persist_cases env sess data existing st st' r :
  store_wf st → persistSessionLocked env sess data existing st = (st', r) →
  store_wf st' ∧ initErr st' = initErr st ∧
  ((files st' = files st ∧ r ≠ Ok tt) ∨
   ∃ dir canonical, workspaceStorageKey env (Workspace sess) = Ok (dir, canonical) ∧
     ValidateSessionID (ID sess) = Ok tt ∧
     let new := <[(dir, ID sess) := Regular (Decoded data)]> (files st) in
     (r = Ok tt ∧
      files st' = match existing with
                  | Some old => if String.eqb old dir then new else delete (old, ID sess) new
                  | None => new
                  end) ∨
     (∃ old, existing = Some old ∧ old ≠ dir ∧ r ≠ Ok tt ∧ removes env = false ∧
        files st' = if rolls_back env then delete (dir, ID sess) new else new)).
Proof.
  intros Hwf. unfold persistSessionLocked.
  destruct (workspaceStorageKey env (Workspace sess)) as [[dir canonical]|e]; [|intros [= <- <-]; by auto].
  destruct (mkdirs env); simpl; [|intros [= <- <-]; by auto].
  destruct (add_entry_wf dir st Hwf) as (Hwf1 & Hin & Hf & Hi & _).
  destruct (ValidateSessionID (ID sess)) as [[]|e] eqn:Hid.
  2:{ intros [= <- <-]. split_and!; [done..|left]. by rewrite Hf. }
  destruct (writes env); simpl.
  2:{ intros [= <- <-]. split_and!; [done..|left]. by rewrite Hf. }
  pose proof (write_file_wf dir (ID sess) data _ Hwf1 Hin) as Hwf2.
  destruct existing as [old|].
  2:{ intros [= <- <-]. split_and!; [done..|right]. exists dir, canonical. split_and!; [done..|left].
      split; [done|]. simpl. by rewrite Hf. }
  destruct (String.eqb_spec old dir) as [->|Hne].
  { intros [= <- <-]. split_and!; [done..|right]. exists dir, canonical. split_and!; [done..|left].
    split; [done|]. rewrite String.eqb_refl. simpl. by rewrite Hf. }
  destruct (removes env) eqn:Hr.
  { intros [= <- <-]. split_and!; [by apply remove_file_wf|done|right]. exists dir, canonical.
    split_and!; [done..|left]. split; [done|]. rewrite (proj2 (String.eqb_neq _ _) Hne). simpl. by rewrite Hf. }
  destruct (rolls_back env) eqn:Hb; intros [= <- <-].
  - split_and!; [by apply remove_file_wf|done|right]. exists dir, canonical. split_and!; [done..|right].
    exists old. split_and!; [done..|]. simpl. by rewrite Hf.
  - split_and!; [done..|right]. exists dir, canonical. split_and!; [done..|right].
    exists old. split_and!; [done..|]. simpl. by rewrite Hf.
Qed.

(** A write changes the files of no other session. *)
Lemma persist_other env sess data existing st st' r d id :
  store_wf st → persistSessionLocked env sess data existing st = (st', r) → id ≠ ID sess →
  files st' !! (d, id) = files st !! (d, id).
Proof.
  intros Hwf Hp Hne. destruct (persist_cases _ _ _ _ _ _ _ Hwf Hp) as (_ & _ & [[-> _]|H]); [done|].
  destruct H as (dir & canonical & _ & _ & [[_ ->]|(old & _ & _ & _ & _ & ->)]); repeat case_match;
    rewrite ?lookup_delete_ne, ?lookup_insert_ne by congruence; done.
Qed.

Lemma persist_done env sess data existing st st' :
  store_wf st → replaces st (ID sess) existing → persistSessionLocked env sess data existing st = (st', Ok tt) →
  ∃ dir canonical, workspaceStorageKey env (Workspace sess) = Ok (dir, canonical) ∧
    ValidateSessionID (ID sess) = Ok tt ∧ sole_file st' (ID sess) dir (Regular (Decoded data)).
Proof.
  intros Hwf Hr Hp. destruct (persist_cases _ _ _ _ _ _ _ Hwf Hp) as (_ & _ & [[_ []]|H]); [done|].
  destruct H as (dir & canonical & Hk & Hid & [[_ Hf]|(old & _ & _ & [] & _)]); [|done].
  exists dir, canonical. split_and!; [done..|]. unfold sole_file. rewrite Hf.
  destruct existing as [old|]; simpl in Hr.
  - destruct Hr as (c & Hc & Hall). destruct (String.eqb_spec old dir) as [->|Hne].
    + split; [apply lookup_insert_eq|]. intros d Hd. rewrite lookup_insert_ne by congruence. auto.
    + split; [by rewrite lookup_delete_ne, lookup_insert_eq by congruence|]. intros d Hd.
      destruct (decide (d = old)) as [->|Hd']; [apply lookup_delete_eq|].
      rewrite lookup_delete_ne, lookup_insert_ne by congruence. auto.
  - split; [apply lookup_insert_eq|]. intros d Hd. rewrite lookup_insert_ne by congruence. apply Hr.
Qed.

Lemma persist_failed env sess data existing st st' r :
  store_wf st → replaces st (ID sess) existing → persistSessionLocked env sess data existing st = (st', r) →
  r ≠ Ok tt → removes env || rolls_back env = true → files st' = files st.
Proof.
  intros Hwf Hr Hp Hne Hrb. destruct (persist_cases _ _ _ _ _ _ _ Hwf Hp) as (_ & _ & [[-> _]|H]); [done|].
  destruct H as (dir & canonical & _ & _ & [[-> _]|(old & -> & Hod & _ & Hrm & ->)]); [done|].
  rewrite Hrm in Hrb. simpl in Hrb. rewrite Hrb. destruct Hr as (c & Hc & Hall).
  apply map_eq. intros [d id]. destruct (decide ((d, id) = (dir, ID sess))) as [[= -> ->]|Hk].
  - rewrite lookup_delete_eq. symmetry. by apply Hall.
  - by rewrite lookup_delete_ne, lookup_insert_ne by congruence.
Qed.

(** ** Lemmas: what is planned *)

Definition stored (env : Env) (st : SessionStore) (id : string) (old : Session) : Prop :=
  ∃ dir, findSessionPathLocked st id = Ok dir ∧ loadStoredSession env st dir id = Ok old.

Lemma check_expected_ok id expected current :
  check_expected id expected current = Ok tt ↔ ∀ e, expected = Some e → e = current.
Proof.
  unfold check_expected. destruct expected as [e|]; [|naive_solver].
  rewrite guard_err_ok, Z.eqb_eq. naive_solver.
Qed.

Lemma or_else_cases a b : or_else a b = a ∨ or_else a b = b.
Proof. unfold or_else. case_match; auto. Qed.

(** Merging changes the four fields of an association only. *)
Lemma merge_associations_spec c e :
  ∃ w p pr sg, merge_associations c e =
    c <| WorkstreamID := w |> <| PlanID := p |> <| PlanRevision := pr |> <| StageID := sg |> ∧
    (w = WorkstreamID c ∨ w = WorkstreamID e) ∧ (p = PlanID c ∨ p = PlanID e) ∧
    (sg = StageID c ∨ sg = StageID e).
Proof.
  pose proof (or_else_cases (WorkstreamID c) (WorkstreamID e)).
  pose proof (or_else_cases (StageID c) (StageID e)).
  unfold merge_associations. cbn. repeat case_match; do 4 eexists; (split; [reflexivity|]); auto.
Qed.

Lemma merge_existing_ok env c e expected c' :
  merge_existing env c e expected = Ok c' →
  (∀ x, expected = Some x → x = Revision e) ∧ Revision e ≠ max_uint64 ∧
  ID c' = ID c ∧ Workspace c' = Workspace e ∧
  Messages c' = preserveSessionImageReferences (Messages c) (Messages e) ∧
  LifecycleStatus c' = LifecycleStatus c ∧ ReconcileRequired c' = ReconcileRequired c ∧
  Interruption c' = Interruption c ∧ LastReconciliation c' = LastReconciliation c ∧
  LastRunTerminal c' = LastRunTerminal c ∧ ExecutionPolicy c' = ExecutionPolicy c ∧
  (WorkstreamID c' = WorkstreamID c ∨ WorkstreamID c' = WorkstreamID e) ∧
  (PlanID c' = PlanID c ∨ PlanID c' = PlanID e) ∧ (StageID c' = StageID c ∨ StageID c' = StageID e) ∧
  (Provider c' = Provider c ∨ Provider c' = Provider e) ∧ (Model c' = Model c ∨ Model c' = Model e) ∧
  ParentSessionID c' = ParentSessionID e ∧ ParentRevision c' = ParentRevision e.
Proof.
  unfold merge_existing. intros H.
  apply result_bind_ok in H as ([] & H1 & H). apply result_bind_ok in H as ([] & H2 & H).
  apply result_bind_ok in H as ([] & _ & H).
  rewrite check_expected_ok in H1. apply guard_err_ok in H2. split_bools. apply Z.eqb_neq in H2.
  destruct (merge_associations_spec (c <| Messages := preserveSessionImageReferences (Messages c) (Messages e) |>
      <| Workspace := Workspace e |>) e) as (w & p & pr & sg & Hm & Hw & Hp & Hs).
  rewrite Hm in H. cbn in H, Hw, Hp, Hs. clear Hm.
  pose proof (or_else_cases (Provider c) (Provider e)) as Hpr.
  pose proof (or_else_cases (Model c) (Model e)) as Hmo.
  destruct (String.eqb (ParentSessionID c) "" && (ParentRevision c =? 0)).
  - injection H as <-. by split_and!.
  - destruct (negb _ || _) eqn:E; [done|]. injection H as <-. split_bools. rewrite Z.eqb_eq in *. by split_and!.
Qed.

(** Preparing the lifecycle changes its five fields only. *)
Definition with_lifecycle (c : Session) (status : string) (committed : Z) (marker : option SessionInterruption)
    (receipt : option SessionReconciliationReceipt) : Session :=
  c <| LifecycleStatus := status |> <| ReconcileRequired := false |> <| Interruption := marker |>
    <| LastCommittedRevision := committed |> <| LastReconciliation := receipt |>.

Lemma prepare_commit_ok c existing m c' :
  prepareInterruptedRunCommit c existing m = Ok c' →
  ∃ old, existing = Some old ∧ LifecycleStatus old = SessionLifecycleInterrupted ∧
    ReconcileRequired old = true ∧ Interruption old = Some m ∧
    c' = with_lifecycle c SessionLifecycleActive (LastCommittedRevision old) None (LastReconciliation old).
Proof.
  unfold prepareInterruptedRunCommit. destruct existing as [old|]; [|done].
  destruct (_ || _) eqn:E; [done|]. split_bools.
  destruct (sameSessionInterruption _ _) eqn:Hm; [|done]. apply bool_decide_eq_true in Hm.
  intros [= <-]. exists old. by split_and!.
Qed.

Lemma prepare_save_ok c existing c' :
  prepareSessionLifecycleForSave c existing = Ok c' →
  match existing with
  | Some old =>
      ReconcileRequired old = false ∧ LifecycleStatus old ≠ SessionLifecycleClosed ∧
      c' = with_lifecycle c (LifecycleStatus old) (LastCommittedRevision old) (Interruption old) (LastReconciliation old)
  | None => c' = with_lifecycle c SessionLifecycleActive 0 None None
  end.
Proof.
  unfold prepareSessionLifecycleForSave. destruct existing as [old|].
  - destruct (ReconcileRequired old) eqn:Hr; [done|].
    destruct (String.eqb_spec (LifecycleStatus old) SessionLifecycleClosed); [done|].
    intros H. split_and!; [done..|].
    destruct (String.eqb (LifecycleStatus c) "").
    + destruct (ReconcileRequired c || _); [done|]. by injection H as <-.
    + destruct (_ || negb (sameSessionInterruption _ _)) eqn:E; [done|]. injection H as <-.
      split_bools. unfold sameSessionInterruption in *. split_bools.
      match goal with H : Bool.eqb _ _ = true |- _ => apply eqb_prop in H end.
      destruct c; simpl in *. by subst.
  - destruct (_ && _); [done|]. destruct (_ || _) eqn:E; [done|]. split_bools.
    destruct (LastReconciliation c) eqn:Hl; [done|]. intros [= <-]. destruct c; simpl in *. by subst.
Qed.

(** The candidate once it is merged: what its checks say, and what it will be stored as. *)
Lemma save_candidate_ok env c existing expected marker receipt c' :
  save_candidate env c existing expected marker receipt = Ok c' →
  ID c' = ID c ∧ Version c' = currentSessionVersion ∧ LastCommittedRevision c' = Revision c' ∧
  ReconcileRequired c' = false ∧
  check_policy_of c' = Ok tt ∧ validateSessionAssociationIDs c' = Ok tt ∧
  ValidateSessionImageReferences (Messages c') = Ok tt ∧
  validateOptionalDurableRunTerminal (LastRunTerminal c') = Ok tt ∧
  validateSessionParentMetadata (ID c') (ParentSessionID c') (ParentRevision c') = Ok tt ∧
  validateAgentRequestReceipt (LastAgentRequest c') (Revision c') (Z.of_nat (length (Messages c'))) = Ok tt ∧
  LastAgentRequest c' = match receipt with
    | Some r => Some (r <| CommittedRevision := Revision c' |>) | None => existing ≫= LastAgentRequest end ∧
  match existing with
  | None => marker = None ∧ Revision c' = 1 ∧ LifecycleStatus c' = SessionLifecycleActive ∧
      Interruption c' = None ∧ LastReconciliation c' = None ∧ Workspace c' = Workspace c
  | Some old =>
      (∀ x, expected = Some x → x = Revision old) ∧ Revision old ≠ max_uint64 ∧
      Revision c' = Revision old + 1 ∧ Workspace c' = Workspace old ∧
      LastReconciliation c' = LastReconciliation old ∧
      match marker with
      | Some m => LifecycleStatus old = SessionLifecycleInterrupted ∧ ReconcileRequired old = true ∧
          Interruption old = Some m ∧ LifecycleStatus c' = SessionLifecycleActive ∧ Interruption c' = None
      | None => ReconcileRequired old = false ∧ LifecycleStatus old ≠ SessionLifecycleClosed ∧
          LifecycleStatus c' = LifecycleStatus old ∧ Interruption c' = Interruption old
      end
  end.
Proof.
  unfold save_candidate. intros H. apply result_bind_ok in H as (c1 & Hm & H).
  apply result_bind_ok in H as ([] & Hpol & H). apply result_bind_ok in H as ([] & Has & H).
  apply result_bind_ok in H as ([] & Him & H). apply result_bind_ok in H as ([] & Hte & H).
  apply result_bind_ok in H as (c2 & Hl & H). apply result_bind_ok in H as ([] & Hpa & H).
  apply result_bind_ok in H as ([] & Hre & H). injection H as <-.
  assert (Hc1 : ID c1 = ID c ∧ match existing with
    | Some old => (∀ x, expected = Some x → x = Revision old) ∧ Revision old ≠ max_uint64 ∧ Workspace c1 = Workspace old
    | None => c1 = c end).
  { destruct existing as [old|]; [|by injection Hm as <-]. apply merge_existing_ok in Hm. naive_solver. }
  clear Hm. destruct Hc1 as [Hid Hex].
  set (c1' := merge_run c1 existing receipt) in *.
  assert (Hrun : ID c1' = ID c1 ∧ Workspace c1' = Workspace c1 ∧ LastAgentRequest c1' = match receipt with
    | Some r => Some (r <| CommittedRevision := 0 |>) | None => existing ≫= LastAgentRequest end).
  { subst c1'. unfold merge_run. by destruct receipt. }
  clearbody c1'. destruct Hrun as (Hid' & Hws & Hreq).
  assert (Hlife : ∃ status committed i lr, c2 = with_lifecycle c1' status committed i lr ∧
    match existing with
    | None => marker = None ∧ status = SessionLifecycleActive ∧ i = None ∧ lr = None
    | Some old => lr = LastReconciliation old ∧
        match marker with
        | Some m => LifecycleStatus old = SessionLifecycleInterrupted ∧ ReconcileRequired old = true ∧
            Interruption old = Some m ∧ status = SessionLifecycleActive ∧ i = None
        | None => ReconcileRequired old = false ∧ LifecycleStatus old ≠ SessionLifecycleClosed ∧
            status = LifecycleStatus old ∧ i = Interruption old
        end
    end).
  { destruct marker as [m|].
    - apply prepare_commit_ok in Hl as (old & -> & ? & ? & ? & ->). do 4 eexists. by split_and!.
    - apply prepare_save_ok in Hl. destruct existing as [old|].
      + destruct Hl as (? & ? & ->). do 4 eexists. by split_and!.
      + subst c2. do 4 eexists. by split_and!. }
  destruct Hlife as (status & committed & i & lr & -> & Hlife).
  unfold stamp_revision in *. destruct receipt as [r|]; destruct existing as [old|]; cbn in *;
    repeat match goal with H : _ ∧ _ |- _ => destruct H end; subst;
    (split_and!; try done; try congruence).
  all: destruct marker; repeat match goal with H : _ ∧ _ |- _ => destruct H end; try done; by split_and!.
Qed.

Lemma corrupt_if_ok {A} (r : result SessionError A) what a : corrupt_if r what = Ok a ↔ r = Ok a.
Proof. unfold corrupt_if. destruct r; naive_solver. Qed.

Lemma normalize_fields raw s :
  normalizeSessionLifecycle raw = Ok s →
  ∃ status committed, s = raw <| LifecycleStatus := status |> <| LastCommittedRevision := committed |>.
Proof.
  unfold normalizeSessionLifecycle.
  destruct (Version raw =? 0). { intros [= <-]. exists SessionLifecycleActive, (LastCommittedRevision raw). by destruct raw. }
  destruct (String.eqb _ _). { case_match; [done|]. intros [= <-]. eauto. }
  destruct (_ <? _); [done|]. intros H. apply result_bind_ok in H as ([] & _ & H).
  apply result_bind_ok in H as ([] & _ & H). injection H as <-.
  exists (LifecycleStatus raw), (LastCommittedRevision raw). by destruct raw.
Qed.

Lemma check_decoded_fields raw id s :
  check_decoded raw id = Ok s →
  (∃ status committed, s = raw <| LifecycleStatus := status |> <| LastCommittedRevision := committed |>) ∧
  normalizeSessionLifecycle raw = Ok s ∧ ValidateSessionID (ID s) = Ok tt ∧ (id ≠ "" → ID s = id).
Proof.
  unfold check_decoded. intros H.
  repeat match goal with
  | H : (_ ≫= _) = Ok _ |- _ => apply result_bind_ok in H as (? & ? & H)
  | H : corrupt_if _ _ = Ok _ |- _ => apply corrupt_if_ok in H
  | H : Ok _ = Ok _ |- _ => injection H as ->
  end.
  repeat match goal with x : unit |- _ => destruct x end.
  split_and!; [by eapply normalize_fields|done..|]. intros Hid.
  match goal with H : guard_err (negb (negb (String.eqb id "") && _)) _ = _ |- _ => apply guard_err_ok in H; rename H into Hg end.
  rewrite negb_andb, !negb_involutive, orb_true_iff, !String.eqb_eq in Hg. naive_solver.
Qed.

Lemma valid_id_nonempty id : ValidateSessionID id = Ok tt → id ≠ "".
Proof. by intros H ->. Qed.

Lemma load_fields env st dir id s :
  ValidateSessionID id = Ok tt → loadStoredSession env st dir id = Ok s →
  ID s = id ∧ ∃ raw, files st !! (dir, id) = Some (Regular (Decoded raw)) ∧
    ReconcileRequired raw = ReconcileRequired s ∧ Revision raw = Revision s.
Proof.
  intros Hv (raw & Hf & _ & Hc & _)%load_ok.
  apply check_decoded_fields in Hc as ((status & committed & Hs) & _ & _ & Hid).
  split; [by apply Hid, valid_id_nonempty|]. exists raw. by subst s.
Qed.

Lemma find_existing_ok env st id expected found :
  find_existing env st id expected = Ok found →
  match found with
  | Some (dir, old) => findSessionPathLocked st id = Ok dir ∧ loadStoredSession env st dir id = Ok old
  | None => findSessionPathLocked st id = Err ErrSessionNotFound ∧ ∀ e, expected = Some e → e = 0
  end.
Proof.
  unfold find_existing. destruct (findSessionPathLocked st id) as [dir|e] eqn:Hf.
  - intros H. apply result_bind_ok in H as (old & Hl & H). by injection H as <-.
  - destruct e; try done. intros H. apply result_bind_ok in H as ([] & Hl & H). injection H as <-.
    split; [done|]. by eapply check_expected_ok.
Qed.

Lemma allocate_ok env st id : allocateSessionIDLocked env st = Ok id → findSessionPathLocked st id = Err ErrSessionNotFound.
Proof.
  unfold allocateSessionIDLocked. generalize 0%nat, 16%nat. intros attempt left_. revert attempt.
  induction left_ as [|n IH]; intros attempt; simpl; [done|].
  destruct (generate env attempt) as [id'|]; [|done]. intros H. apply result_bind_ok in H as ([] & _ & H).
  destruct (findSessionPathLocked st id') as [d|e] eqn:Hf; [by eapply IH|].
  destruct e; try done; try (by eapply IH). by injection H as <-.
Qed.

Lemma place_ok env st c existing c' :
  place env st c existing = Ok c' →
  ∃ workspace key canonical, c' = c <| Workspace := canonical |> ∧
    workspaceStorageKey env workspace = Ok (key, canonical) ∧
    workspace = (if String.eqb (Workspace c) "" then default "" (getwd env) else Workspace c).
Proof.
  unfold place. intros H. apply result_bind_ok in H as (w & Hw & H).
  apply result_bind_ok in H as ([key canonical] & Hk & H).
  apply result_bind_ok in H as ([] & _ & H). apply result_bind_ok in H as ([] & _ & H).
  injection H as <-. exists w, key, canonical. split_and!; [done..|].
  destruct (String.eqb _ _); [|by injection Hw as <-]. destruct (getwd env); [|done]. by injection Hw as <-.
Qed.

(** ** The plan of a call *)

(** The revision a call expects its session to have. *)
Definition expected_of (c : Call) : option Z :=
  match c with
  | CallSave _ e | CallDelete _ e => e
  | CallCommitInterruptedRun _ e _ | CallCommitAgentRun _ e _ _ | CallMarkInterrupted _ e _
  | CallUpdateInterruptedRun _ e _ _ | CallMarkReconciled _ e _ _ | CallClose _ e => Some e
  | CallFork _ _ | CallRename _ _ => None
  end.

(** The calls that end the interruption of [old]: the commit of the run whose marker it
    has, a reconciliation whose receipt is what a fresh assessment finds, and deletion. *)
Definition releases (env : Env) (c : Call) (old : Session) : Prop :=
  match c with
  | CallCommitInterruptedRun _ e m | CallCommitAgentRun _ e (Some m) _ =>
      e = Revision old ∧ Interruption old = Some m
  | CallMarkReconciled _ e run receipt =>
      e = Revision old ∧ (∃ m, Interruption old = Some m ∧ RunID m = run) ∧
      ∃ a, assessSessionReconciliationLocked (disk env) old = Ok a ∧ receipt_matches a receipt = true ∧
        (ManualConfirmationRequired a = true → RcManualConfirmationAcknowledged receipt = true)
  | CallDelete id e => id = ID old ∧ ∀ r, e = Some r → r = Revision old
  | _ => False
  end.

Definition planned_write (env : Env) (st : SessionStore) (c : Call) (new : Session) (existing : option string) : Prop :=
  match existing with
  | Some dir => ∃ old, findSessionPathLocked st (ID new) = Ok dir ∧ loadStoredSession env st dir (ID new) = Ok old ∧
      Revision old ≠ max_uint64 ∧ Revision new = Revision old + 1 ∧
      (∀ e, expected_of c = Some e → e = Revision old) ∧
      (ReconcileRequired old = true → ReconcileRequired new = true ∨ releases env c old)
  | None => findSessionPathLocked st (ID new) = Err ErrSessionNotFound ∧ Revision new = 1 ∧
      ∀ e, expected_of c = Some e → e = 0
  end.

Lemma plan_save_ok env st sess expected marker receipt new existing :
  plan_save env st sess expected marker receipt = Ok (new, existing) →
  match existing with
  | Some dir => ∃ old, findSessionPathLocked st (ID new) = Ok dir ∧ loadStoredSession env st dir (ID new) = Ok old ∧
      Revision old ≠ max_uint64 ∧ Revision new = Revision old + 1 ∧
      (∀ e, expected = Some e → e = Revision old) ∧
      (ReconcileRequired old = true → ∃ m, marker = Some m ∧ Interruption old = Some m)
  | None => findSessionPathLocked st (ID new) = Err ErrSessionNotFound ∧ Revision new = 1 ∧
      ∀ e, expected = Some e → e = 0
  end.
Proof.
  unfold plan_save. intros H. apply result_bind_ok in H as ([] & _ & H).
  apply result_bind_ok in H as (id & _ & H). apply result_bind_ok in H as (found & Hf & H).
  apply result_bind_ok in H as (c & Hc & H). apply result_bind_ok in H as (c' & Hp & H).
  injection H as <- <-. apply find_existing_ok in Hf.
  apply save_candidate_ok in Hc as (Hid & _ & _ & _ & _ & _ & _ & _ & _ & _ & _ & Hold).
  apply place_ok in Hp as (w & key & canonical & -> & _). cbn in Hid |- *. rewrite Hid.
  destruct found as [[dir old]|]; cbn in Hold |- *.
  - destruct Hf as [Hf Hl], Hold as (He & Hmax & Hrev & _ & _ & Hm). exists old. split_and!; try done.
    intros Hr. destruct marker as [m|]; [|destruct Hm; congruence]. destruct Hm as (_ & _ & Hm & _). eauto.
  - destruct Hf as [Hf He], Hold as (_ & Hrev & _). by split_and!.
Qed.

(** A transition of the lifecycle keeps what a session is. *)
Definition keeps_identity (transition : Session → result SessionError Session) : Prop :=
  ∀ s s', transition s = Ok s' → ID s' = ID s ∧ Revision s' = Revision s.

(** The next revision after a transition, before it is checked. *)
Definition bumped (env : Env) (s : Session) : Session :=
  let s := s <| Version := currentSessionVersion |> <| Revision := Revision s + 1 |> in
  let s := if ReconcileRequired s then s else s <| LastCommittedRevision := Revision s |> in
  s <| UpdatedAt := now env |>.

Lemma plan_lifecycle_ok env st id expected transition new existing :
  keeps_identity transition → plan_lifecycle env st id expected transition = Ok (new, existing) →
  ∃ dir old s', existing = Some dir ∧ findSessionPathLocked st id = Ok dir ∧
    loadStoredSession env st dir id = Ok old ∧ transition old = Ok s' ∧
    normalizeSessionLifecycle (bumped env s') = Ok new ∧
    ID new = id ∧ Revision old = expected ∧ Revision old ≠ max_uint64 ∧ Revision new = Revision old + 1 ∧
    ReconcileRequired new = ReconcileRequired s'.
Proof.
  intros Hkeep. unfold plan_lifecycle. intros H. apply result_bind_ok in H as ([] & Hv & H).
  apply result_bind_ok in H as ([] & _ & H). apply result_bind_ok in H as (dir & Hf & H).
  apply result_bind_ok in H as (old & Hl & H). apply result_bind_ok in H as ([] & _ & H).
  apply result_bind_ok in H as ([] & Hrev & H). apply guard_err_ok, Z.eqb_eq in Hrev.
  apply result_bind_ok in H as ([] & Hmax & H). apply guard_err_ok, negb_true_iff, Z.eqb_neq in Hmax.
  apply result_bind_ok in H as (s' & Ht & H). apply result_bind_ok in H as (new' & Hn & H).
  injection H as <- <-. destruct (Hkeep _ _ Ht) as [Hi Hr].
  destruct (load_fields _ _ _ _ _ Hv Hl) as [Hid _].
  exists dir, old, s'. split; [done|]. split; [done|]. split; [done|]. split; [done|]. split; [exact Hn|].
  apply normalize_fields in Hn as (status & committed & ->).
  destruct (ReconcileRequired s') eqn:Err; cbn; rewrite ?Err; cbn; by split_and!; congruence || lia.
Qed.

Lemma interrupt_ok m s s' :
  interrupt m s = Ok s' →
  ReconcileRequired s = false ∧ s' = s <| LifecycleStatus := SessionLifecycleInterrupted |>
    <| LastCommittedRevision := Revision s |> <| ReconcileRequired := true |> <| Interruption := Some m |>.
Proof.
  unfold interrupt. case_match; [done|]. destruct (ReconcileRequired s); [done|]. by intros [= <-].
Qed.
Lemma replace_marker_ok m m' s s' :
  replace_marker m m' s = Ok s' →
  LifecycleStatus s = SessionLifecycleInterrupted ∧ ReconcileRequired s = true ∧ Interruption s = Some m ∧
  s' = s <| Interruption := Some m' |>.
Proof.
  unfold replace_marker, sameSessionInterruption. destruct (_ || _) eqn:E; [done|]. split_bools.
  destruct (bool_decide _) eqn:Hm; [|done]. apply bool_decide_eq_true in Hm. by intros [= <-].
Qed.
Lemma reconcile_ok env run receipt s s' :
  reconcile env run receipt s = Ok s' →
  ReconcileRequired s = true ∧ (∃ m, Interruption s = Some m ∧ RunID m = run) ∧
  (∃ a, assessSessionReconciliationLocked (disk env) s = Ok a ∧ receipt_matches a receipt = true ∧
     (ManualConfirmationRequired a = true → RcManualConfirmationAcknowledged receipt = true)) ∧
  s' = s <| LifecycleStatus := SessionLifecycleActive |> <| ReconcileRequired := false |>
         <| Interruption := None |> <| LastReconciliation := Some receipt |>.
Proof.
  unfold reconcile. destruct (Interruption s) as [m|]; [|done].
  destruct (negb (ReconcileRequired s) || _) eqn:E; [done|]. split_bools.
  destruct (_ || negb (String.eqb (RcRunID _) _)) eqn:E'; [done|]. split_bools.
  intros H'. apply result_bind_ok in H' as (a & Ha & H'). apply result_bind_ok in H' as ([] & Hm & H').
  apply result_bind_ok in H' as ([] & Hack & H'). apply guard_err_ok in Hm, Hack. injection H' as <-.
  split_and!; [done|eauto| |done]. exists a. split_and!; [done..|]. intros Hman. rewrite Hman in Hack.
  cbn in Hack. by rewrite negb_involutive in Hack.
Qed.
Lemma close_ok s s' :
  close s = Ok s' → ReconcileRequired s = false ∧ LifecycleStatus s = SessionLifecycleActive ∧
  s' = s <| LifecycleStatus := SessionLifecycleClosed |> <| Interruption := None |>.
Proof.
  unfold close. destruct (ReconcileRequired s); [done|]. destruct (negb _) eqn:E; [done|]. split_bools.
  by intros [= <-].
Qed.

Lemma interrupt_keeps m : keeps_identity (interrupt m).
Proof. by intros s s' (_ & ->)%interrupt_ok. Qed.
Lemma replace_marker_keeps m m' : keeps_identity (replace_marker m m').
Proof. by intros s s' (_ & _ & _ & ->)%replace_marker_ok. Qed.
Lemma reconcile_keeps env run receipt : keeps_identity (reconcile env run receipt).
Proof. by intros s s' (_ & _ & _ & ->)%reconcile_ok. Qed.
Lemma close_keeps : keeps_identity close.
Proof. by intros s s' (_ & _ & ->)%close_ok. Qed.
#[local] Hint Resolve interrupt_keeps replace_marker_keeps reconcile_keeps close_keeps : corelay.

Lemma plan_fork_ok env st parent expected new existing :
  plan_fork env st parent expected = Ok (new, existing) →
  existing = None ∧ ∃ old policy workspace key, Get env st parent = Ok old ∧ Version old ≠ 0 ∧
    Revision old = expected ∧ ReconcileRequired old = false ∧
    findSessionPathLocked st (ID new) = Err ErrSessionNotFound ∧
    workspaceStorageKey env (Workspace old) = Ok (key, workspace) ∧ inherit_policy old = Ok policy ∧
    new = forked env old (ID new) workspace (map written_message (Messages old)) policy.
Proof.
  unfold plan_fork. intros H. apply result_bind_ok in H as ([] & Hv & H).
  apply result_bind_ok in H as ([] & _ & H). apply result_bind_ok in H as (old & Hg & H).
  apply result_bind_ok in H as ([] & Hver & H). apply guard_err_ok, negb_true_iff, Z.eqb_neq in Hver.
  apply result_bind_ok in H as ([] & Hrev & H). apply guard_err_ok, Z.eqb_eq in Hrev.
  apply result_bind_ok in H as ([] & Hrec & H). apply guard_err_ok in Hrec. split_bools.
  apply result_bind_ok in H as (id & Hid & H). apply allocate_ok in Hid.
  apply result_bind_ok in H as (messages & Hm & H). apply result_bind_ok in H as (policy & Hp & H).
  apply result_bind_ok in H as ([key workspace] & Hk & H). apply result_bind_ok in H as (data & _ & H).
  apply result_bind_ok in H as ([] & _ & H). injection H as <- <-.
  unfold cloneSessionMessages in Hm. destruct (forallb _ _); [|done]. injection Hm as <-.
  split; [done|]. exists old, policy, workspace, key. split_and!; try done.
  unfold Get. by rewrite Hv.
Qed.

Lemma plan_rename_ok env st id title new existing :
  plan_rename env st id title = Ok (new, existing) →
  ∃ dir old key canonical, existing = Some dir ∧ findSessionPathLocked st id = Ok dir ∧
    loadStoredSession env st dir id = Ok old ∧ ID old = id ∧ Revision old ≠ max_uint64 ∧
    ReconcileRequired old = false ∧ workspaceStorageKey env (Workspace old) = Ok (key, canonical) ∧
    new = old <| Workspace := canonical |> <| Version := currentSessionVersion |>
              <| Revision := Revision old + 1 |> <| LastCommittedRevision := Revision old + 1 |>
              <| Title := title |> <| UpdatedAt := now env |>.
Proof.
  unfold plan_rename. intros H. apply result_bind_ok in H as ([] & Hv & H).
  apply result_bind_ok in H as (dir & Hf & H). apply result_bind_ok in H as (old & Hl & H).
  apply result_bind_ok in H as ([] & Hmax & H). apply guard_err_ok, negb_true_iff, Z.eqb_neq in Hmax.
  apply result_bind_ok in H as ([] & Hr & H). apply guard_err_ok, negb_true_iff in Hr.
  apply result_bind_ok in H as ([key canonical] & Hk & H). injection H as <- <-.
  destruct (load_fields _ _ _ _ _ Hv Hl) as [Hid _]. exists dir, old, key, canonical. by split_and!.
Qed.

Lemma planned_lifecycle env st id c expected transition new existing :
  keeps_identity transition → plan_lifecycle env st id expected transition = Ok (new, existing) →
  expected_of c = Some expected →
  (∀ old s', transition old = Ok s' → Revision old = expected → ReconcileRequired old = true →
     ReconcileRequired s' = true ∨ releases env c old) →
  planned_write env st c new existing.
Proof.
  intros Hk Hp He Ht. apply (plan_lifecycle_ok _ _ _ _ _ _ _ Hk) in Hp
    as (dir & old & s' & -> & Hf & Hl & Htr & _ & <- & Hrev & Hmax & Hnew & Hrr).
  exists old. rewrite He, Hrr. split_and!; try done; [congruence|]. intros Hr. by apply (Ht old s').
Qed.

Lemma planned_ok env st c new existing :
  planned env c st = Ok (new, existing) → planned_write env st c new existing.
Proof.
  destruct c as [s e|s e m|s e m r|id e m|id e m m'|id e run r|id e|p e|id title|id e]; cbn [planned]; intros H.
  - apply plan_save_ok in H. destruct existing as [dir|]; [|done].
    destruct H as (old & ? & ? & ? & ? & ? & Hr). exists old. split_and!; try done.
    intros (m & ? & ?)%Hr. done.
  - apply result_bind_ok in H as ([] & _ & H). apply plan_save_ok in H.
    destruct existing as [dir|]; [|naive_solver].
    destruct H as (old & ? & ? & ? & ? & He & Hr). exists old. split_and!; try done.
    intros (m' & [= <-] & Hm)%Hr. right. split; [by apply He|done].
  - apply plan_save_ok in H. destruct existing as [dir|]; [|naive_solver].
    destruct H as (old & ? & ? & ? & ? & He & Hr). exists old. split_and!; try done.
    intros (m' & -> & Hm)%Hr. right. split; [by apply He|done].
  - unfold plan_interrupt in H. apply result_bind_ok in H as ([] & _ & H).
    eapply planned_lifecycle; [|exact H|done|]; [auto with corelay|].
    intros old s' (Hr & _)%interrupt_ok _ Hr'. congruence.
  - unfold plan_update in H. apply result_bind_ok in H as ([] & _ & H).
    apply result_bind_ok in H as ([] & _ & H). destruct (_ || _); [done|].
    eapply planned_lifecycle; [|exact H|done|]; [auto with corelay|].
    intros old s' (_ & Hr & _ & ->)%replace_marker_ok _ _. by left.
  - unfold plan_reconcile in H. apply result_bind_ok in H as ([] & _ & H).
    eapply planned_lifecycle; [|exact H|done|]; [auto with corelay|].
    intros old s' (_ & Hm & Ha & _)%reconcile_ok Hrev _. right. by split_and!.
  - eapply planned_lifecycle; [|exact H|done|]; [auto with corelay|].
    intros old s' (Hr & _)%close_ok _ Hr'. congruence.
  - apply plan_fork_ok in H as (-> & old & policy & workspace & key & _ & _ & _ & _ & Hf & _ & _ & ->).
    by split_and!.
  - apply plan_rename_ok in H as (dir & old & key & canonical & -> & Hf & Hl & <- & Hmax & Hr & _ & ->).
    exists old. split_and!; try done. congruence.
  - done.
Qed.

(** A call writes what it planned; deletion apart. *)
Lemma call_commit env c st : (∀ id e, c ≠ CallDelete id e) → call env c st = commit env st (planned env c st).
Proof.
  intros Hd. destruct c; try done.
  - unfold call, CommitInterruptedRun, save. cbn [planned].
    by destruct (check_commit_marker marker) as [[]|].
  - by destruct (Hd id expected).
Qed.

Lemma planned_cases env st c new existing st' r :
  store_wf st → planned env c st = Ok (new, existing) → commit env st (planned env c st) = (st', r) →
  replaces st (ID new) existing ∧
  ((st' = st ∧ ∃ e, r = Err e) ∨
   ∃ data r', MarshalIndent new = Ok data ∧ persistSessionLocked env new data existing st = (st', r') ∧
     r = (_ ← r'; Ok new)).
Proof.
  intros Hwf Hp Hc. rewrite Hp in Hc. split.
  - apply planned_ok in Hp. destruct existing as [dir|]; simpl in Hp |- *.
    + destruct Hp as (old & Hf & Hl & _). by apply find_ok in Hf as (_ & _ & Hf).
    + destruct Hp as (Hf & _). by apply find_none in Hf as (_ & _ & Hf).
  - unfold commit in Hc. destruct (MarshalIndent new) as [data|e]; [|injection Hc as <- <-; left; eauto].
    destruct (persistSessionLocked env new data existing st) as [st1 r1] eqn:E. injection Hc as <- <-. right. eauto.
Qed.

Lemma delete_cases env st id e st' r :
  deleteSession env id e st = (st', r) →
  (st' = st ∧ ∃ x, r = Err x) ∨
  ∃ dir old, plan_delete env st id e = Ok (dir, old) ∧ removes env = true ∧ st' = remove_file dir id st ∧ r = Ok old.
Proof.
  unfold deleteSession. destruct (plan_delete env st id e) as [[dir old]|x]; [|intros [= <- <-]; eauto].
  destruct (removes env); intros [= <- <-]; [right|]; eauto 10.
Qed.

Lemma plan_delete_ok env st id e dir old :
  plan_delete env st id e = Ok (dir, old) →
  findSessionPathLocked st id = Ok dir ∧ loadStoredSession env st dir id = Ok old ∧ ID old = id ∧
  ∀ r, e = Some r → r = Revision old.
Proof.
  unfold plan_delete. intros H. apply result_bind_ok in H as ([] & Hv & H).
  apply result_bind_ok in H as (d & Hf & H). apply result_bind_ok in H as (s & Hl & H).
  apply result_bind_ok in H as ([] & He & H). apply result_bind_ok in H as ([] & _ & H). injection H as <- <-.
  destruct (load_fields _ _ _ _ _ Hv Hl) as [Hid _]. rewrite check_expected_ok in He. by split_and!.
Qed.

Definition is_delete (c : Call) : bool := match c with CallDelete _ _ => true | _ => false end.
Lemma not_delete c : is_delete c = false → ∀ id e, c ≠ CallDelete id e.
Proof. by intros H id e ->. Qed.

Lemma call_wf env c st : store_wf st → store_wf (call env c st).1.
Proof.
  intros Hwf. destruct (call env c st) as [st' r] eqn:E. cbn [fst].
  destruct (is_delete c) eqn:Hd.
  - destruct c; try done. apply delete_cases in E as [[-> _]|(dir & old & _ & _ & -> & _)]; [done|].
    by apply remove_file_wf.
  - rewrite call_commit in E by by apply not_delete.
    destruct (planned env c st) as [[new existing]|x] eqn:Hp; [|by injection E as <- <-].
    rewrite <-Hp in E. destruct (planned_cases _ _ _ _ _ _ _ Hwf Hp E) as (_ & [[-> _]|(data & r' & _ & Hw & _)]); [done|].
    by apply persist_cases in Hw as (? & _).
Qed.

Lemma call_init env c st : initErr (call env c st).1 = initErr st.
Proof.
  assert (Hp : ∀ sess data existing, initErr (persistSessionLocked env sess data existing st).1 = initErr st).
  { intros. unfold persistSessionLocked, add_entry. repeat case_match; done. }
  destruct (is_delete c) eqn:Hd.
  - destruct c; try done. cbn. unfold deleteSession. repeat case_match; done.
  - rewrite call_commit by by apply not_delete. unfold commit.
    destruct (planned env c st) as [[new existing]|]; [|done]. destruct (MarshalIndent new); [|done].
    specialize (Hp new a existing). by destruct (persistSessionLocked env new a existing st).
Qed.

(** ** Guarded sessions *)

(** Every file of the session, and there is one, waits for a reconciliation. *)
Definition guarded (id : string) (st : SessionStore) : Prop :=
  (∃ dir, is_Some (files st !! (dir, id))) ∧
  ∀ dir f, files st !! (dir, id) = Some f → ∃ s, f = Regular (Decoded s) ∧ ReconcileRequired s = true.

Lemma guarded_other id st st' :
  (∀ d, files st' !! (d, id) = files st !! (d, id)) → guarded id st → guarded id st'.
Proof. intros H [[d Hd] Hall]. split; [exists d; by rewrite H|]. intros dir f. rewrite H. apply Hall. Qed.

(** A file of a session whose only file is [f] stays [f] or is the one just written. *)
Lemma persist_guarded env new data existing st st' r :
  store_wf st → replaces st (ID new) existing → persistSessionLocked env new data existing st = (st', r) →
  guarded (ID new) st → ReconcileRequired data = true → guarded (ID new) st'.
Proof.
  intros Hwf Hr Hp [[d0 Hd0] Hall] Hrec.
  destruct (persist_cases _ _ _ _ _ _ _ Hwf Hp) as (_ & _ & [[Hf _]|H]).
  { by apply (guarded_other _ st); [intros d; rewrite Hf|split; eauto]. }
  assert (Hnew : ∀ dir d f, (<[(dir, ID new):=Regular (Decoded data)]> (files st)) !! (d, ID new) = Some f →
    ∃ s, f = Regular (Decoded s) ∧ ReconcileRequired s = true).
  { intros dir d f. rewrite lookup_insert_Some. intros [[_ <-]|[_ Hf]]; eauto. }
  destruct H as (dir & canonical & _ & _ & [[-> Hf]|(old & -> & Hne & _ & _ & Hf)]).
  - destruct (persist_done _ _ _ _ _ _ Hwf Hr Hp) as (dir' & c' & _ & _ & [Hin _]). split; [eauto|].
    intros d f. rewrite Hf. repeat case_match; [apply Hnew| |apply Hnew].
    intros [_ Hf']%lookup_delete_Some. by apply Hnew in Hf'.
  - destruct Hr as (c & Hc & _). split.
    + exists old. rewrite Hf. case_match; rewrite ?lookup_delete_ne, lookup_insert_ne, Hc by congruence; eauto.
    + intros d f. rewrite Hf. case_match; [|apply Hnew]. intros [_ Hf']%lookup_delete_Some. by apply Hnew in Hf'.
Qed.

Lemma marshal_reconcile new data : MarshalIndent new = Ok data → ReconcileRequired data = ReconcileRequired new.
Proof. unfold MarshalIndent. case_match; [|done]. by intros [= <-]. Qed.

(** One call. *)
Lemma guarded_call env c st id :
  store_wf st → guarded id st →
  guarded id (call env c st).1 ∨ ∃ old, Get env st id = Ok old ∧ releases env c old.
Proof.
  intros Hwf Hg. destruct (call env c st) as [st' r] eqn:E. cbn [fst].
  destruct (is_delete c) eqn:Hd.
  { destruct c as [| | | | | | | | |id' e]; try done.
    apply delete_cases in E as [[-> _]|(dir & old & Hp & _ & -> & _)]; [by left|].
    apply plan_delete_ok in Hp as (Hf & Hl & Hid & He).
    destruct (decide (id = id')) as [<-|Hne].
    - right. exists old. split; [|by split]. unfold Get, getLocked. rewrite Hf.
      apply find_ok in Hf as (Hv & _); [|done]. by rewrite Hv.
    - left. apply (guarded_other _ st); [|done]. intros d. simpl. by rewrite lookup_delete_ne by congruence. }
  rewrite call_commit in E by by apply not_delete.
  destruct (planned env c st) as [[new existing]|x] eqn:Hp; [|injection E as <- <-; by left].
  rewrite <-Hp in E. destruct (planned_cases _ _ _ _ _ _ _ Hwf Hp E) as (Hr & [[-> _]|(data & r' & Hm & Hw & _)]); [by left|].
  destruct (decide (id = ID new)) as [->|Hne].
  2:{ left. apply (guarded_other _ st); [|done]. intros d. by eapply persist_other. }
  apply planned_ok in Hp. destruct existing as [dir|].
  - destruct Hp as (old & Hf & Hl & _ & _ & _ & Hrec).
    pose proof Hf as (Hv & _)%find_ok; [|done].
    destruct (load_fields _ _ _ _ _ Hv Hl) as (_ & raw & Hraw & Hrr & _).
    destruct Hg as [Hex Hall]. destruct (Hall _ _ Hraw) as (s & [= ->] & Hs). rewrite Hrr in Hs.
    destruct (Hrec Hs) as [Hn|Hn].
    + left. eapply persist_guarded; [done..|by split|]. by rewrite (marshal_reconcile _ _ Hm).
    + right. exists old. split; [|done]. unfold Get, getLocked. rewrite Hv, Hf. done.
  - destruct Hg as [[d [f Hf]] _]. by rewrite (Hr d) in Hf.
Qed.

(** A call that succeeds writes the one file of its session. *)
Lemma call_done env c st st' new :
  store_wf st → is_delete c = false → call env c st = (st', Ok new) →
  ∃ existing data dir canonical, planned env c st = Ok (new, existing) ∧ MarshalIndent new = Ok data ∧
    workspaceStorageKey env (Workspace new) = Ok (dir, canonical) ∧ ValidateSessionID (ID new) = Ok tt ∧
    sole_file st' (ID new) dir (Regular (Decoded data)) ∧
    (∀ d id, id ≠ ID new → files st' !! (d, id) = files st !! (d, id)) ∧ initErr st' = initErr st.
Proof.
  intros Hwf Hd E. rewrite call_commit in E by by apply not_delete.
  destruct (planned env c st) as [[n existing]|x] eqn:Hp; [|done].
  rewrite <-Hp in E. destruct (planned_cases _ _ _ _ _ _ _ Hwf Hp E) as (Hr & [[_ [? [=]]]|(data & r' & Hm & Hw & Hres)]).
  destruct r' as [[]|]; [|done]. injection Hres as ->.
  destruct (persist_done _ _ _ _ _ _ Hwf Hr Hw) as (dir & canonical & Hk & Hv & Hs).
  exists existing, data, dir, canonical. split_and!; try done.
  - intros d id Hne. by eapply persist_other.
  - by apply persist_cases in Hw as (_ & ? & _).
Qed.

(** ** Properties *)

(** C13: An interrupted session is held until someone answers for it.  Whatever calls are
    made and whatever fails on disk, it keeps requiring reconciliation until a call commits
    the very run that left the marker at the very revision, or reconciles it with a receipt
    that a fresh assessment of the files confirms (with the user's acknowledgement where
    the files do not prove the outcome), or deletes it. *)
Theorem interrupted_session_is_held st history id :
  store_wf st → guarded id st →
  guarded id (run st history) ∨
  ∃ before env c after old, history = before ++ (env, c) :: after ∧
    guarded id (run st before) ∧ Get env (run st before) id = Ok old ∧ releases env c old.
Proof.
  intros Hwf Hg. revert st Hwf Hg. induction history as [|[env c] history IH]; intros st Hwf Hg; [by left|].
  destruct (guarded_call env c st id Hwf Hg) as [Hg'|(old & Hget & Hrel)].
  2:{ right. exists [], env, c, history, old. by split_and!. }
  destruct (IH _ (call_wf env c st Hwf) Hg') as [H|(before & env' & c' & after & old & -> & Hb & Hget & Hrel)].
  { by left. }
  right. exists ((env, c) :: before), env', c', after, old. by split_and!.
Qed.

(** C15: Every write is a compare-and-swap on the revision.  A call that succeeds found its
    session at the revision the caller expected (or found none, if the caller expected
    that), leaves it at the next revision in its only file, and touches no other session;
    revisions never wrap. *)
Theorem write_is_compare_and_swap env c st st' new :
  store_wf st → is_delete c = false → call env c st = (st', Ok new) →
  match Get env st (ID new) with
  | Ok old => Revision new = Revision old + 1 ∧ Revision old ≠ max_uint64 ∧
      ∀ e, expected_of c = Some e → e = Revision old
  | Err _ => no_file st (ID new) ∧ Revision new = 1 ∧ ∀ e, expected_of c = Some e → e = 0
  end ∧
  (∃ dir, sole_file st' (ID new) dir (Regular (Decoded (written new)))) ∧
  ∀ d id, id ≠ ID new → files st' !! (d, id) = files st !! (d, id).
Proof.
  intros Hwf Hd E. destruct (call_done _ _ _ _ _ Hwf Hd E)
    as (existing & data & dir & canonical & Hp & Hm & _ & Hv & Hs & Ho & _).
  unfold MarshalIndent in Hm. destruct (forallb _ _); [|done]. injection Hm as <-.
  split; [|by eauto]. apply planned_ok in Hp. unfold Get, getLocked. rewrite Hv. cbn [mbind result_bind].
  destruct existing as [d|].
  - destruct Hp as (old & Hf & Hl & Hmax & Hrev & He & _). rewrite Hf. cbn [mbind result_bind]. rewrite Hl. by split_and!.
  - destruct Hp as (Hf & Hrev & He). pose proof Hf as (_ & _ & Hno)%find_none; [|done]. rewrite Hf. by split_and!.
Qed.

(** A call that fails changes no file, if the disk lets the store remove either the
    old or the new copy of a session that moves to another directory. *)
Theorem failed_call_changes_nothing env c st st' e :
  store_wf st → call env c st = (st', Err e) → removes env || rolls_back env = true → files st' = files st.
Proof.
  intros Hwf E Hrb. destruct (is_delete c) eqn:Hd.
  { destruct c; try done. by apply delete_cases in E as [[-> _]|(? & ? & _ & _ & _ & [=])]. }
  rewrite call_commit in E by by apply not_delete.
  destruct (planned env c st) as [[new existing]|x] eqn:Hp; [|by injection E as <- _].
  rewrite <-Hp in E. destruct (planned_cases _ _ _ _ _ _ _ Hwf Hp E) as (Hr & [[-> _]|(data & r' & Hm & Hw & Hres)]); [done|].
  eapply persist_failed; [done..| |done]. by intros ->.
Qed.
