(* ===== verification/SessionSound.v ===== *)
(** * Stored sessions stay readable

    What [SessionStore] writes, it can read again: the invariant of the stored files, that
    every call keeps it, and that a session reads back as it was saved.  The texts a caller
    supplies must be valid UTF-8, because JSON text keeps no others; the last section shows
    what happens to texts that are not. *)

From S2P Require Import SessionStore.
Local Open Scope string_scope.
Local Open Scope list_scope.
Local Open Scope Z_scope.

(** ** Valid sessions *)

(** A session of the current version that loads as it is. *)
Record valid_session (s : Session) : Prop := {
  v_version : Version s = currentSessionVersion;
  v_revision : 0 < Revision s;
  v_associations : validateSessionAssociationIDs s = Ok tt;
  v_images : ValidateSessionImageReferences (Messages s) = Ok tt;
  v_policy : check_optional check_policy (ExecutionPolicy s) = Ok tt;
  v_status_set : LifecycleStatus s ≠ "";
  v_committed : LastCommittedRevision s ≤ Revision s;
  v_reconciliation : check_optional ValidateSessionReconciliationReceipt (LastReconciliation s) = Ok tt;
  v_status : check_status s = Ok tt;
  v_terminal : validateOptionalDurableRunTerminal (LastRunTerminal s) = Ok tt;
  v_request : validateAgentRequestReceipt (LastAgentRequest s) (Revision s) (Z.of_nat (length (Messages s))) = Ok tt;
  v_parent : validateSessionParentMetadata (ID s) (ParentSessionID s) (ParentRevision s) = Ok tt;
  v_id : ValidateSessionID (ID s) = Ok tt;
  v_workspace : trim_space (Workspace s) ≠ "";
}.

Lemma normalize_valid s :
  Version s = currentSessionVersion → LifecycleStatus s ≠ "" →
  ∀ s', normalizeSessionLifecycle s = Ok s' ↔
    s' = s ∧ LastCommittedRevision s ≤ Revision s ∧
    check_optional ValidateSessionReconciliationReceipt (LastReconciliation s) = Ok tt ∧ check_status s = Ok tt.
Proof.
  intros Hv Hst s'. unfold normalizeSessionLifecycle. rewrite Hv. cbn [Z.eqb currentSessionVersion].
  rewrite (proj2 (String.eqb_neq _ _) Hst).
  destruct (Z.ltb_spec (Revision s) (LastCommittedRevision s)); [split; [done|]; intros (_ & ? & _); lia|].
  destruct (check_optional _ _) as [[]|]; cbn [mbind result_bind]; [|naive_solver].
  destruct (check_status s) as [[]|]; cbn [mbind result_bind]; naive_solver.
Qed.

Lemma check_decoded_valid s : valid_session s → check_decoded s (ID s) = Ok s.
Proof.
  intros V. unfold check_decoded. rewrite (v_version _ V). cbn [Z.eqb Z.ltb currentSessionVersion associationSessionVersion
    planRevisionSessionVersion sessionImageVersion Z.compare Pos.compare Pos.compare_cont].
  pose proof (v_revision _ V). assert (Revision s =? 0 = false) as -> by (apply Z.eqb_neq; lia).
  cbn [negb guard_err mbind result_bind andb]. rewrite (v_associations _ V). cbn [corrupt_if mbind result_bind].
  rewrite andb_false_r. cbn [negb guard_err mbind result_bind]. rewrite (v_images _ V), (v_policy _ V).
  cbn [corrupt_if mbind result_bind].
  assert (normalizeSessionLifecycle s = Ok s) as ->.
  { apply normalize_valid; try apply V. split_and!; [done|apply V..]. }
  cbn [corrupt_if mbind result_bind].
  rewrite (v_terminal _ V), (v_request _ V), (v_parent _ V), (v_id _ V). cbn [corrupt_if mbind result_bind].
  rewrite String.eqb_refl, andb_false_r. cbn [negb guard_err mbind result_bind].
  by rewrite (proj2 (String.eqb_neq _ _) (v_workspace _ V)).
Qed.

(** ** Texts *)

Definition policy_texts (p : Snapshot) : list string := [SMode p; SSource p].

(** [clean], part by part. *)
Record clean_parts (s : Session) : Prop := {
  c_id : utf8 (ID s);
  c_workspace : utf8 (Workspace s);
  c_workstream : utf8 (WorkstreamID s);
  c_plan : utf8 (PlanID s);
  c_stage : utf8 (StageID s);
  c_provider : utf8 (Provider s);
  c_model : utf8 (Model s);
  c_parent : utf8 (ParentSessionID s);
  c_status : utf8 (LifecycleStatus s);
  c_policy : Forall utf8 (from_option policy_texts [] (ExecutionPolicy s));
  c_messages : Forall (λ m, Forall utf8 (message_texts m)) (Messages s);
  c_marker : Forall utf8 (from_option interruption_texts [] (Interruption s));
  c_receipt : Forall utf8 (from_option receipt_texts [] (LastReconciliation s));
  c_terminal : Forall utf8 (from_option terminal_texts [] (LastRunTerminal s));
  c_request : Forall utf8 (from_option request_texts [] (LastAgentRequest s));
}.

Lemma Forall_flat_map {A B} (P : B → Prop) (f : A → list B) l :
  Forall P (flat_map f l) ↔ Forall (λ a, Forall P (f a)) l.
Proof.
  induction l as [|a l IH]; simpl; [by split; constructor|]. by rewrite Forall_app, list.Forall_cons, IH.
Qed.

Lemma clean_spec s : clean s ↔ clean_parts s.
Proof.
  unfold clean, session_texts. rewrite !Forall_app, Forall_flat_map.
  rewrite !list.Forall_cons. split.
  - intros ((? & ? & ? & ? & ? & ? & ? & ? & ? & _) & ? & ? & ? & ? & ? & ?). by split.
  - intros []. by split_and!.
Qed.

Lemma utf8_graph s : str_all graph s = true → utf8 s.
Proof. intros H. unfold utf8, ValidString. by rewrite (runes_of_graph _ H). Qed.

Lemma str_all_take p n s : str_all p s = true → str_all p (str_take n s) = true.
Proof.
  revert s. induction n as [|n IH]; intros [|c s]; simpl; try done.
  intros [-> Hs]%andb_prop. by apply IH.
Qed.

Lemma str_all_take_drop p n s : str_all p (str_take n s) = true → str_all p (str_drop n s) = true → str_all p s = true.
Proof.
  revert s. induction n as [|n IH]; intros [|c s]; simpl; try done.
  intros [-> Ht]%andb_prop Hd. by apply IH.
Qed.

Lemma valid_id_utf8 id : ValidateSessionID id = Ok tt → utf8 id.
Proof.
  unfold ValidateSessionID. rewrite guard_err_ok. intros H. apply utf8_graph.
  assert (Hp : has_prefix id "sess_" = true → str_all graph (str_take 5 id) = true).
  { unfold has_prefix. intros Hp%prefix_spec. destruct Hp as [u ->]. done. }
  apply orb_true_iff in H as [H|H].
  - unfold opaqueSessionIDPattern in H. split_bools. apply (str_all_take_drop _ 5); [auto|].
    eapply str_all_impl; [|done]. intros c. unfold lower_alnum27, graph, byte_in. cbv zeta.
    rewrite orb_true_iff, !andb_true_iff, !Z.leb_le, !Nat.leb_le. lia.
  - unfold legacySessionIDPattern in H. split_bools.
    assert (Hd : ∀ t, str_all is_decimal t = true → str_all graph t = true).
    { intros t. apply str_all_impl. intros c. unfold is_decimal, graph, byte_in.
      rewrite !andb_true_iff, !Z.leb_le, !Nat.leb_le. lia. }
    apply (str_all_take_drop _ 5); [auto|]. apply (str_all_take_drop _ 8); [auto|].
    assert (Hdd : ∀ a b t, str_drop a (str_drop b t) = str_drop (b + a) t).
    { intros a b. induction b as [|b IH]; intros [|c t]; simpl; try done. by destruct a. }
    rewrite Hdd. apply (str_all_take_drop _ 1).
    + change (5 + 8)%nat with 13%nat. rewrite H1. done.
    + rewrite Hdd. auto.
Qed.

Lemma clean_written s : clean s → written s = s <| Title := coerce_utf8 (Title s) |>.
Proof. apply written_clean. Qed.

Lemma preserve_messages c e :
  Forall (λ m, Forall utf8 (message_texts m)) c → Forall (λ m, Forall utf8 (message_texts m)) e →
  Forall (λ m, Forall utf8 (message_texts m)) (preserveSessionImageReferences c e).
Proof.
  intros Hc. revert e. induction Hc as [|m c Hm Hc IH]; intros [|m' e] He; simpl; try by constructor.
  apply list.Forall_cons in He as [Hm' He]. constructor; [|by apply IH]. unfold preserve_one. case_match; [done|].
  unfold message_texts in Hm, Hm' |- *. apply Forall_app in Hm as [Hm _], Hm' as [_ Hm'].
  apply Forall_app. by split.
Qed.

(** ** Saving keeps texts valid *)

Lemma merge_existing_clean env c e expected c' :
  merge_existing env c e expected = Ok c' → clean_parts c → clean_parts e →
  LastAgentRequest c' = LastAgentRequest c → clean_parts c'.
Proof.
  intros Hm Cc Ce Hreq. apply merge_existing_ok in Hm as (_ & _ & Hid & Hws & Hms & Hst & _ & Hi & Hlr & Ht & Hp &
    Hw & Hpl & Hsg & Hpr & Hmo & Hpa & _).
  split; rewrite ?Hid, ?Hws, ?Hms, ?Hst, ?Hi, ?Hlr, ?Ht, ?Hp, ?Hpa, ?Hreq; try apply Cc; try apply Ce.
  - destruct Hw as [->| ->]; [apply Cc|apply Ce].
  - destruct Hpl as [->| ->]; [apply Cc|apply Ce].
  - destruct Hsg as [->| ->]; [apply Cc|apply Ce].
  - destruct Hpr as [->| ->]; [apply Cc|apply Ce].
  - destruct Hmo as [->| ->]; [apply Cc|apply Ce].
  - apply preserve_messages; [apply Cc|apply Ce].
Qed.

Lemma merge_existing_request env c e expected c' :
  merge_existing env c e expected = Ok c' → LastAgentRequest c' = LastAgentRequest c.
Proof.
  unfold merge_existing. intros H.
  apply result_bind_ok in H as ([] & _ & H). apply result_bind_ok in H as ([] & _ & H).
  apply result_bind_ok in H as ([] & _ & H).
  destruct (merge_associations_spec (c <| Messages := preserveSessionImageReferences (Messages c) (Messages e) |>
      <| Workspace := Workspace e |>) e) as (w & p & pr & sg & Hm & _).
  rewrite Hm in H. cbn in H. repeat case_match; simplify_eq; done.
Qed.

Lemma merge_run_clean c existing receipt :
  clean_parts c → (∀ e, existing = Some e → clean_parts e) →
  Forall utf8 (from_option request_texts [] receipt) → clean_parts (merge_run c existing receipt).
Proof.
  intros Cc Ce Cr.
  assert (Hp : Forall utf8 (from_option policy_texts []
    (match ExecutionPolicy c with Some p => Some p | None => existing ≫= ExecutionPolicy end))).
  { pose proof (c_policy _ Cc). destruct (ExecutionPolicy c); [done|].
    destruct existing as [e|]; [by apply Ce|constructor]. }
  assert (Ht : Forall utf8 (from_option terminal_texts []
    (match LastRunTerminal c with Some p => Some p | None => existing ≫= LastRunTerminal end))).
  { pose proof (c_terminal _ Cc). destruct (LastRunTerminal c); [done|].
    destruct existing as [e|]; [by apply Ce|constructor]. }
  unfold merge_run. destruct receipt as [r|]; split; cbn; try apply Cc; try done.
  destruct existing as [e|]; [by apply Ce|constructor].
Qed.

Lemma with_lifecycle_clean c status committed marker receipt :
  clean_parts c → utf8 status → Forall utf8 (from_option interruption_texts [] marker) →
  Forall utf8 (from_option receipt_texts [] receipt) → clean_parts (with_lifecycle c status committed marker receipt).
Proof. intros Cc Hs Hm Hr. split; cbn; try apply Cc; done. Qed.

Lemma save_candidate_clean env c existing expected marker receipt c' :
  save_candidate env c existing expected marker receipt = Ok c' →
  clean_parts c → (∀ e, existing = Some e → clean_parts e) →
  Forall utf8 (from_option request_texts [] receipt) → clean_parts c'.
Proof.
  unfold save_candidate. intros H Cc Ce Cr. apply result_bind_ok in H as (c1 & Hm & H).
  apply result_bind_ok in H as ([] & _ & H). apply result_bind_ok in H as ([] & _ & H).
  apply result_bind_ok in H as ([] & _ & H). apply result_bind_ok in H as ([] & _ & H).
  apply result_bind_ok in H as (c2 & Hl & H). apply result_bind_ok in H as ([] & _ & H).
  apply result_bind_ok in H as ([] & _ & H). injection H as <-.
  assert (C1 : clean_parts c1).
  { destruct existing as [e|]; [|by injection Hm as <-].
    eapply merge_existing_clean; [done..|by apply Ce|by eapply merge_existing_request]. }
  pose proof (merge_run_clean _ _ _ C1 Ce Cr) as C1'.
  assert (C2 : clean_parts c2).
  { destruct marker as [m|].
    - apply prepare_commit_ok in Hl as (old & -> & _ & _ & _ & ->).
      apply with_lifecycle_clean; [done|done|constructor|]. by apply (c_receipt _ (Ce _ eq_refl)).
    - apply prepare_save_ok in Hl. destruct existing as [e|].
      + destruct Hl as (_ & _ & ->). pose proof (Ce _ eq_refl) as C.
        apply with_lifecycle_clean; [done|apply C..].
      + rewrite Hl. apply with_lifecycle_clean; [done|done|constructor..]. }
  unfold stamp_revision. destruct receipt as [r|]; split; cbn; try apply C2. done.
Qed.

(** ** The invariant *)

Section sound.
(** The absolute path of a workspace with its links resolved: resolving it again gives it
    again, it is not blank, and it is valid UTF-8. *)
Context (r : string → option string).
Hypothesis r_idempotent : ∀ w c, r w = Some c → r c = Some c.
Hypothesis r_absolute : ∀ w c, r w = Some c → trim_space c ≠ "".
Hypothesis r_utf8 : ∀ w c, r w = Some c → utf8 c.

(** A stored session: it is valid, its texts are, and it is where its workspace says. *)
Record sound_session (dir id : string) (s : Session) : Prop := {
  s_valid : valid_session s;
  s_clean : clean_parts s;
  s_id : ID s = id;
  s_resolved : r (Workspace s) = Some (Workspace s);
  s_dir : dir = storage_key (Workspace s);
}.
Record sound (st : SessionStore) : Prop := {
  sound_wf : store_wf st;
  sound_files dir id f : files st !! (dir, id) = Some f → ∃ s, f = Regular (Decoded s) ∧ sound_session dir id s;
  sound_sole d1 d2 id : is_Some (files st !! (d1, id)) → is_Some (files st !! (d2, id)) → d1 = d2;
}.

Lemma key_resolved env w key canonical :
  resolve env = r → workspaceStorageKey env w = Ok (key, canonical) → key = storage_key canonical ∧ r w = Some canonical.
Proof.
  intros Hr. unfold workspaceStorageKey, canonicalWorkspacePath. rewrite Hr.
  destruct (String.eqb _ _); [done|]. destruct (r w); [|done]. by intros [= <- <-].
Qed.

Lemma resolved_key env w : resolve env = r → r w = Some w → workspaceStorageKey env w = Ok (storage_key w, w).
Proof.
  intros Hr Hw. unfold workspaceStorageKey, canonicalWorkspacePath. rewrite Hr, Hw.
  by rewrite (proj2 (String.eqb_neq _ _) (r_absolute _ _ Hw)).
Qed.

(** A sound file loads as it is. *)
Lemma sound_load env st dir id s :
  resolve env = r → files st !! (dir, id) = Some (Regular (Decoded s)) → sound_session dir id s →
  loadStoredSession env st dir id = Ok s.
Proof.
  intros Hr Hf S. apply load_ok. exists s. split; [done|].
  rewrite (v_version _ (s_valid _ _ _ S)). split; [done|].
  rewrite <-(s_id _ _ _ S) at 1. split; [by apply check_decoded_valid, S|].
  unfold validateSessionWorkspacePath. rewrite (resolved_key env) by (done || apply S). cbn [mbind result_bind].
  rewrite <-(s_dir _ _ _ S). by rewrite String.eqb_refl.
Qed.

Lemma sound_loaded env st dir id s :
  resolve env = r → sound st → loadStoredSession env st dir id = Ok s → sound_session dir id s.
Proof.
  intros Hr S Hl. pose proof Hl as (raw & Hf & _)%load_ok.
  destruct (sound_files _ S _ _ _ Hf) as (s' & [= ->] & Ss).
  rewrite (sound_load env st dir id s' Hr Hf Ss) in Hl. by injection Hl as <-.
Qed.

(** ** The next revision is valid *)

(** What a write plans: valid, of valid texts, in its resolved workspace. *)
Definition good (s : Session) : Prop := valid_session s ∧ clean_parts s ∧ r (Workspace s) = Some (Workspace s).

(** A session that is not held and not closed is active. *)
Lemma active_status s :
  valid_session s → ReconcileRequired s = false → LifecycleStatus s ≠ SessionLifecycleClosed →
  LifecycleStatus s = SessionLifecycleActive ∧ Interruption s = None.
Proof.
  intros V Hr Hc. pose proof (v_status _ V) as Hs. unfold check_status in Hs.
  rewrite Hr, (proj2 (String.eqb_neq _ _) Hc) in Hs.
  destruct (String.eqb_spec (LifecycleStatus s) SessionLifecycleActive) as [->|]; cbn [orb negb] in Hs.
  - destruct (_ || _) eqn:E; [done|]. split_bools. done.
  - destruct (String.eqb _ _); [by destruct (Interruption s)|]. by destruct (String.eqb _ _).
Qed.

Lemma check_status_active s :
  LifecycleStatus s = SessionLifecycleActive ∨ LifecycleStatus s = SessionLifecycleClosed →
  ReconcileRequired s = false → Interruption s = None →
  LastCommittedRevision s = Revision s → check_status s = Ok tt.
Proof.
  intros Hs Hr Hi Hc. unfold check_status. rewrite Hr, Hi, Hc, Z.eqb_refl.
  by destruct Hs as [->| ->].
Qed.

Lemma request_later q rev rev' n :
  rev ≤ rev' → validateAgentRequestReceipt q rev n = Ok tt → validateAgentRequestReceipt q rev' n = Ok tt.
Proof.
  intros Hle. destruct q as [q|]; [|done]. unfold validateAgentRequestReceipt. cbn [check_optional].
  intros H. apply result_bind_ok in H as ([] & Hg & H). apply guard_err_ok in Hg. rewrite H.
  rewrite !andb_true_iff, !Z.leb_le in Hg. destruct Hg as ((((((H1 & H2) & H3) & H4) & H5) & H6) & H7).
  rewrite H1, H2, H3, H4, (proj2 (Z.leb_le 1 _) H6), (proj2 (Z.leb_le _ n) H7).
  by rewrite (proj2 (Z.leb_le _ rev')) by lia.
Qed.

Lemma plan_save_good env st sess expected marker receipt new existing :
  resolve env = r → sound st → clean_parts sess → Forall utf8 (from_option request_texts [] receipt) →
  plan_save env st sess expected marker receipt = Ok (new, existing) → good new.
Proof.
  intros Hr S Cs Cr. unfold plan_save. intros H. apply result_bind_ok in H as ([] & _ & H).
  apply result_bind_ok in H as (id & Hid & H). apply result_bind_ok in H as (found & Hf & H).
  apply result_bind_ok in H as (c & Hc & H). apply result_bind_ok in H as (c' & Hp & H).
  injection H as <- _. apply find_existing_ok in Hf.
  assert (Hv : ValidateSessionID id = Ok tt).
  { destruct found as [[dir old]|]; destruct Hf as [Hf _];
      [apply find_ok in Hf|apply find_none in Hf]; try apply S; naive_solver. }
  assert (Ss : ∀ e, snd <$> found = Some e → ∃ dir, sound_session dir id e).
  { destruct found as [[dir old]|]; [|done]. intros e [= <-]. destruct Hf as [_ Hf].
    exists dir. by eapply sound_loaded. }
  assert (Cc : clean_parts c).
  { eapply save_candidate_clean; [done| |intros e He; by apply Ss in He as (? & ?%s_clean)|done].
    split; cbn; try apply Cs. by apply valid_id_utf8. }
  apply save_candidate_ok in Hc as (Eid & Ever & Ecom & Erec & Hpol & Has & Him & Hte & Hpa & Hre & _ & Hold).
  cbn in Eid. apply place_ok in Hp as (w & key & canonical & -> & Hk & _).
  destruct (key_resolved _ _ _ _ Hr Hk) as [_ Hw].
  assert (Hrest : 0 < Revision c ∧ LifecycleStatus c = SessionLifecycleActive ∧ Interruption c = None ∧
    check_optional ValidateSessionReconciliationReceipt (LastReconciliation c) = Ok tt).
  { destruct (snd <$> found) as [old|].
    - destruct (Ss old eq_refl) as (dir & So). pose proof (s_valid _ _ _ So) as V. pose proof (v_revision _ V).
      destruct Hold as (_ & _ & -> & _ & -> & Hm). split; [lia|].
      destruct marker as [m|].
      + destruct Hm as (_ & _ & _ & -> & ->). split_and!; [done..|apply V].
      + destruct Hm as (Hr' & Hcl & -> & ->). destruct (active_status _ V Hr' Hcl) as [-> ->].
        split_and!; [done..|apply V].
    - destruct Hold as (_ & -> & -> & -> & -> & _). done. }
  destruct Hrest as (Hrev & Hst & Hin & Hlr).
  split_and!.
  - split; cbn; rewrite ?Hst, ?Hlr, ?Ecom, ?Eid; try done.
    + apply check_status_active; cbn; auto.
    + by rewrite <-Eid.
    + by apply (r_absolute _ _ Hw).
  - split; cbn; try apply Cc. by apply (r_utf8 _ _ Hw).
  - cbn. by apply (r_idempotent _ _ Hw).
Qed.

(** The fields a transition of the lifecycle may change. *)
Definition lifecycle_change (s s' : Session) : Prop :=
  ∃ status committed required marker receipt,
    s' = s <| LifecycleStatus := status |> <| LastCommittedRevision := committed |>
           <| ReconcileRequired := required |> <| Interruption := marker |> <| LastReconciliation := receipt |> ∧
    status ≠ "" ∧ utf8 status ∧
    Forall utf8 (from_option interruption_texts [] marker) ∧ Forall utf8 (from_option receipt_texts [] receipt).

Lemma bumped_good env old s' new :
  good old → lifecycle_change old s' → normalizeSessionLifecycle (bumped env s') = Ok new → good new.
Proof.
  intros (V & C & Hw) (status & committed & required & marker & receipt & -> & Hne & Hu & Hm & Hrc) Hn.
  assert (Hb : bumped env (old <| LifecycleStatus := status |> <| LastCommittedRevision := committed |>
           <| ReconcileRequired := required |> <| Interruption := marker |> <| LastReconciliation := receipt |>) = new ∧
         LastCommittedRevision new ≤ Revision new ∧
         check_optional ValidateSessionReconciliationReceipt (LastReconciliation new) = Ok tt ∧ check_status new = Ok tt).
  { apply normalize_valid in Hn as (-> & ? & ? & ?); [done| |]; unfold bumped; cbn; by destruct required. }
  destruct Hb as (<- & Hcom & Hlr & Hst). pose proof (v_revision _ V).
  assert (Hq : validateAgentRequestReceipt (LastAgentRequest old) (Revision old + 1)
    (Z.of_nat (length (Messages old))) = Ok tt) by (eapply request_later; [|apply V]; lia).
  unfold bumped in *. cbn in *. destruct required; cbn in *.
  all: split_and!; [split; cbn; try apply V; try done; lia|split; cbn; try apply C; done|done].
Qed.

Lemma plan_lifecycle_good env st id expected transition new existing :
  resolve env = r → sound st → keeps_identity transition →
  (∀ old s', good old → transition old = Ok s' → lifecycle_change old s') →
  plan_lifecycle env st id expected transition = Ok (new, existing) → good new.
Proof.
  intros Hr S Hk Ht Hp.
  apply (plan_lifecycle_ok _ _ _ _ _ _ _ Hk) in Hp as (dir & old & s' & _ & _ & Hl & Htr & Hn & _).
  apply (sound_loaded _ _ _ _ _ Hr S) in Hl.
  assert (G : good old) by (split_and!; apply Hl).
  eapply bumped_good; [done|by apply Ht|done].
Qed.

Lemma plan_rename_good env st id title new existing :
  resolve env = r → sound st → plan_rename env st id title = Ok (new, existing) → good new.
Proof.
  intros Hr S Hp. apply plan_rename_ok in Hp as (dir & old & key & canonical & _ & _ & Hl & _ & _ & Hrec & Hk & ->).
  apply (sound_loaded _ _ _ _ _ Hr S) in Hl as [V C _ Hw _].
  destruct (key_resolved _ _ _ _ Hr Hk) as [_ Hw']. assert (canonical = Workspace old) as -> by congruence.
  pose proof (v_revision _ V).
  assert (Hq : validateAgentRequestReceipt (LastAgentRequest old) (Revision old + 1)
    (Z.of_nat (length (Messages old))) = Ok tt) by (eapply request_later; [|apply V]; lia).
  split_and!.
  - split; cbn; try apply V; try done; [lia|].
    pose proof (v_status _ V) as Hs. unfold check_status in *. cbn in *. rewrite Hrec in *. cbn in *.
    rewrite Z.eqb_refl, !orb_false_r. destruct (_ || _).
    + by destruct (negb (bool_decide (Interruption old = None))).
    + destruct (String.eqb _ _); [by destruct (Interruption old)|done].
  - split; cbn; apply C.
  - done.
Qed.

Lemma plan_fork_good env st parent expected new existing :
  resolve env = r → sound st → plan_fork env st parent expected = Ok (new, existing) → good new.
Proof.
  intros Hr S Hp. apply plan_fork_ok in Hp as (_ & old & policy & workspace & key & Hg & _ & _ & _ & Hf & Hk & Hpol & ->).
  unfold Get in Hg. apply result_bind_ok in Hg as ([] & Hvp & Hg).
  unfold getLocked in Hg. apply result_bind_ok in Hg as (dir & Hfp & Hl).
  pose proof (sound_loaded _ _ _ _ _ Hr S Hl) as [V C Hid Hw _].
  destruct (key_resolved _ _ _ _ Hr Hk) as [_ Hw']. assert (workspace = Workspace old) as -> by congruence.
  set (id := ID new) in *. clearbody id. clear new.
  apply find_none in Hf as (Hv & _ & Hno); [|apply S].
  assert (Hne : ID old ≠ id).
  { rewrite Hid. intros ->. apply load_ok in Hl as (raw & Hraw & _). by rewrite Hno in Hraw. }
  assert (Hms : map written_message (Messages old) = Messages old).
  { apply (map_clean _ message_texts); [apply written_message_clean|]. rewrite Forall_flat_map. apply C. }
  rewrite Hms. pose proof (v_revision _ V).
  assert (Hp : check_optional check_policy policy = Ok tt ∧ Forall utf8 (from_option policy_texts [] policy)).
  { unfold inherit_policy in Hpol. pose proof (c_policy _ C) as Hcp.
    destruct (ExecutionPolicy old) as [p|]; [|injection Hpol as <-; by split; [|constructor]].
    destruct (ResolveChild p "" zeroCapabilities) as [child|] eqn:Ec; [|done]. injection Hpol as <-.
    pose proof (ResolveChild_valid _ _ _ _ Ec) as Hok. apply ValidateSnapshot_spec in Hok.
    cbn. unfold check_policy. rewrite Hok. split; [done|].
    apply ResolveChild_ok in Ec as (_ & _ & _ & ->). cbn in Hcp |- *.
    apply list.Forall_cons in Hcp as [Hmode _]. apply list.Forall_cons. split; [done|]. apply list.Forall_cons. by split. }
  destruct Hp as [Hp1 Hp2]. unfold forked. split_and!.
  - split; cbn; try apply V; try done.
    + unfold validateSessionParentMetadata. rewrite (v_id _ V). cbn.
      rewrite (proj2 (String.eqb_neq (ID old) "")) by (apply valid_id_nonempty; apply V).
      rewrite (proj2 (Z.eqb_neq (Revision old) 0)) by lia.
      rewrite (proj2 (String.eqb_neq (ID old) id)) by done. by destruct (String.eqb id "").
  - split; cbn; try apply C; try done; try constructor. by apply valid_id_utf8.
  - done.
Qed.

(** ** Calls *)

(** The texts a caller supplies are valid UTF-8; a title may be anything. *)
Definition clean_call (c : Call) : Prop :=
  match c with
  | CallSave s _ | CallCommitInterruptedRun s _ _ => clean s
  | CallCommitAgentRun s _ _ receipt => clean s ∧ Forall utf8 (request_texts receipt)
  | CallMarkInterrupted _ _ m | CallUpdateInterruptedRun _ _ _ m => Forall utf8 (interruption_texts m)
  | CallMarkReconciled _ _ _ receipt => Forall utf8 (receipt_texts receipt)
  | CallClose _ _ | CallFork _ _ | CallRename _ _ | CallDelete _ _ => True
  end.

Lemma planned_good env st c new existing :
  resolve env = r → sound st → clean_call c → planned env c st = Ok (new, existing) → good new.
Proof.
  intros Hr S.
  destruct c as [s e|s e m|s e m q|id e m|id e m m'|id e run q|id e|p e|id title|id e]; cbn [planned clean_call]; intros Hc H.
  - eapply plan_save_good; [done..|by apply clean_spec| |done]. constructor.
  - apply result_bind_ok in H as ([] & _ & H). eapply plan_save_good; [done..|by apply clean_spec| |done]. constructor.
  - destruct Hc as [Hc Hq]. eapply plan_save_good; [done..|by apply clean_spec| |done]. done.
  - unfold plan_interrupt in H. apply result_bind_ok in H as ([] & _ & H).
    eapply plan_lifecycle_good; [done..|apply interrupt_keeps| |exact H].
    intros old s' (V & C & _) (Hrec & ->)%interrupt_ok.
    exists SessionLifecycleInterrupted, (Revision old), true, (Some (marker_time env m)), (LastReconciliation old).
    split; [by destruct old|]. split_and!; [done|done|exact Hc|apply C].
  - unfold plan_update in H. apply result_bind_ok in H as ([] & _ & H).
    apply result_bind_ok in H as ([] & _ & H). destruct (_ || _); [done|].
    eapply plan_lifecycle_good; [done..|apply replace_marker_keeps| |exact H].
    intros old s' (V & C & _) (Hst & Hrec & Hi & ->)%replace_marker_ok.
    exists (LifecycleStatus old), (LastCommittedRevision old), (ReconcileRequired old), (Some (next_time m m')),
      (LastReconciliation old).
    split; [by destruct old|]. split_and!; [apply V|apply C|exact Hc|apply C].
  - unfold plan_reconcile in H. apply result_bind_ok in H as ([] & _ & H).
    eapply plan_lifecycle_good; [done..|apply reconcile_keeps| |exact H].
    intros old s' (V & C & _) (_ & _ & _ & ->)%reconcile_ok.
    exists SessionLifecycleActive, (LastCommittedRevision old), false, None, (Some q).
    split; [by destruct old|]. split_and!; [done|done|constructor|exact Hc].
  - eapply plan_lifecycle_good; [done..|apply close_keeps| |exact H].
    intros old s' (V & C & _) (Hrec & _ & ->)%close_ok.
    exists SessionLifecycleClosed, (LastCommittedRevision old), (ReconcileRequired old), None, (LastReconciliation old).
    split; [by destruct old|]. split_and!; [done|done|constructor|apply C].
  - by eapply plan_fork_good.
  - by eapply plan_rename_good.
  - done.
Qed.

(** What is read back of a good session: only its title may have changed. *)
Definition read_back (s : Session) : Session := s <| Title := coerce_utf8 (Title s) |>.

Lemma good_read_back s : good s → written s = read_back s ∧ good (read_back s).
Proof.
  intros (V & C & Hw). split; [by apply written_clean, clean_spec|]. unfold read_back.
  split_and!; [|split; cbn; apply C|done]. destruct V; by split.
Qed.

Lemma good_file s : good s → sound_session (storage_key (Workspace s)) (ID s) s.
Proof. by intros (V & C & Hw). Qed.

Lemma call_sound env c st :
  resolve env = r → removes env || rolls_back env = true → clean_call c → sound st → sound (call env c st).1.
Proof.
  intros Hr Hrb Hc S. destruct (call env c st) as [st' res] eqn:E. cbn [fst].
  assert (Hwf : store_wf st') by (pose proof (call_wf env c st (sound_wf _ S)) as H; by rewrite E in H).
  destruct res as [new|e].
  2:{ assert (Hf : files st' = files st) by (eapply failed_call_changes_nothing; [apply S|done..]).
      destruct S. split; [done|..]; rewrite Hf; done. }
  destruct (is_delete c) eqn:Hd.
  { destruct c as [| | | | | | | | |id e]; try done.
    apply delete_cases in E as [[_ [? [=]]]|(dir & old & _ & _ & -> & _)].
    split; [done|..]; simpl.
    - intros d i f [_ Hf]%lookup_delete_Some. by apply S.
    - intros d1 d2 i [f1 [_ H1]%lookup_delete_Some] [f2 [_ H2]%lookup_delete_Some]. apply (sound_sole _ S _ _ i); eauto. }
  destruct (call_done _ _ _ _ _ (sound_wf _ S) Hd E)
    as (existing & data & dir & canonical & Hp & Hm & Hk & Hv & [Hs Hsole] & Ho & _).
  pose proof (planned_good _ _ _ _ _ Hr S Hc Hp) as G. destruct (good_read_back _ G) as [Hw G'].
  unfold MarshalIndent in Hm. destruct (forallb _ _); [|done]. injection Hm as <-. rewrite Hw in Hs.
  rewrite (resolved_key env) in Hk by (done || apply G). injection Hk as <- <-.
  split; [done|..].
  - intros d i f Hf. destruct (decide (i = ID new)) as [->|Hne].
    + destruct (decide (d = storage_key (Workspace new))) as [->|Hd'].
      * rewrite Hs in Hf. injection Hf as <-. eexists. split; [done|]. by apply (good_file _ G').
      * by rewrite Hsole in Hf.
    + rewrite Ho in Hf by done. by apply S.
  - intros d1 d2 i H1 H2. destruct (decide (i = ID new)) as [->|Hne].
    + destruct (decide (d1 = storage_key (Workspace new))) as [->|Hd1];
        [|rewrite Hsole in H1 by done; by destruct H1].
      destruct (decide (d2 = storage_key (Workspace new))) as [->|Hd2]; [done|].
      rewrite Hsole in H2 by done. by destruct H2.
    + rewrite Ho in H1, H2 by done. by apply (sound_sole _ S _ _ i).
Qed.

Lemma run_sound st history :
  sound st →
  Forall (λ ec, resolve ec.1 = r ∧ removes ec.1 || rolls_back ec.1 = true ∧ clean_call ec.2) history →
  sound (run st history).
Proof.
  intros S H. revert st S. induction H as [|[env c] history (Hr & Hrb & Hc) _ IH]; intros st S; [done|].
  apply IH. by apply call_sound.
Qed.

Lemma sound_empty init : sound {| entries := []; files := ∅; initErr := init |}.
Proof.
  split; [|done|].
  - by split; [constructor|].
  - by intros d1 d2 id [f H].
Qed.

(** ** Properties *)

(** C35: The files of a store stay readable.  Suppose that the texts callers pass, but for
    titles, are UTF-8; that workspaces resolve as one function [r] throughout, to texts that
    are UTF-8, not blank, and resolve to themselves; and that of the two copies a move of a session may
    leave, one can be removed.  Then after any calls from an empty store, with any other failures
    of the disk, every file is found under its id and loads.  Without these assumptions it may
    not be: see [accepted_marker_corrupts], [non_utf8_workspace_is_lost] and
    [moved_workspace_is_corrupt]. *)
Theorem store_stays_readable history env dir id f :
  Forall (λ ec, resolve ec.1 = r ∧ removes ec.1 || rolls_back ec.1 = true ∧ clean_call ec.2) history →
  resolve env = r → files (run {| entries := []; files := ∅; initErr := false |} history) !! (dir, id) = Some f →
  ∃ s, f = Regular (Decoded s) ∧ Get env (run {| entries := []; files := ∅; initErr := false |} history) id = Ok s.
Proof.
  intros Hh Hr Hf. pose proof (run_sound _ _ (sound_empty false) Hh) as S.
  set (st := run _ history) in *.
  assert (Hi : initErr st = false).
  { subst st. clear Hf S. generalize (Build_SessionStore [] ∅ false) (eq_refl : initErr (Build_SessionStore [] ∅ false) = false).
    clear Hh. induction history as [|[e c] history IH]; intros st Hst; [done|]. cbn. apply IH.
    by rewrite call_init. }
  destruct (sound_files _ S _ _ _ Hf) as (s & -> & Ss). exists s. split; [done|].
  pose proof (v_id _ (s_valid _ _ _ Ss)) as Hv. rewrite (s_id _ _ _ Ss) in Hv.
  assert (Hfind : findSessionPathLocked st id = Ok dir).
  { apply find_ok; [apply S|]. split_and!; [done..|]. exists (Decoded s). split; [done|]. intros d Hd.
    destruct (files st !! (d, id)) eqn:E; [|done]. destruct Hd. apply (sound_sole _ S _ _ id); eauto. }
  unfold Get, getLocked. rewrite Hv. cbn [mbind result_bind]. rewrite Hfind. cbn [mbind result_bind].
  by eapply sound_load.
Qed.

(** C36: A saved session reads back as it was saved, field by field; of the title, every
    byte that is not UTF-8 is replaced.  This is for a sound store (see
    [store_stays_readable]), a call whose other texts are UTF-8, and a workspace that resolves
    alike when it is written and when it is read, as all do: to UTF-8 texts, not blank, that
    resolve to themselves;
    JSON replaces what is not UTF-8 in the other texts too, and then the session does not read
    back as it was. *)
Theorem saved_session_reads_back env c st st' new env' :
  sound st → initErr st = false → resolve env = r → resolve env' = r → clean_call c → is_delete c = false →
  call env c st = (st', Ok new) →
  Get env' st' (ID new) = Ok (new <| Title := coerce_utf8 (Title new) |>).
Proof.
  intros S Hi Hr Hr' Hc Hd E.
  destruct (call_done _ _ _ _ _ (sound_wf _ S) Hd E)
    as (existing & data & dir & canonical & Hp & Hm & Hk & Hv & Hs & _ & Hi').
  pose proof (planned_good _ _ _ _ _ Hr S Hc Hp) as G. destruct (good_read_back _ G) as [Hw G'].
  unfold MarshalIndent in Hm. destruct (forallb _ _); [|done]. injection Hm as <-. rewrite Hw in Hs.
  rewrite (resolved_key env) in Hk by (done || apply G). injection Hk as <- <-.
  assert (Hwf : store_wf st') by (pose proof (call_wf env c st (sound_wf _ S)) as H; by rewrite E in H).
  assert (Hfind : findSessionPathLocked st' (ID new) = Ok (storage_key (Workspace new))).
  { apply find_ok; [done|]. split_and!; [done|congruence|eauto]. }
  unfold Get, getLocked. rewrite Hv. cbn [mbind result_bind]. rewrite Hfind. cbn [mbind result_bind].
  apply sound_load; [done|by destruct Hs|]. apply (good_file (read_back new) G').
Qed.
End sound.

(** ** Concrete runs *)

Definition ex_env : Env :=
  {| now := 100; resolve := λ w, Some w; getwd := Some "/work"; generate := λ _, None; mkdirs := true;
     writes := true; removes := true; rolls_back := true; holds_images := λ _, true;
     clones_memory := λ _ _, true; opens_memory := λ _, true; disk := ex_disk (Some "new") |}.
Definition ex_id : string := "sess_aaaaaaaaaaaaaaaaaaaaaaaaaa".
Definition ex_message (content : string) : SessionMessage :=
  {| Role := "user"; Content := content; Attachments := []; MsgToolName := ""; ToolInput := None;
     ToolResult := ""; IsError := false; Timestamp := 7 |}.
(** What a client that starts a session passes. *)
Definition ex_new (workspace content : string) : Session :=
  {| Version := 0; Revision := 0; ID := ex_id; Title := ""; Workspace := workspace; WorkstreamID := "";
     PlanID := ""; PlanRevision := 0; StageID := ""; ExecutionPolicy := None; Messages := [ex_message content];
     Provider := "openai"; Model := "m"; CreatedAt := 0; UpdatedAt := 0; Turns := 0; ParentSessionID := "";
     ParentRevision := 0; LifecycleStatus := ""; LastCommittedRevision := 0; ReconcileRequired := false;
     Interruption := None; LastReconciliation := None; LastRunTerminal := None; LastAgentRequest := None |}.
Definition empty_store : SessionStore := {| entries := []; files := ∅; initErr := false |}.
Definition ex_save : Call := CallSave (ex_new "/work" "hello") (Some 0).
Definition ex_mark : Call := CallMarkInterrupted ex_id 1 ex_marker.
Definition ex_saved : SessionStore := run empty_store [(ex_env, ex_save)].
Definition ex_held : SessionStore := run empty_store [(ex_env, ex_save); (ex_env, ex_mark)].

(** The lifecycle of the session, and how a call on it ends. *)
Definition status_of (st : SessionStore) : option (Z * string) :=
  match Get ex_env st ex_id with Ok s => Some (Revision s, LifecycleStatus s) | Err _ => None end.
Definition error_of (r : SessionStore * result SessionError Session) : option SessionError :=
  match r.2 with Ok _ => None | Err e => Some e end.

Example ex_lifecycle :
  status_of ex_saved = Some (1, "active") ∧ status_of ex_held = Some (2, "interrupted") ∧
  error_of (call ex_env (CallRename ex_id "new title") ex_held) = Some (ErrSessionReconcileRequired "session") ∧
  error_of (call ex_env (CallSave (ex_new "/work" "more") (Some 2)) ex_held) = Some (ErrSessionReconcileRequired "session") ∧
  error_of (call ex_env (CallSave (ex_new "/work" "more") (Some 7)) ex_saved) =
    Some (ErrSessionRevisionConflict ex_id 7 1) ∧
  status_of (call ex_env (CallCommitInterruptedRun (ex_new "/work" "more") 2 ex_marker) ex_held).1 = Some (3, "active").
Proof. vm_compute. done. Qed.

Lemma empty_wf : store_wf empty_store.
Proof. by split; [constructor|]. Qed.

(** A session that loads and waits for a reconciliation is held. *)
Lemma guarded_intro env st id s :
  store_wf st → Get env st id = Ok s → ReconcileRequired s = true → guarded id st.
Proof.
  intros Hwf Hg Hrec. unfold Get in Hg. apply result_bind_ok in Hg as ([] & Hv & Hg).
  unfold getLocked in Hg. apply result_bind_ok in Hg as (dir & Hf & Hl).
  apply find_ok in Hf as (_ & _ & c & Hc & Hall); [|done].
  destruct (load_fields _ _ _ _ _ Hv Hl) as (_ & raw & Hraw & Hr & _). split; [eauto|].
  intros d f Hf. destruct (decide (d = dir)) as [->|Hne]; [|by rewrite Hall in Hf].
  exists raw. split; congruence.
Qed.

Definition loaded (st : SessionStore) (id : string) : Session :=
  the (Get ex_env st id) (ex_new "" "").

Lemma interrupted_session_is_held_witness :
  let history := [(ex_env, CallRename ex_id "new title"); (ex_env, CallClose ex_id 2)] in
  guarded ex_id (run ex_held history) ∨
  ∃ before env c after old, history = before ++ (env, c) :: after ∧
    guarded ex_id (run ex_held before) ∧ Get env (run ex_held before) ex_id = Ok old ∧ releases env c old.
Proof.
  apply interrupted_session_is_held.
  - unfold ex_held, run. cbn [fold_left fst snd]. apply call_wf, call_wf, empty_wf.
  - apply (guarded_intro ex_env _ _ (loaded ex_held ex_id)); [|vm_compute; reflexivity..].
    unfold ex_held, run. cbn [fold_left fst snd]. apply call_wf, call_wf, empty_wf.
Defined.

Lemma write_is_compare_and_swap_witness :
  ∃ dir, sole_file ex_saved ex_id dir (Regular (Decoded (written (loaded ex_saved ex_id)))).
Proof.
  apply (write_is_compare_and_swap ex_env ex_save empty_store ex_saved (loaded ex_saved ex_id));
    [exact empty_wf|reflexivity|vm_compute; reflexivity].
Defined.

Lemma failed_call_changes_nothing_witness :
  files (call ex_env (CallClose ex_id 2) ex_held).1 = files ex_held.
Proof.
  apply (failed_call_changes_nothing ex_env (CallClose ex_id 2) ex_held _ (ErrSessionReconcileRequired "session"));
    [|vm_compute; reflexivity|reflexivity].
  unfold ex_held, run. cbn [fold_left fst snd]. apply call_wf, call_wf, empty_wf.
Defined.

(** A resolver of absolute paths: what is under the root and valid stays as it is. *)
Definition ex_resolve (w : string) : option string :=
  if negb (String.eqb (trim_space w) "") && ValidString w then Some w else None.
Definition ex_env_utf8 : Env :=
  {| now := 100; resolve := ex_resolve; getwd := Some "/work"; generate := λ _, None; mkdirs := true;
     writes := true; removes := true; rolls_back := true; holds_images := λ _, true;
     clones_memory := λ _ _, true; opens_memory := λ _, true; disk := ex_disk (Some "new") |}.
Lemma ex_resolve_laws :
  (∀ w c, ex_resolve w = Some c → ex_resolve c = Some c) ∧
  (∀ w c, ex_resolve w = Some c → trim_space c ≠ "") ∧ (∀ w c, ex_resolve w = Some c → utf8 c).
Proof.
  assert (H : ∀ w c, ex_resolve w = Some c → c = w ∧ negb (String.eqb (trim_space w) "") && ValidString w = true).
  { intros w c. unfold ex_resolve. destruct (_ && _); [by intros [= <-]|done]. }
  split_and!; intros w c Hc; destruct (H _ _ Hc) as [-> Hb]; [done| |]; apply andb_prop in Hb as [H1 H2]; [|done].
  apply negb_true_iff, String.eqb_neq in H1. done.
Qed.

Lemma ex_new_clean : clean (ex_new "/work" "hello").
Proof. unfold clean. repeat (apply list.Forall_cons; split; [vm_compute; reflexivity|]). by apply Forall_nil. Qed.

Lemma store_stays_readable_witness :
  ∃ s, Get ex_env_utf8 (run empty_store [(ex_env_utf8, ex_save); (ex_env_utf8, CallRename ex_id "t")]) ex_id = Ok s.
Proof.
  destruct ex_resolve_laws as (L1 & L2 & L3).
  destruct (store_stays_readable ex_resolve L1 L2 L3 [(ex_env_utf8, ex_save); (ex_env_utf8, CallRename ex_id "t")] ex_env_utf8
    (storage_key "/work") ex_id
    (Regular (Decoded (the (Get ex_env_utf8 (run empty_store [(ex_env_utf8, ex_save); (ex_env_utf8, CallRename ex_id "t")]) ex_id)
       (ex_new "" ""))))) as (s & _ & Hs).
  - apply list.Forall_cons. split; [split_and!; [reflexivity|reflexivity|exact ex_new_clean]|].
    apply list.Forall_cons. split; [split_and!; reflexivity || exact I|]. by apply Forall_nil.
  - reflexivity.
  - vm_compute. reflexivity.
  - exists s. exact Hs.
Defined.

Definition ex_read : Session := the (Get ex_env_utf8 (call ex_env_utf8 ex_save empty_store).1 ex_id) (ex_new "" "").
Lemma ex_save_ok : call ex_env_utf8 ex_save empty_store = ((call ex_env_utf8 ex_save empty_store).1, Ok ex_read).
Proof. vm_compute. reflexivity. Qed.
Lemma saved_session_reads_back_witness :
  Get ex_env_utf8 (call ex_env_utf8 ex_save empty_store).1 (ID ex_read) =
    Ok (ex_read <| Title := coerce_utf8 (Title ex_read) |>).
Proof.
  destruct ex_resolve_laws as (L1 & L2 & L3).
  exact (saved_session_reads_back ex_resolve L1 L2 L3 ex_env_utf8 ex_save empty_store
    (call ex_env_utf8 ex_save empty_store).1 ex_read ex_env_utf8 (sound_empty ex_resolve false)
    eq_refl eq_refl eq_refl ex_new_clean eq_refl ex_save_ok).
Defined.

(** ** What modelling showed *)

(** A title is cut after fifty bytes, which need not be the end of a character: the title
    of a long message in a script of several bytes is not valid UTF-8, and what is stored
    of it ends in replacement characters. *)
Definition ex_korean : string := Nat.iter 20 (String.append (byte_str [237; 149; 156]%nat)) "".
Example title_cut_in_character :
  ValidString ex_korean = true ∧ ValidString (generated_title [ex_message ex_korean]) = false ∧
  let st := run empty_store [(ex_env, CallSave (ex_new "/work" ex_korean) None)] in
  Title (loaded st ex_id) ≠ generated_title [ex_message ex_korean].
Proof. split_and!; vm_compute; [done..|congruence]. Qed.

(** A workspace whose path is not valid UTF-8 is written as another path: saving succeeds,
    and the session can never be loaded again, nor saved, nor deleted. *)
Definition ex_latin1 : string := "/caf" +:+ byte_str [233]%nat.
Example non_utf8_workspace_is_lost :
  let '(st, r) := call ex_env (CallSave (ex_new ex_latin1 "hello") None) empty_store in
  is_ok r = true ∧ Get ex_env st ex_id = Err (ErrSessionCorrupt "workspace") ∧
  error_of (call ex_env (CallSave (ex_new ex_latin1 "hello") None) st) = Some (ErrSessionCorrupt "workspace") ∧
  error_of (call ex_env (CallDelete ex_id None) st) = Some (ErrSessionCorrupt "workspace").
Proof. vm_compute. done. Qed.

(** The limits on a marker are checked before its text is written: bytes that are not
    UTF-8 grow to three each, and the marker that was accepted is too large to be loaded. *)
Definition ex_summary : string := Nat.iter 1024 (String (ascii_of_nat 255)) "".
Example accepted_marker_corrupts :
  let marker := {| At := 5; Reason := ex_summary; RunID := ""; ToolName := ""; ToolCallID := "";
                   InputDigest := ""; SideEffectState := ""; Summary := "" |} in
  let '(st, r) := call ex_env (CallMarkInterrupted ex_id 1 marker) ex_saved in
  is_ok r = true ∧ Get ex_env st ex_id = Err (ErrSessionCorrupt "lifecycle").
Proof. vm_compute. done. Qed.

(** A session names its directory by the resolved path of its workspace at the time: once
    the workspace is moved and a link left in its place, its sessions count as corrupt. *)
Definition moved_env : Env :=
  {| now := 200; resolve := λ _, Some "/moved"; getwd := Some "/work"; generate := λ _, None; mkdirs := true;
     writes := true; removes := true; rolls_back := true; holds_images := λ _, true;
     clones_memory := λ _ _, true; opens_memory := λ _, true; disk := ex_disk None |}.
Example moved_workspace_is_corrupt :
  is_ok (Get ex_env ex_saved ex_id) = true ∧
  Get moved_env ex_saved ex_id = Err (ErrSessionCorrupt "workspace").
Proof. vm_compute. done. Qed.

(** A closed session refuses to be saved, and can still be renamed, which is a revision. *)
Example closed_session_is_renamed :
  let closed := run ex_saved [(ex_env, CallClose ex_id 1)] in
  status_of closed = Some (2, "closed") ∧
  error_of (call ex_env (CallSave (ex_new "/work" "more") None) closed) =
    Some (ErrSessionLifecycleInvalid "closed session cannot be saved") ∧
  status_of (call ex_env (CallRename ex_id "t") closed).1 = Some (3, "closed").
Proof. vm_compute. done. Qed.
