(* ===== verification/BoundedText.v ===== *)
(** * Bounded text

    The identities and texts of a durable run are trimmed, made UTF-8 and cut to a number of
    bytes (agent/durable_run.go, [contextUTF8Prefix] of agent/context_plan.go).  What comes
    out is UTF-8, within its bound, and not blank unless it is empty. *)

From S2P Require Export SessionData.
Local Open Scope string_scope.
Local Open Scope list_scope.
Local Open Scope Z_scope.

(** [strings.ToValidUTF8(value, "\uFFFD")]: one replacement for a run of bytes that are not
    UTF-8. *)
Fixpoint to_valid_bytes (fuel : nat) (invalid : bool) (bs : list Z) : list Z :=
  match fuel, bs with
  | O, _ | _, [] => []
  | S fuel', _ :: bs' =>
      match decode_rune bs with
      | Some (_, rest) => take (length bs - length rest) bs ++ to_valid_bytes fuel' false rest
      | None => (if invalid then [] else replacement_character) ++ to_valid_bytes fuel' true bs'
      end
  end.
Definition ToValidUTF8 (s : string) : string :=
  byte_str (map Z.to_nat (to_valid_bytes (strlen s) false (bytes_of s))).

Definition contextUTF8Prefix (value : string) (maxBytes : Z) : string :=
  if maxBytes <=? 0 then "" else if slen value <=? maxBytes then value
  else valid_prefix (Z.to_nat maxBytes) value.

Definition durableRunBoundedText (value : string) (limit : Z) : string :=
  let value := trim_space value in
  let value := if ValidString value then value else ToValidUTF8 value in
  if (0 <? limit) && (limit <? slen value) then contextUTF8Prefix value limit else value.

(** ** Runes at the front of a text *)

(** The bytes of one rune. *)
Definition chunk (p : list Z) : Prop := ∃ r, ∀ t, decode_rune (p ++ t) = Some (r, t).

Lemma decode_rune_chunk bs r rest : decode_rune bs = Some (r, rest) →
  ∃ p, bs = p ++ rest ∧ p ≠ [] ∧ (length p ≤ 4)%nat ∧ ∀ t, decode_rune (p ++ t) = Some (r, t).
Proof.
  destruct bs as [|a bs]; simpl; [done|]. case_match eqn:Ha.
  { intros [= <- <-]. exists [a]. split_and!; [done..|simpl; lia|]. intros t. simpl. by rewrite Ha. }
  destruct bs as [|b bs]; [done|]. case_match eqn:Hb.
  { intros [= <- <-]. exists [a; b]. split_and!; [done..|simpl; lia|]. intros t. simpl. by rewrite Ha, Hb. }
  destruct bs as [|c bs]; [done|]. case_match eqn:Hc.
  { intros [= <- <-]. exists [a; b; c]. split_and!; [done..|simpl; lia|]. intros t. simpl. by rewrite Ha, Hb, Hc. }
  destruct bs as [|d bs]; [done|]. case_match eqn:Hd; [|done].
  intros [= <- <-]. exists [a; b; c; d]. split_and!; [done..|simpl; lia|]. intros t. simpl. by rewrite Ha, Hb, Hc, Hd.
Qed.

Lemma bytes_of_app s t : bytes_of (s +:+ t) = bytes_of s ++ bytes_of t.
Proof. induction s as [|c s IH]; [done|]. unfold bytes_of in *. simpl. by rewrite IH. Qed.
Lemma bytes_of_inj s t : bytes_of s = bytes_of t → s = t.
Proof. intros H. by rewrite <-(byte_str_bytes s), <-(byte_str_bytes t), H. Qed.
Lemma length_bytes_of s : length (bytes_of s) = strlen s.
Proof. induction s as [|c s IH]; [done|]. unfold bytes_of in *. simpl. by rewrite IH. Qed.
Lemma bytes_of_take n s : bytes_of (str_take n s) = take n (bytes_of s).
Proof.
  revert s. induction n as [|n IH]; intros [|c s]; [done..|]. unfold bytes_of, str_take in *. simpl.
  f_equal. apply IH.
Qed.

Lemma space_runes_chunks : Forall (λ sp, chunk (bytes_of sp) ∧ bytes_of sp ≠ []) space_runes.
Proof. repeat (apply list.Forall_cons; split; [split; [eexists; intros t; reflexivity|done]|]). by apply Forall_nil. Qed.

(** The text is empty or starts with a rune that is not white space. *)
Definition led (s : string) : Prop :=
  s = "" ∨ ∃ p rest, bytes_of s = p ++ rest ∧ chunk p ∧ p ≠ [] ∧ p ∉ map bytes_of space_runes.

Lemma prefix_bytes r s t : bytes_of s = bytes_of r ++ t → String.prefix r s = true.
Proof.
  revert s. induction r as [|c r IH]; intros [|d s]; unfold bytes_of in *; simpl; [done..|].
  intros [= Hc Hs]. apply (f_equal Z.to_nat) in Hc. rewrite !Nat2Z.id in Hc.
  assert (c = d) as -> by (rewrite <-(ascii_nat_embedding c), <-(ascii_nat_embedding d); congruence).
  destruct (ascii_dec d d); [|done]. by apply (IH s).
Qed.

Lemma chunk_unique p q t u : chunk p → chunk q → p ++ t = q ++ u → p = q.
Proof.
  intros [r Hp] [r' Hq] H. pose proof (Hp t) as E. rewrite H, Hq in E. injection E as _ ->.
  by apply app_inv_tail in H.
Qed.

Lemma led_unstrippable s : led s → unstrippable space_runes s.
Proof.
  intros [->|(p & rest & Hs & Hp & _ & Hsp)]; [done|]. apply unstrippable_spec. intros sp Hin.
  destruct (String.prefix sp s) eqn:E; [|done]. apply prefix_spec in E as [t ->].
  rewrite bytes_of_app in Hs. destruct Hsp.
  pose proof space_runes_chunks as Hc. rewrite Forall_elem in Hc. destruct (Hc sp Hin) as [Hc' _].
  rewrite <-(chunk_unique _ _ _ _ Hc' Hp Hs). apply list_elem_of_In, in_map. by apply list_elem_of_In.
Qed.

Lemma strip_many_empty runes fuel s :
  Forall (λ r, (0 < strlen r)%nat) runes →
  strip_many fuel runes s = "" → s = "" ∨ ∃ r u, r ∈ runes ∧ s = u +:+ r.
Proof.
  intros Hpos. revert s. induction fuel as [|fuel IH]; intros s; simpl; [by left|].
  destruct (strip_one runes s) as [s'|] eqn:E; [|by left]. intros H. right.
  apply (strip_one_Some _ Hpos) in E as (r & Hr & ->). destruct (IH s' H) as [->|(r' & u & Hr' & ->)].
  - exists r, "". split; [done|]. apply str_app_nil_r.
  - exists r', (r +:+ u). split; [done|]. by rewrite str_app_assoc.
Qed.

Lemma led_not_blank s : led s → s ≠ "" → trim_space s ≠ "".
Proof.
  intros Hl Hs H. apply led_unstrippable in Hl. unfold trim_space, trim_left_space in H.
  rewrite strip_many_id in H by done. unfold trim_right_space in H.
  apply (f_equal String.rev) in H. rewrite str_rev_involutive in H.
  apply strip_many_empty in H as [H|(r & u & Hr & H)]; [| |exact space_runes_rev_pos]; apply (f_equal String.rev) in H;
    rewrite str_rev_involutive in H; [done|].
  apply list_elem_of_In, in_map_iff in Hr as (sp & <- & Hsp%list_elem_of_In). rewrite str_rev_app, str_rev_involutive in H.
  rewrite unstrippable_spec in Hl. specialize (Hl sp Hsp). rewrite H in Hl.
  enough (String.prefix sp (sp +:+ String.rev u) = true) by congruence. apply prefix_spec. by eexists.
Qed.

(** ** UTF-8 as a sequence of runes *)

Inductive utf8_bytes : list Z → Prop :=
| utf8_nil : utf8_bytes []
| utf8_rune p rest : chunk p → p ≠ [] → utf8_bytes rest → utf8_bytes (p ++ rest).

Lemma chunk_head bs r rest : decode_rune bs = Some (r, rest) → ∃ p, bs = p ++ rest ∧ p ≠ [] ∧ (length p ≤ 4)%nat ∧ chunk p.
Proof. intros (p & ? & ? & ? & ?)%decode_rune_chunk. exists p. split_and!; [done..|by exists r]. Qed.

Lemma runes_fuel_utf8 fuel bs : (length bs ≤ fuel)%nat → is_Some (runes_fuel fuel bs) ↔ utf8_bytes bs.
Proof.
  revert bs. induction fuel as [|fuel IH]; intros [|b bs] Hlen; simpl in Hlen; try lia.
  1, 2: split; [constructor|by eexists].
  cbn [runes_fuel]. destruct (decode_rune (b :: bs)) as [[r rest]|] eqn:Hd; cbn [mbind option_bind fst snd].
  - destruct (chunk_head _ _ _ Hd) as (p & Hp & Hne & _ & Hc). assert (length rest ≤ fuel)%nat.
    { apply (f_equal length) in Hp. rewrite length_app in Hp. destruct p; simpl in *; [done|lia]. }
    split.
    + intros [? E]. rewrite Hp. constructor; [done..|]. apply IH; [done|].
      destruct (runes_fuel fuel rest); [by eexists|done].
    + intros H'. inversion H' as [|p' rest' [r' Hc'] Hne' Hr' Heq].
      assert (rest' = rest) as ->. { rewrite <-Heq, Hc' in Hd. by injection Hd. }
      apply IH in Hr' as [rs ->]; [by eexists|done].
  - split; [by intros []|]. intros H'. inversion H' as [|p' rest' [r' Hc'] Hne' Hr' Heq].
    rewrite <-Heq, Hc' in Hd. done.
Qed.

Lemma utf8_iff s : utf8 s ↔ utf8_bytes (bytes_of s).
Proof.
  unfold utf8, ValidString, runes_of. rewrite bool_decide_eq_true. apply runes_fuel_utf8. by rewrite length_bytes_of.
Qed.

Lemma replacement_chunk : chunk replacement_character.
Proof. eexists. intros t. reflexivity. Qed.

Lemma to_valid_utf8 fuel invalid bs : utf8_bytes (to_valid_bytes fuel invalid bs).
Proof.
  revert invalid bs. induction fuel as [|fuel IH]; intros invalid [|b bs]; [constructor..|]. cbn [to_valid_bytes].
  destruct (decode_rune (b :: bs)) as [[r rest]|] eqn:Hd.
  - destruct (chunk_head _ _ _ Hd) as (p & -> & Hne & _ & Hc). rewrite length_app, Nat.add_sub, take_app_length.
    by constructor.
  - destruct invalid; [apply IH|]. constructor; [apply replacement_chunk|done|apply IH].
Qed.

Lemma to_valid_range fuel invalid bs : Forall (λ b, 0 ≤ b < 256) bs → Forall (λ b, 0 ≤ b < 256) (to_valid_bytes fuel invalid bs).
Proof.
  revert invalid bs. induction fuel as [|fuel IH]; intros invalid [|b bs] H; [by apply Forall_nil..|].
  cbn [to_valid_bytes]. destruct (decode_rune (b :: bs)) as [[r rest]|] eqn:Hd.
  - destruct (chunk_head _ _ _ Hd) as (p & Hp & _). rewrite Hp in H |- *. apply Forall_app in H as [H1 H2].
    rewrite length_app, Nat.add_sub, take_app_length. apply Forall_app. auto.
  - apply list.Forall_cons in H as [_ H]. apply Forall_app. split; [|auto].
    destruct invalid; [by apply Forall_nil|]. repeat (apply list.Forall_cons; split; [lia|]). by apply Forall_nil.
Qed.

Lemma bytes_of_range s : Forall (λ b, 0 ≤ b < 256) (bytes_of s).
Proof.
  unfold bytes_of. apply Forall_elem. intros b (c & <- & _)%list_elem_of_In%in_map_iff.
  pose proof (nat_ascii_bounded c). lia.
Qed.
Lemma bytes_of_str bs : Forall (λ b, 0 ≤ b < 256) bs → bytes_of (byte_str (map Z.to_nat bs)) = bs.
Proof.
  unfold bytes_of, byte_str. induction 1 as [|b bs Hb _ IH]; [done|]. simpl. rewrite IH. f_equal.
  rewrite nat_ascii_embedding; lia.
Qed.
Lemma bytes_of_valid s : bytes_of (ToValidUTF8 s) = to_valid_bytes (strlen s) false (bytes_of s).
Proof. apply bytes_of_str, to_valid_range, bytes_of_range. Qed.

Lemma ToValidUTF8_utf8 s : utf8 (ToValidUTF8 s).
Proof. rewrite utf8_iff, bytes_of_valid. apply to_valid_utf8. Qed.

(** ** Trimmed, made UTF-8, cut *)

Lemma unstrippable_rune s p rest :
  unstrippable space_runes s → bytes_of s = p ++ rest → p ∉ map bytes_of space_runes.
Proof.
  rewrite unstrippable_spec. intros H Hs Hin. apply list_elem_of_In, in_map_iff in Hin as (sp & <- & Hsp).
  apply list_elem_of_In in Hsp. specialize (H sp Hsp). by rewrite (prefix_bytes _ _ _ Hs) in H.
Qed.

Lemma trimmed_led s : unstrippable space_runes s → utf8 s → led s.
Proof.
  intros Hs Hu. rewrite utf8_iff in Hu. inversion Hu as [E|p rest Hc Hne _ E].
  - left. by apply bytes_of_inj.
  - right. exists p, rest. split_and!; [done..|]. by eapply unstrippable_rune.
Qed.

Lemma replacement_not_space : replacement_character ∉ map bytes_of space_runes.
Proof. apply (bool_decide_unpack _). vm_compute. exact I. Qed.

Lemma valid_led s : unstrippable space_runes s → led (ToValidUTF8 s).
Proof.
  intros Hs. pose proof (bytes_of_valid s) as E. rewrite <-length_bytes_of in E.
  destruct (bytes_of s) as [|b bs] eqn:Hbs; [left; by apply bytes_of_inj|]. right. cbn [length to_valid_bytes] in E.
  destruct (decode_rune (b :: bs)) as [[r rest]|] eqn:Hd.
  - destruct (chunk_head _ _ _ Hd) as (p & Hp & Hne & _ & Hc). rewrite Hp in Hbs.
    change (S (length bs)) with (length (b :: bs)) in E. rewrite Hp, length_app, Nat.add_sub, take_app_length in E.
    eexists p, _. split_and!; [done..|]. by eapply unstrippable_rune.
  - eexists replacement_character, _. split_and!; [exact E|exact replacement_chunk|done|exact replacement_not_space].
Qed.

Lemma valid_prefix_spec m n s : (m ≤ n)%nat → ValidString (str_take m s) = true →
  ∃ k, (m ≤ k ≤ n)%nat ∧ valid_prefix n s = str_take k s ∧ utf8 (str_take k s).
Proof.
  intros Hm Hv. induction n as [|n IH].
  - exists O. assert (m = O) as -> by lia. split_and!; [lia..|by destruct s|done].
  - cbn [valid_prefix]. destruct (ValidString (str_take (S n) s)) eqn:E; [exists (S n); split_and!; [lia..|done|done]|].
    destruct (decide (m = S n)) as [->|Hne]; [congruence|].
    destruct IH as (k & ? & ? & ?); [lia|]. exists k. split_and!; [lia..|done|done].
Qed.

Lemma slen_take k s : slen (str_take k s) ≤ Z.of_nat k.
Proof. unfold slen. rewrite <-length_bytes_of, bytes_of_take, length_take. lia. Qed.

(** A cut of a text at four bytes or more keeps its first rune. *)
Lemma prefix_led n s : (4 ≤ n)%nat → led s → utf8 s → led (valid_prefix n s) ∧ (s ≠ "" → valid_prefix n s ≠ "").
Proof.
  intros Hn Hl Hu. rewrite utf8_iff in Hu. inversion Hu as [E|p rest Hc Hne Hr E].
  - assert (s = "") as -> by by apply bytes_of_inj.
    destruct (valid_prefix_spec O n "") as (k & _ & -> & _); [lia|done|]. 
    assert (str_take k "" = "") as -> by by destruct k. split; [by left|done].
  - assert (Hp : (length p ≤ 4)%nat ∧ p ∉ map bytes_of space_runes).
    { destruct Hc as [r Hc]. destruct (chunk_head _ _ _ (Hc rest)) as (q & Hq & _ & Hq4 & Hqc).
      assert (p = q) as -> by (by apply app_inv_tail in Hq). split; [done|].
      destruct Hl as [->|(q' & rest' & Hs & Hc' & _ & Hsp)]; [by destruct q|].
      rewrite <-E in Hs. by rewrite (chunk_unique _ _ _ _ Hqc Hc' Hs). }
    destruct Hp as [Hp4 Hsp].
    destruct (valid_prefix_spec (length p) n s) as (k & Hk & -> & Huk); [lia| |].
    { apply utf8_iff. rewrite bytes_of_take, <-E, take_app_length, <-(app_nil_r p). by constructor; [| |constructor]. }
    assert (Hb : bytes_of (str_take k s) = p ++ take (k - length p) rest).
    { rewrite bytes_of_take, <-E, take_app_ge by lia. done. }
    split; [right; by exists p, (take (k - length p) rest)|].
    intros _ E'. rewrite E' in Hb. by destruct p.
Qed.

Lemma durableRunBoundedText_spec value limit : 4 ≤ limit →
  let text := durableRunBoundedText value limit in
  utf8 text ∧ slen text ≤ limit ∧ (text = "" ∨ trim_space text ≠ "").
Proof.
  intros Hlim. unfold durableRunBoundedText.
  destruct (trim_space_trimmed value) as [Hu _]. set (t := trim_space value) in *.
  set (u := if ValidString t then t else ToValidUTF8 t).
  assert (H : led u ∧ utf8 u).
  { unfold u. destruct (ValidString t) eqn:E; [split; [by apply trimmed_led|done]|].
    split; [by apply valid_led|apply ToValidUTF8_utf8]. }
  destruct H as [Hled Hutf]. assert (Hblank : ∀ s, led s → s = "" ∨ trim_space s ≠ "").
  { intros s Hs. destruct (decide (s = "")) as [->|Hne]; [by left|right; by apply led_not_blank]. }
  rewrite (proj2 (Z.ltb_lt 0 limit)) by lia. simpl.
  destruct (limit <? slen u) eqn:E; [|split_and!; [done|lia|auto]].
  unfold contextUTF8Prefix. rewrite (proj2 (Z.leb_gt limit 0)), (proj2 (Z.leb_gt (slen u) limit)) by lia.
  destruct (prefix_led (Z.to_nat limit) u) as [Hpl _]; [lia|done|done|].
  destruct (valid_prefix_spec O (Z.to_nat limit) u) as (k & Hk & Hv & Hkv); [lia|by destruct u|].
  rewrite Hv in Hpl |- *. split_and!; [done| |auto]. pose proof (slen_take k u). lia.
Qed.
