(* ===== verification/DurableRun.v ===== *)
(** * What is durable of a run

    agent/durable_run.go and [AggregateToolExecutionJournal] of agent/sessions.go: the
    observer that turns the events of a run into the messages to save and the marker of an
    interruption, and the journal that computes such a marker before a tool runs.  The
    events of parallel tools come in any order; the marker does not depend on it, is always
    one that a session accepts ([MarkInterrupted] of [SessionStore]), and is the one the
    journal computed.  [redactSensitiveString] and [sanitizeReceiptString], chains of regular
    expressions, are arguments. *)

From S2P Require ApprovalProof.
From S2P Require Import BoundedText.
Local Open Scope string_scope.
Local Open Scope list_scope.
Local Open Scope Z_scope.

(** ** State *)

Definition durableRunAssistantLimitBytes : Z := 2 ^ 20.
Definition durableRunToolResultLimitBytes : Z := 64 * 2 ^ 10.

Record durableRunTool := {
  DtRunID : string;
  DtToolName : string;
  DtToolCallID : string;
  DtInputDigest : string;
  SideEffect : SessionSideEffectState;
  ResultSeen : bool;
}.
#[export] Instance durableRunTool_eq_dec : EqDecision durableRunTool.
Proof. solve_decision. Defined.

Record DurableRunObserver := {
  ObRunID : string;
  assistant : string;
  assistantClipped : bool;
  messages : list SessionMessage;
  tools : list durableRunTool;
  toolIndexes : gmap string (list nat);
  ambiguousToolIDs : bool;
  completed : bool;
  terminal : option DurableRunTerminalMetadata;
}.
#[export] Instance eta_DurableRunObserver : Eta DurableRunObserver := λ o,
  Build_DurableRunObserver (ObRunID o) (assistant o) (assistantClipped o) (messages o) (tools o)
    (toolIndexes o) (ambiguousToolIDs o) (completed o) (terminal o).
#[export] Instance eta_durableRunTool : Eta durableRunTool := λ t,
  Build_durableRunTool (DtRunID t) (DtToolName t) (DtToolCallID t) (DtInputDigest t) (SideEffect t) (ResultSeen t).

(** The data of an event, as decoded; [None] when it does not decode. *)
Record StartData := { SdID : string; SdName : string; SdInputDigest : string; SdRunID : string }.
Record ResultData := { RdID : string; RdResult : string; RdIsError : bool; Executed : bool }.
Record TerminalData := {
  TdTerminalState : option string;
  TdCompletionStatus : option string;
  TdCompletionRevision : option Z;
  TdCompletionCriteria : option Z;
  TdCompletionSatisfied : option Z;
  TdCompletionBlocked : option Z;
}.
Inductive Event :=
| TextEvent (text : option string)
| StartEvent (data : option StartData)
| ResultEvent (data : option ResultData)
| DoneEvent (data : option TerminalData)
| OtherEvent.

Definition NewDurableRunObserver (runID : string) : DurableRunObserver :=
  Build_DurableRunObserver (durableRunBoundedText runID 256) "" false [] [] ∅ false false None.
Definition SetRunID (runID : string) (o : DurableRunObserver) : DurableRunObserver :=
  if completed o then o else o <| ObRunID := durableRunBoundedText runID 256 |>.

(** ** The terminal of a run *)

Definition sanitizeCompletionContractStatus (value : string) : string :=
  if existsb (String.eqb value) ["complete"; "incomplete"; "blocked"] then value else "incomplete".
Definition valid_count (count : option Z) : option Z :=
  match count with Some n => if validDurableRunCompletionCount n then Some n else None | None => None end.

Definition durableRunTerminalFromEvent (value : option TerminalData) : option DurableRunTerminalMetadata :=
  match value with
  | None => None
  | Some input =>
      let state := match TdTerminalState input with
        | Some s => if String.eqb (durableRunTerminalState s) "" then None else Some (durableRunTerminalState s)
        | None => None end in
      let status : option string := sanitizeCompletionContractStatus <$> TdCompletionStatus input in
      let criteria := valid_count (TdCompletionCriteria input) in
      let satisfied := valid_count (TdCompletionSatisfied input) in
      let blocked := valid_count (TdCompletionBlocked input) in
      if (if state then true else false) || (if status then true else false) ||
         (if TdCompletionRevision input then true else false) || (if criteria then true else false) ||
         (if satisfied then true else false) || (if blocked then true else false)
      then
        let status := if 0 <? default 0 blocked then "blocked" else default "" status in
        let state := if String.eqb status "incomplete" || String.eqb status "blocked"
                     then "blocked" else default "" state in
        Some {| TerminalState := state; CompletionStatus := status;
                CompletionRevision := default 0 (TdCompletionRevision input);
                CompletionCriteria := default 0 criteria; CompletionSatisfied := default 0 satisfied;
                CompletionBlocked := default 0 blocked |}
      else None
  end.

Definition BlocksSuccess (m : DurableRunTerminalMetadata) : bool :=
  String.eqb (TerminalState m) "blocked" || String.eqb (CompletionStatus m) "incomplete" ||
  String.eqb (CompletionStatus m) "blocked" || (0 <? CompletionBlocked m).

(** ** Observing *)

Section observer.
Context (redactSensitiveString sanitizeReceiptString : string → string).

Definition appendAssistantLocked (value : string) (o : DurableRunObserver) : DurableRunObserver :=
  if String.eqb value "" || assistantClipped o then o else
  let value := if ValidString value then value else ToValidUTF8 value in
  let remaining := durableRunAssistantLimitBytes - slen (assistant o) in
  if remaining <=? 0 then o <| assistantClipped := true |>
  else if remaining <? slen value then
    o <| assistant := assistant o +:+ contextUTF8Prefix value remaining |> <| assistantClipped := true |>
  else o <| assistant := assistant o +:+ value |>.

Definition truncated_note : string := String "010" (String "010" "[durable transcript truncated]").
Definition flushAssistantLocked (now : time) (o : DurableRunObserver) : DurableRunObserver :=
  if String.eqb (assistant o) "" && negb (assistantClipped o) then o else
  let content := if assistantClipped o then assistant o +:+ truncated_note else assistant o in
  o <| messages := messages o ++
         [{| Role := "assistant"; Content := redactSensitiveString content; Attachments := [];
             MsgToolName := ""; ToolInput := None; ToolResult := ""; IsError := false; Timestamp := now |}] |>
    <| assistant := "" |> <| assistantClipped := false |>.

(** The occurrences of a tool call that have no result yet. *)
Definition unresolved (o : DurableRunObserver) (id : string) : list nat :=
  List.filter (λ i, match tools o !! i with Some t => negb (ResultSeen t) | None => false end)
    (default [] (toolIndexes o !! id)).

Definition observe_start (data : StartData) (now : time) (o : DurableRunObserver) : DurableRunObserver :=
  let id := durableRunBoundedText (SdID data) 256 in
  let name := durableRunBoundedText (SdName data) 128 in
  if String.eqb id "" || String.eqb name "" || negb (sessionInputDigestPattern (SdInputDigest data)) then o else
  let o := if bool_decide (unresolved o id = []) then o else o <| ambiguousToolIDs := true |> in
  let o := flushAssistantLocked now o in
  let runID := durableRunBoundedText (SdRunID data) 256 in
  let tool := {| DtRunID := if String.eqb runID "" then ObRunID o else runID; DtToolName := name;
                 DtToolCallID := id; DtInputDigest := SdInputDigest data;
                 SideEffect := SessionSideEffectStarted; ResultSeen := false |} in
  o <| toolIndexes := <[id := default [] (toolIndexes o !! id) ++ [length (tools o)]]> (toolIndexes o) |>
    <| tools := tools o ++ [tool] |>.

Definition durableRunToolReference (tool : durableRunTool) : json :=
  JObject [("toolCallId", JString (DtToolCallID tool)); ("inputDigest", JString (DtInputDigest tool))].
Definition durableRunToolResult (value : string) : string :=
  sanitizeReceiptString (durableRunBoundedText value durableRunToolResultLimitBytes).

(** A result settles the latest occurrence that has none. *)
Definition observe_result (data : ResultData) (now : time) (o : DurableRunObserver) : DurableRunObserver :=
  let open := unresolved o (durableRunBoundedText (RdID data) 256) in
  match list.last open with
  | None => o
  | Some index =>
      let o := if (1 <? Z.of_nat (length open)) then o <| ambiguousToolIDs := true |> else o in
      let o := flushAssistantLocked now o in
      match tools o !! index with
      | None => o
      | Some tool =>
          let result := durableRunToolResult (RdResult data) in
          o <| tools := <[index := tool <| SideEffect := if RdIsError data then SessionSideEffectMayHaveApplied
                                                         else SessionSideEffectApplied |>
                                        <| ResultSeen := true |>]> (tools o) |>
            <| messages := messages o ++
                 [{| Role := "tool"; Content := result; Attachments := []; MsgToolName := DtToolName tool;
                     ToolInput := Some (durableRunToolReference tool); ToolResult := result;
                     IsError := RdIsError data; Timestamp := now |}] |>
      end
  end.

Definition Observe (now : time) (event : Event) (o : DurableRunObserver) : DurableRunObserver :=
  if completed o then o else
  match event with
  | TextEvent (Some text) => appendAssistantLocked text o
  | StartEvent (Some data) => observe_start data now o
  | ResultEvent (Some data) => if Executed data then observe_result data now o else o
  | DoneEvent data =>
      let o := match durableRunTerminalFromEvent data with
               | Some t => o <| terminal := Some t |> | None => o end in
      (flushAssistantLocked now o) <| completed := true |>
  | _ => o
  end.
Definition observe_all (events : list (time * Event)) (o : DurableRunObserver) : DurableRunObserver :=
  fold_left (λ o e, Observe e.1 e.2 o) events o.

Definition TerminalMetadata (o : DurableRunObserver) : option DurableRunTerminalMetadata :=
  if completed o then terminal o else None.
Definition Messages_ (o : DurableRunObserver) : list SessionMessage :=
  if completed o then messages o else [].
Definition ReconciliationRequired (o : DurableRunObserver) : bool :=
  ambiguousToolIDs o || existsb (λ t, negb (ResultSeen t)) (tools o).
Definition HasToolActivity (o : DurableRunObserver) : bool := negb (bool_decide (tools o = [])).
End observer.

(** ** Markers *)

Definition tool_less : durableRunTool → durableRunTool → bool :=
  less_then (less_str DtToolCallID) (less_then (less_str DtInputDigest) (less_str DtToolName)).
Definition state_json (t : durableRunTool) : string :=
  json_object [("toolCallId", json_string (coerce_utf8 (DtToolCallID t)));
               ("toolName", json_string (coerce_utf8 (DtToolName t)));
               ("inputDigest", json_string (coerce_utf8 (DtInputDigest t)));
               ("sideEffectState", json_string (coerce_utf8 (SideEffect t)))].
Definition aggregate_digest (sorted : list durableRunTool) : string :=
  "sha256:" +:+ sha256_hex (json_array (map state_json sorted)).
Definition aggregate_summary (count : nat) : string :=
  "Agent run ended after " +:+ pretty (Z.of_nat count) +:+
  " tool executions began; reconcile every side effect represented by the aggregate digest before resuming.".

(** The run id of several tools: theirs if it is one, or the observer's. *)
Definition common_run_id (fallback : string) (sorted : list durableRunTool) : string :=
  fold_left (λ runID t, if String.eqb runID "" then DtRunID t
                        else if negb (String.eqb runID (DtRunID t)) then fallback else runID) sorted "".
Definition combined_state (sorted : list durableRunTool) : SessionSideEffectState :=
  if forallb (λ t, String.eqb (SideEffect t) SessionSideEffectApplied) sorted
  then SessionSideEffectApplied else SessionSideEffectMayHaveApplied.

Definition interruptionToolLocked (o : DurableRunObserver) : durableRunTool * string :=
  match tools o with
  | [tool] =>
      (tool, "Agent run ended after tool execution began; reconcile the recorded side effect before resuming.")
  | _ =>
      let sorted := stable_sort tool_less (tools o) in
      ({| DtRunID := common_run_id (ObRunID o) sorted; DtToolName := "multiple_tools";
          DtToolCallID := "multiple"; DtInputDigest := aggregate_digest sorted;
          SideEffect := combined_state sorted; ResultSeen := false |}, aggregate_summary (length sorted))
  end.

Definition reconciliationMarker (now : time) (reason : string) (includeCompleted : bool) (o : DurableRunObserver)
    : option SessionInterruption :=
  if (negb includeCompleted && completed o) || bool_decide (tools o = []) then None else
  let '(tool, summary) := interruptionToolLocked o in
  let reason := durableRunBoundedText reason 1024 in
  if String.eqb (DtRunID tool) "" then
    Some {| At := now; Reason := reason; RunID := ""; ToolName := ""; ToolCallID := ""; InputDigest := "";
            SideEffectState := ""; Summary := "" |}
  else Some {| At := now; Reason := reason; RunID := DtRunID tool; ToolName := DtToolName tool;
               ToolCallID := DtToolCallID tool; InputDigest := DtInputDigest tool;
               SideEffectState := SideEffect tool; Summary := summary |}.
Definition Interruption_ (now : time) (reason : string) := reconciliationMarker now reason false.
Definition ReconciliationMarker (now : time) (reason : string) := reconciliationMarker now reason true.

(** ** The journal (agent/sessions.go) *)

(** An execution that is about to start (agent/run_options.go). *)
Record ToolExecutionJournalEntry := { JeID : string; JeName : string; JeInputDigest : string; JeRunID : string }.

Definition journal_state (runID : string) (entry : ToolExecutionJournalEntry) : result SessionError durableRunTool :=
  let id := trim_space (JeID entry) in
  let name := trim_space (JeName entry) in
  let entryRunID := trim_space (JeRunID entry) in
  _ ← guard_err (negb (String.eqb id "" || String.eqb name "" || String.eqb entryRunID ""))
        (ErrSessionLifecycleInvalid "execution journal identity is incomplete");
  _ ← guard_err (String.eqb entryRunID runID) (ErrSessionLifecycleInvalid "execution journal run id changed");
  let state := {| DtRunID := runID; DtToolName := name; DtToolCallID := id;
                  DtInputDigest := trim_space (JeInputDigest entry); SideEffect := SessionSideEffectStarted;
                  ResultSeen := false |} in
  _ ← ValidateSessionInterruption
        {| At := 0; Reason := ""; RunID := runID; ToolName := name; ToolCallID := id;
           InputDigest := DtInputDigest state; SideEffectState := SessionSideEffectStarted;
           Summary := "execution journal" |};
  Ok state.
Fixpoint journal_states (runID : string) (entries : list ToolExecutionJournalEntry)
    : result SessionError (list durableRunTool) :=
  match entries with
  | [] => Ok []
  | e :: entries' =>
      s ← journal_state runID e; states ← journal_states runID entries'; Ok (s :: states)
  end.

Definition AggregateToolExecutionJournal (entries : list ToolExecutionJournalEntry) (at_ : time) (reason : string)
    : result SessionError SessionInterruption :=
  match entries with
  | [] => Err (ErrSessionLifecycleInvalid "execution journal is empty")
  | e :: _ =>
      let runID := trim_space (JeRunID e) in
      states ← journal_states runID entries;
      let sorted := stable_sort tool_less states in
      let marker name id digest state summary :=
        {| At := at_; Reason := trim_space reason; RunID := runID; ToolName := name; ToolCallID := id;
           InputDigest := digest; SideEffectState := state; Summary := summary |} in
      let m :=
        match sorted with
        | [t] => marker (DtToolName t) (DtToolCallID t) (DtInputDigest t) SessionSideEffectStarted
                   "Authorized tool execution started; marker quarantines the entire run."
        | _ => marker "multiple_tools" "multiple" (aggregate_digest sorted) SessionSideEffectMayHaveApplied
                 (aggregate_summary (length sorted))
        end in
      _ ← ValidateSessionInterruption m;
      Ok m
  end.

(** ** Lemmas: updating the last element that satisfies a test *)

Section update_last.
Context {A : Type} (p : A → bool) (f : A → A).

Fixpoint update_last (l : list A) : list A :=
  match l with
  | [] => []
  | x :: l' => if existsb p l' then x :: update_last l' else if p x then f x :: l' else x :: l'
  end.

Lemma update_last_none l : existsb p l = false → update_last l = l.
Proof. destruct l as [|x l]; [done|]. simpl. by intros [-> ->]%orb_false_iff. Qed.

Lemma update_last_snoc l x : update_last (l ++ [x]) = if p x then l ++ [f x] else update_last l ++ [x].
Proof.
  induction l as [|y l IH]; simpl; [by destruct (p x)|]. rewrite existsb_app. simpl. rewrite orb_false_r, IH.
  destruct (p x); [by rewrite orb_true_r|]. rewrite orb_false_r. by destruct (existsb p l), (p y).
Qed.

Definition holds (l : list A) (i : nat) : bool := match l !! i with Some x => p x | None => false end.

Lemma holds_snoc l x :
  List.filter (holds (l ++ [x])) (seq 0 (length (l ++ [x]))) =
  List.filter (holds l) (seq 0 (length l)) ++ (if p x then [length l] else []).
Proof.
  rewrite length_app, Nat.add_1_r, seq_S, List.filter_app. simpl.
  rewrite (List.filter_ext_in (holds (l ++ [x])) (holds l)).
  2: { intros i [_ Hi]%in_seq. unfold holds. by rewrite lookup_app_l by lia. }
  unfold holds at 2. by rewrite list_lookup_middle by done.
Qed.

Lemma last_index l :
  match list.last (List.filter (holds l) (seq 0 (length l))) with
  | Some i => ∃ x, l !! i = Some x ∧ p x = true ∧ update_last l = <[i := f x]> l
  | None => update_last l = l
  end.
Proof.
  induction l as [|x l IH] using rev_ind; [done|]. rewrite holds_snoc, update_last_snoc. destruct (p x) eqn:Hx.
  - rewrite last_snoc. exists x. split_and!; [by apply list_lookup_middle|done|].
    rewrite insert_app_r_alt by lia. by rewrite Nat.sub_diag.
  - rewrite app_nil_r. destruct (list.last _) as [i|]; [|by rewrite IH].
    destruct IH as (y & Hy & Hpy & ->). exists y. apply lookup_lt_Some in Hy as Hlt.
    by rewrite lookup_app_l, insert_app_l.
Qed.

Context {K : Type} `{EqDecision K} (key : A → K) (k : K).
Context (same_key : ∀ x, key (f x) = key x).

Lemma update_last_filter l : (∀ x, p x = true → key x = k) →
  filter (λ x, key x = k) (update_last l) = update_last (filter (λ x, key x = k) l).
Proof using same_key.
  intros Hp. assert (He : ∀ l, existsb p (filter (λ x, key x = k) l) = existsb p l).
  { clear l. intros l. induction l as [|x l IH]; [done|]. rewrite filter_cons.
    destruct (decide (key x = k)) as [|Hk]; simpl; rewrite IH; [done|].
    destruct (p x) eqn:E; [by apply Hp in E|done]. }
  induction l as [|x l IH]; [done|]. simpl update_last at 1. rewrite (filter_cons _ x l).
  destruct (existsb p l) eqn:E.
  - rewrite filter_cons, IH. destruct (decide (key x = k)); [|done]. simpl. by rewrite He, E.
  - destruct (p x) eqn:Hx.
    + rewrite filter_cons, same_key, decide_True by auto. rewrite decide_True by auto. simpl. by rewrite He, E, Hx.
    + rewrite filter_cons. symmetry. destruct (decide (key x = k)); simpl; rewrite ?He, ?E, ?Hx; [done|].
      apply update_last_none. by rewrite He.
Qed.

Lemma update_last_elsewhere l : (∀ x, p x = true → key x ≠ k) →
  filter (λ x, key x = k) (update_last l) = filter (λ x, key x = k) l.
Proof using same_key.
  intros Hp. induction l as [|x l IH]; [done|]. simpl. destruct (existsb p l) eqn:E.
  - by rewrite !filter_cons, IH.
  - destruct (p x) eqn:Hx; [|done]. by rewrite !filter_cons, same_key, !decide_False by auto.
Qed.
End update_last.

(** ** Lemmas: what the observer keeps *)

Definition bounded (limit : Z) (s : string) : Prop :=
  utf8 s ∧ slen s ≤ limit ∧ (s = "" ∨ trim_space s ≠ "").

Lemma bounded_text limit value : 4 ≤ limit → bounded limit (durableRunBoundedText value limit).
Proof. apply durableRunBoundedText_spec. Qed.

Record tool_ok (t : durableRunTool) : Prop := {
  ok_run : bounded 256 (DtRunID t);
  ok_name : bounded 128 (DtToolName t) ∧ DtToolName t ≠ "";
  ok_id : bounded 256 (DtToolCallID t) ∧ DtToolCallID t ≠ "";
  ok_digest : sessionInputDigestPattern (DtInputDigest t) = true;
  ok_state : SideEffect t ∈ (if ResultSeen t then [SessionSideEffectApplied; SessionSideEffectMayHaveApplied]
                             else [SessionSideEffectStarted]);
}.

(** What a message says of a tool call, and what the tool call was. *)
Definition message_outcome (m : SessionMessage) : string * option json * bool := (MsgToolName m, ToolInput m, IsError m).
Definition tool_outcome (t : durableRunTool) : string * option json * bool :=
  (DtToolName t, Some (durableRunToolReference t), negb (String.eqb (SideEffect t) SessionSideEffectApplied)).
Definition tool_outcomes (ms : list SessionMessage) : list (string * option json * bool) :=
  map message_outcome (filter (λ m, Role m = "tool") ms).

Definition has_id (id : string) (t : durableRunTool) : bool := String.eqb (DtToolCallID t) id.
Definition open_with (id : string) (t : durableRunTool) : bool := has_id id t && negb (ResultSeen t).

Record observer_ok (o : DurableRunObserver) : Prop := {
  ok_fallback : bounded 256 (ObRunID o);
  ok_tools : Forall tool_ok (tools o);
  ok_index : ∀ id, default [] (toolIndexes o !! id) = List.filter (holds (has_id id) (tools o)) (seq 0 (length (tools o)));
  ok_messages : tool_outcomes (messages o) ≡ₚ map tool_outcome (filter (λ t, ResultSeen t = true) (tools o));
}.

Definition settle (isError : bool) (t : durableRunTool) : durableRunTool :=
  t <| SideEffect := if isError then SessionSideEffectMayHaveApplied else SessionSideEffectApplied |>
    <| ResultSeen := true |>.

(** The tools after an event. *)
Definition started_tool (runID : string) (data : StartData) : option durableRunTool :=
  let id := durableRunBoundedText (SdID data) 256 in
  let name := durableRunBoundedText (SdName data) 128 in
  let run := durableRunBoundedText (SdRunID data) 256 in
  if String.eqb id "" || String.eqb name "" || negb (sessionInputDigestPattern (SdInputDigest data)) then None
  else Some {| DtRunID := if String.eqb run "" then runID else run; DtToolName := name; DtToolCallID := id;
               DtInputDigest := SdInputDigest data; SideEffect := SessionSideEffectStarted; ResultSeen := false |}.
Definition tools_step (runID : string) (e : Event) (l : list durableRunTool) : list durableRunTool :=
  match e with
  | StartEvent (Some data) => l ++ option_list (started_tool runID data)
  | ResultEvent (Some data) =>
      if Executed data then update_last (open_with (durableRunBoundedText (RdID data) 256)) (settle (RdIsError data)) l
      else l
  | _ => l
  end.

Section observing.
Context (redact sanitize : string → string).
Local Notation Observe := (Observe redact sanitize).
Local Notation observe_all := (observe_all redact sanitize).

Lemma filter_filter_bool {A} (f g : A → bool) l : List.filter f (List.filter g l) = List.filter (λ x, g x && f x) l.
Proof. induction l as [|x l IH]; [done|]. simpl. destruct (g x); simpl; by rewrite IH. Qed.

Lemma unresolved_spec o id : observer_ok o →
  unresolved o id = List.filter (holds (open_with id) (tools o)) (seq 0 (length (tools o))).
Proof.
  intros H. unfold unresolved. rewrite (ok_index _ H), filter_filter_bool.
  apply List.filter_ext. intros i. unfold holds, open_with. by destruct (tools o !! i).
Qed.

Lemma flush_fields now o :
  let o' := flushAssistantLocked redact now o in
  ObRunID o' = ObRunID o ∧ tools o' = tools o ∧ toolIndexes o' = toolIndexes o ∧ completed o' = completed o ∧
  tool_outcomes (messages o') = tool_outcomes (messages o).
Proof.
  unfold flushAssistantLocked. destruct (_ && _); [done|]. cbn. split_and!; [done..|].
  unfold tool_outcomes. by rewrite list.filter_app, app_nil_r.
Qed.

Lemma observer_ok_ext o o' :
  ObRunID o' = ObRunID o → tools o' = tools o → toolIndexes o' = toolIndexes o →
  tool_outcomes (messages o') = tool_outcomes (messages o) → observer_ok o → observer_ok o'.
Proof. intros E1 E2 E3 E4 [H1 H2 H3 H4]. split; [by rewrite E1|by rewrite E2|by rewrite E2, E3|by rewrite E2, E4]. Qed.

Lemma flush_ok now o : observer_ok o → observer_ok (flushAssistantLocked redact now o).
Proof. destruct (flush_fields now o) as (? & ? & ? & _ & ?). by apply observer_ok_ext. Qed.

Lemma started_tool_ok runID data t : bounded 256 runID → started_tool runID data = Some t →
  tool_ok t ∧ SideEffect t = SessionSideEffectStarted ∧ ResultSeen t = false.
Proof.
  intros Hr. unfold started_tool. destruct (_ || _) eqn:E; [done|]. intros [= <-].
  apply orb_false_elim in E as [[Ei%String.eqb_neq En%String.eqb_neq]%orb_false_elim Ed%negb_false_iff].
  split; [|done]. split; cbn; [|split; [by apply bounded_text|done]|split; [by apply bounded_text|done]|done|].
  - destruct (String.eqb _ ""); [done|by apply bounded_text].
  - left.
Qed.

Lemma start_fields data now o :
  let o' := observe_start redact data now o in
  ObRunID o' = ObRunID o ∧ completed o' = completed o ∧ tool_outcomes (messages o') = tool_outcomes (messages o) ∧
  tools o' = tools o ++ option_list (started_tool (ObRunID o) data) ∧
  match started_tool (ObRunID o) data with
  | Some t => toolIndexes o' =
      <[DtToolCallID t := default [] (toolIndexes o !! DtToolCallID t) ++ [length (tools o)]]> (toolIndexes o)
  | None => toolIndexes o' = toolIndexes o
  end.
Proof.
  unfold observe_start, started_tool. destruct (_ || _); [cbn; by rewrite app_nil_r|].
  set (o1 := if bool_decide _ then o else _). assert (H1 : ObRunID o1 = ObRunID o ∧ tools o1 = tools o ∧
    toolIndexes o1 = toolIndexes o ∧ completed o1 = completed o ∧ messages o1 = messages o)
    by (unfold o1; by destruct (bool_decide _)).
  destruct H1 as (E1 & E2 & E3 & E4 & E5). destruct (flush_fields now o1) as (F1 & F2 & F3 & F4 & F5).
  cbn -[flushAssistantLocked tool_outcomes]. rewrite F1, F2, F3, F4, F5, E1, E2, E3, E4, E5. done.
Qed.

Lemma start_ok data now o : observer_ok o → observer_ok (observe_start redact data now o).
Proof.
  intros H. destruct (start_fields data now o) as (E1 & _ & E3 & E4 & E5).
  destruct (started_tool (ObRunID o) data) as [t|] eqn:Et; simpl in E4.
  2: { rewrite app_nil_r in E4. by apply (observer_ok_ext o). }
  destruct H as [H1 H2 H3 H4]. destruct (started_tool_ok _ _ _ H1 Et) as (Ht & Hs & Hr).
  split; [by rewrite E1| | |].
  - rewrite E4. apply Forall_app. split; [done|by apply list.Forall_singleton].
  - intros id. rewrite E4, E5, holds_snoc, <-H3. unfold has_id. destruct (String.eqb_spec (DtToolCallID t) id) as [->|Hne].
    + rewrite lookup_insert_eq. done.
    + rewrite lookup_insert_ne by done. by rewrite app_nil_r.
  - rewrite E3, E4, H4, list.filter_app, filter_cons_False by congruence. by rewrite app_nil_r.
Qed.

Lemma filter_insert_perm {A} (P : A → Prop) `{∀ x, Decision (P x)} l i (x y : A) :
  l !! i = Some x → ¬ P x → P y → filter P (<[i := y]> l) ≡ₚ y :: filter P l.
Proof.
  intros Hi Hx Hy. rewrite <-(take_drop_middle l i x Hi) at 2. rewrite insert_take_drop by (by eapply lookup_lt_Some).
  rewrite !list.filter_app, filter_cons_True, filter_cons_False by done. by rewrite Permutation_middle.
Qed.

Lemma result_fields data now o : observer_ok o →
  let o' := observe_result redact sanitize data now o in
  let id := durableRunBoundedText (RdID data) 256 in
  ObRunID o' = ObRunID o ∧ completed o' = completed o ∧ toolIndexes o' = toolIndexes o ∧
  tools o' = update_last (open_with id) (settle (RdIsError data)) (tools o) ∧
  (o' = o ∨ ∃ i t, tools o !! i = Some t ∧ open_with id t = true ∧ tools o' = <[i := settle (RdIsError data) t]> (tools o) ∧
     tool_outcomes (messages o') = tool_outcomes (messages o) ++ [tool_outcome (settle (RdIsError data) t)]).
Proof.
  intros H. unfold observe_result. rewrite (unresolved_spec _ _ H).
  set (id := durableRunBoundedText (RdID data) 256).
  pose proof (last_index (open_with id) (settle (RdIsError data)) (tools o)) as Hl.
  destruct (list.last _) as [i|]; [|split_and!; [done..|by left]].
  destruct Hl as (t & Ht & Hopen & Hup). set (o1 := if 1 <? _ then _ else o).
  assert (H1 : ObRunID o1 = ObRunID o ∧ tools o1 = tools o ∧
    toolIndexes o1 = toolIndexes o ∧ completed o1 = completed o ∧ messages o1 = messages o)
    by (unfold o1; by destruct (1 <? _)).
  destruct H1 as (E1 & E2 & E3 & E4 & E5). destruct (flush_fields now o1) as (F1 & F2 & F3 & F4 & F5).
  rewrite F2, E2, Ht. cbn -[flushAssistantLocked tool_outcomes]. rewrite F1, F3, F4, E1, E3, E4, Hup.
  split_and!; [done..|]. right. exists i, t. split_and!; [done..|].
  unfold tool_outcomes in *. rewrite list.filter_app, map_app, F5, E5. cbn. f_equal. f_equal.
  unfold message_outcome, tool_outcome. cbn. by destruct (RdIsError data).
Qed.

Lemma holds_insert (p : durableRunTool → bool) l i t t' :
  l !! i = Some t → p t' = p t → ∀ j, holds p (<[i := t']> l) j = holds p l j.
Proof.
  intros Hi Hp j. unfold holds. destruct (decide (i = j)) as [<-|Hne].
  - rewrite Hi, list_lookup_insert_eq by (by eapply lookup_lt_Some). done.
  - by rewrite list_lookup_insert_ne.
Qed.

Lemma result_ok data now o : observer_ok o → observer_ok (observe_result redact sanitize data now o).
Proof.
  intros H. destruct (result_fields data now o H) as (E1 & _ & E3 & _ & [->|(i & t & Ht & Hopen & E4 & E5)]); [done|].
  destruct H as [H1 H2 H3 H4]. rewrite Forall_elem in H2.
  assert (Hok : tool_ok t) by (eapply H2, list_elem_of_lookup_2, Ht).
  apply andb_prop in Hopen as [_ Hr%negb_true_iff]. split; [by rewrite E1| | |].
  - rewrite E4. apply Forall_insert; [by apply Forall_elem|]. destruct Hok as [K1 K2 K3 K4 K5].
    split; [done..|]. cbn. destruct (RdIsError data); [right; left|left].
  - intros id. rewrite E3, E4, H3, length_insert. apply List.filter_ext. intros j. symmetry. by eapply holds_insert.
  - rewrite E5, E4, H4, (filter_insert_perm _ _ _ _ _ Ht); [|congruence|done].
    by rewrite (comm (++)).
Qed.

Lemma Observe_fields now e o : observer_ok o →
  let o' := Observe now e o in
  observer_ok o' ∧ ObRunID o' = ObRunID o ∧
  (completed o = true → o' = o) ∧
  (completed o = false → tools o' = tools_step (ObRunID o) e (tools o) ∧
     completed o' = match e with DoneEvent _ => true | _ => false end).
Proof.
  intros H. unfold DurableRun.Observe. destruct (completed o) eqn:Hc; [done|].
  destruct e as [[text|]|[data|]|[data|]|data|]; cbn [tools_step]; try done.
  - unfold appendAssistantLocked. repeat case_match; (split_and!; [apply (observer_ok_ext o); done|done..]).
  - destruct (start_fields data now o) as (E1 & E2 & _ & E4 & _). split; [by apply start_ok|].
    split; [done|]. split; [done|]. intros _. split; [done|congruence].
  - destruct (Executed data); [|done]. destruct (result_fields data now o H) as (E1 & E2 & _ & E4 & _).
    split; [by apply result_ok|]. split; [done|]. split; [done|]. intros _. split; [done|congruence].
  - set (o1 := match durableRunTerminalFromEvent data with Some t => o <| terminal := Some t |> | None => o end).
    assert (H1 : ObRunID o1 = ObRunID o ∧ tools o1 = tools o ∧ toolIndexes o1 = toolIndexes o ∧ messages o1 = messages o)
      by (unfold o1; by destruct (durableRunTerminalFromEvent data)).
    destruct H1 as (E1 & E2 & E3 & E4). destruct (flush_fields now o1) as (F1 & F2 & F3 & _ & F5).
    cbn -[flushAssistantLocked]. split; [|split; [congruence|split; [done|intros _; split; [congruence|done]]]].
    apply (observer_ok_ext (flushAssistantLocked redact now o1)); [done..|]. apply flush_ok.
    apply (observer_ok_ext o); try done. by rewrite E4.
Qed.

Lemma observe_all_app es es' o : observe_all (es ++ es') o = observe_all es' (observe_all es o).
Proof. apply fold_left_app. Qed.

Lemma observe_all_ok es o : observer_ok o → observer_ok (observe_all es o) ∧ ObRunID (observe_all es o) = ObRunID o.
Proof.
  revert o. induction es as [|[now e] es IH]; intros o H; [done|]. cbn.
  destruct (Observe_fields now e o H) as (H' & E & _). destruct (IH _ H') as [K1 K2].
  split; [exact K1|]. etransitivity; [exact K2|exact E].
Qed.

Lemma new_ok runID : observer_ok (NewDurableRunObserver runID).
Proof.
  split; [by apply bounded_text|by apply Forall_nil|intros id; cbn; by rewrite lookup_empty|done].
Qed.

(** The events that count: those before the run is done. *)
Fixpoint before_done (es : list Event) : list Event :=
  match es with
  | [] => []
  | DoneEvent _ :: _ => []
  | e :: es' => e :: before_done es'
  end.

Lemma observe_completed es o : observer_ok o → completed o = true → observe_all es o = o.
Proof.
  intros H Hc. induction es as [|[now e] es IH]; [done|]. cbn.
  destruct (Observe_fields now e o H) as (_ & _ & E & _). by rewrite E.
Qed.

Lemma tools_observed es o : observer_ok o → completed o = false →
  tools (observe_all es o) = fold_left (λ l e, tools_step (ObRunID o) e l) (before_done (map snd es)) (tools o).
Proof.
  revert o. induction es as [|[now e] es IH]; intros o H Hc; [done|]. cbn [map snd].
  destruct (Observe_fields now e o H) as (H' & E & _ & Et). destruct (Et Hc) as [Etools Edone].
  change (tools (observe_all es (Observe now e o)) = fold_left (λ l e, tools_step (ObRunID o) e l)
    (before_done (e :: map snd es)) (tools o)).
  destruct (completed (Observe now e o)) eqn:Hc'.
  - destruct e; try discriminate Edone. rewrite (observe_completed es _ H' Hc'). exact Etools.
  - rewrite (IH _ H' Hc'), E, Etools. by destruct e.
Qed.
End observing.

(** The tool call an event is about. *)
Definition event_id (e : Event) : option string :=
  match e with
  | StartEvent (Some data) => Some (durableRunBoundedText (SdID data) 256)
  | ResultEvent (Some data) => Some (durableRunBoundedText (RdID data) 256)
  | _ => None
  end.
Definition events_of (id : string) (es : list (time * Event)) : list Event :=
  filter (λ e, event_id e = Some id) (before_done (map snd es)).

Lemma started_tool_id runID data t :
  started_tool runID data = Some t → DtToolCallID t = durableRunBoundedText (SdID data) 256.
Proof. unfold started_tool. destruct (_ || _); [done|]. by intros [= <-]. Qed.

Lemma tools_step_filter runID e l k :
  filter (λ t, DtToolCallID t = k) (tools_step runID e l) =
  if bool_decide (event_id e = Some k) then tools_step runID e (filter (λ t, DtToolCallID t = k) l)
  else filter (λ t, DtToolCallID t = k) l.
Proof.
  destruct e as [?|[data|]|[data|]|?|]; cbn [tools_step event_id]; try by rewrite bool_decide_eq_false_2.
  - rewrite list.filter_app. destruct (started_tool runID data) as [t|] eqn:Et; simpl.
    + rewrite filter_cons, filter_nil, (started_tool_id _ _ _ Et). case_decide as Hk; case_bool_decide as Hk'.
      * done.
      * congruence.
      * congruence.
      * by rewrite app_nil_r.
    + rewrite !app_nil_r. by destruct (bool_decide _).
  - destruct (Executed data); [|by destruct (bool_decide _)]. case_bool_decide as Hk.
    + injection Hk as Hk. apply update_last_filter; [done|]. unfold open_with, has_id.
      intros t [Ht%String.eqb_eq _]%andb_prop. congruence.
    + apply update_last_elsewhere; [done|]. unfold open_with, has_id.
      intros t [Ht%String.eqb_eq _]%andb_prop. congruence.
Qed.

Lemma tools_fold_filter runID k es l :
  filter (λ t, DtToolCallID t = k) (fold_left (λ l e, tools_step runID e l) es l) =
  fold_left (λ l e, tools_step runID e l) (filter (λ e, event_id e = Some k) es) (filter (λ t, DtToolCallID t = k) l).
Proof.
  revert l. induction es as [|e es IH]; intros l; [done|]. simpl. rewrite IH, tools_step_filter, filter_cons.
  case_bool_decide; case_decide; done.
Qed.

(** ** Lemmas: markers *)

#[export] Instance tool_less_sw : StrictWeak tool_less.
Proof. unfold tool_less. apply _. Qed.

Lemma less_str_total {A} (f : A → string) x y : f x ≠ f y → less_str f x y = true ∨ less_str f y x = true.
Proof.
  intros Hne. unfold less_str. destruct (String.ltb (f x) (f y)) eqn:E1; [by left|].
  destruct (String.ltb (f y) (f x)) eqn:E2; [by right|]. destruct Hne. by apply ltb_trichotomy.
Qed.

(** The marker looks at the tools only in their order. *)
Definition interruption_of (runID : string) (sorted : list durableRunTool) : durableRunTool * string :=
  match sorted with
  | [tool] =>
      (tool, "Agent run ended after tool execution began; reconcile the recorded side effect before resuming.")
  | _ =>
      ({| DtRunID := common_run_id runID sorted; DtToolName := "multiple_tools"; DtToolCallID := "multiple";
          DtInputDigest := aggregate_digest sorted; SideEffect := combined_state sorted; ResultSeen := false |},
       aggregate_summary (length sorted))
  end.

Lemma interruption_sorted o :
  interruptionToolLocked o = interruption_of (ObRunID o) (stable_sort tool_less (tools o)).
Proof.
  unfold interruptionToolLocked. destruct (tools o) as [|t [|t' l]]; [done..|].
  pose proof (Permutation_length (stable_sort_perm tool_less (t :: t' :: l))) as Hl.
  unfold interruption_of. by destruct (stable_sort tool_less (t :: t' :: l)) as [|? [|? ?]].
Qed.

Lemma marker_sorted now reason b o o' :
  ObRunID o = ObRunID o' → stable_sort tool_less (tools o) = stable_sort tool_less (tools o') →
  (b = false → completed o = completed o') →
  reconciliationMarker now reason b o = reconciliationMarker now reason b o'.
Proof.
  intros Hr Hs Hc. unfold reconciliationMarker. rewrite !interruption_sorted, Hr, Hs.
  assert (Hn : bool_decide (tools o = []) = bool_decide (tools o' = [])).
  { apply bool_decide_ext. rewrite <-(stable_sort_nil tool_less (tools o)), <-(stable_sort_nil tool_less (tools o')). by rewrite Hs. }
  rewrite Hn. destruct b; [done|]. by rewrite Hc.
Qed.

(** *** Bounds *)

Lemma pretty_N_go_length (k : nat) (n : N) s :
  (n < 10 ^ N.of_nat k)%N → (strlen (pretty_N_go n s) ≤ strlen s + k)%nat.
Proof.
  revert n s. induction k as [|k IH]; intros n s Hn.
  - assert (n = 0%N) as -> by (simpl in Hn; lia). rewrite pretty_N_go_0. lia.
  - destruct (decide (n = 0%N)) as [->|Hne]; [rewrite pretty_N_go_0; lia|].
    rewrite pretty_N_go_step by lia. etransitivity; [apply IH|simpl; lia].
    rewrite Nat2N.inj_succ, N.pow_succ_r' in Hn. apply N.Div0.div_lt_upper_bound. lia.
Qed.

Lemma pretty_length z : 0 ≤ z < 2 ^ 63 → (strlen (pretty z) ≤ 20)%nat.
Proof.
  intros Hz. destruct z as [|p|p]; [vm_compute; lia| |lia].
  change (pretty (Z.pos p)) with (pretty (N.pos p)). unfold pretty, pretty_N. case_decide; [vm_compute; lia|].
  apply (pretty_N_go_length 20 (N.pos p) ""). change (10 ^ N.of_nat 20)%N with 100000000000000000000%N. lia.
Qed.

Lemma utf8_app s t : utf8 s → utf8 t → utf8 (s +:+ t).
Proof.
  rewrite !utf8_iff, bytes_of_app. intros Hs Ht. induction Hs as [|p rest Hp Hne _ IH]; [done|].
  rewrite <-app_assoc. by constructor.
Qed.

Lemma utf8_pretty (z : Z) : utf8 (pretty z).
Proof.
  apply ValidString_graph, (str_all_impl ApprovalProof.number_char); [|apply ApprovalProof.pretty_Z_number].
  intros c Hc. destruct c as [[] [] [] [] [] [] [] []]; vm_compute in Hc |- *; congruence.
Qed.

Lemma aggregate_summary_ok count : Z.of_nat count < 2 ^ 63 →
  slen (aggregate_summary count) ≤ 1024 ∧ trim_space (aggregate_summary count) ≠ "" ∧ utf8 (aggregate_summary count).
Proof.
  intros Hc. unfold aggregate_summary. split_and!.
  - unfold slen. rewrite !strlen_app. pose proof (pretty_length (Z.of_nat count) ltac:(lia)) as Hp.
    match goal with |- Z.of_nat (strlen ?a + (_ + strlen ?b)) ≤ _ =>
      assert ((strlen a + strlen b)%nat = 126%nat) as Hab by (vm_compute; reflexivity) end. lia.
  - apply led_not_blank; [|done]. right. exists [65]. eexists. split_and!; [reflexivity|by exists 65|done|].
    apply (bool_decide_unpack _). vm_compute. exact I.
  - apply utf8_app; [vm_compute; reflexivity|]. apply utf8_app; [apply utf8_pretty|vm_compute; reflexivity].
Qed.

(** *** The marker is one that a session accepts *)

Record marker_fields_ok (t : durableRunTool) (summary : string) : Prop := {
  fields_run : bounded 256 (DtRunID t);
  fields_name : bounded 128 (DtToolName t);
  fields_named : DtToolName t ≠ "";
  fields_id : bounded 256 (DtToolCallID t);
  fields_digest : sessionInputDigestPattern (DtInputDigest t) = true;
  fields_state : SideEffect t ∈ [SessionSideEffectStarted; SessionSideEffectApplied; SessionSideEffectMayHaveApplied];
  fields_summary : bounded 1024 summary ∧ summary ≠ "";
}.

Lemma digest_pattern_hex s : sessionInputDigestPattern ("sha256:" +:+ sha256_hex s) = true.
Proof.
  destruct (sha256_hex_lower s) as [Hh Hlen]. unfold sessionInputDigestPattern, slen.
  rewrite strlen_app, Hlen. cbn -[sha256_hex]. exact Hh.
Qed.

Lemma digest_pattern_utf8 d : sessionInputDigestPattern d = true → utf8 d.
Proof.
  intros H. apply ValidString_graph. unfold sessionInputDigestPattern in H. split_bools.
  unfold has_prefix in H. apply prefix_spec in H as [u ->]. rewrite str_all_app, andb_true_iff. split; [reflexivity|].
  apply (str_all_impl lower_hex); [exact lower_hex_graph|]. rewrite <-(str_drop_app "sha256:" u). exact H0.
Qed.

Lemma common_run_id_bounded runID sorted :
  bounded 256 runID → Forall tool_ok sorted → bounded 256 (common_run_id runID sorted).
Proof.
  intros Hr Hs. unfold common_run_id.
  cut (∀ s, bounded 256 s → bounded 256 (fold_left (λ id t, if String.eqb id "" then DtRunID t
    else if negb (String.eqb id (DtRunID t)) then runID else id) sorted s)).
  { intros H. apply H. split_and!; [done|done|by left]. }
  induction Hs as [|t l Ht _ IH]; intros s Hb; [done|]. simpl. apply IH.
  destruct (String.eqb s ""); [apply ok_run, Ht|]. by destruct (negb _).
Qed.

Lemma combined_state_cases sorted :
  combined_state sorted = SessionSideEffectApplied ∨ combined_state sorted = SessionSideEffectMayHaveApplied.
Proof. unfold combined_state. destruct (forallb _ _); auto. Qed.

Lemma interruption_fields o : observer_ok o → tools o ≠ [] → Z.of_nat (length (tools o)) < 2 ^ 63 →
  let '(tool, summary) := interruptionToolLocked o in marker_fields_ok tool summary.
Proof.
  intros H Hne Hlen. rewrite interruption_sorted. set (sorted := stable_sort tool_less (tools o)).
  assert (Hs : Forall tool_ok sorted) by (unfold sorted; rewrite (stable_sort_perm tool_less); apply ok_tools, H).
  assert (Hl : length sorted = length (tools o)) by apply Permutation_length, stable_sort_perm.
  assert (Hmany : marker_fields_ok
    {| DtRunID := common_run_id (ObRunID o) sorted; DtToolName := "multiple_tools"; DtToolCallID := "multiple";
       DtInputDigest := aggregate_digest sorted; SideEffect := combined_state sorted; ResultSeen := false |}
    (aggregate_summary (length sorted))).
  { destruct (aggregate_summary_ok (length sorted)) as (? & ? & ?); [lia|].
    split; cbn -[combined_state aggregate_digest aggregate_summary]; try done.
    - by apply common_run_id_bounded; [apply ok_fallback, H|].
    - split_and!; [done|done|by right].
    - split_and!; [done|done|by right].
    - apply digest_pattern_hex.
    - destruct (combined_state_cases sorted) as [-> | ->]; set_solver.
    - split; [split_and!; [done|done|by right]|done]. }
  destruct sorted as [|t [|t' l]]; [exact Hmany| |exact Hmany].
  apply list.Forall_cons in Hs as [[H1 [H2 H3] [H4 _] H5 H6] _]. split; try done.
  - destruct (ResultSeen t); set_solver.
  - split; [split_and!; [done|done|by right]|done].
Qed.

Lemma fields_valid tool summary now reason :
  marker_fields_ok tool summary → bounded 1024 reason → DtRunID tool ≠ "" →
  let m := {| At := now; Reason := reason; RunID := DtRunID tool; ToolName := DtToolName tool;
              ToolCallID := DtToolCallID tool; InputDigest := DtInputDigest tool;
              SideEffectState := SideEffect tool; Summary := summary |} in
  ValidateSessionInterruption m = Ok tt ∧ Forall utf8 (interruption_texts m).
Proof.
  intros [[R1 [R2 R3]] [N1 [N2 N3]] Hn [I1 [I2 _]] Hd Hs [[S1 [S2 S3]] Hs']] [T1 [T2 _]] Hr. cbn.
  destruct R3 as [|R3]; [done|]. destruct N3 as [|N3]; [done|]. destruct S3 as [|S3]; [done|]. split.
  - unfold ValidateSessionInterruption. cbn [Reason RunID ToolName ToolCallID Summary InputDigest SideEffectState].
    repeat match goal with |- context [?a <? slen ?b] => rewrite (proj2 (Z.ltb_ge a (slen b))) by done end.
    rewrite (proj2 (String.eqb_neq (DtRunID tool) "")) by done.
    rewrite !(proj2 (String.eqb_neq (trim_space _) "")) by done. rewrite Hd. cbn -[sessionInputDigestPattern].
    rewrite !elem_of_cons in Hs. destruct Hs as [->|[->|[->|[]%not_elem_of_nil]]]; reflexivity.
  - unfold interruption_texts. cbn.
    repeat (apply list.Forall_cons; split; [try done|]); [by apply digest_pattern_utf8| |by apply Forall_nil].
    rewrite !elem_of_cons in Hs. destruct Hs as [->|[->|[->|[]%not_elem_of_nil]]]; reflexivity.
Qed.

Lemma tools_step_length runID e l : (length (tools_step runID e l) ≤ S (length l))%nat.
Proof.
  assert (Hu : ∀ p f, length (update_last p f l) = length l).
  { intros p f. induction l as [|x l' IH]; [done|]. simpl. destruct (existsb p l'); [simpl; by rewrite IH|].
    by destruct (p x). }
  destruct e as [?|[data|]|[data|]|?|]; simpl; try lia.
  - rewrite length_app. destruct (started_tool runID data); simpl; lia.
  - destruct (Executed data); [rewrite Hu|]; lia.
Qed.

Lemma tools_fold_length runID es l :
  (length (fold_left (λ l e, tools_step runID e l) es l) ≤ length es + length l)%nat.
Proof.
  revert l. induction es as [|e es IH]; intros l; simpl; [lia|]. etransitivity; [apply IH|].
  pose proof (tools_step_length runID e l). lia.
Qed.
Lemma before_done_length es : (length (before_done es) ≤ length es)%nat.
Proof. induction es as [|[] es IH]; simpl; lia. Qed.

(** C38: Whatever the events of a run, once a tool has started there is a marker to hold the
    session with, it is one that [MarkInterrupted] accepts, and its texts are UTF-8, so
    that the session stays readable.  ([length es] fits a machine integer.) *)
Theorem observed_marker_is_valid redact sanitize run es now reason :
  Z.of_nat (length es) < 2 ^ 63 →
  let o := observe_all redact sanitize es (NewDurableRunObserver run) in
  match ReconciliationMarker now reason o with
  | Some m => ValidateSessionInterruption m = Ok tt ∧ Forall utf8 (interruption_texts m) ∧
      (completed o = false → Interruption_ now reason o = Some m)
  | None => HasToolActivity o = false
  end.
Proof.
  intros Hlen o. pose proof (observe_all_ok redact sanitize es _ (new_ok run)) as [H _]. fold o in H.
  unfold ReconciliationMarker, Interruption_, reconciliationMarker, HasToolActivity.
  assert (Hl : Z.of_nat (length (tools o)) < 2 ^ 63).
  { unfold o. rewrite (tools_observed redact sanitize es) by (apply new_ok || done).
    pose proof (tools_fold_length (ObRunID (NewDurableRunObserver run)) (before_done (map snd es)) []) as H1.
    pose proof (before_done_length (map snd es)) as H2. rewrite length_map in H2.
    change (tools (NewDurableRunObserver run)) with (@nil durableRunTool). cbn [length] in H1. lia. }
  case_bool_decide as Ht; [done|]. cbn [negb orb andb].
  pose proof (interruption_fields o H Ht Hl) as Hf. destruct (interruptionToolLocked o) as [tool summary].
  pose proof (bounded_text 1024 reason ltac:(lia)) as Hr. destruct (String.eqb_spec (DtRunID tool) "") as [E|E].
  - destruct Hr as (Hr1 & Hr2 & _). split_and!; [| |by intros ->].
    + unfold ValidateSessionInterruption. cbn -[durableRunBoundedText]. by rewrite (proj2 (Z.ltb_ge 1024 _)).
    + repeat (apply list.Forall_cons; split; [done|]). by apply Forall_nil.
  - destruct (fields_valid _ _ now _ Hf Hr E) as [Hv Hu]. split_and!; [exact Hv|exact Hu|by intros ->].
Qed.

(** C37: The marker does not depend on scheduling.  Two histories in which each tool call has
    the same events in the same order, however the calls are interleaved with each other
    and with text, leave the same marker. *)
Theorem marker_schedule_independent redact sanitize run es es' now reason :
  (∀ id, events_of id es = events_of id es') →
  let o := observe_all redact sanitize es (NewDurableRunObserver run) in
  let o' := observe_all redact sanitize es' (NewDurableRunObserver run) in
  ReconciliationMarker now reason o = ReconciliationMarker now reason o' ∧
  (completed o = completed o' → Interruption_ now reason o = Interruption_ now reason o').
Proof.
  intros He o o'. destruct (observe_all_ok redact sanitize es _ (new_ok run)) as [_ E].
  destruct (observe_all_ok redact sanitize es' _ (new_ok run)) as [_ E'].
  assert (Hs : stable_sort tool_less (tools o) = stable_sort tool_less (tools o')).
  { apply (stable_sort_interleaved tool_less DtToolCallID).
    - intros x y Hne. unfold tool_less, less_then.
      destruct (less_str_total DtToolCallID x y Hne) as [-> | ->]; auto.
    - intros k. unfold o, o'. rewrite !(tools_observed redact sanitize) by (apply new_ok || done).
      rewrite !tools_fold_filter. fold (events_of k es) (events_of k es'). by rewrite He. }
  assert (Hr : ObRunID o = ObRunID o') by (unfold o, o'; congruence).
  split; [by apply marker_sorted|intros Hc; by apply marker_sorted].
Qed.

(** What an event starts. *)
Definition identity (t : durableRunTool) : string * string * string * string :=
  (DtRunID t, DtToolName t, DtToolCallID t, DtInputDigest t).
Definition started (runID : string) (es : list Event) : list durableRunTool :=
  omap (λ e, match e with StartEvent (Some data) => started_tool runID data | _ => None end) es.

Lemma tools_fold_started runID es l :
  map identity (fold_left (λ l e, tools_step runID e l) es l) = map identity l ++ map identity (started runID es).
Proof.
  assert (Hu : ∀ p b l, map identity (update_last p (settle b) l) = map identity l).
  { intros p b l'. induction l' as [|x l' IH]; [done|]. simpl. destruct (existsb p l'); [simpl; by rewrite IH|].
    by destruct (p x). }
  revert l. induction es as [|e es IH]; intros l; [by rewrite app_nil_r|]. simpl. rewrite IH.
  destruct e as [?|[data|]|[data|]|?|]; cbn [tools_step started omap list_omap]; try done.
  - rewrite map_app, <-app_assoc. f_equal. unfold started. simpl. by destruct (started_tool runID data).
  - destruct (Executed data); [by rewrite Hu|done].
Qed.

(** *** The account of the executions

    What the events say, on their own: the executions that began and have no result yet, the
    latest first; the message of each result, in the order of the results; and whether an
    execution began while one with its id had no result. *)

Record Account := { open_calls : list durableRunTool; settled : list SessionMessage; overlapped : bool }.

(** The first element that satisfies the test, and the list without it. *)
Fixpoint take_first {A} (p : A → bool) (l : list A) : option (A * list A) :=
  match l with
  | [] => None
  | x :: l' => if p x then Some (x, l') else prod_map id (cons x) <$> take_first p l'
  end.

Definition is_open (t : durableRunTool) : bool := negb (ResultSeen t).

Section account.
Context (redact sanitize : string → string).

(** The message of a result: what the execution was, what the event says came of it. *)
Definition result_message (t : durableRunTool) (now : time) (data : ResultData) : SessionMessage :=
  let text := durableRunToolResult sanitize (RdResult data) in
  {| Role := "tool"; Content := text; Attachments := []; MsgToolName := DtToolName t;
     ToolInput := Some (JObject [("toolCallId", JString (DtToolCallID t)); ("inputDigest", JString (DtInputDigest t))]);
     ToolResult := text; IsError := RdIsError data; Timestamp := now |}.

Definition account_step (runID : string) (a : Account) (e : time * Event) : Account :=
  match e.2 with
  | StartEvent (Some data) =>
      match started_tool runID data with
      | Some t => {| open_calls := t :: open_calls a; settled := settled a;
                     overlapped := overlapped a || existsb (has_id (DtToolCallID t)) (open_calls a) |}
      | None => a
      end
  | ResultEvent (Some data) =>
      if Executed data then
        match take_first (has_id (durableRunBoundedText (RdID data) 256)) (open_calls a) with
        | Some (t, rest) => {| open_calls := rest; settled := settled a ++ [result_message t e.1 data]; overlapped := overlapped a |}
        | None => a
        end
      else a
  | _ => a
  end.
(** The events up to the end of the run. *)
Fixpoint until_done (es : list (time * Event)) : list (time * Event) :=
  match es with
  | [] => []
  | e :: es' => match e.2 with DoneEvent _ => [] | _ => e :: until_done es' end
  end.
Definition account (runID : string) (es : list (time * Event)) : Account :=
  fold_left (account_step runID) (until_done es) {| open_calls := []; settled := []; overlapped := false |}.

Definition tool_messages (ms : list SessionMessage) : list SessionMessage := filter (λ m, Role m = "tool") ms.
Definition open_tools (o : DurableRunObserver) : list durableRunTool := reverse (List.filter is_open (tools o)).

Lemma reverse_filter_snoc l (x : durableRunTool) :
  reverse (List.filter is_open (l ++ [x])) = (if is_open x then [x] else []) ++ reverse (List.filter is_open l).
Proof. rewrite List.filter_app, reverse_app. simpl. by destruct (is_open x). Qed.

(** The latest open execution with an id is the one that is settled. *)
Lemma take_first_open id b l :
  match take_first (has_id id) (reverse (List.filter is_open l)) with
  | Some (t, rest) => list.last (List.filter (open_with id) l) = Some t ∧
      rest = reverse (List.filter is_open (update_last (open_with id) (settle b) l))
  | None => List.filter (open_with id) l = []
  end.
Proof.
  induction l as [|x l IH] using rev_ind; [done|].
  assert (Hw : open_with id x = has_id id x && is_open x) by done.
  rewrite reverse_filter_snoc, update_last_snoc, List.filter_app. cbn [List.filter]. rewrite Hw.
  destruct (is_open x) eqn:Ho; cbn [app take_first].
  - rewrite andb_true_r. destruct (has_id id x).
    + rewrite last_snoc, reverse_filter_snoc. done.
    + rewrite app_nil_r, reverse_filter_snoc, Ho. destruct (take_first _ _) as [[t rest]|]; cbn; [|done].
      destruct IH as [H1 ->]. done.
  - rewrite andb_false_r, app_nil_r, reverse_filter_snoc, Ho. exact IH.
Qed.

Lemma last_filter_index (p : durableRunTool → bool) l :
  list.last (List.filter (holds p l) (seq 0 (length l))) ≫= (λ i, l !! i) = list.last (List.filter p l) ∧
  length (List.filter (holds p l) (seq 0 (length l))) = length (List.filter p l).
Proof.
  induction l as [|x l [IH1 IH2]] using rev_ind; [done|]. rewrite holds_snoc, List.filter_app, !length_app, IH2. cbn.
  destruct (p x).
  - rewrite !last_snoc. split; [|done]. simpl. by apply list_lookup_middle.
  - rewrite !app_nil_r. split; [|done]. rewrite <- IH1. destruct (list.last _) as [i|] eqn:Hi; [|done]. simpl.
    apply list.last_Some_elem_of, list_elem_of_In, filter_In in Hi as [Hi%in_seq _]. apply lookup_app_l. lia.
Qed.

Lemma open_with_filter id l : List.filter (open_with id) l = List.filter (has_id id) (List.filter is_open l).
Proof. rewrite filter_filter_bool. apply List.filter_ext. intros t. unfold open_with, is_open. apply andb_comm. Qed.

Lemma existsb_filter {A} (p : A → bool) l : existsb p l = negb (bool_decide (List.filter p l = [])).
Proof. induction l as [|x l IH]; [done|]. simpl. destruct (p x); [done|exact IH]. Qed.
Lemma filter_reverse_nil {A} (p : A → bool) l : List.filter p (reverse l) = reverse (List.filter p l).
Proof.
  induction l as [|x l IH]; [done|]. rewrite reverse_cons, List.filter_app, IH. simpl.
  destruct (p x); [by rewrite reverse_cons|by rewrite app_nil_r].
Qed.
Lemma existsb_open id l : existsb (has_id id) (reverse (List.filter is_open l)) = negb (bool_decide (List.filter (open_with id) l = [])).
Proof.
  rewrite existsb_filter, filter_reverse_nil, <- open_with_filter. f_equal. apply bool_decide_ext.
  split; [intros E; by rewrite <- (reverse_involutive (List.filter _ l)), E|by intros ->].
Qed.

Lemma flush_messages now o :
  let o' := flushAssistantLocked redact now o in
  tool_messages (messages o') = tool_messages (messages o) ∧ ambiguousToolIDs o' = ambiguousToolIDs o.
Proof.
  unfold flushAssistantLocked. destruct (_ && _); [done|]. cbn. split; [|done].
  unfold tool_messages. by rewrite list.filter_app, app_nil_r.
Qed.

Lemma unresolved_nil o id : observer_ok o → bool_decide (unresolved o id = []) = bool_decide (List.filter (open_with id) (tools o) = []).
Proof.
  intros H. rewrite (unresolved_spec _ _ H). apply bool_decide_ext. rewrite <- !length_zero_iff_nil.
  by rewrite (proj2 (last_filter_index _ _)).
Qed.

Lemma start_account data now o : observer_ok o →
  let o' := observe_start redact data now o in
  tool_messages (messages o') = tool_messages (messages o) ∧
  ambiguousToolIDs o' = ambiguousToolIDs o ||
    match started_tool (ObRunID o) data with Some t => existsb (has_id (DtToolCallID t)) (open_tools o) | None => false end.
Proof.
  intros H. unfold observe_start, started_tool. destruct (_ || _); [cbn; by rewrite orb_false_r|]. cbn [DtToolCallID].
  unfold open_tools. rewrite existsb_open, <- (unresolved_nil _ _ H).
  destruct (bool_decide _); cbn -[flushAssistantLocked tool_messages].
  - destruct (flush_messages now o) as [-> ->]. by rewrite orb_false_r.
  - match goal with |- context [flushAssistantLocked redact now ?x] => destruct (flush_messages now x) as [-> ->] end.
    by rewrite orb_true_r.
Qed.

Lemma result_account data now o : observer_ok o →
  let o' := observe_result redact sanitize data now o in
  let open := List.filter (open_with (durableRunBoundedText (RdID data) 256)) (tools o) in
  match list.last open with
  | Some t => tool_messages (messages o') = tool_messages (messages o) ++ [result_message t now data] ∧
      ambiguousToolIDs o' = ambiguousToolIDs o || (1 <? Z.of_nat (length open))
  | None => o' = o
  end.
Proof.
  intros H. unfold observe_result. rewrite (unresolved_spec _ _ H). set (id := durableRunBoundedText (RdID data) 256).
  destruct (last_filter_index (open_with id) (tools o)) as [Hl Hn]. rewrite Hn.
  pose proof (last_index (open_with id) (settle false) (tools o)) as Hi. cbv zeta. rewrite <- Hl.
  destruct (list.last _) as [i|]; [|done]. destruct Hi as (t & Ht & _ & _). simpl. rewrite Ht.
  set (o1 := if 1 <? _ then _ else o).
  assert (H1 : tools o1 = tools o ∧ messages o1 = messages o ∧
    ambiguousToolIDs o1 = ambiguousToolIDs o || (1 <? Z.of_nat (length (List.filter (open_with id) (tools o))))).
  { unfold o1. destruct (1 <? _); [by rewrite orb_true_r|by rewrite orb_false_r]. }
  destruct H1 as (E2 & E5 & E6). destruct (flush_fields redact now o1) as (_ & F2 & _ & _ & _). destruct (flush_messages now o1) as [F3 F4].
  rewrite F2, E2, Ht. cbn -[flushAssistantLocked tool_messages]. rewrite F4, E6. split; [|done].
  unfold tool_messages in *. rewrite list.filter_app, F3, E5. done.
Qed.

(** The observer's state is the account. *)
Record accounted (o : DurableRunObserver) (a : Account) : Prop := {
  ac_ok : observer_ok o;
  ac_open : open_tools o = open_calls a;
  ac_settled : tool_messages (messages o) = settled a;
  ac_overlapped : ambiguousToolIDs o = overlapped a;
  ac_distinct : overlapped a = false → NoDup (map DtToolCallID (open_calls a));
}.

Lemma filter_id_le id (l : list durableRunTool) : NoDup (map DtToolCallID l) → (length (List.filter (has_id id) l) ≤ 1)%nat.
Proof.
  induction l as [|x l IH]; simpl; [lia|]. intros [Hx Hl]%list.NoDup_cons. unfold has_id at 1.
  destruct (String.eqb_spec (DtToolCallID x) id) as [<-|]; [|by apply IH]. simpl.
  enough (List.filter (has_id (DtToolCallID x)) l = []) as -> by (simpl; lia).
  destruct (List.filter _ l) as [|y l'] eqn:E; [done|]. destruct Hx.
  assert (Hy : In y (List.filter (has_id (DtToolCallID x)) l)) by (rewrite E; by left).
  apply filter_In in Hy as [Hy%list_elem_of_In Hid%String.eqb_eq]. rewrite <- Hid. by apply list_elem_of_fmap_2.
Qed.

Lemma take_first_ids p (l : list durableRunTool) t rest :
  take_first p l = Some (t, rest) → map DtToolCallID l ≡ₚ DtToolCallID t :: map DtToolCallID rest.
Proof.
  revert t rest. induction l as [|x l IH]; intros t rest; simpl; [done|]. destruct (p x); [by intros [= <- <-]|].
  destruct (take_first p l) as [[t' rest']|]; [|done]. simpl. intros [= <- <-]. rewrite (IH _ _ eq_refl). simpl.
  apply Permutation_swap.
Qed.

Lemma start_accounted data now o a : accounted o a →
  accounted (observe_start redact data now o) (account_step (ObRunID o) a (now, StartEvent (Some data))).
Proof.
  intros [H1 H2 H3 H4 H5]. destruct (start_fields redact data now o) as (_ & _ & _ & Et & _).
  destruct (start_account data now o H1) as [Em Ea]. pose proof (start_ok redact data now o H1) as Hok.
  unfold account_step. simpl. destruct (started_tool (ObRunID o) data) as [t|] eqn:Hs; simpl in Et.
  - destruct (started_tool_ok _ _ _ (ok_fallback _ H1) Hs) as (_ & _ & Hr).
    assert (Eo : open_tools (observe_start redact data now o) = t :: open_calls a).
    { unfold open_tools. rewrite Et, reverse_filter_snoc. unfold is_open at 1. rewrite Hr. simpl. f_equal. exact H2. }
    constructor; simpl; [done|done|congruence|by rewrite Ea, H2, H4|].
    intros [Ho Hx]%orb_false_iff. apply list.NoDup_cons. split; [|by apply H5].
    intros (y & Hy & Hin)%list_elem_of_fmap. apply not_true_iff_false in Hx. apply Hx, existsb_exists. exists y.
    split; [by apply list_elem_of_In|]. unfold has_id. by rewrite Hy, String.eqb_refl.
  - constructor; [done| |congruence|by rewrite Ea, orb_false_r|done]. unfold open_tools. by rewrite Et, app_nil_r.
Qed.

Lemma result_accounted data now o a : accounted o a → Executed data = true →
  accounted (observe_result redact sanitize data now o) (account_step (ObRunID o) a (now, ResultEvent (Some data))).
Proof.
  intros [H1 H2 H3 H4 H5] Hex. destruct (result_fields redact sanitize data now o H1) as (_ & _ & _ & Et & _).
  pose proof (result_account data now o H1) as Hr. pose proof (result_ok redact sanitize data now o H1) as Hok.
  unfold account_step. simpl. rewrite Hex, <- H2. unfold open_tools at 1. cbv zeta in Et, Hr.
  set (id := durableRunBoundedText (RdID data) 256) in *.
  pose proof (take_first_open id (RdIsError data) (tools o)) as Hf.
  pose proof (take_first_ids (has_id id) (reverse (List.filter is_open (tools o)))) as Hids.
  destruct (take_first _ _) as [[t rest]|].
  - destruct Hf as [Hl ->]. rewrite Hl in Hr. destruct Hr as [Em Ea]. specialize (Hids _ _ eq_refl).
    assert (Ho : overlapped a = false → (length (List.filter (open_with id) (tools o)) ≤ 1)%nat).
    { intros Hoa. rewrite open_with_filter. rewrite <- length_reverse, <- filter_reverse_nil. apply filter_id_le.
      change (reverse (List.filter is_open (tools o))) with (open_tools o). rewrite H2. by apply H5. }
    constructor; simpl; [done|unfold open_tools; by rewrite Et|congruence| |].
    + rewrite Ea, H4. destruct (overlapped a) eqn:Hoa; [done|]. specialize (Ho eq_refl). simpl. apply Z.ltb_ge. lia.
    + intros Hoa. specialize (H5 Hoa). rewrite <- H2 in H5. unfold open_tools in H5. rewrite Hids in H5. by apply list.NoDup_cons in H5 as [_ ?].
  - rewrite Hf in Hr. simpl in Hr. rewrite Hr. by constructor.
Qed.

Lemma accounted_ext o o' a : accounted o a → observer_ok o' → tools o' = tools o →
  tool_messages (messages o') = tool_messages (messages o) → ambiguousToolIDs o' = ambiguousToolIDs o → accounted o' a.
Proof. intros [H1 H2 H3 H4 H5] Hok E1 E2 E3. constructor; [done|unfold open_tools; by rewrite E1|congruence..|done]. Qed.

Lemma observe_accounted now e o a : accounted o a → completed o = false →
  accounted (Observe redact sanitize now e o) (account_step (ObRunID o) a (now, e)).
Proof.
  intros Ha Hc. destruct (Observe_fields redact sanitize now e o (ac_ok _ _ Ha)) as (Hok & _ & _ & Ht). specialize (Ht Hc) as [Ht _].
  revert Hok Ht. unfold DurableRun.Observe. rewrite Hc. destruct e as [[text|]|[data|]|[data|]|data|]; intros Hok Ht; try exact Ha.
  - apply (accounted_ext o); [done|done|done| |]; unfold appendAssistantLocked; repeat case_match; done.
  - by apply start_accounted.
  - destruct (Executed data) eqn:Hex; [by apply result_accounted|]. unfold account_step. simpl. by rewrite Hex.
  - set (o1 := match durableRunTerminalFromEvent data with Some t => o <| terminal := Some t |> | None => o end) in *.
    assert (H1 : messages o1 = messages o ∧ ambiguousToolIDs o1 = ambiguousToolIDs o) by (unfold o1; by destruct (durableRunTerminalFromEvent data)).
    destruct H1 as [E4 E5]. destruct (flush_messages now o1) as [F1 F2].
    apply (accounted_ext o); [done|done|exact Ht| |]; cbn -[flushAssistantLocked tool_messages]; congruence.
Qed.

Lemma observe_all_accounted es o a : accounted o a → completed o = false →
  accounted (observe_all redact sanitize es o) (fold_left (account_step (ObRunID o)) (until_done es) a).
Proof.
  revert o a. induction es as [|[now e] es IH]; intros o a Ha Hc; [done|].
  pose proof (observe_accounted now e o a Ha Hc) as Hs.
  destruct (Observe_fields redact sanitize now e o (ac_ok _ _ Ha)) as (H' & E & _ & Et). destruct (Et Hc) as [_ Edone].
  change (observe_all redact sanitize ((now, e) :: es) o) with (observe_all redact sanitize es (Observe redact sanitize now e o)).
  destruct (completed (Observe redact sanitize now e o)) eqn:Hc'.
  - destruct e; try discriminate Edone. simpl. rewrite (observe_completed redact sanitize es _ H' Hc'). exact Hs.
  - specialize (IH _ _ Hs Hc'). rewrite E in IH. destruct e; try exact IH. discriminate Edone.
Qed.

Lemma account_ok run es : accounted (observe_all redact sanitize es (NewDurableRunObserver run)) (account (durableRunBoundedText run 256) es).
Proof.
  apply observe_all_accounted; [|done]. constructor; [apply new_ok|done..|]. intros _. apply NoDup_nil_2.
Qed.
End account.

Lemma until_done_events es : map snd (until_done es) = before_done (map snd es).
Proof. induction es as [|[t e] es IH]; [done|]. simpl. destruct e; simpl; by rewrite ?IH. Qed.

(** C39: No execution is lost, and none is given an outcome that no result had.  Take the events
    up to the end of the run (what comes after it is dropped, and so is a start whose id, name
    or input digest is not well-formed).  The observer has one entry for each execution that
    began, in the order they began.  The tool messages it will save are, one for one and in the
    order of the results, those of the results of executed calls: each names the latest
    execution with its id that had no result, and carries the text and the error flag of that
    event.  The executions it holds to be unresolved are the ones that are left.  And it asks
    for a reconciliation exactly when some are left or one began while another with its id had
    no result; the state of an entry is the outcome of its message. *)
Theorem executions_accounted redact sanitize run es :
  let o := observe_all redact sanitize es (NewDurableRunObserver run) in
  let a := account sanitize (durableRunBoundedText run 256) es in
  map identity (tools o) = map identity (started (durableRunBoundedText run 256) (before_done (map snd es))) ∧
  tool_messages (messages o) = settled a ∧
  List.filter is_open (tools o) = reverse (open_calls a) ∧
  ReconciliationRequired o = overlapped a || negb (bool_decide (open_calls a = [])) ∧
  map message_outcome (settled a) ≡ₚ map tool_outcome (filter (λ t, ResultSeen t = true) (tools o)).
Proof.
  intros o a. destruct (account_ok redact sanitize run es) as [H1 H2 H3 H4 _]. fold o a in H1, H2, H3, H4. split_and!.
  - unfold o. rewrite (tools_observed redact sanitize es) by (apply new_ok || done). by rewrite tools_fold_started.
  - exact H3.
  - rewrite <- H2. unfold open_tools. by rewrite reverse_involutive.
  - unfold ReconciliationRequired. rewrite H4, <- H2. f_equal. unfold open_tools. change (λ t, negb (ResultSeen t)) with is_open.
    rewrite existsb_filter. f_equal. apply bool_decide_ext.
    split; [by intros ->|intros E; by rewrite <- (reverse_involutive (List.filter _ _)), E].
  - rewrite <- H3. apply ok_messages, H1.
Qed.

(** *** The journal *)

Lemma bounded_text_trim limit value : utf8 (trim_space value) → slen (trim_space value) ≤ limit → 0 < limit →
  durableRunBoundedText value limit = trim_space value.
Proof.
  intros Hu Hl Hp. unfold durableRunBoundedText. rewrite Hu, (proj2 (Z.ltb_lt 0 limit)) by done.
  by rewrite (proj2 (Z.ltb_ge limit _)).
Qed.

(** The event of an execution the journal knows of. *)
Definition start_of (entry : ToolExecutionJournalEntry) : Event :=
  StartEvent (Some {| SdID := JeID entry; SdName := JeName entry; SdInputDigest := trim_space (JeInputDigest entry);
                      SdRunID := JeRunID entry |}).
Definition entry_texts (entry : ToolExecutionJournalEntry) : list string :=
  [trim_space (JeID entry); trim_space (JeName entry); trim_space (JeRunID entry)].

Lemma check_interruption m : ValidateSessionInterruption m = Ok tt → InputDigest m ≠ "" ∨ RunID m ≠ "" →
  slen (RunID m) ≤ 256 ∧ slen (ToolName m) ≤ 128 ∧ slen (ToolCallID m) ≤ 256 ∧
  sessionInputDigestPattern (InputDigest m) = true.
Proof.
  unfold ValidateSessionInterruption. destruct (_ || (1024 <? slen (Summary m))) eqn:E1; [done|].
  destruct (_ && String.eqb (Summary m) "") eqn:E2.
  { intros _ H. split_bools. naive_solver. }
  destruct (_ || String.eqb (trim_space (Summary m)) ""); [done|].
  destruct (sessionInputDigestPattern (InputDigest m)) eqn:E3; [|done]. intros _ _.
  repeat (apply orb_false_elim in E1 as [E1 ?]). split_and!; [lia..|done].
Qed.

Lemma journal_state_started runID ob entry t :
  journal_state runID entry = Ok t → Forall utf8 (entry_texts entry) →
  started_tool ob {| SdID := JeID entry; SdName := JeName entry; SdInputDigest := trim_space (JeInputDigest entry);
                     SdRunID := JeRunID entry |} = Some t ∧ DtRunID t = runID ∧ runID ≠ "" ∧
  SideEffect t = SessionSideEffectStarted ∧ ResultSeen t = false.
Proof.
  unfold journal_state, entry_texts. intros H Hu. repeat (apply list.Forall_cons in Hu as [? Hu]).
  apply result_bind_ok in H as (? & Hg & H). apply result_bind_ok in H as (? & Hr & H).
  apply result_bind_ok in H as (? & Hv & H). injection H as <-. apply guard_err_ok in Hg, Hr. split_bools.
  subst runID. destruct x1. apply check_interruption in Hv as (L1 & L2 & L3 & L4); [|by right].
  cbn in L1, L2, L3, L4. split; [|done].
  unfold started_tool. cbn [SdID SdName SdInputDigest SdRunID]. rewrite !bounded_text_trim by done.
  by rewrite !(proj2 (String.eqb_neq _ _)), L4 by done.
Qed.

Definition fresh_tool (runID : string) (t : durableRunTool) : Prop :=
  DtRunID t = runID ∧ runID ≠ "" ∧ SideEffect t = SessionSideEffectStarted ∧ ResultSeen t = false.

Lemma journal_states_started runID ob entries ts :
  journal_states runID entries = Ok ts → Forall utf8 (flat_map entry_texts entries) →
  started ob (map start_of entries) = ts ∧ Forall (fresh_tool runID) ts.
Proof.
  revert ts. induction entries as [|e entries IH]; intros ts H Hu; cbn [journal_states] in H.
  - injection H as <-. split; [done|by apply Forall_nil].
  - cbn [flat_map] in Hu. apply Forall_app in Hu as [Hu1 Hu2].
    apply result_bind_ok in H as (t & Ht & H). apply result_bind_ok in H as (ts' & Hts & H). injection H as <-.
    destruct (journal_state_started _ ob _ _ Ht Hu1) as [E Hf]. destruct (IH _ Hts Hu2) as [<- HF].
    split; [|by apply list.Forall_cons]. unfold started, start_of in *. cbn -[started_tool]. by rewrite E.
Qed.

Lemma only_starts es entries : es ≡ₚ map start_of entries → Forall (λ e, ∃ entry, e = start_of entry) es.
Proof.
  intros Hp. apply Forall_elem. intros e He. rewrite Hp in He.
  apply list_elem_of_In, in_map_iff in He as (entry & <- & _). by eexists.
Qed.
Lemma starts_before_done es : Forall (λ e, ∃ entry, e = start_of entry) es → before_done es = es.
Proof. induction 1 as [|e es [entry ->] _ IH]; [done|]. cbn. by rewrite IH. Qed.
Lemma starts_fold runID es l : Forall (λ e, ∃ entry, e = start_of entry) es →
  fold_left (λ l e, tools_step runID e l) es l = l ++ started runID es.
Proof.
  intros H. revert l. induction H as [|e es [entry ->] _ IH]; intros l; [by rewrite app_nil_r|].
  unfold start_of. cbn -[started_tool]. rewrite IH, <-app_assoc. f_equal. unfold started. simpl.
  by destruct (started_tool runID _).
Qed.

Lemma tool_less_tie runID x y : fresh_tool runID x → fresh_tool runID y →
  tool_less x y = false → tool_less y x = false → x = y.
Proof.
  intros (X1 & _ & X2 & X3) (Y1 & _ & Y2 & Y3). unfold tool_less, less_then, less_str.
  intros [H1 H2]%orb_false_elim [H3 H4]%orb_false_elim. pose proof (ltb_trichotomy _ _ H1 H3) as E1.
  rewrite E1, ltb_irrefl in H2, H4. simpl in H2, H4.
  apply orb_false_elim in H2 as [H2 H5]. apply orb_false_elim in H4 as [H4 H6].
  pose proof (ltb_trichotomy _ _ H2 H4) as E2. rewrite E2, ltb_irrefl in H5, H6. simpl in H5, H6.
  pose proof (ltb_trichotomy _ _ H5 H6) as E3. destruct x, y; simpl in *; congruence.
Qed.

Lemma fresh_common_run_id runID ob t l : Forall (fresh_tool runID) (t :: l) → common_run_id ob (t :: l) = runID.
Proof.
  intros [(<- & Hne & _) Hl]%list.Forall_cons. unfold common_run_id. cbn.
  induction Hl as [|x l (Hx & _) _ IH]; [done|]. cbn. by rewrite (proj2 (String.eqb_neq _ _) Hne), Hx, String.eqb_refl.
Qed.
Lemma fresh_combined_state runID t l :
  Forall (fresh_tool runID) (t :: l) → combined_state (t :: l) = SessionSideEffectMayHaveApplied.
Proof. intros [(_ & _ & E & _) _]%list.Forall_cons. unfold combined_state. cbn. by rewrite E. Qed.

Definition marker_identity (m : SessionInterruption) : string * string * string * string * string :=
  (RunID m, ToolName m, ToolCallID m, InputDigest m, SideEffectState m).

(** C40: The journal, which marks a session before its tools run, and the observer, which saw
    them start in any order, agree on the identity of the marker: the run, the tool, the
    call, the digest of what was started and the state of the side effects. *)
Theorem journal_agrees_with_observer redact sanitize run entries at_ reason m es now reason' :
  AggregateToolExecutionJournal entries at_ reason = Ok m →
  Forall utf8 (flat_map entry_texts entries) →
  map snd es ≡ₚ map start_of entries →
  ∃ m', ReconciliationMarker now reason' (observe_all redact sanitize es (NewDurableRunObserver run)) = Some m' ∧
    marker_identity m' = marker_identity m.
Proof.
  unfold AggregateToolExecutionJournal. destruct entries as [|e0 entries0]; [done|]. set (entries := e0 :: entries0).
  intros H Hu Hp. apply result_bind_ok in H as (ts & Hts & H). apply result_bind_ok in H as (? & _ & H).
  injection H as <-. set (o := observe_all redact sanitize es _). set (ob := ObRunID (NewDurableRunObserver run)).
  destruct (journal_states_started _ ob _ _ Hts Hu) as [Es Hf].
  assert (Ho : tools o = started ob (map snd es)).
  { unfold o. rewrite (tools_observed redact sanitize es) by (apply new_ok || done). pose proof (only_starts _ _ Hp).
    by rewrite starts_before_done, starts_fold. }
  assert (Hperm : tools o ≡ₚ ts). { rewrite Ho, <-Es. unfold started. by rewrite Hp. }
  assert (Hsort : stable_sort tool_less (tools o) = stable_sort tool_less ts).
  { apply (stable_sort_unique tool_less); [|done]. rewrite Forall_elem in Hf. intros t t'. rewrite Hperm.
    intros Ht Ht'. apply (tool_less_tie _ t t' (Hf t Ht) (Hf t' Ht')). }
  rewrite <-(stable_sort_perm tool_less) in Hf. unfold ReconciliationMarker, reconciliationMarker.
  rewrite interruption_sorted, Hsort.
  assert (Hne : stable_sort tool_less ts ≠ []).
  { rewrite stable_sort_nil. intros ->. cbn [journal_states entries] in Hts.
    apply result_bind_ok in Hts as (? & _ & Hts). apply result_bind_ok in Hts as (? & _ & Hts). discriminate Hts. }
  rewrite (bool_decide_eq_false_2 (tools o = [])) by (by rewrite <-(stable_sort_nil tool_less), Hsort).
  destruct (stable_sort tool_less ts) as [|t [|t' l]] eqn:El; [done| |].
  - apply list.Forall_cons in Hf as [(Er & Hr & Est & _) _]. cbn. rewrite Er in *.
    rewrite (proj2 (String.eqb_neq _ _) Hr). eexists. split; [done|]. unfold marker_identity. cbn. by rewrite Est.
  - cbn -[combined_state common_run_id aggregate_digest aggregate_summary].
    rewrite (fresh_common_run_id _ _ _ _ Hf), (fresh_combined_state _ _ _ Hf).
    apply list.Forall_cons in Hf as [(Er & Hr & _) _]. rewrite (proj2 (String.eqb_neq _ _) Hr). by eexists.
Qed.

(** ** Concrete runs *)

Definition ex_digest_of (c : ascii) : string := "sha256:" +:+ Nat.iter 64 (String c) "".
Definition ex_start (id name : string) (c : ascii) : Event :=
  StartEvent (Some {| SdID := id; SdName := name; SdInputDigest := ex_digest_of c; SdRunID := "run-1" |}).
Definition ex_result (id : string) (isError : bool) : Event :=
  ResultEvent (Some {| RdID := id; RdResult := "done"; RdIsError := isError; Executed := true |}).
Definition ex_history : list (time * Event) :=
  [(1, ex_start "a" "Read" "1"); (2, ex_start "b" "Edit" "2"); (3, ex_result "a" false); (4, TextEvent (Some "ok"));
   (5, ex_result "b" true)].
(** The same calls one after the other. *)
Definition ex_sequential : list (time * Event) :=
  [(1, ex_start "b" "Edit" "2"); (2, ex_result "b" true); (3, ex_start "a" "Read" "1"); (4, ex_result "a" false)].
Definition ex_observer (es : list (time * Event)) : DurableRunObserver :=
  observe_all (λ s, s) (λ s, s) es (NewDurableRunObserver "run-1").

(** The messages of the history: the outcomes are those of the result events. *)
Example ex_account :
  map (λ m, (MsgToolName m, ToolResult m, IsError m)) (settled (account (λ s, s) "run-1" ex_history)) =
    [("Read", "done", false); ("Edit", "done", true)] ∧
  tool_messages (messages (ex_observer ex_history)) = settled (account (λ s, s) "run-1" ex_history).
Proof. vm_compute. split; reflexivity. Qed.

Lemma observed_marker_is_valid_witness :
  HasToolActivity (ex_observer ex_history) = true ∧
  match ReconciliationMarker 9 "lost" (ex_observer ex_history) with
  | Some m => ValidateSessionInterruption m = Ok tt ∧ Forall utf8 (interruption_texts m) ∧
      (completed (ex_observer ex_history) = false → Interruption_ 9 "lost" (ex_observer ex_history) = Some m)
  | None => HasToolActivity (ex_observer ex_history) = false
  end.
Proof.
  split; [vm_compute; reflexivity|].
  apply (observed_marker_is_valid (λ s, s) (λ s, s) "run-1" ex_history 9 "lost"). vm_compute. reflexivity.
Defined.

Lemma marker_schedule_independent_witness :
  ReconciliationMarker 9 "lost" (ex_observer ex_history) = ReconciliationMarker 9 "lost" (ex_observer ex_sequential).
Proof.
  refine (proj1 (marker_schedule_independent (λ s, s) (λ s, s) "run-1" ex_history ex_sequential 9 "lost" _)).
  intros id. destruct (decide (id = "a")) as [->|Ha]; [vm_compute; reflexivity|].
  destruct (decide (id = "b")) as [->|Hb]; [vm_compute; reflexivity|].
  assert (H : ∀ e, event_id e = Some "a" ∨ event_id e = Some "b" ∨ event_id e = None → event_id e ≠ Some id)
    by (intros e [-> | [-> | ->]]; congruence).
  unfold events_of, ex_history, ex_sequential. cbn [map snd before_done ex_start ex_result].
  rewrite !filter_cons_False by (apply H; vm_compute; auto). reflexivity.
Defined.

Definition ex_entries : list ToolExecutionJournalEntry :=
  [{| JeID := "a"; JeName := "Read"; JeInputDigest := ex_digest_of "1"; JeRunID := "run-1" |};
   {| JeID := "b"; JeName := "Edit"; JeInputDigest := ex_digest_of "2"; JeRunID := "run-1" |}].
Definition ex_starts : list (time * Event) := [(1, ex_start "b" "Edit" "2"); (2, ex_start "a" "Read" "1")].

Definition ex_journal_marker : SessionInterruption := Eval vm_compute in
  match AggregateToolExecutionJournal ex_entries 5 "started" with
  | Ok m => m
  | Err _ => Build_SessionInterruption 0 "" "" "" "" "" "" ""
  end.
Lemma ex_journal_ok : AggregateToolExecutionJournal ex_entries 5 "started" = Ok ex_journal_marker.
Proof. vm_compute. reflexivity. Qed.

Lemma journal_agrees_with_observer_witness :
  ∃ m', ReconciliationMarker 9 "lost" (ex_observer ex_starts) = Some m' ∧
    marker_identity m' = marker_identity ex_journal_marker.
Proof.
  apply (journal_agrees_with_observer (λ s, s) (λ s, s) "run-1" ex_entries 5 "started" ex_journal_marker ex_starts 9 "lost").
  - exact ex_journal_ok.
  - repeat (apply list.Forall_cons; split; [vm_compute; reflexivity|]). by apply Forall_nil.
  - apply Permutation_swap.
Defined.

(** Two calls of one id that overlap: which of them a result settles depends on scheduling,
    and so does the digest, since the order does not look at the state. *)
Definition ex_overlap (first : bool) : list (time * Event) :=
  [(1, ex_start "a" "Edit" "1"); (2, ex_start "a" "Edit" "1"); (3, ex_result "a" first); (4, ex_result "a" (negb first))].
Example reused_id_depends_on_schedule :
  (InputDigest <$> ReconciliationMarker 9 "lost" (ex_observer (ex_overlap true))) ≠
  (InputDigest <$> ReconciliationMarker 9 "lost" (ex_observer (ex_overlap false))).
Proof. vm_compute. discriminate. Qed.
